(* ===== verification/_CoqProject ===== *)
-Q . S2P
Prelude.v
ScanInt.v
StrUtils.v
Threeroe.v
SvTo.v
Netstring.v
PathUtils.v
UcharSpan.v
Base64.v
Expiring.v
Secrets.v
ContentCodec.v
Backend.v
DiskCache.v
ServerParse.v
Envelope.v
ServerReply.v
ClientReply.v
StatSer.v
EstaleCookie.v
MaxAge.v
CcRules.v
Exportd.v
ExportDir.v
Inomap.v
Beget.v
OpenFileMap.v
MountOps.v
MountRead.v
MountInos.v
MountDir.v
MountIoctl.v
BackendHttp.v
HttpRefresh.v
DistribCache.v
PeerServer.v
Floats.v
Evictor.v
CacheRoot.v
MountInit.v
AddrInfo.v
WorkQueue.v
ElasticPool.v
Stack.v
