(* ===== verification/Prelude.v ===== *)
(** * fs123: a verification development

    fs123 is a read-only network file system over HTTP.  An export server
    (src/exe/fs123p7/exportd_handler.cpp on top of src/lib/fs123server.cpp)
    answers requests for attributes, directories, parts of files and so on of
    a directory tree; a client (src/exe/fs123p7/app_mount.cpp) mounts it
    through FUSE, with a cache of replies on disk (diskcache.cpp) between the
    two, and with the files of src/core123 under all of them.  This library
    models the way of a request from the kernel of the client to the file
    system of the server and back.

    ** How the program is modelled

    Pure code is a function, code that throws returns an [outcome] (a value,
    an exception, or undefined behaviour: [Undef] is an access out of bounds, a
    dangling pointer, or a loop followed for fewer rounds than it has), code
    with state is in the monad [M] of this file, where the state survives an
    exception.  Integers are [Z], wrapped ([u64], [swrap]) where the code
    wraps; strings and buffers are lists of [ascii].  The system, libevent,
    libfuse, libsodium, libcurl, json.hpp and std::regex are classes
    ([OS], [Upstream], [Host], [Secretbox], ...) with the laws the code relies
    on, and every theorem with such a class has a witness on a concrete
    instance.  Threads are step relations or lists of atomic steps at the
    points where the code takes its locks.

    ** The files, from the bottom up

    src/core123/include/core123:
    - ScanInt (scanint.hpp), StrUtils (strutils.hpp), SvTo (svto.hpp),
      Netstring (netstring.hpp), PathUtils (pathutils.hpp), Base64
      (base64.hpp), Threeroe (threeroe.hpp), UcharSpan (uchar_span.hpp),
      Expiring (expiring.hpp), AddrInfo (addrinfo_cache.hpp);
    - WorkQueue (producerconsumerqueue.hpp, threadpool.hpp) and ElasticPool
      (elastic_threadpool.hpp): the queues and pools of threads.

    src/lib, src/include/fs123, the server library:
    - Secrets (secret_manager.cpp, sharedkeydir.cpp) finds the keys,
      ContentCodec (content_codec.cpp) encrypts in place;
    - ServerParse and Envelope (fs123server.cpp) turn a request into the call
      of a handler, ServerReply the handler's answer into one HTTP reply;
    - StatSer (stat_serializev3.hpp) prints and scans attributes.

    src/exe/fs123p7, the export server:
    - EstaleCookie and Exportd (exportd_handler.cpp), CcRules and MaxAge
      (exportd_cc_rules.cpp); ExportDir puts a server and a client of
      directories together.

    src/exe/fs123p7, the client:
    - Backend (backend123.cpp): requests and replies; DiskCache
      (diskcache.cpp) with its Evictor and its opening, CacheRoot; Floats has
      the floating-point arithmetic they use; ClientReply ([decoded_reply] of app_mount.cpp);
    - BackendHttp (backend123_http.cpp) asks over HTTP, and HttpRefresh has the
      theorems on its [refresh]; DistribCache (distrib_cache_backend.cpp)
      spreads requests over peers, which PeerServer answers;
    - Inomap (inomap.cpp), Beget (the begets of app_mount.cpp), OpenFileMap
      (openfilemap.cpp), MountOps (the callbacks of app_mount.cpp and
      special_ino.cpp), MountIoctl ([fs123_ioctl] and app_ctl.cpp) and
      MountInit (the start and the end of app_mount.cpp);
    - MountRead, MountDir and MountInos: what the callbacks mean to a kernel;
      Stack: the disk cache with its pool as the backend of a mount.

    A definition has the name of the function it models; [_try] marks the
    body of a function-try-block, [_loop] and [_one] the rounds of a loop.

    ** What the theorems show

    - The kernel gets the files of the server: [readdir_lists_directory],
      [listing_complete], [fs123_read_correct], also through the disk cache,
      [cached_read_correct], [file_read_end_to_end], [stat_roundtrip], [validator_strong], [begetattr_right_incarnation].
    - A reply crosses HTTP and peers unchanged: [server_reply_arrives],
      [peer_stem_roundtrip], [peer_reply_arrives] (but for one time).
    - Every request is answered once: [answered_once], [peer_answers_once],
      [exportd_answers_once], unless handing the reply over throws (then not at
      all) or the behaviour is undefined; [callbacks_answer_once], ioctls
      included, which names the two cases in which none or two are sent.
    - What a client sends cannot lead a server out of its tree or its
      buffers: [handler_args_safe], [sharedkeydir_confined],
      [svscan_netstring_sound], [scanuint_maximal_munch]; forged messages are
      refused: [content_decode_forged].
    - Encodings are read back: [codec_roundtrip], [envelope_roundtrip],
      [filereq_served], [dirreq_served], [cache_file_roundtrip].
    - Failures are survived: [refresh_outcomes], [fallback_policy],
      [refresh_falls_back] (as long as no peer answers with our own uuid,
      which nothing checks: [imposter]); the ring of peers: [peer_map_refines],
      [consistent_hashing]; its messages: [message_authentic],
      [message_roundtrip].
    - Caches tell the truth: [cache_transparent], [cache_lookup_sound],
      [cache_insert_spec], [refresh_bounded_staleness], [serialize_spec],
      [deserialize_robust], [cc_nearest_rules], [bounded_max_age_spec]; the
      cache of name lookups: [addrinfo_cache_refines], [refresh_asks_once].
    - The disk cache stays within its limits: [evict_once_spec],
      [evict_once_defined], [evictor_turns]; and is one cache for all who use
      it: [cache_opened], [uuid_race_agree], [gen_random_uuid_text].
    - Concurrency: [readers_see_whole_files] (any number of writers of a cache
      file), [esc_race] (requests that race to set a cookie), [openfile_safe]
      (opens and closes against the scanner), [scan_verdict_notifies].  The
      pools of threads lose no task and no wake-up: [threadpool_runs_tasks],
      [threadpool_never_stuck], [threadpool_shutdown_ends],
      [elastic_never_stuck], [elastic_shutdown_drains],
      [elastic_within_limit].
    - The tables of the client: [inomap_refines] against a tree of counted
      paths, [accepted_validators_sorted], [table_matches_kernel].
    - Options: [options_typed], [volatiles_read], [ctl_sets_option],
      [dead_options_ignored]; the start of a mount: [mount_secrets_safe],
      [stack_reaches_http], [destroy_undoes_init].
    - A search against its reference: [get_key_from_string_words].
    - Termination: [retrying_berefresh_ends], [refresh_ends]; and where the code fails to do
      what it means to: [decoded_reply_diverges], [cc_fallback_uncached].

    ** Bounds and fuel

    Loops that follow the length of a list or string get that length as fuel,
    as a lemma next to each shows to be enough.  [retry_loop] gets the number
    of rounds computed from the options, which [retrying_berefresh_ends]
    proves enough; [perform_without_fallback] a round per redirect it may
    follow, enough by [refresh_ends]; [kv_loop] (ClientReply) a round per pair of a reply, as
    [decode_f_body_fuel] and the round trips show, except for the hostile
    reply of [decoded_reply_diverges], for which none is; [readdir_loop] a
    round per byte of the kernel's buffer.

    ** Not modelled, and why

    - Third-party code (json.hpp, backward.hpp, lest.hpp, span.hpp), and what
      only calls libraries and the system, where a model would state nothing
      but its own assumptions about them: the event loop of libevent in
      fs123server.cpp, the FUSE session (fuseful.cpp, but for its options and
      reply functions), libcurl's handles and their timeouts, the sockets and
      threads of distrib_cache_backend.cpp, the main programs with their
      daemons, chroot and signals.
    - Text for operators, which no other part reads: logs, statistics, the
      reports of app_mount.cpp.
    - Parts of core123 that only unit tests use (the random-number engines,
      bloomfilter, circular_shared_buffer, configparser), that only a main
      program does (opt.hpp), or that are third-party code with small changes
      (intuitive_compare.hpp).
    - The upstream of the disk cache may be [refresh] of BackendHttp
      ([http_honest] in Stack); that of a distributed cache stays an interface,
      since a request then depends on other mounts.

    This file holds what the others share: strings, integers, outcomes, the
    monad, decimal numbers, and their lemmas. *)

From Stdlib Require Import Ascii String ZArith Lia.
From stdpp Require Import base gmap strings list numbers.

#[local] Open Scope Z_scope.

(** ** Bytes

    A [std::string], a [str_view] and a span of [unsigned char] are all
    lists of characters; [zc] is the character's value as an [unsigned
    char], [sc] its value as a (signed) [char]. *)

Abbreviation bytes := (list ascii).

Definition lit (s : string) : bytes := list_ascii_of_string s.

Definition zc (c : ascii) : Z := Z.of_N (N_of_ascii c).
Definition chr (z : Z) : ascii := ascii_of_N (Z.to_N (z mod 256)).
Definition sc (c : ascii) : Z := if zc c <? 128 then zc c else zc c - 256.

(** ** Machine integers

    [wrap w z] is the value of [z] converted to a [w]-bit unsigned type,
    [swrap w z] its value in the two's-complement signed type. *)

Definition wrap (w z : Z) : Z := z mod 2 ^ w.
Definition swrap (w z : Z) : Z :=
  let u := z mod 2 ^ w in if u <? 2 ^ (w - 1) then u else u - 2 ^ w.

Abbreviation u64 := (wrap 64).
Abbreviation u32 := (wrap 32).

(** [npos] is [std::string::npos], i.e. [size_t(-1)]. *)
Definition npos : Z := 2 ^ 64 - 1.

(** ** Errors

    The exceptions the program throws, by their C++ class; the message
    text is not modelled.  [ENested outer inner] is
    [std::throw_with_nested]. *)

Inductive exn : Type :=
| ERuntime                       (* std::runtime_error *)
| EInvalidArg                    (* std::invalid_argument *)
| EOutOfRange                    (* std::out_of_range *)
| ELogic                         (* std::logic_error *)
| ESystem (eno : Z)              (* core123::se: std::system_error in system_category *)
| EHttp (status : Z)             (* core123::http_exception *)
| ECurl (eno code : Z)           (* std::system_error in libcurl_category *)
| EOutOfOrder (newv oldv : Z)    (* ino_out_of_order_validator *)
| ENested (outer inner : exn).

#[export] Instance exn_eq_dec : EqDecision exn.
Proof. solve_decision. Defined.

(** What a call does: it returns, it throws, or its behaviour is undefined
    (an out-of-bounds access, say). *)
Inductive outcome (A : Type) : Type :=
| Ret (a : A)
| Throw (e : exn)
| Undef.
Arguments Ret {_} _.
Arguments Throw {_} _.
Arguments Undef {_}.

#[export] Instance outcome_ret : MRet outcome := fun A a => Ret a.
#[export] Instance outcome_bind : MBind outcome := fun A B f m =>
  match m with Ret a => f a | Throw e => Throw e | Undef => Undef end.

Definition try_catch {A} (m : outcome A) (h : exn -> outcome A) : outcome A :=
  match m with Throw e => h e | _ => m end.

(** [catch (std::exception&) { std::throw_with_nested(outer); }] *)
Definition rethrow_nested {A} (outer : exn) (m : outcome A) : outcome A :=
  try_catch m (fun e => Throw (ENested outer e)).

Definition is_ret {A} (m : outcome A) : bool :=
  match m with Ret _ => true | _ => false end.
Definition is_throw {A} (m : outcome A) : bool :=
  match m with Throw _ => true | _ => false end.

(** Stateful code: the state survives an exception. *)
Definition M (S A : Type) : Type := S -> outcome A * S.

Section State.
Context {S : Type}.

#[export] Instance M_ret : MRet (M S) := fun A a s => (Ret a, s).
#[export] Instance M_bind : MBind (M S) := fun A B f m s =>
  match m s with
  | (Ret a, s') => f a s'
  | (Throw e, s') => (Throw e, s')
  | (Undef, s') => (Undef, s')
  end.

Definition get : M S S := fun s => (Ret s, s).
Definition put (s' : S) : M S unit := fun _ => (Ret tt, s').
Definition modify (f : S -> S) : M S unit := fun s => (Ret tt, f s).
Definition raise {A} (e : exn) : M S A := fun s => (Throw e, s).
Definition lift {A} (m : outcome A) : M S A := fun s => (m, s).
Definition try_M {A} (m : M S A) (h : exn -> M S A) : M S A := fun s =>
  match m s with (Throw e, s') => h e s' | r => r end.
End State.

(** ** Sequences indexed by [size_t]

    Offsets are [Z]; [ztake] and [zdrop] clip before converting to [nat],
    so that they evaluate even for offsets near [npos]. *)

Definition zlen {A} (l : list A) : Z := Z.of_nat (length l).
Definition zdrop {A} (n : Z) (l : list A) : list A :=
  if n <=? zlen l then drop (Z.to_nat n) l else [].
Definition ztake {A} (n : Z) (l : list A) : list A :=
  take (Z.to_nat (Z.min n (zlen l))) l.
Definition zget {A} (l : list A) (i : Z) : option A :=
  if (0 <=? i) && (i <? zlen l) then l !! Z.to_nat i else None.

(** [sv.at(i)] throws, [sv\[i\]] is undefined, out of bounds. *)
Definition sv_at (s : bytes) (i : Z) : outcome ascii :=
  match zget s i with Some c => Ret c | None => Throw EOutOfRange end.
Definition sv_idx (s : bytes) (i : Z) : outcome ascii :=
  match zget s i with Some c => Ret c | None => Undef end.

(** [sv.substr(pos, n)] *)
Definition substr (s : bytes) (pos n : Z) : outcome bytes :=
  if zlen s <? pos then Throw EOutOfRange else Ret (ztake n (zdrop pos s)).

Fixpoint find_from (p : bytes -> bool) (l : bytes) (i : Z) : Z :=
  if p l then i else
  match l with [] => npos | _ :: l' => find_from p l' (i + 1) end.

Definition prefixb (p l : bytes) : bool := bool_decide (p `prefix_of` l).

(** [sv.find(c, pos)] and [sv.find(str, pos)] *)
Definition find_char (s : bytes) (c : ascii) (pos : Z) : Z :=
  find_from (fun l => match l with x :: _ => bool_decide (x = c) | [] => false end)
    (zdrop pos s) pos.
Definition find_str (s pat : bytes) (pos : Z) : Z :=
  if zlen s <? pos then npos else find_from (prefixb pat) (zdrop pos s) pos.

(** [sv.find_last_of(c)] and [sv.find_last_not_of(c)] *)
Fixpoint last_such (p : ascii -> bool) (l : bytes) (i acc : Z) : Z :=
  match l with
  | [] => acc
  | x :: l' => last_such p l' (i + 1) (if p x then i else acc)
  end.
Definition find_last_of (s : bytes) (c : ascii) : Z :=
  last_such (fun x => bool_decide (x = c)) s 0 npos.
Definition find_last_not_of (s : bytes) (c : ascii) : Z :=
  last_such (fun x => negb (bool_decide (x = c))) s 0 npos.

Definition endswith (s suf : bytes) : bool := bool_decide (suf `suffix_of` s).

(** ** Decimal output: [std::to_string] *)

Fixpoint dec_digits (fuel : nat) (n : Z) (acc : bytes) : bytes :=
  match fuel with
  | O => acc
  | S fuel' =>
      let acc' := chr (48 + n mod 10) :: acc in
      if n <? 10 then acc' else dec_digits fuel' (n / 10) acc'
  end.
Definition to_string_u (n : Z) : bytes :=
  dec_digits (S (Z.to_nat (Z.log2 n))) n [].
Definition to_string (n : Z) : bytes :=
  if n <? 0 then "-"%char :: to_string_u (- n) else to_string_u n.

(** ** C strings *)

(** A [std::string] or [str_view] made from a [char*] ends at the first NUL. *)
Definition NUL : ascii := chr 0.
Fixpoint c_str (l : bytes) : bytes :=
  match l with
  | c :: l' => if decide (c = NUL) then [] else c :: c_str l'
  | [] => []
  end.

(** ** Error numbers, as on Linux *)

Definition ENOENT : Z := 2.
Definition EIO : Z := 5.
Definition EEXIST : Z := 17.
Definition ENOTDIR : Z := 20.
Definition EISDIR : Z := 21.
Definition EINVAL : Z := 22.
Definition ENOSPC : Z := 28.
Definition EROFS : Z := 30.
Definition ERANGE : Z := 34.
Definition ENOSYS : Z := 38.
Definition ENODATA : Z := 61.
Definition EPROTO : Z := 71.
Definition ENOTSUP : Z := 95.
Definition ESTALE : Z := 116.

(** ** Lemmas *)

Create HintDb fs123.
Create Rewrite HintDb fs123.

Lemma zc_range c : 0 <= zc c < 256.
Proof. unfold zc. pose proof (N_ascii_bounded c). lia. Qed.

Lemma chr_zc c : chr (zc c) = c.
Proof.
  unfold chr. rewrite Z.mod_small by apply zc_range.
  unfold zc. rewrite N2Z.id. apply ascii_N_embedding.
Qed.

Lemma zc_chr z : 0 <= z < 256 -> zc (chr z) = z.
Proof.
  intros H. unfold zc, chr. rewrite Z.mod_small by done.
  rewrite N_ascii_embedding by lia. lia.
Qed.

Lemma zc_inj c d : zc c = zc d -> c = d.
Proof. intros H. rewrite <- (chr_zc c), <- (chr_zc d). by rewrite H. Qed.

Lemma wrap_range w z : 0 <= w -> 0 <= wrap w z < 2 ^ w.
Proof. intros. apply Z.mod_pos_bound. lia. Qed.

Lemma wrap_small w z : 0 <= z < 2 ^ w -> wrap w z = z.
Proof. apply Z.mod_small. Qed.

Lemma swrap_small w z : 1 <= w -> - 2 ^ (w - 1) <= z < 2 ^ (w - 1) -> swrap w z = z.
Proof.
  intros Hw Hz. unfold swrap.
  assert (2 ^ w = 2 * 2 ^ (w - 1)) as E by (rewrite <- Z.pow_succ_r by lia; f_equal; lia).
  destruct (decide (0 <= z)).
  - rewrite Z.mod_small by lia. by rewrite (proj2 (Z.ltb_lt _ _)) by lia.
  - assert (z mod 2 ^ w = z + 2 ^ w) as ->.
    { symmetry. apply Z.mod_unique with (-1); lia. }
    rewrite (proj2 (Z.ltb_ge _ _)) by lia. lia.
Qed.

Lemma lxor_range w a b : 0 <= w -> 0 <= a < 2 ^ w -> 0 <= b < 2 ^ w -> 0 <= Z.lxor a b < 2 ^ w.
Proof.
  intros Hw Ha Hb. split; [apply Z.lxor_nonneg; lia|].
  destruct (decide (Z.lxor a b = 0)) as [->|Hne]; [lia|].
  assert (0 <= Z.lxor a b) by (apply Z.lxor_nonneg; lia).
  destruct (decide (w = 0)) as [->|].
  { change (2 ^ 0) with 1 in *. assert (a = 0) as -> by lia. assert (b = 0) as -> by lia. done. }
  apply Z.log2_lt_pow2; [lia|]. eapply Z.le_lt_trans; [apply Z.log2_lxor; lia|].
  apply Z.max_lub_lt.
  - destruct (decide (a = 0)) as [->|]; [cbn; lia|apply Z.log2_lt_pow2; lia].
  - destruct (decide (b = 0)) as [->|]; [cbn; lia|apply Z.log2_lt_pow2; lia].
Qed.

Lemma zlen_nonneg {A} (l : list A) : 0 <= zlen l.
Proof. unfold zlen. lia. Qed.
#[export] Hint Resolve zlen_nonneg zc_range : fs123.

Lemma zlen_nil {A} : zlen (@nil A) = 0.
Proof. done. Qed.
Lemma zlen_cons {A} (x : A) l : zlen (x :: l) = 1 + zlen l.
Proof. unfold zlen. cbn [length]. lia. Qed.
Lemma zlen_app {A} (l k : list A) : zlen (l ++ k) = zlen l + zlen k.
Proof. unfold zlen. rewrite length_app. lia. Qed.
Lemma zlen_replicate {A} n (x : A) : zlen (replicate n x) = Z.of_nat n.
Proof. unfold zlen. by rewrite length_replicate. Qed.
#[export] Hint Rewrite @zlen_nil @zlen_cons @zlen_app : fs123.

(** Arithmetic about lengths: expand them, note that they are not negative. *)
Ltac zlen_simpl :=
  repeat first [rewrite !zlen_app | rewrite !zlen_cons | rewrite !(@zlen_nil ascii) | rewrite !zlen_replicate].
Ltac zlen_pos := repeat match goal with
  | |- context [zlen ?l] =>
      lazymatch goal with H : 0 <= zlen l |- _ => fail | _ => pose proof (zlen_nonneg l) end
  end.
Ltac zlia := zlen_simpl; zlen_pos; lia.

Lemma zlen_nil_inv {A} (l : list A) : zlen l <= 0 -> l = [].
Proof. destruct l; [done|]. intros H. exfalso. revert H. zlia. Qed.

Lemma zdrop_0 {A} (l : list A) : zdrop 0 l = l.
Proof. unfold zdrop. by rewrite (proj2 (Z.leb_le _ _) (zlen_nonneg l)). Qed.

Lemma zdrop_app {A} (l k : list A) n : n = zlen l -> zdrop n (l ++ k) = k.
Proof.
  intros ->. unfold zdrop. pose proof (zlen_nonneg k).
  rewrite zlen_app. case_match; [|lia].
  unfold zlen. rewrite Nat2Z.id. apply drop_app_length.
Qed.

Lemma ztake_app {A} (l k : list A) n : n = zlen l -> ztake n (l ++ k) = l.
Proof.
  intros ->. unfold ztake. pose proof (zlen_nonneg k). rewrite zlen_app.
  replace (Z.min _ _) with (zlen l) by lia.
  unfold zlen. rewrite Nat2Z.id. apply take_app_length.
Qed.

Lemma ztake_all {A} (l : list A) n : zlen l <= n -> ztake n l = l.
Proof.
  intros H. unfold ztake. replace (Z.min _ _) with (zlen l) by lia.
  unfold zlen. rewrite Nat2Z.id. by apply take_ge.
Qed.

Lemma zlen_zdrop {A} (l : list A) n :
  0 <= n -> zlen (zdrop n l) = Z.max 0 (zlen l - n).
Proof.
  intros. unfold zdrop. case_match.
  - unfold zlen in *. rewrite length_drop. lia.
  - rewrite zlen_nil. lia.
Qed.

Lemma zlen_ztake {A} (l : list A) n :
  0 <= n -> zlen (ztake n l) = Z.min n (zlen l).
Proof. intros. unfold ztake, zlen. rewrite length_take. lia. Qed.

Lemma ztake_zdrop {A} (l : list A) n :
  0 <= n -> ztake n l ++ zdrop n l = l.
Proof.
  intros. unfold ztake, zdrop. case_match.
  - rewrite Z.min_l by lia. apply take_drop.
  - rewrite app_nil_r. rewrite Z.min_r by lia.
    unfold zlen. rewrite Nat2Z.id. by apply take_ge.
Qed.

Lemma zget_app_mid {A} (l k : list A) x n : n = zlen l -> zget (l ++ x :: k) n = Some x.
Proof.
  intros ->. unfold zget. pose proof (zlen_nonneg l). pose proof (zlen_nonneg k).
  rewrite zlen_app, zlen_cons.
  destruct (0 <=? zlen l) eqn:?; destruct (zlen l <? zlen l + (1 + zlen k)) eqn:?;
    cbn; try lia.
  unfold zlen. rewrite Nat2Z.id. by apply list_lookup_middle.
Qed.

Lemma zget_zdrop {A} (l : list A) n :
  0 <= n -> zget l n = head (zdrop n l).
Proof.
  intros. unfold zget, zdrop. destruct (n <? zlen l) eqn:E.
  - rewrite (proj2 (Z.leb_le 0 n)) by done. cbn. rewrite (proj2 (Z.leb_le n _)) by lia.
    by rewrite head_lookup, lookup_drop, Nat.add_0_r.
  - rewrite andb_false_r. case_match; [|done].
    rewrite drop_ge; [done|]. unfold zlen in *. lia.
Qed.

(** *** C strings *)

Lemma c_str_id l : NUL ∉ l -> c_str l = l.
Proof.
  induction l as [|c l IH]; intros Hn; [done|]. cbn.
  rewrite decide_False by (intros ->; apply Hn; by left). rewrite IH; [done|].
  intros Hx. apply Hn. by right.
Qed.

Lemma c_str_app l k : NUL ∉ l -> c_str (l ++ NUL :: k) = l.
Proof.
  induction l as [|c l IH]; intros Hn; [done|]. cbn.
  rewrite decide_False by (intros ->; apply Hn; by left). rewrite IH; [done|].
  intros Hx. apply Hn. by right.
Qed.

Lemma c_str_no_nul l : NUL ∉ c_str l.
Proof.
  induction l as [|c l IH]; cbn; [by apply not_elem_of_nil|].
  destruct (decide (c = NUL)); [by apply not_elem_of_nil|]. by apply not_elem_of_cons.
Qed.

(** *** The outcome monad *)

Lemma bind_Ret {A B} (m : outcome A) (f : A -> outcome B) b :
  m ≫= f = Ret b <-> exists a, m = Ret a /\ f a = Ret b.
Proof.
  destruct m as [a| |]; cbn; split; [eauto| |done| |done|];
    try (by intros (? & ? & ?)). by intros (a' & [= <-] & ?).
Qed.

Lemma Ret_inj {A} (a b : A) : Ret a = Ret b -> a = b.
Proof. by intros [= ->]. Qed.

(** Code without undefined behaviour. *)
Lemma bind_defined {A B} (m : outcome A) (k : A -> outcome B) :
  m <> Undef -> (forall a, m = Ret a -> k a <> Undef) -> (m ≫= k) <> Undef.
Proof. destruct m; cbn; auto. Qed.
Lemma rethrow_nested_defined {A} o (m : outcome A) : m <> Undef -> rethrow_nested o m <> Undef.
Proof. by destruct m. Qed.
Lemma sv_idx_defined s i : 0 <= i < zlen s -> sv_idx s i <> Undef.
Proof.
  intros Hi. unfold sv_idx, zget. rewrite (proj2 (Z.leb_le 0 i)), (proj2 (Z.ltb_lt i _)) by lia. cbn.
  destruct (lookup_lt_is_Some_2 s (Z.to_nat i)) as [c ->]; [unfold zlen in Hi; lia|done].
Qed.

Lemma try_catch_Ret {A} (m : outcome A) h a : m = Ret a -> try_catch m h = Ret a.
Proof. by intros ->. Qed.

Lemma rethrow_nested_Ret {A} o (m : outcome A) a : rethrow_nested o m = Ret a <-> m = Ret a.
Proof. by destruct m. Qed.

Lemma if_throw_Ret {A} (b : bool) e (m : outcome A) a :
  (if b then Throw e else m) = Ret a -> b = false /\ m = Ret a.
Proof. by destruct b. Qed.

Lemma if_undef_Ret {A} (b : bool) (m : outcome A) a :
  (if b then Undef else m) = Ret a -> b = false /\ m = Ret a.
Proof. by destruct b. Qed.

(** Take a successful computation apart: each bind's result is named, each
    guard that was passed becomes an equation. *)
Ltac inv_ret := repeat match goal with
  | H : _ ≫= _ = Ret _ |- _ =>
      apply bind_Ret in H; let a := fresh "r" in let E := fresh "E" in
      destruct H as (a & E & H); cbv beta in H
  | H : (if _ then Throw _ else _) = Ret _ |- _ =>
      let G := fresh "G" in apply if_throw_Ret in H; destruct H as [G H]
  | H : (if _ then Undef else _) = Ret _ |- _ =>
      let G := fresh "G" in apply if_undef_Ret in H; destruct H as [G H]
  | H : Ret _ = Ret _ |- _ => apply Ret_inj in H
  | H : Throw _ = Ret _ |- _ => discriminate H
  | H : Undef = Ret _ |- _ => discriminate H
  | H : mret _ = Ret _ |- _ => unfold mret, outcome_ret in H
  | H : rethrow_nested _ _ = Ret _ |- _ => apply rethrow_nested_Ret in H
  end.

(** *** Decimal digits *)

Definition is_digit (c : ascii) : Prop := 48 <= zc c <= 57.
Definition dec_value (l : bytes) (acc : Z) : Z :=
  fold_left (fun a c => 10 * a + (zc c - 48)) l acc.

Lemma dec_digits_app fuel n acc : dec_digits fuel n acc = dec_digits fuel n [] ++ acc.
Proof.
  revert n acc. induction fuel as [|fuel IH]; intros n acc; cbn; [done|].
  case_match; [done|].
  rewrite IH. rewrite (IH _ [_]). by rewrite <- app_assoc.
Qed.

Lemma is_digit_chr d : 0 <= d < 10 -> is_digit (chr (48 + d)).
Proof. intros. unfold is_digit. rewrite zc_chr by lia. lia. Qed.

Lemma dec_digits_Forall fuel n : 0 <= n -> Forall is_digit (dec_digits fuel n []).
Proof.
  revert n. induction fuel as [|fuel IH]; intros n Hn; cbn; [constructor|].
  pose proof (Z.mod_pos_bound n 10). case_match.
  - repeat constructor; apply is_digit_chr; lia.
  - rewrite dec_digits_app. apply Forall_app. split.
    + apply IH. apply Z.div_pos; lia.
    + repeat constructor; apply is_digit_chr; lia.
Qed.

Lemma log2_div10 n : 10 <= n -> Z.log2 (n / 10) < Z.log2 n.
Proof.
  intros. assert (0 < n / 10) by (apply Z.div_str_pos; lia).
  assert (n / 10 * 2 <= n) by (pose proof (Z.mul_div_le n 10); lia).
  assert (Z.log2 (n / 10 * 2) <= Z.log2 n) by (apply Z.log2_le_mono; lia).
  rewrite Z.mul_comm, Z.log2_double in * by lia. lia.
Qed.

Lemma dec_digits_value fuel n acc :
  0 <= n -> Z.log2 n < Z.of_nat fuel ->
  dec_value (dec_digits fuel n []) acc
  = acc * 10 ^ zlen (dec_digits fuel n []) + n.
Proof.
  revert n acc. induction fuel as [|fuel IH]; intros n acc Hn Hf.
  { pose proof (Z.log2_nonneg n). lia. }
  cbn [dec_digits]. pose proof (Z.mod_pos_bound n 10). case_match.
  - unfold dec_value. cbn [fold_left]. rewrite zc_chr by lia.
    rewrite Z.mod_small by lia.
    change (10 ^ zlen [chr (48 + n)]) with 10. lia.
  - rewrite dec_digits_app. unfold dec_value in *. rewrite fold_left_app.
    rewrite IH; [|apply Z.div_pos; lia|pose proof (log2_div10 n); lia].
    cbn [fold_left]. rewrite zc_chr by lia. rewrite zlen_app.
    rewrite Z.pow_add_r by (unfold zlen; lia).
    change (10 ^ zlen [chr (48 + n mod 10)]) with 10.
    pose proof (Z.div_mod n 10). lia.
Qed.

Lemma to_string_u_value n : 0 <= n -> dec_value (to_string_u n) 0 = n.
Proof.
  intros. unfold to_string_u.
  rewrite dec_digits_value; [lia|done|].
  pose proof (Z.log2_nonneg n). lia.
Qed.

Lemma to_string_u_digits n : 0 <= n -> Forall is_digit (to_string_u n).
Proof. apply dec_digits_Forall. Qed.

Lemma dec_digits_head fuel n :
  0 < n -> Z.log2 n < Z.of_nat fuel ->
  exists c l, dec_digits fuel n [] = c :: l /\ c <> "0"%char.
Proof.
  revert n. induction fuel as [|fuel IH]; intros n Hn Hf.
  { pose proof (Z.log2_nonneg n). lia. }
  cbn [dec_digits]. case_match.
  - eexists _, []. split; [done|]. rewrite Z.mod_small by lia. intros E.
    apply (f_equal zc) in E. rewrite zc_chr in E by lia. change (zc "0"%char) with 48 in E. lia.
  - destruct (IH (n / 10)) as (c & l & E & ?);
      [apply Z.div_str_pos; lia | pose proof (log2_div10 n); lia |].
    rewrite dec_digits_app, E. eauto.
Qed.

(** No leading zero, except in "0" itself; in particular never empty. *)
Lemma to_string_u_head n :
  0 <= n ->
  (n = 0 /\ to_string_u n = lit "0")
  \/ exists c l, to_string_u n = c :: l /\ c <> "0"%char.
Proof.
  intros. destruct (decide (n = 0)) as [->|]; [by left|right].
  apply dec_digits_head; [lia|]. pose proof (Z.log2_nonneg n). lia.
Qed.

(** *** Searching *)

Lemma zdrop_cons {A} (x : A) l k : 1 <= k -> zdrop k (x :: l) = zdrop (k - 1) l.
Proof.
  intros. unfold zdrop. rewrite zlen_cons. repeat case_match; try lia; [|done].
  replace (Z.to_nat k) with (S (Z.to_nat (k - 1))) by lia. done.
Qed.

Lemma zdrop_zdrop {A} (l : list A) i k :
  0 <= i -> 0 <= k -> zdrop k (zdrop i l) = zdrop (i + k) l.
Proof.
  intros. unfold zdrop, zlen.
  destruct (Z.leb_spec i (Z.of_nat (length l))).
  - rewrite length_drop.
    destruct (Z.leb_spec k (Z.of_nat (length l - Z.to_nat i)));
      destruct (Z.leb_spec (i + k) (Z.of_nat (length l))); try lia; [|done].
    rewrite drop_drop. f_equal. lia.
  - rewrite drop_nil. destruct (Z.leb_spec (i + k) (Z.of_nat (length l))); [lia|].
    by case_match.
Qed.

(** [find_from] stops at the first suffix that satisfies the test. *)
Lemma find_from_spec p l i :
  (find_from p l i = npos /\ (forall k, 0 <= k <= zlen l -> p (zdrop k l) = false))
  \/ exists k, 0 <= k <= zlen l /\ find_from p l i = i + k /\ p (zdrop k l) = true
       /\ (forall j, 0 <= j < k -> p (zdrop j l) = false).
Proof.
  revert i. induction l as [|x l IH]; intros i; cbn [find_from].
  - destruct (p []) eqn:E.
    + right. exists 0. rewrite (@zlen_nil ascii), zdrop_0. split_and!; [lia..|done|intros; lia].
    + left. split; [done|]. intros k. rewrite (@zlen_nil ascii). intros.
      assert (k = 0) as -> by lia. by rewrite zdrop_0.
  - destruct (p (x :: l)) eqn:E.
    + right. exists 0. rewrite zlen_cons, zdrop_0. pose proof (zlen_nonneg l).
      split_and!; [lia..|done|intros; lia].
    + destruct (IH (i + 1)) as [(-> & H)|(k & ? & -> & ? & H)]; [left|right].
      * split; [done|]. intros k. rewrite zlen_cons. intros Hk.
        destruct (decide (k = 0)) as [->|]; [by rewrite zdrop_0|].
        rewrite zdrop_cons by lia. apply H. lia.
      * exists (k + 1). rewrite zlen_cons, zdrop_cons by lia.
        replace (k + 1 - 1) with k by lia. split_and!; [lia..|done|].
        intros j Hj. destruct (decide (j = 0)) as [->|]; [by rewrite zdrop_0|].
        rewrite zdrop_cons by lia. apply H. lia.
Qed.

Lemma find_char_found s c pos pre a b :
  s = pre ++ a ++ c :: b -> pos = zlen pre -> c ∉ a ->
  find_char s c pos = pos + zlen a.
Proof.
  intros -> -> Hc. unfold find_char. rewrite zdrop_app by done.
  generalize (zlen pre). induction a as [|x a IH]; intros i; cbn [app find_from].
  - rewrite bool_decide_eq_true_2 by done. rewrite (@zlen_nil ascii). lia.
  - rewrite bool_decide_eq_false_2 by set_solver. rewrite IH by set_solver.
    rewrite zlen_cons. lia.
Qed.

Lemma find_char_none s c pos : c ∉ zdrop pos s -> find_char s c pos = npos.
Proof.
  unfold find_char. generalize (zdrop pos s). intros l. revert pos.
  induction l as [|x l IH]; intros i Hc; cbn [find_from]; [done|].
  rewrite bool_decide_eq_false_2 by set_solver. apply IH. set_solver.
Qed.

Lemma find_str_cases s pat pos :
  0 <= pos <= zlen s ->
  (find_str s pat pos = npos /\
     forall k, pos <= k <= zlen s -> ~ pat `prefix_of` zdrop k s)
  \/ (exists n, find_str s pat pos = n /\ pos <= n /\ n + zlen pat <= zlen s
       /\ exists rest, zdrop n s = pat ++ rest).
Proof.
  intros Hp. unfold find_str. rewrite (proj2 (Z.ltb_ge _ _)) by lia.
  destruct (find_from_spec (prefixb pat) (zdrop pos s) pos)
    as [(-> & H)|(k & Hk & -> & Hpre & _)]; [left|right].
  - split; [done|]. intros k Hk Hpre. specialize (H (k - pos)).
    rewrite zlen_zdrop, zdrop_zdrop in H by lia.
    replace (pos + (k - pos)) with k in H by lia.
    unfold prefixb in H. rewrite bool_decide_eq_false in H. apply H; [lia|done].
  - unfold prefixb in Hpre. apply bool_decide_eq_true in Hpre as [rest E].
    rewrite zdrop_zdrop in E by lia. rewrite zlen_zdrop in Hk by lia.
    exists (pos + k). split_and!; [done|lia| |eauto].
    pose proof (zlen_zdrop s (pos + k) ltac:(lia)) as El.
    rewrite E, zlen_app in El. pose proof (zlen_nonneg rest).
    pose proof (zlen_nonneg pat). lia.
Qed.

(** The first occurrence of [pat]. *)
Lemma find_str_found s pat pre rest :
  s = pre ++ pat ++ rest ->
  (forall j, 0 <= j < zlen pre -> ~ pat `prefix_of` zdrop j s) ->
  find_str s pat 0 = zlen pre.
Proof.
  intros -> H. unfold find_str. rewrite (proj2 (Z.ltb_ge _ _)) by apply zlen_nonneg.
  rewrite zdrop_0.
  destruct (find_from_spec (prefixb pat) (pre ++ pat ++ rest) 0) as [(_ & Hn)|(k & Hk & -> & Hp & Hj)].
  - exfalso. specialize (Hn (zlen pre)). unfold prefixb in Hn.
    rewrite zdrop_app, bool_decide_eq_false in Hn by done.
    apply Hn; [zlia|by exists rest].
  - unfold prefixb in Hp. apply bool_decide_eq_true in Hp.
    destruct (Z.lt_trichotomy k (zlen pre)) as [Hlt|[->|Hgt]]; [exfalso|lia|exfalso].
    + apply (H k); [lia|done].
    + specialize (Hj (zlen pre)). unfold prefixb in Hj.
      rewrite zdrop_app, bool_decide_eq_false in Hj by done.
      apply Hj; [zlia|by exists rest].
Qed.

Lemma find_str_npos s pat : find_str s pat 0 = npos -> zlen s < npos ->
  forall a b, s <> a ++ pat ++ b.
Proof.
  intros H Hl a b ->. destruct (find_str_cases (a ++ pat ++ b) pat 0) as [(_ & Hk)|(n & En & Hn & Hz & _)];
    [zlia| |].
  - apply (Hk (zlen a)); [zlia|]. rewrite zdrop_app by done. by exists b.
  - rewrite H in En. pose proof (zlen_nonneg pat). lia.
Qed.

(** What precedes the first [c] of a text is determined by the text. *)
Definition opt_after (c : ascii) (q : option bytes) : bytes :=
  match q with Some q => c :: q | None => [] end.

Lemma split_unique c a b q r :
  c ∉ a -> c ∉ b -> a ++ opt_after c q = b ++ opt_after c r -> a = b /\ q = r.
Proof.
  revert b. induction a as [|x a IH]; intros b Ha Hb E; destruct b as [|y b]; cbn in E.
  - destruct q, r; cbn in E; by simplify_eq.
  - destruct q; cbn in E; simplify_eq. set_solver.
  - destruct r; cbn in E; simplify_eq. set_solver.
  - injection E as -> E. destruct (IH b) as [-> ->]; set_solver.
Qed.

(** *** Decimal representations are unique *)

Lemma dec_value_acc l acc : dec_value l acc = acc * 10 ^ zlen l + dec_value l 0.
Proof.
  revert acc. induction l as [|c l IH]; intros acc; unfold dec_value in *; cbn [fold_left].
  - change (zlen (@nil ascii)) with 0. lia.
  - rewrite IH, (IH (10 * 0 + _)), zlen_cons, Z.pow_add_r by (unfold zlen; lia). lia.
Qed.

Lemma dec_value_bound l : Forall is_digit l -> 0 <= dec_value l 0 < 10 ^ zlen l.
Proof.
  induction 1 as [|c l Hc Hl IH]; [done|].
  change (dec_value (c :: l) 0) with (dec_value l (10 * 0 + (zc c - 48))).
  rewrite dec_value_acc, zlen_cons, Z.pow_add_r by (unfold zlen; lia).
  unfold is_digit in Hc. nia.
Qed.

Lemma dec_value_cons c l : dec_value (c :: l) 0 = (zc c - 48) * 10 ^ zlen l + dec_value l 0.
Proof. unfold dec_value at 1. cbn [fold_left]. fold (dec_value l (10 * 0 + (zc c - 48))).
  rewrite dec_value_acc. lia. Qed.

Lemma dec_value_inj_len l k :
  Forall is_digit l -> Forall is_digit k -> zlen l = zlen k ->
  dec_value l 0 = dec_value k 0 -> l = k.
Proof.
  intros Hl. revert k. induction Hl as [|c l Hc Hl IH]; intros k Hk E Ev.
  - destruct k; [done|]. rewrite zlen_cons in E. change (zlen (@nil ascii)) with 0 in E.
    pose proof (zlen_nonneg k). lia.
  - destruct Hk as [|d k Hd Hk].
    { rewrite zlen_cons in E. change (zlen (@nil ascii)) with 0 in E.
      pose proof (zlen_nonneg l). lia. }
    rewrite !zlen_cons in E. rewrite !dec_value_cons in Ev.
    assert (zlen l = zlen k) as El by lia. rewrite El in Ev.
    pose proof (dec_value_bound l Hl) as B1. pose proof (dec_value_bound k Hk) as B2.
    rewrite El in B1. assert (zc c = zc d) by nia.
    f_equal; [by apply zc_inj|]. apply IH; [done|lia|nia].
Qed.

Definition canonical (l : bytes) : Prop :=
  Forall is_digit l /\ (l = lit "0" \/ exists c l', l = c :: l' /\ c <> "0"%char).

Lemma to_string_u_canonical n : 0 <= n -> canonical (to_string_u n).
Proof.
  intros Hn. split; [by apply to_string_u_digits|].
  destruct (to_string_u_head n Hn) as [[_ ->]|]; [by left|by right].
Qed.

Lemma canonical_lower l : canonical l -> l = lit "0" \/ 10 ^ (zlen l - 1) <= dec_value l 0.
Proof.
  intros [Hd [->|(c & l' & -> & Hc)]]; [by left|right].
  inversion Hd as [|?? Hc' Hl']; subst. rewrite dec_value_cons, zlen_cons.
  pose proof (dec_value_bound l' Hl'). replace (1 + zlen l' - 1) with (zlen l') by lia.
  assert (zc c <> 48) by (intros E; apply Hc, zc_inj; rewrite E; done).
  unfold is_digit in Hc'. nia.
Qed.

Lemma canonical_inj l k :
  canonical l -> canonical k -> dec_value l 0 = dec_value k 0 -> l = k.
Proof.
  intros Hl Hk E.
  assert (forall l', canonical l' -> dec_value l' 0 < 10 ^ zlen l' /\ 1 <= zlen l') as Hb.
  { intros l' [Hd Hh]. split; [by apply dec_value_bound|].
    destruct Hh as [->|(? & l'' & -> & _)]; [done|]. rewrite zlen_cons.
    pose proof (zlen_nonneg l''). lia. }
  destruct (Hb l Hl) as [Bl ?], (Hb k Hk) as [Bk ?].
  pose proof (canonical_lower l Hl) as Ll. pose proof (canonical_lower k Hk) as Lk.
  apply dec_value_inj_len; [apply Hl|apply Hk| |done].
  assert (forall a b, 1 <= a -> 1 <= b -> 10 ^ (a - 1) < 10 ^ b -> a <= b) as Hmono.
  { intros a b Ha Hb' Hp. apply Z.pow_lt_mono_r_iff in Hp; lia. }
  destruct Ll as [->|Ll], Lk as [->|Lk]; [done| | |].
  - change (dec_value (lit "0") 0) with 0 in E.
    pose proof (Z.pow_pos_nonneg 10 (zlen k - 1)). lia.
  - change (dec_value (lit "0") 0) with 0 in E.
    pose proof (Z.pow_pos_nonneg 10 (zlen l - 1)). lia.
  - apply Z.le_antisymm; apply Hmono; lia.
Qed.

Lemma canonical_to_string l : canonical l -> l = to_string_u (dec_value l 0).
Proof.
  intros Hl. pose proof (dec_value_bound l (proj1 Hl)).
  apply canonical_inj; [done|by apply to_string_u_canonical; lia|].
  rewrite to_string_u_value; lia.
Qed.

(** How long a printed number is. *)
Lemma zlen_to_string_u n k : 0 <= n < 10 ^ k -> 1 <= k -> zlen (to_string_u n) <= k.
Proof.
  intros Hn Hk. destruct (canonical_lower (to_string_u n)) as [-> | Hl];
    [apply to_string_u_canonical; lia|exact Hk|].
  rewrite to_string_u_value in Hl by lia.
  assert (zlen (to_string_u n) - 1 < k) by (apply (Z.pow_lt_mono_r_iff 10); lia). lia.
Qed.

(** *** Invariants of stateful code

    [keeps I m Q]: run from a state with [I], [m] ends, however it ends, in a
    state with [I], and what it returns satisfies [Q]. *)

Definition keeps {S A} (I : S -> Prop) (m : M S A) (Q : A -> Prop) : Prop :=
  forall s, I s -> I (m s).2 /\ forall a, (m s).1 = Ret a -> Q a.

Lemma keeps_ret {S A} (I : S -> Prop) (a : A) (Q : A -> Prop) : Q a -> keeps I (mret a) Q.
Proof. intros HQ s Hs. split; [done|]. by intros ? [= <-]. Qed.

Lemma keeps_bind {S A B} (I : S -> Prop) (m : M S A) (k : A -> M S B) P Q :
  keeps I m P -> (forall a, P a -> keeps I (k a) Q) -> keeps I (m ≫= k) Q.
Proof.
  intros Hm Hk s Hs. unfold mbind, M_bind. destruct (Hm s Hs) as [H1 H2].
  destruct (m s) as [[a|e|] s']; cbn in *; [by apply Hk; auto|by split..].
Qed.

Lemma keeps_raise {S A} (I : S -> Prop) e (Q : A -> Prop) : keeps I (raise e) Q.
Proof. by intros s Hs. Qed.

Lemma keeps_lift {S A} (I : S -> Prop) (m : outcome A) (Q : A -> Prop) :
  (forall a, m = Ret a -> Q a) -> keeps I (lift m) Q.
Proof. intros HQ s Hs. split; [done|]. cbn. auto. Qed.

Lemma keeps_get {S} (I : S -> Prop) : keeps I get I.
Proof. intros s Hs. split; [done|]. by intros ? [= <-]. Qed.

Lemma keeps_modify {S} (I : S -> Prop) f :
  (forall s, I s -> I (f s)) -> keeps I (modify f) (fun _ => True).
Proof. intros Hf s Hs. split; [by apply Hf|done]. Qed.

Lemma keeps_weaken {S A} (I : S -> Prop) (m : M S A) (P Q : A -> Prop) :
  keeps I m P -> (forall a, P a -> Q a) -> keeps I m Q.
Proof. intros Hm HPQ s Hs. destruct (Hm s Hs). auto. Qed.

Lemma keeps_if {S A} (I : S -> Prop) (b : bool) (m n : M S A) Q :
  (b = true -> keeps I m Q) -> (b = false -> keeps I n Q) -> keeps I (if b then m else n) Q.
Proof. destruct b; auto. Qed.

#[export] Hint Resolve keeps_raise keeps_get : fs123.

(** Concatenations that differ in their bracketing only. *)
Ltac assoc := rewrite <- ?app_assoc; cbn [app]; rewrite <- ?app_assoc; cbn [app]; reflexivity.

(** One step of a stateful computation. *)
Lemma M_bind_Ret {S A B} (m : M S A) (k : A -> M S B) s a s' :
  m s = (Ret a, s') -> (m ≫= k) s = k a s'.
Proof. intros E. unfold mbind, M_bind. by rewrite E. Qed.

Lemma lift_bind {S A B} (m : outcome A) (k : A -> M S B) a s :
  m = Ret a -> (lift m ≫= k) s = k a s.
Proof. by intros ->. Qed.

Lemma M_bind_Throw {S A B} (m : M S A) (k : A -> M S B) s e s' :
  m s = (Throw e, s') -> (m ≫= k) s = (Throw e, s').
Proof. intros E. unfold mbind, M_bind. by rewrite E. Qed.

(** Taking a successful stateful computation apart. *)
Lemma M_bind_inv {S A B} (m : M S A) (k : A -> M S B) s b s' :
  (m ≫= k) s = (Ret b, s') -> exists a s1, m s = (Ret a, s1) /\ k a s1 = (Ret b, s').
Proof.
  unfold mbind, M_bind. destruct (m s) as [[a|e|] s1]; intros H; [eauto|discriminate..].
Qed.

Lemma try_M_inv {S A} (m : M S A) h s a s' :
  try_M m h s = (Ret a, s') ->
  m s = (Ret a, s') \/ exists e s1, m s = (Throw e, s1) /\ h e s1 = (Ret a, s').
Proof. unfold try_M. destruct (m s) as [[?|e|] s1]; intros H; [by left|right; eauto|by left]. Qed.

Lemma lift_inv {S A} (m : outcome A) (s : S) a s' :
  lift m s = (Ret a, s') -> m = Ret a /\ s' = s.
Proof. unfold lift. by intros [= -> ->]. Qed.

Lemma mret_inv {S A} (x : A) (s : S) a s' :
  @mret (M S) _ A x s = (Ret a, s') -> a = x /\ s' = s.
Proof. by intros [= -> ->]. Qed.

Ltac inv_M := repeat match goal with
  | H : (_ ≫= _) _ = (Ret _, _) |- _ =>
      apply M_bind_inv in H; let a := fresh "a" in let s1 := fresh "s" in let E := fresh "E" in
      destruct H as (a & s1 & E & H); cbv beta in H
  | H : lift _ _ = (Ret _, _) |- _ => apply lift_inv in H; destruct H as [H ->]
  | H : mret _ _ = (Ret _, _) |- _ => apply mret_inv in H; destruct H as [-> ->]
  | H : raise _ _ = (Ret _, _) |- _ => discriminate H
  end.
