(* ===== verification/ScanInt.v ===== *)
(** * Integer scanning (core123/include/core123/scanint.hpp)

    [_digitcvt], [_skip_white], [_scanuint] and the three overloads of
    [scanint] (unsigned, signed and bool), for every base and every integer
    width [w].  A result is the pair of the scanned value and the offset
    after it.  The theorems give [_scanuint]'s result on every input,
    overflow included, and the round trip with [std::to_string]. *)

From Stdlib Require Import Ascii String ZArith Lia.
From stdpp Require Import base gmap strings list numbers.
From S2P Require Import Prelude.

#[local] Open Scope Z_scope.

(** ** Definitions *)

Definition _digitcvt (base : Z) (c : ascii) : Z :=
  let delta := sc c - sc "0" in
  if (delta <? base) && (0 <=? delta) && (delta <? 10) then delta
  else if base <=? 10 then base
  else
    let delta := sc c - sc "a" in
    if (delta + 10 <? base) && (0 <=? delta) then delta + 10
    else
      let delta := sc c - sc "A" in
      if (delta + 10 <? base) && (0 <=? delta) then delta + 10
      else base.

(** The [case] labels of [_skip_white]: space, \n, \t, \f and \r. *)
Definition is_white (c : ascii) : bool :=
  bool_decide (zc c ∈ [32; 10; 9; 12; 13]).

Fixpoint skip_white_loop (l : bytes) (p : Z) : Z :=
  match l with
  | c :: l' => if is_white c then skip_white_loop l' (p + 1) else p
  | [] => p
  end.

Definition _skip_white (sv : bytes) (start : Z) : Z :=
  skip_white_loop (zdrop start sv) start.

Definition umax (w : Z) : Z := 2 ^ w - 1.

Fixpoint scanuint_loop (w base : Z) (l : bytes) (ret n : Z) : outcome (Z * Z) :=
  match l with
  | [] => Ret (ret, n)
  | c :: l' =>
      let digit := _digitcvt base c in
      if digit =? base then Ret (ret, n)
      else if (umax w / base <? ret)
              || ((ret =? umax w / base) && (umax w mod base <? digit))
      then Throw EInvalidArg
      else scanuint_loop w base l' (wrap w (wrap w (ret * base) + digit)) (n + 1)
  end.

Definition _scanuint (w base : Z) (sv : bytes) (start : Z) : outcome (Z * Z) :=
  '(ret, n) ← scanuint_loop w base (zdrop start sv) 0 0;
  if n =? 0 then Throw EInvalidArg else Ret (ret, start + n).

(** [_scanint_rethrow]: the handler every overload of [scanint] ends in. *)
Definition _scanint_rethrow {A} (m : outcome A) : outcome A :=
  rethrow_nested EInvalidArg m.

Definition is_x (c : ascii) : bool := bool_decide (c = "x"%char) || bool_decide (c = "X"%char).

(** [scanint<Utype, base, skip_white>] for an unsigned [w]-bit [Utype]. *)
Definition scanint_u (w base : Z) (skip : bool) (sv : bytes) (start : Z)
  : outcome (Z * Z) :=
  _scanint_rethrow
    (let start := if skip then _skip_white sv start else start in
     let sz := zlen sv in
     if base =? 0 then
       if sz <=? start then Throw EInvalidArg else
       c0 ← sv_idx sv start;
       if bool_decide (c0 = "0"%char) then
         if start + 1 =? sz then Ret (0, start + 1) else
         c1 ← sv_idx sv (start + 1);
         if is_x c1 then
           if start + 2 =? sz then Ret (0, start + 1) else
           c2 ← sv_idx sv (start + 2);
           if _digitcvt 16 c2 =? 16 then Ret (0, start + 1)
           else _scanuint w 16 sv (start + 2)
         else if _digitcvt 8 c1 =? 8 then Ret (0, start + 1)
         else _scanuint w 8 sv (start + 1)
       else _scanuint w 10 sv start
     else
       start' ←
         (if (base =? 16) && (start + 2 <? sz) then
            c0 ← sv_idx sv start;
            c1 ← sv_idx sv (start + 1);
            c2 ← sv_idx sv (start + 2);
            Ret (if bool_decide (c0 = "0"%char) && is_x c1 && negb (_digitcvt 16 c2 =? 16)
                 then start + 2 else start)
          else Ret start);
       _scanuint w base sv start').

(** [scanint<Itype, base, skip_white>] for a signed [w]-bit [Itype]. *)
Definition scanint_s (w base : Z) (skip : bool) (sv : bytes) (start : Z)
  : outcome (Z * Z) :=
  _scanint_rethrow
    (let start := if skip then _skip_white sv start else start in
     if zlen sv <=? start then Throw EInvalidArg else
     c ← sv_idx sv start;
     let neg := bool_decide (c = "-"%char) in
     let negz := if neg then 1 else 0 in
     '(u, r) ← scanint_u w base false sv (start + negz);
     if u =? 0 then Ret (0, r) else
     let u := wrap w (u - negz) in
     if 2 ^ (w - 1) - 1 <? u then Throw EInvalidArg
     else Ret (if neg then - u - 1 else u, r)).

Definition _casecmp (letter lowercase : ascii) : bool :=
  Z.lor (zc letter) 32 =? zc lowercase.

Definition _casecmp4 (letters lowercase : bytes) : bool :=
  bool_decide (map (fun c => Z.lor (zc c) 32) (ztake 4 letters) = map zc lowercase).

(** [scanint<bool, base, skip_white>] *)
Definition scanint_b (base : Z) (skip : bool) (sv : bytes) (start : Z)
  : outcome (bool * Z) :=
  _scanint_rethrow
    (let start := if skip then _skip_white sv start else start in
     if (start + 4 <=? zlen sv) && _casecmp4 (zdrop start sv) (lit "true")
     then Ret (true, 4 + start)
     else if (start + 5 <=? zlen sv) && _casecmp4 (zdrop start sv) (lit "fals")
             && (match zget sv (start + 4) with Some c => _casecmp c "e" | None => false end)
     then Ret (false, 5 + start)
     else
       '(us, ret) ← scanint_u 16 base false sv start;
       if 1 <? us then Throw EInvalidArg else Ret (us =? 1, ret)).

(** Reference: the value of a string of digits. *)
Definition digits_value (base : Z) (acc : Z) (ds : bytes) : Z :=
  fold_left (fun a c => base * a + _digitcvt base c) ds acc.

Definition all_digits (base : Z) (ds : bytes) : Prop :=
  Forall (fun c => _digitcvt base c <> base) ds.
Definition no_digit_next (base : Z) (rest : bytes) : Prop :=
  match rest with [] => True | c :: _ => _digitcvt base c = base end.

(** ** Digits *)

Lemma digitcvt_range base c : 2 <= base -> 0 <= _digitcvt base c <= base.
Proof.
  intros. unfold _digitcvt. change (sc "0"%char) with 48.
  change (sc "a"%char) with 97. change (sc "A"%char) with 65.
  repeat case_match; lia.
Qed.

Lemma sc_small c : zc c < 128 -> sc c = zc c.
Proof. intros. unfold sc. rewrite (proj2 (Z.ltb_lt _ _)); done. Qed.

Lemma digitcvt_digit base c :
  is_digit c -> zc c - 48 < base -> _digitcvt base c = zc c - 48.
Proof.
  unfold is_digit. intros. unfold _digitcvt. change (sc "0"%char) with 48.
  rewrite sc_small by lia. case_match; [done|lia].
Qed.

Lemma digitcvt_10 c : _digitcvt 10 c <> 10 <-> is_digit c.
Proof.
  split.
  - unfold _digitcvt. change (sc "0"%char) with 48. change (10 <=? 10) with true. cbn.
    case_match eqn:E; [|done]. intros _. unfold is_digit. unfold sc in *.
    pose proof (zc_range c). repeat case_match; lia.
  - intros Hd. rewrite digitcvt_digit; unfold is_digit in *; lia.
Qed.

Lemma digits_value_10 acc ds :
  Forall is_digit ds -> digits_value 10 acc ds = dec_value ds acc.
Proof.
  intros H. revert acc. induction H as [|c ds Hc H IH]; intros acc; [done|].
  cbn. rewrite <- IH. unfold digits_value. cbn.
  rewrite (digitcvt_digit 10 c Hc); [done|]. unfold is_digit in Hc. lia.
Qed.

Lemma digits_value_ge base acc ds :
  2 <= base -> 0 <= acc -> acc <= digits_value base acc ds.
Proof.
  intros Hb. revert acc. induction ds as [|c ds IH]; intros acc Ha; cbn; [done|].
  pose proof (digitcvt_range base c Hb). etransitivity; [|apply IH]; nia.
Qed.

(** ** The digit loop

    The overflow test before [ret *= base; ret += digit] fires exactly when
    the sum does not fit, so the wrap-around is never taken. *)

Lemma overflow_test m base ret digit :
  0 < base -> 0 <= digit < base -> 0 <= ret ->
  (m / base <? ret) || ((ret =? m / base) && (m mod base <? digit))
  = (m <? ret * base + digit).
Proof.
  intros Hb Hd Hr. pose proof (Z.div_mod m base). pose proof (Z.mod_pos_bound m base).
  destruct (m <? ret * base + digit) eqn:E.
  - apply orb_true_iff. destruct (decide (m / base < ret)); [left; lia|right].
    assert (ret = m / base) by nia. subst. apply andb_true_iff. nia.
  - apply orb_false_iff. split; [nia|]. apply andb_false_iff.
    destruct (decide (ret = m / base)) as [->|]; [right|left]; nia.
Qed.

Lemma scanuint_loop_digits w base ds rest ret n :
  2 <= base -> 0 <= w -> all_digits base ds -> no_digit_next base rest ->
  0 <= ret <= umax w ->
  scanuint_loop w base (ds ++ rest) ret n
  = (if digits_value base ret ds <=? umax w
     then Ret (digits_value base ret ds, n + zlen ds) else Throw EInvalidArg).
Proof.
  intros Hb Hw Hds Hrest. revert ret n.
  induction Hds as [|c ds Hc Hds IH]; intros ret n Hr.
  - cbn [app]. unfold digits_value. cbn [fold_left]. rewrite zlen_nil, Z.add_0_r.
    rewrite (proj2 (Z.leb_le ret _)) by lia.
    destruct rest as [|c rest]; [done|]. cbn in *.
    by rewrite (proj2 (Z.eqb_eq _ _) Hrest).
  - cbn [app scanuint_loop]. rewrite (proj2 (Z.eqb_neq _ _) Hc).
    pose proof (digitcvt_range base c Hb).
    rewrite overflow_test by lia.
    change (digits_value base ret (c :: ds))
      with (digits_value base (base * ret + _digitcvt base c) ds).
    assert (2 ^ w = umax w + 1) by (unfold umax; lia).
    case_match eqn:E.
    + pose proof (digits_value_ge base (base * ret + _digitcvt base c) ds Hb).
      case_match; [|done]. nia.
    + assert (wrap w (wrap w (ret * base) + _digitcvt base c)
              = base * ret + _digitcvt base c) as ->.
      { rewrite (wrap_small w (ret * base)) by nia. rewrite wrap_small; nia. }
      rewrite IH by nia. rewrite zlen_cons. repeat case_match; [|done].
      do 2 f_equal; lia.
Qed.

(** Every list splits into its maximal digit prefix and the rest. *)
Lemma digits_split base l :
  exists ds rest, l = ds ++ rest /\ all_digits base ds /\ no_digit_next base rest.
Proof.
  induction l as [|c l (ds & rest & -> & Hds & Hr)].
  - exists [], []. split_and!; [done|constructor|done].
  - destruct (decide (_digitcvt base c = base)) as [E|E].
    + exists [], (c :: ds ++ rest). split_and!; [done|constructor|done].
    + exists (c :: ds), rest. split_and!; [done| |done]. by constructor.
Qed.

Lemma scanuint_spec w base ds rest sv start :
  2 <= base -> 0 <= w -> zdrop start sv = ds ++ rest ->
  all_digits base ds -> no_digit_next base rest ->
  _scanuint w base sv start
  = (if bool_decide (ds <> []) && (digits_value base 0 ds <=? umax w)
     then Ret (digits_value base 0 ds, start + zlen ds) else Throw EInvalidArg).
Proof.
  intros Hb Hw E Hds Hr. unfold _scanuint. rewrite E.
  rewrite scanuint_loop_digits by (unfold umax; first [done | pose proof (Z.pow_pos_nonneg 2 w); lia]).
  case_match eqn:El; cbn.
  - destruct ds as [|c ds]; [done|]. rewrite zlen_cons.
    pose proof (zlen_nonneg ds). rewrite (proj2 (Z.eqb_neq _ _)) by lia.
    by rewrite bool_decide_eq_true_2.
  - by rewrite andb_false_r.
Qed.

(** A scanned value is one of the type. *)
Lemma scanuint_loop_range w base l ret n v k :
  0 <= w -> 0 <= ret < 2 ^ w -> scanuint_loop w base l ret n = Ret (v, k) -> 0 <= v < 2 ^ w.
Proof.
  intros Hw. revert ret n. induction l as [|c l IH]; intros ret n Hr; cbn [scanuint_loop].
  - by intros [= <- _].
  - case_match; [by intros [= <- _]|]. intros [_ Hl]%if_throw_Ret.
    eapply IH; [|done]. by apply wrap_range.
Qed.

Lemma scanuint_range w base sv start v r :
  0 <= w -> _scanuint w base sv start = Ret (v, r) -> 0 <= v < 2 ^ w.
Proof.
  intros Hw H. unfold _scanuint in H. apply bind_Ret in H as ([u n] & E & H).
  apply if_throw_Ret in H as [_ [= <- _]]. eapply scanuint_loop_range; [done| |done].
  pose proof (Z.pow_pos_nonneg 2 w). lia.
Qed.

Lemma scanint_u_range w base skip sv start v r :
  0 <= w -> scanint_u w base skip sv start = Ret (v, r) -> 0 <= v < 2 ^ w.
Proof.
  intros Hw H. assert (0 <= 0 < 2 ^ w) as H0 by (pose proof (Z.pow_pos_nonneg 2 w); lia).
  unfold scanint_u, _scanint_rethrow in H. apply rethrow_nested_Ret in H.
  destruct (base =? 0); [|apply bind_Ret in H as (st & _ & H); eauto using scanuint_range].
  apply if_throw_Ret in H as [_ H]. apply bind_Ret in H as (c0 & _ & H).
  case_match; [|eauto using scanuint_range].
  case_match; [by injection H as <- _|]. apply bind_Ret in H as (c1 & _ & H).
  case_match.
  - case_match; [by injection H as <- _|]. apply bind_Ret in H as (c2 & _ & H).
    case_match; [by injection H as <- _|]. eauto using scanuint_range.
  - case_match; [by injection H as <- _|]. eauto using scanuint_range.
Qed.

Lemma scanint_s_range w base skip sv start v r :
  1 <= w -> scanint_s w base skip sv start = Ret (v, r) -> - 2 ^ (w - 1) <= v < 2 ^ (w - 1).
Proof.
  intros Hw H. pose proof (Z.pow_pos_nonneg 2 (w - 1)). unfold scanint_s, _scanint_rethrow in H.
  apply rethrow_nested_Ret, if_throw_Ret in H as [_ H]. apply bind_Ret in H as (c & _ & H).
  apply bind_Ret in H as ([u k] & Hu & H). apply scanint_u_range in Hu; [|lia].
  case_match; [injection H as <- _; lia|]. apply if_throw_Ret in H as [E H]. injection H as <- _.
  pose proof (wrap_range w (u - (if bool_decide (c = "-"%char) then 1 else 0))).
  apply Z.ltb_ge in E. destruct (bool_decide _); lia.
Qed.

(** Scanning a string from inside it has no undefined behaviour. *)
Lemma skip_white_ge sv start : start <= _skip_white sv start.
Proof.
  unfold _skip_white. enough (forall l p, p <= skip_white_loop l p) by done.
  induction l as [|c l IH]; intros p; cbn [skip_white_loop]; [lia|].
  destruct (is_white c); [|lia]. specialize (IH (p + 1)). lia.
Qed.
Lemma scanuint_defined w base sv start : _scanuint w base sv start <> Undef.
Proof.
  unfold _scanuint. apply bind_defined; [|intros [u n] _; by case_match].
  enough (forall l ret n, scanuint_loop w base l ret n <> Undef) by done. intros l.
  induction l as [|c l IH]; intros ret n; cbn [scanuint_loop]; [done|].
  repeat case_match; done || apply IH.
Qed.
Lemma scanint_u_defined w base skip sv start : 0 <= start -> scanint_u w base skip sv start <> Undef.
Proof.
  intros Hs. unfold scanint_u. apply rethrow_nested_defined. cbv zeta.
  set (p := if skip then _ else _).
  assert (0 <= p) as Hp by (unfold p; destruct skip; [pose proof (skip_white_ge sv start)|]; lia).
  clearbody p. destruct (base =? 0).
  - destruct (zlen sv <=? p) eqn:E0; [done|]. apply Z.leb_gt in E0.
    apply bind_defined; [apply sv_idx_defined; lia|]. intros c0 _.
    case_match; [|apply scanuint_defined].
    destruct (p + 1 =? zlen sv) eqn:E1; [done|]. apply Z.eqb_neq in E1.
    apply bind_defined; [apply sv_idx_defined; lia|]. intros c1 _.
    destruct (is_x c1); [|case_match; [done|apply scanuint_defined]].
    destruct (p + 2 =? zlen sv) eqn:E2; [done|]. apply Z.eqb_neq in E2.
    apply bind_defined; [apply sv_idx_defined; lia|]. intros c2 _.
    case_match; [done|apply scanuint_defined].
  - apply bind_defined; [|intros; apply scanuint_defined].
    destruct ((base =? 16) && (p + 2 <? zlen sv)) eqn:E; [|done].
    apply andb_true_iff in E as [_ E%Z.ltb_lt].
    repeat (apply bind_defined; [apply sv_idx_defined; lia|]; intros ? _). done.
Qed.
Lemma scanint_s_defined w base skip sv start : 0 <= start -> scanint_s w base skip sv start <> Undef.
Proof.
  intros Hs. unfold scanint_s. apply rethrow_nested_defined. cbv zeta.
  set (p := if skip then _ else _).
  assert (0 <= p) as Hp by (unfold p; destruct skip; [pose proof (skip_white_ge sv start)|]; lia).
  destruct (zlen sv <=? p) eqn:E0; [done|]. apply Z.leb_gt in E0.
  apply bind_defined; [apply sv_idx_defined; lia|]. intros c _.
  apply bind_defined; [apply scanint_u_defined; case_match; lia|].
  intros [u r] _. destruct (u =? 0); [done|]. by case_match.
Qed.
Lemma scanint_b_defined base skip sv start : 0 <= start -> scanint_b base skip sv start <> Undef.
Proof.
  intros Hs. unfold scanint_b. apply rethrow_nested_defined. cbv zeta.
  set (p := if skip then _ else _).
  assert (0 <= p) as Hp by (unfold p; destruct skip; [pose proof (skip_white_ge sv start)|]; lia).
  do 2 (case_match; [done|]). apply bind_defined; [by apply scanint_u_defined|].
  intros [u r] _. by destruct (1 <? u).
Qed.

(** ** Properties *)

Lemma all_digits_10 ds : Forall is_digit ds -> all_digits 10 ds.
Proof. apply Forall_impl. intros c. apply digitcvt_10. Qed.

Lemma to_string_u_all_digits n : 0 <= n -> all_digits 10 (to_string_u n).
Proof. intros. by apply all_digits_10, to_string_u_digits. Qed.

Lemma to_string_u_digits_value n : 0 <= n -> digits_value 10 0 (to_string_u n) = n.
Proof.
  intros. rewrite digits_value_10 by by apply to_string_u_digits.
  by apply to_string_u_value.
Qed.

Lemma to_string_u_nonempty n : 0 <= n -> to_string_u n <> [].
Proof. intros. by destruct (to_string_u_head n) as [[-> ->]|(? & ? & -> & _)]. Qed.

(** Scanning in base 10 what [std::to_string] printed. *)
Lemma scanuint_to_string w n pre rest :
  0 <= w -> 0 <= n < 2 ^ w -> no_digit_next 10 rest ->
  _scanuint w 10 (pre ++ to_string_u n ++ rest) (zlen pre)
  = Ret (n, zlen pre + zlen (to_string_u n)).
Proof.
  intros Hw Hn Hr.
  rewrite (scanuint_spec w 10 (to_string_u n) rest);
    [|done|done|by apply zdrop_app|apply to_string_u_all_digits; lia|done].
  rewrite to_string_u_digits_value by lia.
  rewrite bool_decide_eq_true_2 by (apply to_string_u_nonempty; lia).
  unfold umax. cbn. by rewrite (proj2 (Z.leb_le _ _)) by lia.
Qed.

Lemma scanint_u_base10 w sv start :
  scanint_u w 10 false sv start = _scanint_rethrow (_scanuint w 10 sv start).
Proof. done. Qed.

Lemma scanint_u_to_string w n pre rest :
  0 <= w -> 0 <= n < 2 ^ w -> no_digit_next 10 rest ->
  scanint_u w 10 false (pre ++ to_string_u n ++ rest) (zlen pre)
  = Ret (n, zlen pre + zlen (to_string_u n)).
Proof. intros. by rewrite scanint_u_base10, scanuint_to_string. Qed.

Lemma sv_idx_mid pre c l : sv_idx (pre ++ c :: l) (zlen pre) = Ret c.
Proof. unfold sv_idx. by rewrite zget_app_mid. Qed.

Lemma skip_white_loop_stop c l p : is_white c = false -> skip_white_loop (c :: l) p = p.
Proof. cbn. by intros ->. Qed.

Lemma is_digit_not_white c : is_digit c -> is_white c = false.
Proof.
  unfold is_digit, is_white. intros. apply bool_decide_eq_false. rewrite !elem_of_cons.
  rewrite elem_of_nil. lia.
Qed.

Lemma is_digit_not_minus c : is_digit c -> c <> "-"%char.
Proof. intros Hd ->. unfold is_digit in Hd. change (zc "-"%char) with 45 in Hd. lia. Qed.

(** The printed form of [z] is its sign and the digits of its magnitude. *)
Lemma to_string_cases z :
  (0 <= z /\ exists c l, to_string z = to_string_u z /\ to_string_u z = c :: l /\ is_digit c)
  \/ (z < 0 /\ to_string z = "-"%char :: to_string_u (- z)).
Proof.
  unfold to_string. destruct (z <? 0) eqn:E; [right; split; [lia|done]|left].
  split; [lia|]. pose proof (to_string_u_nonempty z ltac:(lia)).
  pose proof (to_string_u_digits z ltac:(lia)) as Hd.
  destruct (to_string_u z) as [|c l]; [done|]. inversion Hd; subst. eauto.
Qed.

Lemma skip_white_loop_ws ws l p :
  Forall (fun c => is_white c = true) ws ->
  skip_white_loop (ws ++ l) p = skip_white_loop l (p + zlen ws).
Proof.
  intros H. revert p. induction H as [|c ws Hc H IH]; intros p; cbn.
  - f_equal. change (zlen (@nil ascii)) with 0. lia.
  - rewrite Hc, IH, zlen_cons. f_equal. lia.
Qed.

Lemma skip_white_ws z pre ws rest :
  Forall (fun c => is_white c = true) ws ->
  _skip_white (pre ++ ws ++ to_string z ++ rest) (zlen pre) = zlen (pre ++ ws).
Proof.
  intros H. unfold _skip_white. rewrite zdrop_app, skip_white_loop_ws, zlen_app by done.
  destruct (to_string_cases z) as [(? & c & l & -> & -> & Hd)|(? & ->)]; cbn [app].
  - by rewrite skip_white_loop_stop by by apply is_digit_not_white.
  - done.
Qed.

(** The signed overload reads back a printed value whenever the unsigned one
    (of the same base) reads back the digits of its magnitude. *)
Lemma scanint_s_to_string w base (skip : bool) z pre ws rest :
  1 <= w -> - 2 ^ (w - 1) <= z < 2 ^ (w - 1) ->
  (forall n p, 0 <= n < 2 ^ w ->
     scanint_u w base false (p ++ to_string_u n ++ rest) (zlen p)
     = Ret (n, zlen p + zlen (to_string_u n))) ->
  Forall (fun c => is_white c = true) ws -> (skip = false -> ws = []) ->
  scanint_s w base skip (pre ++ ws ++ to_string z ++ rest) (zlen pre)
  = Ret (z, zlen (pre ++ ws) + zlen (to_string z)).
Proof.
  intros Hw Hz Hu Hws Hskip. unfold scanint_s, _scanint_rethrow.
  replace (if skip then _ else _) with (zlen (pre ++ ws))
    by (destruct skip; [by rewrite skip_white_ws|rewrite Hskip by done; by rewrite app_nil_r]).
  rewrite (app_assoc pre ws). generalize (pre ++ ws). clear pre ws Hws Hskip. intros pre.
  assert (2 ^ w = 2 * 2 ^ (w - 1)) as Hw2.
  { rewrite <- Z.pow_succ_r by lia. f_equal. lia. }
  pose proof (zlen_nonneg pre). pose proof (zlen_nonneg rest).
  destruct (to_string_cases z) as [(Hz0 & c & l & -> & Ec & Hd)|(Hz0 & ->)].
  - rewrite (proj2 (Z.leb_gt _ _))
      by (rewrite Ec, !zlen_app, zlen_cons; pose proof (zlen_nonneg l); lia).
    assert (sv_idx (pre ++ to_string_u z ++ rest) (zlen pre) = Ret c) as ->
      by (rewrite Ec; apply sv_idx_mid).
    cbn -[to_string_u]. rewrite bool_decide_eq_false_2 by by apply is_digit_not_minus.
    rewrite Z.add_0_r, Hu by lia. cbn -[to_string_u].
    destruct (z =? 0) eqn:E0; cbn -[to_string_u]; [by rewrite (proj1 (Z.eqb_eq _ _) E0)|].
    rewrite Z.sub_0_r, wrap_small by lia.
    by rewrite (proj2 (Z.ltb_ge _ _)) by lia.
  - rewrite (proj2 (Z.leb_gt _ _)) by (rewrite !zlen_app, zlen_cons;
      pose proof (zlen_nonneg (to_string_u (- z))); lia).
    cbn [app]. rewrite sv_idx_mid. cbn -[to_string_u].
    rewrite bool_decide_eq_true_2 by done.
    change (pre ++ "-"%char :: to_string_u (- z) ++ rest)
      with (pre ++ ["-"%char] ++ to_string_u (- z) ++ rest).
    rewrite (app_assoc pre), zlen_cons.
    replace (zlen pre + 1) with (zlen (pre ++ ["-"%char])) by by rewrite zlen_app.
    rewrite Hu by lia. cbn -[to_string_u].
    rewrite (proj2 (Z.eqb_neq _ _)) by lia.
    rewrite wrap_small by lia. rewrite (proj2 (Z.ltb_ge _ _)) by lia. cbn -[to_string_u].
    do 2 f_equal; [lia|]. rewrite zlen_app. change (zlen ["-"%char]) with 1. lia.
Qed.

(** [scanint] inverts [std::to_string] for every value of every signed
    integer type, at any offset of the scanned string, provided the number is
    not followed by another digit: the value comes back and the returned
    offset is the one just after the number's last digit. *)
Theorem scanint_signed_roundtrip w z skip pre rest :
  1 <= w -> - 2 ^ (w - 1) <= z < 2 ^ (w - 1) -> no_digit_next 10 rest ->
  scanint_s w 10 skip (pre ++ to_string z ++ rest) (zlen pre)
  = Ret (z, zlen pre + zlen (to_string z)).
Proof.
  intros Hw Hz Hrest.
  change (pre ++ to_string z ++ rest) with (pre ++ [] ++ to_string z ++ rest).
  rewrite scanint_s_to_string; [by rewrite app_nil_r|done|done| |constructor|done].
  intros n p Hn. apply scanint_u_to_string; [lia|done|done].
Qed.

Lemma scanint_signed_roundtrip_witness :
  no_digit_next 10 (lit ";rest")
  /\ scanint_s 32 10 true (lit "x=" ++ to_string (-2147483648) ++ lit ";rest") (zlen (lit "x="))
     = Ret (-2147483648, zlen (lit "x=") + zlen (to_string (-2147483648))).
Proof.
  split; [vm_compute; done|].
  apply (scanint_signed_roundtrip 32 (-2147483648) true (lit "x=") (lit ";rest"));
    [lia|lia|vm_compute; done].
Defined.

(** [_scanuint] on every input: it consumes the maximal run of digits of
    the base at [start] and returns its exact value and the offset after it;
    it throws exactly when there is no digit or the value does not fit in
    [w] bits.  In particular the overflow test is exact and the wrap-around
    of [ret *= base; ret += digit] is never observed. *)
Theorem scanuint_maximal_munch w base sv start :
  2 <= base -> 0 <= w ->
  exists ds rest,
    zdrop start sv = ds ++ rest /\ all_digits base ds /\ no_digit_next base rest /\
    _scanuint w base sv start
    = if bool_decide (ds <> []) && (digits_value base 0 ds <=? umax w)
      then Ret (digits_value base 0 ds, start + zlen ds) else Throw EInvalidArg.
Proof.
  intros. destruct (digits_split base (zdrop start sv)) as (ds & rest & E & Hds & Hr).
  exists ds, rest. split_and!; [done..|]. by apply (scanuint_spec w base ds rest).
Qed.

Lemma scanuint_maximal_munch_witness :
  exists ds rest, zdrop 1 (lit "x65536,") = ds ++ rest /\ all_digits 10 ds /\ no_digit_next 10 rest /\
    _scanuint 16 10 (lit "x65536,") 1
    = if bool_decide (ds <> []) && (digits_value 10 0 ds <=? umax 16)
      then Ret (digits_value 10 0 ds, 1 + zlen ds) else Throw EInvalidArg.
Proof. apply (scanuint_maximal_munch 16 10 (lit "x65536,") 1); lia. Defined.
