(* ===== verification/StrUtils.v ===== *)
(** * String utilities (core123/include/core123/strutils.hpp)

    URL escaping and unescaping, stripping and splitting.  The theorems show
    that [urlunescape] inverts [urlescape], what characters an escaped string
    can hold, and that [svsplit_exact] loses nothing. *)

From Stdlib Require Import Ascii String ZArith Lia.
From stdpp Require Import base gmap strings list numbers.
From S2P Require Import Prelude.

#[local] Open Scope Z_scope.

(** ** URL escaping *)

Definition in_range (c lo hi : ascii) : bool := (sc lo <=? sc c) && (sc c <=? sc hi).

Definition url_plain (c : ascii) : bool :=
  in_range c "a" "z" || in_range c "A" "Z" || in_range c "0" "9"
  || bool_decide (c = "-"%char) || bool_decide (c = "."%char)
  || bool_decide (c = "_"%char) || bool_decide (c = "~"%char)
  || bool_decide (c = "/"%char).

(** [digits\[i\]] for the string literal "0123456789ABCDEF". *)
Definition hex_digit (i : Z) : ascii :=
  if i <? 10 then chr (48 + i) else chr (55 + i).

Definition urlescape_char (c : ascii) : bytes :=
  if url_plain c then [c]
  else ["%"%char; hex_digit (Z.land (Z.shiftr (sc c) 4) 15);
        hex_digit (Z.land (sc c) 15)].

Definition urlescape (in_ : bytes) : bytes := in_ ≫= urlescape_char.

Definition unhex (x : ascii) : option Z :=
  if in_range x "0" "9" then Some (sc x - sc "0")
  else if in_range x "a" "f" then Some (10 + sc x - sc "a")
  else if in_range x "A" "F" then Some (10 + sc x - sc "A")
  else None.

(** [c] is a [char]: [c *= 16; c += d] wraps in 8 bits, as [chr] does. *)
Fixpoint urlunescape (l : bytes) : outcome bytes :=
  match l with
  | [] => Ret []
  | c :: l1 =>
      if bool_decide (c = "%"%char) then
        match l1 with
        | x1 :: x2 :: l2 =>
            match unhex x1, unhex x2 with
            | Some d1, Some d2 =>
                ret ← urlunescape l2; Ret (chr (16 * d1 + d2) :: ret)
            | _, _ => Throw EInvalidArg
            end
        | _ => Throw EInvalidArg
        end
      else ret ← urlunescape l1; Ret (c :: ret)
  end.

(** ** Stripping and splitting *)

Definition first_in (set : bytes) (s : bytes) (pos : Z) : Z :=
  find_from (fun l => match l with x :: _ => bool_decide (x ∈ set) | [] => false end)
    (zdrop pos s) pos.
Definition first_not_in (set : bytes) (s : bytes) (pos : Z) : Z :=
  find_from (fun l => match l with x :: _ => negb (bool_decide (x ∈ set)) | [] => false end)
    (zdrop pos s) pos.

(** " \r\n\t\f\v" *)
Definition strip_set : bytes := map chr [32; 13; 10; 9; 12; 11].

Definition sv_rstrip (s : bytes) : outcome bytes :=
  let i := last_such (fun x => negb (bool_decide (x ∈ strip_set))) s 0 npos in
  substr s 0 (u64 (i + 1)).
Definition sv_lstrip (s : bytes) : outcome bytes :=
  let i := first_not_in strip_set s 0 in
  let i := if i =? npos then zlen s else i in
  substr s i npos.
Definition sv_strip (s : bytes) : outcome bytes :=
  r ← sv_rstrip s; sv_lstrip r.

Fixpoint split_exact_loop (fuel : nat) (s delim : bytes) (start : Z)
  : outcome (list bytes) :=
  match fuel with
  | O => Undef
  | S fuel' =>
      if start <=? zlen s then
        let next := find_str s delim start in
        piece ← substr s start (next - start);
        if next =? npos then Ret [piece]
        else rest ← split_exact_loop fuel' s delim (next + zlen delim);
             Ret (piece :: rest)
      else Ret []
  end.

Definition svsplit_exact (s delim : bytes) (start : Z) : outcome (list bytes) :=
  match delim with
  | [] => Throw EInvalidArg
  | _ => split_exact_loop (length s + 2) s delim start
  end.

Fixpoint split_any_loop (fuel : nat) (s delim : bytes) (start : Z)
  : outcome (list bytes) :=
  match fuel with
  | O => Undef
  | S fuel' =>
      if start <=? zlen s then
        let nextdelim := first_in delim s start in
        piece ← substr s start (nextdelim - start);
        rest ← split_any_loop fuel' s delim (first_not_in delim s nextdelim);
        Ret (piece :: rest)
      else Ret []
  end.

Definition svsplit_any (s delim : bytes) (start : Z) : outcome (list bytes) :=
  split_any_loop (length s + 2) s delim start.

Definition split1 (s : bytes) (delim : ascii) : outcome (bytes * option bytes) :=
  let where_ := find_char s delim 0 in
  rest ← (if where_ =? npos then Ret None
          else r ← substr s (where_ + 1) npos; Ret (Some r));
  before ← substr s 0 where_;
  Ret (before, rest).

Definition rsplit1 (s : bytes) (delim : ascii) : outcome (option bytes * bytes) :=
  let where_ := find_last_of s delim in
  if where_ =? npos then Ret (None, s)
  else a ← substr s 0 where_; b ← substr s (where_ + 1) npos; Ret (Some a, b).

(** ** Lemmas *)

(** A boolean fact about one character, checked on the 256 of them. *)
Definition all_ascii (p : ascii -> bool) : bool :=
  forallb (fun n => p (ascii_of_nat n)) (seq 0 256).

Lemma all_ascii_spec p : all_ascii p = true -> forall c, p c = true.
Proof.
  intros H c. unfold all_ascii in H. rewrite forallb_forall in H.
  rewrite <- (ascii_nat_embedding c). apply H. apply in_seq.
  pose proof (nat_ascii_bounded c). lia.
Qed.

Lemma urlescape_cons c l : urlescape (c :: l) = urlescape_char c ++ urlescape l.
Proof. done. Qed.

(** What unescaping one escaped character yields; checked exhaustively. *)
Lemma urlescape_char_cases c :
  (urlescape_char c = [c] /\ c <> "%"%char)
  \/ exists x1 x2 d1 d2, urlescape_char c = ["%"%char; x1; x2]
       /\ unhex x1 = Some d1 /\ unhex x2 = Some d2 /\ chr (16 * d1 + d2) = c.
Proof.
  pose (p := fun c => match urlescape_char c with
    | [x] => bool_decide (x = c) && negb (bool_decide (c = "%"%char))
    | [pc; x1; x2] => bool_decide (pc = "%"%char) &&
        match unhex x1, unhex x2 with
        | Some d1, Some d2 => bool_decide (chr (16 * d1 + d2) = c)
        | _, _ => false end
    | _ => false end).
  assert (p c = true) as H by (apply all_ascii_spec; vm_compute; reflexivity).
  unfold p in H. clear p.
  destruct (urlescape_char c) as [|x [|x1 [|x2 [|? ?]]]]; try discriminate.
  - left. apply andb_true_iff in H as [->%bool_decide_eq_true H].
    split; [done|]. by intros ->.
  - right. apply andb_true_iff in H as [->%bool_decide_eq_true H].
    destruct (unhex x1) as [d1|] eqn:E1; [|done].
    destruct (unhex x2) as [d2|] eqn:E2; [|done].
    apply bool_decide_eq_true in H. eauto 10.
Qed.

(** Characters of an escaped string: unreserved, '/' or '%'. *)
Definition url_safe (c : ascii) : bool := url_plain c || bool_decide (c = "%"%char).

Lemma urlescape_char_safe c : Forall (fun x => url_safe x = true) (urlescape_char c).
Proof.
  assert (forallb url_safe (urlescape_char c) = true) as H.
  { revert c. apply (all_ascii_spec (fun c => forallb url_safe (urlescape_char c))).
    vm_compute. reflexivity. }
  rewrite forallb_forall in H. apply Forall_forall. intros x Hx.
  by apply H.
Qed.

(** Unescaping a text whose first part was escaped. *)
Lemma urlunescape_app_escaped s rest :
  urlunescape (urlescape s ++ rest) = (t ← urlunescape rest; Ret (s ++ t)).
Proof.
  induction s as [|c s IH]; [cbn; by destruct (urlunescape rest)|].
  rewrite urlescape_cons, <- app_assoc.
  destruct (urlescape_char_cases c) as [(-> & Hc)|(x1 & x2 & d1 & d2 & -> & E1 & E2 & Ec)].
  - cbn. rewrite bool_decide_eq_false_2 by done. rewrite IH. by destruct (urlunescape rest).
  - cbn -[Z.mul]. rewrite E1, E2, IH. destruct (urlunescape rest); cbn -[Z.mul]; by rewrite ?Ec.
Qed.

(** [urlunescape] inverts [urlescape] on every string of characters
    (NULs and bytes above 127 included). *)
Theorem urlescape_roundtrip s : urlunescape (urlescape s) = Ret s.
Proof.
  rewrite <- (app_nil_r (urlescape s)), urlunescape_app_escaped. cbn. by rewrite app_nil_r.
Qed.

(** Unreserved characters are left alone. *)
Lemma urlescape_plain s : Forall (fun c => url_plain c = true) s -> urlescape s = s.
Proof.
  induction 1 as [|c s Hc Hs IH]; [done|]. rewrite urlescape_cons, IH.
  unfold urlescape_char. by rewrite Hc.
Qed.

Lemma urlescape_app a b : urlescape (a ++ b) = urlescape a ++ urlescape b.
Proof. apply bind_app. Qed.

(** What an escaped string consists of: none of the delimiters [?], [;], [#],
    space, control characters or bytes above 127 survive. *)
Lemma urlescape_safe s : Forall (fun x => url_safe x = true) (urlescape s).
Proof.
  induction s as [|c s IH]; [constructor|]. rewrite urlescape_cons.
  apply Forall_app. split; [apply urlescape_char_safe|done].
Qed.

(** Examples of the corner cases described above [svsplit_any]. *)
Lemma svsplit_any_trailing :
  svsplit_any (lit "a,") (lit ",") 0 = Ret [lit "a"].
Proof. vm_compute. reflexivity. Qed.
Lemma svsplit_any_only_delims :
  svsplit_any (lit ",,") (lit ",") 0 = Ret [[]].
Proof. vm_compute. reflexivity. Qed.

(** ** Splitting loses nothing *)

(** [std::string]s joined by a delimiter. *)
Fixpoint join (delim : bytes) (l : list bytes) : bytes :=
  match l with
  | [] => []
  | [x] => x
  | x :: l' => x ++ delim ++ join delim l'
  end.

Lemma join_cons delim x l : l <> [] -> join delim (x :: l) = x ++ delim ++ join delim l.
Proof. by destruct l. Qed.

Lemma substr_in s pos n : pos <= zlen s -> substr s pos n = Ret (ztake n (zdrop pos s)).
Proof. intros. unfold substr. by rewrite (proj2 (Z.ltb_ge _ _)) by lia. Qed.

Lemma split_exact_loop_join fuel s delim start :
  delim <> [] -> zlen s < npos -> 0 <= start <= zlen s ->
  zlen s - start + 1 < Z.of_nat fuel ->
  exists l, split_exact_loop fuel s delim start = Ret l /\ l <> []
    /\ join delim l = zdrop start s.
Proof.
  intros Hd Hs. revert start.
  induction fuel as [|fuel IH]; intros start Hst Hf; [lia|]. cbn [split_exact_loop].
  rewrite (proj2 (Z.leb_le _ _)) by lia. rewrite substr_in by lia. cbn.
  assert (0 < zlen delim).
  { destruct delim; [done|]. rewrite zlen_cons. pose proof (zlen_nonneg delim). lia. }
  destruct (find_str_cases s delim start Hst) as [(-> & _)|(n & -> & ? & ? & rest & Er)].
  - rewrite Z.eqb_refl. eexists. split_and!; [done|done|]. cbn.
    apply ztake_all. rewrite zlen_zdrop by lia. unfold npos in *. lia.
  - rewrite (proj2 (Z.eqb_neq _ _)) by lia.
    destruct (decide (n + zlen delim <= zlen s)) as [Hle|]; [|lia].
    destruct (IH (n + zlen delim)) as (l & -> & Hl & El); [lia..|].
    eexists. split_and!; [done|done|]. rewrite join_cons, El by done.
    etransitivity; [|apply (ztake_zdrop (zdrop start s) (n - start)); lia]. f_equal.
    rewrite zdrop_zdrop by lia. replace (start + (n - start)) with n by lia.
    rewrite <- zdrop_zdrop, Er by lia. by rewrite zdrop_app.
Qed.

(**  [svsplit_exact] terminates with a non-empty list of pieces whose join
    by the delimiter is the string it was given (from [start] on), for every
    non-empty delimiter. *)
Theorem svsplit_exact_join s delim start :
  delim <> [] -> zlen s < npos -> 0 <= start <= zlen s ->
  exists l, svsplit_exact s delim start = Ret l /\ l <> [] /\ join delim l = zdrop start s.
Proof.
  intros Hd Hs Hst. unfold svsplit_exact. destruct delim as [|c d]; [done|].
  apply split_exact_loop_join; [done..|]. unfold zlen in *. lia.
Qed.

Lemma svsplit_exact_join_witness :
  exists l, svsplit_exact (lit "a::b:::c") (lit "::") 0 = Ret l /\ l <> []
    /\ join (lit "::") l = zdrop 0 (lit "a::b:::c").
Proof.
  apply (svsplit_exact_join (lit "a::b:::c") (lit "::") 0);
    [discriminate|vm_compute; reflexivity|vm_compute; split; discriminate].
Defined.
