(* ===== verification/Threeroe.v ===== *)
(** * The threeroe hash (core123/include/core123/threeroe.hpp)

    The non-cryptographic hash that names cache files, derives etags and
    checks cached content.  The object is modelled with its deferral buffer;
    the unit test's SMHasher verifier is evaluated on the model.  The theorem:
    the hash of a string does not depend on how it was cut into updates. *)

From Stdlib Require Import Ascii String ZArith Lia.
From stdpp Require Import base gmap strings list numbers.
From S2P Require Import Prelude.

#[local] Open Scope Z_scope.

(** ** Definitions *)

(** core123::rotl on [uint64_t] *)
Definition rotl (x s : Z) : Z := Z.lor (u64 (Z.shiftl x s)) (Z.shiftr x (64 - s)).

(** [letonative] of eight bytes *)
Definition le64 (l : bytes) : Z := fold_right (fun c a => zc c + 256 * a) 0 (take 8 l).

Record state4 := St { s_0 : Z; s_1 : Z; s_2 : Z; s_3 : Z }.

Definition mixoneblock (data : bytes) (s : state4) : state4 :=
  let k0 := le64 data in
  let k1 := le64 (drop 8 data) in
  let k2 := le64 (drop 16 data) in
  let k3 := le64 (drop 24 data) in
  let k4 := rotl k3 23 in let k5 := rotl k2 52 in
  let k6 := rotl k1 40 in let k7 := rotl k0 57 in
  let s0 := u64 (s_0 s + k0) in let s1 := u64 (s_1 s + k1) in
  let s2 := u64 (s_2 s + k2) in let s3 := u64 (s_3 s + k3) in
  let s0 := u64 (s0 + s1) in let s1 := Z.lxor (rotl s1 14) s0 in
  let s2 := u64 (s2 + s3) in let s3 := Z.lxor (rotl s3 16) s2 in
  let s0 := u64 (s0 + k4) in let s1 := u64 (s1 + k5) in
  let s2 := u64 (s2 + k6) in let s3 := u64 (s3 + k7) in
  let s3 := Z.lxor s3 s0 in
  let s1 := Z.lxor s1 s2 in
  St s0 s1 s2 s3.

(** [deferred] holds the first [bytes_deferred] bytes of the buffer. *)
Record threeroe := Threeroe { tr_state : state4; deferred : bytes; tr_len : Z }.

Definition CHARS_PER_INBLK : nat := 32.

(** One ThreeFry round: [a += b; b = rotl(b,r); b ^= a]. *)
Definition round (r : Z) (p : Z * Z) : Z * Z :=
  let a := u64 (p.1 + p.2) in (a, Z.lxor (rotl p.2 r) a).

Definition finish (h : threeroe) : Z * Z :=
  let s := tr_state h in
  let s := match deferred h with
           | [] => s
           | d => mixoneblock (d ++ replicate (CHARS_PER_INBLK - length d) zero) s
           end in
  let s0 := u64 (s_0 s + s_2 s) in
  let s1 := u64 (s_1 s + s_3 s) in
  let s2 := s_2 s in
  let s3 := u64 (s_3 s + tr_len h) in
  let '(s0, s1) := round 14 (s0, s1) in
  let '(s2, s3) := round 16 (s2, s3) in
  let '(s0, s1) := round 42 (round 16 (s0, s1)) in
  let '(s0, s1) := (u64 (s0 + s3), u64 (s1 + s2)) in
  let '(s0, s1) := round 31 (round 12 (s0, s1)) in
  let '(s0, s1) := (u64 (s0 + s2), u64 (s1 + s3)) in
  let '(s0, s1) := round 42 (round 16 (s0, s1)) in
  let '(s0, s1) := (u64 (s0 + s3), u64 (s1 + s2)) in
  round 31 (round 12 (s0, s1)).

Definition threeroe_ctor (seed1 seed2 : Z) : threeroe :=
  Threeroe (St seed1 3622009729038561421 seed2 0) [] 0.

Definition defer (l : bytes) (h : threeroe) : threeroe :=
  Threeroe (tr_state h) (deferred h ++ l) (tr_len h).

(** Returns the bytes not consumed. *)
Definition catchup (l : bytes) (h : threeroe) : bytes * threeroe :=
  match deferred h with
  | [] => (l, h)
  | d =>
      let ncpy := (CHARS_PER_INBLK - length d)%nat in
      if (ncpy <=? length l)%nat
      then (drop ncpy l, Threeroe (mixoneblock (d ++ take ncpy l) (tr_state h)) [] (tr_len h))
      else ([], defer l h)
  end.

Fixpoint mix_blocks (n : nat) (l : bytes) (s : state4) : state4 :=
  match n with
  | O => s
  | S n => mix_blocks n (drop CHARS_PER_INBLK l) (mixoneblock (take CHARS_PER_INBLK l) s)
  end.

(** [while(b <= e - step*32)] with [step] blocks mixed per iteration. *)
Fixpoint bulk_loop (step fuel : nat) (l : bytes) (s : state4) : bytes * state4 :=
  if (step * CHARS_PER_INBLK <=? length l)%nat then
    match fuel with
    | O => (l, s)
    | S fuel => bulk_loop step fuel (drop (step * CHARS_PER_INBLK) l) (mix_blocks step l s)
    end
  else (l, s).

Definition bulk (l : bytes) (h : threeroe) : bytes * threeroe :=
  let '(l, s) := bulk_loop 8 (length l) l (tr_state h) in
  let '(l, s) := bulk_loop 1 (length l) l s in
  (l, Threeroe s (deferred h) (tr_len h)).

Definition update_bytes (data : bytes) (h : threeroe) : threeroe :=
  let '(cdata, h) := catchup data h in
  let '(cdata, h) := if (CHARS_PER_INBLK <=? length cdata)%nat then bulk cdata h else (cdata, h) in
  let h := defer cdata h in
  Threeroe (tr_state h) (deferred h) (u64 (tr_len h + zlen data)).

Definition update (data : bytes) (h : threeroe) : threeroe :=
  match data with [] => h | _ => update_bytes data h end.

Definition hash64 (h : threeroe) : Z := (finish h).1.

(** [threeroe(v, seed1, seed2)] *)
Definition threeroe_of (v : bytes) (seed1 seed2 : Z) : threeroe :=
  update v (threeroe_ctor seed1 seed2).

Definition be64 (n : Z) : bytes :=
  map (fun i => chr (Z.shiftr n (8 * (7 - Z.of_nat i)))) (seq 0 8).

Definition digest (h : threeroe) : bytes := let '(a, b) := finish h in be64 a ++ be64 b.

Definition hexlownibble (i : Z) : ascii :=
  let i := Z.land i 15 in chr ((if 9 <? i then 97 - 10 else 48) + i).

(** Sixteen nibbles, written right to left. *)
Fixpoint nibbles (n : nat) (v : Z) (acc : bytes) : bytes :=
  match n with
  | O => acc
  | S n => nibbles n (Z.shiftr v 4) (hexlownibble v :: acc)
  end.

Definition hexdigest (h : threeroe) : bytes :=
  let '(a, b) := finish h in nibbles 16 a (nibbles 16 b []).

(** ** The published test vector

    The SMHasher verification of ut_threeroe.cpp. *)
Fixpoint smhasher_hashes (n i : nat) (key : bytes) : bytes :=
  match n with
  | O => []
  | S n => digest (threeroe_of key (256 - Z.of_nat i) 0)
             ++ smhasher_hashes n (S i) (key ++ [chr (Z.of_nat i)])
  end.

Definition SMHasher_Verifier : Z := 1826784157.

Example smhasher_verifier :
  le64 (take 4 (digest (threeroe_of (smhasher_hashes 256 0 []) 0 0))) = SMHasher_Verifier.
Proof. vm_compute. reflexivity. Qed.

(** ** Lemmas *)

(** Reference: absorb whole blocks from the front, keep the rest. *)
Fixpoint absorb (fuel : nat) (l : bytes) (s : state4) : bytes * state4 :=
  match fuel with
  | O => (l, s)
  | S fuel =>
      if (CHARS_PER_INBLK <=? length l)%nat
      then absorb fuel (drop CHARS_PER_INBLK l) (mixoneblock (take CHARS_PER_INBLK l) s)
      else (l, s)
  end.

Lemma absorb_fuel n m l s : (length l <= n)%nat -> (length l <= m)%nat ->
  absorb n l s = absorb m l s.
Proof.
  revert m l s. induction n as [|n IH]; intros m l s Hn Hm.
  - destruct l; [|cbn in Hn; lia]. by destruct m.
  - cbn [absorb]. destruct (CHARS_PER_INBLK <=? length l)%nat eqn:E.
    + apply Nat.leb_le in E. unfold CHARS_PER_INBLK in *. destruct m as [|m]; [lia|].
      cbn [absorb]. rewrite (proj2 (Nat.leb_le _ _)) by done.
      apply IH; unfold CHARS_PER_INBLK; rewrite length_drop; lia.
    + destruct m; cbn [absorb]; [done|]. by rewrite E.
Qed.

Lemma absorb_short n l s : (length l < CHARS_PER_INBLK)%nat -> absorb n l s = (l, s).
Proof. intros H. destruct n; cbn [absorb]; [done|]. by rewrite (proj2 (Nat.leb_gt _ _)). Qed.

Definition absorb_all (l : bytes) (s : state4) : bytes * state4 := absorb (length l) l s.

Lemma absorb_all_eq l s :
  absorb_all l s = if (CHARS_PER_INBLK <=? length l)%nat
    then absorb_all (drop CHARS_PER_INBLK l) (mixoneblock (take CHARS_PER_INBLK l) s) else (l, s).
Proof.
  unfold absorb_all. destruct (CHARS_PER_INBLK <=? length l)%nat eqn:E.
  - apply Nat.leb_le in E. unfold CHARS_PER_INBLK in *.
    destruct l as [|c l]; [cbn in E; lia|]. cbn [length absorb].
    rewrite (proj2 (Nat.leb_le _ _)) by done.
    apply absorb_fuel; unfold CHARS_PER_INBLK; rewrite length_drop; cbn [length]; lia.
  - apply absorb_short. by apply Nat.leb_gt.
Qed.

Lemma absorb_all_short l s : (length l < CHARS_PER_INBLK)%nat -> absorb_all l s = (l, s).
Proof. apply absorb_short. Qed.

(** Absorbing in two goes. *)
Lemma absorb_all_app l k s :
  absorb_all (l ++ k) s = let '(r, s') := absorb_all l s in absorb_all (r ++ k) s'.
Proof.
  remember (length l) as n eqn:En. revert l s En.
  induction (lt_wf n) as [n _ IH]; intros l s ->.
  rewrite (absorb_all_eq l). destruct (CHARS_PER_INBLK <=? length l)%nat eqn:E; [|done].
  apply Nat.leb_le in E. rewrite absorb_all_eq.
  rewrite (proj2 (Nat.leb_le _ _)) by (rewrite length_app; lia).
  rewrite drop_app_le, take_app_le by lia.
  apply (IH (length (drop CHARS_PER_INBLK l))); [|done].
  rewrite length_drop. unfold CHARS_PER_INBLK in *. lia.
Qed.

Lemma absorb_all_rest l s : (length (absorb_all l s).1 < CHARS_PER_INBLK)%nat.
Proof.
  remember (length l) as n eqn:En. revert l s En.
  induction (lt_wf n) as [n _ IH]; intros l s ->.
  rewrite absorb_all_eq. destruct (CHARS_PER_INBLK <=? length l)%nat eqn:E.
  - apply Nat.leb_le in E. eapply IH; [|done]. rewrite length_drop. unfold CHARS_PER_INBLK in *. lia.
  - by apply Nat.leb_gt in E.
Qed.

Lemma absorb_all_block b l s :
  length b = CHARS_PER_INBLK -> absorb_all (b ++ l) s = absorb_all l (mixoneblock b s).
Proof.
  intros E. rewrite absorb_all_eq. rewrite (proj2 (Nat.leb_le _ _)) by (rewrite length_app; lia).
  by rewrite drop_app_length', take_app_length'.
Qed.

(** Both loops of [bulk] absorb blocks from the front. *)
Lemma mix_blocks_absorb n l s : (n * CHARS_PER_INBLK <= length l)%nat ->
  absorb_all (drop (n * CHARS_PER_INBLK) l) (mix_blocks n l s) = absorb_all l s.
Proof.
  revert l s. induction n as [|n IH]; intros l s Hn; [done|]. cbn [mix_blocks Nat.mul].
  rewrite (absorb_all_eq l). rewrite (proj2 (Nat.leb_le _ _)) by lia.
  rewrite <- (IH (drop CHARS_PER_INBLK l)) by (rewrite length_drop; unfold CHARS_PER_INBLK in *; lia). by rewrite drop_drop.
Qed.

Lemma bulk_loop_absorb step fuel l s :
  let '(l', s') := bulk_loop step fuel l s in absorb_all l' s' = absorb_all l s.
Proof.
  revert l s. induction fuel as [|fuel IH]; intros l s; cbn [bulk_loop].
  - by destruct (_ <=? _)%nat.
  - destruct (_ <=? _)%nat eqn:E; [|done]. apply Nat.leb_le in E.
    specialize (IH (drop (step * CHARS_PER_INBLK) l) (mix_blocks step l s)).
    destruct (bulk_loop _ _ _ _) as [l' s']. rewrite IH. by apply mix_blocks_absorb.
Qed.

Lemma bulk_loop_rest fuel l s : (length l <= fuel)%nat ->
  (length (bulk_loop 1 fuel l s).1 < CHARS_PER_INBLK)%nat.
Proof.
  revert l s. induction fuel as [|fuel IH]; intros l s Hf; cbn [bulk_loop];
    destruct (1 * CHARS_PER_INBLK <=? length l)%nat eqn:E.
  - apply Nat.leb_le in E. unfold CHARS_PER_INBLK in *. lia.
  - apply Nat.leb_gt in E. cbn. unfold CHARS_PER_INBLK in *. lia.
  - apply Nat.leb_le in E. apply IH. rewrite length_drop. unfold CHARS_PER_INBLK in *. lia.
  - apply Nat.leb_gt in E. cbn. unfold CHARS_PER_INBLK in *. lia.
Qed.

Lemma bulk_absorb l h :
  bulk l h = let '(r, s) := absorb_all l (tr_state h) in (r, Threeroe s (deferred h) (tr_len h)).
Proof.
  unfold bulk. pose proof (bulk_loop_absorb 8 (length l) l (tr_state h)) as H8.
  destruct (bulk_loop 8 (length l) l (tr_state h)) as [l1 s1].
  pose proof (bulk_loop_absorb 1 (length l1) l1 s1) as H1.
  pose proof (bulk_loop_rest (length l1) l1 s1 ltac:(lia)) as Hr.
  destruct (bulk_loop 1 (length l1) l1 s1) as [l2 s2]. cbn in Hr.
  rewrite <- H8, <- H1. by rewrite absorb_all_short.
Qed.

Definition tr_wf (h : threeroe) : Prop := (length (deferred h) < CHARS_PER_INBLK)%nat.

(** What [update] computes. *)
Lemma update_absorb data h : tr_wf h ->
  update data h = let '(r, s) := absorb_all (deferred h ++ data) (tr_state h) in
    match data with [] => h | _ => Threeroe s r (u64 (tr_len h + zlen data)) end.
Proof.
  intros Hwf. destruct data as [|c data]; [by case_match|].
  cbn [update]. generalize (c :: data). clear c data. intros l. unfold update_bytes.
  destruct h as [s d n]. unfold tr_wf, catchup in *. cbn [deferred tr_state tr_len] in *.
  assert (forall k s0, (if (CHARS_PER_INBLK <=? length k)%nat then bulk k (Threeroe s0 [] n)
            else (k, Threeroe s0 [] n))
          = let '(r, s') := absorb_all k s0 in (r, Threeroe s' [] n)) as Hb.
  { intros k s0. destruct (_ <=? _)%nat eqn:E; [by rewrite bulk_absorb|].
    apply Nat.leb_gt in E. by rewrite absorb_all_short. }
  destruct d as [|x d].
  - rewrite Hb. cbn [app]. destruct (absorb_all l s) as [r s']. done.
  - set (dd := x :: d) in *.
    destruct (_ <=? length l)%nat eqn:E.
    + apply Nat.leb_le in E. rewrite Hb.
      rewrite <- (take_drop (CHARS_PER_INBLK - length dd) l) at 3. rewrite app_assoc.
      rewrite absorb_all_block by (rewrite length_app, length_take; lia).
      by destruct (absorb_all (drop _ l) _) as [r s'].
    + apply Nat.leb_gt in E. cbn [length]. change (CHARS_PER_INBLK <=? 0)%nat with false.
      rewrite absorb_all_short by (rewrite length_app; lia).
      unfold defer. cbn. by rewrite app_nil_r.
Qed.

(** ** Properties *)

(** Feeding a hash object a string in two pieces leaves it in the same
    state as feeding it the whole: block boundaries, the deferral buffer, the
    unrolled bulk loop and the length counter do not depend on the cut.  So
    [digest] and [hexdigest] are functions of the concatenation. *)
Theorem update_app a b h :
  tr_wf h -> 0 <= tr_len h ->
  update b (update a h) = update (a ++ b) h /\ tr_wf (update a h).
Proof.
  intros Hwf Hlen. rewrite (update_absorb a) by done.
  pose proof (absorb_all_rest (deferred h ++ a) (tr_state h)) as Hr.
  rewrite (update_absorb (a ++ b)), (app_assoc (deferred h)), (absorb_all_app (deferred h ++ a) b) by done.
  destruct (absorb_all (deferred h ++ a) (tr_state h)) as [r s] eqn:Ea. cbn in Hr.
  destruct a as [|x a].
  - rewrite app_nil_r, absorb_all_short in Ea by done. injection Ea as <- <-.
    split; [|exact Hwf]. cbn [update app]. by rewrite update_absorb.
  - split; [|done]. rewrite update_absorb by done. cbn [deferred tr_state tr_len].
    destruct (absorb_all (r ++ b) s) as [r' s'] eqn:Eb. destruct b as [|y b].
    + rewrite app_nil_r in *. rewrite absorb_all_short in Eb by done. by injection Eb as <- <-.
    + cbn [app]. f_equal. unfold wrap. rewrite Zplus_mod_idemp_l. f_equal.
      change (x :: a ++ y :: b) with ((x :: a) ++ y :: b). zlia.
Qed.

Lemma update_app_witness :
  update (replicate 300 "b"%char) (update (lit "aaa") (threeroe_ctor 1 2))
  = update (lit "aaa" ++ replicate 300 "b"%char) (threeroe_ctor 1 2)
  /\ tr_wf (update (lit "aaa") (threeroe_ctor 1 2)).
Proof.
  apply (update_app (lit "aaa") (replicate 300 "b"%char) (threeroe_ctor 1 2)).
  - unfold tr_wf. vm_compute. lia.
  - vm_compute. discriminate.
Defined.

(** The hash is a 64-bit word. *)
Lemma hash64_range h : 0 <= hash64 h < 2 ^ 64.
Proof.
  unfold hash64, finish.
  repeat match goal with |- context [let '(_, _) := ?p in _] => destruct p end.
  apply wrap_range. lia.
Qed.

Lemma length_nibbles n v acc : length (nibbles n v acc) = (n + length acc)%nat.
Proof. revert v acc. induction n as [|n IH]; intros v acc; cbn; [done|]. rewrite IH. cbn. lia. Qed.

Lemma hexdigest_chars h : Forall (fun c => exists v, c = hexlownibble v) (hexdigest h).
Proof.
  unfold hexdigest. destruct (finish h) as [a b].
  assert (forall n v acc, Forall (fun c => exists v, c = hexlownibble v) acc ->
            Forall (fun c => exists v, c = hexlownibble v) (nibbles n v acc)) as H.
  { induction n as [|n IH]; intros v acc Ha; cbn; [done|]. apply IH. constructor; eauto. }
  apply H, H. constructor.
Qed.

Lemma length_hexdigest h : length (hexdigest h) = 32%nat.
Proof.
  unfold hexdigest. destruct (finish h) as [a b]. by rewrite !length_nibbles.
Qed.
