(* ===== verification/SvTo.v ===== *)
(** * Value scanning (core123/include/core123/svto.hpp)

    [svscan] over integral types, over [nullptr] (skip white space) and over
    tuples, and [svto].  An integral type is described by its width and
    signedness.  Used by the server to parse protocol numbers and queries, and
    to read back a serialized [struct stat]. *)

From Stdlib Require Import Ascii String ZArith Lia.
From stdpp Require Import base gmap strings list numbers.
From S2P Require Import Prelude ScanInt StrUtils.

#[local] Open Scope Z_scope.

(** ** Definitions *)

(** " \n\t\f\r" *)
Definition white_set : bytes := map chr [32; 10; 9; 12; 13].

(** [svscan(sv, nullptr, start)] *)
Definition svscan_null (sv : bytes) (start : Z) : Z :=
  let nonwhite := first_not_in white_set sv start in
  if negb (nonwhite =? npos) then nonwhite else zlen sv.

Record itype := IType { it_width : Z; it_signed : bool }.

Definition T_int := IType 32 true.
Definition T_u64 := IType 64 false.
Definition T_u32 := IType 32 false.
Definition T_i64 := IType 64 true.

(** The values of an integral type. *)
Definition in_type (t : itype) (z : Z) : Prop :=
  if it_signed t then - 2 ^ (it_width t - 1) <= z < 2 ^ (it_width t - 1)
  else 0 <= z < 2 ^ it_width t.

(** [svscan<Type>] for an integral type is [scanint<Type>], with its default
    arguments [base=0, skip_white=true]. *)
Definition svscan (t : itype) (sv : bytes) (start : Z) : outcome (Z * Z) :=
  if it_signed t then scanint_s (it_width t) 0 true sv start
  else scanint_u (it_width t) 0 true sv start.

(** [svscan] of a tuple: each member in order, from where the last ended. *)
Fixpoint svscan_tuple (ts : list itype) (sv : bytes) (start : Z)
  : outcome (list Z * Z) :=
  match ts with
  | [] => Ret ([], start)
  | t :: ts' =>
      '(v, start) ← svscan t sv start;
      '(vs, start) ← svscan_tuple ts' sv start;
      Ret (v :: vs, start)
  end.

(** [svto<T>]: the whole string, but for trailing white space. *)
Definition svto (t : itype) (sv : bytes) (start : Z) : outcome Z :=
  '(v, nxt) ← svscan t sv start;
  if negb (nxt =? zlen sv) && negb (svscan_null sv nxt =? zlen sv)
  then Throw EInvalidArg else Ret v.

(** [os << v1 << " " << v2 ...]: how a tuple of integers is printed. *)
Fixpoint print_tuple (vs : list Z) : bytes :=
  match vs with
  | [] => []
  | [v] => to_string v
  | v :: vs' => to_string v ++ " "%char :: print_tuple vs'
  end.

(** ** Lemmas *)

Lemma svscan_range t sv start v r : 1 <= it_width t -> svscan t sv start = Ret (v, r) -> in_type t v.
Proof.
  intros Hw. unfold svscan, in_type. destruct (it_signed t); intros H.
  - by eapply scanint_s_range.
  - eapply scanint_u_range; [|done]. lia.
Qed.
Lemma svto_range t sv v : 1 <= it_width t -> svto t sv 0 = Ret v -> in_type t v.
Proof.
  intros Hw H. unfold svto in H. apply bind_Ret in H as ([u r] & H & [_ [= <-]]%if_throw_Ret).
  by eapply svscan_range.
Qed.
Lemma svto_defined t sv : svto t sv 0 <> Undef.
Proof.
  unfold svto, svscan. apply bind_defined; [|intros [u r] _; by case_match].
  destruct (it_signed t); [by apply scanint_s_defined|by apply scanint_u_defined].
Qed.

Definition stops_number (rest : bytes) : Prop :=
  match rest with [] => True | c :: _ => ~ is_digit c /\ is_x c = false end.

Lemma stops_no_digit rest : stops_number rest -> no_digit_next 10 rest.
Proof.
  destruct rest as [|c rest]; [done|]. intros [Hc _]. cbn.
  destruct (decide (_digitcvt 10 c = 10)) as [|E]; [done|].
  apply digitcvt_10 in E. contradiction.
Qed.

Lemma not_digit_octal c : ~ is_digit c -> _digitcvt 8 c = 8.
Proof.
  intros Hc. destruct (decide (_digitcvt 8 c = 8)) as [|E]; [done|]. exfalso.
  apply Hc, digitcvt_10. revert E. unfold _digitcvt. change (8 <=? 10) with true.
  repeat (case_match; try done); intros; lia.
Qed.

Lemma sv_idx_next pre c d l : sv_idx (pre ++ c :: d :: l) (zlen pre + 1) = Ret d.
Proof.
  change (c :: d :: l) with ([c] ++ d :: l). rewrite app_assoc.
  replace (zlen pre + 1) with (zlen (pre ++ [c])) by by rewrite zlen_app.
  apply sv_idx_mid.
Qed.

Lemma scanint_u_base0 w n pre rest :
  0 <= w -> 0 <= n < 2 ^ w -> stops_number rest ->
  scanint_u w 0 false (pre ++ to_string_u n ++ rest) (zlen pre)
  = Ret (n, zlen pre + zlen (to_string_u n)).
Proof.
  intros Hw Hn Hrest. unfold scanint_u, _scanint_rethrow. cbn [Z.eqb].
  pose proof (zlen_nonneg pre). pose proof (zlen_nonneg rest).
  destruct (to_string_u_head n ltac:(lia)) as [[-> ->]|(c & l & E & Hc)].
  - change (lit "0" ++ rest) with ("0"%char :: rest).
    rewrite !zlen_app, zlen_cons. change (zlen (lit "0")) with 1.
    rewrite (proj2 (Z.leb_gt _ _)) by lia.
    rewrite sv_idx_mid. cbn -[sv_idx _digitcvt].
    destruct rest as [|c rest].
    + rewrite (@zlen_nil ascii). by rewrite (proj2 (Z.eqb_eq _ _)) by lia.
    + destruct Hrest as [Hc1 Hx]. rewrite zlen_cons. pose proof (zlen_nonneg rest).
      rewrite (proj2 (Z.eqb_neq _ _)) by lia. rewrite sv_idx_next. cbn -[_digitcvt].
      by rewrite Hx, not_digit_octal.
  - rewrite (proj2 (Z.leb_gt _ _))
      by (rewrite E, !zlen_app, zlen_cons; pose proof (zlen_nonneg l); lia).
    assert (sv_idx (pre ++ to_string_u n ++ rest) (zlen pre) = Ret c) as ->
      by (rewrite E; apply sv_idx_mid).
    cbn -[to_string_u _scanuint]. rewrite bool_decide_eq_false_2 by done.
    rewrite scanuint_to_string; [done..|by apply stops_no_digit].
Qed.

(** [svscan] reads back a printed value, after white space. *)
Lemma svscan_to_string t v pre ws rest :
  1 <= it_width t -> in_type t v -> stops_number rest ->
  Forall (fun c => is_white c = true) ws ->
  svscan t (pre ++ ws ++ to_string v ++ rest) (zlen pre)
  = Ret (v, zlen (pre ++ ws ++ to_string v)).
Proof.
  intros Hw Hv Hrest Hws. unfold svscan, in_type in *.
  rewrite (app_assoc pre ws (to_string v)), (zlen_app (pre ++ ws)).
  destruct (it_signed t).
  - apply scanint_s_to_string; [done|done| |done|done].
    intros n p Hn. apply scanint_u_base0; [lia|done|done].
  - unfold scanint_u. rewrite skip_white_ws by done. rewrite (app_assoc pre ws).
    assert (to_string v = to_string_u v) as ->
      by (unfold to_string; by rewrite (proj2 (Z.ltb_ge _ _)) by lia).
    apply (scanint_u_base0 (it_width t) v (pre ++ ws) rest); [lia|done|done].
Qed.

(** White space separates: it is not a digit nor an [x]. *)
Lemma stops_space rest : stops_number (" "%char :: rest).
Proof. split; [unfold is_digit; vm_compute; intuition discriminate|done]. Qed.

Lemma print_tuple_cons v vs :
  vs <> [] -> print_tuple (v :: vs) = to_string v ++ " "%char :: print_tuple vs.
Proof. by destruct vs. Qed.

Lemma svscan_tuple_ws ts vs pre ws rest :
  Forall2 (fun t v => 1 <= it_width t /\ in_type t v) ts vs -> stops_number rest ->
  Forall (fun c => is_white c = true) ws -> vs <> [] ->
  svscan_tuple ts (pre ++ ws ++ print_tuple vs ++ rest) (zlen pre)
  = Ret (vs, zlen (pre ++ ws ++ print_tuple vs)).
Proof.
  intros H Hrest. revert pre ws. induction H as [|t v ts vs (Hw & Hv) H IH];
    intros pre ws Hws Hne; [done|]. cbn [svscan_tuple].
  destruct vs as [|v' vs].
  - inversion H; subst. cbn [print_tuple]. by rewrite svscan_to_string.
  - rewrite print_tuple_cons by done.
    rewrite <- (app_assoc (to_string v)). cbn [app].
    rewrite svscan_to_string; [|done|done|apply stops_space|done]. cbn -[svscan_tuple print_tuple to_string].
    specialize (IH (pre ++ ws ++ to_string v) [" "%char]).
    rewrite <- !app_assoc in IH. cbn [app] in IH.
    rewrite IH; [done|by repeat constructor|done].
Qed.

(** A tuple of integers printed with single spaces between them is read
    back by [svscan] of the same tuple of types, value for value, and the
    returned offset is the end of the last number, whatever follows that is
    neither a digit nor an [x]. *)
Theorem svscan_tuple_roundtrip ts vs pre rest :
  Forall2 (fun t v => 1 <= it_width t /\ in_type t v) ts vs -> vs <> [] ->
  stops_number rest ->
  svscan_tuple ts (pre ++ print_tuple vs ++ rest) (zlen pre)
  = Ret (vs, zlen (pre ++ print_tuple vs)).
Proof. intros. by apply (svscan_tuple_ws ts vs pre []). Qed.

Lemma svscan_tuple_roundtrip_witness :
  svscan_tuple [T_int; T_u64; T_i64]
    (lit "x" ++ print_tuple [-5; 18446744073709551615; 0] ++ lit " tail") 1
  = Ret ([-5; 18446744073709551615; 0],
         zlen (lit "x" ++ print_tuple [-5; 18446744073709551615; 0])).
Proof.
  apply (svscan_tuple_roundtrip [T_int; T_u64; T_i64] [-5; 18446744073709551615; 0]
           (lit "x") (lit " tail")).
  - repeat constructor; vm_compute; intuition discriminate.
  - discriminate.
  - apply stops_space.
Defined.
