(* ===== verification/Netstring.v ===== *)
(** * Netstrings (core123/include/core123/netstring.hpp)

    [netstring], [svscan_netstring] and [sget_netstring].  The theorems: the
    scanner inverts the printer whatever the payload, the scanner accepts only
    canonical netstrings as long as it moves forward, and the stream reader
    inverts the printer too.  Two examples show inputs on which the code does
    not do what its comments promise. *)

From Stdlib Require Import Ascii String ZArith Lia.
From stdpp Require Import base gmap strings list numbers.
From S2P Require Import Prelude ScanInt StrUtils SvTo.

#[local] Open Scope Z_scope.

(** ** Definitions *)

Definition netstring (sv : bytes) : bytes :=
  to_string (zlen sv) ++ ":"%char :: sv ++ [","%char].

(** [size_t] arithmetic on offsets wraps. *)
Definition svscan_netstring (skip_white : bool) (sv : bytes) (start : Z)
  : outcome (bytes * Z) :=
  let start := if skip_white then svscan_null sv start else start in
  '(len, colon) ← scanint_u 64 10 false sv start;
  c0 ← sv_at sv start;
  if bool_decide (c0 = "0"%char) && (negb (len =? 0) || negb (colon - start =? 1))
  then Throw ERuntime else
  c1 ← sv_at sv colon;
  if negb (bool_decide (c1 = ":"%char)) then Throw ERuntime else
  c2 ← sv_at sv (u64 (colon + len + 1));
  if negb (bool_decide (c2 = ","%char)) then Throw ERuntime else
  s ← substr sv (colon + 1) len;
  Ret (s, u64 (colon + len + 2)).

(** A [std::istream]: the bytes not read yet, and its eof and fail bits. *)
Record istream := IStream { is_rest : bytes; is_eof : bool; is_fail : bool }.
Definition is_good (i : istream) : bool := negb (is_eof i) && negb (is_fail i).
Definition of_bytes (l : bytes) : istream := IStream l false false.

(** [std::isspace] in the C locale *)
Definition isspace (c : ascii) : bool :=
  (zc c =? 32) || ((9 <=? zc c) && (zc c <=? 13)).

Fixpoint drop_space (l : bytes) : bytes :=
  match l with c :: l' => if isspace c then drop_space l' else l | [] => [] end.

(** [inp >> std::ws] *)
Definition skip_ws (i : istream) : istream :=
  if is_good i then
    let l := drop_space (is_rest i) in
    IStream l (bool_decide (l = [])) false
  else i.

(** The digit loop: [inp.get()] until ':'. *)
Fixpoint sget_len (l : bytes) (first_time : bool) (sz : Z) : outcome (Z * bytes) :=
  match l with
  | [] => Throw ERuntime                          (* !inp.good() *)
  | c :: l' =>
      if bool_decide (c = ":"%char) then Ret (sz, l')
      else if negb first_time && (sz =? 0) then Throw ERuntime
      else
        let digit := u64 (zc c - 48) in
        if 10 <=? digit then Throw ERuntime
        else
          let sz' := u64 (u64 (sz * 10) + digit) in
          if sz' <? sz then Throw ERuntime else sget_len l' false sz'
  end.

(** [None]: at end of file, [false] is returned.  [Some (s, i')]: [*sp] is now
    [s] and the stream is [i'].  On a throw [*sp] is unchanged and the stream
    is only known to have its failbit set. *)
Definition sget_netstring (i : istream) (skip_white : bool) (max_size : Z)
  : outcome (option (bytes * istream)) :=
  let i := if skip_white then skip_ws i else i in
  if is_eof i then Ret None else
  if is_fail i then Throw ERuntime else
  '(sz, l) ← sget_len (is_rest i) true 0;
  if max_size <? sz then Throw ERuntime else
  if zlen l <? sz then Throw ERuntime else         (* inp.read hit end of file *)
  match zdrop sz l with
  | c :: l' =>
      if bool_decide (c = ","%char) then Ret (Some (ztake sz l, of_bytes l'))
      else Throw ERuntime
  | [] => Throw ERuntime
  end.

Definition max_size_default : Z := 999999999.

(** [sput_netstring]: what is written to the stream. *)
Definition sput_netstring (out sv : bytes) : bytes :=
  out ++ to_string (zlen sv) ++ [":"%char] ++ sv ++ [","%char].

(** ** Lemmas *)

Lemma to_string_zlen (s : bytes) : to_string (zlen s) = to_string_u (zlen s).
Proof.
  unfold to_string. pose proof (zlen_nonneg s). by rewrite (proj2 (Z.ltb_ge _ _)) by lia.
Qed.

Lemma netstring_app s rest :
  netstring s ++ rest = to_string_u (zlen s) ++ ":"%char :: s ++ ","%char :: rest.
Proof.
  unfold netstring. rewrite to_string_zlen, <- app_assoc. cbn [app].
  by rewrite <- app_assoc.
Qed.

Lemma zlen_netstring s : zlen (netstring s) = zlen (to_string_u (zlen s)) + zlen s + 2.
Proof.
  unfold netstring. rewrite to_string_zlen, !zlen_app, zlen_cons, zlen_app.
  change (zlen [","%char]) with 1. lia.
Qed.

Lemma colon_no_digit l : no_digit_next 10 (":"%char :: l).
Proof. reflexivity. Qed.

Lemma sv_at_mid pre c l n : n = zlen pre -> sv_at (pre ++ c :: l) n = Ret c.
Proof. intros ->. unfold sv_at. by rewrite zget_app_mid. Qed.

Lemma svscan_netstring_here pre s rest :
  zlen (pre ++ netstring s ++ rest) < 2 ^ 64 ->
  svscan_netstring false (pre ++ netstring s ++ rest) (zlen pre)
  = Ret (s, zlen (pre ++ netstring s)).
Proof.
  intros Hlen. pose proof (zlen_nonneg pre). pose proof (zlen_nonneg s).
  pose proof (zlen_nonneg rest).
  rewrite !zlen_app, zlen_netstring in Hlen.
  pose proof (zlen_nonneg (to_string_u (zlen s))).
  remember (zlen (to_string_u (zlen s))) as n eqn:Hn.
  assert (sv_at (pre ++ netstring s ++ rest) (zlen pre + n) = Ret ":"%char) as Hcolon.
  { rewrite netstring_app, app_assoc. apply sv_at_mid. rewrite zlen_app. lia. }
  assert (sv_at (pre ++ netstring s ++ rest) (zlen pre + n + zlen s + 1) = Ret ","%char)
    as Hcomma.
  { replace (pre ++ netstring s ++ rest)
      with ((pre ++ to_string_u (zlen s) ++ ":"%char :: s) ++ ","%char :: rest)
      by (rewrite netstring_app, <- !app_assoc; done).
    apply sv_at_mid. rewrite !zlen_app, zlen_cons. lia. }
  assert (substr (pre ++ netstring s ++ rest) (zlen pre + n + 1) (zlen s) = Ret s) as Hsub.
  { replace (pre ++ netstring s ++ rest)
      with ((pre ++ to_string_u (zlen s) ++ [":"%char]) ++ s ++ ","%char :: rest)
      by (rewrite netstring_app, <- !app_assoc; done).
    rewrite substr_in by zlia.
    rewrite zdrop_app by zlia.
    by rewrite ztake_app. }
  unfold svscan_netstring.
  rewrite netstring_app at 1. rewrite scanint_u_to_string by (done || lia). cbn -[to_string_u].
  rewrite <- ?Hn.
  destruct (to_string_u_head (zlen s) ltac:(lia)) as [[E0 Es]|(c & l & Es & Hc)].
  - assert (sv_at (pre ++ netstring s ++ rest) (zlen pre) = Ret "0"%char) as ->.
    { rewrite netstring_app, Es. by apply sv_at_mid. }
    cbn -[to_string_u Z.sub]. rewrite bool_decide_eq_true_2 by done.
    assert (n = 1) as Hn1 by (by rewrite Hn, Es).
    rewrite (proj2 (Z.eqb_eq (zlen s) 0)), (proj2 (Z.eqb_eq (_ - _) 1)) by lia.
    cbn -[to_string_u Z.sub]. rewrite Hcolon. cbn -[Z.modulo].
    rewrite bool_decide_eq_true_2 by done. cbn -[Z.modulo].
    rewrite (wrap_small 64 (zlen pre + n + zlen s + 1)) by lia. rewrite Hcomma. cbn -[Z.modulo].
    rewrite bool_decide_eq_true_2 by done. cbn -[Z.modulo]. rewrite Hsub. cbn -[Z.modulo].
    rewrite (wrap_small 64 (zlen pre + n + zlen s + 2)) by lia.
    rewrite zlen_app, zlen_netstring. do 2 f_equal. lia.
  - assert (sv_at (pre ++ netstring s ++ rest) (zlen pre) = Ret c) as ->.
    { rewrite netstring_app, Es. by apply sv_at_mid. }
    cbn -[to_string_u Z.sub]. rewrite bool_decide_eq_false_2 by done.
    cbn -[to_string_u Z.sub]. rewrite Hcolon. cbn -[Z.modulo].
    rewrite bool_decide_eq_true_2 by done. cbn -[Z.modulo].
    rewrite (wrap_small 64 (zlen pre + n + zlen s + 1)) by lia. rewrite Hcomma. cbn -[Z.modulo].
    rewrite bool_decide_eq_true_2 by done. cbn -[Z.modulo]. rewrite Hsub. cbn -[Z.modulo].
    rewrite (wrap_small 64 (zlen pre + n + zlen s + 2)) by lia.
    rewrite zlen_app, zlen_netstring. do 2 f_equal. lia.
Qed.

Lemma sv_at_app pre l i :
  0 <= i -> sv_at (pre ++ l) (zlen pre + i) = sv_at l i.
Proof.
  intros Hi. unfold sv_at, zget. rewrite zlen_app. pose proof (zlen_nonneg pre).
  rewrite (proj2 (Z.leb_le 0 _)), (proj2 (Z.leb_le 0 i)) by lia. cbn [andb].
  replace (zlen pre + i <? zlen pre + zlen l) with (i <? zlen l) by lia.
  destruct (i <? zlen l) eqn:E; [|done]. rewrite lookup_app_r by (unfold zlen in *; lia).
  by replace (Z.to_nat (zlen pre + i) - length pre)%nat with (Z.to_nat i)
    by (unfold zlen in *; lia).
Qed.

Lemma sv_at_elem sv i c : sv_at sv i = Ret c -> 0 <= i < zlen sv /\ c ∈ sv.
Proof.
  unfold sv_at, zget. intros H. destruct ((0 <=? i) && (i <? zlen sv)) eqn:E; [|done].
  apply andb_true_iff in E as [E1 E2]. split; [lia|].
  destruct (sv !! Z.to_nat i) eqn:El; [|done]. injection H as <-.
  by apply list_elem_of_lookup_2 in El.
Qed.

Lemma sv_at_snoc l n c : sv_at l n = Ret c -> exists a b, l = a ++ c :: b /\ zlen a = n.
Proof.
  intros H. pose proof (sv_at_elem _ _ _ H) as [Hn _]. unfold sv_at, zget in H.
  destruct ((0 <=? n) && (n <? zlen l)) eqn:E; [|done].
  destruct (l !! Z.to_nat n) eqn:El; [|done]. injection H as <-.
  exists (take (Z.to_nat n) l), (drop (S (Z.to_nat n)) l). split.
  - by rewrite take_drop_middle.
  - unfold zlen in *. rewrite length_take. lia.
Qed.

Lemma substr_Ret s p n t : substr s p n = Ret t -> t = ztake n (zdrop p s).
Proof. unfold substr. destruct (zlen s <? p); [done|]. by intros [= <-]. Qed.

(** What a successful scan has read: digits, the colon, and the comma at the
    (wrapped) offset after the payload. *)
Lemma svscan_netstring_inv pre ds rest s r :
  Forall is_digit ds -> no_digit_next 10 rest ->
  svscan_netstring false (pre ++ ds ++ rest) (zlen pre) = Ret (s, r) ->
  let len := dec_value ds 0 in let colon := zlen pre + zlen ds in
  canonical ds /\ len < 2 ^ 64 /\ sv_at (ds ++ rest) (zlen ds) = Ret ":"%char
  /\ sv_at (pre ++ ds ++ rest) (u64 (colon + len + 1)) = Ret ","%char
  /\ s = ztake len (zdrop (colon + 1) (pre ++ ds ++ rest)) /\ r = u64 (colon + len + 2).
Proof.
  intros Hds Hrest H. unfold svscan_netstring in H. rewrite scanint_u_base10 in H.
  rewrite (scanuint_spec 64 10 ds rest) in H;
    [|lia|lia|by apply zdrop_app|by apply all_digits_10|done].
  rewrite digits_value_10 in H by done. cbv zeta.
  destruct (bool_decide (ds <> []) && (dec_value ds 0 <=? umax 64)) eqn:Ed; [|done].
  apply andb_true_iff in Ed as [Hne%bool_decide_eq_true Hmax].
  cbn [_scanint_rethrow rethrow_nested try_catch mbind outcome_bind] in H.
  inv_ret. simplify_eq. rename G into HE0.
  rewrite negb_false_iff, bool_decide_eq_true in G0, G1. subst.
  match goal with H : substr _ _ _ = Ret _ |- _ => apply substr_Ret in H end.
  split_and!; [| | |done|congruence|done].
  - split; [done|]. destruct ds as [|c ds]; [done|].
    destruct (decide (c = "0"%char)) as [->|]; [left|right; eauto].
    cbn [app] in E. rewrite sv_at_mid in E by done. injection E as <-.
    rewrite bool_decide_eq_true_2 in HE0 by done. cbn [andb] in HE0.
    apply orb_false_iff in HE0 as [_ HE0]. rewrite negb_false_iff in HE0.
    destruct ds; [done|]. exfalso. revert HE0. rewrite !zlen_cons.
    pose proof (zlen_nonneg ds). lia.
  - unfold umax in Hmax. lia.
  - by rewrite <- sv_at_app with (pre := pre) by auto with fs123.
Qed.

Lemma sv_at_in_prefix l k i c : i < zlen l -> sv_at (l ++ k) i = Ret c -> c ∈ l.
Proof.
  intros Hi H. pose proof (sv_at_elem _ _ _ H) as [H0 _]. unfold sv_at, zget in H.
  destruct (_ && _); [|done].
  destruct ((l ++ k) !! Z.to_nat i) eqn:E; [|done]. injection H as <-.
  rewrite lookup_app_l in E by (unfold zlen in *; lia). by eapply list_elem_of_lookup_2.
Qed.

Lemma netstring_canonical ds s : canonical ds -> dec_value ds 0 = zlen s ->
  netstring s = ds ++ ":"%char :: s ++ [","%char].
Proof.
  intros Hc E. unfold netstring. rewrite to_string_zlen, <- E.
  by rewrite <- canonical_to_string.
Qed.

Lemma svscan_netstring_sound_split pre ds rest s r :
  Forall is_digit ds -> no_digit_next 10 rest -> zlen (pre ++ ds ++ rest) < 2 ^ 63 ->
  svscan_netstring false (pre ++ ds ++ rest) (zlen pre) = Ret (s, r) -> zlen pre < r ->
  exists rest', ds ++ rest = netstring s ++ rest' /\ r = zlen pre + zlen (netstring s).
Proof.
  intros Hds Hrest Hlen H Hr. apply svscan_netstring_inv in H; [|done|done]. cbv zeta in H.
  destruct H as (Hcan & Hlen64 & Hcolon & Hcomma & -> & ->).
  pose proof (dec_value_bound ds Hds) as [Hv _].
  pose proof (zlen_nonneg pre). pose proof (zlen_nonneg ds).
  set (len := dec_value ds 0) in *.
  destruct (decide (zlen pre + zlen ds + len + 1 < 2 ^ 64)) as [Hsmall|Hbig].
  - rewrite (wrap_small 64 (zlen pre + zlen ds + len + 1)) in Hcomma by lia.
    pose proof (sv_at_elem _ _ _ Hcomma) as [? _].
    assert (zlen pre + zlen ds + len + 2 < 2 ^ 64) by lia.
    destruct (sv_at_snoc _ _ _ Hcolon) as (a & rest' & Ea & Hza).
    apply app_inj_1 in Ea as [-> ->]; [|unfold zlen in *; lia].
    replace (zlen pre + zlen a + len + 1) with (zlen pre + (zlen a + (1 + len))) in Hcomma by lia.
    rewrite sv_at_app, sv_at_app in Hcomma by lia.
    change (":"%char :: rest') with ([":"%char] ++ rest') in Hcomma.
    replace (1 + len) with (zlen [":"%char] + len) in Hcomma by done.
    rewrite sv_at_app in Hcomma by lia.
    destruct (sv_at_snoc _ _ _ Hcomma) as (p & b & -> & Hp). exists b.
    replace (ztake _ (zdrop _ _)) with p.
    + rewrite (netstring_canonical a) by (done || lia). split.
      * rewrite <- app_assoc. cbn [app]. by rewrite <- app_assoc.
      * rewrite wrap_small; [zlia|lia].
    + replace (pre ++ a ++ ":"%char :: p ++ ","%char :: b)
        with ((pre ++ a ++ [":"%char]) ++ p ++ ","%char :: b) by (by rewrite <- !app_assoc).
      rewrite zdrop_app by zlia. by rewrite ztake_app.
  - exfalso. assert (zlen pre + zlen ds < 2 ^ 63) by (revert Hlen; zlia).
    assert (u64 (zlen pre + zlen ds + len + 1) = zlen pre + zlen ds + len + 1 - 2 ^ 64) as Ew.
    { unfold wrap. symmetry. apply Z.mod_unique with 1; lia. }
    assert (u64 (zlen pre + zlen ds + len + 2) = zlen pre + zlen ds + len + 2 - 2 ^ 64) as Ew2.
    { unfold wrap. symmetry. apply Z.mod_unique with 1; lia. }
    rewrite Ew in Hcomma. rewrite Ew2 in Hr.
    replace (zlen pre + zlen ds + len + 1 - 2 ^ 64)
      with (zlen pre + (zlen ds + len + 1 - 2 ^ 64)) in Hcomma by lia.
    rewrite sv_at_app in Hcomma by lia.
    destruct (decide (len + 1 = 2 ^ 64)) as [El|].
    { replace (zlen ds + len + 1 - 2 ^ 64) with (zlen ds) in Hcomma by lia.
      rewrite Hcolon in Hcomma. discriminate Hcomma. }
    apply sv_at_in_prefix in Hcomma; [|lia].
    rewrite Forall_forall in Hds. specialize (Hds _ (proj1 (list_elem_of_In _ _) Hcomma)).
    unfold is_digit in Hds. change (zc ","%char) with 44 in Hds. lia.
Qed.

(** ** Properties *)

(** [svscan_netstring] inverts [netstring] at any offset and whatever the
    payload (colons, commas, digits and zero bytes included): the payload comes
    back and the returned offset is just past the trailing comma. *)
Theorem svscan_netstring_roundtrip pre s rest :
  zlen (pre ++ netstring s ++ rest) < 2 ^ 64 ->
  svscan_netstring false (pre ++ netstring s ++ rest) (zlen pre)
  = Ret (s, zlen (pre ++ netstring s)).
Proof. apply svscan_netstring_here. Qed.

Lemma svscan_netstring_roundtrip_witness :
  zlen (lit "ab" ++ netstring (lit "5:x,") ++ lit "tail") < 2 ^ 64
  /\ svscan_netstring false (lit "ab" ++ netstring (lit "5:x,") ++ lit "tail") (zlen (lit "ab"))
     = Ret (lit "5:x,", zlen (lit "ab" ++ netstring (lit "5:x,"))).
Proof.
  split; [vm_compute; done|].
  apply (svscan_netstring_roundtrip (lit "ab") (lit "5:x,") (lit "tail")). vm_compute; done.
Defined.

(** [svscan_netstring] accepts nothing but canonical netstrings, as long
    as the offset it returns moves forward: what it accepted at [start] is
    exactly [netstring s], with no leading zeros, sign or white space, and the
    returned offset is just past it.  (Without the side condition this fails:
    see [svscan_netstring_backwards].) *)
Theorem svscan_netstring_sound sv start s r :
  0 <= start <= zlen sv -> zlen sv < 2 ^ 63 ->
  svscan_netstring false sv start = Ret (s, r) -> start < r ->
  sv = ztake start sv ++ netstring s ++ zdrop r sv /\ r = start + zlen (netstring s).
Proof.
  intros Hst Hlen H Hr.
  destruct (digits_split 10 (zdrop start sv)) as (ds & rest & E & Hds & Hrest).
  assert (sv = ztake start sv ++ ds ++ rest) as Esv by (rewrite <- E, ztake_zdrop; [done|lia]).
  assert (zlen (ztake start sv) = start) as Epre by (rewrite zlen_ztake; lia).
  assert (Forall is_digit ds) by (revert Hds; apply Forall_impl; intros c; apply digitcvt_10).
  revert Hst Hlen H Hr. generalize dependent (ztake start sv). intros pre Esv Epre Hst Hlen H Hr.
  subst start sv.
  destruct (svscan_netstring_sound_split _ _ _ _ _ ltac:(done) Hrest Hlen H Hr)
    as (rest' & E' & Er).
  split; [|done]. rewrite E' at 1. do 2 f_equal.
  rewrite E', app_assoc. symmetry. apply zdrop_app. rewrite zlen_app. lia.
Qed.

Lemma svscan_netstring_sound_witness :
  lit "x3:a,b,:" = ztake 1 (lit "x3:a,b,:") ++ netstring (lit "a,b") ++ zdrop 7 (lit "x3:a,b,:")
  /\ 7 = 1 + zlen (netstring (lit "a,b")).
Proof. apply (svscan_netstring_sound (lit "x3:a,b,:") 1 (lit "a,b") 7); vm_compute; intuition congruence. Defined.

(** The offset arithmetic wraps in [size_t]: this is not a netstring, and the
    scan succeeds with an offset that has not moved. *)
Example svscan_netstring_backwards :
  svscan_netstring false (lit ",18446744073709551594:abc") 1 = Ret (lit "abc", 1).
Proof. vm_compute. reflexivity. Qed.

(** ** The stream reader *)

Lemma sget_len_tail ds rest sz :
  Forall is_digit ds -> 0 < sz -> dec_value ds sz < 2 ^ 64 ->
  sget_len (ds ++ ":"%char :: rest) false sz = Ret (dec_value ds sz, rest).
Proof.
  intros Hds. revert sz. induction Hds as [|c ds Hc Hds IH]; intros sz Hsz Hv; [done|].
  cbn [app sget_len]. unfold is_digit in Hc.
  rewrite bool_decide_eq_false_2 by (intros ->; vm_compute in Hc; intuition discriminate).
  rewrite (proj2 (Z.eqb_neq sz 0)) by lia. cbn [negb andb].
  change (dec_value (c :: ds) sz) with (dec_value ds (10 * sz + (zc c - 48))) in *.
  pose proof (dec_value_acc ds (10 * sz + (zc c - 48))) as Ea.
  pose proof (dec_value_bound ds Hds). pose proof (Z.pow_pos_nonneg 10 (zlen ds) ltac:(lia) (zlen_nonneg ds)).
  assert (10 * sz + (zc c - 48) < 2 ^ 64) by nia.
  rewrite (wrap_small 64 (zc c - 48)) by lia. rewrite (proj2 (Z.leb_gt 10 _)) by lia.
  rewrite (wrap_small 64 (sz * 10)) by lia. rewrite wrap_small by lia.
  rewrite (proj2 (Z.ltb_ge _ _)) by lia.
  replace (sz * 10 + (zc c - 48)) with (10 * sz + (zc c - 48)) by lia. apply IH; lia.
Qed.

Lemma sget_len_to_string n rest :
  0 <= n < 2 ^ 64 -> sget_len (to_string_u n ++ ":"%char :: rest) true 0 = Ret (n, rest).
Proof.
  intros Hn. destruct (to_string_u_head n ltac:(lia)) as [[-> ->]|(c & l & E & Hc)];
    [done|].
  pose proof (to_string_u_digits n ltac:(lia)) as Hd.
  pose proof (to_string_u_value n ltac:(lia)) as Hv. rewrite E in *.
  inversion Hd as [|? ? Hc' Hl]; subst. unfold is_digit in Hc'.
  assert (zc c <> 48) by (intros E'; apply Hc, zc_inj; rewrite E'; done).
  cbn [app sget_len].
  rewrite bool_decide_eq_false_2 by (intros ->; vm_compute in Hc'; intuition discriminate).
  cbn [negb andb]. rewrite (wrap_small 64 (zc c - 48)) by lia.
  rewrite (proj2 (Z.leb_gt 10 _)) by lia. change (u64 (0 * 10)) with 0. cbn [Z.add].
  rewrite wrap_small by lia. rewrite (proj2 (Z.ltb_ge _ _)) by lia.
  rewrite sget_len_tail; [done|done|lia|].
  apply Hn.
Qed.

Lemma drop_space_ws ws c l :
  Forall (fun c => isspace c = true) ws -> isspace c = false ->
  drop_space (ws ++ c :: l) = c :: l.
Proof. intros H Hc. induction H as [|d ws Hd H IH]; cbn; [by rewrite Hc|by rewrite Hd]. Qed.

Lemma netstring_head s : exists c l, netstring s = c :: l /\ is_digit c.
Proof.
  unfold netstring. rewrite to_string_zlen.
  pose proof (to_string_u_digits (zlen s) (zlen_nonneg s)) as Hd.
  pose proof (to_string_u_nonempty (zlen s) (zlen_nonneg s)).
  destruct (to_string_u (zlen s)) as [|c l]; [done|]. inversion Hd; subst. eauto.
Qed.

(** [sget_netstring] reads back what [sput_netstring] wrote, after any
    white space when asked to skip it: it returns the payload and leaves the
    stream good and positioned just past the netstring.  A payload longer than
    [max_size] is refused, however well formed. *)
Theorem sget_netstring_roundtrip skip ws s rest max_size :
  Forall (fun c => isspace c = true) ws -> (skip = false -> ws = []) ->
  zlen s < 2 ^ 64 ->
  sget_netstring (of_bytes (ws ++ sput_netstring [] s ++ rest)) skip max_size
  = if zlen s <=? max_size then Ret (Some (s, of_bytes rest)) else Throw ERuntime.
Proof.
  intros Hws Hskip Hlen. pose proof (zlen_nonneg s).
  change (sput_netstring [] s) with (netstring s).
  assert (is_rest (if skip then skip_ws (of_bytes (ws ++ netstring s ++ rest))
                   else of_bytes (ws ++ netstring s ++ rest)) = netstring s ++ rest
          /\ is_good (if skip then skip_ws (of_bytes (ws ++ netstring s ++ rest))
                   else of_bytes (ws ++ netstring s ++ rest)) = true) as [Hr Hg].
  { destruct skip; [|rewrite Hskip by done; done]. unfold skip_ws. cbn [is_rest is_good of_bytes].
    destruct (netstring_head s) as (c & l & -> & Hc). cbn [app is_good of_bytes is_eof is_fail negb andb].
    rewrite drop_space_ws; [done|done|].
    unfold isspace, is_digit in *. apply orb_false_iff. rewrite andb_false_iff. lia. }
  unfold sget_netstring. cbv zeta. unfold is_good in Hg.
  destruct (if skip then _ else _) as [l eof fl]. cbn [is_rest is_eof is_fail] in *. subst l.
  destruct eof, fl; try done. rewrite netstring_app, sget_len_to_string by lia.
  cbn [mbind outcome_bind]. rewrite Z.leb_antisym. destruct (max_size <? zlen s); [done|]. cbn [negb].
  rewrite (proj2 (Z.ltb_ge _ _)) by zlia. rewrite zdrop_app, ztake_app by done.
  by rewrite bool_decide_eq_true_2.
Qed.

Lemma sget_netstring_roundtrip_witness :
  sget_netstring (of_bytes ([" "%char] ++ sput_netstring [] (lit "hello,") ++ lit "rest")) true 999999999
  = if zlen (lit "hello,") <=? 999999999 then Ret (Some (lit "hello,", of_bytes (lit "rest")))
    else Throw ERuntime.
Proof.
  apply (sget_netstring_roundtrip true [" "%char] (lit "hello,") (lit "rest") 999999999);
    [repeat constructor|discriminate|vm_compute; done].
Defined.

(** The stream reader takes a netstring without a length. *)
Example sget_netstring_no_digits :
  sget_netstring (of_bytes (lit ":,x")) false max_size_default
  = Ret (Some ([], of_bytes (lit "x"))).
Proof. vm_compute. reflexivity. Qed.
