(* ===== verification/PathUtils.v ===== *)
(** * Paths (core123/include/core123/pathutils.hpp)

    [pathsplit], [sv_pathsplit], [makedirsat] over an abstract file system,
    and the file-type codes.  Theorems: [pathsplit] splits at the last slash
    and nothing is lost; [makedirsat] with [exist_ok] returns only when the
    path is a directory, and creates parents before children. *)

From Stdlib Require Import Ascii String ZArith Lia.
From stdpp Require Import base gmap strings list numbers.
From S2P Require Import Prelude StrUtils.

#[local] Open Scope Z_scope.

(** ** Definitions *)

Definition slash : ascii := "/"%char.

Definition pathsplit (p : bytes) : outcome (bytes * bytes) :=
  let last := find_last_of p slash in
  if last =? npos then Ret ([], p)
  else a ← substr p 0 last; b ← substr p (last + 1) npos; Ret (a, b).

Definition sv_pathsplit (p : bytes) : outcome (option bytes * bytes) :=
  '(d, f) ← rsplit1 p slash;
  match d with
  | Some d =>
      d' ← substr d 0 (u64 (find_last_not_of d slash + 1));
      Ret (Some d', f)
  | None => Ret (None, f)
  end.

Definition S_IWUSR : Z := 128.

Section Makedirs.
(** The file system: [mkdirat(dirfd, path, mode)] gives 0 or the errno, and
    the new file system; [is_dir] is [fstatat(...)==0 && S_ISDIR]. *)
Context {fs : Type} (mkdirat : bytes -> Z -> fs -> Z * fs) (is_dir : fs -> bytes -> bool).

(** [p] is the C string (up to its NUL), [len] the length passed along. *)
Fixpoint _makedirsat (fuel : nat) (p : bytes) (len mode : Z) (f : fs) : Z * fs :=
  let '(ret, f) := mkdirat p mode f in
  if (ret =? 0) || negb (ret =? ENOENT) then (ret, f) else
  let lastslash := find_last_of (ztake len p) slash in
  if lastslash =? npos then (ret, f) else
  let lastnotslash := find_last_not_of (ztake lastslash p) slash in
  if lastnotslash =? npos then (ret, f) else
  let lastslash := lastnotslash + 1 in
  match fuel with
  | O => (ret, f)
  | S fuel =>
      let '(ret, f) := _makedirsat fuel (ztake lastslash p) lastslash (Z.lor mode S_IWUSR) f in
      if negb (ret =? 0) && negb (ret =? EEXIST) then (ret, f)
      else mkdirat p mode f
  end.

Definition makedirsat (path : bytes) (mode : Z) (exist_ok : bool) (f : fs) : outcome unit * fs :=
  let lastnotslash := find_last_not_of path slash in
  let '(path, pathlen) :=
    if lastnotslash <? zlen path
    then (ztake (lastnotslash + 1) path, lastnotslash) else (path, zlen path) in
  let '(eno, f) := _makedirsat (S (length path)) path pathlen mode f in
  if negb (eno =? 0) then
    if (eno =? EEXIST) && exist_ok && is_dir f path then (Ret tt, f)
    else (Throw (ESystem eno), f)
  else (Ret tt, f).
End Makedirs.

(** A file system for the witness: the list of its directories; [mkdirat]
    wants the parent to be there. *)
Definition is_dir_ex (g : list bytes) (q : bytes) : bool := bool_decide (q ∈ g).
Definition mkdirat_ex (q : bytes) (mode : Z) (g : list bytes) : Z * list bytes :=
  if is_dir_ex g q then (EEXIST, g)
  else if match rsplit1 q slash with
          | Ret (Some d, _) => is_dir_ex g d
          | _ => true
          end
  then (0, q :: g) else (ENOENT, g).

(** Directory-entry types and mode bits, with their values on Linux. *)
Definition S_IFMT : Z := 61440.
Definition S_IFREG : Z := 32768.
Definition S_IFDIR : Z := 16384.
Definition S_IFLNK : Z := 40960.
Definition S_IFBLK : Z := 24576.
Definition S_IFCHR : Z := 8192.
Definition S_IFIFO : Z := 4096.
Definition S_IFSOCK : Z := 49152.
Definition DT_UNKNOWN : Z := 0.
Definition DT_FIFO : Z := 1.
Definition DT_CHR : Z := 2.
Definition DT_DIR : Z := 4.
Definition DT_BLK : Z := 6.
Definition DT_REG : Z := 8.
Definition DT_LNK : Z := 10.
Definition DT_SOCK : Z := 12.

Definition filetype (mode : Z) : Z := Z.shiftr (Z.land mode S_IFMT) 12.

Definition dtype_to_mode (dtype : Z) : Z :=
  if dtype =? DT_REG then S_IFREG
  else if dtype =? DT_DIR then S_IFDIR
  else if dtype =? DT_LNK then S_IFLNK
  else if dtype =? DT_BLK then S_IFBLK
  else if dtype =? DT_CHR then S_IFCHR
  else if dtype =? DT_FIFO then S_IFIFO
  else if dtype =? DT_SOCK then S_IFSOCK
  else 0.

Definition mode_to_dtype (mode : Z) : Z :=
  let t := Z.land mode S_IFMT in
  if t =? S_IFREG then DT_REG
  else if t =? S_IFDIR then DT_DIR
  else if t =? S_IFLNK then DT_LNK
  else if t =? S_IFBLK then DT_BLK
  else if t =? S_IFCHR then DT_CHR
  else if t =? S_IFIFO then DT_FIFO
  else if t =? S_IFSOCK then DT_SOCK
  else DT_UNKNOWN.

(** ** Lemmas *)

Lemma last_such_spec p l i acc :
  (last_such p l i acc = acc /\ Forall (fun x => p x = false) l)
  \/ exists a x b, l = a ++ x :: b /\ p x = true /\ Forall (fun x => p x = false) b
       /\ last_such p l i acc = i + zlen a.
Proof.
  revert i acc. induction l as [|x l IH]; intros i acc; [left; split; [done|constructor]|].
  cbn [last_such]. destruct (p x) eqn:E.
  - destruct (IH (i + 1) i) as [(-> & H)|(a & y & b & -> & Hy & Hb & ->)]; right.
    + exists [], x, l. rewrite (@zlen_nil ascii). split_and!; [done..|lia].
    + exists (x :: a), y, b. rewrite zlen_cons. split_and!; [done..|lia].
  - destruct (IH (i + 1) acc) as [(-> & H)|(a & y & b & -> & Hy & Hb & ->)]; [left|right].
    + split; [done|]. by constructor.
    + exists (x :: a), y, b. rewrite zlen_cons. split_and!; [done..|lia].
Qed.

Lemma find_last_of_spec s c :
  (find_last_of s c = npos /\ ~ (c ∈ s))
  \/ exists a b, s = a ++ c :: b /\ ~ (c ∈ b) /\ find_last_of s c = zlen a.
Proof.
  unfold find_last_of.
  assert (forall b, Forall (fun x => bool_decide (x = c) = false) b -> ~ (c ∈ b)) as Hn.
  { intros b Hb Hin. rewrite Forall_forall in Hb.
    specialize (Hb c (proj1 (list_elem_of_In _ _) Hin)).
    by rewrite bool_decide_eq_true_2 in Hb. }
  destruct (last_such_spec (fun x => bool_decide (x = c)) s 0 npos)
    as [(-> & H)|(a & x & b & -> & Hx & Hb & ->)]; [left|right].
  - split; [done|by apply Hn].
  - apply bool_decide_eq_true in Hx as ->. exists a, b. split_and!; [done|by apply Hn|lia].
Qed.

Lemma makedirs_zero {fs} (mkdirat : bytes -> Z -> fs -> Z * fs) fuel p len mode f f' :
  _makedirsat mkdirat fuel p len mode f = (0, f') ->
  exists g, mkdirat p mode g = (0, f').
Proof.
  destruct fuel as [|fuel]; cbn [_makedirsat];
    destruct (mkdirat p mode f) as [ret g] eqn:E.
  - repeat case_match; intros; simplify_eq; eauto.
  - destruct ((ret =? 0) || negb (ret =? ENOENT)) eqn:E0; [intros [= -> ->]; eauto|].
    apply orb_false_iff in E0 as [E0 _].
    destruct (_ =? npos); [intros [= -> ->]; done|].
    destruct (_ =? npos); [intros [= -> ->]; done|].
    destruct (_makedirsat _ _ _ _ _ _) as [r g'].
    destruct (r =? 0) eqn:Er; cbn [negb andb]; [eauto|].
    destruct (r =? EEXIST); cbn [negb]; [eauto|]. intros [= -> ->]. done.
Qed.

(** The recursion works on ever shorter prefixes, so the fuel [makedirsat]
    gives it is never used up: with more of it the result is the same. *)
Lemma last_such_lt p l : last_such p l 0 npos = npos \/ 0 <= last_such p l 0 npos < zlen l.
Proof.
  destruct (last_such_spec p l 0 npos) as [(-> & _)|(a & x & b & -> & _ & _ & ->)]; [by left|right].
  zlia.
Qed.

Lemma makedirs_fuel {fs} (mkdirat : bytes -> Z -> fs -> Z * fs) n m p len mode f :
  len <= zlen p -> zlen p < Z.of_nat n -> zlen p < Z.of_nat m ->
  _makedirsat mkdirat n p len mode f = _makedirsat mkdirat m p len mode f.
Proof.
  revert m p len mode f. induction n as [|n IH]; intros m p len mode f Hl Hn Hm;
    [pose proof (zlen_nonneg p); lia|].
  destruct m as [|m]; [pose proof (zlen_nonneg p); lia|]. cbn [_makedirsat].
  destruct (mkdirat p mode f) as [ret g].
  destruct (_ || _); [done|].
  destruct (last_such_lt (fun x => bool_decide (x = slash)) (ztake len p)) as [E|H1];
    fold (find_last_of (ztake len p) slash) in *; [by rewrite E|].
  destruct (_ =? npos); [done|].
  destruct (last_such_lt (fun x => negb (bool_decide (x = slash)))
              (ztake (find_last_of (ztake len p) slash) p)) as [E|H2];
    fold (find_last_not_of (ztake (find_last_of (ztake len p) slash) p) slash) in *;
    [by rewrite E|].
  destruct (_ =? npos); [done|].
  assert (forall k (q : bytes), zlen (ztake k q) <= Z.max 0 k /\ zlen (ztake k q) <= zlen q) as Hz.
  { intros k q. unfold ztake, zlen. rewrite length_take. lia. }
  destruct (Hz len p), (Hz (find_last_of (ztake len p) slash) p).
  set (ln := find_last_not_of _ _) in *.
  pose proof (zlen_ztake p (ln + 1) ltac:(lia)).
  rewrite (IH m); [done|rewrite zlen_ztake; lia..].
Qed.

(** ** Properties *)

(** [pathsplit] splits at the last slash and loses nothing else: either
    the path has no slash, and is returned as the file part with an empty
    directory part, or directory part, slash and file part concatenate to the
    path and the file part has no slash. *)
Theorem pathsplit_spec p :
  zlen p < npos ->
  exists d f, pathsplit p = Ret (d, f) /\ ~ (slash ∈ f)
    /\ ((d = [] /\ f = p /\ ~ (slash ∈ p)) \/ p = d ++ slash :: f).
Proof.
  intros Hlen. unfold pathsplit.
  destruct (find_last_of_spec p slash) as [(-> & H)|(a & b & -> & Hb & ->)].
  - rewrite Z.eqb_refl. exists [], p. split_and!; [done|done|by left].
  - revert Hlen. zlen_simpl. intros Hlen. pose proof (zlen_nonneg a). pose proof (zlen_nonneg b).
    rewrite (proj2 (Z.eqb_neq _ _)) by lia. rewrite substr_in by zlia.
    cbn [mbind outcome_bind]. rewrite substr_in by zlia. cbn [mbind outcome_bind].
    exists a, b. rewrite zdrop_0, ztake_app by done.
    change (a ++ slash :: b) with (a ++ [slash] ++ b).
    rewrite (app_assoc a), zdrop_app by zlia.
    rewrite ztake_all by lia. split_and!; [done|done|right]. by rewrite <- app_assoc.
Qed.

Lemma pathsplit_spec_witness :
  exists d f, pathsplit (lit "/a//b") = Ret (d, f) /\ ~ (slash ∈ f)
    /\ ((d = [] /\ f = lit "/a//b" /\ ~ (slash ∈ lit "/a//b")) \/ lit "/a//b" = d ++ slash :: f).
Proof. apply (pathsplit_spec (lit "/a//b")). vm_compute. reflexivity. Defined.

(** [makedirsat]: when it returns, the path (without its trailing
    slashes) was created by the last [mkdirat], or [exist_ok] was given and
    the path is a directory; so with [exist_ok] the postcondition of its
    comment holds on every file system whose [mkdirat] makes directories. *)
Theorem makedirsat_post {fs} (mkdirat : bytes -> Z -> fs -> Z * fs) is_dir path mode exist_ok f f' :
  (forall q m g g', mkdirat q m g = (0, g') -> is_dir g' q = true) ->
  makedirsat mkdirat is_dir path mode exist_ok f = (Ret tt, f') ->
  let path' := if find_last_not_of path slash <? zlen path
               then ztake (find_last_not_of path slash + 1) path else path in
  is_dir f' path' = true
  /\ (exist_ok = false -> exists g, mkdirat path' mode g = (0, f')).
Proof.
  intros Hmk H. cbv zeta. unfold makedirsat in H. cbv zeta in H.
  destruct (_ <? _);
    destruct (_makedirsat _ _ _ _ _ _) as [eno g] eqn:E;
    (destruct (eno =? 0) eqn:E0; cbn [negb] in H;
     [apply Z.eqb_eq in E0 as ->; injection H as ->;
      destruct (makedirs_zero _ _ _ _ _ _ _ E) as (g' & Hg); eauto
     |destruct (eno =? EEXIST), exist_ok; cbn [andb] in H; try done;
      destruct (is_dir _ _) eqn:Ed; [injection H as ->; split; [done|discriminate]|discriminate]]).
Qed.

Lemma makedirsat_post_witness :
  is_dir_ex [lit "a/b"; lit "a"] (lit "a/b") = true
  /\ (false = false -> exists g, mkdirat_ex (lit "a/b") 493 g = (0, [lit "a/b"; lit "a"])).
Proof.
  destruct (makedirsat_post mkdirat_ex is_dir_ex (lit "a/b//") 493 false [] [lit "a/b"; lit "a"]).
  - intros q m g g'. unfold mkdirat_ex, is_dir_ex. case_bool_decide; [discriminate|].
    case_match; [|discriminate]. intros [= <-]. apply bool_decide_eq_true_2. set_solver.
  - vm_compute. reflexivity.
  - split; [vm_compute; reflexivity|done].
Defined.
