(* ===== verification/UcharSpan.v ===== *)
(** * Padded spans (core123/include/core123/uchar_span.hpp)

    A [padded_uchar_span] is a window into a buffer, with room around it in a
    bounding box: the server encrypts and frames replies in place by growing
    the window over the padding.  The buffer is a separate store, so that two
    windows into it alias.  Theorems: [prepend] and [append] on a well-formed
    window either throw and leave everything alone or extend the contents by
    exactly the given bytes; [subspan] never leaves the bounding box for
    counts below 2^63, and does for one above. *)

From Stdlib Require Import Ascii String ZArith Lia.
From stdpp Require Import base gmap strings list numbers.
From S2P Require Import Prelude.

#[local] Open Scope Z_scope.

(** ** Definitions *)

(** [bb_off], [bb_len]: the bounding box [bb]; [s_off], [s_len]: the span
    itself; both as offsets into the buffer they were made from. *)
Record padded_uchar_span := Span { bb_off : Z; bb_len : Z; s_off : Z; s_len : Z }.

#[export] Instance span_eq_dec : EqDecision padded_uchar_span.
Proof. solve_decision. Defined.

(** [tcb::dynamic_extent] is [size_t(-1)]. *)
Definition dynamic_extent : Z := npos.

Definition padded_uchar_span_ctor (bboff bblen offset count : Z) : outcome padded_uchar_span :=
  if bblen <? offset then Throw EOutOfRange else
  if negb (count =? dynamic_extent) && (bblen <? u64 (offset + count)) then Throw EOutOfRange else
  Ret (Span bboff bblen (bboff + offset)
         (if count =? dynamic_extent then bblen - offset else count)).

Definition bounding_box (s : padded_uchar_span) : padded_uchar_span :=
  Span (bb_off s) (bb_len s) (bb_off s) (bb_len s).

Definition avail_front (s : padded_uchar_span) : Z := s_off s - bb_off s.
Definition avail_back (s : padded_uchar_span) : Z :=
  u64 (bb_len s - avail_front s - s_len s).

(** [offset] is a [ssize_t], [count] a [size_t]. *)
Definition subspan (s : padded_uchar_span) (offset count : Z) : outcome padded_uchar_span :=
  if offset <? - swrap 64 (avail_front s) then Throw EOutOfRange else
  if bb_len s <? u64 (avail_front s + offset + count) then Throw EOutOfRange else
  Ret (Span (bb_off s) (bb_len s) (s_off s + offset) count).

Definition first (s : padded_uchar_span) (count : Z) := subspan s 0 count.
Definition last (s : padded_uchar_span) (count : Z) :=
  subspan s (swrap 64 (swrap 64 (s_len s) - swrap 64 count)) count.
Definition grow_front (s : padded_uchar_span) (count : Z) :=
  subspan s (swrap 64 (- swrap 64 count)) (u64 (count + s_len s)).
Definition grow_back (s : padded_uchar_span) (count : Z) :=
  subspan s 0 (u64 (count + s_len s)).

(** [memcpy] into the buffer *)
Definition memcpy (off : Z) (src : bytes) : M bytes unit := fun mem =>
  if (0 <=? off) && (off + zlen src <=? zlen mem)
  then (Ret tt, ztake off mem ++ src ++ zdrop (off + zlen src) mem)
  else (Undef, mem).

Definition prepend (s : padded_uchar_span) (more : bytes) : M bytes padded_uchar_span :=
  ret ← lift (grow_front s (zlen more));
  memcpy (s_off ret) more ;;
  mret ret.

Definition append (s : padded_uchar_span) (more : bytes) : M bytes padded_uchar_span :=
  ret ← lift (grow_back s (zlen more));
  memcpy (s_off s + s_len s) more ;;
  mret ret.

(** The bytes a window shows. *)
Definition contents (mem : bytes) (s : padded_uchar_span) : bytes :=
  ztake (s_len s) (zdrop (s_off s) mem).

(** A window lies in its bounding box, which lies in the buffer; objects are
    smaller than [SSIZE_MAX]. *)
Definition in_bb (s : padded_uchar_span) : Prop :=
  0 <= bb_len s /\ bb_off s <= s_off s /\ 0 <= s_len s
  /\ s_off s + s_len s <= bb_off s + bb_len s.
Definition span_wf (mem : bytes) (s : padded_uchar_span) : Prop :=
  in_bb s /\ 0 <= bb_off s /\ bb_off s + bb_len s <= zlen mem /\ zlen mem < 2 ^ 62.

(** ** Lemmas *)

Lemma wrap_neg w z : 0 <= w -> - 2 ^ w <= z < 0 -> wrap w z = z + 2 ^ w.
Proof. intros. symmetry. apply Z.mod_unique with (-1); lia. Qed.

(** Inside the range of real object sizes [subspan] is its documentation. *)
Lemma subspan_spec s offset count :
  in_bb s -> bb_len s < 2 ^ 62 -> - 2 ^ 62 <= offset < 2 ^ 62 -> 0 <= count < 2 ^ 63 ->
  subspan s offset count
  = if (avail_front s + offset <? 0) || (bb_len s <? avail_front s + offset + count)
    then Throw EOutOfRange
    else Ret (Span (bb_off s) (bb_len s) (s_off s + offset) count).
Proof.
  intros (H1 & H2 & H3 & H4) Hbb Ho Hc. unfold subspan, avail_front.
  rewrite swrap_small by lia.
  destruct (offset <? - (s_off s - bb_off s)) eqn:E1.
  - by rewrite (proj2 (Z.ltb_lt (s_off s - bb_off s + offset) 0)) by lia.
  - rewrite (proj2 (Z.ltb_ge (s_off s - bb_off s + offset) 0)) by lia. cbn [orb].
    by rewrite wrap_small by lia.
Qed.

Lemma grow_front_spec s n :
  in_bb s -> bb_len s < 2 ^ 62 -> 0 <= n < 2 ^ 62 ->
  grow_front s n
  = if avail_front s <? n then Throw EOutOfRange
    else Ret (Span (bb_off s) (bb_len s) (s_off s - n) (n + s_len s)).
Proof.
  intros Hs Hbb Hn. pose proof Hs as (H1 & H2 & H3 & H4). unfold grow_front.
  rewrite (swrap_small 64 n) by lia. rewrite swrap_small by lia.
  rewrite wrap_small by lia. rewrite subspan_spec by (done || lia).
  unfold avail_front. destruct (s_off s - bb_off s <? n) eqn:E.
  - by rewrite (proj2 (Z.ltb_lt (_ + - n) 0)) by lia.
  - rewrite (proj2 (Z.ltb_ge (_ + - n) 0)) by lia. rewrite (proj2 (Z.ltb_ge _ _)) by lia.
    done.
Qed.

Lemma grow_back_spec s n :
  in_bb s -> bb_len s < 2 ^ 62 -> 0 <= n < 2 ^ 62 ->
  grow_back s n
  = if avail_back s <? n then Throw EOutOfRange
    else Ret (Span (bb_off s) (bb_len s) (s_off s) (n + s_len s)).
Proof.
  intros Hs Hbb Hn. pose proof Hs as (H1 & H2 & H3 & H4). unfold grow_back.
  rewrite wrap_small by lia. rewrite subspan_spec by (done || lia).
  unfold avail_back, avail_front. rewrite wrap_small by lia.
  rewrite (proj2 (Z.ltb_ge (_ + 0) 0)) by lia. cbn [orb]. rewrite !Z.add_0_r.
  replace (bb_len s <? _) with (bb_len s - (s_off s - bb_off s) - s_len s <? n); [done|].
  destruct (_ <? n) eqn:E; symmetry; [apply Z.ltb_lt|apply Z.ltb_ge]; lia.
Qed.

Lemma contents_split mem s : span_wf mem s ->
  exists a b, mem = a ++ contents mem s ++ b /\ zlen a = s_off s
    /\ zlen (contents mem s) = s_len s.
Proof.
  intros ((H1 & H2 & H3 & H4) & H5 & H6 & H7).
  exists (ztake (s_off s) mem), (zdrop (s_len s) (zdrop (s_off s) mem)). unfold contents.
  rewrite !ztake_zdrop by lia. split_and!; [done| |].
  - rewrite zlen_ztake; lia.
  - rewrite zlen_ztake, zlen_zdrop; lia.
Qed.

Lemma contents_at a c b s :
  s_off s = zlen a -> s_len s = zlen c -> contents (a ++ c ++ b) s = c.
Proof. intros E1 E2. unfold contents. rewrite zdrop_app by done. by apply ztake_app. Qed.

Lemma memcpy_at off a x b src :
  off = zlen a -> zlen src = zlen x -> memcpy off src (a ++ x ++ b) = (Ret tt, a ++ src ++ b).
Proof.
  intros -> E. unfold memcpy. rewrite (proj2 (Z.leb_le 0 _)) by auto with fs123.
  rewrite (proj2 (Z.leb_le _ _)) by zlia. cbn [andb].
  rewrite ztake_app by done. rewrite (app_assoc a x b), zdrop_app by zlia. done.
Qed.

Lemma ztake_zdrop_split (l : bytes) n : 0 <= n <= zlen l ->
  exists a b, l = a ++ b /\ zlen a = n.
Proof.
  intros. exists (ztake n l), (zdrop n l). rewrite ztake_zdrop by lia.
  split; [done|]. rewrite zlen_ztake; lia.
Qed.

(** With room in front: the bytes land right before the window. *)
Lemma prepend_room mem s more :
  span_wf mem s -> zlen more < 2 ^ 62 -> zlen more <= avail_front s ->
  exists s' mem',
    prepend s more mem = (Ret s', mem') /\ span_wf mem' s'
    /\ contents mem' s' = more ++ contents mem s
    /\ avail_front s' = avail_front s - zlen more /\ avail_back s' = avail_back s
    /\ bounding_box s' = bounding_box s
    /\ ztake (s_off s') mem' = ztake (s_off s') mem
    /\ zdrop (s_off s) mem' = zdrop (s_off s) mem.
Proof.
  intros Hwf Hm E. pose proof Hwf as (Hbb & H5 & H6 & H7).
  pose proof Hbb as (H1 & H2 & H3 & H4). pose proof (zlen_nonneg more).
  unfold prepend, lift, mbind, M_bind. rewrite grow_front_spec by (done || lia).
  rewrite (proj2 (Z.ltb_ge _ _)) by done.
  unfold avail_front in *. destruct (contents_split mem s Hwf) as (a & b & Em & Ea & Ec).
  destruct (ztake_zdrop_split a (s_off s - zlen more)) as (a1 & a2 & -> & Ea1); [lia|].
  remember (contents mem s) as c eqn:Hc. clear Hc. rewrite zlen_app in Ea. subst mem.
  rewrite <- !app_assoc in *. cbn [s_off bb_off bb_len s_len].
  rewrite memcpy_at by lia. cbn.
  assert (zlen more = zlen a2) by lia.
  eexists _, (a1 ++ more ++ c ++ b). split; [done|]. split_and!; cbn.
  - revert H6 H7. unfold span_wf, in_bb. cbn. zlen_simpl. lia.
  - rewrite (app_assoc more c b). apply contents_at; cbn; [lia|zlia].
  - lia.
  - unfold avail_back, avail_front. cbn. f_equal. lia.
  - done.
  - by rewrite !ztake_app by lia.
  - rewrite (app_assoc a1 more), (app_assoc a1 a2). by rewrite !zdrop_app by zlia.
Qed.

(** With room behind: the bytes land right after the window. *)
Lemma append_room mem s more :
  span_wf mem s -> zlen more < 2 ^ 62 -> zlen more <= avail_back s ->
  exists s' mem',
    append s more mem = (Ret s', mem') /\ span_wf mem' s'
    /\ contents mem' s' = contents mem s ++ more
    /\ avail_back s' = avail_back s - zlen more /\ avail_front s' = avail_front s
    /\ bounding_box s' = bounding_box s
    /\ ztake (s_off s + s_len s) mem' = ztake (s_off s + s_len s) mem
    /\ zdrop (s_off s' + s_len s') mem' = zdrop (s_off s' + s_len s') mem.
Proof.
  intros Hwf Hm E. pose proof Hwf as (Hbb & H5 & H6 & H7).
  pose proof Hbb as (H1 & H2 & H3 & H4). pose proof (zlen_nonneg more).
  unfold append, lift, mbind, M_bind. rewrite grow_back_spec by (done || lia).
  rewrite (proj2 (Z.ltb_ge _ _)) by done.
  unfold avail_back, avail_front in *. rewrite wrap_small in E by lia.
  destruct (contents_split mem s Hwf) as (a & b & Em & Ea & Ec).
  remember (contents mem s) as c eqn:Hc. clear Hc. subst mem.
  rewrite !zlen_app in H6, H7.
  destruct (ztake_zdrop_split b (zlen more)) as (b1 & b2 & -> & Eb); [lia|].
  cbn [s_off bb_off bb_len s_len]. rewrite zlen_app in H6, H7.
  rewrite (app_assoc a c), memcpy_at by zlia. cbn.
  eexists _, ((a ++ c) ++ more ++ b2). split; [done|]. split_and!; cbn.
  - revert H6 H7. unfold span_wf, in_bb. cbn. zlen_simpl. lia.
  - rewrite <- app_assoc, (app_assoc c more). apply contents_at; cbn; [lia|zlia].
  - rewrite !wrap_small by lia. lia.
  - lia.
  - done.
  - by rewrite !ztake_app by zlia.
  - rewrite (app_assoc (a ++ c) more), (app_assoc (a ++ c) b1). by rewrite !zdrop_app by zlia.
Qed.

(** ** Properties *)

(** [prepend] on a well-formed window: when the padding in front is too
    small it throws [out_of_range] and writes nothing; otherwise the new window
    shows the given bytes followed by the old contents, stays well formed, has
    exactly that much less room in front and the same room behind, and no byte
    of the buffer outside the newly covered range changes. *)
Theorem prepend_spec mem s more :
  span_wf mem s -> zlen more < 2 ^ 62 ->
  if avail_front s <? zlen more then prepend s more mem = (Throw EOutOfRange, mem)
  else exists s' mem',
    prepend s more mem = (Ret s', mem') /\ span_wf mem' s'
    /\ contents mem' s' = more ++ contents mem s
    /\ avail_front s' = avail_front s - zlen more /\ avail_back s' = avail_back s
    /\ bounding_box s' = bounding_box s
    /\ ztake (s_off s') mem' = ztake (s_off s') mem
    /\ zdrop (s_off s) mem' = zdrop (s_off s) mem.
Proof.
  intros Hwf Hm. destruct (avail_front s <? zlen more) eqn:E.
  - pose proof Hwf as (Hbb & H5 & H6 & H7). pose proof Hbb as (H1 & H2 & H3 & H4).
    pose proof (zlen_nonneg more). unfold prepend, lift, mbind, M_bind.
    rewrite grow_front_spec by (done || lia). by rewrite E.
  - apply prepend_room; [done|done|]. by apply Z.ltb_ge.
Qed.

Lemma prepend_spec_witness :
  exists s' mem', prepend (Span 0 10 4 2) (lit "abc") (lit "0123456789") = (Ret s', mem')
    /\ span_wf mem' s'
    /\ contents mem' s' = lit "abc" ++ contents (lit "0123456789") (Span 0 10 4 2)
    /\ avail_front s' = avail_front (Span 0 10 4 2) - zlen (lit "abc")
    /\ avail_back s' = avail_back (Span 0 10 4 2)
    /\ bounding_box s' = bounding_box (Span 0 10 4 2)
    /\ ztake (s_off s') mem' = ztake (s_off s') (lit "0123456789")
    /\ zdrop 4 mem' = zdrop 4 (lit "0123456789").
Proof.
  apply (prepend_spec (lit "0123456789") (Span 0 10 4 2) (lit "abc"));
    [|vm_compute; done].
  unfold span_wf, in_bb. vm_compute. intuition discriminate.
Defined.

(**  [append] is the mirror image: too little room behind throws and
    changes nothing; otherwise the new window shows the old contents followed
    by the given bytes, and nothing outside the newly covered range changes. *)
Theorem append_spec mem s more :
  span_wf mem s -> zlen more < 2 ^ 62 ->
  if avail_back s <? zlen more then append s more mem = (Throw EOutOfRange, mem)
  else exists s' mem',
    append s more mem = (Ret s', mem') /\ span_wf mem' s'
    /\ contents mem' s' = contents mem s ++ more
    /\ avail_back s' = avail_back s - zlen more /\ avail_front s' = avail_front s
    /\ bounding_box s' = bounding_box s
    /\ ztake (s_off s + s_len s) mem' = ztake (s_off s + s_len s) mem
    /\ zdrop (s_off s' + s_len s') mem' = zdrop (s_off s' + s_len s') mem.
Proof.
  intros Hwf Hm. destruct (avail_back s <? zlen more) eqn:E.
  - pose proof Hwf as (Hbb & H5 & H6 & H7). pose proof Hbb as (H1 & H2 & H3 & H4).
    pose proof (zlen_nonneg more). unfold append, lift, mbind, M_bind.
    rewrite grow_back_spec by (done || lia). by rewrite E.
  - apply append_room; [done|done|]. by apply Z.ltb_ge.
Qed.

Lemma append_spec_witness :
  append (Span 0 10 4 2) (lit "abcde") (lit "0123456789") = (Throw EOutOfRange, lit "0123456789").
Proof.
  apply (append_spec (lit "0123456789") (Span 0 10 4 2) (lit "abcde"));
    [|vm_compute; done].
  unfold span_wf, in_bb. vm_compute. intuition discriminate.
Defined.

(** The sum in [subspan]'s second test wraps: a count near [SIZE_MAX] gets a
    window far larger than its bounding box. *)
Example subspan_wraps :
  subspan (Span 0 10 4 2) 0 (2 ^ 64 - 1) = Ret (Span 0 10 4 (2 ^ 64 - 1)).
Proof. vm_compute. reflexivity. Qed.
