(* ===== verification/Base64.v ===== *)
(** * Base64 (core123/include/core123/base64.hpp)

    [Encode] and [Decode], index by index, with the reads the code makes:
    [std::string]'s [operator\[\]] gives the terminating zero at [size()] and
    is undefined beyond.  The theorem is the round trip for every string on
    which [Encode] is defined. *)

From Stdlib Require Import Ascii String ZArith Lia.
From stdpp Require Import base gmap strings list numbers.
From S2P Require Import Prelude StrUtils.

#[local] Open Scope Z_scope.

(** ** Definitions *)

(** [s\[i\]] for a [const std::string]. *)
Definition str_idx (s : bytes) (i : Z) : outcome ascii :=
  if i =? zlen s then Ret zero else sv_idx s i.

Definition sEncodingTable : bytes :=
  lit "ABCDEFGHIJKLMNOPQRSTUVWXYZabcdefghijklmnopqrstuvwxyz0123456789+/".

Definition enc (i : Z) : ascii := default zero (zget sEncodingTable i).

(** The four characters for three bytes; [data\[i\]] is a signed [char]. *)
Definition enc1 (a : ascii) : Z := Z.land (Z.shiftr (sc a) 2) 63.
Definition enc2 (a b : ascii) : Z :=
  Z.lor (Z.shiftl (Z.land (sc a) 3) 4) (Z.shiftr (Z.land (sc b) 240) 4).
Definition enc3 (b c : ascii) : Z :=
  Z.lor (Z.shiftl (Z.land (sc b) 15) 2) (Z.shiftr (Z.land (sc c) 192) 6).
Definition enc4 (c : ascii) : Z := Z.land (sc c) 63.

(** [for (i = 0; i < in_len - 2; i += 3)]: the characters written and the
    final [i].  [in_len - 2] is a [size_t]. *)
Fixpoint encode_loop (fuel : nat) (data : bytes) (i : Z) (out : bytes)
  : outcome (Z * bytes) :=
  if u64 (zlen data - 2) <=? i then Ret (i, out) else
  match fuel with
  | O => Undef
  | S fuel =>
      a ← str_idx data i;
      b ← str_idx data (i + 1);
      c ← str_idx data (i + 2);
      encode_loop fuel data (i + 3)
        (out ++ map enc [enc1 a; enc2 a b; enc3 b c; enc4 c])
  end.

Definition Encode (data : bytes) : outcome bytes :=
  let in_len := zlen data in
  '(i, out) ← encode_loop (S (length data)) data 0 [];
  if i <? in_len then
    a ← str_idx data i;
    if i =? in_len - 1 then
      Ret (out ++ map enc [enc1 a; Z.shiftl (Z.land (sc a) 3) 4] ++ lit "==")
    else
      b ← str_idx data (i + 1);
      Ret (out ++ map enc [enc1 a; enc2 a b; Z.shiftl (Z.land (sc b) 15) 2] ++ lit "=")
  else Ret out.

(** [kDecodingTable]: for each [unsigned char] its place in the alphabet, or 64. *)
Definition kDecodingTable : list Z :=
  map (fun n =>
         let c := Z.of_nat n in
         if (65 <=? c) && (c <=? 90) then c - 65
         else if (97 <=? c) && (c <=? 122) then c - 71
         else if (48 <=? c) && (c <=? 57) then c + 4
         else if c =? 43 then 62 else if c =? 47 then 63 else 64)
      (seq 0 256).

(** The index is the (signed) [char] converted to [int]. *)
Definition dec_char (c : ascii) : outcome Z :=
  if bool_decide (c = "="%char) then Ret 0 else
  match zget kDecodingTable (sc c) with Some v => Ret v | None => Undef end.

Definition push (out_len : Z) (out : bytes) (c : ascii) : bytes :=
  if zlen out <? out_len then out ++ [c] else out.

Fixpoint decode_loop (fuel : nat) (input : bytes) (out_len i : Z) (out : bytes)
  : outcome bytes :=
  if zlen input <=? i then Ret out else
  match fuel with
  | O => Undef
  | S fuel =>
      a ← c ← str_idx input i; dec_char c;
      b ← c ← str_idx input (i + 1); dec_char c;
      c ← c ← str_idx input (i + 2); dec_char c;
      d ← c ← str_idx input (i + 3); dec_char c;
      if (63 <? a) || (63 <? b) || (63 <? c) || (63 <? d) then Throw ERuntime else
      let triple := u32 (Z.shiftl a 18 + Z.shiftl b 12 + Z.shiftl c 6 + d) in
      let out := push out_len out (chr (Z.land (Z.shiftr triple 16) 255)) in
      let out := push out_len out (chr (Z.land (Z.shiftr triple 8) 255)) in
      let out := push out_len out (chr (Z.land triple 255)) in
      decode_loop fuel input out_len (i + 4) out
  end.

Definition Decode (input : bytes) : outcome bytes :=
  let in_len := zlen input in
  if negb (in_len mod 4 =? 0) then Throw ERuntime else
  let out_len := in_len / 4 * 3 in
  c1 ← str_idx input (u64 (in_len - 1));
  let out_len := if bool_decide (c1 = "="%char) then out_len - 1 else out_len in
  c2 ← str_idx input (u64 (in_len - 2));
  let out_len := if bool_decide (c2 = "="%char) then out_len - 1 else out_len in
  decode_loop (S (length input)) input out_len 0 [].

(** ** Lemmas

    The index loops are related to recursion on the list. *)

Fixpoint encode_ref (data : bytes) : bytes :=
  match data with
  | a :: b :: c :: data' => map enc [enc1 a; enc2 a b; enc3 b c; enc4 c] ++ encode_ref data'
  | [a; b] => map enc [enc1 a; enc2 a b; Z.shiftl (Z.land (sc b) 15) 2] ++ lit "="
  | [a] => map enc [enc1 a; Z.shiftl (Z.land (sc a) 3) 4] ++ lit "=="
  | [] => []
  end.

Lemma str_idx_mid pre c l i k :
  i = zlen pre + k -> 0 <= k -> l !! Z.to_nat k = Some c ->
  str_idx (pre ++ l) i = Ret c.
Proof.
  intros -> Hk Hl. apply lookup_lt_Some in Hl as Hlt. unfold str_idx, sv_idx, zget.
  pose proof (zlen_nonneg pre). rewrite zlen_app.
  assert (k < zlen l) by (unfold zlen; lia).
  rewrite (proj2 (Z.eqb_neq _ _)) by lia.
  rewrite (proj2 (Z.leb_le 0 _)), (proj2 (Z.ltb_lt _ _)) by lia. cbn [andb].
  rewrite lookup_app_r by (unfold zlen in *; lia).
  replace (Z.to_nat _ - _)%nat with (Z.to_nat k) by (unfold zlen in *; lia). by rewrite Hl.
Qed.

(** Induction three bytes at a time. *)
Lemma list_ind3 {A} (P : list A -> Prop) :
  P [] -> (forall a, P [a]) -> (forall a b, P [a; b]) ->
  (forall a b c l, P l -> P (a :: b :: c :: l)) -> forall l, P l.
Proof.
  intros H0 H1 H2 H3 l. remember (length l) as n eqn:E.
  revert l E. induction (lt_wf n) as [n _ IH]; intros l ->.
  destruct l as [|a [|b [|c l]]]; [done..|].
  apply H3, (IH (length l)); [cbn; lia|done].
Qed.

Ltac b64_idx i k :=
  erewrite (str_idx_mid _ _ _ i k); [|lia|lia|reflexivity];
  cbn [mbind outcome_bind].

Definition encode_tail (data : bytes) (r : Z * bytes) : outcome bytes :=
  let '(i, out) := r in
  if i <? zlen data then
    a ← str_idx data i;
    if i =? zlen data - 1 then
      Ret (out ++ map enc [enc1 a; Z.shiftl (Z.land (sc a) 3) 4] ++ lit "==")
    else
      b ← str_idx data (i + 1);
      Ret (out ++ map enc [enc1 a; enc2 a b; Z.shiftl (Z.land (sc b) 15) 2] ++ lit "=")
  else Ret out.

Lemma encode_loop_ref l : forall fuel pre out,
  2 <= zlen (pre ++ l) < 2 ^ 64 -> (length l < fuel)%nat ->
  (encode_loop fuel (pre ++ l) (zlen pre) out ≫= encode_tail (pre ++ l))
  = Ret (out ++ encode_ref l).
Proof.
  induction l as [|a|a b|a b c l IH] using list_ind3; intros fuel pre out Hlen Hfuel;
    (destruct fuel as [|fuel]; [lia|]); cbn [encode_loop];
    pose proof (zlen_nonneg pre) as Hpre;
    revert Hlen; zlen_simpl; zlen_pos; intros Hlen; rewrite wrap_small by lia.
  - rewrite (proj2 (Z.leb_le _ _)) by lia. cbn. rewrite !app_nil_r.
    by rewrite Z.ltb_irrefl.
  - rewrite (proj2 (Z.leb_le _ _)) by lia. cbn -[Z.eqb Z.ltb].
    zlen_simpl. rewrite (proj2 (Z.ltb_lt _ _)) by lia. b64_idx (zlen pre) 0.
    by rewrite (proj2 (Z.eqb_eq _ _)) by lia.
  - rewrite (proj2 (Z.leb_le _ _)) by lia. cbn -[Z.eqb Z.ltb].
    zlen_simpl. rewrite (proj2 (Z.ltb_lt _ _)) by lia. b64_idx (zlen pre) 0.
    rewrite (proj2 (Z.eqb_neq _ _)) by lia. by b64_idx (zlen pre + 1) 1.
  - pose proof (zlen_nonneg l).
    rewrite (proj2 (Z.leb_gt _ _)) by lia. b64_idx (zlen pre) 0. b64_idx (zlen pre + 1) 1. b64_idx (zlen pre + 2) 2.
    specialize (IH fuel (pre ++ [a; b; c])
                  (out ++ map enc [enc1 a; enc2 a b; enc3 b c; enc4 c])).
    revert IH. zlen_simpl. rewrite <- !app_assoc. cbn [app].
    replace (zlen pre + (1 + (1 + (1 + 0)))) with (zlen pre + 3) by lia.
    intros ->; [done|lia|cbn in Hfuel; lia].
Qed.

Lemma Encode_ref data : 2 <= zlen data < 2 ^ 64 -> Encode data = Ret (encode_ref data).
Proof.
  intros H. apply (encode_loop_ref data (S (length data)) [] []); [done|lia].
Qed.

(** *** Sextets *)

Lemma lor_shiftl x n y : 0 <= n -> 0 <= y < 2 ^ n -> Z.lor (Z.shiftl x n) y = x * 2 ^ n + y.
Proof.
  intros Hn Hy. assert (Z.land (Z.shiftl x n) y = 0) as E.
  { apply Z.bits_inj'. intros m Hm. rewrite Z.land_spec, Z.bits_0.
    destruct (decide (m < n)).
    - by rewrite Z.shiftl_spec_low by lia.
    - rewrite <- (Z.mod_small y (2 ^ n)) by done. rewrite Z.mod_pow2_bits_high by lia.
      apply andb_false_r. }
  rewrite <- Z.lxor_lor, <- Z.add_nocarry_lxor by done. by rewrite Z.shiftl_mul_pow2.
Qed.

Lemma enc1_eq a : enc1 a = zc a / 4.
Proof.
  apply Z.eqb_eq, (all_ascii_spec (fun a => enc1 a =? zc a / 4)). vm_compute. reflexivity.
Qed.
Lemma enc4_eq a : enc4 a = zc a mod 64.
Proof.
  apply Z.eqb_eq, (all_ascii_spec (fun a => enc4 a =? zc a mod 64)). vm_compute. reflexivity.
Qed.
Lemma low2 a : Z.land (sc a) 3 = zc a mod 4.
Proof.
  apply Z.eqb_eq, (all_ascii_spec (fun a => Z.land (sc a) 3 =? zc a mod 4)).
  vm_compute. reflexivity.
Qed.
Lemma low4 a : Z.land (sc a) 15 = zc a mod 16.
Proof.
  apply Z.eqb_eq, (all_ascii_spec (fun a => Z.land (sc a) 15 =? zc a mod 16)).
  vm_compute. reflexivity.
Qed.
Lemma high4 a : Z.shiftr (Z.land (sc a) 240) 4 = zc a / 16.
Proof.
  apply Z.eqb_eq, (all_ascii_spec (fun a => Z.shiftr (Z.land (sc a) 240) 4 =? zc a / 16)).
  vm_compute. reflexivity.
Qed.
Lemma high2 a : Z.shiftr (Z.land (sc a) 192) 6 = zc a / 64.
Proof.
  apply Z.eqb_eq, (all_ascii_spec (fun a => Z.shiftr (Z.land (sc a) 192) 6 =? zc a / 64)).
  vm_compute. reflexivity.
Qed.

Lemma enc2_eq a b : enc2 a b = zc a mod 4 * 16 + zc b / 16.
Proof.
  unfold enc2. rewrite low2, high4, lor_shiftl; [done|lia|].
  pose proof (zc_range b). split; [apply Z.div_pos; lia|apply Z.div_lt_upper_bound; lia].
Qed.
Lemma enc3_eq b c : enc3 b c = zc b mod 16 * 4 + zc c / 64.
Proof.
  unfold enc3. rewrite low4, high2, lor_shiftl; [done|lia|].
  pose proof (zc_range c). split; [apply Z.div_pos; lia|apply Z.div_lt_upper_bound; lia].
Qed.

Lemma enc_dec x : 0 <= x < 64 -> enc x <> "="%char /\ dec_char (enc x) = Ret x.
Proof.
  intros Hx.
  assert (forallb (fun n => negb (bool_decide (enc (Z.of_nat n) = "="%char)) &&
            match dec_char (enc (Z.of_nat n)) with Ret v => v =? Z.of_nat n | _ => false end)
            (seq 0 64) = true) as H by (vm_compute; reflexivity).
  rewrite forallb_forall in H. specialize (H (Z.to_nat x)). rewrite Z2Nat.id in H by lia.
  specialize (H ltac:(apply in_seq; lia)).
  apply andb_true_iff in H as [H1 H2]. rewrite negb_true_iff, bool_decide_eq_false in H1.
  split; [done|]. destruct (dec_char (enc x)); try done. by apply Z.eqb_eq in H2 as ->.
Qed.

Lemma land_255 z : 0 <= z -> Z.land z 255 = z mod 256.
Proof. intros. change 255 with (Z.ones 8). by rewrite Z.land_ones. Qed.

(** Three bytes out of four sextets. *)
Lemma triple_bytes (a b c : ascii) t :
  t = zc a * 65536 + zc b * 256 + zc c ->
  chr (Z.land (Z.shiftr t 16) 255) = a /\ chr (Z.land (Z.shiftr t 8) 255) = b
  /\ chr (Z.land t 255) = c /\ u32 t = t.
Proof.
  intros ->. pose proof (zc_range a). pose proof (zc_range b). pose proof (zc_range c).
  rewrite !Z.shiftr_div_pow2, !land_255 by (try apply Z.div_pos; lia).
  change (2 ^ 16) with 65536. change (2 ^ 8) with 256.
  assert (forall x y, x mod 256 = zc y -> chr (x mod 256) = y) as Hc
    by (intros x y ->; apply chr_zc).
  split_and!; [apply Hc|apply Hc|apply Hc|rewrite wrap_small; lia];
    Z.to_euclidean_division_equations; lia.
Qed.

Lemma push_room n out c : zlen out < n -> push n out c = out ++ [c].
Proof. intros. unfold push. by rewrite (proj2 (Z.ltb_lt _ _)). Qed.
Lemma push_full n out c : n <= zlen out -> push n out c = out.
Proof. intros. unfold push. by rewrite (proj2 (Z.ltb_ge _ _)). Qed.

(** One iteration of the decoding loop. *)
Lemma decode_step fuel pre ca cb cc cd rest out_len out (a b c : ascii) x1 x2 x3 x4 :
  dec_char ca = Ret x1 -> dec_char cb = Ret x2 -> dec_char cc = Ret x3 -> dec_char cd = Ret x4 ->
  0 <= x1 < 64 -> 0 <= x2 < 64 -> 0 <= x3 < 64 -> 0 <= x4 < 64 ->
  x1 * 2 ^ 18 + x2 * 2 ^ 12 + x3 * 2 ^ 6 + x4 = zc a * 65536 + zc b * 256 + zc c ->
  decode_loop (S fuel) (pre ++ ca :: cb :: cc :: cd :: rest) out_len (zlen pre) out
  = decode_loop fuel (pre ++ ca :: cb :: cc :: cd :: rest) out_len (zlen pre + 4)
      (push out_len (push out_len (push out_len out a) b) c).
Proof.
  intros E1 E2 E3 E4 H1 H2 H3 H4 E. cbn [decode_loop].
  rewrite (proj2 (Z.leb_gt _ _)) by zlia.
  b64_idx (zlen pre) 0. b64_idx (zlen pre + 1) 1. b64_idx (zlen pre + 2) 2.
  b64_idx (zlen pre + 3) 3. rewrite E1, E2, E3, E4. cbn [mbind outcome_bind].
  rewrite !(proj2 (Z.ltb_ge 63 _)) by lia. cbn [orb].
  rewrite !Z.shiftl_mul_pow2 by lia. rewrite E.
  destruct (triple_bytes a b c _ eq_refl) as (T1 & T2 & T3 & T4).
  by rewrite T4, T1, T2, T3.
Qed.

Lemma enc_ranges a b c :
  0 <= enc1 a < 64 /\ 0 <= enc2 a b < 64 /\ 0 <= enc3 b c < 64 /\ 0 <= enc4 c < 64.
Proof.
  rewrite enc1_eq, enc2_eq, enc3_eq, enc4_eq.
  pose proof (zc_range a). pose proof (zc_range b). pose proof (zc_range c).
  Z.to_euclidean_division_equations. lia.
Qed.

Lemma shifted_ranges a : 0 <= Z.shiftl (Z.land (sc a) 3) 4 < 64
  /\ 0 <= Z.shiftl (Z.land (sc a) 15) 2 < 64
  /\ Z.shiftl (Z.land (sc a) 3) 4 = zc a mod 4 * 16
  /\ Z.shiftl (Z.land (sc a) 15) 2 = zc a mod 16 * 4.
Proof.
  rewrite low2, low4, !Z.shiftl_mul_pow2 by lia.
  pose proof (zc_range a). Z.to_euclidean_division_equations. lia.
Qed.

Lemma dec_char_eq_sign : dec_char "="%char = Ret 0.
Proof. reflexivity. Qed.

Lemma decode_loop_ref l : forall fuel pre out,
  (length (encode_ref l) < fuel)%nat ->
  decode_loop fuel (pre ++ encode_ref l) (zlen out + zlen l) (zlen pre) out = Ret (out ++ l).
Proof.
  assert (zc zero = 0) as Hz by reflexivity.
  induction l as [|a|a b|a b c l IH] using list_ind3; intros fuel pre out Hfuel;
    (destruct fuel as [|fuel]; [cbn in Hfuel; lia|]);
    pose proof (zlen_nonneg pre); pose proof (zlen_nonneg out).
  - cbn [decode_loop encode_ref]. rewrite (proj2 (Z.leb_le _ _)) by zlia. by rewrite app_nil_r.
  - cbn [encode_ref map app lit list_ascii_of_string]. destruct (enc_ranges a zero zero) as (R1 & _).
    destruct (shifted_ranges a) as (R2 & _ & E2 & _).
    erewrite (decode_step _ _ _ _ _ _ [] _ _ a zero zero);
      [|by apply enc_dec|by apply enc_dec|done|done|done|done|lia|lia|].
    2: { rewrite enc1_eq, E2, Hz. pose proof (zc_range a).
         Z.to_euclidean_division_equations. lia. }
    zlen_simpl. rewrite (push_room _ out) by zlia. rewrite !(push_full _ (out ++ [a])) by zlia.
    destruct fuel; [cbn in Hfuel; lia|]. cbn [decode_loop].
    by rewrite (proj2 (Z.leb_le _ _)) by zlia.
  - cbn [encode_ref map app lit list_ascii_of_string]. destruct (enc_ranges a b zero) as (R1 & R2 & _).
    destruct (shifted_ranges b) as (_ & R3 & _ & E3).
    erewrite (decode_step _ _ _ _ _ _ [] _ _ a b zero);
      [|by apply enc_dec|by apply enc_dec|by apply enc_dec|done|done|done|done|lia|].
    2: { rewrite enc1_eq, enc2_eq, E3, Hz. pose proof (zc_range a). pose proof (zc_range b).
         Z.to_euclidean_division_equations. lia. }
    zlen_simpl. rewrite (push_room _ out) by zlia. rewrite (push_room _ (out ++ [a])) by zlia.
    rewrite (push_full _ ((out ++ [a]) ++ [b])) by zlia.
    destruct fuel; [cbn in Hfuel; lia|]. cbn [decode_loop].
    rewrite (proj2 (Z.leb_le _ _)) by zlia. by rewrite <- app_assoc.
  - cbn [encode_ref map app]. destruct (enc_ranges a b c) as (R1 & R2 & R3 & R4).
    erewrite (decode_step _ _ _ _ _ _ _ _ _ a b c);
      [|by apply enc_dec|by apply enc_dec|by apply enc_dec|by apply enc_dec|done|done|done|done|].
    2: { rewrite enc1_eq, enc2_eq, enc3_eq, enc4_eq.
         pose proof (zc_range a). pose proof (zc_range b). pose proof (zc_range c).
         Z.to_euclidean_division_equations. lia. }
    pose proof (zlen_nonneg l). zlen_simpl.
    rewrite (push_room _ out) by zlia. rewrite (push_room _ (out ++ [a])) by zlia.
    rewrite (push_room _ ((out ++ [a]) ++ [b])) by zlia.
    specialize (IH fuel (pre ++ map enc [enc1 a; enc2 a b; enc3 b c; enc4 c]) (out ++ [a; b; c])).
    revert IH. cbn [map]. zlen_simpl. rewrite <- !app_assoc. cbn [app].
    replace (zlen pre + _) with (zlen pre + 4) by lia.
    replace (zlen out + (1 + (1 + (1 + 0))) + zlen l)
      with (zlen out + (1 + (1 + (1 + zlen l)))) by lia.
    intros ->; [done|cbn in Hfuel; lia].
Qed.

(** The padding tells the length. *)
Lemma encode_ref_tail l : l <> [] ->
  exists p x y, encode_ref l = p ++ [x; y] /\ (zlen p + 2) mod 4 = 0
    /\ (zlen p + 2) / 4 * 3 - (if bool_decide (y = "="%char) then 1 else 0)
       - (if bool_decide (x = "="%char) then 1 else 0) = zlen l.
Proof.
  induction l as [|a|a b|a b c l IH] using list_ind3; intros Hne; [done| | |].
  - by eexists [_; _], _, _.
  - destruct (shifted_ranges b) as (_ & R3 & _).
    eexists [_; _], _, _. split_and!; [done|done|].
    rewrite (bool_decide_eq_false_2 (enc _ = _)) by by apply enc_dec. done.
  - destruct (enc_ranges a b c) as (_ & _ & R3 & R4).
    destruct (decide (l = [])) as [->|Hl].
    + eexists [_; _], _, _. split_and!; [done|done|].
      rewrite !bool_decide_eq_false_2 by by apply enc_dec. done.
    + destruct (IH Hl) as (p & x & y & E & Hm & Hn).
      exists (map enc [enc1 a; enc2 a b; enc3 b c; enc4 c] ++ p), x, y.
      cbn [encode_ref]. rewrite E, <- app_assoc. split; [done|].
      rewrite zlen_app. change (zlen (map enc _)) with 4. zlen_simpl. rewrite <- Hn.
      replace (4 + zlen p + 2) with (1 * 4 + (zlen p + 2)) by lia.
      rewrite Z.div_add_l, (Z.add_comm (1 * 4)), Z.mod_add by lia. split; [done|lia].
Qed.

Lemma encode_ref_length l : (length l <= length (encode_ref l))%nat.
Proof.
  induction l as [|a|a b|a b c l IH] using list_ind3; cbn; lia.
Qed.

(** ** Properties *)

(** [Decode] inverts the reference encoding. *)
Lemma Decode_encode_ref data : 2 <= zlen data < 2 ^ 60 ->
  zlen (encode_ref data) mod 4 = 0 /\ Decode (encode_ref data) = Ret data.
Proof.
  intros Hlen.
  destruct (encode_ref_tail data) as (p & x & y & E & Hm & Hn);
    [intros ->; rewrite (@zlen_nil ascii) in Hlen; lia|].
  pose proof (decode_loop_ref data (S (length (encode_ref data))) [] [] ltac:(lia)) as Hloop.
  cbn [app] in Hloop. rewrite !(@zlen_nil ascii), Z.add_0_l in Hloop.
  assert (zlen (encode_ref data) = zlen p + 2) as El by (rewrite E; zlia).
  unfold Decode. cbv zeta. rewrite El, Hm. split; [done|]. cbn [Z.eqb negb].
  assert (zlen p + 2 < 2 ^ 62).
  { revert Hn. repeat case_bool_decide; Z.to_euclidean_division_equations; lia. }
  pose proof (zlen_nonneg p). rewrite !wrap_small by lia.
  assert (str_idx (encode_ref data) (zlen p + 2 - 1) = Ret y) as ->
    by (rewrite E; apply (str_idx_mid _ _ _ _ 1); [lia|lia|done]).
  assert (str_idx (encode_ref data) (zlen p + 2 - 2) = Ret x) as ->
    by (rewrite E; apply (str_idx_mid _ _ _ _ 0); [lia|lia|done]).
  cbn [mbind outcome_bind]. rewrite <- Hloop. f_equal. revert Hn.
  repeat case_bool_decide; lia.
Qed.

(** [Decode] inverts [Encode]: for every string of at least two bytes,
    [Encode] returns, and [Decode] of what it returned is the original
    string, whatever its bytes and its length modulo 3.  (On shorter strings
    [Encode] has undefined behaviour: see [Encode_short].) *)
Theorem base64_roundtrip data :
  2 <= zlen data < 2 ^ 60 ->
  exists e, Encode data = Ret e /\ zlen e mod 4 = 0 /\ Decode e = Ret data.
Proof.
  intros Hlen. rewrite Encode_ref by lia. eexists. split; [done|]. by apply Decode_encode_ref.
Qed.

Lemma base64_roundtrip_witness :
  exists e, Encode (map chr [0; 255; 128; 61; 10]) = Ret e /\ zlen e mod 4 = 0
    /\ Decode e = Ret (map chr [0; 255; 128; 61; 10]).
Proof. apply (base64_roundtrip (map chr [0; 255; 128; 61; 10])). vm_compute. intuition congruence. Defined.

(** [in_len - 2] underflows on strings of length 0 and 1, and [Decode] reads
    [input\[size_t(-1)\]] on the empty string. *)
Example Encode_short : Encode [] = Undef /\ Encode (lit "x") = Undef.
Proof. vm_compute. done. Qed.
Example Decode_empty : Decode [] = Undef.
Proof. vm_compute. done. Qed.
Example Decode_high : Decode (map chr [200; 65; 65; 65]) = Undef.
Proof. vm_compute. done. Qed.
