(* ===== verification/Expiring.v ===== *)
(** * Expiring values and caches (core123/include/core123/expiring.hpp)

    [expiring<T>] and [expiring_cache<K,V>].  The cache sits on an
    [std::unordered_map], whose buckets and iteration order decide what a
    random eviction erases: the map is an interface ([UMap]) with the laws
    the Standard gives it, and the cache is proved against the interface.
    Theorems: an insertion terminates, respects the size bound and evicts only
    when it must; whatever the sequence of operations, a lookup returns only
    values that were inserted under that key and have not expired. *)

From Stdlib Require Import Ascii String ZArith Lia.
From stdpp Require Import base gmap strings list numbers.
From S2P Require Import Prelude.

#[local] Open Scope Z_scope.

(** ** Time points

    [std::chrono::system_clock] counts nanoseconds in 64 bits. *)
Definition tp_min : Z := - 2 ^ 63.
Definition tp_max : Z := 2 ^ 63 - 1.

(** [time_point_plus(tp, dur)]; signed overflow is undefined. *)
Definition time_point_plus (tp dur : Z) : outcome Z :=
  if (tp_min <=? tp + dur) && (tp + dur <=? tp_max) then Ret (tp + dur) else Undef.

Record expiring (T : Type) := Expiring { e_val : T; good_till : Z }.
Arguments Expiring {_} _ _.
Arguments e_val {_} _.
Arguments good_till {_} _.

Definition expiring_default {T} `{Inhabited T} : expiring T := Expiring inhabitant tp_min.
Definition expiring_ttl {T} (now ttl : Z) (t : T) : outcome (expiring T) :=
  tp ← time_point_plus now ttl; Ret (Expiring t tp).
Definition expired {T} (e : expiring T) (asifnow : Z) : bool := good_till e <? asifnow.
Definition ttl {T} (e : expiring T) (asifnow : Z) : Z := swrap 64 (good_till e - asifnow).
Definition make_already_expired {T} (t : T) : expiring T := Expiring t tp_min.
Definition make_never_expires {T} (t : T) : expiring T := Expiring t tp_max.

(** ** The [unordered_map] interface *)

Class UMap (K V T : Type) `{Countable K} := {
  um_map : T -> gmap K V;                 (* the entries *)
  um_empty : T;
  um_emplace : K -> V -> T -> T;
  um_erase : K -> T -> T;
  um_bucket_count : T -> Z;
  um_bucket : T -> Z -> list K;           (* the keys of a bucket *)
  um_order : T -> list K;                 (* the keys in iteration order *)
}.

Class UMapLaws (K V T : Type) `{UMap K V T} := {
  um_map_empty : um_map um_empty = ∅;
  um_map_emplace k v t :
    um_map (um_emplace k v t)
    = match um_map t !! k with Some _ => um_map t | None => <[k:=v]> (um_map t) end;
  um_map_erase k t : um_map (um_erase k t) = delete k (um_map t);
  (* erase never rehashes *)
  um_erase_bucket_count k t : um_bucket_count (um_erase k t) = um_bucket_count t;
  um_bucket_in k b t : k ∈ um_bucket t b -> is_Some (um_map t !! k);
  um_bucket_of k t : is_Some (um_map t !! k) ->
    exists b, 0 <= b < um_bucket_count t /\ k ∈ um_bucket t b;
  um_order_in k t : k ∈ um_order t <-> is_Some (um_map t !! k);
}.

(** ** The cache *)

Section Cache.
Context {K V T : Type} `{HU : UMap K (expiring V) T}.

Record expiring_cache := Cache {
  ec_max_size : Z; themap : T;
  _evictions : Z; _expirations : Z; _hits : Z; _misses : Z;
  evict_bkt : Z }.

Definition ec_size (c : expiring_cache) : Z := Z.of_nat (size (um_map (themap c))).

Definition cache_ctor (max_size : Z) : expiring_cache := Cache max_size um_empty 0 0 0 0 0.

Definition with_map (t : T) (ev : Z) (c : expiring_cache) : expiring_cache :=
  Cache (ec_max_size c) t (_evictions c + ev) (_expirations c) (_hits c) (_misses c) (evict_bkt c).

(** The entries from [k] on, in iteration order. *)
Fixpoint from_key (k : K) (l : list K) : list K :=
  match l with
  | x :: l' => if decide (x = k) then l else from_key k l'
  | [] => []
  end.

(** The next bucket; erase as many entries as it holds, from its first. *)
Definition random_eviction (c : expiring_cache) : expiring_cache :=
  let b := if um_bucket_count (themap c) <=? evict_bkt c + 1 then 0 else evict_bkt c + 1 in
  let c := Cache (ec_max_size c) (themap c) (_evictions c) (_expirations c) (_hits c) (_misses c) b in
  match um_bucket (themap c) b with
  | [] => c
  | (k :: _) as l =>
      let victims := take (length l) (from_key k (um_order (themap c))) in
      with_map (fold_left (fun t x => um_erase x t) victims (themap c))
        (Z.of_nat (length victims)) c
  end.

(** [while(themap.size() > max_size) random_eviction();] *)
Fixpoint evict_while (fuel : nat) (c : expiring_cache) : outcome expiring_cache :=
  if ec_size c <=? ec_max_size c then Ret c else
  match fuel with
  | O => Undef
  | S fuel => evict_while fuel (random_eviction c)
  end.

(** Enough iterations: each round of all the buckets erases something. *)
Definition evict_fuel (c : expiring_cache) : nat :=
  S (size (um_map (themap c)) * S (Z.to_nat (um_bucket_count (themap c)))).

Definition cache_lookup `{Inhabited V} (k : K) (asifnow : Z) (c : expiring_cache)
  : expiring V * expiring_cache :=
  match um_map (themap c) !! k with
  | None =>
      (expiring_default,
       Cache (ec_max_size c) (themap c) (_evictions c) (_expirations c) (_hits c)
         (_misses c + 1) (evict_bkt c))
  | Some e =>
      if expired e asifnow then
        (expiring_default,
         Cache (ec_max_size c) (um_erase k (themap c)) (_evictions c) (_expirations c + 1)
           (_hits c) (_misses c) (evict_bkt c))
      else
        (e, Cache (ec_max_size c) (themap c) (_evictions c) (_expirations c) (_hits c + 1)
              (_misses c) (evict_bkt c))
  end.

Definition cache_insert (k : K) (v : expiring V) (c : expiring_cache)
  : outcome (bool * expiring_cache) :=
  if ec_max_size c =? 0 then Ret (false, c) else
  let ret := bool_decide (um_map (themap c) !! k = None) in
  let c := with_map (um_emplace k v (themap c)) 0 c in
  c ← evict_while (evict_fuel c) c;
  Ret (ret, c).

Definition cache_insert_ttl (k : K) (r : V) (now ttl : Z) (c : expiring_cache)
  : outcome (bool * expiring_cache) :=
  e ← expiring_ttl now ttl r; cache_insert k e c.

Definition cache_erase (k : K) (c : expiring_cache) : expiring_cache :=
  with_map (um_erase k (themap c)) 0 c.

Definition erase_expired (asifnow : Z) (c : expiring_cache) : expiring_cache :=
  fold_left (fun c k =>
    match um_map (themap c) !! k with
    | Some e => if good_till e <? asifnow then with_map (um_erase k (themap c)) 1 c else c
    | None => c
    end) (um_order (themap c)) c.

(** *** Lemmas *)

Context {HL : UMapLaws K (expiring V) T}.

Lemma fold_erase l t k :
  um_map (fold_left (fun t x => um_erase x t) l t) !! k
  = if decide (k ∈ l) then None else um_map t !! k.
Proof.
  revert t. induction l as [|x l IH]; intros t; cbn [fold_left].
  { by rewrite decide_False by apply not_elem_of_nil. }
  rewrite IH, um_map_erase. destruct (decide (k = x)) as [->|Hne].
  - rewrite lookup_delete_eq, (decide_True (P := x ∈ x :: l)) by by apply list_elem_of_here.
    by case_decide.
  - rewrite lookup_delete_ne by done.
    destruct (decide (k ∈ l)); [rewrite decide_True|rewrite decide_False]; [done| |done|];
      rewrite elem_of_cons; tauto.
Qed.

Lemma from_key_in k l : k ∈ l -> exists l', from_key k l = k :: l'.
Proof.
  induction l as [|x l IH]; [by intros ?%not_elem_of_nil|]. cbn.
  destruct (decide (x = k)) as [->|Hne]; [eauto|]. intros [->|Hin]%elem_of_cons; [done|auto].
Qed.

Lemma fold_erase_bucket_count l t :
  um_bucket_count (fold_left (fun t x => um_erase x t) l t) = um_bucket_count t.
Proof.
  revert t. induction l as [|x l IH]; intros t; [done|]. cbn. by rewrite IH, um_erase_bucket_count.
Qed.

Definition next_bkt (n b : Z) : Z := if n <=? b + 1 then 0 else b + 1.

(** One eviction only removes entries, and removes some when the bucket it
    looks at is not empty. *)
Lemma random_eviction_spec c :
  let c' := random_eviction c in let b := next_bkt (um_bucket_count (themap c)) (evict_bkt c) in
  ec_max_size c' = ec_max_size c /\ evict_bkt c' = b
  /\ um_bucket_count (themap c') = um_bucket_count (themap c)
  /\ um_map (themap c') ⊆ um_map (themap c)
  /\ (um_bucket (themap c) b = [] -> themap c' = themap c)
  /\ (um_bucket (themap c) b <> [] ->
      (size (um_map (themap c')) < size (um_map (themap c)))%nat).
Proof.
  cbv zeta. unfold random_eviction, next_bkt. cbn [themap].
  set (b := if _ <=? _ then _ else _).
  destruct (um_bucket (themap c) b) as [|k l] eqn:Eb.
  { cbn. split_and!; done. }
  cbn [with_map ec_max_size evict_bkt themap].
  rewrite fold_erase_bucket_count.
  set (t' := fold_left _ _ _).
  assert (um_map t' ⊆ um_map (themap c)) as Hsub.
  { apply map_subseteq_spec. intros x v. unfold t'. rewrite fold_erase. by case_decide. }
  split_and!; [done|done|done|done|done|]. intros _.
  assert (is_Some (um_map (themap c) !! k)) as Hk
    by (apply (um_bucket_in k b); rewrite Eb; by apply list_elem_of_here).
  destruct (from_key_in k (um_order (themap c))) as (l' & El); [by apply um_order_in|].
  rewrite <- !size_dom. apply subset_size. split; [by apply subseteq_dom|].
  intros Hsub'. apply elem_of_dom in Hk. apply Hsub', elem_of_dom in Hk.
  unfold t' in Hk. rewrite fold_erase, El in Hk. cbn [length take] in Hk.
  rewrite decide_True in Hk by by apply list_elem_of_here. by destruct Hk.
Qed.

Definition bkt_dist (n b t : Z) : Z :=
  if b + 1 <=? t then t - b else if n <=? b + 1 then 1 + t else n - b + t.

Lemma bkt_dist_next n b t : 0 <= b -> 0 <= t < n ->
  1 <= bkt_dist n b t <= n
  /\ (next_bkt n b <> t -> bkt_dist n (next_bkt n b) t = bkt_dist n b t - 1)
  /\ 0 <= next_bkt n b.
Proof.
  intros Hb Ht. unfold bkt_dist, next_bkt.
  destruct (Z.leb_spec n (b + 1)); destruct (Z.leb_spec (b + 1) t);
    repeat match goal with |- context [?a <=? ?b'] => destruct (Z.leb_spec a b') end; lia.
Qed.

(** The eviction loop ends: entries left and distance to the next bucket
    that is not empty, lexicographically. *)
Lemma evict_while_ret fuel c t :
  0 <= ec_max_size c -> 0 <= evict_bkt c ->
  0 <= t < um_bucket_count (themap c) -> um_bucket (themap c) t <> [] ->
  (ec_size c - 1) * (um_bucket_count (themap c) + 1)
    + bkt_dist (um_bucket_count (themap c)) (evict_bkt c) t < Z.of_nat fuel ->
  exists c', evict_while fuel c = Ret c' /\ ec_size c' <= ec_max_size c
    /\ ec_max_size c' = ec_max_size c /\ um_map (themap c') ⊆ um_map (themap c)
    /\ 0 <= evict_bkt c'.
Proof.
  revert c t. induction fuel as [|fuel IH]; intros c t Hmax Hb Ht Hne Hf;
    pose proof (bkt_dist_next _ _ _ Hb Ht) as (D1 & D2 & D3); cbn [evict_while].
  all: destruct (Z.leb_spec (ec_size c) (ec_max_size c));
    [by (eexists; split_and!; [done|done|done|done|done])|].
  { nia. }
  pose proof (random_eviction_spec c) as (E1 & E2 & E3 & E4 & E5 & E6). cbv zeta in *.
  set (c1 := random_eviction c) in *.
  set (b := next_bkt _ _) in *.
  destruct (decide (um_bucket (themap c) b = [])) as [Hbe|Hbne].
  - assert (b <> t) by (intros ->; done).
    destruct (IH c1 t) as (c' & -> & ? & ? & ? & ?).
    + by rewrite E1.
    + by rewrite E2.
    + by rewrite E3.
    + by rewrite (E5 Hbe).
    + unfold ec_size in *. rewrite E2, E3, D2, (E5 Hbe) by done. lia.
    + rewrite E1 in *. rewrite (E5 Hbe) in *. eexists; split_and!; try done.
  - specialize (E6 Hbne). destruct (decide (um_map (themap c1) = ∅)) as [Em|Hn].
    + assert (ec_size c1 = 0) as Hs by (unfold ec_size; by rewrite Em, map_size_empty).
      destruct fuel; cbn [evict_while];
        rewrite (proj2 (Z.leb_le (ec_size c1) _)) by lia;
        (eexists; split_and!; [done|lia|done|done|lia]).
    + apply map_choose in Hn as (k & v & Hk).
      destruct (um_bucket_of k (themap c1)) as (t' & Ht' & Hin); [eauto|].
      destruct (IH c1 t') as (c' & -> & ? & ? & ? & ?).
      * by rewrite E1.
      * by rewrite E2.
      * done.
      * intros En. rewrite En in Hin. by apply not_elem_of_nil in Hin.
      * pose proof (bkt_dist_next (um_bucket_count (themap c1)) (evict_bkt c1) t'
                      ltac:(by rewrite E2) Ht') as (D & _).
        unfold ec_size in *. rewrite E3 in *. nia.
      * rewrite E1 in *. eexists; split_and!; try done. by etransitivity.
Qed.

Lemma evict_while_enough c :
  0 <= ec_max_size c -> 0 <= evict_bkt c ->
  exists c', evict_while (evict_fuel c) c = Ret c' /\ ec_size c' <= ec_max_size c
    /\ ec_max_size c' = ec_max_size c /\ um_map (themap c') ⊆ um_map (themap c)
    /\ 0 <= evict_bkt c'.
Proof.
  intros Hmax Hb. destruct (decide (um_map (themap c) = ∅)) as [Em|Hn].
  - assert (ec_size c = 0) as Hs by (unfold ec_size; by rewrite Em, map_size_empty).
    unfold evict_fuel. cbn [evict_while].
    rewrite (proj2 (Z.leb_le (ec_size c) _)) by lia.
    eexists; split_and!; [done|lia|done..].
  - apply map_choose in Hn as (k & v & Hk).
    destruct (um_bucket_of k (themap c)) as (t & Ht & Hin); [eauto|].
    apply (evict_while_ret _ _ t); [done|done|done| |].
    + intros En. rewrite En in Hin. by apply not_elem_of_nil in Hin.
    + pose proof (bkt_dist_next _ _ _ Hb Ht) as (D & _).
      assert (size (um_map (themap c)) <> 0)%nat.
      { intros E0%map_size_empty_inv. by rewrite E0 in Hk. }
      unfold evict_fuel, ec_size. nia.
Qed.

Lemma evict_while_noop fuel c : ec_size c <= ec_max_size c -> evict_while fuel c = Ret c.
Proof. intros Hs. destruct fuel; cbn [evict_while]; by rewrite (proj2 (Z.leb_le _ _)). Qed.

(** *** Sequences of operations *)

Inductive cache_op :=
| OpLookup (k : K) (asifnow : Z)
| OpInsert (k : K) (v : expiring V)
| OpErase (k : K)
| OpEraseExpired (asifnow : Z).

Definition cache_step `{Inhabited V} (op : cache_op) (c : expiring_cache) : outcome expiring_cache :=
  match op with
  | OpLookup k now => Ret (cache_lookup k now c).2
  | OpInsert k v => '(_, c') ← cache_insert k v c; Ret c'
  | OpErase k => Ret (cache_erase k c)
  | OpEraseExpired now => Ret (erase_expired now c)
  end.

Fixpoint cache_run `{Inhabited V} (ops : list cache_op) (c : expiring_cache) : outcome expiring_cache :=
  match ops with
  | [] => Ret c
  | op :: ops => c ← cache_step op c; cache_run ops c
  end.

Definition ec_wf (c : expiring_cache) : Prop :=
  0 <= ec_max_size c /\ 0 <= evict_bkt c /\ ec_size c <= ec_max_size c.

Lemma size_subseteq (m1 m2 : gmap K (expiring V)) : m1 ⊆ m2 -> (size m1 <= size m2)%nat.
Proof. intros Hs. rewrite <- !size_dom. by apply subseteq_size, subseteq_dom. Qed.

Lemma cache_insert_cases k v c :
  ec_wf c ->
  exists ret c', cache_insert k v c = Ret (ret, c') /\ ec_wf c' /\ ec_max_size c' = ec_max_size c
    /\ (ec_max_size c = 0 -> ret = false /\ c' = c)
    /\ (ec_max_size c <> 0 ->
        let m := match um_map (themap c) !! k with
                 | Some _ => um_map (themap c) | None => <[k:=v]> (um_map (themap c)) end in
        ret = bool_decide (um_map (themap c) !! k = None)
        /\ um_map (themap c') ⊆ m
        /\ (Z.of_nat (size m) <= ec_max_size c -> um_map (themap c') = m)).
Proof.
  intros (Hmax & Hb & Hs). unfold cache_insert.
  destruct (Z.eqb_spec (ec_max_size c) 0) as [E|E].
  { exists false, c. split_and!; done. }
  set (c1 := with_map _ _ _).
  destruct (evict_while_enough c1 Hmax Hb) as (c' & Er & Es & Em & Hsub & Hb').
  rewrite Er. cbn [mbind outcome_bind].
  assert (um_map (themap c1) = match um_map (themap c) !! k with
            | Some _ => um_map (themap c) | None => <[k:=v]> (um_map (themap c)) end) as Emap
    by (unfold c1; cbn [with_map themap]; apply um_map_emplace).
  exists (bool_decide (um_map (themap c) !! k = None)), c'.
  change (ec_max_size c1) with (ec_max_size c) in *.
  split; [done|]. split; [unfold ec_wf; rewrite Em; split_and!; lia|].
  split; [done|]. split; [done|]. intros _. cbv zeta. rewrite <- Emap. split_and!; [done|done|].
  intros Hle. rewrite evict_while_noop in Er by (unfold ec_size; exact Hle).
  by injection Er as <-.
Qed.

Lemma erase_expired_inv now c :
  ec_wf c ->
  ec_wf (erase_expired now c) /\ ec_max_size (erase_expired now c) = ec_max_size c
  /\ um_map (themap (erase_expired now c)) ⊆ um_map (themap c).
Proof.
  unfold erase_expired. generalize (um_order (themap c)). intros l. revert c.
  induction l as [|k l IH]; intros c Hc; [done|]. cbn [fold_left].
  set (c1 := match um_map (themap c) !! k with Some _ => _ | None => _ end).
  assert (ec_wf c1 /\ ec_max_size c1 = ec_max_size c /\ um_map (themap c1) ⊆ um_map (themap c))
    as (Hc1 & Hm & Hs).
  { unfold c1. destruct (um_map (themap c) !! k); [|done].
    destruct (_ <? _); [|done]. cbn [with_map themap ec_max_size].
    assert (um_map (um_erase k (themap c)) ⊆ um_map (themap c)) as Hsub
      by (rewrite um_map_erase; apply delete_subseteq).
    split_and!; [|done|done]. destruct Hc as (H1 & H2 & H3).
    split_and!; [done|done|]. apply size_subseteq in Hsub. unfold ec_size in *. cbn. lia. }
  destruct (IH c1 Hc1) as (H1 & H2 & H3). rewrite Hm in H2.
  split_and!; [done|done|]. by etransitivity.
Qed.

(** One operation: well-formedness is kept, and an entry of the result is an
    old one or the one just inserted. *)
Lemma cache_step_inv `{Inhabited V} op c :
  ec_wf c ->
  exists c', cache_step op c = Ret c' /\ ec_wf c' /\ ec_max_size c' = ec_max_size c
    /\ forall k e, um_map (themap c') !! k = Some e ->
          um_map (themap c) !! k = Some e \/ op = OpInsert k e.
Proof.
  intros Hc. destruct op as [k now|k v|k|now]; cbn [cache_step].
  - eexists. split; [done|]. unfold cache_lookup.
    destruct (um_map (themap c) !! k) as [e|] eqn:E; [destruct (expired e now)|];
      cbn [snd ec_max_size themap]; [|split_and!; auto; fail|split_and!; auto; fail].
    destruct Hc as (H1 & H2 & H3).
    assert (um_map (um_erase k (themap c)) ⊆ um_map (themap c)) as Hsub
      by (rewrite um_map_erase; apply delete_subseteq).
    split_and!; [|done|].
    + split_and!; [done|done|]. apply size_subseteq in Hsub. unfold ec_size in *. cbn. lia.
    + intros k' e' Hk. left. by eapply lookup_weaken.
  - destruct (cache_insert_cases k v c Hc) as (ret & c' & -> & Hc' & Hm & Hz & Hn).
    cbn. exists c'. split_and!; [done..|]. intros k' e' Hk.
    destruct (decide (ec_max_size c = 0)) as [E|E].
    { destruct (Hz E) as [_ ->]. by left. }
    destruct (Hn E) as (_ & Hsub & _). eapply lookup_weaken in Hk; [|done].
    destruct (um_map (themap c) !! k) eqn:Ek; [by left|].
    apply lookup_insert_Some in Hk as [[-> ->]|[_ ?]]; [by right|by left].
  - eexists. split; [done|]. cbn [cache_erase with_map themap ec_max_size].
    assert (um_map (um_erase k (themap c)) ⊆ um_map (themap c)) as Hsub
      by (rewrite um_map_erase; apply delete_subseteq).
    destruct Hc as (H1 & H2 & H3). split_and!; [|done|].
    + split_and!; [done|done|]. apply size_subseteq in Hsub. unfold ec_size in *. cbn. lia.
    + intros k' e' Hk. left. by eapply lookup_weaken.
  - eexists. split; [done|]. destruct (erase_expired_inv now c Hc) as (H1 & H2 & H3).
    split_and!; [done|done|]. intros k' e' Hk. left. by eapply lookup_weaken.
Qed.

Lemma cache_run_inv `{Inhabited V} ops c :
  ec_wf c ->
  exists c', cache_run ops c = Ret c' /\ ec_wf c' /\ ec_max_size c' = ec_max_size c
    /\ forall k e, um_map (themap c') !! k = Some e ->
          um_map (themap c) !! k = Some e \/ OpInsert k e ∈ ops.
Proof.
  revert c. induction ops as [|op ops IH]; intros c Hc; cbn [cache_run].
  { exists c. split_and!; auto. }
  destruct (cache_step_inv op c Hc) as (c1 & -> & Hc1 & Hm1 & H1). cbn [mbind outcome_bind].
  destruct (IH c1 Hc1) as (c' & -> & Hc' & Hm' & H'). rewrite Hm1 in Hm'.
  exists c'. split_and!; [done..|]. intros k e Hk.
  destruct (H' k e Hk) as [Hk1|Hin]; [destruct (H1 k e Hk1) as [?| ->]|]; [by left|right..].
  - apply list_elem_of_here.
  - by apply elem_of_cons; right.
Qed.
End Cache.

(** ** An [unordered_map] with a single bucket *)

#[export] Instance gmap_umap {K V} `{Countable K} : UMap K V (gmap K V) := {
  um_map m := m;
  um_empty := ∅;
  um_emplace k v m := match m !! k with Some _ => m | None => <[k:=v]> m end;
  um_erase k m := delete k m;
  um_bucket_count _ := 1;
  um_bucket m b := if b =? 0 then (map_to_list m).*1 else [];
  um_order m := (map_to_list m).*1;
}.

Lemma map_keys_in {K V} `{Countable K} (k : K) (m : gmap K V) :
  k ∈ (map_to_list m).*1 <-> is_Some (m !! k).
Proof.
  rewrite list_elem_of_fmap. split.
  - intros ([k' v] & -> & Hin). apply elem_of_map_to_list in Hin. eauto.
  - intros [v Hv]. exists (k, v). by rewrite elem_of_map_to_list.
Qed.

#[export] Instance gmap_umap_laws {K V} `{Countable K} : UMapLaws K V (gmap K V).
Proof.
  split; cbn.
  - done.
  - done.
  - done.
  - done.
  - intros k b t. destruct (b =? 0); [apply map_keys_in|by intros ?%not_elem_of_nil].
  - intros k t Hk. exists 0. split; [lia|]. by apply map_keys_in.
  - apply map_keys_in.
Qed.

(** ** Properties *)

(** [expiring_cache::insert] on any map with the laws of
    [unordered_map]: the eviction loop terminates; with [max_size] 0 nothing is
    stored and the answer is false; otherwise the answer says whether the key
    was absent, an existing entry is not replaced, the size never exceeds
    [max_size], every surviving entry was there before or is the new one, and
    nothing is evicted when there was room. *)
Theorem cache_insert_spec {K V T} `{HU : UMap K (expiring V) T} `{!UMapLaws K (expiring V) T}
    (k : K) (v : expiring V) (c : expiring_cache (T := T)) :
  ec_wf c ->
  exists ret c', cache_insert k v c = Ret (ret, c') /\ ec_wf c' /\ ec_max_size c' = ec_max_size c
    /\ (ec_max_size c = 0 -> ret = false /\ c' = c)
    /\ (ec_max_size c <> 0 ->
        let m := match um_map (themap c) !! k with
                 | Some _ => um_map (themap c) | None => <[k:=v]> (um_map (themap c)) end in
        ret = bool_decide (um_map (themap c) !! k = None)
        /\ um_map (themap c') ⊆ m
        /\ (Z.of_nat (size m) <= ec_max_size c -> um_map (themap c') = m)).
Proof. apply cache_insert_cases. Qed.

Lemma cache_insert_spec_witness :
  exists c', cache_insert 7 (Expiring "v"%string 50)
      (Cache (T := gmap Z (expiring string)) 1 {[3 := Expiring "old"%string 9]} 0 0 0 0 0)
    = Ret (true, c') /\ ec_size c' <= 1.
Proof.
  destruct (cache_insert_spec 7 (Expiring "v"%string 50)
    (Cache (T := gmap Z (expiring string)) 1 {[3 := Expiring "old"%string 9]} 0 0 0 0 0))
    as (ret & c' & E & (_ & _ & Hs) & Hm & _ & H).
  { split_and!; vm_compute; discriminate. }
  destruct H as (-> & _); [discriminate|]. exists c'. split; [exact E|].
  rewrite Hm in Hs. exact Hs.
Defined.

(** Whatever sequence of lookups, insertions, erasures and purges a
    cache has been through since its construction, every operation returned,
    the size bound holds, and a lookup that finds something live at [now]
    returns exactly what some insertion under that key stored, not yet past
    its expiration time. *)
Theorem cache_lookup_sound {K V T} `{HU : UMap K (expiring V) T} `{!UMapLaws K (expiring V) T}
    `{Inhabited V} (max_size : Z) (ops : list cache_op) (k : K) (now : Z) :
  0 <= max_size -> tp_min < now ->
  exists c, cache_run (T := T) ops (cache_ctor max_size) = Ret c /\ ec_size c <= max_size
    /\ let e := (cache_lookup k now c).1 in
       expired e now = false -> now <= good_till e /\ OpInsert k e ∈ ops.
Proof.
  intros Hm Hnow.
  assert (ec_wf (cache_ctor (T := T) max_size)) as Hwf.
  { split_and!; cbn; [done|done|]. unfold ec_size. cbn. rewrite um_map_empty, map_size_empty. lia. }
  destruct (cache_run_inv ops _ Hwf) as (c & Er & Hc & Hmax & Hin).
  exists c. split; [done|]. cbn in Hmax. destruct Hc as (_ & _ & Hs). split; [lia|]. cbv zeta.
  unfold cache_lookup. destruct (um_map (themap c) !! k) as [e|] eqn:Ek.
  - destruct (expired e now) eqn:Ee; cbn [fst].
    + unfold expired, expiring_default. cbn. lia.
    + intros _. unfold expired in Ee. split; [lia|].
      destruct (Hin k e Ek) as [Hk|]; [|done]. cbn in Hk. by rewrite um_map_empty in Hk.
  - cbn [fst]. unfold expired, expiring_default. cbn. lia.
Qed.

Lemma cache_lookup_sound_witness :
  exists c, cache_run (T := gmap Z (expiring string))
      [OpInsert 1 (Expiring "a"%string 10); OpInsert 2 (Expiring "b"%string 20); OpLookup 1 15]
      (cache_ctor 2) = Ret c /\ ec_size c <= 2
    /\ let e := (cache_lookup 2 15 c).1 in
       expired e 15 = false -> 15 <= good_till e
         /\ OpInsert 2 e ∈ [OpInsert 1 (Expiring "a"%string 10);
                            OpInsert 2 (Expiring "b"%string 20); OpLookup 1 15].
Proof.
  apply (cache_lookup_sound (T := gmap Z (expiring string)) 2 _ 2 15);
    [lia|vm_compute; reflexivity].
Defined.
