(* ===== verification/Secrets.v ===== *)
(** * Shared secrets (lib/secret_manager.cpp, lib/sharedkeydir.cpp)

    [secret_manager::legal_sid], [hex2bin] and the [sharedkeydir] class, which
    reads keys from a directory and caches them.  The directory's files are a
    parameter of each call; the names of the files opened are recorded.
    Theorems: [hex2bin] reads back a hexadecimal key, separators and all; and
    no sequence of requests makes the class open anything but
    "<legal sid>.sharedkey" or "<legal name>.keyid" in its directory. *)

From Stdlib Require Import Ascii String ZArith Lia.
From stdpp Require Import base gmap strings list numbers.
From S2P Require Import Prelude StrUtils Netstring Expiring.

#[local] Open Scope Z_scope.

(** ** Definitions *)

(** [isalnum] in the C locale *)
Definition isalnum (c : ascii) : bool :=
  ((48 <=? zc c) && (zc c <=? 57)) || ((65 <=? zc c) && (zc c <=? 90))
  || ((97 <=? zc c) && (zc c <=? 122)).

Definition sid_char (ch : ascii) : bool :=
  isalnum ch || bool_decide (ch = "_"%char) || bool_decide (ch = "-"%char)
  || bool_decide (ch = "."%char).

Definition legal_sid (sv : bytes) : bool :=
  if zlen sv =? 0 then false else
  if 255 <? zlen sv then false else
  if bool_decide (head sv = Some "."%char) then false else
  forallb sid_char sv.

(** *** [sodium_hex2bin]

    The variables of its loop; [h_state] is the [unsigned char] that is
    complemented after each digit. *)
Record hex_st := Hex {
  bin : bytes; hex_pos : Z; h_ret : Z; c_acc : Z; h_state : Z }.

Definition c_num (c : Z) : Z := wrap 8 (Z.lxor c 48).
Definition c_num0 (c : Z) : Z := wrap 8 (Z.shiftr (u32 (c_num c - 10)) 8).
Definition c_alpha (c : Z) : Z := wrap 8 (u32 (Z.land c (u32 (Z.lnot 32)) - 55)).
Definition c_alpha0 (c : Z) : Z :=
  wrap 8 (Z.shiftr (Z.lxor (u32 (c_alpha c - 10)) (u32 (c_alpha c - 16))) 8).

Fixpoint hex_loop (hex : bytes) (bin_maxlen : Z) (ignore : bytes) (s : hex_st) : hex_st :=
  match hex with
  | [] => s
  | ch :: hex' =>
      let c := zc ch in
      if Z.lor (c_num0 c) (c_alpha0 c) =? 0 then
        (* strchr also finds the terminating NUL *)
        if (h_state s =? 0) && (bool_decide (ch ∈ ignore) || (c =? 0))
        then hex_loop hex' bin_maxlen ignore
               (Hex (bin s) (hex_pos s + 1) (h_ret s) (c_acc s) (h_state s))
        else s
      else
        let c_val := Z.lor (Z.land (c_num0 c) (c_num c)) (Z.land (c_alpha0 c) (c_alpha c)) in
        if bin_maxlen <=? zlen (bin s)
        then Hex (bin s) (hex_pos s) (-1) (c_acc s) (h_state s)
        else
          hex_loop hex' bin_maxlen ignore
            (if h_state s =? 0
             then Hex (bin s) (hex_pos s + 1) (h_ret s) (wrap 8 (c_val * 16))
                    (wrap 8 (Z.lnot (h_state s)))
             else Hex (bin s ++ [chr (Z.lor (c_acc s) c_val)]) (hex_pos s + 1) (h_ret s) (c_acc s)
                    (wrap 8 (Z.lnot (h_state s))))
  end.

(** The return value, [*bin_len], [*hex_end - hex] and the bytes written. *)
Definition hex2bin (hex : bytes) (bin_maxlen : Z) (ignore : bytes) : Z * Z * Z * bytes :=
  let s := hex_loop hex bin_maxlen ignore (Hex [] 0 0 0 0) in
  let '(hexp, ret) := if negb (h_state s =? 0) then (hex_pos s - 1, -1) else (hex_pos s, h_ret s) in
  (ret, if negb (ret =? 0) then 0 else zlen (bin s), hexp, bin s).

(** *** [sharedkeydir] *)

(** The directory: what [openat] and reading a file there give. *)
Definition keydir : Type := bytes -> outcome bytes.

Definition suffix : bytes := lit ".sharedkey".
Definition hex_ignore : bytes := lit ": " ++ map chr [9; 10; 12].

Section SharedKeyDir.
Context {T : Type} `{HU : UMap bytes (expiring bytes) T}.

Record sharedkeydir := SKD {
  encode_sid_indirect : bytes;
  secret_cache : expiring_cache (T := T);
  indirect_cache : expiring_cache (T := T);
  refresh_time : Z;
  opened : list bytes                   (* the names passed to [openat] *)
}.

Definition sharedkeydir_ctor (indirect : bytes) (refresh_nsec : Z) : outcome sharedkeydir :=
  if negb (legal_sid indirect) then Throw ERuntime
  else Ret (SKD indirect (cache_ctor 10) (cache_ctor 10) refresh_nsec []).

Definition openat (d : keydir) (fname : bytes) : M sharedkeydir bytes :=
  modify (fun s => SKD (encode_sid_indirect s) (secret_cache s) (indirect_cache s)
                     (refresh_time s) (fname :: opened s)) ;;
  lift (d fname).

Definition refresh_secret (d : keydir) (sid : bytes) : M sharedkeydir bytes :=
  if negb (legal_sid sid) then raise ERuntime else
  content ← openat d (sid ++ suffix);
  let inbuf := ztake 1025 content in
  let nread := zlen inbuf in
  if nread =? 1025 then raise ERuntime else
  let '(status, binlen, hexend, v) := hex2bin inbuf ((nread + 1) / 2) hex_ignore in
  if negb (status =? 0) then raise ERuntime else
  if negb (hexend =? nread) then raise ERuntime else
  mret (ztake binlen v).

(** [ifs >> ret]: the first word; fails when there is none. *)
Fixpoint first_word (l : bytes) : bytes :=
  match l with c :: l' => if isspace c then [] else c :: first_word l' | [] => [] end.

Definition refresh_indirect (d : keydir) (name : bytes) : M sharedkeydir bytes :=
  if negb (legal_sid name) then raise ERuntime else
  content ← openat d (name ++ lit ".keyid");
  let ret := first_word (drop_space content) in
  if bool_decide (ret = []) then raise ERuntime else
  if negb (legal_sid ret) then raise ERuntime else
  mret ret.

Definition with_secret_cache (c : expiring_cache (T := T)) (s : sharedkeydir) : sharedkeydir :=
  SKD (encode_sid_indirect s) c (indirect_cache s) (refresh_time s) (opened s).
Definition with_indirect_cache (c : expiring_cache (T := T)) (s : sharedkeydir) : sharedkeydir :=
  SKD (encode_sid_indirect s) (secret_cache s) c (refresh_time s) (opened s).

(** The three readings of the clock that a request makes: in the lookup, in
    [expired()], and in the insertion. *)
Record clocks := Clocks { t_lookup : Z; t_expired : Z; t_insert : Z }.

Definition get_sharedkey (d : keydir) (ts : clocks) (sid : bytes) : M sharedkeydir bytes :=
  if negb (legal_sid sid) then raise ERuntime else
  s ← get;
  let '(exsid, c) := cache_lookup sid (t_lookup ts) (secret_cache s) in
  modify (with_secret_cache c) ;;
  if negb (expired exsid (t_expired ts)) then mret (e_val exsid) else
  ret ← refresh_secret d sid;
  s ← get;
  '(_, c) ← lift (cache_insert_ttl sid ret (t_insert ts) (refresh_time s) (secret_cache s));
  modify (with_secret_cache c) ;;
  mret ret.

Definition get_indirect_sid (d : keydir) (ts : clocks) (name : bytes) : M sharedkeydir bytes :=
  if negb (legal_sid name) then raise ERuntime else
  s ← get;
  let '(exsid, c) := cache_lookup name (t_lookup ts) (indirect_cache s) in
  modify (with_indirect_cache c) ;;
  if negb (expired exsid (t_expired ts)) then mret (e_val exsid) else
  ret ← refresh_indirect d name;
  s ← get;
  '(_, c) ← lift (cache_insert_ttl name ret (t_insert ts) (refresh_time s) (indirect_cache s));
  modify (with_indirect_cache c) ;;
  mret ret.

Definition get_encode_sid (d : keydir) (ts : clocks) : M sharedkeydir bytes :=
  s ← get; get_indirect_sid d ts (encode_sid_indirect s).

Definition regular_maintenance (now : Z) : M sharedkeydir unit :=
  modify (fun s => SKD (encode_sid_indirect s) (erase_expired now (secret_cache s))
                     (erase_expired now (indirect_cache s)) (refresh_time s) (opened s)).
End SharedKeyDir.

(** ** Hexadecimal text *)

Definition hexv (c : ascii) : option Z :=
  if (48 <=? zc c) && (zc c <=? 57) then Some (zc c - 48)
  else if (65 <=? zc c) && (zc c <=? 70) then Some (zc c - 55)
  else if (97 <=? zc c) && (zc c <=? 102) then Some (zc c - 87)
  else None.

(** [hex_text ignore l v]: [l] spells the bytes [v] two digits at a time, with
    ignored characters (or NULs) between the pairs only. *)
Inductive hex_text (ignore : bytes) : bytes -> bytes -> Prop :=
| hex_nil : hex_text ignore [] []
| hex_sep c l v : hexv c = None -> c ∈ ignore \/ zc c = 0 ->
    hex_text ignore l v -> hex_text ignore (c :: l) v
| hex_byte a b x y l v : hexv a = Some x -> hexv b = Some y ->
    hex_text ignore l v -> hex_text ignore (a :: b :: l) (chr (16 * x + y) :: v).

Definition hex_cval (c : ascii) : Z :=
  Z.lor (Z.land (c_num0 (zc c)) (c_num (zc c))) (Z.land (c_alpha0 (zc c)) (c_alpha (zc c))).

(** The bit tricks decode a digit. *)
Lemma hex_class c :
  match hexv c with
  | None => Z.lor (c_num0 (zc c)) (c_alpha0 (zc c)) = 0
  | Some x => Z.lor (c_num0 (zc c)) (c_alpha0 (zc c)) <> 0 /\ hex_cval c = x /\ 0 <= x < 16
  end.
Proof.
  pose proof (all_ascii_spec (fun c =>
    match hexv c with
    | None => Z.lor (c_num0 (zc c)) (c_alpha0 (zc c)) =? 0
    | Some x => negb (Z.lor (c_num0 (zc c)) (c_alpha0 (zc c)) =? 0)
                && (hex_cval c =? x) && (0 <=? x) && (x <? 16)
    end) ltac:(vm_compute; reflexivity) c) as H. cbv beta in H.
  destruct (hexv c); [|lia]. rewrite !andb_true_iff, negb_true_iff in H. lia.
Qed.

Lemma hex_acc x y : 0 <= x < 16 -> 0 <= y < 16 ->
  Z.lor (wrap 8 (x * 16)) y = 16 * x + y.
Proof.
  intros Hx Hy.
  assert (forallb (fun n => forallb (fun m =>
    Z.lor (wrap 8 (Z.of_nat n * 16)) (Z.of_nat m) =? 16 * Z.of_nat n + Z.of_nat m)
    (seq 0 16)) (seq 0 16) = true) as H by (vm_compute; reflexivity).
  rewrite forallb_forall in H. specialize (H (Z.to_nat x) ltac:(apply in_seq; lia)).
  rewrite forallb_forall in H. specialize (H (Z.to_nat y) ltac:(apply in_seq; lia)).
  rewrite !Z2Nat.id in H by lia. lia.
Qed.

Lemma hex_loop_sep c l mx ig b p r a :
  hexv c = None -> c ∈ ig \/ zc c = 0 ->
  hex_loop (c :: l) mx ig (Hex b p r a 0) = hex_loop l mx ig (Hex b (p + 1) r a 0).
Proof.
  intros Hv Hc. cbn [hex_loop h_state]. pose proof (hex_class c) as H. rewrite Hv in H.
  rewrite (proj2 (Z.eqb_eq _ _) H). cbn [Z.eqb andb].
  replace (bool_decide (c ∈ ig) || (zc c =? 0)) with true; [done|].
  symmetry. apply orb_true_iff. rewrite bool_decide_eq_true, Z.eqb_eq. done.
Qed.

Lemma hex_loop_digit c x l mx ig b p r a st :
  hexv c = Some x ->
  hex_loop (c :: l) mx ig (Hex b p r a st)
  = if mx <=? zlen b then Hex b p (-1) a st
    else hex_loop l mx ig
      (if st =? 0 then Hex b (p + 1) r (wrap 8 (x * 16)) (wrap 8 (Z.lnot st))
       else Hex (b ++ [chr (Z.lor a x)]) (p + 1) r a (wrap 8 (Z.lnot st))).
Proof.
  intros Hv. cbn [hex_loop h_state bin hex_pos h_ret c_acc]. pose proof (hex_class c) as H.
  rewrite Hv in H. destruct H as (H1 & H2 & H3).
  rewrite (proj2 (Z.eqb_neq _ _) H1). unfold hex_cval in H2. rewrite H2. done.
Qed.

Lemma hex_loop_byte a b x y l mx ig bs p r acc :
  hexv a = Some x -> hexv b = Some y -> zlen bs < mx ->
  hex_loop (a :: b :: l) mx ig (Hex bs p r acc 0)
  = hex_loop l mx ig (Hex (bs ++ [chr (16 * x + y)]) (p + 2) r (wrap 8 (x * 16)) 0).
Proof.
  intros Ha Hb Hm. rewrite (hex_loop_digit a x) by done.
  rewrite (proj2 (Z.leb_gt _ _)) by lia. cbn [Z.eqb].
  rewrite (hex_loop_digit b y) by done. rewrite (proj2 (Z.leb_gt _ _)) by lia.
  change (wrap 8 (Z.lnot 0)) with 255. cbn [Z.eqb]. change (wrap 8 (Z.lnot 255)) with 0.
  pose proof (hex_class a) as Ca. pose proof (hex_class b) as Cb. rewrite Ha in Ca. rewrite Hb in Cb.
  rewrite hex_acc by lia. by replace (p + 1 + 1) with (p + 2) by lia.
Qed.

Lemma hex_loop_complete ig l v mx :
  hex_text ig l v -> forall b p acc, zlen b + zlen v <= mx ->
  exists acc', hex_loop l mx ig (Hex b p 0 acc 0) = Hex (b ++ v) (p + zlen l) 0 acc' 0.
Proof.
  induction 1 as [|c l v Hv Hc H IH|c d x y l v Hc Hd H IH]; intros b p acc Hm.
  - exists acc. cbn. by rewrite app_nil_r, Z.add_0_r.
  - rewrite hex_loop_sep by done. destruct (IH b (p + 1) acc Hm) as (acc' & ->).
    exists acc'. f_equal. zlia.
  - revert Hm. rewrite zlen_cons. intros Hm. pose proof (zlen_nonneg v).
    rewrite (hex_loop_byte c d x y) by (done || lia).
    destruct (IH (b ++ [chr (16 * x + y)]) (p + 2) (wrap 8 (x * 16))) as (acc' & ->); [zlia|].
    exists acc'. rewrite <- app_assoc. f_equal. zlia.
Qed.

Lemma hex_loop_pos l mx ig s : hex_pos (hex_loop l mx ig s) <= hex_pos s + zlen l.
Proof.
  revert s. induction l as [|c l IH]; intros s; cbn [hex_loop].
  { rewrite (@zlen_nil ascii). lia. }
  rewrite zlen_cons. pose proof (zlen_nonneg l).
  repeat case_match; cbn [hex_pos]; try lia;
    (etransitivity; [apply IH|cbn [hex_pos]; lia]).
Qed.

Lemma hex_loop_sound ig mx n l : (length l <= n)%nat -> forall b p acc,
  let s := hex_loop l mx ig (Hex b p 0 acc 0) in
  h_state s = 0 -> h_ret s = 0 -> hex_pos s = p + zlen l -> zlen b <= mx ->
  exists v, hex_text ig l v /\ bin s = b ++ v /\ zlen b + zlen v <= mx.
Proof.
  revert l. induction n as [|n IH]; intros l Hn b p acc; cbv zeta.
  { destruct l; [|cbn in Hn; lia]. intros _ _ _ Hb. exists []. rewrite app_nil_r.
    split_and!; [constructor|done|]. rewrite (@zlen_nil ascii). lia. }
  destruct l as [|c l].
  { intros _ _ _ Hb. exists []. rewrite app_nil_r. split_and!; [constructor|done|].
    rewrite (@zlen_nil ascii). lia. }
  cbn [length] in Hn. destruct (hexv c) as [x|] eqn:Hc.
  - rewrite (hex_loop_digit c x) by done. destruct (Z.leb_spec mx (zlen b)); [done|].
    cbn [Z.eqb]. destruct l as [|d l]; [done|]. destruct (hexv d) as [y|] eqn:Hd.
    + pose proof (hex_loop_byte c d x y l mx ig b p 0 acc Hc Hd ltac:(lia)) as E.
      rewrite (hex_loop_digit c x) in E by done.
      rewrite (proj2 (Z.leb_gt mx _)) in E by lia. cbn [Z.eqb] in E. rewrite E.
      intros H1 H2 H3 H4.
      destruct (IH l ltac:(cbn in Hn; lia) (b ++ [chr (16 * x + y)]) (p + 2) (wrap 8 (x * 16)))
        as (v & Hv & Ev & Hl); [done|done| |zlia|].
      { rewrite H3. zlia. }
      exists (chr (16 * x + y) :: v). split_and!; [by constructor| |].
      * rewrite Ev. by rewrite <- app_assoc.
      * revert Hl. zlia.
    + cbn [hex_loop h_state hex_pos]. pose proof (hex_class d) as C. rewrite Hd in C.
      rewrite (proj2 (Z.eqb_eq _ _) C). change (wrap 8 (Z.lnot 0)) with 255. cbn [Z.eqb andb].
      done.
  - pose proof (hex_class c) as C. rewrite Hc in C.
    destruct (decide (c ∈ ig \/ zc c = 0)) as [Hs|Hs].
    + rewrite hex_loop_sep by done. intros H1 H2 H3 H4.
      destruct (IH l ltac:(lia) b (p + 1) acc) as (v & Hv & Ev & Hl); [done|done| |done|].
      { rewrite H3. zlia. }
      exists v. split_and!; [by constructor|done|done].
    + cbn [hex_loop h_state]. rewrite (proj2 (Z.eqb_eq _ _) C). cbn [Z.eqb andb].
      replace (bool_decide (c ∈ ig) || (zc c =? 0)) with false.
      * cbn [hex_pos]. rewrite zlen_cons. pose proof (zlen_nonneg l). lia.
      * symmetry. apply orb_false_iff. rewrite bool_decide_eq_false, Z.eqb_neq. tauto.
Qed.

(** ** Properties *)

(** [hex2bin] succeeds with all of its input consumed exactly when the
    input is hexadecimal text (pairs of digits of either case, separators only
    between pairs) for a string that fits, and then it is that string: the
    bit-twiddling digit decoder and its two-state loop are a correct parser. *)
Theorem hex2bin_correct hex mx ignore n v :
  0 <= mx ->
  hex2bin hex mx ignore = (0, n, zlen hex, v)
  <-> hex_text ignore hex v /\ n = zlen v /\ zlen v <= mx.
Proof.
  intros Hmx. unfold hex2bin. split.
  - set (s := hex_loop _ _ _ _). destruct (h_state s =? 0) eqn:Es; cbn [negb]; [|done].
    apply Z.eqb_eq in Es. intros [= Hr Hn Hp Hv]. rewrite Hr in Hn. cbn in Hn.
    destruct (hex_loop_sound ignore mx (length hex) hex ltac:(lia) [] 0 0 Es Hr)
      as (v' & Ht & Ev & Hl); [by rewrite <- Hp|done|].
    cbn [app] in Ev. fold s in Ev. rewrite Hv in Ev. subst v'.
    rewrite Hv in Hn. done.
  - intros (Ht & -> & Hl).
    destruct (hex_loop_complete ignore hex v mx Ht [] 0 0) as (acc & ->);
      [by rewrite (@zlen_nil ascii)|]. done.
Qed.

Lemma hex2bin_correct_witness :
  hex2bin (lit "0aF7: 80") 9 hex_ignore = (0, 3, zlen (lit "0aF7: 80"), map chr [10; 247; 128])
  <-> hex_text hex_ignore (lit "0aF7: 80") (map chr [10; 247; 128])
      /\ 3 = zlen (map chr [10; 247; 128]) /\ zlen (map chr [10; 247; 128]) <= 9.
Proof. apply (hex2bin_correct (lit "0aF7: 80") 9 hex_ignore 3 (map chr [10; 247; 128])). lia. Defined.

(** *** What gets opened *)

Inductive skd_op :=
| SkdGetSharedkey (d : keydir) (ts : clocks) (sid : bytes)
| SkdGetIndirect (d : keydir) (ts : clocks) (name : bytes)
| SkdGetEncodeSid (d : keydir) (ts : clocks)
| SkdMaintenance (now : Z).

Section Confinement.
Context {T : Type} `{HU : UMap bytes (expiring bytes) T} `{HL : !UMapLaws bytes (expiring bytes) T}.
Abbreviation skd := (sharedkeydir (T := T)).

(** A request and what it does; an exception leaves the object usable. *)
Definition skd_step (op : skd_op) (s : skd) : outcome bytes * skd :=
  match op with
  | SkdGetSharedkey d ts sid => get_sharedkey d ts sid s
  | SkdGetIndirect d ts name => get_indirect_sid d ts name s
  | SkdGetEncodeSid d ts => get_encode_sid d ts s
  | SkdMaintenance now => (Ret [], (regular_maintenance now s).2)
  end.

Fixpoint skd_run (ops : list skd_op) (s : skd) : skd :=
  match ops with [] => s | op :: ops => skd_run ops (skd_step op s).2 end.

Definition key_file (f : bytes) : Prop :=
  exists sid, legal_sid sid = true /\ (f = sid ++ suffix \/ f = sid ++ lit ".keyid").

Definition legal_entries (c : expiring_cache (T := T)) : Prop :=
  ec_wf c /\ forall k e, um_map (themap c) !! k = Some e -> legal_sid (e_val e) = true.

Definition skd_inv (s : skd) : Prop :=
  legal_sid (encode_sid_indirect s) = true /\ ec_wf (secret_cache s)
  /\ legal_entries (indirect_cache s) /\ Forall key_file (opened s).

Lemma lookup_wf c k now : ec_wf c -> ec_wf (cache_lookup k now c).2.
Proof.
  intros Hc. destruct (cache_step_inv (OpLookup k now) c Hc) as (c' & [= <-] & ? & _). done.
Qed.

Lemma insert_wf c k v now ttl b c' : ec_wf c ->
  cache_insert_ttl k v now ttl c = Ret (b, c') ->
  ec_wf c' /\ (legal_entries c -> legal_sid v = true -> legal_entries c').
Proof.
  intros Hc Hi. unfold cache_insert_ttl in Hi. inv_ret.
  unfold expiring_ttl in E. inv_ret. subst r.
  destruct (cache_step_inv (OpInsert k (Expiring v r0)) c Hc) as (c1 & E1 & Hc1 & _ & Hin).
  cbn [cache_step] in E1. rewrite Hi in E1. injection E1 as <-.
  split; [done|]. intros [_ Hl] Hv. split; [done|]. intros k' e' Hk'.
  destruct (Hin _ _ Hk') as [Hk|[= <- <-]]; [by eapply Hl|done].
Qed.

Lemma lookup_legal c k now now' : legal_entries c -> tp_min < now' ->
  let e := (cache_lookup k now c).1 in
  legal_entries (cache_lookup k now c).2 /\ (expired e now' = false -> legal_sid (e_val e) = true).
Proof.
  intros [Hc Hl] Hn. cbv zeta. destruct (cache_step_inv (OpLookup k now) c Hc) as (c' & E & ? & _ & Hin).
  injection E as <-. split.
  - split; [done|]. intros k' e' Hk'. destruct (Hin _ _ Hk') as [Hk|]; [by eapply Hl|done].
  - unfold cache_lookup. destruct (um_map (themap c) !! k) eqn:Ek.
    + case_match; cbn [fst]; [unfold expired, expiring_default; cbn; lia|].
      intros _. by eapply Hl.
    + cbn [fst]. unfold expired, expiring_default; cbn; lia.
Qed.

Lemma openat_keeps d f : key_file f -> keeps skd_inv (openat d f) (fun _ => True).
Proof.
  intros Hf. eapply keeps_bind; [apply keeps_modify|intros ? _; by apply keeps_lift].
  intros s (H1 & H2 & H3 & H4). refine (conj _ (conj _ (conj _ _))); try done. by constructor.
Qed.

Lemma refresh_secret_keeps d sid : keeps skd_inv (refresh_secret d sid) (fun _ => True).
Proof.
  unfold refresh_secret. apply keeps_if; [auto with fs123|]. intros Hl.
  eapply keeps_bind.
  { apply openat_keeps. exists sid. rewrite negb_false_iff in Hl. auto. }
  intros content _. cbv zeta. apply keeps_if; [auto with fs123|intros _].
  destruct (hex2bin _ _ _) as [[[st bl] he] v].
  repeat (apply keeps_if; [auto with fs123|intros _]). by apply keeps_ret.
Qed.

Lemma refresh_indirect_keeps d name :
  keeps skd_inv (refresh_indirect d name) (fun r => legal_sid r = true).
Proof.
  unfold refresh_indirect. apply keeps_if; [auto with fs123|]. intros Hl.
  eapply keeps_bind.
  { apply openat_keeps. exists name. rewrite negb_false_iff in Hl. auto. }
  intros content _. cbv zeta. apply keeps_if; [auto with fs123|intros _].
  apply keeps_if; [auto with fs123|intros Hr]. apply keeps_ret. by apply negb_false_iff.
Qed.

Lemma get_sharedkey_keeps d ts sid : keeps skd_inv (get_sharedkey d ts sid) (fun _ => True).
Proof.
  unfold get_sharedkey. apply keeps_if; [auto with fs123|intros _].
  eapply keeps_bind; [apply keeps_get|]. intros s Hs.
  pose proof (lookup_wf (secret_cache s) sid (t_lookup ts) (proj1 (proj2 Hs))) as Hw.
  destruct (cache_lookup _ _ _) as [ex c]. cbn in Hw.
  eapply keeps_bind; [apply keeps_modify|intros _ _].
  { intros s' (H1 & H2 & H3 & H4). by refine (conj _ (conj _ (conj _ _))). }
  apply keeps_if; [intros _; by apply keeps_ret|intros _].
  eapply keeps_bind; [apply refresh_secret_keeps|]. intros ret _.
  eapply keeps_bind; [apply keeps_get|]. intros s1 Hs1.
  eapply keeps_bind; [apply (keeps_lift _ _ (fun r => ec_wf r.2))|].
  { intros [b c'] Hi. destruct Hs1 as (_ & Hw1 & _).
    by destruct (insert_wf _ _ _ _ _ _ _ Hw1 Hi). }
  intros [b c'] Hc'. eapply keeps_bind; [apply keeps_modify|intros _ _; by apply keeps_ret].
  intros s' (H1 & H2 & H3 & H4). by refine (conj _ (conj _ (conj _ _))).
Qed.

Lemma get_indirect_sid_keeps d ts name : tp_min < t_expired ts ->
  keeps skd_inv (get_indirect_sid d ts name) (fun r => legal_sid r = true).
Proof.
  intros Hn. unfold get_indirect_sid. apply keeps_if; [auto with fs123|intros _].
  eapply keeps_bind; [apply keeps_get|]. intros s Hs.
  pose proof (lookup_legal (indirect_cache s) name (t_lookup ts) (t_expired ts)
    ltac:(apply Hs) Hn) as [Hw Hv].
  destruct (cache_lookup _ _ _) as [ex c]. cbn [fst snd] in *.
  eapply keeps_bind; [apply keeps_modify|intros _ _].
  { intros s' (H1 & H2 & H3 & H4). by refine (conj _ (conj _ (conj _ _))). }
  apply keeps_if; [intros He; apply keeps_ret, Hv; by apply negb_true_iff|intros _].
  eapply keeps_bind; [apply refresh_indirect_keeps|]. intros ret Hret.
  eapply keeps_bind; [apply keeps_get|]. intros s1 Hs1.
  eapply keeps_bind; [apply (keeps_lift _ _ (fun r => legal_entries r.2))|].
  { intros [b c'] Hi. destruct Hs1 as (_ & _ & H3 & _).
    destruct (insert_wf _ _ _ _ _ _ _ (proj1 H3) Hi) as [_ Hle]. by apply Hle. }
  intros [b c'] Hc'. eapply keeps_bind; [apply keeps_modify|intros _ _; by apply keeps_ret].
  intros s' (H1 & H2 & H3 & H4). by refine (conj _ (conj _ (conj _ _))).
Qed.

Definition clock_ok (op : skd_op) : Prop :=
  match op with
  | SkdGetSharedkey _ ts _ | SkdGetIndirect _ ts _ | SkdGetEncodeSid _ ts => tp_min < t_expired ts
  | SkdMaintenance _ => True
  end.

Lemma skd_step_inv op s : clock_ok op -> skd_inv s -> skd_inv (skd_step op s).2.
Proof.
  intros Hn Hs. destruct op as [d ts sid|d ts name|d ts|now]; cbn [skd_step].
  - by apply get_sharedkey_keeps.
  - by apply get_indirect_sid_keeps.
  - eapply (keeps_bind skd_inv get _ skd_inv (fun _ => True)); [apply keeps_get| |done].
    intros s' _. eapply keeps_weaken; [by apply get_indirect_sid_keeps|done].
  - cbn. destruct Hs as (H1 & H2 & (H3 & H4) & H5).
    destruct (erase_expired_inv now _ H2) as (? & _ & _).
    destruct (erase_expired_inv now _ H3) as (? & _ & Hsub).
    refine (conj _ (conj _ (conj _ _))); [done|done| |done]. split; [done|]. intros k e Hk.
    eapply H4, lookup_weaken; done.
Qed.

Lemma skd_run_inv ops s : Forall clock_ok ops -> skd_inv s -> skd_inv (skd_run ops s).
Proof.
  intros Hops. revert s. induction Hops as [|op ops Hop Hops IH]; intros s Hs; [done|].
  apply IH. by apply skd_step_inv.
Qed.

Lemma legal_sid_no_slash sid : legal_sid sid = true ->
  ~ ("/"%char ∈ sid) /\ exists c l, sid = c :: l /\ c <> "."%char.
Proof.
  unfold legal_sid. destruct (zlen sid =? 0) eqn:E0; [done|].
  destruct (255 <? zlen sid); [done|]. case_bool_decide; [done|].
  intros H1. split.
  - intros Hin. rewrite forallb_forall in H1.
    by specialize (H1 _ (proj1 (list_elem_of_In _ _) Hin)).
  - destruct sid as [|c l]; [done|]. exists c, l. split; [done|]. by intros ->.
Qed.

Lemma key_file_safe f : key_file f ->
  ~ ("/"%char ∈ f) /\ head f <> Some "."%char.
Proof.
  intros (sid & Hs & Hf). destruct (legal_sid_no_slash sid Hs) as (Hn & c & l & -> & Hc).
  split.
  - intros Hin. destruct Hf as [->| ->]; apply elem_of_app in Hin as [?|Hin]; try done;
      revert Hin; refine (bool_decide_eq_false_1 _ _); vm_compute; reflexivity.
  - destruct Hf as [->| ->]; cbn; by intros [= ->].
Qed.
End Confinement.

(** Confinement of the key directory: a [sharedkeydir] that its
    constructor accepted, whatever requests it then serves, whatever the
    directory holds at each of them and whatever fails, only ever opens
    files whose name has no '/' and does not start with '.', and
    [get_encode_sid] only ever returns a legal sid. *)
Theorem sharedkeydir_confined {T} `{HU : UMap bytes (expiring bytes) T}
    `{HL : !UMapLaws bytes (expiring bytes) T} indirect refresh s0 ops d ts :
  sharedkeydir_ctor (T := T) indirect refresh = Ret s0 ->
  Forall clock_ok ops -> tp_min < t_expired ts ->
  let s := skd_run ops s0 in
  Forall (fun f => ~ ("/"%char ∈ f) /\ head f <> Some "."%char) (opened s)
  /\ forall sid, (get_encode_sid d ts s).1 = Ret sid -> legal_sid sid = true.
Proof.
  intros Hc Hops Hts. unfold sharedkeydir_ctor in Hc. inv_ret. subst s0.
  rewrite negb_false_iff in G.
  assert (ec_wf (cache_ctor (T := T) (V := bytes) 10)) as Hwf.
  { split_and!; cbn; [done|done|]. unfold ec_size. cbn. rewrite um_map_empty, map_size_empty. lia. }
  assert (skd_inv (SKD indirect (cache_ctor (T := T) 10) (cache_ctor 10) refresh [])) as Hinv.
  { refine (conj _ (conj _ (conj _ _))); [done|done| |constructor]. split; [done|]. intros k e. cbn.
    by rewrite um_map_empty. }
  pose proof (skd_run_inv ops _ Hops Hinv) as Hs. cbv zeta. split.
  - destruct Hs as (_ & _ & _ & Hf). revert Hf. apply Forall_impl, key_file_safe.
  - intros sid. apply (keeps_bind skd_inv get _ (fun _ => True) (fun r => legal_sid r = true)).
    + eapply keeps_weaken; [apply keeps_get|done].
    + intros s' _. by apply get_indirect_sid_keeps.
    + done.
Qed.

Definition keydir_ex : keydir := fun f =>
  if bool_decide (f = lit "enc.keyid") then Ret (lit " k1 ")
  else if bool_decide (f = lit "k1.sharedkey") then Ret (lit "00ff")
  else Throw (ESystem 2).

Lemma sharedkeydir_confined_witness :
  exists s0, sharedkeydir_ctor (T := gmap bytes (expiring bytes)) (lit "enc") 10 = Ret s0
  /\ let s := skd_run [SkdGetEncodeSid keydir_ex (Clocks 0 0 0);
                       SkdGetSharedkey keydir_ex (Clocks 1 1 1) (lit "k1");
                       SkdGetSharedkey keydir_ex (Clocks 1 1 1) (lit "../k1")] s0 in
     opened s = [lit "k1.sharedkey"; lit "enc.keyid"]
     /\ Forall (fun f => ~ ("/"%char ∈ f) /\ head f <> Some "."%char) (opened s).
Proof.
  eexists. split; [reflexivity|]. cbv zeta. split; [vm_compute; reflexivity|].
  refine (proj1 (sharedkeydir_confined (T := gmap bytes (expiring bytes)) (lit "enc") 10 _ _
    keydir_ex (Clocks 2 2 2) eq_refl _ _)); [|vm_compute; reflexivity].
  repeat constructor; vm_compute; reflexivity.
Defined.
