(* ===== verification/ContentCodec.v ===== *)
(** * The fs123-secretbox encoding (lib/content_codec.cpp, include/fs123/content_codec.hpp)

    [content_codec::encode] and [decode] work in place in the buffer of a
    [padded_uchar_span] (see [UcharSpan]).  libsodium's [crypto_secretbox],
    [crypto_secretbox_open] and [crypto_generichash] are parameters; what the
    code relies on is stated by the class [SecretboxLaws].  Theorems: [decode]
    of what [encode] made is the plaintext; what [encode] returns has the
    documented wire format; a message that does not authenticate is rejected
    with the buffer untouched. *)

From Stdlib Require Import Ascii String ZArith Lia.
From stdpp Require Import base gmap strings list numbers.
From S2P Require Import Prelude UcharSpan.

#[local] Open Scope Z_scope.

(** ** Content encodings *)

Definition CE_IDENT : Z := 1.
Definition CE_FS123_SECRETBOX : Z := 2.
Definition CE_UNKNOWN : Z := 3.

Definition encoding_stoi (encoding : bytes) : Z :=
  if negb (find_str encoding (lit "fs123-secretbox") 0 =? npos) then CE_FS123_SECRETBOX
  else if bool_decide (encoding = []) || negb (find_str encoding (lit "identity") 0 =? npos)
  then CE_IDENT else CE_UNKNOWN.

Definition encoding_itos (encoding : Z) : outcome bytes :=
  if encoding =? CE_IDENT then Ret []
  else if encoding =? CE_FS123_SECRETBOX then Ret (lit "fs123-secretbox")
  else if encoding =? CE_UNKNOWN then Ret (lit "unknown-encoding")
  else Throw EInvalidArg.

(** ** The header *)

Definition NONCEBYTES : Z := 24.
Definition KEYBYTES : Z := 32.
Definition MACBYTES : Z := 16.
Definition ZEROBYTES : Z := 32.
Definition BOXZEROBYTES : Z := 16.
Definition GENERICHASH_KEYBYTES_MIN : Z := 16.
Definition GENERICHASH_KEYBYTES_MAX : Z := 64.

(** [htonl] on the bytes in memory: most significant first. *)
Definition be32 (n : Z) : bytes :=
  map chr [Z.shiftr n 24; Z.shiftr n 16; Z.shiftr n 8; n].
Definition of_be32 (l : bytes) : Z := fold_left (fun a c => 256 * a + zc c) l 0.

Record fs123_secretbox_header := Hdr { h_nonce : bytes; h_recordsz : Z; h_keyid : bytes }.

(** [offsetof(idlen)] and [offsetof(keyid\[0\])] *)
Definition off_idlen : Z := 28.
Definition off_keyid : Z := 29.

Definition wiresize (h : fs123_secretbox_header) : Z := zlen (h_keyid h) + off_keyid.

(** The encryptor's constructor; the nonce is not initialised yet. *)
Definition hdr_ctor_key (k : bytes) (rsz : Z) : outcome fs123_secretbox_header :=
  let idlen := wrap 8 (zlen k) in
  if idlen =? 0 then Throw ERuntime else
  if negb (idlen =? zlen k) then Throw ERuntime else
  Ret (Hdr [] rsz k).

(** The decryptor's constructor, from the bytes on the wire. *)
Definition hdr_ctor_wire (onwire : bytes) : outcome fs123_secretbox_header :=
  if zlen onwire <? off_idlen then Throw ERuntime else
  c ← sv_idx onwire off_idlen;
  let idlen := zc c in
  if idlen =? 0 then Throw ERuntime else
  let len := idlen + off_keyid in
  if zlen onwire <? len then Throw ERuntime else
  Ret (Hdr (ztake NONCEBYTES onwire) (of_be32 (ztake 4 (zdrop NONCEBYTES onwire)))
         (ztake idlen (zdrop off_keyid onwire))).

(** The first [wiresize()] bytes of the struct. *)
Definition hdr_bytes (h : fs123_secretbox_header) : bytes :=
  h_nonce h ++ be32 (h_recordsz h) ++ [chr (zlen (h_keyid h))] ++ h_keyid h.

(** ** libsodium *)

(** [crypto_secretbox(c, m, mlen, n, k)] gives the [mlen] bytes stored at [c],
    or fails; [crypto_secretbox_open] likewise. *)
Class Secretbox := {
  crypto_secretbox : bytes -> bytes -> bytes -> option bytes;
  crypto_secretbox_open : bytes -> bytes -> bytes -> option bytes;
  crypto_generichash : Z -> bytes -> bytes -> bytes;
}.

(** What libsodium's documentation says: encryption of a message that starts
    with 32 zero bytes succeeds, keeps the length and is undone by opening
    under the same nonce and key, whatever the first 16 bytes of the
    ciphertext buffer hold by then. *)
Class SecretboxLaws `{Secretbox} := {
  secretbox_total m n k : ZEROBYTES <= zlen m -> take 32 m = replicate 32 zero ->
    zlen n = NONCEBYTES -> zlen k = KEYBYTES -> is_Some (crypto_secretbox m n k);
  secretbox_len m n k c : crypto_secretbox m n k = Some c -> zlen c = zlen m;
  secretbox_open m n k c x : crypto_secretbox m n k = Some c ->
    take 32 m = replicate 32 zero -> zlen x = BOXZEROBYTES ->
    crypto_secretbox_open (x ++ drop 16 c) n k = Some m;
  generichash_len n m k : 0 <= n -> zlen (crypto_generichash n m k) = n;
}.

Section Codec.
Context `{SB : Secretbox}.

(** Reading [n] bytes of the buffer. *)
Definition mem_read (off n : Z) : M bytes bytes := fun mem =>
  if (0 <=? off) && (off + n <=? zlen mem) then (Ret (ztake n (zdrop off mem)), mem)
  else (Undef, mem).

Definition bzero (off n : Z) : M bytes unit := memcpy off (replicate (Z.to_nat n) zero).

Definition content_encode (ce : Z) (sid secret : bytes) (input : padded_uchar_span)
    (pad_alignment : Z) (derived_nonce : bool) (random : bytes) : M bytes padded_uchar_span :=
  if ce =? CE_IDENT then mret input else
  if zlen secret <? KEYBYTES then raise ERuntime else
  if negb (ce =? CE_FS123_SECRETBOX) then raise EInvalidArg else
  if pad_alignment =? 0 then lift Undef else
  let padding := pad_alignment - s_len input mod pad_alignment in
  let recordsz := u64 (MACBYTES + s_len input + padding) in
  let msz := u64 (ZEROBYTES + s_len input + padding) in
  hdr ← lift (hdr_ctor_key sid (u32 recordsz));
  if avail_front input <? wiresize hdr + MACBYTES then raise EInvalidArg else
  if avail_back input <? padding then raise EInvalidArg else
  let plaintext := s_off input in
  let c := plaintext - ZEROBYTES in
  bzero c ZEROBYTES ;;
  memcpy (plaintext + s_len input) [chr 2] ;;
  bzero (plaintext + s_len input + 1) (padding - 1) ;;
  nonce ←
    (if derived_nonce then
       let keybytes := zlen secret - KEYBYTES in
       if keybytes <? GENERICHASH_KEYBYTES_MIN then raise ERuntime else
       let keybytes := Z.min keybytes GENERICHASH_KEYBYTES_MAX in
       plain ← mem_read plaintext (s_len input);
       mret (crypto_generichash NONCEBYTES plain (ztake keybytes (zdrop KEYBYTES secret)))
     else mret random);
  let hdr := Hdr nonce (h_recordsz hdr) (h_keyid hdr) in
  if wiresize hdr <? BOXZEROBYTES then raise ERuntime else
  m ← mem_read c msz;
  match crypto_secretbox m nonce (ztake KEYBYTES secret) with
  | None => raise ERuntime
  | Some ct =>
      memcpy c ct ;;
      memcpy (plaintext - MACBYTES - wiresize hdr) (hdr_bytes hdr) ;;
      lift (subspan input (- (MACBYTES + wiresize hdr)) (u64 (recordsz + wiresize hdr)))
  end.

(** [while(pend > plainstart && *--pend == '\0');] *)
Fixpoint pad_loop (fuel : nat) (mem : bytes) (plainstart pend : Z) : outcome Z :=
  if plainstart <? pend then
    c ← sv_idx mem (pend - 1);
    if zc c =? 0 then
      match fuel with O => Undef | S fuel => pad_loop fuel mem plainstart (pend - 1) end
    else Ret (pend - 1)
  else Ret pend.

Definition content_decode (ce : Z) (message : padded_uchar_span)
    (get_sharedkey : bytes -> outcome bytes) : M bytes padded_uchar_span :=
  if ce =? CE_IDENT then mret message else
  if ce =? CE_UNKNOWN then raise ERuntime else
  if negb (ce =? CE_FS123_SECRETBOX) then raise ELogic else
  onwire ← mem_read (s_off message) (s_len message);
  hdr ← lift (hdr_ctor_wire onwire);
  let ciphertext_len := h_recordsz hdr in
  if negb (ciphertext_len =? u64 (s_len message - wiresize hdr)) then raise ERuntime else
  key ← lift (get_sharedkey (h_keyid hdr));
  if zlen key <? KEYBYTES then raise ERuntime else
  let cstart := s_off message + wiresize hdr in
  let padded_cstart := cstart - BOXZEROBYTES in
  let padded_len := ciphertext_len + BOXZEROBYTES in
  let plainstart := padded_cstart + ZEROBYTES in
  c ← mem_read padded_cstart padded_len;
  match crypto_secretbox_open c (h_nonce hdr) (ztake KEYBYTES key) with
  | None => raise ERuntime
  | Some m =>
      memcpy padded_cstart m ;;
      mem ← get;
      pend ← lift (pad_loop (length mem) mem plainstart (cstart + h_recordsz hdr));
      x ← lift (sv_idx mem pend);
      if negb (zc x =? 2) then raise ERuntime else
      lift (padded_uchar_span_ctor (s_off message) (s_len message)
              (plainstart - s_off message) (u64 (pend - plainstart)))
  end.
End Codec.

(** ** Lemmas *)

Lemma be32_length n : zlen (be32 n) = 4.
Proof. reflexivity. Qed.

Lemma of_be32_be32 n : 0 <= n < 2 ^ 32 -> of_be32 (be32 n) = n.
Proof.
  intros Hn. unfold of_be32, be32. cbn [map fold_left].
  assert (forall x, zc (chr x) = x mod 256) as Hc.
  { intros x. unfold chr. rewrite <- (zc_chr (x mod 256)) at 2.
    - unfold chr. by rewrite Z.mod_mod.
    - apply Z.mod_pos_bound. lia. }
  rewrite !Hc, !Z.shiftr_div_pow2 by lia. Z.to_euclidean_division_equations. lia.
Qed.

Lemma mem_read_at a x b off n :
  off = zlen a -> n = zlen x -> mem_read off n (a ++ x ++ b) = (Ret x, a ++ x ++ b).
Proof.
  intros -> ->. unfold mem_read. rewrite (proj2 (Z.leb_le 0 _)) by auto with fs123.
  rewrite (proj2 (Z.leb_le _ _)) by zlia. cbn [andb].
  by rewrite zdrop_app, ztake_app.
Qed.

Lemma zlen_hdr_bytes h : zlen (h_nonce h) = NONCEBYTES -> zlen (hdr_bytes h) = wiresize h.
Proof.
  intros E. unfold hdr_bytes, wiresize, off_keyid. zlen_simpl. rewrite E, be32_length.
  unfold NONCEBYTES. lia.
Qed.

(** The decryptor's constructor reads back the struct. *)
Lemma hdr_wire_roundtrip h rest :
  zlen (h_nonce h) = NONCEBYTES -> 0 < zlen (h_keyid h) < 256 -> 0 <= h_recordsz h < 2 ^ 32 ->
  hdr_ctor_wire (hdr_bytes h ++ rest) = Ret h.
Proof.
  intros Hn Hk Hr. unfold hdr_ctor_wire. pose proof (zlen_nonneg rest).
  pose proof (zlen_hdr_bytes h Hn) as Hl. unfold wiresize, off_keyid in Hl.
  rewrite zlen_app, Hl. unfold off_idlen, off_keyid.
  rewrite (proj2 (Z.ltb_ge _ _)) by lia.
  assert (hdr_bytes h ++ rest =
    (h_nonce h ++ be32 (h_recordsz h)) ++ chr (zlen (h_keyid h)) :: (h_keyid h ++ rest)) as E.
  { unfold hdr_bytes. by rewrite <- !app_assoc. }
  unfold NONCEBYTES in *.
  assert (sv_idx (hdr_bytes h ++ rest) 28 = Ret (chr (zlen (h_keyid h)))) as ->.
  { rewrite E. unfold sv_idx. rewrite zget_app_mid; [done|]. zlen_simpl. rewrite be32_length. lia. }
  cbn [mbind outcome_bind]. rewrite zc_chr by lia.
  rewrite (proj2 (Z.eqb_neq _ _)) by lia. rewrite (proj2 (Z.ltb_ge _ _)) by lia.
  f_equal. destruct h as [n r k]. cbn [h_nonce h_recordsz h_keyid] in *. f_equal.
  - rewrite E, <- app_assoc. by apply ztake_app.
  - rewrite E, <- app_assoc. rewrite zdrop_app by done. rewrite ztake_app by done.
    by apply of_be32_be32.
  - rewrite E. change (chr (zlen k) :: k ++ rest) with ([chr (zlen k)] ++ k ++ rest).
    rewrite app_assoc, zdrop_app by (zlen_simpl; rewrite be32_length; lia).
    by apply ztake_app.
Qed.

(** Scanning the padding backwards. *)
Lemma pad_loop_pads fuel a d n b plainstart :
  plainstart <= zlen a -> (n < fuel)%nat -> zc d <> 0 ->
  pad_loop fuel (a ++ d :: replicate n zero ++ b) plainstart (zlen a + 1 + Z.of_nat n)
  = Ret (zlen a).
Proof.
  revert n b. induction fuel as [|fuel IH]; intros n b Hp Hn Hd; [lia|].
  cbn [pad_loop]. rewrite (proj2 (Z.ltb_lt _ _)) by lia. destruct n as [|n].
  - replace (zlen a + 1 + Z.of_nat 0 - 1) with (zlen a) by lia. unfold sv_idx.
    rewrite zget_app_mid by done. cbn [mbind outcome_bind]. by rewrite (proj2 (Z.eqb_neq _ _)).
  - assert (a ++ d :: replicate (S n) zero ++ b
            = (a ++ d :: replicate n zero) ++ zero :: b) as E.
    { rewrite <- app_assoc. cbn [app]. rewrite replicate_S_end, <- app_assoc. done. }
    unfold sv_idx. rewrite E, zget_app_mid.
    + cbn [mbind outcome_bind]. cbn [Z.eqb]. change (zc zero =? 0) with true. cbv iota.
      replace (zlen a + 1 + Z.of_nat (S n) - 1) with (zlen a + 1 + Z.of_nat n) by lia.
      specialize (IH n (zero :: b) Hp ltac:(lia) Hd). rewrite <- IH. f_equal.
      rewrite <- app_assoc. done.
    + zlia.
Qed.

Lemma memcpy_shape mem off a x b src :
  mem = a ++ x ++ b -> off = zlen a -> zlen src = zlen x ->
  memcpy off src mem = (Ret tt, a ++ src ++ b).
Proof. intros -> ? ?. by apply memcpy_at. Qed.

Lemma mem_read_shape mem off n a x b :
  mem = a ++ x ++ b -> off = zlen a -> n = zlen x -> mem_read off n mem = (Ret x, mem).
Proof. intros -> ? ?. by apply mem_read_at. Qed.

(** The padding: 0x2 and zeros, as many as align the record. *)
Definition pad_bytes (padding : Z) : bytes := chr 2 :: replicate (Z.to_nat (padding - 1)) zero.

Lemma zlen_pad_bytes p : 1 <= p -> zlen (pad_bytes p) = p.
Proof. intros. unfold pad_bytes. rewrite zlen_cons, zlen_replicate. lia. Qed.

Definition zeros32 : bytes := replicate 32 zero.

Section CodecLemmas.
Context `{SB : Secretbox} {SL : SecretboxLaws}.

(** What [encode] needs, as its tests say. *)
Record encodable (sid secret : bytes) (input : padded_uchar_span) (align : Z)
    (derived : bool) (random : bytes) : Prop := {
  en_sid : 0 < zlen sid < 256;
  en_secret : KEYBYTES + (if derived then GENERICHASH_KEYBYTES_MIN else 0) <= zlen secret;
  en_align : 0 < align;
  en_size : MACBYTES + s_len input + align < 2 ^ 32;
  en_front : zlen sid + off_keyid + MACBYTES <= avail_front input;
  en_back : align - s_len input mod align <= avail_back input;
  en_random : zlen random = NONCEBYTES;
}.

Definition the_nonce (derived : bool) (secret plain random : bytes) : bytes :=
  if derived
  then crypto_generichash NONCEBYTES plain
         (ztake (Z.min (zlen secret - KEYBYTES) GENERICHASH_KEYBYTES_MAX) (zdrop KEYBYTES secret))
  else random.

Lemma the_nonce_len derived secret plain random :
  zlen random = NONCEBYTES -> zlen (the_nonce derived secret plain random) = NONCEBYTES.
Proof. intros. unfold the_nonce. destruct derived; [by apply generichash_len|done]. Qed.

Lemma encode_nonce sid secret input align derived random plain0 mem :
  encodable sid secret input align derived random ->
  mem_read (s_off input) (s_len input) mem = (Ret plain0, mem) ->
  (if derived then
     if zlen secret - KEYBYTES <? GENERICHASH_KEYBYTES_MIN then raise ERuntime else
     plain ← mem_read (s_off input) (s_len input);
     mret (crypto_generichash NONCEBYTES plain
             (ztake (Z.min (zlen secret - KEYBYTES) GENERICHASH_KEYBYTES_MAX)
                (zdrop KEYBYTES secret)))
   else mret random) mem
  = (Ret (the_nonce derived secret plain0 random), mem).
Proof.
  intros He Hm. pose proof (en_secret _ _ _ _ _ _ He). unfold the_nonce.
  destruct derived; [|done]. rewrite (proj2 (Z.ltb_ge _ _)) by lia.
  by rewrite (M_bind_Ret _ _ _ _ _ Hm).
Qed.

(** What [encode] writes and returns. *)
Lemma content_encode_layout sid secret input align derived random a h1 h2 data q0 q b :
  let mem := a ++ h1 ++ h2 ++ data ++ q0 :: q ++ b in
  let padding := align - s_len input mod align in
  let n := the_nonce derived secret data random in
  encodable sid secret input align derived random -> span_wf mem input ->
  zlen (a ++ h1 ++ h2) = s_off input -> zlen h2 = 32 -> zlen h1 = zlen sid + 13 ->
  zlen data = s_len input -> zlen q = padding - 1 ->
  exists ct, crypto_secretbox (zeros32 ++ data ++ pad_bytes padding) n (ztake KEYBYTES secret) = Some ct
    /\ content_encode CE_FS123_SECRETBOX sid secret input align derived random mem
      = (Ret (Span (bb_off input) (bb_len input) (zlen a)
                (zlen sid + off_keyid + MACBYTES + s_len input + padding)),
         a ++ hdr_bytes (Hdr n (MACBYTES + s_len input + padding) sid) ++ drop 16 ct ++ b).
Proof.
  intros mem padding n He Hwf Hoff Hh2 Hh1 Hdata Hq.
  pose proof He as [H1 H2 H3 H4 H5 H6 H7].
  unfold MACBYTES, off_keyid, KEYBYTES, ZEROBYTES, GENERICHASH_KEYBYTES_MIN in *.
  pose proof (Z.mod_pos_bound (s_len input) align H3).
  assert (1 <= padding) by (unfold padding; lia).
  pose proof (zlen_nonneg data).
  destruct (secretbox_total (zeros32 ++ data ++ pad_bytes padding) n (ztake 32 secret))
    as [ct Ect]; [|done|by apply the_nonce_len| |].
  { unfold ZEROBYTES, zeros32. zlia. }
  { rewrite zlen_ztake; [|lia]. unfold KEYBYTES. destruct derived; lia. }
  exists ct. split; [done|]. unfold content_encode.
  change (CE_FS123_SECRETBOX =? CE_IDENT) with false. cbv iota.
  rewrite (proj2 (Z.ltb_ge (zlen secret) KEYBYTES)) by (unfold KEYBYTES; destruct derived; lia).
  change (negb (CE_FS123_SECRETBOX =? CE_FS123_SECRETBOX)) with false. cbv iota.
  rewrite (proj2 (Z.eqb_neq align 0)) by lia. cbv zeta. fold padding.
  unfold MACBYTES, ZEROBYTES.
  rewrite (wrap_small 64 (16 + _ + _)), (wrap_small 64 (32 + _ + _)),
    (wrap_small 32 (16 + _ + _)) by lia.
  assert (hdr_ctor_key sid (16 + s_len input + padding)
          = Ret (Hdr [] (16 + s_len input + padding) sid)) as Ehdr.
  { unfold hdr_ctor_key. rewrite wrap_small by lia. rewrite (proj2 (Z.eqb_neq _ _)) by lia.
    by rewrite Z.eqb_refl. }
  erewrite M_bind_Ret by (unfold lift; rewrite Ehdr; reflexivity).
  unfold wiresize. cbn [h_keyid h_recordsz]. unfold off_keyid.
  rewrite (proj2 (Z.ltb_ge (avail_front _) _)), (proj2 (Z.ltb_ge (avail_back _) _)) by lia.
  revert Hoff. zlen_simpl. intros Hoff.
  assert (s_off input - 32 = zlen (a ++ h1)) as Ec by zlia.
  erewrite M_bind_Ret;
    [|apply (memcpy_shape _ _ (a ++ h1) h2 (data ++ q0 :: q ++ b));
        [unfold mem; assoc|done|rewrite zlen_replicate; done]].
  change (Z.to_nat 32) with 32%nat. fold zeros32.
  assert (zlen zeros32 = 32) as Hz by reflexivity.
  erewrite M_bind_Ret;
    [|apply (memcpy_shape _ _ ((a ++ h1) ++ zeros32 ++ data) [q0] (q ++ b));
        [assoc|zlia|done]].
  erewrite M_bind_Ret;
    [|apply (memcpy_shape _ _ ((a ++ h1) ++ zeros32 ++ data ++ [chr 2]) q b);
        [assoc|zlen_simpl; change (zlen [chr 2]) with 1; lia
        |rewrite zlen_replicate; lia]].
  assert ((((a ++ h1) ++ zeros32 ++ data ++ [chr 2])
            ++ replicate (Z.to_nat (padding - 1)) zero ++ b)
          = (a ++ h1) ++ (zeros32 ++ data ++ pad_bytes padding) ++ b) as ->
    by (unfold pad_bytes; assoc).
  set (msg := zeros32 ++ data ++ pad_bytes padding) in *.
  assert (zlen msg = 32 + s_len input + padding) as Hmsg.
  { unfold msg. rewrite !zlen_app, zlen_pad_bytes by lia. lia. }
  erewrite M_bind_Ret.
  2: { apply (encode_nonce sid secret input align derived random data); [done|].
       apply (mem_read_shape _ _ _ ((a ++ h1) ++ zeros32) data (pad_bytes padding ++ b));
         [unfold msg; assoc|zlia|done]. }
  fold n. cbn [h_keyid]. unfold BOXZEROBYTES. rewrite (proj2 (Z.ltb_ge _ 16)) by lia.
  erewrite M_bind_Ret;
    [|apply (mem_read_shape _ _ _ (a ++ h1) msg b); [done|done|lia]].
  unfold KEYBYTES. rewrite Ect. pose proof (secretbox_len _ _ _ _ Ect) as Hct.
  erewrite M_bind_Ret; [|apply (memcpy_shape _ _ (a ++ h1) msg b); [done|done|done]].
  set (h := Hdr n (16 + s_len input + padding) sid).
  assert (zlen n = NONCEBYTES) as Hn by by apply the_nonce_len.
  assert (zlen (hdr_bytes h) = zlen sid + 29) as Hhb by (by rewrite zlen_hdr_bytes).
  erewrite M_bind_Ret;
    [|apply (memcpy_shape _ _ a (h1 ++ take 16 ct) (drop 16 ct ++ b))].
  2: { rewrite <- (take_drop 16 ct) at 1. assoc. }
  2: { zlia. }
  2: { rewrite Hhb, zlen_app. unfold zlen at 3. rewrite length_take. unfold zlen in *. lia. }
  unfold lift. f_equal. destruct Hwf as (Hbb & W1 & W2 & W3).
  pose proof Hbb as (B1 & B2 & B3 & B4).
  assert (bb_len input < 2 ^ 62) as W4 by (clear - W1 W2 W3; lia).
  unfold avail_front, avail_back in H5, H6.
  rewrite (wrap_small 64 (bb_len input - avail_front input - s_len input)) in H6
    by (unfold avail_front; clear - B1 B2 B3 B4 W4; lia).
  unfold avail_front in H6.
  rewrite (wrap_small 64) by lia. rewrite subspan_spec by (done || lia).
  unfold avail_front. rewrite (proj2 (Z.ltb_ge _ 0)), (proj2 (Z.ltb_ge (bb_len input) _)) by lia.
  cbn [orb]. do 2 f_equal; lia.
Qed.

(** What [decode] makes of a message with that layout. *)
Lemma content_decode_layout sid secret n a data ct b padding bbo bbl get_key :
  let rsz := MACBYTES + zlen data + padding in
  let h := Hdr n rsz sid in
  1 <= padding -> rsz < 2 ^ 32 -> zlen n = NONCEBYTES -> 0 < zlen sid < 256 ->
  KEYBYTES <= zlen secret -> get_key sid = Ret secret ->
  crypto_secretbox (zeros32 ++ data ++ pad_bytes padding) n (ztake KEYBYTES secret) = Some ct ->
  let mem := a ++ hdr_bytes h ++ drop 16 ct ++ b in
  zlen mem < 2 ^ 62 ->
  let msg := Span bbo bbl (zlen a) (wiresize h + rsz) in
  exists mem', content_decode CE_FS123_SECRETBOX msg get_key mem
    = (Ret (Span (zlen a) (wiresize h + rsz) (zlen a + wiresize h + MACBYTES) (zlen data)), mem')
    /\ contents mem' (Span (zlen a) (wiresize h + rsz) (zlen a + wiresize h + MACBYTES) (zlen data)) = data.
Proof.
  intros rsz h Hp Hr Hn Hsid Hkey Hget Ect mem Hmem msg.
  pose proof (zlen_nonneg data). pose proof (zlen_nonneg a).
  pose proof (secretbox_len _ _ _ _ Ect) as Hct.
  rewrite !zlen_app, zlen_pad_bytes in Hct by lia. change (zlen zeros32) with 32 in Hct.
  assert (wiresize h = zlen sid + 29) as Hw by reflexivity.
  assert (zlen (hdr_bytes h) = zlen sid + 29) as Hhb by (by rewrite zlen_hdr_bytes).
  assert (zlen (drop 16 ct) = rsz) as Hd.
  { unfold zlen. rewrite length_drop. unfold rsz, MACBYTES, zlen in *. lia. }
  unfold content_decode.
  change (CE_FS123_SECRETBOX =? CE_IDENT) with false.
  change (CE_FS123_SECRETBOX =? CE_UNKNOWN) with false.
  change (negb (CE_FS123_SECRETBOX =? CE_FS123_SECRETBOX)) with false. cbv iota.
  erewrite M_bind_Ret;
    [|apply (mem_read_shape _ _ _ a (hdr_bytes h ++ drop 16 ct) b);
      [unfold mem; assoc|done|cbn [s_len msg]; zlia]].
  assert (0 <= rsz) as Hrsz by (unfold rsz, MACBYTES; lia).
  erewrite M_bind_Ret by (unfold lift; rewrite hdr_wire_roundtrip by done; reflexivity).
  cbn [s_len s_off h_recordsz h_keyid h_nonce msg h]. fold h. cbv zeta.
  rewrite (wrap_small 64) by lia.
  replace (wiresize h + rsz - wiresize h) with rsz by lia. rewrite Z.eqb_refl. cbn [negb].
  erewrite M_bind_Ret by (unfold lift; rewrite Hget; reflexivity).
  rewrite (proj2 (Z.ltb_ge _ _)) by lia. unfold BOXZEROBYTES, ZEROBYTES.
  destruct (ztake_zdrop_split (hdr_bytes h) (zlen sid + 13)) as (hb1 & hb2 & Ehb & Eh1); [lia|].
  assert (zlen hb2 = 16) as Eh2 by (rewrite Ehb, zlen_app in Hhb; lia).
  erewrite M_bind_Ret;
    [|apply (mem_read_shape _ _ _ (a ++ hb1) (hb2 ++ drop 16 ct) b);
      [unfold mem; rewrite Ehb; assoc|zlia|zlia]].
  rewrite (secretbox_open _ _ _ _ hb2 Ect) by (done || reflexivity).
  erewrite M_bind_Ret;
    [|apply (memcpy_shape _ _ (a ++ hb1) (hb2 ++ drop 16 ct) b);
      [unfold mem; rewrite Ehb; assoc|zlia
      |rewrite !zlen_app, zlen_pad_bytes, Hd by lia; change (zlen zeros32) with 32;
       unfold rsz, MACBYTES; lia]].
  erewrite M_bind_Ret by reflexivity.
  set (m2 := (a ++ hb1) ++ _ ++ b).
  assert (m2 = ((a ++ hb1 ++ zeros32) ++ data) ++ chr 2 ::
                 replicate (Z.to_nat (padding - 1)) zero ++ b) as Em2
    by (unfold m2, pad_bytes; assoc).
  assert (zlen (a ++ hb1 ++ zeros32) = zlen a + wiresize h + 16) as Ep
    by (rewrite !zlen_app; change (zlen zeros32) with 32; lia).
  erewrite M_bind_Ret.
  2: { unfold lift. rewrite Em2.
       replace (zlen a + wiresize h + rsz)
         with (zlen ((a ++ hb1 ++ zeros32) ++ data) + 1 + Z.of_nat (Z.to_nat (padding - 1)))
         by (rewrite zlen_app, Ep; unfold rsz, MACBYTES; lia).
       rewrite pad_loop_pads; [reflexivity| | |done].
       - rewrite zlen_app, Ep. lia.
       - rewrite !length_app. cbn [length]. rewrite length_app, length_replicate. lia. }
  erewrite M_bind_Ret
    by (unfold lift, sv_idx; rewrite Em2, zget_app_mid by done; reflexivity).
  change (negb (zc (chr 2) =? 2)) with false. cbv iota.
  rewrite zlen_app, Ep. unfold lift. exists m2. split.
  - f_equal; [|by rewrite Em2]. unfold padded_uchar_span_ctor, dynamic_extent, npos.
    unfold rsz, MACBYTES in *.
    rewrite (proj2 (Z.ltb_ge _ _)) by lia. rewrite (wrap_small 64 (_ - _)) by lia.
    rewrite (proj2 (Z.eqb_neq _ _)) by lia. cbn [negb andb].
    rewrite wrap_small by lia. rewrite (proj2 (Z.ltb_ge _ _)) by lia.
    do 2 f_equal; lia.
  - rewrite Em2, <- app_assoc. apply contents_at; cbn [s_off s_len]; [|done].
    rewrite Ep. unfold MACBYTES. lia.
Qed.
(** [encode] on a well-formed window: the message it leaves in the buffer. *)
Lemma content_encode_ok sid secret input align derived random mem :
  encodable sid secret input align derived random -> span_wf mem input ->
  let data := contents mem input in
  let padding := align - s_len input mod align in
  let rsz := MACBYTES + zlen data + padding in
  let h := Hdr (the_nonce derived secret data random) rsz sid in
  exists a ct b,
    crypto_secretbox (zeros32 ++ data ++ pad_bytes padding) (h_nonce h) (ztake KEYBYTES secret) = Some ct
    /\ content_encode CE_FS123_SECRETBOX sid secret input align derived random mem
      = (Ret (Span (bb_off input) (bb_len input) (zlen a) (wiresize h + rsz)),
         a ++ hdr_bytes h ++ drop 16 ct ++ b)
    /\ 1 <= padding /\ zlen data = s_len input /\ zlen (drop 16 ct) = rsz
    /\ zlen (a ++ hdr_bytes h ++ drop 16 ct ++ b) < 2 ^ 62.
Proof.
  intros He Hwf. pose proof He as [H1 H2 H3 H4 H5 H6 H7]. cbv zeta.
  pose proof Hwf as (Hbb & W1 & W2 & W3). pose proof Hbb as (B1 & B2 & B3 & B4).
  destruct (contents_split mem input Hwf) as (ah & qb & Em & Eah & Ec).
  remember (contents mem input) as data eqn:Hdata. clear Hdata.
  pose proof (Z.mod_pos_bound (s_len input) align H3).
  assert (bb_len input < 2 ^ 62) as W4 by lia.
  unfold avail_back in H6. rewrite wrap_small in H6 by (unfold avail_front; lia).
  unfold avail_front, off_keyid, MACBYTES in *.
  destruct (ztake_zdrop_split ah (s_off input - (zlen sid + 45))) as (a & h & -> & Ea);
    [lia|]. rewrite zlen_app in Eah.
  destruct (ztake_zdrop_split h (zlen sid + 13)) as (h1 & h2 & -> & Eh1); [lia|].
  rewrite zlen_app in Eah. rewrite Em, !zlen_app in W2.
  rewrite Ec. set (padding := align - s_len input mod align) in *.
  destruct (ztake_zdrop_split qb padding) as (q & b & -> & Eq); [lia|].
  destruct q as [|q0 q]; [rewrite (@zlen_nil ascii) in Eq; lia|].
  rewrite zlen_cons in Eq.
  assert (mem = a ++ h1 ++ h2 ++ data ++ q0 :: q ++ b) as Em' by (rewrite Em; assoc).
  destruct (content_encode_layout sid secret input align derived random a h1 h2 data q0 q b)
    as (ct & Ect & Eenc); [done|by rewrite <- Em'|zlia|lia|lia|lia|fold padding; lia|].
  fold padding in Ect, Eenc. rewrite <- Em' in Eenc.
  pose proof (secretbox_len _ _ _ _ Ect) as Hct.
  rewrite !zlen_app, zlen_pad_bytes in Hct by lia. change (zlen zeros32) with 32 in Hct.
  assert (zlen (the_nonce derived secret data random) = NONCEBYTES) as Hn by by apply the_nonce_len.
  assert (zlen (drop 16 ct) = zlen ct - 16) as Hd
    by (unfold zlen; rewrite length_drop; unfold zlen in *; lia).
  exists a, ct, b. split; [exact Ect|]. split.
  { unfold MACBYTES, off_keyid in Eenc. rewrite Eenc. unfold wiresize, off_keyid. cbn [h_keyid].
    do 3 f_equal. lia. }
  split; [lia|]. split; [done|]. split; [lia|].
  rewrite !zlen_app, zlen_hdr_bytes, Hd by done. unfold wiresize, off_keyid. cbn [h_keyid].
  rewrite Em', !zlen_app, zlen_cons, zlen_app in W3. lia.
Qed.
End CodecLemmas.

(** ** Properties *)

(** [decode] inverts [encode] in place: on any well-formed window with
    room for the header, the MAC and the padding, [encode] returns a message,
    and [decode] of that message in the resulting buffer, with a key lookup
    that gives the same secret for the same id, returns a window showing
    exactly the plaintext, for random and derived nonces alike. *)
Theorem codec_roundtrip `{SB : Secretbox} {SL : SecretboxLaws} sid secret input align derived random
    get_key mem :
  encodable sid secret input align derived random -> span_wf mem input ->
  get_key sid = Ret secret ->
  exists msg mem1 plain mem2,
    content_encode CE_FS123_SECRETBOX sid secret input align derived random mem = (Ret msg, mem1)
    /\ content_decode CE_FS123_SECRETBOX msg get_key mem1 = (Ret plain, mem2)
    /\ contents mem2 plain = contents mem input.
Proof.
  intros He Hwf Hget. pose proof He as [H1 H2 H3 H4 H5 H6 H7].
  destruct (content_encode_ok sid secret input align derived random mem He Hwf)
    as (a & ct & b & Ect & Eenc & Hp & Ec & Hd & Hlen).
  pose proof (Z.mod_pos_bound (s_len input) align H3).
  destruct (content_decode_layout sid secret (the_nonce derived secret (contents mem input) random)
      a (contents mem input) ct b (align - s_len input mod align) (bb_off input) (bb_len input) get_key)
    as (mem2 & Edec & Econt); [done|lia|by apply the_nonce_len|done| |done|done|done|].
  { unfold KEYBYTES, GENERICHASH_KEYBYTES_MIN in *. destruct derived; lia. }
  eexists _, _, _, mem2. split; [exact Eenc|]. split; [exact Edec|exact Econt].
Qed.

(** A toy cipher for the witnesses: nothing is hidden, the tag is the nonce's
    first 16 bytes and the key's. *)
#[export] Instance toy_box : Secretbox := {
  crypto_secretbox m n k :=
    if bool_decide (take 32 m = replicate 32 zero)
    then Some (replicate 16 zero ++ take 16 (n ++ replicate 16 zero) ++ drop 32 m) else None;
  crypto_secretbox_open c n k :=
    if bool_decide (take 16 (drop 16 c) = take 16 (n ++ replicate 16 zero))
    then Some (replicate 32 zero ++ drop 32 c) else None;
  crypto_generichash n m k := replicate (Z.to_nat n) zero;
}.

#[export] Instance toy_box_laws : SecretboxLaws.
Proof.
  assert (forall (n : bytes) l, length (take 16 (n ++ replicate 16 zero) ++ l) = (16 + length l)%nat) as Hl.
  { intros n l. rewrite length_app, length_take, length_app, length_replicate. lia. }
  split; cbn [crypto_secretbox crypto_secretbox_open crypto_generichash toy_box].
  - intros m n k _ Hm _ _. rewrite bool_decide_eq_true_2 by done. eauto.
  - intros m n k c. case_bool_decide as Hm; [|done]. intros E. apply (inj Some) in E as <-.
    apply (f_equal length) in Hm. rewrite length_take, length_replicate in Hm.
    unfold zlen. f_equal. rewrite length_app, length_replicate, Hl, length_drop. lia.
  - intros m n k c x. case_bool_decide as Hm; [|done]. intros E _ Hx.
    apply (inj Some) in E as <-.
    assert (length x = 16%nat) as Hx' by (unfold zlen, BOXZEROBYTES in Hx; lia).
    rewrite (drop_app_length' (replicate 16 zero)) by done.
    rewrite (drop_app_length' x) by done.
    rewrite (take_app_length' (take 16 (n ++ _)))
      by (rewrite length_take, length_app, length_replicate; lia).
    rewrite bool_decide_eq_true_2 by done. f_equal.
    rewrite app_assoc, (drop_app_length' (x ++ _)).
    + rewrite <- Hm. apply take_drop.
    + rewrite length_app, length_take, length_app, length_replicate. lia.
  - intros n m k Hn. rewrite zlen_replicate. lia.
Qed.

Definition codec_ex_secret : bytes := replicate 48 "k"%char.
Definition codec_ex_mem : bytes := replicate 60 "."%char ++ lit "hello" ++ replicate 20 "."%char.

Lemma codec_roundtrip_witness :
  exists msg mem1 plain mem2,
    content_encode CE_FS123_SECRETBOX (lit "key1") codec_ex_secret (Span 0 85 60 5) 8 true
      (replicate 24 "r"%char) codec_ex_mem = (Ret msg, mem1)
    /\ content_decode CE_FS123_SECRETBOX msg (fun _ => Ret codec_ex_secret) mem1 = (Ret plain, mem2)
    /\ contents mem2 plain = contents codec_ex_mem (Span 0 85 60 5).
Proof.
  apply (codec_roundtrip (lit "key1") codec_ex_secret (Span 0 85 60 5) 8 true
           (replicate 24 "r"%char) (fun _ => Ret codec_ex_secret) codec_ex_mem).
  - split; vm_compute; intuition discriminate.
  - unfold span_wf, in_bb. vm_compute. intuition discriminate.
  - reflexivity.
Defined.

(** A message whose box does not open is refused, and the buffer it
    arrived in is not modified: no byte of a forged ciphertext is ever
    interpreted.  (A message of exactly 28 bytes is excluded: see
    [decode_28_bytes].  After a successful open the guarantee ends: see
    [decode_bad_padding_modifies].) *)
Theorem content_decode_forged `{SB : Secretbox} msg get_key mem :
  (forall n k c, crypto_secretbox_open c n k = None) ->
  0 <= s_off msg -> 0 <= s_len msg -> s_len msg <> off_idlen ->
  s_off msg + s_len msg <= zlen mem < 2 ^ 62 ->
  BOXZEROBYTES <= s_off msg + off_keyid ->
  (forall k, get_key k <> Undef) ->
  exists e, content_decode CE_FS123_SECRETBOX msg get_key mem = (Throw e, mem).
Proof.
  intros Hopen Ho Hl H28 Hm Hb Hk. unfold content_decode.
  change (CE_FS123_SECRETBOX =? CE_IDENT) with false.
  change (CE_FS123_SECRETBOX =? CE_UNKNOWN) with false.
  change (negb (CE_FS123_SECRETBOX =? CE_FS123_SECRETBOX)) with false. cbv iota.
  assert (forall off n, 0 <= off -> off + n <= zlen mem -> 0 <= n ->
     mem_read off n mem = (Ret (ztake n (zdrop off mem)), mem)) as Hread.
  { intros off n H1 H2 H3. unfold mem_read. by rewrite (proj2 (Z.leb_le 0 _)), (proj2 (Z.leb_le _ _)). }
  rewrite (M_bind_Ret _ _ _ _ _ (Hread (s_off msg) (s_len msg) Ho ltac:(lia) Hl)).
  set (wire := ztake _ _).
  assert (zlen wire = s_len msg) as Hw.
  { unfold wire. rewrite zlen_ztake, zlen_zdrop by lia. lia. }
  destruct (hdr_ctor_wire wire) as [h|e|] eqn:Eh.
  - erewrite M_bind_Ret by (unfold lift; reflexivity).
    assert (0 <= wiresize h - off_keyid /\ wiresize h <= s_len msg) as [Hh1 Hh2].
    { unfold hdr_ctor_wire in Eh. inv_ret. subst h. unfold wiresize. cbn [h_keyid].
      pose proof (zlen_nonneg (ztake (zc r) (zdrop off_keyid wire))).
      pose proof (zc_range r).
      pose proof (zlen_ztake (zdrop off_keyid wire) (zc r) ltac:(lia)). lia. }
    destruct (negb _) eqn:E1; [eexists; reflexivity|].
    apply negb_false_iff, Z.eqb_eq in E1.
    destruct (get_key (h_keyid h)) as [key|e|] eqn:Ek; [|eexists; reflexivity|by destruct (Hk (h_keyid h))].
    erewrite M_bind_Ret by (unfold lift; reflexivity).
    destruct (_ <? _); [eexists; reflexivity|]. cbv zeta.
    unfold off_keyid, BOXZEROBYTES in *.
    rewrite wrap_small in E1 by lia.
    rewrite (M_bind_Ret _ _ _ _ _ (Hread (s_off msg + wiresize h - 16) (h_recordsz h + 16)
      ltac:(lia) ltac:(lia) ltac:(lia))).
    rewrite Hopen. eexists; reflexivity.
  - eexists; reflexivity.
  - exfalso. unfold hdr_ctor_wire in Eh. destruct (_ <? _) eqn:E0; [done|].
    unfold off_idlen, sv_idx, zget in Eh. rewrite (proj2 (Z.ltb_lt 28 _)) in Eh
      by (unfold off_idlen in *; lia). cbn [Z.leb andb] in Eh.
    change (0 <=? 28) with true in Eh. cbn [andb] in Eh.
    destruct (wire !! Z.to_nat 28) eqn:El.
    + cbn [mbind outcome_bind] in Eh. repeat case_match; done.
    + apply lookup_ge_None in El. unfold zlen, off_idlen in *. lia.
Qed.

Lemma content_decode_forged_witness :
  exists e, @content_decode (Build_Secretbox (fun _ _ _ => None) (fun _ _ _ => None) (fun _ _ _ => []))
      CE_FS123_SECRETBOX (Span 0 60 0 60) (fun _ => Ret codec_ex_secret)
      (hdr_bytes (Hdr (replicate 24 "n"%char) 30 (lit "k")) ++ replicate 30 "x"%char)
    = (Throw e, hdr_bytes (Hdr (replicate 24 "n"%char) 30 (lit "k")) ++ replicate 30 "x"%char).
Proof.
  apply (@content_decode_forged (Build_Secretbox (fun _ _ _ => None) (fun _ _ _ => None) (fun _ _ _ => []))
    (Span 0 60 0 60)); try (vm_compute; intuition discriminate); done.
Defined.

(** A message that authenticates but whose padding is missing is refused only
    after it was decrypted in place: the buffer has changed. *)
Example decode_bad_padding_modifies :
  let mem := hdr_bytes (Hdr (replicate 24 "n"%char) 18 (lit "k")) ++ replicate 16 "n"%char ++ lit "hi" in
  let r := content_decode CE_FS123_SECRETBOX (Span 0 48 0 48) (fun _ => Ret codec_ex_secret) mem in
  r.1 = Throw ERuntime /\ r.2 <> mem.
Proof. vm_compute. split; [reflexivity|discriminate]. Qed.

(** The header's constructor tests [size() < 28] and then reads byte 28. *)
Example decode_28_bytes :
  hdr_ctor_wire (replicate 28 "n"%char) = Undef.
Proof. vm_compute. reflexivity. Qed.
