(* ===== verification/Backend.v ===== *)
(** * Replies and requests (exe/fs123p7/backend123.hpp, backend123.cpp)

    [reply123] with its constructors and clock arithmetic, its plain-old-data
    image as the disk cache writes it, and the [req123] builders.  The lemmas
    show that the image reads back field for field. *)

From Stdlib Require Import Ascii String ZArith Lia.
From stdpp Require Import base gmap strings list numbers.
From S2P Require Import Prelude StrUtils Threeroe Expiring.

#[local] Open Scope Z_scope.

(** ** Time in seconds and nanoseconds *)

Definition in_i64 (z : Z) : bool := (tp_min <=? z) && (z <=? tp_max).

(** Signed 64-bit arithmetic: overflow is undefined. *)
Definition i64 (z : Z) : outcome Z := if in_i64 z then Ret z else Undef.

(** [std::chrono::seconds(n)] as nanoseconds. *)
Definition secs (n : Z) : outcome Z := i64 (n * 1000000000).

(** ** Replies *)

Definition MAGIC : Z := 223606797.
Definition CNO_MISSING : Z := 0.
Definition CNO_NOT_EOF : Z := 1.
Definition CNO_EOF : Z := 2.

Definition content_hexdigest (content : bytes) : bytes := hexdigest (threeroe_of content 0 0).

Record reply123 := Reply {
  magic : Z;                    (* int32_t *)
  eno72 : Z;                    (* int32_t *)
  expires : Z;
  etag64 : Z;                   (* uint64_t *)
  last_refresh : Z;
  stale_while_revalidate : Z;
  estale_cookie72 : Z;          (* uint64_t *)
  chunk_next_offset72 : Z;      (* int64_t *)
  chunk_next_meta72 : Z;        (* int16_t *)
  content_encoding : Z;         (* int16_t *)
  content_threeroe : bytes;     (* char[32] *)
  content : bytes
}.

#[export] Instance reply_eq_dec : EqDecision reply123.
Proof. solve_decision. Defined.

(** [reply123{}]: invalid. *)
Definition reply_default : reply123 :=
  Reply MAGIC (-1) 0 0 0 0 0 (-1) CNO_MISSING 0 (content_hexdigest []) [].

Definition valid (r : reply123) : bool := 0 <=? eno72 r.

(** [set_times(age, max_age, swr)]: [age] and [swr] in seconds, [max_age] a duration. *)
Definition set_times (now age max_age swr : Z) (r : reply123) : outcome reply123 :=
  if negb (valid r) then Throw (ESystem 22) else
  a ← secs age;
  lr ← i64 (now - a);
  ex ← i64 (lr + max_age);
  sw ← secs swr;
  Ret (Reply (magic r) (eno72 r) ex (etag64 r) lr sw (estale_cookie72 r)
         (chunk_next_offset72 r) (chunk_next_meta72 r) (content_encoding r)
         (content_threeroe r) (content r)).

(** The constructor of protocol minor 2. *)
Definition reply_ctor72 (now eno esc : Z) (cont : bytes) (enc age max_age et64 swr : Z)
  : outcome reply123 :=
  if negb (eno =? 0) && negb (esc =? 0) then Throw (ESystem 22) else
  ma ← secs max_age;
  set_times now age ma swr
    (Reply MAGIC eno 0 et64 0 0 esc (-1) CNO_MISSING enc (content_hexdigest cont) cont).

(** The constructor of later protocols. *)
Definition reply_ctor73 (now : Z) (cont : bytes) (enc age max_age et64 swr : Z)
  : outcome reply123 :=
  ma ← secs max_age;
  set_times now age ma swr
    (Reply MAGIC 0 0 et64 0 0 0 (-1) CNO_MISSING enc (content_hexdigest cont) cont).

(** The constructor used for the attribute cache: a time to live. *)
Definition reply_ctor_ttl (now : Z) (cont : bytes) (enc cookie ttl : Z) : outcome reply123 :=
  set_times now 0 ttl 0
    (Reply MAGIC 0 0 0 0 0 cookie (-1) CNO_MISSING enc (content_hexdigest cont) cont).

Definition reply_max_age (r : reply123) : outcome Z := i64 (expires r - last_refresh r).
Definition reply_age (now : Z) (r : reply123) : outcome Z := i64 (now - last_refresh r).
Definition reply_ttl (now : Z) (r : reply123) : outcome Z := i64 (expires r - now).
Definition fresh (now : Z) (r : reply123) : bool := valid r && (now <? expires r).

(** *** The bytes from [magic] to the end of [content_threeroe]

    The x86-64 layout; there is no padding in this range. *)
Fixpoint le (n : nat) (z : Z) : bytes :=
  match n with O => [] | S n => chr z :: le n (z / 256) end.
Definition of_le (l : bytes) : Z := fold_right (fun c a => zc c + 256 * a) 0 l.

Definition reply123_pod_length : Z := 92.

Definition pod_bytes (r : reply123) : bytes :=
  le 4 (magic r) ++ le 4 (eno72 r) ++ le 8 (expires r) ++ le 8 (etag64 r)
  ++ le 8 (last_refresh r) ++ le 8 (stale_while_revalidate r) ++ le 8 (estale_cookie72 r)
  ++ le 8 (chunk_next_offset72 r) ++ le 2 (chunk_next_meta72 r) ++ le 2 (content_encoding r)
  ++ content_threeroe r.

(** Read [n] bytes as a signed or unsigned integer. *)
Definition rd_u (off : Z) (n : nat) (l : bytes) : Z := of_le (ztake (Z.of_nat n) (zdrop off l)).
Definition rd_s (off : Z) (n : nat) (l : bytes) : Z :=
  swrap (8 * Z.of_nat n) (rd_u off n l).

(** What [readv] into the struct leaves there. *)
Definition of_pod (l : bytes) (cont : bytes) : reply123 :=
  Reply (rd_s 0 4 l) (rd_s 4 4 l) (rd_s 8 8 l) (rd_u 16 8 l) (rd_s 24 8 l) (rd_s 32 8 l)
    (rd_u 40 8 l) (rd_s 48 8 l) (rd_s 56 2 l) (rd_s 58 2 l) (ztake 32 (zdrop 60 l)) cont.

(** ** Requests *)

Record req123 := Req {
  urlstem : bytes;
  stale_if_error : Z;
  past_stale_while_revalidate : Z;
  no_cache : bool;
  max_stale : option Z;
  no_peer_cache : bool
}.

(** The process-wide settings the builders read. *)
Record req_config := ReqConfig {
  cachetag : Z; proto_minor : Z;
  default_stale_if_error : Z; default_past_stale_while_revalidate : Z }.

Definition req_ctor (g : req_config) (url : bytes) : req123 :=
  Req url (default_stale_if_error g) (default_past_stale_while_revalidate g) false None false.

Definition add_cachetag (g : req_config) (url : bytes) (hasquery : bool) : bytes :=
  if negb (cachetag g =? 0)
  then url ++ lit (if hasquery then ";" else "?") ++ to_string (cachetag g)
  else url.

(** [backend123::add_sigil_version] *)
Definition add_sigil_version (g : req_config) (urlpfx : bytes) : outcome bytes :=
  if negb (find_str urlpfx (lit "/fs123/") 0 =? npos) || endswith urlpfx (lit "/fs123")
  then Throw (ESystem 22)
  else Ret (urlpfx ++ lit "/fs123/" ++ to_string 7 ++ lit "/" ++ to_string (proto_minor g)).

Definition attrreq (g : req_config) (name : bytes) : req123 :=
  req_ctor g (add_cachetag g (lit "/a" ++ urlescape name) false).

Definition dirreq (g : req_config) (name : bytes) (ckib : Z) (chunkstart : bytes) : req123 :=
  let ret := lit "/d" ++ urlescape name ++ lit "?" ++ to_string ckib ++ lit ";" in
  let ret := ret ++
    (if proto_minor g <? 3 then
       (if bool_decide (chunkstart = []) then lit "1;0" else lit "0;" ++ chunkstart)
     else urlescape chunkstart) in
  req_ctor g (add_cachetag g ret true).

Definition filereq (g : req_config) (name : bytes) (ckib chunkstartkib : Z) : req123 :=
  req_ctor g (add_cachetag g
    (lit "/f" ++ urlescape name ++ lit "?" ++ to_string ckib ++ lit ";" ++ to_string chunkstartkib) true).

Definition linkreq (g : req_config) (name : bytes) : req123 :=
  req_ctor g (add_cachetag g (lit "/l" ++ urlescape name) false).

Definition statfsreq (g : req_config) (name : bytes) : req123 :=
  req_ctor g (add_cachetag g (lit "/s" ++ urlescape name) false).

Definition statsreq (g : req_config) : req123 :=
  req_ctor g (add_cachetag g (lit "/n") false).

Definition xattrreq (g : req_config) (name : bytes) (ckib : Z) (attrname : option bytes) : req123 :=
  req_ctor g (add_cachetag g
    (lit "/x" ++ urlescape name ++ lit "?" ++ to_string ckib ++ lit ";"
      ++ match attrname with Some a => urlescape a | None => [] end ++ lit ";") true).

(** ** Lemmas *)

Lemma length_le n z : length (le n z) = n.
Proof. revert z. induction n as [|n IH]; intros z; cbn; auto. Qed.

Lemma zlen_le n z : zlen (le n z) = Z.of_nat n.
Proof. unfold zlen. by rewrite length_le. Qed.

Lemma zc_chr_mod z : zc (chr z) = z mod 256.
Proof.
  unfold chr. rewrite <- (Z.mod_mod z 256) at 1 by lia.
  apply (zc_chr (z mod 256)). apply Z.mod_pos_bound. lia.
Qed.

Lemma of_le_le n z : of_le (le n z) = z mod 256 ^ Z.of_nat n.
Proof.
  revert z. induction n as [|n IH]; intros z.
  { cbn. by rewrite Z.mod_1_r. }
  cbn [le of_le fold_right]. fold (of_le (le n (z / 256))). rewrite IH, zc_chr_mod.
  rewrite Nat2Z.inj_succ, Z.pow_succ_r by lia.
  rewrite Z.rem_mul_r by (try apply Z.pow_pos_nonneg; lia). done.
Qed.

Lemma of_le_nonneg l : 0 <= of_le l.
Proof.
  induction l as [|c l IH]; [done|]. unfold of_le in *. cbn [fold_right].
  pose proof (zc_range c). lia.
Qed.

Lemma rd_u_at a n z b off :
  off = zlen a -> 0 <= z < 256 ^ Z.of_nat n -> rd_u off n (a ++ le n z ++ b) = z.
Proof.
  intros -> Hz. unfold rd_u. rewrite zdrop_app, ztake_app by (rewrite ?zlen_le; done).
  rewrite of_le_le. by apply Z.mod_small.
Qed.

Lemma swrap_mod w z : 1 <= w -> - 2 ^ (w - 1) <= z < 2 ^ (w - 1) -> swrap w (z mod 2 ^ w) = z.
Proof.
  intros Hw Hz. unfold swrap. rewrite Z.mod_mod by (apply Z.pow_nonzero; lia).
  assert (2 ^ w = 2 * 2 ^ (w - 1)) as E by (rewrite <- Z.pow_succ_r by lia; f_equal; lia).
  destruct (decide (0 <= z)).
  - rewrite Z.mod_small by lia. by rewrite (proj2 (Z.ltb_lt _ _)) by lia.
  - assert (z mod 2 ^ w = z + 2 ^ w) as ->.
    { symmetry. apply Z.mod_unique with (-1); lia. }
    rewrite (proj2 (Z.ltb_ge _ _)) by lia. lia.
Qed.

Lemma rd_s_at a n z b off :
  off = zlen a -> (0 < n)%nat ->
  - 2 ^ (8 * Z.of_nat n - 1) <= z < 2 ^ (8 * Z.of_nat n - 1) ->
  rd_s off n (a ++ le n z ++ b) = z.
Proof.
  intros -> Hn Hz. unfold rd_s, rd_u. rewrite zdrop_app, ztake_app by (rewrite ?zlen_le; done).
  rewrite of_le_le. change 256 with (2 ^ 8). rewrite <- Z.pow_mul_r by lia.
  apply swrap_mod; [lia|done].
Qed.

(** The values the C++ types can hold. *)
Record reply_types (r : reply123) : Prop := {
  rt_magic : - 2 ^ 31 <= magic r < 2 ^ 31;
  rt_eno : - 2 ^ 31 <= eno72 r < 2 ^ 31;
  rt_expires : - 2 ^ 63 <= expires r < 2 ^ 63;
  rt_etag : 0 <= etag64 r < 2 ^ 64;
  rt_last : - 2 ^ 63 <= last_refresh r < 2 ^ 63;
  rt_swr : - 2 ^ 63 <= stale_while_revalidate r < 2 ^ 63;
  rt_esc : 0 <= estale_cookie72 r < 2 ^ 64;
  rt_cno : - 2 ^ 63 <= chunk_next_offset72 r < 2 ^ 63;
  rt_meta : - 2 ^ 15 <= chunk_next_meta72 r < 2 ^ 15;
  rt_enc : - 2 ^ 15 <= content_encoding r < 2 ^ 15;
  rt_threeroe : zlen (content_threeroe r) = 32;
}.

Lemma zlen_pod r : zlen (content_threeroe r) = 32 -> zlen (pod_bytes r) = reply123_pod_length.
Proof. intros H. unfold pod_bytes. rewrite !zlen_app, !zlen_le, H. reflexivity. Qed.

Lemma rd_u_shape l a n z b off :
  l = a ++ le n z ++ b -> off = zlen a -> 0 <= z < 256 ^ Z.of_nat n -> rd_u off n l = z.
Proof. intros ->. apply rd_u_at. Qed.
Lemma rd_s_shape l a n z b off :
  l = a ++ le n z ++ b -> off = zlen a -> (0 < n)%nat ->
  - 2 ^ (8 * Z.of_nat n - 1) <= z < 2 ^ (8 * Z.of_nat n - 1) -> rd_s off n l = z.
Proof. intros ->. apply rd_s_at. Qed.

Ltac field_s a := eapply (rd_s_shape _ a);
  [assoc|rewrite ?zlen_app, ?zlen_le; reflexivity|lia|done].
Ltac field_u a := eapply (rd_u_shape _ a);
  [assoc|rewrite ?zlen_app, ?zlen_le; reflexivity|done].

(** The plain-old-data image of a reply, followed by anything, reads back as
    the same reply: every field at its width and sign. *)
Lemma of_pod_pod r rest :
  reply_types r -> of_pod (pod_bytes r ++ rest) (content r) = r.
Proof.
  intros []. destruct r as [m e x t l s k o q c h d]. unfold of_pod, pod_bytes.
  cbn -[le rd_s rd_u] in *.
  set (p2 := le 4 m ++ le 4 e). set (p4 := p2 ++ le 8 x ++ le 8 t).
  set (p6 := p4 ++ le 8 l ++ le 8 s). set (p8 := p6 ++ le 8 k ++ le 8 o).
  f_equal.
  - field_s (@nil ascii).
  - field_s (le 4 m).
  - field_s p2.
  - field_u (p2 ++ le 8 x).
  - field_s p4.
  - field_s (p4 ++ le 8 l).
  - field_u p6.
  - field_s (p6 ++ le 8 k).
  - field_s p8.
  - field_s (p8 ++ le 2 q).
  - assert (forall y, le 4 m ++ le 4 e ++ le 8 x ++ le 8 t ++ le 8 l ++ le 8 s ++ le 8 k ++ le 8 o
        ++ le 2 q ++ le 2 c ++ y = (p8 ++ le 2 q ++ le 2 c) ++ y) as E by (intros; assoc).
    rewrite <- !app_assoc, E, zdrop_app, ztake_app; [done|done|].
    rewrite ?zlen_app, ?zlen_le. reflexivity.
Qed.
