(* ===== verification/DiskCache.v ===== *)
(** * The disk cache (exe/fs123p7/diskcache.cpp)

    A cache file holds the plain-old-data image of a reply, the content with
    its length, the url with its length, and a magic number; [serialize]
    writes it under "<path>.new", opened with O_EXCL, and renames it;
    [deserialize] moves files it cannot read out of the way; [refresh] decides
    between a hit, a stale answer with a background refresh, and asking
    upstream.  Theorems: a file that was written reads back; [deserialize]
    never fails and never returns content that does not match its digest;
    however serializers interleave, a reader sees whole files only; a failed
    serialization leaves no lock behind; [refresh] bounds the staleness of
    what it returns. *)

From Stdlib Require Import Ascii String ZArith Lia.
From stdpp Require Import base gmap strings list numbers.
From S2P Require Import Prelude StrUtils Threeroe Expiring Backend.

#[local] Open Scope Z_scope.

(** ** The file format *)

(** The six [iovec]s of [serialize]. *)
Definition file_bytes (r : reply123) (url : bytes) : bytes :=
  pod_bytes r ++ le 8 (zlen (content r)) ++ content r
  ++ url ++ le 4 (zlen url) ++ le 4 (magic r).

(** [std::string::max_size()] *)
Definition string_max_size : Z := 2 ^ 62.

(** The last part of the file: the url, its length, the magic number again. *)
Definition read_url (f : bytes) (content_len bytes_not_counting_url : Z) : outcome bytes :=
  let urlsz := zlen f - bytes_not_counting_url in
  let rest := zdrop (reply123_pod_length + 8 + content_len) f in
  if zlen rest <? urlsz + 8 then Throw (ESystem EINVAL) else
  let ulen := rd_s urlsz 4 rest in
  let cmagic := rd_s (urlsz + 4) 4 rest in
  if negb (ulen =? swrap 32 urlsz) then Throw (ESystem EINVAL) else
  if negb (cmagic =? MAGIC) then Throw (ESystem EINVAL) else
  Ret (ztake urlsz rest).

(** [deserialize_no_unlink]: [file] is what the path names, if anything that
    can be opened; [want_url] is whether [returlp] is not null. *)
Definition deserialize_no_unlink (file : option bytes) (want_url : bool)
  : outcome (reply123 * option bytes) :=
  match file with
  | None => Ret (reply_default, None)
  | Some f =>
      let st_size := zlen f in
      let nread := Z.min st_size (reply123_pod_length + 8) in
      if negb (nread =? reply123_pod_length + 8) then Throw (ESystem EINVAL) else
      let r := of_pod f [] in
      let content_len := rd_u reply123_pod_length 8 f in
      if negb (magic r =? MAGIC) then Ret (reply_default, None) else
      let bytes_not_counting_url := u64 (reply123_pod_length + 8 + content_len + 8) in
      if st_size <? bytes_not_counting_url then Throw (ESystem EINVAL) else
      if string_max_size <? content_len then Throw ERuntime else     (* length_error from resize *)
      let cont := ztake content_len (zdrop (reply123_pod_length + 8) f) in
      if negb (zlen cont =? content_len) then Throw (ESystem EINVAL) else
      url ← (if want_url then u ← read_url f content_len bytes_not_counting_url; Ret (Some u)
             else Ret None);
      if negb (bool_decide (content_hexdigest cont = content_threeroe r))
      then Throw (ESystem EINVAL) else
      Ret (of_pod f cont, url)
  end.

(** ** The cache object *)

Record dc_config := DcConfig {
  hashseed : Z; hexdigits : Z; foreground_serialize : bool;
  injection_probability : Z             (* in units of 1/2^24, as the float random number *)
}.

(** Background work: a refresh to do, or a reply to write. *)
Inductive dc_task :=
| BgRefresh (req : req123) (path : bytes) (r : reply123)
| BgSerialize (r : reply123) (path url : bytes).

Record dc_stats := DcStats {
  dc_hits : Z; dc_stale_while_revalidate : Z; dc_must_refresh : Z;
  dc_maybe_rf_too_soon : Z; dc_maybe_rf_started : Z; dc_rf_disconnected_skipped : Z;
  dc_rf_200 : Z; dc_rf_304 : Z; dc_rf_stale_if_error : Z }.

Record dcache := DCache {
  dc_files : gmap bytes bytes;
  dc_recently : list (bytes * Z);
  dc_disconnected : bool;
  dc_rofs_defer_till : Z;
  dc_tp : list dc_task;                 (* submitted to the thread pool *)
  dc_st : dc_stats
}.

Definition set_files (f : gmap bytes bytes) (s : dcache) : dcache :=
  DCache f (dc_recently s) (dc_disconnected s) (dc_rofs_defer_till s) (dc_tp s) (dc_st s).
Definition set_recently (l : list (bytes * Z)) (s : dcache) : dcache :=
  DCache (dc_files s) l (dc_disconnected s) (dc_rofs_defer_till s) (dc_tp s) (dc_st s).
Definition set_rofs (t : Z) (s : dcache) : dcache :=
  DCache (dc_files s) (dc_recently s) (dc_disconnected s) t (dc_tp s) (dc_st s).
Definition submit (t : dc_task) (s : dcache) : dcache :=
  DCache (dc_files s) (dc_recently s) (dc_disconnected s) (dc_rofs_defer_till s) (dc_tp s ++ [t]) (dc_st s).
Definition set_stats (f : dc_stats -> dc_stats) (s : dcache) : dcache :=
  DCache (dc_files s) (dc_recently s) (dc_disconnected s) (dc_rofs_defer_till s) (dc_tp s) (f (dc_st s)).

Definition inc_hits (t : dc_stats) := DcStats (dc_hits t + 1) (dc_stale_while_revalidate t)
  (dc_must_refresh t) (dc_maybe_rf_too_soon t) (dc_maybe_rf_started t)
  (dc_rf_disconnected_skipped t) (dc_rf_200 t) (dc_rf_304 t) (dc_rf_stale_if_error t).
Definition inc_swr (t : dc_stats) := DcStats (dc_hits t) (dc_stale_while_revalidate t + 1)
  (dc_must_refresh t) (dc_maybe_rf_too_soon t) (dc_maybe_rf_started t)
  (dc_rf_disconnected_skipped t) (dc_rf_200 t) (dc_rf_304 t) (dc_rf_stale_if_error t).
Definition inc_must (t : dc_stats) := DcStats (dc_hits t) (dc_stale_while_revalidate t)
  (dc_must_refresh t + 1) (dc_maybe_rf_too_soon t) (dc_maybe_rf_started t)
  (dc_rf_disconnected_skipped t) (dc_rf_200 t) (dc_rf_304 t) (dc_rf_stale_if_error t).
Definition inc_too_soon (t : dc_stats) := DcStats (dc_hits t) (dc_stale_while_revalidate t)
  (dc_must_refresh t) (dc_maybe_rf_too_soon t + 1) (dc_maybe_rf_started t)
  (dc_rf_disconnected_skipped t) (dc_rf_200 t) (dc_rf_304 t) (dc_rf_stale_if_error t).
Definition inc_started (t : dc_stats) := DcStats (dc_hits t) (dc_stale_while_revalidate t)
  (dc_must_refresh t) (dc_maybe_rf_too_soon t) (dc_maybe_rf_started t + 1)
  (dc_rf_disconnected_skipped t) (dc_rf_200 t) (dc_rf_304 t) (dc_rf_stale_if_error t).
Definition inc_skipped (t : dc_stats) := DcStats (dc_hits t) (dc_stale_while_revalidate t)
  (dc_must_refresh t) (dc_maybe_rf_too_soon t) (dc_maybe_rf_started t)
  (dc_rf_disconnected_skipped t + 1) (dc_rf_200 t) (dc_rf_304 t) (dc_rf_stale_if_error t).
Definition inc_200 (t : dc_stats) := DcStats (dc_hits t) (dc_stale_while_revalidate t)
  (dc_must_refresh t) (dc_maybe_rf_too_soon t) (dc_maybe_rf_started t)
  (dc_rf_disconnected_skipped t) (dc_rf_200 t + 1) (dc_rf_304 t) (dc_rf_stale_if_error t).
Definition inc_304 (t : dc_stats) := DcStats (dc_hits t) (dc_stale_while_revalidate t)
  (dc_must_refresh t) (dc_maybe_rf_too_soon t) (dc_maybe_rf_started t)
  (dc_rf_disconnected_skipped t) (dc_rf_200 t) (dc_rf_304 t + 1) (dc_rf_stale_if_error t).
Definition inc_sie (t : dc_stats) := DcStats (dc_hits t) (dc_stale_while_revalidate t)
  (dc_must_refresh t) (dc_maybe_rf_too_soon t) (dc_maybe_rf_started t)
  (dc_rf_disconnected_skipped t) (dc_rf_200 t) (dc_rf_304 t) (dc_rf_stale_if_error t + 1).

(** What the outside world does to one call. *)
Record ser_env := SerEnv {
  started_at : Z;                       (* the scoped timer's clock *)
  ureal : Z;                            (* the random number, in 1/2^24 *)
  open_err : option Z;                  (* errno of the openat, besides EEXIST *)
  write_res : Z -> outcome Z;           (* writev of so many bytes *)
  rename_res : option Z                 (* errno of the renameat *)
}.

Definition dot_new (path : bytes) : bytes := path ++ lit ".new".

Section DiskCache.
Context (g : dc_config).

Definition hash (s : bytes) : bytes :=
  let hd := hexdigest (threeroe_of s (hashseed g) 0) in
  ztake (hexdigits g) hd ++ lit "/" ++ zdrop (hexdigits g) hd.

Definition serialize (env : ser_env) (r : reply123) (path url : bytes) : M dcache unit :=
  s ← get;
  if started_at env <? dc_rofs_defer_till s then mret tt else
  if injection_probability g <? ureal env then mret tt else
  let pathnew := dot_new path in
  match open_err env with
  | Some eno =>
      if eno =? EROFS then modify (set_rofs (started_at env + 300000000000)) else mret tt
  | None =>
      match dc_files s !! pathnew with
      | Some _ => mret tt                                        (* EEXIST *)
      | None =>
          modify (fun s => set_files (<[pathnew := []]> (dc_files s)) s) ;;
          try_M
            (let data := file_bytes r url in
             if negb (bool_decide (content_hexdigest (content r) = content_threeroe r))
             then raise (ESystem EINVAL) else
             wrote ← lift (write_res env (zlen data));
             modify (fun s => set_files (<[pathnew := ztake wrote data]> (dc_files s)) s) ;;
             if negb (wrote =? zlen data) then raise (ESystem ENOSPC) else
             match rename_res env with
             | Some eno => raise (ESystem eno)
             | None => modify (fun s => set_files (<[path := data]> (delete pathnew (dc_files s))) s)
             end)
            (fun e =>
               modify (fun s => set_files (delete path (delete pathnew (dc_files s))) s) ;;
               raise (ENested ERuntime e))
      end
  end.

(** [deserialize]: a file that gives trouble is renamed to
    "<path>.<time>" and the answer is a miss. *)
Definition deserialize (stamp : bytes) (path : bytes) : M dcache reply123 :=
  s ← get;
  match deserialize_no_unlink (dc_files s !! path) false with
  | Ret (r, _) => mret r
  | Throw _ =>
      modify (fun s =>
        match dc_files s !! path with
        | Some f => set_files (<[path ++ lit "." ++ stamp := f]> (delete path (dc_files s))) s
        | None => s
        end) ;;
      mret reply_default
  | Undef => lift Undef
  end.

(** Erase what is older than half a second, then look for the url.  The
    vector is in time order, so [lower_bound] is the first entry not
    older. *)
Fixpoint drop_old (then_ : Z) (l : list (bytes * Z)) : list (bytes * Z) :=
  match l with
  | (u, t) :: l' => if t <? then_ then drop_old then_ l' else l
  | [] => []
  end.

Definition recently_refreshed (now : Z) (url : bytes) : M dcache bool :=
  short_time_ago ← lift (i64 (now - 500000000));
  modify (fun s => set_recently (drop_old short_time_ago (dc_recently s)) s) ;;
  s ← get;
  if existsb (fun a => bool_decide (a.1 = url)) (dc_recently s) then mret true else
  modify (fun s => set_recently (dc_recently s ++ [(url, now)]) s) ;;
  mret false.

Definition maybe_bg_upstream_refresh (now : Z) (req : req123) (path : bytes) (r : reply123)
  : M dcache unit :=
  b ← recently_refreshed now (urlstem req);
  if b : bool then modify (set_stats inc_too_soon) else
  s ← get;
  if dc_disconnected s then modify (set_stats inc_skipped) else
  modify (set_stats inc_started) ;;
  modify (submit (BgRefresh req path r)).

Definition do_serialize (env : ser_env) (r : reply123) (path url : bytes) (already_detached : bool)
  : M dcache unit :=
  if already_detached || foreground_serialize g then serialize env r path url
  else modify (submit (BgSerialize r path url)).

(** [upstream_->refresh(req, &r)]: whether it replaced the contents, and the
    reply it left. *)
Context (upstream : req123 -> reply123 -> outcome (bool * reply123)).

Definition upstream_refresh (env : ser_env) (req : req123) (path : bytes) (r : reply123)
    (already_detached usable_if_error : bool) : M dcache reply123 :=
  s ← get;
  if dc_disconnected s && usable_if_error then
    modify (set_stats inc_sie) ;; modify (set_stats inc_skipped) ;; mret r
  else
    '(b, r) ← lift (upstream req r);
    if b : bool then
      modify (set_stats inc_200) ;;
      do_serialize env r path (urlstem req) already_detached ;; mret r
    else
      if no_cache req then raise (ESystem EINVAL) else
      modify (set_stats inc_304) ;;
      do_serialize env r path (urlstem req) already_detached ;; mret r.

(** The noexcept wrapper run by the thread pool. *)
Definition detached_upstream_refresh (env : ser_env) (req : req123) (path : bytes) (r : reply123)
  : M dcache unit :=
  let req := Req (urlstem req) (stale_if_error req) (past_stale_while_revalidate req)
               (no_cache req) (Some 0) (no_peer_cache req) in
  try_M (upstream_refresh env req path r true false ;; mret tt) (fun _ => mret tt).

(** The clock readings of [refresh]: [r->ttl()] before and in the handler,
    [recently_refreshed]'s, and the stamp of each [deserialize]. *)
Record rf_clocks := RfClocks {
  t_ttl : Z; t_ttl2 : Z; t_recent : Z; stamp1 : bytes; stamp2 : bytes }.

Definition net_swr (req : req123) (r : reply123) : outcome Z :=
  past ← secs (past_stale_while_revalidate req);
  swr ← i64 (stale_while_revalidate r + past);
  match max_stale req with
  | Some ms => reqms ← secs ms; Ret (if reqms <? swr then reqms else swr)
  | None => Ret swr
  end.

Definition usable (req : req123) (r : reply123) (ttl : Z) : outcome bool :=
  if valid r then sie ← secs (stale_if_error req); Ret (- ttl <=? sie) else Ret false.

Definition refresh (env : ser_env) (ts : rf_clocks) (req : req123) : M dcache reply123 :=
  try_M
    (let path := hash (urlstem req) in
     r ← deserialize (stamp1 ts) path;
     swr ← lift (net_swr req r);
     ttl ← lift (reply_ttl (t_ttl ts) r);
     if negb (no_cache req) && (0 <? ttl) then
       modify (set_stats inc_hits) ;; mret r
     else if negb (no_cache req) && (- swr <? ttl) then
       modify (set_stats inc_swr) ;;
       maybe_bg_upstream_refresh (t_recent ts) req path r ;; mret r
     else
       modify (set_stats inc_must) ;;
       usable_if_error ← lift (usable req r ttl);
       try_M (upstream_refresh env req path r false usable_if_error)
         (fun e =>
            if usable_if_error : bool then
              r ← deserialize (stamp2 ts) path;
              ttl ← lift (reply_ttl (t_ttl2 ts) r);
              usable_if_error ← lift (usable req r ttl);
              if negb usable_if_error then raise (ENested ERuntime e) else
              modify (set_stats inc_sie) ;; mret r
            else raise (ENested ERuntime e)))
    (fun e => raise (ENested ERuntime e)).
End DiskCache.

(** ** Concurrent serializers

    [serialize] cut at its system calls, with inodes, so that a rename or an
    unlink by someone else does not change what a descriptor writes to.
    [evict_new] says whether eviction may unlink a "<path>.new" file. *)

Inductive ser_pc := Opened | Written | Failed.

Record ser_thread := SerThread {
  th_reply : reply123; th_path : bytes; th_url : bytes; th_ino : nat; th_pc : ser_pc }.

Record dc_sys := DcSys {
  y_dir : gmap bytes nat;
  y_data : gmap nat bytes;
  y_next : nat;
  y_threads : gmap nat ser_thread
}.

Definition is_new (p : bytes) : bool := endswith p (lit ".new").

Definition set_pc (pc : ser_pc) (t : ser_thread) : ser_thread :=
  SerThread (th_reply t) (th_path t) (th_url t) (th_ino t) pc.

Definition digest_ok (r : reply123) : Prop := content_hexdigest (content r) = content_threeroe r.

Inductive dc_step (evict_new : bool) : dc_sys -> dc_sys -> Prop :=
| step_open t r path url s :
    y_threads s !! t = None -> is_new path = false -> y_dir s !! dot_new path = None ->
    dc_step evict_new s
      (DcSys (<[dot_new path := y_next s]> (y_dir s)) (<[y_next s := []]> (y_data s)) (S (y_next s))
         (<[t := SerThread r path url (y_next s) Opened]> (y_threads s)))
| step_bad_digest t th s :
    y_threads s !! t = Some th -> th_pc th = Opened -> ~ digest_ok (th_reply th) ->
    dc_step evict_new s
      (DcSys (y_dir s) (y_data s) (y_next s) (<[t := set_pc Failed th]> (y_threads s)))
| step_write t th n s :
    y_threads s !! t = Some th -> th_pc th = Opened -> digest_ok (th_reply th) ->
    dc_step evict_new s
      (DcSys (y_dir s) (<[th_ino th := ztake n (file_bytes (th_reply th) (th_url th))]> (y_data s))
         (y_next s)
         (<[t := set_pc (if n =? zlen (file_bytes (th_reply th) (th_url th)) then Written else Failed) th]>
            (y_threads s)))
| step_rename t th i s :
    y_threads s !! t = Some th -> th_pc th = Written -> y_dir s !! dot_new (th_path th) = Some i ->
    dc_step evict_new s
      (DcSys (<[th_path th := i]> (delete (dot_new (th_path th)) (y_dir s))) (y_data s) (y_next s)
         (delete t (y_threads s)))
| step_rename_fail t th s :
    y_threads s !! t = Some th -> th_pc th = Written ->
    dc_step evict_new s
      (DcSys (y_dir s) (y_data s) (y_next s) (<[t := set_pc Failed th]> (y_threads s)))
| step_cleanup t th s :
    y_threads s !! t = Some th -> th_pc th = Failed ->
    dc_step evict_new s
      (DcSys (delete (th_path th) (delete (dot_new (th_path th)) (y_dir s))) (y_data s) (y_next s)
         (delete t (y_threads s)))
| step_unlink p s :
    (evict_new = false -> is_new p = false) ->
    dc_step evict_new s (DcSys (delete p (y_dir s)) (y_data s) (y_next s) (y_threads s))
| step_move_away p stamp i s :
    y_dir s !! p = Some i -> is_new p = false -> is_new (p ++ lit "." ++ stamp) = false ->
    dc_step evict_new s
      (DcSys (<[p ++ lit "." ++ stamp := i]> (delete p (y_dir s))) (y_data s) (y_next s) (y_threads s)).

Definition dc_init : dc_sys := DcSys ∅ ∅ 0 ∅.
Definition dc_reachable (evict_new : bool) : dc_sys -> Prop := rtc (dc_step evict_new) dc_init.

(** ** Lemmas *)

(** *** The file format *)

Lemma content_hexdigest_length c : zlen (content_hexdigest c) = 32.
Proof. unfold zlen, content_hexdigest. by rewrite length_hexdigest. Qed.

Record writable (r : reply123) (url : bytes) : Prop := {
  wr_types : reply_types r;
  wr_magic : magic r = MAGIC;
  wr_digest : digest_ok r;
  wr_content : zlen (content r) < 2 ^ 40;
  wr_url : zlen url < 2 ^ 31
}.

Lemma file_bytes_of_pod r url :
  reply_types r -> of_pod (file_bytes r url) (content r) = r.
Proof. apply of_pod_pod. Qed.

Lemma of_pod_magic l c : magic (of_pod l c) = magic (of_pod l []).
Proof. done. Qed.

Lemma zlen_file_bytes r url : zlen (content_threeroe r) = 32 ->
  zlen (file_bytes r url) = 108 + zlen (content r) + zlen url.
Proof.
  intros H. unfold file_bytes. rewrite !zlen_app, zlen_pod, !zlen_le by done.
  unfold reply123_pod_length. lia.
Qed.

Lemma read_url_file_bytes r url : writable r url ->
  read_url (file_bytes r url) (zlen (content r)) (92 + 8 + zlen (content r) + 8) = Ret url.
Proof.
  intros [Ht Hm Hd Hc Hu]. pose proof (rt_threeroe _ Ht) as H32.
  pose proof (zlen_nonneg (content r)). pose proof (zlen_nonneg url).
  unfold read_url. rewrite (zlen_file_bytes r url H32). unfold reply123_pod_length.
  replace (108 + zlen (content r) + zlen url - (92 + 8 + zlen (content r) + 8))
    with (zlen url) by lia.
  assert (zdrop (92 + 8 + zlen (content r)) (file_bytes r url)
          = url ++ le 4 (zlen url) ++ le 4 (magic r)) as ->.
  { assert (file_bytes r url = (pod_bytes r ++ le 8 (zlen (content r)) ++ content r)
              ++ url ++ le 4 (zlen url) ++ le 4 (magic r)) as -> by (unfold file_bytes; assoc).
    apply zdrop_app. rewrite !zlen_app, zlen_pod, zlen_le by done.
    unfold reply123_pod_length. lia. }
  rewrite (proj2 (Z.ltb_ge _ _)) by (rewrite !zlen_app, !zlen_le; lia).
  assert (rd_s (zlen url) 4 (url ++ le 4 (zlen url) ++ le 4 (magic r)) = zlen url) as ->.
  { apply rd_s_at; [done|lia|]. change (8 * Z.of_nat 4 - 1) with 31. lia. }
  assert (rd_s (zlen url + 4) 4 (url ++ le 4 (zlen url) ++ le 4 (magic r)) = magic r) as ->.
  { eapply (rd_s_shape _ (url ++ le 4 (zlen url)) _ _ []).
    - rewrite app_nil_r. assoc.
    - rewrite zlen_app, zlen_le. lia.
    - lia.
    - apply (rt_magic _ Ht). }
  assert (swrap 32 (zlen url) = zlen url) as ->.
  { unfold swrap. rewrite Z.mod_small by lia. by rewrite (proj2 (Z.ltb_lt _ _)) by lia. }
  rewrite Z.eqb_refl, Hm, Z.eqb_refl. cbn [negb]. by rewrite ztake_app.
Qed.

Lemma deserialize_file_bytes r url want :
  writable r url ->
  deserialize_no_unlink (Some (file_bytes r url)) want
  = Ret (r, if want then Some url else None).
Proof.
  intros [Ht Hm Hd Hc Hu]. pose proof (rt_threeroe _ Ht) as H32.
  pose proof (zlen_nonneg (content r)). pose proof (zlen_nonneg url).
  pose proof (zlen_file_bytes r url H32) as Hlen.
  pose proof (file_bytes_of_pod r url Ht) as Hpod.
  unfold deserialize_no_unlink. rewrite Hlen. unfold reply123_pod_length.
  replace (Z.min _ (92 + 8) =? 92 + 8) with true by (symmetry; apply Z.eqb_eq; lia). cbn [negb].
  assert (magic (of_pod (file_bytes r url) []) = MAGIC) as ->
    by (rewrite <- (of_pod_magic _ (content r)), Hpod; done).
  rewrite Z.eqb_refl. cbn [negb].
  assert (rd_u 92 8 (file_bytes r url) = zlen (content r)) as ->.
  { eapply (rd_u_shape _ (pod_bytes r)); [unfold file_bytes; reflexivity| |].
    - by rewrite zlen_pod.
    - change (256 ^ Z.of_nat 8) with (2 ^ 64). lia. }
  rewrite (wrap_small 64) by lia.
  rewrite (proj2 (Z.ltb_ge _ (92 + 8 + _ + 8))) by lia.
  unfold string_max_size. rewrite (proj2 (Z.ltb_ge (2 ^ 62) _)) by lia.
  assert (file_bytes r url = (pod_bytes r ++ le 8 (zlen (content r))) ++ content r
            ++ url ++ le 4 (zlen url) ++ le 4 (magic r)) as Ef by (unfold file_bytes; assoc).
  assert (ztake (zlen (content r)) (zdrop (92 + 8) (file_bytes r url)) = content r) as ->.
  { rewrite Ef, zdrop_app by (rewrite zlen_app, zlen_pod, zlen_le by done; reflexivity).
    by apply ztake_app. }
  rewrite Z.eqb_refl. cbn [negb].
  rewrite read_url_file_bytes by done.
  replace (if want then _ else Ret None) with (Ret (if want then Some url else None))
    by (by destruct want).
  cbn [mbind outcome_bind].
  assert (content_threeroe (of_pod (file_bytes r url) []) = content_threeroe r) as ->
    by (rewrite <- Hpod at 2; reflexivity).
  rewrite bool_decide_eq_true_2 by apply Hd. cbn [negb]. by rewrite Hpod.
Qed.

(** *** What [deserialize] can answer *)

Lemma read_url_defined f n k : read_url f n k <> Undef.
Proof. unfold read_url. by repeat case_match. Qed.

Lemma deserialize_no_unlink_sound file want :
  deserialize_no_unlink file want <> Undef
  /\ forall r u, deserialize_no_unlink file want = Ret (r, u) ->
       r = reply_default
       \/ (exists f, file = Some f /\ magic r = MAGIC /\ digest_ok r
             /\ exists pre post, f = pre ++ content r ++ post /\ zlen pre = reply123_pod_length + 8).
Proof.
  destruct file as [f|]; cbn [deserialize_no_unlink];
    [|split; [done|intros r u [= <- <-]; by left]].
  split.
  - pose proof (read_url_defined f (rd_u reply123_pod_length 8 f)
      (u64 (reply123_pod_length + 8 + rd_u reply123_pod_length 8 f + 8))) as Hu.
    destruct (negb _); [done|]. destruct (negb _); [done|]. destruct (_ <? _); [done|].
    destruct (_ <? _); [done|]. destruct (negb _); [done|].
    destruct want; [destruct (read_url _ _ _); try done|]; cbn [mbind outcome_bind];
      by destruct (negb _).
  - intros r u H. destruct (negb _) eqn:E0 in H; [done|].
    destruct (negb _) eqn:E1 in H; [injection H as <- <-; by left|].
    destruct (_ <? _) eqn:E2 in H; [done|]. destruct (_ <? _) eqn:E3 in H; [done|].
    destruct (negb _) eqn:E4 in H; [done|]. inv_ret. injection H as <- <-. right.
    rewrite negb_false_iff in *. apply bool_decide_eq_true in G. apply Z.eqb_eq in E1.
    exists f. refine (conj eq_refl (conj E1 (conj G _))).
    set (n := rd_u reply123_pod_length 8 f) in *. set (k := reply123_pod_length + 8) in *.
    exists (ztake k f), (zdrop n (zdrop k f)). cbn [content of_pod].
    assert (0 <= n).
    { apply of_le_nonneg. }
    apply Z.eqb_eq in E0. split.
    + rewrite ztake_zdrop by done. by rewrite ztake_zdrop.
    + rewrite zlen_ztake by done. lia.
Qed.

(** *** The interleaving invariant *)

Lemma is_new_dot p : is_new (dot_new p) = true.
Proof. unfold is_new, dot_new, endswith. apply bool_decide_eq_true. by exists p. Qed.

Lemma dot_new_inj p q : dot_new p = dot_new q -> p = q.
Proof. unfold dot_new. apply (inj (fun x => x ++ lit ".new")). Qed.

Lemma not_new_ne p q : is_new p = false -> p <> dot_new q.
Proof. intros H ->. by rewrite is_new_dot in H. Qed.

(** A file a reader may open holds a whole serialization. *)
Definition whole (data : bytes) : Prop := exists r url, digest_ok r /\ data = file_bytes r url.

Record dc_inv (s : dc_sys) : Prop := {
  inv_fresh : forall p i, y_dir s !! p = Some i -> (i < y_next s)%nat;
  inv_th_fresh : forall t th, y_threads s !! t = Some th -> (th_ino th < y_next s)%nat;
  inv_inj : forall p q i, y_dir s !! p = Some i -> y_dir s !! q = Some i -> p = q;
  inv_own : forall t th, y_threads s !! t = Some th ->
    is_new (th_path th) = false /\ y_dir s !! dot_new (th_path th) = Some (th_ino th);
  inv_new : forall p, is_new p = true -> is_Some (y_dir s !! p) ->
    exists t th, y_threads s !! t = Some th /\ p = dot_new (th_path th);
  inv_uniq : forall t u th th', y_threads s !! t = Some th -> y_threads s !! u = Some th' ->
    th_path th = th_path th' -> t = u;
  inv_written : forall t th, y_threads s !! t = Some th -> th_pc th = Written ->
    digest_ok (th_reply th) /\ y_data s !! th_ino th = Some (file_bytes (th_reply th) (th_url th));
  inv_whole : forall p i, is_new p = false -> y_dir s !! p = Some i ->
    exists data, y_data s !! i = Some data /\ whole data
}.

Lemma inv_init : dc_inv dc_init.
Proof.
  split; cbn; intros *; rewrite ?lookup_empty; try done.
Qed.

Lemma inv_open t r path url s :
  y_threads s !! t = None -> is_new path = false -> y_dir s !! dot_new path = None -> dc_inv s ->
  dc_inv (DcSys (<[dot_new path := y_next s]> (y_dir s)) (<[y_next s := []]> (y_data s)) (S (y_next s))
         (<[t := SerThread r path url (y_next s) Opened]> (y_threads s))).
Proof.
  intros Ht Hp Hd [I1 I2 I3 I4 I5 I6 I7 I8]. split; cbn.
  - intros p i [[<- <-]|[_ H]]%lookup_insert_Some; [lia|]. specialize (I1 _ _ H). lia.
  - intros u th [[<- <-]|[_ H]]%lookup_insert_Some; cbn; [lia|]. specialize (I2 _ _ H). lia.
  - intros p q i [[<- <-]|[Hp' H]]%lookup_insert_Some [[<- E]|[Hq H']]%lookup_insert_Some; try done.
    + specialize (I1 _ _ H'). lia.
    + subst. specialize (I1 _ _ H). lia.
    + by eapply I3.
  - intros u th [[<- <-]|[Hu H]]%lookup_insert_Some; cbn.
    + split; [done|apply lookup_insert_eq].
    + destruct (I4 _ _ H) as [H1 H2]. split; [done|]. rewrite lookup_insert_ne; [done|].
      intros E. by rewrite <- E, Hd in H2.
  - intros p Hn [i [[<- <-]|[Hp' H]]%lookup_insert_Some].
    + eexists t, _. split; [apply lookup_insert_eq|done].
    + destruct (I5 p Hn) as (u & th & H1 & H2); [eauto|]. exists u, th. split; [|done].
      rewrite lookup_insert_ne; [done|]. intros <-. by rewrite Ht in H1.
  - intros u v th th' [[<- <-]|[Hu H]]%lookup_insert_Some [[<- <-]|[Hv H']]%lookup_insert_Some E;
      cbn in *; try done.
    + destruct (I4 _ _ H') as [_ H2]. by rewrite <- E, Hd in H2.
    + destruct (I4 _ _ H) as [_ H2]. by rewrite E, Hd in H2.
    + by eapply I6.
  - intros u th [[<- <-]|[Hu H]]%lookup_insert_Some Hw; [done|].
    destruct (I7 _ _ H Hw). split; [done|]. rewrite lookup_insert_ne; [done|].
    specialize (I2 _ _ H). lia.
  - intros p i Hn [[<- _]|[Hp' H]]%lookup_insert_Some; [by rewrite is_new_dot in Hn|].
    destruct (I8 _ _ Hn H) as (d & ? & ?). exists d. split; [|done].
    rewrite lookup_insert_ne; [done|]. specialize (I1 _ _ H). lia.
Qed.

(** A thread that changes its program counter and maybe its own file. *)
Lemma inv_thread t th pc data s :
  y_threads s !! t = Some th -> dc_inv s ->
  data = y_data s \/ (exists d, data = <[th_ino th := d]> (y_data s)) ->
  (pc = Written -> digest_ok (th_reply th)
     /\ data !! th_ino th = Some (file_bytes (th_reply th) (th_url th))) ->
  dc_inv (DcSys (y_dir s) data (y_next s) (<[t := set_pc pc th]> (y_threads s))).
Proof.
  intros Ht [I1 I2 I3 I4 I5 I6 I7 I8] Hdata Hw.
  assert (forall i, i <> th_ino th -> data !! i = y_data s !! i) as Hother.
  { intros i Hi. destruct Hdata as [->|[d ->]]; [done|]. by rewrite lookup_insert_ne. }
  destruct (I4 _ _ Ht) as [Hp Hd].
  split; cbn.
  - done.
  - intros u th' [[<- <-]|[_ H]]%lookup_insert_Some; cbn; eauto.
  - done.
  - intros u th' [[<- <-]|[Hu H]]%lookup_insert_Some; cbn; eauto.
  - intros p Hn Hs. destruct (I5 p Hn Hs) as (u & th' & H1 & H2).
    destruct (decide (u = t)) as [->|Hne].
    + exists t, (set_pc pc th). rewrite lookup_insert_eq. rewrite Ht in H1. injection H1 as <-. done.
    + exists u, th'. by rewrite lookup_insert_ne.
  - intros u v th1 th2 [[<- <-]|[Hu H]]%lookup_insert_Some [[<- <-]|[Hv H']]%lookup_insert_Some E;
      cbn in *; try done; by eapply I6.
  - intros u th' [[<- <-]|[Hu H]]%lookup_insert_Some Hpc; cbn in *; [by apply Hw|].
    destruct (I7 _ _ H Hpc) as [? Hdat]. split; [done|]. rewrite Hother; [done|].
    intros E. destruct (I4 _ _ H) as [_ Hd']. rewrite E in Hd'.
    pose proof (I3 _ _ _ Hd Hd') as Ep. apply dot_new_inj in Ep. by apply (I6 _ _ _ _ Ht H) in Ep.
  - intros p i Hn H. destruct (I8 _ _ Hn H) as (d & ? & ?). exists d. split; [|done].
    rewrite Hother; [done|]. intros ->. pose proof (I3 _ _ _ H Hd) as ->. by rewrite is_new_dot in Hn.
Qed.

(** Unlinking names that no serializer is using. *)
Lemma inv_unlink p d data n ths : is_new p = false -> dc_inv (DcSys d data n ths) ->
  dc_inv (DcSys (delete p d) data n ths).
Proof.
  intros Hp [I1 I2 I3 I4 I5 I6 I7 I8]. cbn in *. split; cbn; try done.
  - intros q i [_ H]%lookup_delete_Some. eauto.
  - intros q q' i [_ H]%lookup_delete_Some [_ H']%lookup_delete_Some. eauto.
  - intros t th H. destruct (I4 _ _ H) as [H1 H2]. split; [done|].
    rewrite lookup_delete_ne; [done|by apply not_new_ne].
  - intros q Hn [i [Hq H]%lookup_delete_Some]. eauto.
  - intros q i Hn [_ H]%lookup_delete_Some. eauto.
Qed.

(** A serializer that ends: its ".new" name goes. *)
Lemma inv_finish t th s : y_threads s !! t = Some th -> dc_inv s ->
  dc_inv (DcSys (delete (dot_new (th_path th)) (y_dir s)) (y_data s) (y_next s)
            (delete t (y_threads s))).
Proof.
  intros Ht [I1 I2 I3 I4 I5 I6 I7 I8]. split; cbn.
  - intros q i [_ H]%lookup_delete_Some. eauto.
  - intros u th' [_ H]%lookup_delete_Some. eauto.
  - intros q q' i [_ H]%lookup_delete_Some [_ H']%lookup_delete_Some. eauto.
  - intros u th' [Hu H]%lookup_delete_Some. destruct (I4 _ _ H) as [H1 H2]. split; [done|].
    rewrite lookup_delete_ne; [done|]. intros E. apply dot_new_inj in E.
    by apply (I6 _ _ _ _ Ht H) in E.
  - intros q Hn [i [Hq H]%lookup_delete_Some].
    destruct (I5 q Hn) as (u & th' & H1 & ->); [eauto|]. exists u, th'. split; [|done].
    rewrite lookup_delete_ne; [done|]. intros <-. rewrite Ht in H1. by injection H1 as <-.
  - intros u v th1 th2 [Hu H]%lookup_delete_Some [Hv H']%lookup_delete_Some. eauto.
  - intros u th' [_ H]%lookup_delete_Some. eauto.
  - intros q i Hn [_ H]%lookup_delete_Some. eauto.
Qed.

(** Giving a whole file a readable name. *)
Lemma inv_link p i file d data n ths : is_new p = false -> dc_inv (DcSys d data n ths) ->
  (i < n)%nat -> (forall q, d !! q <> Some i) -> data !! i = Some file -> whole file ->
  dc_inv (DcSys (<[p := i]> d) data n ths).
Proof.
  intros Hp [I1 I2 I3 I4 I5 I6 I7 I8] Hi Hq Hd Hw. cbn in *. split; cbn; try done.
  - intros q j [[<- <-]|[_ H]]%lookup_insert_Some; eauto.
  - intros q q' j [[<- <-]|[Hn H]]%lookup_insert_Some [[<- E]|[Hn' H']]%lookup_insert_Some; try done.
    + by destruct (Hq q').
    + subst. by destruct (Hq q).
    + eauto.
  - intros t th H. destruct (I4 _ _ H) as [H1 H2]. split; [done|].
    rewrite lookup_insert_ne; [done|by apply not_new_ne].
  - intros q Hn [j [[<- <-]|[_ H]]%lookup_insert_Some]; [congruence|eauto].
  - intros q j Hn [[<- <-]|[_ H]]%lookup_insert_Some; eauto.
Qed.

Lemma dc_step_inv s s' : dc_step false s s' -> dc_inv s -> dc_inv s'.
Proof.
  intros Hs Hi. pose proof Hi as [I1 I2 I3 I4 I5 I6 I7 I8]. destruct Hs as
    [t r path url s Ht Hp Hd|t th s Ht Hpc Hb|t th n s Ht Hpc Hok|t th i s Ht Hpc Hd|t th s Ht Hpc
    |t th s Ht Hpc|p s Hp|p stamp i s Hd Hp Hp'].
  - by apply inv_open.
  - by apply inv_thread; auto.
  - apply inv_thread; [done|done|eauto|]. intros Hw. split; [done|].
    destruct (Z.eqb_spec n (zlen (file_bytes (th_reply th) (th_url th)))) as [->|]; [|done].
    rewrite lookup_insert_eq. by rewrite ztake_all.
  - destruct (I4 _ _ Ht) as [Hp Hd']. rewrite Hd in Hd'. injection Hd' as ->.
    destruct (I7 _ _ Ht Hpc) as [Hok Hdata].
    eapply inv_link; [exact Hp|by apply inv_finish|by eapply I2| |exact Hdata|by eexists _, _].
    intros q [Hq H]%lookup_delete_Some. by pose proof (I3 _ _ _ H Hd).
  - by apply inv_thread; auto.
  - apply inv_unlink; [apply (I4 _ _ Ht)|by apply inv_finish].
  - apply inv_unlink; [by apply Hp|by destruct s].
  - destruct (I8 _ _ Hp Hd) as (data & Hdata & Hw).
    eapply inv_link; [exact Hp'|apply inv_unlink; [exact Hp|by destruct s]|by eapply I1| |exact Hdata|exact Hw].
    intros q [Hq H]%lookup_delete_Some. by pose proof (I3 _ _ _ H Hd).
Qed.

Lemma dc_reachable_inv s : dc_reachable false s -> dc_inv s.
Proof.
  revert s. apply (rtc_ind_r (R := dc_step false) dc_inv dc_init); [apply inv_init|].
  intros x y _ Hstep Hx. by eapply dc_step_inv.
Qed.

(** *** [serialize] *)

(** What [serialize] may do to the directory. *)
Definition serialize_post (r : reply123) (path url : bytes) (s : dcache) (o : outcome unit) (s' : dcache)
  : Prop :=
  (forall q, q <> path -> q <> dot_new path -> dc_files s' !! q = dc_files s !! q)
  /\ (dc_files s !! dot_new path = None -> dc_files s' !! dot_new path = None)
  /\ match o with
     | Ret _ => dc_files s' !! path = dc_files s !! path
                \/ (dc_files s' !! path = Some (file_bytes r url) /\ digest_ok r)
     | Throw _ => dc_files s' !! path = None
     | Undef => False
     end.

Lemma serialize_cases g env r path url s :
  is_new path = false -> (forall n, write_res env n <> Undef) ->
  serialize_post r path url s (serialize g env r path url s).1 (serialize g env r path url s).2.
Proof.
  intros Hp Hw. assert (path <> dot_new path) as Hne by by apply not_new_ne.
  assert (forall o, o = s \/ (exists t, o = set_rofs t s) -> serialize_post r path url s (Ret tt) o) as Hid.
  { intros o [->|[t ->]]; (split; [done|split; [done|by left]]). }
  unfold serialize, get, mbind, M_bind.
  destruct (_ <? _); [apply Hid; by left|]. destruct (_ <? _); [apply Hid; by left|].
  destruct (open_err env) as [eno|].
  { destruct (_ =? _); apply Hid; eauto. }
  destruct (dc_files s !! dot_new path) eqn:Ed; [apply Hid; by left|].
  unfold modify, try_M, raise, lift. cbn [set_files dc_files].
  assert (forall m : gmap bytes bytes, (forall q, q <> path -> q <> dot_new path -> m !! q = dc_files s !! q) ->
     forall e, serialize_post r path url s (Throw e) (set_files (delete path (delete (dot_new path) m)) s)) as Hfail.
  { intros m Hm e. split; [|split].
    - intros q Hq Hq'. cbn. rewrite !lookup_delete_ne by done. by apply Hm.
    - intros _. cbn. rewrite lookup_delete_ne by done. apply lookup_delete_eq.
    - cbn. apply lookup_delete_eq. }
  assert (forall x q, q <> path -> q <> dot_new path ->
            <[dot_new path := x]> (dc_files s) !! q = dc_files s !! q) as Hins.
  { intros x q _ Hq. by rewrite lookup_insert_ne. }
  destruct (bool_decide _) eqn:Edig; cbn [negb]; [|apply (Hfail (<[dot_new path := []]> (dc_files s))), Hins].
  apply bool_decide_eq_true in Edig.
  destruct (write_res env _) as [wrote|e|] eqn:Ew; [| |by destruct (Hw _ Ew)].
  2: { apply (Hfail (<[dot_new path := []]> (dc_files s))), Hins. }
  cbn [set_files dc_files]. rewrite insert_insert_eq.
  destruct (negb _); [apply (Hfail (<[dot_new path := _]> (dc_files s))), Hins|].
  destruct (rename_res env); [apply (Hfail (<[dot_new path := _]> (dc_files s))), Hins|].
  cbn. split; [|split].
  - intros q Hq Hq'. cbn. rewrite lookup_insert_ne, lookup_delete_ne, lookup_insert_ne by done. done.
  - intros _. cbn. rewrite lookup_insert_ne by done. apply lookup_delete_eq.
  - right. split; [apply lookup_insert_eq|done].
Qed.

(** *** [hash] *)

Lemma hexlownibble_not_w v : hexlownibble v <> "w"%char.
Proof.
  unfold hexlownibble. intros E. apply (f_equal zc) in E.
  assert (0 <= Z.land v 15 < 16) as Hr.
  { change 15 with (Z.ones 4). rewrite Z.land_ones by lia. apply Z.mod_pos_bound. lia. }
  change (zc "w"%char) with 119 in E. destruct (9 <? Z.land v 15) eqn:E9;
    rewrite zc_chr in E by lia; lia.
Qed.

(** The names [hash] makes never end in ".new". *)
Lemma hash_not_new g s : 0 <= hexdigits g < 32 -> is_new (hash g s) = false.
Proof.
  intros Hd. unfold is_new, endswith. apply bool_decide_eq_false. intros [k Hk].
  unfold hash in Hk. set (hd := hexdigest _) in *.
  assert (zlen hd = 32) as Hl by (unfold zlen, hd; by rewrite length_hexdigest).
  pose proof (hexdigest_chars (threeroe_of s (hashseed g) 0)) as Hc. fold hd in Hc.
  rewrite <- (ztake_zdrop hd (hexdigits g)) in Hc by lia. apply Forall_app in Hc as [_ Hc].
  pose proof (zlen_zdrop hd (hexdigits g) ltac:(lia)) as Ez.
  destruct (zdrop (hexdigits g) hd) as [|c l] using rev_ind; [rewrite (@zlen_nil ascii) in Ez; lia|].
  change (lit ".new") with (lit ".ne" ++ ["w"%char]) in Hk. rewrite !app_assoc in Hk.
  apply app_inj_tail in Hk as [_ ->].
  apply Forall_app in Hc as [_ Hc]. inversion Hc as [|? ? [v Hv] _]; subst.
  by destruct (hexlownibble_not_w v).
Qed.

(** *** [refresh] *)

(** Where the reply that [refresh] returned may come from. *)
Definition from_upstream (upstream : req123 -> reply123 -> outcome (bool * reply123)) (req : req123)
    (r : reply123) : Prop := exists r0 b, upstream req r0 = Ret (b, r).

(** Fresh, or stale (times are in nanoseconds) by less than what the server and
    the request allow together, and than what the request allows at most. *)
Definition within_swr (now : Z) (req : req123) (r : reply123) : Prop :=
  no_cache req = false
  /\ (now < expires r
      \/ (now - expires r < stale_while_revalidate r + 10 ^ 9 * past_stale_while_revalidate req
          /\ forall ms, max_stale req = Some ms -> now - expires r < 10 ^ 9 * ms)).

Definition within_sie (now : Z) (req : req123) (r : reply123) : Prop :=
  valid r = true /\ now - expires r <= 10 ^ 9 * stale_if_error req.

Lemma i64_eq z v : i64 z = Ret v -> v = z.
Proof. unfold i64. case_match; [by intros [= <-]|done]. Qed.

Lemma reply_ttl_eq now r ttl : reply_ttl now r = Ret ttl -> ttl = expires r - now.
Proof. apply i64_eq. Qed.

Lemma net_swr_spec req r swr : net_swr req r = Ret swr ->
  forall t, t < swr ->
    t < stale_while_revalidate r + 10 ^ 9 * past_stale_while_revalidate req
    /\ forall ms, max_stale req = Some ms -> t < 10 ^ 9 * ms.
Proof.
  unfold net_swr, secs. intros H t Ht. inv_ret. apply i64_eq in E, E0. subst.
  destruct (max_stale req) as [m|].
  - inv_ret. apply i64_eq in E. subst. destruct (_ <? _) eqn:El in Ht; (split; [lia|]); intros ms [= <-]; lia.
  - inv_ret. subst. split; [lia|]. discriminate.
Qed.

Lemma usable_sie req r ttl now : reply_ttl now r = Ret ttl -> usable req r ttl = Ret true ->
  within_sie now req r.
Proof.
  unfold usable. intros Ht%reply_ttl_eq H. destruct (valid r) eqn:Ev; [|done]. unfold secs in H. inv_ret.
  apply i64_eq in E. subst. split; [done|]. lia.
Qed.

Lemma upstream_refresh_result g upstream env req path r det usbl s r' s' :
  upstream_refresh g upstream env req path r det usbl s = (Ret r', s') ->
  (r' = r /\ usbl = true /\ dc_disconnected s = true) \/ upstream req r = Ret (true, r')
  \/ (upstream req r = Ret (false, r') /\ no_cache req = false).
Proof.
  unfold upstream_refresh. intros H. inv_M. injection E as <- <-.
  destruct (dc_disconnected s && usbl) eqn:Ed.
  - apply andb_true_iff in Ed as [? ?]. inv_M. by left.
  - right. inv_M. destruct a as [[|] r1]; inv_M; [by left|].
    destruct (no_cache req); [discriminate|]. inv_M. by right.
Qed.

Lemma refresh_result g upstream env ts req s r s' :
  refresh g upstream env ts req s = (Ret r, s') ->
  let cached stamp s := (deserialize stamp (hash g (urlstem req)) s).1 = Ret r in
  from_upstream upstream req r
  \/ (cached (stamp1 ts) s /\ (within_swr (t_ttl ts) req r \/ within_sie (t_ttl ts) req r))
  \/ (exists s1, cached (stamp2 ts) s1 /\ within_sie (t_ttl2 ts) req r).
Proof.
  intros H cached. unfold refresh in H. apply try_M_inv in H as [H|(e & s1 & _ & H)]; [|discriminate].
  inv_M. apply reply_ttl_eq in E1 as Et. subst a1.
  destruct (negb (no_cache req) && (0 <? expires a - t_ttl ts)) eqn:Eh.
  { apply andb_true_iff in Eh as [En%negb_true_iff Et]. inv_M. right; left.
    split; [by unfold cached; rewrite E|]. left. split; [done|]. left. lia. }
  destruct (negb (no_cache req) && (- a0 <? expires a - t_ttl ts)) eqn:Es.
  { apply andb_true_iff in Es as [En%negb_true_iff Et]. inv_M. right; left.
    split; [by unfold cached; rewrite E|]. left. split; [done|]. right. apply (net_swr_spec _ _ _ E0). lia. }
  inv_M. apply try_M_inv in H as [H|(e & s2 & _ & H)].
  - apply upstream_refresh_result in H as [(-> & -> & _)|[H|[H _]]].
    + right; left. split; [by unfold cached; rewrite E|]. right. by eapply usable_sie.
    + left. by eexists _, _.
    + left. by eexists _, _.
  - destruct a2; [|discriminate]. inv_M. destruct a4; cbn [negb] in H; [|discriminate].
    inv_M. right; right. exists s2. split; [by unfold cached; rewrite E4|]. by eapply usable_sie.
Qed.

(** ** Properties *)

(** A cache file reads back: whatever reply of the right types and
    consistent digest [serialize] writes, the file it writes deserializes to
    exactly that reply, and to the url it was stored under. *)
Theorem cache_file_roundtrip r url :
  writable r url ->
  deserialize_no_unlink (Some (file_bytes r url)) true = Ret (r, Some url).
Proof. intros H. by apply (deserialize_file_bytes r url true). Qed.

Definition reply_ex : reply123 :=
  Reply MAGIC 0 1700000000000000000 18446744073709551615 (-5) 60000000000 7 (-1) 0 2
    (content_hexdigest (lit "data")) (lit "data").

Lemma cache_file_roundtrip_witness :
  deserialize_no_unlink (Some (file_bytes reply_ex (lit "/a/b"))) true = Ret (reply_ex, Some (lit "/a/b")).
Proof.
  apply (cache_file_roundtrip reply_ex (lit "/a/b")).
  split; [split|..]; vm_compute; intuition (discriminate || reflexivity).
Defined.

(** Robustness: on any file whatsoever, truncated, corrupted or with
    hostile lengths, [deserialize] returns; it never throws and never reads
    out of bounds; what it returns is the invalid reply or has the right magic
    number and a content that is part of the file and matches the digest in
    it; and a file that could not be read is no longer under its name. *)
Theorem deserialize_robust stamp path s :
  exists r s', deserialize stamp path s = (Ret r, s')
    /\ (r = reply_default
        \/ exists f, dc_files s !! path = Some f /\ magic r = MAGIC /\ digest_ok r
             /\ exists pre post, f = pre ++ content r ++ post)
    /\ (is_throw (deserialize_no_unlink (dc_files s !! path) false) = true ->
        dc_files s' !! path = None).
Proof.
  destruct (deserialize_no_unlink_sound (dc_files s !! path) false) as [Hdef Hsound].
  unfold deserialize, get, mbind, M_bind.
  destruct (deserialize_no_unlink (dc_files s !! path) false) as [[r u]|e|] eqn:E; [| |done].
  - exists r, s. split; [done|]. split; [|done].
    destruct (Hsound r u eq_refl) as [->|(f & Hf & Hm & Hd & pre & post & -> & _)]; [by left|right].
    exists (pre ++ content r ++ post). split_and!; eauto.
  - eexists _, _. split; [reflexivity|]. split; [by left|]. intros _. cbn.
    destruct (dc_files s !! path) eqn:Ef; [|done]. cbn.
    rewrite lookup_insert_ne; [apply lookup_delete_eq|].
    intros E'. apply (f_equal length) in E'. rewrite !length_app in E'. cbn in E'. lia.
Qed.

(** C11.  Readers never see a partial file: in every state that any number
    of concurrent serializers (cut at their system calls, failing anywhere),
    evictions of finished files and renamings of bad ones can reach, every
    name that does not end in ".new" denotes a complete serialization of some
    reply whose content matched its digest when it was written.  (With an
    evictor that may also unlink ".new" files this fails: see
    [evicting_new_breaks].) *)
Theorem readers_see_whole_files s p i :
  dc_reachable false s -> is_new p = false -> y_dir s !! p = Some i ->
  exists r url, digest_ok r /\ y_data s !! i = Some (file_bytes r url).
Proof.
  intros Hr Hp Hi. destruct (inv_whole s (dc_reachable_inv s Hr) p i Hp Hi) as (d & Hd & r & url & ? & ->).
  by exists r, url.
Qed.

(** [serialize], whatever fails: names other than [path] and
    "[path].new" are untouched; it never leaves behind the exclusive-creation
    lock it took; if it throws, [path] is gone; if it returns, [path] is
    either as before or holds the complete new file. *)
Theorem serialize_spec g env r path url s :
  is_new path = false -> (forall n, write_res env n <> Undef) ->
  serialize_post r path url s (serialize g env r path url s).1 (serialize g env r path url s).2.
Proof. apply serialize_cases. Qed.

(** C24.  Bounded staleness of [refresh]: a reply it returns without an
    exception was obtained from upstream by this call; or it was read from the
    cache, and either the request allowed caching and the reply is fresh, or
    stale by less than the server's stale-while-revalidate and the request's
    extra together and by less than the request's max-stale, if it has one; or
    it is valid and stale by no more than the request's stale-if-error.  A
    no-cache request never gets a merely cached reply unless stale-if-error
    allows it. *)
Theorem refresh_bounded_staleness g upstream env ts req s r s' :
  refresh g upstream env ts req s = (Ret r, s') ->
  let cached stamp s := (deserialize stamp (hash g (urlstem req)) s).1 = Ret r in
  from_upstream upstream req r
  \/ (cached (stamp1 ts) s /\ (within_swr (t_ttl ts) req r \/ within_sie (t_ttl ts) req r))
  \/ (exists s1, cached (stamp2 ts) s1 /\ within_sie (t_ttl2 ts) req r).
Proof. apply refresh_result. Qed.

(** ** Witnesses and counterexamples *)

Definition path_ex : bytes := lit "0/ab".
Definition th_ex (ino : nat) (pc : ser_pc) : ser_thread :=
  SerThread reply_ex path_ex (lit "/a/b") ino pc.
Definition file_ex : bytes := file_bytes reply_ex (lit "/a/b").

Lemma digest_ok_ex : digest_ok reply_ex.
Proof. reflexivity. Qed.

(** One serializer runs through. *)
Lemma sys_ex_reachable : exists s, dc_reachable false s /\ y_dir s !! path_ex = Some 0%nat.
Proof.
  eexists. split.
  - eapply rtc_l; [apply (step_open false 0 reply_ex path_ex (lit "/a/b")); vm_compute; reflexivity|].
    eapply rtc_l; [apply (step_write false 0 (th_ex 0 Opened) (zlen file_ex));
      [reflexivity|reflexivity|apply digest_ok_ex]|].
    eapply rtc_l; [|apply rtc_refl].
    eapply (step_rename false 0 (th_ex 0 Written) 0); vm_compute; reflexivity.
  - vm_compute. reflexivity.
Qed.

Lemma readers_see_whole_files_witness :
  exists s, y_dir s !! path_ex = Some 0%nat
    /\ exists r url, digest_ok r /\ y_data s !! 0%nat = Some (file_bytes r url).
Proof.
  destruct sys_ex_reachable as (s & Hr & Hd). exists s. split; [exact Hd|].
  apply (readers_see_whole_files s path_ex 0 Hr); [vm_compute; reflexivity|exact Hd].
Defined.

(** The evictor lists every regular file of a directory, "<path>.new" files
    included.  If it unlinks one while its writer works, a second writer can
    create the name again, and the first one's rename moves the second one's
    file, still empty, to where readers look. *)
Lemma evicting_new_breaks :
  exists s, dc_reachable true s /\ is_new path_ex = false
    /\ y_dir s !! path_ex = Some 1%nat /\ y_data s !! 1%nat = Some [] /\ ~ whole [].
Proof.
  eexists. split; [|split; [reflexivity|]].
  { eapply rtc_l; [apply (step_open true 0 reply_ex path_ex (lit "/a/b")); vm_compute; reflexivity|].
    eapply rtc_l; [apply (step_write true 0 (th_ex 0 Opened) (zlen file_ex));
      [reflexivity|reflexivity|apply digest_ok_ex]|].
    eapply rtc_l; [apply (step_unlink true (dot_new path_ex)); discriminate|].
    eapply rtc_l; [apply (step_open true 1 reply_ex path_ex (lit "/a/b")); vm_compute; reflexivity|].
    eapply rtc_l; [|apply rtc_refl].
    eapply (step_rename true 0 (th_ex 0 Written) 1); vm_compute; reflexivity. }
  split; [vm_compute; reflexivity|]. split; [vm_compute; reflexivity|].
  intros (r & url & _ & E). apply (f_equal length) in E. unfold file_bytes, pod_bytes in E.
  rewrite !length_app, !length_le in E. cbn in E. lia.
Qed.

Definition g_ex : dc_config := DcConfig 1 2 true 16777216.
Definition stats0 : dc_stats := DcStats 0 0 0 0 0 0 0 0 0.
Definition cache0 : dcache := DCache ∅ [] false 0 [] stats0.
Definition env_ex : ser_env := SerEnv 5 0 None (fun n => Ret n) None.
Definition env_short : ser_env := SerEnv 5 0 None (fun n => Ret (n - 1)) None.

Lemma serialize_spec_witness :
  serialize_post reply_ex path_ex (lit "/a/b") cache0
    (serialize g_ex env_short reply_ex path_ex (lit "/a/b") cache0).1
    (serialize g_ex env_short reply_ex path_ex (lit "/a/b") cache0).2.
Proof.
  apply (serialize_spec g_ex env_short reply_ex path_ex (lit "/a/b") cache0);
    [vm_compute; reflexivity|discriminate].
Defined.

Definition req_ex : req123 := Req (lit "/a/b") 10 0 false None false.
Definition clocks_ex (now : Z) : rf_clocks := RfClocks now now now (lit "1.0") (lit "1.1").

Lemma refresh_bounded_staleness_witness :
  let cached stamp s := (deserialize stamp (hash g_ex (lit "/a/b")) s).1 = Ret reply_ex in
  from_upstream (fun _ _ => Ret (true, reply_ex)) req_ex reply_ex
  \/ (cached (lit "1.0") cache0
      /\ (within_swr 1700000000000000001 req_ex reply_ex \/ within_sie 1700000000000000001 req_ex reply_ex))
  \/ (exists s1, cached (lit "1.1") s1 /\ within_sie 1700000000000000001 req_ex reply_ex).
Proof.
  apply (refresh_bounded_staleness g_ex (fun _ _ => Ret (true, reply_ex)) env_ex
    (clocks_ex 1700000000000000001) req_ex cache0 reply_ex
    (refresh g_ex (fun _ _ => Ret (true, reply_ex)) env_ex
       (clocks_ex 1700000000000000001) req_ex cache0).2).
  vm_compute. reflexivity.
Defined.

(** The stale-while-revalidate branch does not ask whether the reply is
    [valid()]: with a past-stale-while-revalidate longer than the time since
    1970 a miss is returned as an answer. *)
Example refresh_returns_invalid :
  (refresh g_ex (fun _ _ => Ret (true, reply_ex)) env_ex (clocks_ex 1700000000000000000)
     (Req (lit "/a/b") 10 2000000000 false None false) cache0).1 = Ret reply_default
  /\ valid reply_default = false.
Proof. vm_compute. done. Qed.

(** A cache that is disconnected while it serves a stale reply counts neither
    "too soon" nor "started": the documented balance
    stale_while_revalidate = too_soon + started does not hold. *)
Example maybe_rf_balance :
  let s := (maybe_bg_upstream_refresh 600000000 req_ex path_ex reply_ex
              (set_stats inc_swr (DCache ∅ [] true 0 [] stats0))).2 in
  dc_stale_while_revalidate (dc_st s) = 1
  /\ dc_maybe_rf_too_soon (dc_st s) + dc_maybe_rf_started (dc_st s) = 0.
Proof. vm_compute. done. Qed.
