(* ===== verification/ServerParse.v ===== *)
(** * Parsing requests (lib/fs123server.cpp, include/fs123/httpheaders.hpp)

    [req::parse_and_handle] up to the handler it calls: finding the sigil,
    the protocol version, the function and the path, decrypting an /e
    envelope, and turning the query of each function into the arguments of
    its handler.  libevent supplies the pieces of the URI and [uridecode].

    Theorems: whatever the request, a handler is only ever called with a path
    that is safe to append to the export root and with a length and an offset
    that fit the reply buffer and the integers' widths; and the requests that
    the client's builders make are parsed into what they ask for. *)

From Stdlib Require Import Ascii String ZArith Lia.
From stdpp Require Import base gmap strings list numbers.
From S2P Require Import Prelude ScanInt StrUtils Threeroe SvTo UcharSpan Base64 ContentCodec Backend.

#[local] Open Scope Z_scope.

(** ** The pieces *)

(** The deepest [system_error] of a nest decides: an http error is its own
    status, any other is a 500. *)
Fixpoint exnest (e : exn) : list exn :=
  match e with ENested outer inner => exnest outer ++ exnest inner | _ => [e] end.

Fixpoint status_of (l : list exn) : Z :=
  match l with
  | [] => 500
  | EHttp status :: _ => status
  | ESystem _ :: _ | ECurl _ _ :: _ => 500
  | _ :: l' => status_of l'
  end.

Definition http_status_from_evnest (e : exn) : Z := status_of (rev (exnest e)).

Definition dquote : ascii := chr 34.

(** [parse_quoted_etag] *)
Definition parse_quoted_etag (et : bytes) : outcome Z :=
  let qidx := find_char et dquote 0 in
  if zlen et <=? qidx then Throw EInvalidArg else
  (* et_sv[qidx+1]: one past the end when the quote is the last character *)
  c ← sv_idx et (qidx + 1);
  if bool_decide (c = "0"%char) then Throw EInvalidArg else
  '(et64, qidx2) ← scanint_u 64 10 false et (qidx + 1);
  if zlen et <=? qidx2 then Throw EInvalidArg else
  c2 ← sv_idx et qidx2;
  if bool_decide (c2 = dquote) then Ret et64 else Throw EInvalidArg.

Definition etag_h (esid : bytes) : Z :=
  if decide (esid = []) then 0 else hash64 (threeroe_of esid 0 0).

Definition etag_mangle (etag_inner : Z) (esid : bytes) : bytes :=
  dquote :: to_string (Z.lxor etag_inner (etag_h esid)) ++ [dquote].

Definition inm_demangle (inm : bytes) (esid : bytes) : outcome Z :=
  if decide (inm = []) then Ret 0 else
  try_catch (v ← parse_quoted_etag inm; Ret (Z.lxor (etag_h esid) v)) (fun _ => Ret 0).

Definition validate_path (pi : bytes) : outcome unit :=
  match pi with
  | [] => Ret tt
  | c :: _ =>
      if negb (bool_decide (c = "/"%char)) then Throw (EHttp 400) else
      if negb (find_char pi NUL 0 =? npos) then Throw (EHttp 400) else
      if negb (find_str pi (lit "/../") 0 =? npos) then Throw (EHttp 400) else
      if endswith pi (lit "/..") then Throw (EHttp 400) else
      Ret tt
  end.

(** ** Requests *)

Inductive method_e := GET | POST | HEAD | PUT | DELETE | OPTIONS | TRACE | CONNECT | PATCH.

#[export] Instance method_eq_dec : EqDecision method_e.
Proof. solve_decision. Defined.

(** What libevent hands over: the method, the URI as received and its path and
    query, and two headers. *)
Record http_req := HttpReq {
  hr_method : method_e;
  hr_uri : bytes;
  hr_path : option bytes;
  hr_query : option bytes;
  hr_accept_encoding : option bytes;
  hr_if_none_match : option bytes
}.

Record secret_mgr := SecretMgr {
  get_encode_sid : outcome bytes;
  get_sharedkey : bytes -> outcome bytes
}.

Record server := Server {
  the_secret_manager : option secret_mgr;
  accept_plaintext_requests : bool;
  uridecode : bytes -> option bytes  (* evhttp_uridecode(_, 0, &sz) *)
}.

(** The members of [fs123p7::req] the parser fills in. *)
Record parsed := Parsed {
  accept_encoding : Z;
  rq_minor : Z;
  prefix : bytes;
  function : bytes;
  path_info : bytes;
  query : option bytes;         (* None: query.data() is nullptr *)
  envelope_sid : bytes;
  inm : bytes;
  kvpairs : list (bytes * bytes)
}.

Definition fs123_protocol_minor_min : Z := 2.
Definition fs123_protocol_minor_max : Z := 3.
Definition SIGIL : bytes := lit "/fs123/7/".
Definition FS123_REQUEST : bytes := lit "req123".

Definition may_use_secrets (svr : server) (fn : bytes) : bool :=
  match the_secret_manager svr with
  | Some _ => negb (bool_decide (fn = lit "p"))
  | None => false
  end.

(** [/SEL/ECT/OR/fs123/7/MINOR/FUNCTION/PA/TH] to minor, prefix, function and
    path. *)
Definition parse_upath (upath : bytes) : outcome (Z * bytes * bytes * bytes) :=
  let start_of_sigil := find_str upath SIGIL 0 in
  if start_of_sigil =? npos then Throw (EHttp 400) else
  let nextoff := start_of_sigil + zlen SIGIL in
  '(minor, e) ← svscan T_int upath nextoff;
  let nextoff := e + 1 in
  if minor <? fs123_protocol_minor_min then Throw (EHttp 400) else
  if fs123_protocol_minor_max <? minor then Throw (EHttp 400) else
  if zlen upath <=? nextoff then Throw (EHttp 400) else
  c ← sv_idx upath (nextoff - 1);
  if negb (bool_decide (c = "/"%char)) then Throw (EHttp 400) else
  pre ← substr upath 0 nextoff;
  let pidx := find_char upath "/"%char nextoff in
  if negb (pidx =? npos) then
    pi ← substr upath pidx npos;
    fn ← substr upath nextoff (pidx - nextoff);
    Ret (minor, pre, fn, pi)
  else
    fn ← substr upath nextoff npos;
    Ret (minor, pre, fn, []).

(** [/FUNCTION/PA/TH?QUERY], the plaintext of an envelope. *)
Definition parse_envelope_text (dec : bytes) : outcome (bytes * bytes * option bytes) :=
  match dec with
  | c :: _ => if bool_decide (c = "/"%char) then Ret tt else Throw (EHttp 400)
  | [] => Throw (EHttp 400)
  end;;
  let queryidx := find_last_of dec "?"%char in
  q ← (if queryidx =? npos then Ret None
       else q ← substr dec (queryidx + 1) npos; Ret (Some q));
  let pidx := find_char dec "/"%char 1 in
  if negb (pidx =? npos) then
    fn ← substr dec 1 (pidx - 1);
    pi ← substr dec pidx (u64 (queryidx - pidx));
    Ret (fn, pi, q)
  else
    fn ← substr dec 1 (u64 (queryidx - 1));
    Ret (fn, [], q).

(** [content_codec::decode] of the whole of [decode64], in place. *)
Definition decode_envelope `{Secretbox} (sm : secret_mgr) (pi : bytes)
  : outcome (bytes * bytes * bytes * option bytes) :=
  b64 ← substr pi 1 npos;
  decode64 ← Decode b64;
  hdr ← hdr_ctor_wire decode64;
  match content_decode CE_FS123_SECRETBOX (Span 0 (zlen decode64) 0 (zlen decode64))
          (get_sharedkey sm) decode64 with
  | (Ret w, mem) =>
      '(fn, pi, q) ← parse_envelope_text (contents mem w);
      Ret (h_keyid hdr, fn, pi, q)
  | (Throw e, _) => Throw e
  | (Undef, _) => Undef
  end.

(** ** The reply buffer *)

Definition max_reply_size : Z := 1025 * 1024.
Definition secretbox_padding : Z := 32.
Definition secretbox_leadersz : Z := 284 + MACBYTES.  (* sizeof(fs123_secretbox_header) is 284 *)
Definition fs123_max_headersz : Z := 1024.
Definition final_netstring_bytes : Z := 2.

(** The buffer is allocated at offset 0; [buf] is [None] before that. *)
Definition blob_size (sz : Z) : Z :=
  secretbox_leadersz + fs123_max_headersz + sz + secretbox_padding + final_netstring_bytes.

Definition allocate_pbuf (buf : option padded_uchar_span) (sz : Z) : outcome padded_uchar_span :=
  if bool_decide (is_Some buf) then Throw ELogic else
  if max_reply_size <? sz then Throw ERuntime else
  padded_uchar_span_ctor 0 (blob_size sz) (secretbox_leadersz + fs123_max_headersz) 0.

(** ** The handlers' arguments *)

Inductive hcall :=
| Call_a
| Call_d (inm64 : Z) (start : bytes)
| Call_f (inm64 len offset bufdata : Z)
| Call_l
| Call_s
| Call_x (len : Z) (name : bytes)
| Call_n
| Call_p (inm64 : Z).

Definition the_query (p : parsed) : bytes := match query p with Some q => q | None => [] end.

(** The query of /d: the length in KiB and where [start] begins. *)
Definition parse_d_query (minor : Z) (q : bytes) : outcome (Z * Z) :=
  rethrow_nested (EHttp 400)
    (if minor <? 3 then
       '(lenkib, from) ← svscan T_u64 q 0;
       '(begin, from) ← svscan T_int q (from + 1);
       Ret (lenkib, if negb (begin =? 0) then zlen q else from + 1)
     else
       '(lenkib, start_offset) ← svscan T_u64 q 0;
       c ← sv_at q start_offset;
       if bool_decide (c = ";"%char) || bool_decide (c = ","%char)
       then Ret (lenkib, start_offset + 1) else Throw ERuntime).

Definition parse_f_query (q : bytes) : outcome (Z * Z) :=
  rethrow_nested (EHttp 400)
    ('(lenkib, from) ← svscan T_u64 q 0;
     '(offsetkib, _) ← svscan T_u64 q (from + 1);
     Ret (lenkib, offsetkib)).

Definition validator_space : Z := 32.

(** A parsed request becomes a call of a handler, with the reply buffer as it
    is by then and [requested_len]. *)
Definition handled : Type := hcall * option padded_uchar_span * Z.

Definition dispatch_d (p : parsed) (inm64 : Z) : outcome handled :=
  '(lenkib, start_offset) ← parse_d_query (rq_minor p) (the_query p);
  if max_reply_size / 1024 <? lenkib then Throw (EHttp 400) else
  let requested_len := lenkib * 1024 in
  start ← substr (the_query p) start_offset npos;
  buf ← allocate_pbuf None requested_len;
  start ← urlunescape start;
  Ret (Call_d inm64 start, Some buf, 0).

Definition dispatch_f (p : parsed) (inm64 : Z) : outcome handled :=
  '(lenkib, offsetkib) ← parse_f_query (the_query p);
  if max_reply_size / 1024 <? lenkib then Throw (EHttp 400) else
  let requested_len := lenkib * 1024 in
  buf ← allocate_pbuf None (requested_len + validator_space);
  buf ← subspan buf validator_space 0;
  if npos / 1024 <? offsetkib then Throw (EHttp 400) else
  Ret (Call_f inm64 requested_len (u64 (offsetkib * 1024)) (s_off buf), Some buf, requested_len).

Definition dispatch_x (svr : server) (p : parsed) : outcome handled :=
  let q := the_query p in
  '(lenkib, first_semiidx) ← svscan T_u64 q 0;
  if max_reply_size / 1024 <? lenkib then Throw (EHttp 400) else
  let requested_len := lenkib * 1024 in
  if zlen q <=? first_semiidx then Throw (EHttp 400) else
  c ← sv_idx q first_semiidx;
  if negb (bool_decide (c = ";"%char)) then Throw (EHttp 400) else
  let second_semiidx := find_char q ";"%char (first_semiidx + 1) in
  if zlen q <=? second_semiidx then Throw (EHttp 400) else
  let encnamelen := second_semiidx - (1 + first_semiidx) in
  encname ← substr q (first_semiidx + 1) encnamelen;
  match uridecode svr (c_str encname) with
  | None => Throw (EHttp 400)
  | Some name => Ret (Call_x requested_len (c_str name), None, 0)
  end.

Definition dispatch (svr : server) (p : parsed) (inm64 : Z) : outcome handled :=
  if decide (function p = lit "a") then Ret (Call_a, None, 0) else
  if decide (function p = lit "d") then dispatch_d p inm64 else
  if decide (function p = lit "f") then dispatch_f p inm64 else
  if decide (function p = lit "l") then Ret (Call_l, None, 0) else
  if decide (function p = lit "s") then Ret (Call_s, None, 0) else
  if decide (function p = lit "x") then dispatch_x svr p else
  if decide (function p = lit "n") then Ret (Call_n, None, 0) else
  if decide (function p = lit "p") then Ret (Call_p inm64, None, 0) else
  Throw (EHttp 400).

(** ** [req::parse_and_handle], up to the handler *)

(** Decode the path and find the function in it; the checks on secrets. *)
Definition parse_path (svr : server) (h : http_req) : outcome parsed :=
  let ae := match hr_accept_encoding h with Some s => encoding_stoi s | None => CE_IDENT end in
  uri_path ← match hr_path h with Some s => Ret s | None => Throw (ESystem 22) end;
  decoded ← match uridecode svr uri_path with Some s => Ret s | None => Throw (ESystem 22) end;
  '(minor, pre, fn, pi) ← parse_upath (c_str decoded);
  if may_use_secrets svr fn && negb (ae =? CE_FS123_SECRETBOX) then Throw (EHttp 406) else
  Ret (Parsed ae minor pre fn pi None [] [] []).

(** An envelope is decrypted; anything else must be allowed as plaintext. *)
Definition open_envelope `{Secretbox} (svr : server) (h : http_req) (p : parsed) : outcome parsed :=
  if decide (function p = lit "e") then
    match path_info p with
    | c :: _ => if bool_decide (c = "/"%char) then Ret tt else Throw (EHttp 400)
    | [] => Throw (EHttp 400)
    end;;
    match the_secret_manager svr with
    | None => Throw (EHttp 400)
    | Some sm =>
        '(sid, fn, pi, q) ← decode_envelope sm (path_info p);
        Ret (Parsed (accept_encoding p) (rq_minor p) (prefix p) fn pi q sid (inm p) (kvpairs p))
    end
  else if may_use_secrets svr (function p) && negb (accept_plaintext_requests svr)
  then Throw (EHttp 406)
  else Ret (Parsed (accept_encoding p) (rq_minor p) (prefix p) (function p) (path_info p)
              (hr_query h) (envelope_sid p) (inm p) (kvpairs p)).

(** Except for /p: GET or HEAD only, a safe path, and the request's own text
    as the first key-value pair. *)
Definition check_request (h : http_req) (p : parsed) : outcome parsed :=
  if decide (function p = lit "p") then Ret p else
  match hr_method h with GET | HEAD => Ret tt | _ => Throw (EHttp 403) end;;
  validate_path (path_info p);;
  let where_ := find_str (hr_uri h) (lit "/fs123/") 0 in
  if where_ =? npos then Throw (EHttp 500) else
  Ret (Parsed (accept_encoding p) (rq_minor p) (prefix p) (function p) (path_info p) (query p)
         (envelope_sid p) (inm p) (kvpairs p ++ [(FS123_REQUEST, zdrop where_ (hr_uri h))])).

(** The If-None-Match header up to its first comma, and its value. *)
Definition parse_inm (svr : server) (h : http_req) (p : parsed) : outcome (parsed * Z) :=
  esid ← match the_secret_manager svr with Some sm => get_encode_sid sm | None => Ret [] end;
  let inm := match hr_if_none_match h with Some s => s | None => [] end in
  let comma := find_char inm ","%char 0 in
  let inm := if comma =? npos then inm else ztake comma inm in
  inm64 ← inm_demangle inm esid;
  Ret (Parsed (accept_encoding p) (rq_minor p) (prefix p) (function p) (path_info p) (query p)
         (envelope_sid p) inm (kvpairs p), inm64).

Definition parse_request `{Secretbox} (svr : server) (h : http_req) : outcome (parsed * Z) :=
  p ← parse_path svr h;
  p ← open_envelope svr h p;
  p ← check_request h p;
  parse_inm svr h p.

Definition parse_and_dispatch `{Secretbox} (svr : server) (h : http_req)
  : outcome (parsed * handled) :=
  '(p, inm64) ← parse_request svr h;
  d ← dispatch svr p inm64;
  Ret (p, d).

(** ** Safe paths

    The components of a path, and what makes it safe to append to the export
    root: it is empty or starts with a slash, holds no NUL (so that the whole
    of it reaches the system call), and no component of it is "..". *)

Fixpoint components (l : bytes) : list bytes :=
  match l with
  | [] => [[]]
  | c :: l' =>
      if decide (c = "/"%char) then ([] :: components l')
      else match components l' with
           | x :: xs => (c :: x) :: xs
           | [] => [[c]]
           end
  end.

Definition path_safe (pi : bytes) : Prop :=
  (pi = [] \/ exists l, pi = ("/"%char :: l)) /\ (NUL ∉ pi) /\ (lit ".." ∉ components pi).

(** ** Lemmas *)

(** Where the components of a path are: the first at its start, the others
    after a slash, and each up to a slash or the end. *)
Definition ends_here (b : bytes) : Prop := b = [] \/ exists b', b = "/"%char :: b'.

Lemma components_at l :
  exists h t, components l = h :: t
    /\ (exists b, l = h ++ b /\ ends_here b)
    /\ forall x, x ∈ t -> exists a b, l = a ++ ("/"%char :: x ++ b) /\ ends_here b.
Proof.
  unfold ends_here. induction l as [|c l (h & t & E & (b & El & Hb) & Ht)]; cbn [components].
  - exists [], []. split_and!; [done|exists []; auto|]. by intros x Hx%elem_of_nil.
  - destruct (decide (c = "/"%char)) as [->|Hc]; rewrite E.
    + exists [], (h :: t). split_and!; [done|exists ("/"%char :: l); eauto|].
      intros x [->|Hx]%elem_of_cons; [exists [], b; cbn; by rewrite <- El|].
      destruct (Ht x Hx) as (a & b' & -> & Hb'). by exists ("/"%char :: a), b'.
    + exists (c :: h), t. split_and!; [done|exists b; cbn; by rewrite <- El|].
      intros x Hx. destruct (Ht x Hx) as (a & b' & -> & Hb'). by exists (c :: a), b'.
Qed.

Lemma find_char_npos s c : find_char s c 0 = npos -> zlen s < npos -> c ∉ s.
Proof.
  intros H Hl Hc. apply list_elem_of_split in Hc as (a & b & ->).
  assert (exists a' b', a ++ c :: b = a' ++ c :: b' /\ c ∉ a') as (a' & b' & E & Ha).
  { clear H Hl. induction a as [|d a IH]; [exists [], b; set_solver|].
    destruct (decide (d = c)) as [->|Hd]; [exists [], (a ++ c :: b); set_solver|].
    destruct IH as (a' & b' & E & Ha). exists (d :: a'), b'. cbn. rewrite E. set_solver. }
  rewrite E in H, Hl. rewrite (find_char_found _ c 0 [] a' b') in H; [|done|done|done].
  rewrite zlen_app, zlen_cons in Hl. pose proof (zlen_nonneg b'). lia.
Qed.

Lemma validate_path_safe pi : validate_path pi = Ret tt -> zlen pi < npos -> path_safe pi.
Proof.
  unfold validate_path, path_safe. intros H Hl. destruct pi as [|c pi].
  { cbn. set_solver. }
  apply if_throw_Ret in H as [G1%negb_false_iff%bool_decide_eq_true H]. subst c.
  apply if_throw_Ret in H as [G2%negb_false_iff%Z.eqb_eq H].
  apply if_throw_Ret in H as [G3%negb_false_iff%Z.eqb_eq H].
  apply if_throw_Ret in H as [G4%bool_decide_eq_false _].
  split_and!; [by right; exists pi|by apply find_char_npos|].
  destruct (components_at ("/"%char :: pi)) as (h & t & E & _ & Ht).
  assert (h = []) as -> by (cbn in E; by injection E as <- _).
  rewrite E. intros [Hx|Hx]%elem_of_cons; [done|].
  destruct (Ht _ Hx) as (a & b & Eb & [->|(b' & ->)]); rewrite Eb in *.
  - apply G4. rewrite app_nil_r. by exists a.
  - destruct (find_str_cases (a ++ "/"%char :: lit ".." ++ "/"%char :: b') (lit "/../") 0)
      as [(_ & Hk)|(n & En & Hn & Hz & _)]; [zlia| |].
    + apply (Hk (zlen a)); [zlia|]. rewrite zdrop_app by done. by exists b'.
    + rewrite En in G3. change (zlen (lit "/../")) with 4 in Hz. lia.
Qed.

Lemma svscan_u64_range sv start v r : svscan T_u64 sv start = Ret (v, r) -> 0 <= v < 2 ^ 64.
Proof. by apply scanint_u_range. Qed.

Lemma validate_path_Ret pi u : validate_path pi = Ret u -> validate_path pi = Ret tt.
Proof. by destruct u. Qed.

(** The checks every request but a /p passed. *)
Lemma parse_request_checked `{Secretbox} svr h p inm64 :
  parse_request svr h = Ret (p, inm64) -> function p <> lit "p" ->
  validate_path (path_info p) = Ret tt /\ (hr_method h = GET \/ hr_method h = HEAD).
Proof.
  intros HP Hp. unfold parse_request, parse_inm, check_request in HP. inv_ret.
  injection HP as <- _. cbn in Hp |- *.
  destruct (decide (function r0 = lit "p")) as [Hq|_].
  - inv_ret. subst. contradiction.
  - apply bind_Ret in E1 as (u & Em & E1). apply bind_Ret in E1 as (u' & Ev & E1).
    inv_ret. subst. cbn. split; [by eapply validate_path_Ret|].
    destruct (hr_method h); auto; discriminate.
Qed.

Ltac span_fields := cbn [bb_off bb_len s_off s_len].

(** A fresh buffer: room for the headers in front, and exactly [sz] bytes, the
    padding and the closing bytes behind. *)
Lemma allocate_pbuf_Ret buf sz b :
  0 <= sz -> allocate_pbuf buf sz = Ret b ->
  sz <= max_reply_size
  /\ b = Span 0 (blob_size sz) (secretbox_leadersz + fs123_max_headersz) 0.
Proof.
  intros Hsz Hb. unfold allocate_pbuf in Hb. inv_ret.
  apply Z.ltb_ge in G0. split; [done|].
  unfold padded_uchar_span_ctor in Hb. inv_ret. done.
Qed.

Lemma allocate_pbuf_ok sz : 0 <= sz <= max_reply_size ->
  allocate_pbuf None sz = Ret (Span 0 (blob_size sz) (secretbox_leadersz + fs123_max_headersz) 0).
Proof.
  intros Hsz. unfold allocate_pbuf. rewrite bool_decide_eq_false_2 by (by intros [? ?]).
  unfold max_reply_size in *. rewrite (proj2 (Z.ltb_ge _ _)) by lia.
  unfold padded_uchar_span_ctor, blob_size, secretbox_leadersz, fs123_max_headersz,
    secretbox_padding, final_netstring_bytes, MACBYTES, dynamic_extent, npos.
  rewrite (proj2 (Z.ltb_ge _ _)) by lia.
  rewrite wrap_small by lia. cbn -[Z.add Z.sub].
  by rewrite (proj2 (Z.ltb_ge _ _)) by lia.
Qed.

(** What a handler may rely on: [len] bytes at [bufdata] inside the buffer,
    with room for the validator and the headers in front and for the padding
    and the closing bytes behind; quantities within their bounds. *)
Definition f_args_ok (len offset bufdata : Z) (buf : option padded_uchar_span) (rlen : Z) : Prop :=
  rlen = len /\ 0 <= len <= max_reply_size - validator_space /\ (1024 | len)
  /\ 0 <= offset < 2 ^ 64 /\ (1024 | offset)
  /\ exists b, buf = Some b /\ in_bb b /\ bufdata = s_off b /\ s_len b = 0 /\ bb_off b = 0
       /\ bufdata = secretbox_leadersz + fs123_max_headersz + validator_space
       /\ bufdata + len + secretbox_padding + final_netstring_bytes = bb_len b.

Definition args_ok (c : hcall) (buf : option padded_uchar_span) (rlen : Z) : Prop :=
  match c with
  | Call_f _ len offset bufdata => f_args_ok len offset bufdata buf rlen
  | Call_d _ _ => exists b sz, buf = Some b /\ in_bb b /\ 0 <= sz <= max_reply_size
      /\ bb_off b = 0 /\ s_off b = secretbox_leadersz + fs123_max_headersz /\ s_len b = 0
      /\ bb_len b = s_off b + sz + secretbox_padding + final_netstring_bytes
      /\ avail_back b = sz + secretbox_padding + final_netstring_bytes
  | Call_x len _ => 0 <= len <= max_reply_size /\ buf = None
  | _ => buf = None
  end.

Lemma lenkib_bound lenkib : (max_reply_size / 1024 <? lenkib) = false -> 0 <= lenkib ->
  0 <= lenkib * 1024 <= max_reply_size.
Proof.
  intros G%Z.ltb_ge H. unfold max_reply_size in *.
  change (1025 * 1024 / 1024) with 1025 in G. lia.
Qed.

Lemma dispatch_f_ok p inm64 c buf n :
  dispatch_f p inm64 = Ret (c, buf, n) -> args_ok c buf n.
Proof.
  intros Hd. unfold dispatch_f in Hd. apply bind_Ret in Hd as ([lenkib offsetkib] & Eq & Hd).
  apply if_throw_Ret in Hd as [G1 Hd]. apply bind_Ret in Hd as (b0 & E0 & Hd).
  apply bind_Ret in Hd as (b & E & Hd). apply if_throw_Ret in Hd as [G2 Hd].
  injection Hd as <- <- <-. cbn [args_ok].
  unfold parse_f_query in Eq. inv_ret. destruct r as [l f]. apply bind_Ret in Eq as ([o f'] & Eo & Eq).
  injection Eq as -> ->. apply svscan_u64_range in E1, Eo.
  apply lenkib_bound in G1; [|lia]. apply allocate_pbuf_Ret in E0 as [Hsz ->]; [|unfold validator_space; lia].
  revert E. unfold f_args_ok. unfold max_reply_size, validator_space, blob_size, secretbox_leadersz,
    fs123_max_headersz, secretbox_padding, final_netstring_bytes, MACBYTES in *. intros E.
  rewrite subspan_spec in E; [|unfold in_bb; span_fields; lia|span_fields; lia|lia|lia].
  unfold avail_front in E. cbn [bb_off bb_len s_off s_len] in E.
  apply if_throw_Ret in E as [_ E]. apply Ret_inj in E. subst b. span_fields.
  apply Z.ltb_ge in G2. unfold npos in G2. change ((2 ^ 64 - 1) / 1024) with 18014398509481983 in G2.
  rewrite wrap_small by lia.
  refine (conj eq_refl (conj _ (conj _ (conj _ (conj _ _))))); [lia|by exists lenkib|lia|by exists offsetkib|].
  eexists. split; [reflexivity|]. unfold in_bb. span_fields.
  refine (conj _ (conj _ (conj _ (conj _ (conj _ _))))); lia.
Qed.

Lemma dispatch_d_ok p inm64 c buf n :
  dispatch_d p inm64 = Ret (c, buf, n) -> args_ok c buf n.
Proof.
  intros Hd. unfold dispatch_d in Hd. apply bind_Ret in Hd as ([lenkib off] & Eq & Hd).
  apply if_throw_Ret in Hd as [G1 Hd]. apply bind_Ret in Hd as (start & _ & Hd).
  apply bind_Ret in Hd as (b & E & Hd). apply bind_Ret in Hd as (st & _ & Hd).
  injection Hd as <- <- <-. cbn [args_ok].
  assert (0 <= lenkib) as H0.
  { unfold parse_d_query in Eq. apply rethrow_nested_Ret in Eq.
    destruct (rq_minor p <? 3); apply bind_Ret in Eq as ([l f] & El & Eq);
      apply svscan_u64_range in El; apply bind_Ret in Eq as (x & _ & Eq).
    - destruct x. injection Eq as <- _. lia.
    - destruct (_ || _) in Eq; [injection Eq as <- _; lia|discriminate]. }
  apply lenkib_bound in G1; [|done]. apply allocate_pbuf_Ret in E as [Hsz ->]; [|lia].
  eexists _, (lenkib * 1024). split; [reflexivity|].
  unfold in_bb, avail_back, avail_front, blob_size, secretbox_leadersz,
    fs123_max_headersz, secretbox_padding, final_netstring_bytes, MACBYTES, max_reply_size in *.
  span_fields. rewrite wrap_small by lia. refine (conj _ (conj _ (conj _ (conj _ (conj _ (conj _ _)))))); lia.
Qed.

Lemma dispatch_x_ok svr p c buf n :
  dispatch_x svr p = Ret (c, buf, n) -> args_ok c buf n.
Proof.
  intros Hd. unfold dispatch_x in Hd. apply bind_Ret in Hd as ([lenkib semi] & Eq & Hd).
  apply svscan_u64_range in Eq. inv_ret. destruct (uridecode _ _) in Hd; [|discriminate].
  injection Hd as <- <- _. apply lenkib_bound in G; [|lia]. by split.
Qed.

Lemma dispatch_ok svr p inm64 c buf n :
  dispatch svr p inm64 = Ret (c, buf, n) -> args_ok c buf n.
Proof.
  unfold dispatch. repeat (case_decide; [first [by intros [= <- <- _]
    | apply dispatch_d_ok | apply dispatch_f_ok | apply dispatch_x_ok]|]). done.
Qed.

(** C10.  Whatever request arrives (plain or in an envelope), if a handler is
    called at all then: unless it is /p, the path is safe to append to the
    export root (empty or absolute, without NULs and without ".."
    components) and the method is GET or HEAD; and the handler's arguments
    are in bounds: an /f handler gets [len] writable bytes inside the reply
    buffer, with the room for headers, validator, padding and closing bytes
    still around them, and an offset that did not overflow; a /d handler a
    buffer with at most [max_reply_size] bytes for entries; an /x handler a
    length of at most [max_reply_size]. *)
Theorem handler_args_safe `{Secretbox} svr h p c buf n :
  parse_and_dispatch svr h = Ret (p, (c, buf, n)) -> zlen (path_info p) < npos ->
  (function p <> lit "p" ->
     path_safe (path_info p) /\ (hr_method h = GET \/ hr_method h = HEAD))
  /\ args_ok c buf n.
Proof.
  intros HP Hl. unfold parse_and_dispatch in HP.
  apply bind_Ret in HP as ([p' inm64] & E & HP). apply bind_Ret in HP as (d & Ed & HP).
  injection HP as -> ->. split; [|by eapply dispatch_ok].
  intros Hp. apply parse_request_checked in E as [Hv Hm]; [|done].
  by split; [apply validate_path_safe|].
Qed.

Lemma parsed_args_ok `{Secretbox} svr h p c b n :
  parse_and_dispatch svr h = Ret (p, (c, b, n)) -> args_ok c b n.
Proof.
  intros HP. unfold parse_and_dispatch in HP.
  apply bind_Ret in HP as ([p' inm64] & E & HP). apply bind_Ret in HP as (d & Ed & HP).
  injection HP as -> ->. by eapply dispatch_ok.
Qed.

(** ** ETags *)

Lemma etag_h_range esid : 0 <= etag_h esid < 2 ^ 64.
Proof. unfold etag_h. case_decide; [done|apply hash64_range]. Qed.

Lemma to_string_u64 n : 0 <= n -> to_string n = to_string_u n.
Proof. intros. unfold to_string. by rewrite (proj2 (Z.ltb_ge _ _)). Qed.

(** A quoted number reads back, unless it is zero: "0" is refused as a leading
    zero. *)
Lemma parse_quoted_etag_mangled v : 0 <= v < 2 ^ 64 ->
  parse_quoted_etag (dquote :: to_string v ++ [dquote])
  = if v =? 0 then Throw EInvalidArg else Ret v.
Proof.
  intros Hv. rewrite to_string_u64 by lia. unfold parse_quoted_etag.
  set (et := dquote :: to_string_u v ++ [dquote]).
  rewrite (find_char_found et dquote 0 [] [] (to_string_u v ++ [dquote])) by (done || set_solver).
  change (zlen (@nil ascii)) with 0. rewrite Z.add_0_r.
  assert (zlen et = 2 + zlen (to_string_u v)) as El by (unfold et; zlia).
  pose proof (zlen_nonneg (to_string_u v)).
  rewrite (proj2 (Z.leb_gt _ _)) by lia. change (0 + 1) with (zlen [dquote]).
  destruct (to_string_u_head v ltac:(lia)) as [[-> E]|(c & l & E & Hc)].
  - unfold et. rewrite E. done.
  - assert (v <> 0) as Hv0 by (intros ->; vm_compute in E; by injection E as <- <-).
    rewrite (proj2 (Z.eqb_neq _ _)) by done.
    assert (sv_idx et (zlen [dquote]) = Ret c) as ->.
    { unfold et. rewrite E. apply (sv_idx_mid [dquote]). }
    cbn -[scanint_u sv_idx zlen et to_string_u]. rewrite bool_decide_eq_false_2 by done.
    assert (scanint_u 64 10 false et (zlen [dquote]) = Ret (v, zlen [dquote] + zlen (to_string_u v)))
      as -> by (apply (scanint_u_to_string 64 v [dquote] [dquote]); done).
    cbn -[sv_idx zlen et to_string_u]. rewrite El. change (zlen [dquote]) with 1.
    rewrite (proj2 (Z.leb_gt _ _)) by lia.
    assert (sv_idx et (1 + zlen (to_string_u v)) = Ret dquote) as ->.
    { unfold et. change (dquote :: to_string_u v ++ [dquote]) with ((dquote :: to_string_u v) ++ [dquote]).
      replace (1 + zlen (to_string_u v)) with (zlen (dquote :: to_string_u v)) by apply zlen_cons.
      apply sv_idx_mid. }
    done.
Qed.

Lemma inm_demangle_mangled e esid : 0 <= e < 2 ^ 64 ->
  inm_demangle (etag_mangle e esid) esid = Ret (if e =? etag_h esid then 0 else e).
Proof.
  intros He. pose proof (etag_h_range esid) as Hh. unfold inm_demangle, etag_mangle.
  rewrite decide_False by done.
  rewrite parse_quoted_etag_mangled by (apply lxor_range; done || lia).
  destruct (e =? etag_h esid) eqn:E.
  - apply Z.eqb_eq in E as ->. rewrite Z.lxor_nilpotent. done.
  - apply Z.eqb_neq in E. rewrite (proj2 (Z.eqb_neq _ _)) by (by rewrite Z.lxor_eq_0_iff).
    cbn. f_equal. rewrite (Z.lxor_comm e), <- Z.lxor_assoc, Z.lxor_nilpotent. apply Z.lxor_0_l.
Qed.

(** Conditional requests: the If-None-Match value a client copies from
    an ETag header gives the handler back the tag it replied with, whatever
    secret id both were mangled with, except that a tag equal to the hash of
    the secret id (zero, when there are no secrets) reads back as "no tag". *)
Theorem etag_roundtrip e esid :
  0 <= e < 2 ^ 64 ->
  inm_demangle (etag_mangle e esid) esid = Ret (if e =? etag_h esid then 0 else e).
Proof. apply inm_demangle_mangled. Qed.

Lemma etag_h_k1 : (1234567 =? etag_h (lit "k1")) = false.
Proof. vm_compute. reflexivity. Qed.

Lemma etag_roundtrip_witness :
  inm_demangle (etag_mangle 1234567 (lit "k1")) (lit "k1") = Ret 1234567.
Proof. rewrite (etag_roundtrip 1234567 (lit "k1")) by lia. rewrite etag_h_k1. reflexivity. Defined.

(** ** The requests the client builds *)

(** The pattern occurs in [sel ++ SIGIL ++ rest] at [zlen sel] first, because
    [add_sigil_version] refuses selectors that would bring it forward. *)
Lemma sigil_first g sel base rest :
  add_sigil_version g sel = Ret base -> zlen sel < npos ->
  find_str (sel ++ SIGIL ++ rest) SIGIL 0 = zlen sel.
Proof.
  intros Ha Hl. unfold add_sigil_version in Ha. apply if_throw_Ret in Ha as [G _].
  apply orb_false_iff in G as [G1%negb_false_iff%Z.eqb_eq _].
  eapply find_str_found; [done|]. intros j Hj [k Hk].
  rewrite <- (ztake_zdrop sel j), <- app_assoc in Hk by lia.
  rewrite zdrop_app in Hk by (rewrite zlen_ztake by lia; lia).
  pose proof (ztake_zdrop sel j ltac:(lia)) as Es.
  assert (zdrop j sel <> []) as Hne.
  { intros E. pose proof (zlen_zdrop sel j ltac:(lia)) as Ez. rewrite E in Ez.
    change (zlen (@nil ascii)) with 0 in Ez. lia. }
  destruct (zdrop j sel) as [|a1 [|a2 [|a3 [|a4 [|a5 [|a6 [|a7 t]]]]]]]; [done|..];
    unfold SIGIL in Hk; cbn in Hk; simplify_eq.
  apply (find_str_npos sel (lit "/fs123/") G1 Hl (ztake j sel) t). by rewrite <- Es at 1.
Qed.

Definition minor_ok (g : req_config) : Prop := proto_minor g = 2 \/ proto_minor g = 3.

Lemma add_sigil_version_Ret g sel base :
  add_sigil_version g sel = Ret base -> minor_ok g ->
  base = sel ++ SIGIL ++ to_string (proto_minor g).
Proof.
  unfold add_sigil_version. intros H [Hm|Hm]; rewrite Hm in *;
    apply if_throw_Ret in H as [_ [= <-]]; done.
Qed.

Definition path_tail (pi : bytes) : Prop := pi = [] \/ exists l, pi = "/"%char :: l.

Lemma validate_path_tail pi : validate_path pi = Ret tt -> path_tail pi.
Proof.
  intros H. destruct pi as [|c pi]; [by left|right]. unfold validate_path in H.
  apply if_throw_Ret in H as [G%negb_false_iff%bool_decide_eq_true _]. subst. by exists pi.
Qed.

Lemma slash_stops l : stops_number ("/"%char :: l).
Proof. split; [unfold is_digit; vm_compute; intuition discriminate|done]. Qed.

(** The server finds in [base ++ "/" ++ fn ++ pi] what the client put there. *)
Lemma parse_upath_of g sel base fn pi :
  add_sigil_version g sel = Ret base -> minor_ok g -> zlen sel < npos ->
  "/"%char ∉ fn -> fn <> [] -> path_tail pi -> zlen (base ++ "/"%char :: fn ++ pi) < npos ->
  parse_upath (base ++ "/"%char :: fn ++ pi)
  = Ret (proto_minor g, base ++ ["/"%char], fn, pi).
Proof.
  intros Ha Hm Hl Hfn Hne Hpi Hlen. pose proof (add_sigil_version_Ret g sel base Ha Hm) as Eb.
  set (ms := to_string (proto_minor g)) in *.
  assert (zlen ms = 1) as Hms by (unfold ms; destruct Hm as [-> | ->]; done).
  assert (base ++ "/"%char :: fn ++ pi = sel ++ SIGIL ++ ms ++ "/"%char :: fn ++ pi) as E
    by (rewrite Eb; assoc).
  set (up := base ++ "/"%char :: fn ++ pi) in *.
  assert (find_str up SIGIL 0 = zlen sel) as Ef by (rewrite E; by apply (sigil_first g sel base)).
  pose proof (zlen_nonneg sel) as Hs.
  unfold parse_upath. cbv zeta. rewrite Ef, (proj2 (Z.eqb_neq _ _)) by lia.
  assert (svscan T_int up (zlen sel + zlen SIGIL) = Ret (proto_minor g, zlen base)) as ->.
  { rewrite E, <- zlen_app, Eb, !(app_assoc sel SIGIL).
    apply (svscan_to_string T_int (proto_minor g) (sel ++ SIGIL) [] ("/"%char :: fn ++ pi));
      [done| |apply slash_stops|constructor].
    unfold in_type, T_int. cbn. destruct Hm; lia. }
  cbn -[zlen Z.add up find_char substr sv_idx].
  unfold fs123_protocol_minor_min, fs123_protocol_minor_max.
  rewrite (proj2 (Z.ltb_ge (proto_minor g) 2)) by (destruct Hm; lia).
  rewrite (proj2 (Z.ltb_ge 3 (proto_minor g))) by (destruct Hm; lia).
  assert (zlen up = zlen base + 1 + zlen fn + zlen pi) as Hup by (unfold up; zlia).
  assert (1 <= zlen fn) by (destruct fn; [done|zlia]).
  rewrite (proj2 (Z.leb_gt _ _)) by (pose proof (zlen_nonneg pi); lia).
  replace (zlen base + 1 - 1) with (zlen base) by lia.
  assert (sv_idx up (zlen base) = Ret "/"%char) as -> by apply sv_idx_mid.
  assert (up = (base ++ ["/"%char]) ++ fn ++ pi) as Eu by (unfold up; assoc).
  assert (zlen base + 1 = zlen (base ++ ["/"%char])) as El by zlia.
  pose proof (zlen_nonneg base). pose proof (zlen_nonneg pi).
  cbn -[zlen Z.add up find_char substr bool_decide].
  rewrite bool_decide_eq_true_2 by done. cbn [negb]. rewrite (substr_in up 0) by lia.
  rewrite zdrop_0, Eu, ztake_app, <- Eu by done.
  cbn -[zlen Z.add up find_char substr].
  assert (zdrop (zlen base + 1) up = fn ++ pi) as Ed by (rewrite Eu; by apply zdrop_app).
  destruct Hpi as [->|(l & ->)].
  - rewrite find_char_none by (rewrite Ed, app_nil_r; done).
    rewrite Z.eqb_refl. cbn -[zlen Z.add up substr]. rewrite substr_in, Ed, app_nil_r, ztake_all by lia. done.
  - rewrite (find_char_found up "/"%char _ (base ++ ["/"%char]) fn l) by done.
    rewrite (proj2 (Z.eqb_neq _ _)) by lia. cbn -[zlen Z.add up substr].
    rewrite (substr_in up (zlen base + 1 + zlen fn)) by lia.
    assert (zdrop (zlen base + 1 + zlen fn) up = "/"%char :: l) as ->.
    { rewrite Eu, app_assoc. apply zdrop_app. rewrite (zlen_app _ fn). lia. }
    rewrite ztake_all by (rewrite Hup in *; lia). cbn -[zlen Z.add up substr].
    rewrite substr_in, Ed, ztake_app by lia. done.
Qed.

Lemma zlen_urlescape s : zlen s <= zlen (urlescape s).
Proof.
  induction s as [|c s IH]; [done|]. rewrite urlescape_cons, zlen_cons, zlen_app.
  assert (1 <= zlen (urlescape_char c)) by (unfold urlescape_char; destruct (url_plain c); done). lia.
Qed.

(** A character that an escaped text cannot contain. *)
Lemma not_in_escaped c s : url_safe c = false -> c ∉ urlescape s.
Proof.
  intros Hc Hin. pose proof (urlescape_safe s) as Hs. rewrite Forall_forall in Hs.
  apply list_elem_of_In in Hin. apply Hs in Hin. congruence.
Qed.

Lemma not_in_plain c s : url_plain c = false -> Forall (fun c => url_plain c = true) s -> c ∉ s.
Proof.
  intros Hc Hs Hin. rewrite Forall_forall in Hs. apply list_elem_of_In in Hin.
  apply Hs in Hin. congruence.
Qed.

(** What libevent does with a URI: the query is what follows the first [?]. *)
Definition evhttp_split (h : http_req) : Prop :=
  exists p, hr_path h = Some p /\ ("?"%char ∉ p) /\ hr_uri h = p ++ opt_after "?" (hr_query h).

(** A plaintext request the server is willing to look at, and the secret id
    it mangles ETags with. *)
Definition plain_ok (svr : server) (h : http_req) (esid : bytes) : Prop :=
  match the_secret_manager svr with
  | None => esid = []
  | Some sm => hr_accept_encoding h = Some (lit "fs123-secretbox")
      /\ accept_plaintext_requests svr = true /\ get_encode_sid sm = Ret esid
  end.

(** A conditional GET with tag [e]: no If-None-Match header if it is zero. *)
Definition inm_header (e : Z) (esid : bytes) : option bytes :=
  if e =? 0 then None else Some (etag_mangle e esid).

(** The situation of a client with base url [base] that sends [h]: [base] is
    the selector with the sigil and version, the selector needs no escaping,
    libevent undoes URL escaping and splits the URI. *)
Record served (svr : server) (h : http_req) (g : req_config) (sel base esid : bytes) (e : Z)
  : Prop := {
  sv_base : add_sigil_version g sel = Ret base;
  sv_minor : minor_ok g;
  sv_sel : Forall (fun c => url_plain c = true) sel;
  sv_len : zlen (hr_uri h) < npos;
  sv_decode : forall s, uridecode svr (urlescape s) = Some s;
  sv_split : evhttp_split h;
  sv_method : hr_method h = GET \/ hr_method h = HEAD;
  sv_plain : plain_ok svr h esid;
  sv_tag : 0 <= e < 2 ^ 64 /\ e <> etag_h esid \/ e = 0;
  sv_inm : hr_if_none_match h = inm_header e esid
}.

Lemma inm_header_parse svr h g sel base esid e p :
  served svr h g sel base esid e ->
  exists p', parse_inm svr h p = Ret (p', e) /\ rq_minor p' = rq_minor p
    /\ function p' = function p /\ path_info p' = path_info p /\ query p' = query p.
Proof.
  intros []. unfold parse_inm.
  assert (match the_secret_manager svr with Some sm => get_encode_sid sm | None => Ret [] end
          = Ret esid) as ->.
  { unfold plain_ok in *. destruct (the_secret_manager svr); [intuition|by subst]. }
  cbn -[find_char ztake inm_demangle]. rewrite sv_inm0. unfold inm_header.
  destruct (e =? 0) eqn:E0.
  - apply Z.eqb_eq in E0 as ->. cbn. eauto 10.
  - apply Z.eqb_neq in E0. destruct sv_tag0 as [[He Hh]|]; [|done].
    rewrite find_char_none.
    + rewrite Z.eqb_refl, inm_demangle_mangled by done.
      rewrite (proj2 (Z.eqb_neq _ _)) by done. cbn. eauto 10.
    + rewrite zdrop_0. unfold etag_mangle. rewrite to_string_u64.
      2:{ apply (lxor_range 64); [lia|done|apply etag_h_range]. }
      pose proof (to_string_u_digits (Z.lxor e (etag_h esid))) as Hd. rewrite Forall_forall in Hd.
      rewrite not_elem_of_cons, not_elem_of_app, list_elem_of_singleton.
      split_and!; [done| |done]. intros Hin%list_elem_of_In%Hd; [|apply (lxor_range 64);
        [lia|done|apply etag_h_range]].
      revert Hin. unfold is_digit. vm_compute. intuition discriminate.
Qed.

Lemma base_plain g sel base :
  add_sigil_version g sel = Ret base -> minor_ok g ->
  Forall (fun c => url_plain c = true) sel -> Forall (fun c => url_plain c = true) base.
Proof.
  intros Ha Hm Hs. rewrite (add_sigil_version_Ret g sel base Ha Hm).
  apply Forall_app. split; [done|]. destruct Hm as [-> | ->]; repeat constructor.
Qed.

Lemma validate_path_nul pi : validate_path pi = Ret tt -> zlen pi < npos -> NUL ∉ pi.
Proof. intros H Hl. by destruct (validate_path_safe pi H Hl) as (_ & ? & _). Qed.

(** The URI of a plaintext request for function [fn] of the file [name]. *)
Definition uri_of (base fn name : bytes) (q : option bytes) : bytes :=
  base ++ lit "/" ++ fn ++ urlescape name ++ opt_after "?" q.

Definition plain_fn (fn : bytes) : Prop :=
  Forall (fun c => url_plain c = true) fn /\ ("/"%char ∉ fn) /\ fn <> []
  /\ fn <> lit "e" /\ fn <> lit "p".

(** What libevent makes of such a URI. *)
Lemma uri_of_split `{Secretbox} svr h g sel base esid e fn name q :
  served svr h g sel base esid e -> plain_fn fn -> hr_uri h = uri_of base fn name q ->
  hr_path h = Some (urlescape (base ++ "/"%char :: fn ++ name)) /\ hr_query h = q.
Proof.
  intros [] (Hfn & _) Hu. destruct sv_split0 as (p & Hp & Hq & Es).
  assert (urlescape (base ++ "/"%char :: fn ++ name) = base ++ "/"%char :: fn ++ urlescape name) as E.
  { rewrite urlescape_app, (urlescape_plain base) by by eapply base_plain.
    rewrite urlescape_cons, urlescape_app, (urlescape_plain fn) by done. done. }
  rewrite Hu in Es. unfold uri_of in Es.
  assert (p = urlescape (base ++ "/"%char :: fn ++ name) /\ hr_query h = q) as [-> ->]; [|done].
  apply (split_unique "?"); [done|by apply not_in_escaped|].
  rewrite <- Es, E. assoc.
Qed.

(** A plaintext request of the client reaches the dispatcher as it was meant. *)
Lemma parse_client_request `{Secretbox} svr h g sel base esid e fn name q :
  served svr h g sel base esid e -> plain_fn fn -> hr_uri h = uri_of base fn name q ->
  validate_path name = Ret tt ->
  exists p, parse_request svr h = Ret (p, e) /\ rq_minor p = proto_minor g
    /\ function p = fn /\ path_info p = name /\ query p = q.
Proof.
  intros Hsv Hfn Hu Hv. pose proof (uri_of_split svr h g sel base esid e fn name q Hsv Hfn Hu) as [Hp Hq].
  pose proof Hsv as []. destruct Hfn as (Hpl & Hsl & Hne & Hfe & Hfp).
  assert (zlen base + 1 + zlen fn + zlen name < npos) as Hlen.
  { rewrite Hu in sv_len0. unfold uri_of in sv_len0. rewrite !zlen_app in sv_len0.
    change (zlen (lit "/")) with 1 in sv_len0. pose proof (zlen_urlescape name).
    pose proof (zlen_nonneg (opt_after "?" q)). lia. }
  pose proof (zlen_nonneg base). pose proof (zlen_nonneg fn). pose proof (zlen_nonneg name).
  assert (zlen sel < npos) as Hsel.
  { rewrite (add_sigil_version_Ret g sel base sv_base0 sv_minor0), zlen_app in Hlen.
    pose proof (zlen_nonneg (SIGIL ++ to_string (proto_minor g))). lia. }
  assert (parse_path svr h = Ret (Parsed
      match hr_accept_encoding h with Some s => encoding_stoi s | None => CE_IDENT end
      (proto_minor g) (base ++ ["/"%char]) fn name None [] [] [])) as Epath.
  { unfold parse_path. rewrite Hp. cbn -[parse_upath may_use_secrets].
    rewrite sv_decode0. cbn -[parse_upath may_use_secrets]. rewrite c_str_id.
    - rewrite (parse_upath_of g sel); [|done..|by apply validate_path_tail|zlia].
      cbn. unfold may_use_secrets. rewrite (bool_decide_eq_false_2 (fn = lit "p")) by done.
      unfold plain_ok in sv_plain0. destruct (the_secret_manager svr); [|done].
      destruct sv_plain0 as (-> & _). done.
    - rewrite not_elem_of_app, not_elem_of_cons, not_elem_of_app.
      split_and!; [by eapply not_in_plain, base_plain|done|by eapply not_in_plain|].
      apply validate_path_nul; [done|lia]. }
  unfold parse_request. rewrite Epath. cbn -[open_envelope check_request parse_inm].
  unfold open_envelope. rewrite decide_False by done. cbn [function accept_encoding rq_minor prefix path_info envelope_sid inm kvpairs].
  assert (may_use_secrets svr fn && negb (accept_plaintext_requests svr) = false) as ->.
  { unfold may_use_secrets, plain_ok in *. destruct (the_secret_manager svr); [|done].
    destruct sv_plain0 as (_ & -> & _). by rewrite andb_false_r. }
  rewrite Hq. cbn -[check_request parse_inm]. unfold check_request. rewrite decide_False by done.
  cbn [function accept_encoding rq_minor prefix path_info envelope_sid inm kvpairs query].
  assert (find_str (hr_uri h) (lit "/fs123/") 0 <> npos) as Hw.
  { intros Hn. apply (find_str_npos _ _ Hn sv_len0 sel
      (lit "7/" ++ to_string (proto_minor g) ++ lit "/" ++ fn ++ urlescape name ++ opt_after "?" q)).
    rewrite Hu. unfold uri_of. rewrite (add_sigil_version_Ret g sel base) by done. unfold SIGIL.
    change (lit "/fs123/7/") with (lit "/fs123/" ++ lit "7/"). by rewrite <- !app_assoc. }
  assert (match hr_method h with GET | HEAD => Ret tt | _ => Throw (EHttp 403) end = Ret tt) as ->
    by (by destruct sv_method0 as [-> | ->]).
  cbn [mbind outcome_bind]. rewrite Hv. cbn [mbind outcome_bind].
  rewrite (proj2 (Z.eqb_neq _ _)) by done. cbn [mbind outcome_bind].
  match goal with |- context [parse_inm svr h ?p] =>
    destruct (inm_header_parse svr h g sel base esid e p Hsv) as (p' & E & ? & ? & ? & ?) end.
  exists p'. rewrite E. auto.
Qed.

Lemma plain_letter c : url_plain c = true -> c <> "/"%char -> c <> "e"%char -> c <> "p"%char ->
  plain_fn [c].
Proof.
  intros. split_and!; [by repeat constructor| |done|by intros [= ->]|by intros [= ->]].
  by intros ?%list_elem_of_singleton.
Qed.

(** Numbers separated by semicolons. *)
Lemma semi_stops l : stops_number (";"%char :: l).
Proof. split; [unfold is_digit; vm_compute; intuition discriminate|done]. Qed.

Lemma scan_first t v rest : 1 <= it_width t -> in_type t v -> stops_number rest ->
  svscan t (to_string v ++ rest) 0 = Ret (v, zlen (to_string v)).
Proof. intros Hw Hv Hr. by apply (svscan_to_string t v [] [] rest). Qed.

Lemma scan_next t v a rest : 1 <= it_width t -> in_type t v -> stops_number rest ->
  svscan t (a ++ ";"%char :: to_string v ++ rest) (zlen a + 1)
  = Ret (v, zlen a + 1 + zlen (to_string v)).
Proof.
  intros Hw Hv Hr. pose proof (svscan_to_string t v (a ++ [";"%char]) [] rest Hw Hv Hr) as E.
  cbn [app] in E. rewrite <- (app_assoc a) in E. cbn [app] in E.
  rewrite !zlen_app in E. change (zlen [";"%char]) with 1 in E. apply E. constructor.
Qed.

(** The suffix a non-zero cache tag adds to a query. *)
Definition tag_suffix (g : req_config) : bytes := add_cachetag g [] true.

Lemma add_cachetag_app g u : add_cachetag g u true = u ++ tag_suffix g.
Proof. unfold tag_suffix, add_cachetag. destruct (negb _); [done|by rewrite app_nil_r]. Qed.

Lemma tag_suffix_stops g : stops_number (tag_suffix g).
Proof. unfold tag_suffix, add_cachetag. destruct (negb _); [apply semi_stops|done]. Qed.

Lemma parse_f_query_ok ckib chunk rest :
  0 <= ckib < 2 ^ 64 -> 0 <= chunk < 2 ^ 64 -> stops_number rest ->
  parse_f_query (to_string ckib ++ ";"%char :: to_string chunk ++ rest) = Ret (ckib, chunk).
Proof.
  intros H1 H2 Hr. unfold parse_f_query. apply rethrow_nested_Ret.
  rewrite scan_first by (done || apply semi_stops). cbn [mbind outcome_bind].
  by rewrite scan_next.
Qed.

(** File reads end to end: the URI the client's [filereq] builds, split
    by libevent and parsed by the server, calls the /f handler for exactly
    that file with the length and the offset asked for, in bytes, and with
    the tag of the If-None-Match header; with or without a cache tag, in
    protocol minors 2 and 3, with secrets (plaintext allowed) or without, for
    every name [validate_path] admits and every selector. *)
Theorem filereq_served `{Secretbox} svr h g sel base esid e name ckib chunk :
  served svr h g sel base esid e ->
  hr_uri h = base ++ urlstem (filereq g name ckib chunk) ->
  validate_path name = Ret tt -> 0 <= ckib <= 1024 -> 0 <= chunk < 2 ^ 54 ->
  exists p buf, parse_and_dispatch svr h
      = Ret (p, (Call_f e (ckib * 1024) (chunk * 1024) (s_off buf), Some buf, ckib * 1024))
    /\ function p = lit "f" /\ path_info p = name.
Proof.
  intros Hsv Hu Hv Hc Ho.
  set (q := to_string ckib ++ ";"%char :: to_string chunk ++ tag_suffix g).
  destruct (parse_client_request svr h g sel base esid e (lit "f") name (Some q) Hsv)
    as (p & E & _ & Hf & Hp & Hq); [| |done|].
  { by apply plain_letter. }
  { rewrite Hu. unfold filereq. cbn [urlstem req_ctor]. rewrite add_cachetag_app.
    unfold uri_of, q. cbn [opt_after]. rewrite <- !app_assoc. done. }
  unfold parse_and_dispatch. rewrite E. cbn [mbind outcome_bind]. unfold dispatch. rewrite Hf.
  cbn [decide]. repeat rewrite (decide_False (P := lit "f" = _)) by done.
  rewrite decide_True by done. unfold dispatch_f, the_query. rewrite Hq. unfold q.
  rewrite parse_f_query_ok by (lia || apply tag_suffix_stops). cbn [mbind outcome_bind].
  unfold max_reply_size at 1. change (1025 * 1024 / 1024) with 1025.
  rewrite (proj2 (Z.ltb_ge _ _)) by lia. unfold validator_space.
  rewrite allocate_pbuf_ok by (unfold max_reply_size; lia). cbn [mbind outcome_bind].
  unfold blob_size, secretbox_leadersz, fs123_max_headersz, secretbox_padding,
    final_netstring_bytes, MACBYTES.
  rewrite subspan_spec; [|unfold in_bb; span_fields; lia|span_fields; lia|lia|lia].
  unfold avail_front. cbn [bb_off bb_len s_off s_len].
  rewrite (proj2 (Z.ltb_ge (_ - _ + _) 0)) by lia. rewrite (proj2 (Z.ltb_ge _ (_ - _ + _ + _))) by lia.
  cbn [orb mbind outcome_bind]. unfold npos. change ((2 ^ 64 - 1) / 1024) with 18014398509481983.
  rewrite (proj2 (Z.ltb_ge _ _)) by lia. rewrite wrap_small by lia. eauto.
Qed.

Lemma urlunescape_no_percent l : "%"%char ∉ l -> urlunescape l = Ret l.
Proof.
  induction l as [|c l IH]; intros Hl; [done|]. rewrite not_elem_of_cons in Hl.
  destruct Hl as [Hc Hl]. cbn. rewrite bool_decide_eq_false_2 by congruence. by rewrite IH.
Qed.

Lemma digits_no c n : ~ is_digit c -> 0 <= n -> c ∉ to_string n.
Proof.
  intros Hc Hn Hin. rewrite to_string_u64 in Hin by done.
  pose proof (to_string_u_digits n Hn) as Hd. rewrite Forall_forall in Hd.
  by apply list_elem_of_In, Hd in Hin.
Qed.

Lemma percent_no_digit : ~ is_digit "%".
Proof. unfold is_digit. vm_compute. intuition discriminate. Qed.

Lemma tag_suffix_unescape g : 0 <= cachetag g -> urlunescape (tag_suffix g) = Ret (tag_suffix g).
Proof.
  intros Hg. apply urlunescape_no_percent. unfold tag_suffix, add_cachetag.
  destruct (negb _); [|apply not_elem_of_nil]. cbn [app lit list_ascii_of_string].
  rewrite not_elem_of_cons. split; [done|]. apply digits_no; [apply percent_no_digit|done].
Qed.

(** The [start] a /d handler gets for a chunk start: the cache tag is
    appended to it, except at the start of a directory in minor 2. *)
Definition dir_start (g : req_config) (chunkstart : bytes) : bytes :=
  if (proto_minor g <? 3) && bool_decide (chunkstart = []) then [] else chunkstart ++ tag_suffix g.

Definition dir_query (g : req_config) (ckib : Z) (chunkstart : bytes) : bytes :=
  to_string ckib ++ lit ";" ++
    (if proto_minor g <? 3 then
       if bool_decide (chunkstart = []) then lit "1;0" else lit "0;" ++ chunkstart
     else urlescape chunkstart) ++ tag_suffix g.

Lemma parse_d_query_ok g ckib chunkstart :
  minor_ok g -> 0 <= cachetag g -> 0 <= ckib < 2 ^ 64 ->
  proto_minor g = 3 \/ Forall (fun c => url_plain c = true) chunkstart ->
  exists off start, parse_d_query (proto_minor g) (dir_query g ckib chunkstart) = Ret (ckib, off)
    /\ 0 <= off <= zlen (dir_query g ckib chunkstart)
    /\ zdrop off (dir_query g ckib chunkstart) = start
    /\ urlunescape start = Ret (dir_start g chunkstart).
Proof.
  intros Hm Htag Hc Hs. unfold dir_start, dir_query, parse_d_query. pose proof (zlen_nonneg (to_string ckib)).
  destruct Hm as [Hm|Hm]; rewrite Hm in *.
  - destruct Hs as [Hs|Hs]; [done|]. change (2 <? 3) with true. cbv iota. cbn [andb].
    destruct (bool_decide (chunkstart = [])) eqn:E.
    + exists (zlen (to_string ckib ++ lit ";" ++ lit "1;0" ++ tag_suffix g)), [].
      split_and!; [|cbn [lit list_ascii_of_string app]; zlia|lia| |done].
      * apply rethrow_nested_Ret. cbn [lit list_ascii_of_string app].
        rewrite scan_first by (done || apply semi_stops). cbn [mbind outcome_bind].
        rewrite (scan_next T_int 1 _ (";"%char :: "0"%char :: tag_suffix g)) by (done || apply semi_stops).
        done.
      * rewrite <- (app_nil_r (to_string ckib ++ _)) at 2. by apply zdrop_app.
    + exists (zlen (to_string ckib ++ lit ";0;")), (chunkstart ++ tag_suffix g).
      split_and!; [|cbn [lit list_ascii_of_string app]; zlia|cbn [lit list_ascii_of_string app]; zlia| |].
      * apply rethrow_nested_Ret. cbn [lit list_ascii_of_string app].
        rewrite scan_first by (done || apply semi_stops). cbn [mbind outcome_bind].
        rewrite (scan_next T_int 0 _ (";"%char :: chunkstart ++ tag_suffix g)) by (done || apply semi_stops).
        cbn [mbind outcome_bind Z.eqb negb]. do 2 f_equal. change (zlen (to_string 0)) with 1. zlia.
      * transitivity (zdrop (zlen (to_string ckib ++ lit ";0;"))
          ((to_string ckib ++ lit ";0;") ++ chunkstart ++ tag_suffix g)); [f_equal; assoc|by apply zdrop_app].
      * rewrite <- (urlescape_plain chunkstart) at 1 by done.
        rewrite urlunescape_app_escaped, tag_suffix_unescape by done. done.
  - change (3 <? 3) with false. cbv iota. cbn [andb].
    exists (zlen (to_string ckib ++ lit ";")), (urlescape chunkstart ++ tag_suffix g).
    split_and!; [|cbn [lit list_ascii_of_string app]; zlia|cbn [lit list_ascii_of_string app]; zlia| |].
    + apply rethrow_nested_Ret. cbn [lit list_ascii_of_string app].
      rewrite scan_first by (done || apply semi_stops). cbn [mbind outcome_bind].
      unfold sv_at. rewrite zget_app_mid by done. rewrite zlen_app. done.
    + rewrite app_assoc. by apply zdrop_app.
    + rewrite urlunescape_app_escaped, tag_suffix_unescape by done. done.
Qed.

(** Directory reads end to end: the URI of [dirreq] calls the /d handler
    for that directory with the reply buffer sized as asked for, and with the
    chunk start as [start] in both protocol minors, except that a cache tag
    is appended to it: with a non-zero tag a minor-3 client that asks for the
    start of a directory sends the handler a non-empty [start]. *)
Theorem dirreq_served `{Secretbox} svr h g sel base esid e name ckib chunkstart :
  served svr h g sel base esid e ->
  hr_uri h = base ++ urlstem (dirreq g name ckib chunkstart) ->
  validate_path name = Ret tt -> 0 <= ckib <= 1025 -> 0 <= cachetag g ->
  proto_minor g = 3 \/ Forall (fun c => url_plain c = true) chunkstart ->
  exists p buf, parse_and_dispatch svr h
      = Ret (p, (Call_d e (dir_start g chunkstart), Some buf, 0))
    /\ function p = lit "d" /\ path_info p = name
    /\ avail_back buf = ckib * 1024 + secretbox_padding + final_netstring_bytes.
Proof.
  intros Hsv Hu Hv Hc Htag Hs. pose proof (sv_minor _ _ _ _ _ _ _ Hsv) as Hm.
  assert (hr_uri h = uri_of base (lit "d") name (Some (dir_query g ckib chunkstart))) as Hu'.
  { rewrite Hu. unfold dirreq. cbn [urlstem req_ctor]. rewrite add_cachetag_app.
    unfold uri_of, dir_query. cbn [opt_after]. rewrite <- !app_assoc. done. }
  destruct (parse_client_request svr h g sel base esid e (lit "d") name
      (Some (dir_query g ckib chunkstart)) Hsv) as (p & E & Hmin & Hf & Hp & Hq);
    [by apply plain_letter|done|done|].
  destruct (parse_d_query_ok g ckib chunkstart Hm Htag) as (off & start & Eq & Ho & Ed & Eu); [lia|done|].
  unfold parse_and_dispatch. rewrite E. cbn [mbind outcome_bind]. unfold dispatch. rewrite Hf.
  rewrite (decide_False (P := lit "d" = _)), decide_True by done.
  unfold dispatch_d, the_query. rewrite Hq, Hmin, Eq. cbn [mbind outcome_bind].
  unfold max_reply_size at 1. change (1025 * 1024 / 1024) with 1025.
  rewrite (proj2 (Z.ltb_ge _ _)) by lia. rewrite substr_in by lia. cbn [mbind outcome_bind].
  rewrite allocate_pbuf_ok by (unfold max_reply_size; lia). cbn [mbind outcome_bind].
  assert (zlen start <= npos) as Hl.
  { pose proof (sv_len _ _ _ _ _ _ _ Hsv) as Hl. rewrite Hu' in Hl. revert Hl. unfold uri_of.
    cbn [opt_after]. rewrite <- Ed, zlen_zdrop by lia. zlia. }
  rewrite Ed, ztake_all by done. rewrite Eu. cbn [mbind outcome_bind].
  eexists p, _. split; [reflexivity|]. split_and!; [done|done|].
  unfold avail_back, avail_front, blob_size, secretbox_leadersz, fs123_max_headersz,
    secretbox_padding, final_netstring_bytes, MACBYTES. span_fields. rewrite wrap_small by lia. lia.
Qed.

(** The requests that name a file and nothing else. *)
Inductive name_request (g : req_config) (name : bytes) : req123 -> bytes -> hcall -> Prop :=
| NR_attr : name_request g name (attrreq g name) (lit "a") Call_a
| NR_link : name_request g name (linkreq g name) (lit "l") Call_l
| NR_statfs : name_request g name (statfsreq g name) (lit "s") Call_s.

(** The cache tag of a request without a query is its query. *)
Definition tag_query (g : req_config) : option bytes :=
  if cachetag g =? 0 then None else Some (to_string (cachetag g)).

Lemma add_cachetag_noquery g u : add_cachetag g u false = u ++ opt_after "?" (tag_query g).
Proof.
  unfold add_cachetag, tag_query. destruct (cachetag g =? 0); [by rewrite app_nil_r|done].
Qed.

(** Attribute, link and statfs requests end to end: each calls its own
    handler for exactly the file named, whatever the cache tag. *)
Theorem namereq_served `{Secretbox} svr h g sel base esid e name r fn call :
  served svr h g sel base esid e -> name_request g name r fn call ->
  hr_uri h = base ++ urlstem r -> validate_path name = Ret tt ->
  exists p, parse_and_dispatch svr h = Ret (p, (call, None, 0))
    /\ function p = fn /\ path_info p = name /\ query p = tag_query g.
Proof.
  intros Hsv Hr Hu Hv.
  assert (plain_fn fn) as Hfn by (destruct Hr; by apply plain_letter).
  assert (hr_uri h = uri_of base fn name (tag_query g)) as Hu'.
  { rewrite Hu. destruct Hr; cbn [urlstem attrreq linkreq statfsreq req_ctor];
      rewrite add_cachetag_noquery; unfold uri_of; by rewrite <- !app_assoc. }
  destruct (parse_client_request svr h g sel base esid e fn name _ Hsv Hfn Hu' Hv)
    as (p & E & _ & Hf & Hp & Hq).
  exists p. unfold parse_and_dispatch. rewrite E. cbn [mbind outcome_bind]. unfold dispatch.
  rewrite Hf. destruct Hr; done.
Qed.

(** *** Concrete requests *)

Definition decode_ex (s : bytes) : option bytes :=
  match urlunescape s with Ret t => Some t | _ => None end.

Lemma decode_ex_ok s : decode_ex (urlescape s) = Some s.
Proof.
  unfold decode_ex. rewrite <- (app_nil_r (urlescape s)), urlunescape_app_escaped. cbn.
  by rewrite app_nil_r.
Qed.

Definition svr_ex : server := Server None true decode_ex.
Definition g_ex : req_config := ReqConfig 0 3 0 0.
Definition g_tag : req_config := ReqConfig 17 3 0 0.
Definition base_ex : bytes := lit "/data/fs123/7/3".
Definition name_ex : bytes := lit "/a file".

Definition get_ex (path : bytes) (q : option bytes) : http_req :=
  HttpReq GET (path ++ opt_after "?" q) (Some path) q None (inm_header 77 []).

Lemma served_ex g path q :
  minor_ok g -> add_sigil_version g (lit "/data") = Ret base_ex ->
  bool_decide ("?"%char ∉ path) = true -> (zlen (path ++ opt_after "?" q) <? npos) = true ->
  served svr_ex (get_ex path q) g (lit "/data") base_ex [] 77.
Proof.
  intros Hm Hb Hq%bool_decide_eq_true Hl. split.
  - done.
  - done.
  - by repeat constructor.
  - by apply Z.ltb_lt.
  - apply decode_ex_ok.
  - exists path. done.
  - by left.
  - done.
  - left. split; [lia|]. vm_compute. discriminate.
  - done.
Qed.

Lemma filereq_served_witness :
  exists p buf, parse_and_dispatch (H := toy_box) svr_ex
      (get_ex (lit "/data/fs123/7/3/f/a%20file") (Some (lit "128;5;17")))
    = Ret (p, (Call_f 77 131072 5120 (s_off buf), Some buf, 131072))
    /\ function p = lit "f" /\ path_info p = name_ex.
Proof.
  apply (filereq_served svr_ex _ g_tag (lit "/data") base_ex [] 77 name_ex 128 5);
    [|vm_compute; reflexivity|vm_compute; reflexivity|lia|lia].
  apply served_ex; [by right|vm_compute; reflexivity..].
Defined.

Lemma dirreq_served_witness :
  exists p buf, parse_and_dispatch (H := toy_box) svr_ex
      (get_ex (lit "/data/fs123/7/3/d/a%20file") (Some (lit "128;;17")))
    = Ret (p, (Call_d 77 (lit ";17"), Some buf, 0))
    /\ function p = lit "d" /\ path_info p = name_ex
    /\ avail_back buf = 128 * 1024 + secretbox_padding + final_netstring_bytes.
Proof.
  apply (dirreq_served svr_ex _ g_tag (lit "/data") base_ex [] 77 name_ex 128 []);
    [|vm_compute; reflexivity|vm_compute; reflexivity|lia|done|by left].
  apply served_ex; [by right|vm_compute; reflexivity..].
Defined.

Lemma namereq_served_witness :
  exists p, parse_and_dispatch (H := toy_box) svr_ex (get_ex (lit "/data/fs123/7/3/l/a%20file") None)
    = Ret (p, (Call_l, None, 0))
    /\ function p = lit "l" /\ path_info p = name_ex /\ query p = None.
Proof.
  apply (namereq_served svr_ex _ g_ex (lit "/data") base_ex [] 77 name_ex (linkreq g_ex name_ex) (lit "l") Call_l);
    [|constructor|vm_compute; reflexivity|vm_compute; reflexivity].
  apply served_ex; [by right|vm_compute; reflexivity..].
Defined.

Definition h_ex : http_req := get_ex (lit "/data/fs123/7/3/f/a%20file") (Some (lit "128;5")).

Lemma handler_ex :
  exists p c buf n, parse_and_dispatch (H := toy_box) svr_ex h_ex = Ret (p, (c, buf, n))
    /\ (zlen (path_info p) <? npos) = true /\ path_info p = name_ex /\ function p = lit "f".
Proof.
  eexists _, _, _, _. split; [vm_compute; reflexivity|].
  split; [vm_compute; reflexivity|]. split; vm_compute; reflexivity.
Qed.

Lemma handler_args_safe_witness :
  exists p c buf n, parse_and_dispatch (H := toy_box) svr_ex h_ex = Ret (p, (c, buf, n))
    /\ path_info p = name_ex /\ path_safe (path_info p) /\ args_ok c buf n.
Proof.
  destruct handler_ex as (p & c & buf & n & E & Hl & Hp & Hf).
  destruct (handler_args_safe (H := toy_box) svr_ex h_ex p c buf n E (proj1 (Z.ltb_lt _ _) Hl)) as [H1 H2].
  exists p, c, buf, n. split; [exact E|]. split; [exact Hp|]. split; [|exact H2].
  apply H1. rewrite Hf. discriminate.
Defined.

(** *** Corner cases *)

(** A one-KiB window of lengths passes the check against [max_reply_size] and
    is then refused by [allocate_pbuf], as a server error. *)
Example f_1025_kib :
  parse_and_dispatch (H := toy_box) svr_ex
    (get_ex (lit "/data/fs123/7/3/f/a") (Some (lit "1025;0"))) = Throw ERuntime.
Proof. vm_compute. reflexivity. Qed.

(** The query of /x is not parsed under the handler that makes a bad query a
    400, as those of /d and /f are. *)
Example x_bad_query_500 :
  match parse_and_dispatch (H := toy_box) svr_ex (get_ex (lit "/data/fs123/7/3/x/a") (Some (lit "z;u;"))),
        parse_and_dispatch (H := toy_box) svr_ex (get_ex (lit "/data/fs123/7/3/f/a") (Some (lit "z;0")))
  with Throw e, Throw e' => http_status_from_evnest e = 500 /\ http_status_from_evnest e' = 400
  | _, _ => False end.
Proof. vm_compute. split; reflexivity. Qed.

(** An If-None-Match header that is a lone double quote makes
    [parse_quoted_etag] index one past the end. *)
Example inm_lone_quote : inm_demangle [dquote] [] = Undef.
Proof. reflexivity. Qed.

(** The plaintext of an envelope is not URL-decoded, as the path of a
    plaintext request is. *)
Example envelope_not_decoded :
  parse_envelope_text (urlstem (filereq g_ex name_ex 128 0))
  = Ret (lit "f", lit "/a%20file", Some (lit "128;0")).
Proof. vm_compute. reflexivity. Qed.
