(* ===== verification/Envelope.v ===== *)
(** * Encrypted requests (exe/fs123p7/app_mount.cpp, lib/fs123server.cpp)

    The client's [encrypt_request] and the server's opening of the envelope,
    put together: base64, the secretbox codec, the in-place buffer and the
    parser of the plaintext. *)

From Stdlib Require Import Ascii String ZArith Lia.
From stdpp Require Import base gmap strings list numbers.
From S2P Require Import Prelude ScanInt StrUtils UcharSpan Base64 PathUtils ContentCodec Backend ServerParse.

#[local] Open Scope Z_scope.

(** ** Definitions *)

(** The base64 text of the secretbox of a urlstem under the secret [esid], as
    [encrypt_request] and [req::redirect_reply] both make it: [junk] is what
    the fresh [uchar_blob] holds.  The nonce is derived, so the random one is
    not used. *)
Definition seal `{Secretbox} (sm : secret_mgr) (esid junk stem : bytes) : outcome bytes :=
  let sz := zlen stem in
  let padding := 8 in
  ps ← padded_uchar_span_ctor 0 (sz + secretbox_leadersz + padding) secretbox_leadersz sz;
  secret ← get_sharedkey sm esid;
  match (memcpy (s_off ps) stem;;
         content_encode CE_FS123_SECRETBOX esid secret ps padding true (replicate 24 zero)) junk with
  | (Ret encoded, mem) => Encode (contents mem encoded)
  | (Throw e, _) => Throw e
  | (Undef, _) => Undef
  end.

Definition encrypt_request `{Secretbox} (sm : secret_mgr) (junk stem : bytes) : outcome bytes :=
  esid ← get_encode_sid sm;
  e ← seal sm esid junk stem;
  Ret (lit "/e/" ++ e).

(** [/FUNCTION/PA/TH?QUERY], as the request builders make it. *)
Definition stem_of (fn name : bytes) (q : option bytes) : bytes :=
  "/"%char :: fn ++ urlescape name ++ opt_after "?" q.

(** ** Lemmas *)

Lemma last_unique c (a b a' b' : bytes) :
  a ++ c :: b = a' ++ c :: b' -> c ∉ b -> c ∉ b' -> a = a' /\ b = b'.
Proof.
  intros E Hb Hb'. apply (f_equal (@rev ascii)) in E. rewrite !rev_app_distr in E. cbn [rev] in E.
  rewrite <- !app_assoc in E.
  assert (forall l : bytes, c ∉ l -> c ∉ rev l) as Hrev.
  { intros l Hl Hin. apply Hl, list_elem_of_In, in_rev. by apply list_elem_of_In. }
  destruct (split_unique c (rev b) (rev b') (Some (rev a)) (Some (rev a'))) as [E1 E2];
    [by apply Hrev|by apply Hrev|exact E|].
  injection E2 as E2. split; [rewrite <- (rev_involutive a), <- (rev_involutive a')
    |rewrite <- (rev_involutive b), <- (rev_involutive b')]; congruence.
Qed.

(** Where the query of an envelope's plaintext starts. *)
Lemma find_query (a : bytes) q : "?"%char ∉ a -> "?"%char ∉ default [] q -> 
  find_last_of (a ++ opt_after "?" q) "?" = match q with Some _ => zlen a | None => npos end.
Proof.
  intros Ha Hq. destruct (find_last_of_spec (a ++ opt_after "?" q) "?") as [(-> & Hn)|(x & y & E & Hy & ->)].
  - destruct q as [q|]; [|done]. exfalso. apply Hn. cbn. set_solver.
  - destruct q as [q|]; cbn in *.
    + by destruct (last_unique "?" a q x y E Hq Hy) as [-> _].
    + rewrite app_nil_r in E. subst a. set_solver.
Qed.

(** The server's reading of the plaintext: the function, the path as it is,
    escapes included, and the query. *)
Lemma parse_stem fn name q :
  ("/"%char ∉ fn) -> ("?"%char ∉ fn) -> path_tail name -> ("?"%char ∉ default [] q) ->
  zlen (stem_of fn name q) < 2 ^ 62 ->
  (name = [] -> "/"%char ∉ default [] q) ->
  parse_envelope_text (stem_of fn name q) = Ret (fn, urlescape name, q).
Proof.
  intros Hs Hf Hn Hq Hl Hqs. unfold parse_envelope_text, stem_of in *.
  change (bool_decide ("/"%char = "/"%char)) with true. cbv iota. cbn [mbind outcome_bind].
  set (a := "/"%char :: fn ++ urlescape name).
  assert ("/"%char :: fn ++ urlescape name ++ opt_after "?" q = a ++ opt_after "?" q) as E
    by (unfold a; assoc).
  rewrite E in *. assert ("?"%char ∉ a) as Ha.
  { unfold a. rewrite not_elem_of_cons, not_elem_of_app. split_and!; [done|done|by apply not_in_escaped]. }
  rewrite find_query by done. cbv zeta.
  assert (zlen a = 1 + zlen fn + zlen (urlescape name)) as Hza by (unfold a; zlia).
  pose proof (zlen_nonneg fn). pose proof (zlen_nonneg (urlescape name)).
  pose proof (zlen_nonneg (opt_after "?" q)) as Hzq. rewrite zlen_app in Hl.
  assert ((if (match q with Some _ => zlen a | None => npos end) =? npos then Ret None
           else q0 ← substr (a ++ opt_after "?" q) (match q with Some _ => zlen a | None => npos end + 1) npos;
                Ret (Some q0)) = Ret q) as ->.
  { destruct q as [q|]; [|done]. cbn [opt_after] in *. rewrite zlen_cons in Hl. pose proof (zlen_nonneg q).
    rewrite (proj2 (Z.eqb_neq _ _)) by (unfold npos; lia).
    rewrite substr_in by (rewrite zlen_app, zlen_cons; lia).
    change (a ++ "?"%char :: q) with (a ++ ["?"%char] ++ q).
    rewrite app_assoc, zdrop_app by (rewrite zlen_app; done).
    rewrite ztake_all by (unfold npos; lia). done. }
  cbn [mbind outcome_bind].
  set (qi := match q with Some _ => zlen a | None => npos end).
  assert (zlen a <= qi) as Hqi by (unfold qi, npos; destruct q; lia).
  (* what lies between [k] and the query *)
  assert (forall k b c, a = b ++ c -> zlen b = k -> 1 <= k ->
            ztake (u64 (qi - k)) (zdrop k (a ++ opt_after "?" q)) = c) as Hcut.
  { intros k b c Eb Hk H1. pose proof (zlen_nonneg c) as Hc0.
    assert (zlen a = k + zlen c) as Hkc by (rewrite Eb, zlen_app; lia).
    assert (qi - k <= npos) by (unfold qi, npos in *; destruct q; lia).
    rewrite wrap_small by (unfold npos in *; lia).
    rewrite Eb, <- app_assoc, zdrop_app by done. unfold qi. destruct q as [q|].
    - apply ztake_app. lia.
    - cbn [opt_after]. rewrite app_nil_r. apply ztake_all. unfold npos. lia. }
  assert (zlen (a ++ opt_after "?" q) = zlen a + zlen (opt_after "?" q)) as Hzt by apply zlen_app.
  destruct Hn as [->|(name' & ->)].
  - rewrite find_char_none.
    + rewrite Z.eqb_refl. cbn [negb]. rewrite substr_in by lia.
      rewrite (Hcut 1 ["/"%char] fn); [done| |done|lia]. unfold a. cbn. by rewrite app_nil_r.
    + assert (zdrop 1 (a ++ opt_after "?" q) = fn ++ opt_after "?" q) as ->.
      { unfold a. cbn [urlescape mbind list_bind app]. rewrite app_nil_r.
        by apply (zdrop_app ["/"%char]). }
      rewrite not_elem_of_app. split; [done|]. specialize (Hqs eq_refl).
      destruct q; cbn in *; set_solver.
  - assert (urlescape ("/"%char :: name') = "/"%char :: urlescape name') as En by done.
    rewrite (find_char_found _ "/"%char 1 ["/"%char] fn (urlescape name' ++ opt_after "?" q));
      [|unfold a; rewrite En; assoc|done|done].
    rewrite (proj2 (Z.eqb_neq _ _)) by (unfold npos; lia). cbn [negb].
    rewrite substr_in by lia. cbn [mbind outcome_bind].
    replace (1 + zlen fn - 1) with (zlen fn) by lia. rewrite substr_in by lia.
    rewrite (Hcut (1 + zlen fn) ("/"%char :: fn) (urlescape ("/"%char :: name'))); [|done|zlia|lia].
    unfold a. cbn [app]. change ("/"%char :: (fn ++ urlescape ("/"%char :: name')) ++ opt_after "?" q)
      with (["/"%char] ++ (fn ++ urlescape ("/"%char :: name')) ++ opt_after "?" q).
    rewrite zdrop_app by done. rewrite <- app_assoc, ztake_app by done. done.
Qed.

Lemma encode_ref_upper l : (length (encode_ref l) <= 2 * length l + 4)%nat.
Proof. induction l as [|a|a b|a b c l IH] using list_ind3; cbn in *; lia. Qed.

(** Escaping leaves exactly the texts of unreserved characters alone. *)
Lemma urlescape_id s : urlescape s = s <-> Forall (fun c => url_plain c = true) s.
Proof.
  split; [|apply urlescape_plain]. induction s as [|c s IH]; [constructor|].
  rewrite urlescape_cons. unfold urlescape_char. destruct (url_plain c) eqn:Ec.
  - intros [= E]. constructor; auto.
  - intros E. apply (f_equal zlen) in E. cbn [app] in E. rewrite !zlen_cons in E.
    pose proof (zlen_urlescape s). lia.
Qed.

(** The plaintext in the fresh buffer. *)
Lemma fresh_window junk stem :
  let n := zlen stem + secretbox_leadersz + 8 in
  zlen junk = n -> zlen stem < 2 ^ 30 ->
  let ps := Span 0 n secretbox_leadersz (zlen stem) in
  exists mem, padded_uchar_span_ctor 0 n secretbox_leadersz (zlen stem) = Ret ps
    /\ memcpy (s_off ps) stem junk = (Ret tt, mem) /\ span_wf mem ps /\ contents mem ps = stem.
Proof.
  intros n Hj Hs ps. unfold n, ps, secretbox_leadersz, MACBYTES in *. pose proof (zlen_nonneg stem).
  destruct (ztake_zdrop_split junk 300) as (a & c & Ej & Ea); [lia|].
  rewrite Ej, zlen_app in Hj.
  destruct (ztake_zdrop_split c (zlen stem)) as (x & b & -> & Ex); [lia|]. rewrite zlen_app in Hj.
  exists (a ++ stem ++ b). split_and!.
  - unfold padded_uchar_span_ctor, dynamic_extent, npos. change (284 + 16) with 300.
    rewrite (proj2 (Z.ltb_ge _ _)) by lia. rewrite wrap_small by lia.
    rewrite (proj2 (Z.ltb_ge _ (300 + _))) by lia. rewrite andb_false_r.
    by rewrite (proj2 (Z.eqb_neq _ _)) by lia.
  - rewrite Ej. apply memcpy_at; [|done]. cbn [s_off]. lia.
  - unfold span_wf, in_bb. cbn [bb_off bb_len s_off s_len]. rewrite !zlen_app. lia.
  - apply contents_at; cbn [s_off s_len]; lia.
Qed.

(** C37.  Encrypted requests end to end: for a secret manager that the client
    and the server share, [encrypt_request] of a request's
    /FUNCTION/PA/TH?QUERY succeeds with "/e/" and a base64 text, and opening
    that envelope gives the server the secret's id, the same function, the
    same query, and as the path the URL-escaped name: unlike for a plaintext
    request the escapes are not undone, so the path is the name itself
    exactly when it needs none. *)
Theorem envelope_roundtrip `{SB : Secretbox} {SL : SecretboxLaws} sm esid secret junk fn name q :
  get_encode_sid sm = Ret esid -> get_sharedkey sm esid = Ret secret ->
  0 < zlen esid < 256 -> KEYBYTES + GENERICHASH_KEYBYTES_MIN <= zlen secret ->
  ("/"%char ∉ fn) -> ("?"%char ∉ fn) -> path_tail name -> ("?"%char ∉ default [] q) ->
  (name = [] -> "/"%char ∉ default [] q) ->
  zlen (stem_of fn name q) < 2 ^ 30 ->
  zlen junk = zlen (stem_of fn name q) + secretbox_leadersz + 8 ->
  exists e, encrypt_request sm junk (stem_of fn name q) = Ret (lit "/e/" ++ e)
    /\ decode_envelope sm ("/"%char :: e) = Ret (esid, fn, urlescape name, q)
    /\ (urlescape name = name <-> Forall (fun c => url_plain c = true) name).
Proof.
  intros Hesid Hkey Hs1 Hk1 Hf1 Hf2 Hn Hq Hqs Hlen Hjunk. set (stem := stem_of fn name q) in *.
  destruct (fresh_window junk stem Hjunk Hlen) as (mem & Ector & Ecpy & Hwf & Econt).
  set (ps := Span 0 (zlen stem + secretbox_leadersz + 8) secretbox_leadersz (zlen stem)) in *.
  pose proof (zlen_nonneg stem). pose proof (Z.mod_pos_bound (zlen stem) 8 ltac:(lia)).
  assert (encodable esid secret ps 8 true (replicate 24 zero)) as He.
  { unfold ps. split; cbn [s_len]; try done; try lia.
    - unfold MACBYTES. lia.
    - unfold avail_front, off_keyid, MACBYTES, secretbox_leadersz. cbn [s_off bb_off]. unfold MACBYTES. lia.
    - unfold avail_back, avail_front, secretbox_leadersz, MACBYTES. cbn [s_off bb_off bb_len s_len].
      rewrite wrap_small by lia. lia. }
  destruct (content_encode_ok esid secret ps 8 true (replicate 24 zero) mem He Hwf)
    as (a & ct & b & Ect & Eenc & Hp & Ec & Hd & Hmem).
  rewrite Econt in *. set (rsz := MACBYTES + zlen stem + (8 - s_len ps mod 8)) in *.
  set (h := Hdr (the_nonce true secret stem (replicate 24 zero)) rsz esid) in *.
  assert (zlen (h_nonce h) = NONCEBYTES) as Hnonce by (by apply the_nonce_len).
  assert (zlen (hdr_bytes h) = wiresize h) as Hh by (by apply zlen_hdr_bytes).
  set (wire := hdr_bytes h ++ drop 16 ct) in *.
  assert (zlen wire = wiresize h + rsz) as Hw by (unfold wire; rewrite zlen_app; lia).
  assert (wiresize h = zlen esid + 29) as Hwz by done.
  assert (rsz < 2 ^ 31) as Hr.
  { unfold rsz, MACBYTES, ps. cbn [s_len]. lia. }
  assert (17 <= rsz) as Hr' by (unfold rsz, MACBYTES; lia).
  destruct (Decode_encode_ref wire) as (_ & Edec); [lia|].
  exists (encode_ref wire). split_and!.
  - unfold encrypt_request, seal. rewrite Hesid. cbn [mbind outcome_bind]. rewrite Ector.
    cbn [mbind outcome_bind]. rewrite Hkey. cbn [mbind outcome_bind].
    rewrite (M_bind_Ret _ _ junk tt mem Ecpy), Eenc.
    assert (contents (a ++ hdr_bytes h ++ drop 16 ct ++ b) (Span (bb_off ps) (bb_len ps) (zlen a) (wiresize h + rsz))
            = wire) as ->.
    { rewrite (app_assoc (hdr_bytes h)). by apply contents_at. }
    rewrite Encode_ref by lia. done.
  - unfold decode_envelope. change ("/"%char :: encode_ref wire) with (["/"%char] ++ encode_ref wire).
    rewrite substr_in by (rewrite zlen_app; pose proof (zlen_nonneg (encode_ref wire)); change (zlen ["/"%char]) with 1; lia).
    rewrite zdrop_app by done. rewrite ztake_all.
    2:{ pose proof (encode_ref_upper wire). unfold zlen, npos in *. lia. }
    cbn [mbind outcome_bind]. rewrite Edec. cbn [mbind outcome_bind].
    assert (hdr_ctor_wire wire = Ret h) as -> by (apply hdr_wire_roundtrip; [done|cbn; lia|cbn; lia]).
    cbn [mbind outcome_bind].
    destruct (content_decode_layout esid secret (the_nonce true secret stem (replicate 24 zero)) [] stem ct []
        (8 - s_len ps mod 8) 0
        (zlen wire) (get_sharedkey sm)) as (mem' & Eo & Eoc);
      [done|fold rsz; lia|done|done|unfold KEYBYTES, GENERICHASH_KEYBYTES_MIN in *; lia|done|done| |].
    { cbn [app]. rewrite app_nil_r. change (zlen wire < 2 ^ 62). lia. }
    cbn [app] in Eo. rewrite app_nil_r in Eo. fold rsz h wire in Eo. rewrite <- Hw in Eo.
    change (zlen (@nil ascii)) with 0 in *. rewrite Eo. fold rsz h in Eoc. rewrite <- Hw in Eoc. rewrite Eoc.
    unfold stem. rewrite parse_stem; [done|done|done|done|done|fold stem; lia|done].
  - apply urlescape_id.
Qed.

(** The toy cipher's envelope of a file request. *)
Definition sm_ex : secret_mgr := SecretMgr (Ret (lit "key1")) (fun _ => Ret codec_ex_secret).

Lemma envelope_roundtrip_witness :
  exists e, encrypt_request (H := toy_box) sm_ex (replicate 325 "."%char)
      (stem_of (lit "f") name_ex (Some (lit "128;0"))) = Ret (lit "/e/" ++ e)
    /\ decode_envelope sm_ex ("/"%char :: e) = Ret (lit "key1", lit "f", lit "/a%20file", Some (lit "128;0"))
    /\ (urlescape name_ex = name_ex <-> Forall (fun c => url_plain c = true) name_ex).
Proof.
  apply (envelope_roundtrip (SB := toy_box) sm_ex (lit "key1") codec_ex_secret (replicate 325 "."%char)
    (lit "f") name_ex (Some (lit "128;0"))).
  - reflexivity.
  - reflexivity.
  - vm_compute. intuition discriminate.
  - vm_compute. discriminate.
  - apply (bool_decide_eq_true_1 _). vm_compute. reflexivity.
  - apply (bool_decide_eq_true_1 _). vm_compute. reflexivity.
  - right. exists (lit "a file"). reflexivity.
  - apply (bool_decide_eq_true_1 _). vm_compute. reflexivity.
  - discriminate.
  - vm_compute. reflexivity.
  - vm_compute. reflexivity.
Defined.
