(* ===== verification/ServerReply.v ===== *)
(** * Replying to requests (lib/fs123server.cpp, include/fs123/fs123server.hpp)

    The reply half of [fs123p7::req]: the in-place reply buffer with its
    key-value pairs, encryption, the HTTP response that leaves, and the error
    paths: an exception in a handler, in a reply function or in the parser,
    and a request that is destroyed without having been answered.

    libevent is a list of output headers, an output buffer and the list of
    the responses it was asked to send; [add_header_ok] says which headers it
    accepts, [what] is the text of an exception and [random] the nonce a
    secretbox draws.  Handing a reply over (calling the access logger, and
    sending) may throw, as the field [send_fails] of a request says: then the
    function that does it complains and the reply is not sent.  The
    per-connection socket options of [incast_collapse_workaround] and what the
    access log says are not modelled.

    Theorems: every request is answered exactly once, whatever the handler
    does, or not at all when handing the reply over throws; the body of a protocol-7.3 reply is the documented sequence of
    key-value pairs. *)

From Stdlib Require Import Ascii String ZArith Lia.
From stdpp Require Import base gmap strings list numbers.
From S2P Require Import Prelude ScanInt StrUtils Threeroe SvTo Netstring UcharSpan Base64 ContentCodec ServerParse Envelope.

#[local] Open Scope Z_scope.

(** ** State *)

Definition headers : Type := list (bytes * bytes).

Record response := Response { rs_status : Z; rs_headers : headers; rs_body : bytes }.

(** [blob] is the memory [buf] points into; [segv] records a use of [evhr]
    after the reply was sent (it is a null pointer then).  [send_fails] is
    fixed for a request: whether handing its reply over throws, in the access
    logger or because the pipe to the event loop is full. *)
Record rst := Rst {
  blob : bytes;
  buf : option padded_uchar_span;
  kvs : list (bytes * bytes);
  ohdrs : headers;
  outbuf : bytes;
  replied : bool;
  sent : list response;
  segv : bool;
  send_fails : bool
}.

Definition set_buf (m : bytes) (b : option padded_uchar_span) (s : rst) : rst :=
  Rst m b (kvs s) (ohdrs s) (outbuf s) (replied s) (sent s) (segv s) (send_fails s).
Definition set_kvs (k : list (bytes * bytes)) (s : rst) : rst :=
  Rst (blob s) (buf s) k (ohdrs s) (outbuf s) (replied s) (sent s) (segv s) (send_fails s).
Definition set_out (h : headers) (o : bytes) (s : rst) : rst :=
  Rst (blob s) (buf s) (kvs s) h o (replied s) (sent s) (segv s) (send_fails s).

(** The buffer when there is none is a default-constructed span. *)
Definition the_buf (s : rst) : padded_uchar_span :=
  match buf s with Some b => b | None => Span 0 0 0 0 end.

(** Run an operation on the buffer's memory. *)
Definition on_blob (m : padded_uchar_span -> M bytes padded_uchar_span) : M rst unit := fun s =>
  match m (the_buf s) (blob s) with
  | (Ret b, mem) => (Ret tt, set_buf mem (Some b) s)
  | (Throw e, mem) => (Throw e, set_buf mem (buf s) s)
  | (Undef, mem) => (Undef, set_buf mem (buf s) s)
  end.

Definition HHCOOKIE : bytes := lit "fs123-estalecookie".
Definition HHERRNO : bytes := lit "fs123-errno".
Definition HHNO : bytes := lit "fs123-nextoffset".
Definition HHTRSUM : bytes := lit "fs123-trsum".
Definition FS123_ERRNO : bytes := lit "errno".
Definition FS123_CONTENT : bytes := lit "content".
Definition FS123_COOKIE : bytes := lit "estalecookie".
Definition FS123_VALIDATOR : bytes := lit "validator".
Definition FS123_NEXTSTART : bytes := lit "nextstart".

Section Reply.
Context `{SB : Secretbox}.
Context (add_header_ok : bytes -> bytes -> bool) (what : exn -> bytes) (random : bytes).
Context (svr : server) (method : method_e) (p : parsed) (requested_len : Z).

(** ** Headers and the buffer *)

Definition add_hdr (n v : bytes) : M rst unit := fun s =>
  if add_header_ok n v then (Ret tt, set_out (ohdrs s ++ [(n, v)]) (outbuf s) s)
  else (Throw (ESystem 22), s).

Definition alloc (sz : Z) : M rst unit := fun s =>
  match allocate_pbuf (buf s) sz with
  | Ret b => (Ret tt, set_buf (replicate (Z.to_nat (blob_size sz)) zero) (Some b) s)
  | Throw e => (Throw e, s)
  | Undef => (Undef, s)
  end.

(** [buf = buf.append(x)] and [buf = buf.prepend(x)] *)
Definition buf_append (x : bytes) : M rst unit := on_blob (fun b => append b x).
Definition buf_prepend (x : bytes) : M rst unit := on_blob (fun b => prepend b x).

Definition copy_to_pbuf (x : bytes) : M rst unit := alloc (zlen x);; buf_append x.

Definition kv_emplace (k v : bytes) : M rst unit := modify (fun s => set_kvs (kvs s ++ [(k, v)]) s).

Definition has_header (n : bytes) (h : headers) : bool :=
  existsb (fun x => bool_decide (x.1 = n)) h.

(** ** Sending *)

(** [maybe_call_logger] and [arm->send_reply] (or [evhttp_send_reply]): the
    response is handed over and [evhr] becomes null, unless one of them
    throws. *)
Definition hand_over (status : Z) : M rst unit := fun s =>
  if send_fails s then (Throw (ESystem 11), s)
  else (Ret tt, Rst (blob s) (buf s) (kvs s) (ohdrs s) (outbuf s) (replied s)
                  (sent s ++ [Response status (ohdrs s) (outbuf s)]) (segv s) (send_fails s)).

Definition set_replied (s : rst) : rst :=
  Rst (blob s) (buf s) (kvs s) (ohdrs s) (outbuf s) true (sent s) (segv s) (send_fails s).

(** The function is one [try] block: a second call throws inside it, and so may
    the sending; the catch clause complains (reply not sent) and returns.
    [replied] is set before anything is tried. *)
Definition log_and_send_destructively (status : Z) : M rst unit := try_M
  (s ← get;
   (if replied s then raise ERuntime else mret tt);;
   modify set_replied;;
   hand_over status)
  (fun _ => mret tt).

(** [evhr] is set to null exactly where a response is handed over. *)
Definition evhr_null (s : rst) : bool := match sent s with [] => false | _ => true end.

(** Clearing the headers of a request that was already answered would follow
    a null pointer. *)
Definition exception_reply (e : exn) : M rst unit := fun s =>
  if evhr_null s
  then (Undef, Rst (blob s) (buf s) (kvs s) (ohdrs s) (outbuf s) (replied s) (sent s) true (send_fails s))
  else log_and_send_destructively (http_status_from_evnest e)
         (set_out [] (mjoin (map (fun e => what e ++ [chr 10]) (exnest e))) s).

Definition internal_exception (e : exn) : M rst unit := exception_reply e.

(** The catch clause every reply function ends with. *)
Definition or_exception (m : M rst unit) : M rst unit := try_M m internal_exception.

Definition maybe_encode_content : M rst bytes :=
  if negb (may_use_secrets svr (function p)) then mret [] else
  if negb (accept_encoding p =? CE_FS123_SECRETBOX) then raise (EHttp 406) else
  match the_secret_manager svr with
  | None => lift Undef
  | Some sm =>
      esid ← lift (get_encode_sid sm);
      esecret ← lift (get_sharedkey sm esid);
      on_blob (fun b => content_encode (accept_encoding p) esid esecret b secretbox_padding false random);;
      mret esid
  end.

Definition encrypt_and_send200 (cc : bytes) (etag64 : Z) : M rst unit :=
  add_hdr (lit "Cache-control") cc;;
  add_hdr (lit "Content-type") (lit "application/octet-stream");;
  s ← get;
  (if bool_decide (buf s = None) then alloc 0 else mret tt);;
  esid ← maybe_encode_content;
  (if bool_decide (esid = []) then mret tt
   else add_hdr (lit "Content-encoding") (lit "fs123-secretbox"));;
  (if etag64 =? 0 then mret tt else add_hdr (lit "ETag") (etag_mangle etag64 esid));;
  s ← get;
  let body := contents (blob s) (the_buf s) in
  (if decide (method = HEAD) then mret tt
   else modify (fun s => set_out (ohdrs s) (outbuf s ++ body) s));;
  (if decide (method = GET) then add_hdr HHTRSUM (hexdigest (threeroe_of body 0 0)) else mret tt);;
  log_and_send_destructively 200.

(** The text of one key-value pair. *)
Definition kv_text (kv : bytes * bytes) : bytes :=
  netstring kv.1 ++ lit " " ++ netstring kv.2 ++ [chr 10].

Fixpoint prepend_kvs (l : list (bytes * bytes)) : M rst unit :=
  match l with
  | [] => mret tt
  | kv :: l' => buf_prepend (kv_text kv);; prepend_kvs l'
  end.

Definition common_reply200 (cc : bytes) (etag64 : Z) : M rst unit :=
  (if 3 <=? rq_minor p then
     s ← get;
     (if bool_decide (buf s = None) then alloc 0 else mret tt);;
     s ← get;
     buf_prepend (netstring FS123_CONTENT ++ lit " " ++ to_string (s_len (the_buf s)) ++ lit ":");;
     buf_append ([","%char; chr 10]);;
     s ← get;
     prepend_kvs (kvs s)
   else
     s ← get;
     if has_header HHERRNO (ohdrs s) then mret tt else add_hdr HHERRNO (lit "0"));;
  encrypt_and_send200 cc etag64.

(** Replies are only valid for the function they belong to. *)
Definition check_function (fn : bytes) : M rst unit :=
  if decide (function p = fn) then mret tt else raise (EHttp 500).

Definition minor3 (m3 m2 : M rst unit) : M rst unit := if 3 <=? rq_minor p then m3 else m2.

(** ** The replies *)

Definition errno_reply (eno : Z) (cc : bytes) : M rst unit := or_exception (
  minor3 (kv_emplace FS123_ERRNO (to_string eno)) (add_hdr HHERRNO (to_string eno));;
  common_reply200 cc 0).

Definition not_modified_reply (cc : bytes) : M rst unit := or_exception (
  if decide (inm p = []) then internal_exception (EHttp 500) else
  add_hdr (lit "ETag") (inm p);;
  add_hdr (lit "Cache-control") cc;;
  log_and_send_destructively 304).

(** [sb] is the stat buffer as [operator<<] prints it. *)
Definition a_reply (sb : bytes) (validator esc : Z) (cc : bytes) : M rst unit := or_exception (
  check_function (lit "a");;
  minor3
    (kv_emplace FS123_COOKIE (to_string esc);;
     kv_emplace FS123_VALIDATOR (to_string validator);;
     copy_to_pbuf sb)
    (add_hdr HHCOOKIE (to_string esc);;
     copy_to_pbuf (sb ++ [chr 10] ++ to_string validator));;
  common_reply200 cc 0).

Definition buf_content_avail_back (b : padded_uchar_span) : outcome Z :=
  if avail_back b <? secretbox_padding + final_netstring_bytes then Throw EOutOfRange
  else Ret (avail_back b - secretbox_padding - final_netstring_bytes).

Definition dirent_entry (name : bytes) (type esc : Z) : bytes :=
  netstring name ++ lit " " ++ to_string type ++ lit " " ++ to_string esc ++ [chr 10].

Definition add_dirent (name : bytes) (type esc : Z) : M rst bool :=
  check_function (lit "d");;
  if 255 <? zlen name then raise (ESystem 36) else
  if zlen name =? 0 then raise (ESystem 22) else
  let entry := dirent_entry name type esc in
  s ← get;
  avail ← lift (buf_content_avail_back (the_buf s));
  if avail <? zlen entry then mret false else
  buf_append entry;;
  mret true.

Definition d_reply (nextstart : bytes) (etag64 esc : Z) (cc : bytes) : M rst unit := or_exception (
  check_function (lit "d");;
  s ← get;
  (if (s_len (the_buf s) =? 0) && negb (bool_decide (nextstart = [])) then raise (EHttp 500) else mret tt);;
  minor3
    (kv_emplace FS123_COOKIE (to_string esc);;
     kv_emplace FS123_NEXTSTART nextstart)
    (add_hdr HHCOOKIE (to_string esc);;
     if bool_decide (nextstart = []) then add_hdr HHNO (lit "0 EOF") else
     lift (rethrow_nested (EHttp 500) (_ ← svto T_u64 nextstart 0; Ret tt));;
     add_hdr HHNO nextstart);;
  common_reply200 cc etag64).

Definition f_reply (nread validator etag64 esc : Z) (cc : bytes) : M rst unit := or_exception (
  check_function (lit "f");;
  (if requested_len <? nread then raise (EHttp 500) else mret tt);;
  on_blob (fun b => lift (grow_back b nread));;
  minor3
    (kv_emplace FS123_COOKIE (to_string esc);;
     kv_emplace FS123_VALIDATOR (to_string validator))
    (add_hdr HHCOOKIE (to_string esc);;
     buf_prepend (netstring (to_string validator)));;
  common_reply200 cc etag64).

(** [l_reply], [s_reply], [x_reply] and [n_reply] (the text being the target,
    the printed statvfs, the attribute, the body with the statistics). *)
Definition text_reply (fn text cc : bytes) : M rst unit := or_exception (
  check_function fn;;
  copy_to_pbuf text;;
  common_reply200 cc 0).

Definition l_reply (target cc : bytes) : M rst unit := text_reply (lit "l") target cc.
Definition s_reply (sv cc : bytes) : M rst unit := text_reply (lit "s") sv cc.
Definition x_reply (xattr cc : bytes) : M rst unit := text_reply (lit "x") xattr cc.
Definition n_reply (body stats cc : bytes) : M rst unit := text_reply (lit "n") (body ++ stats) cc.

Definition p_reply (body : bytes) (etag64 : Z) (cc : bytes) : M rst unit := or_exception (
  check_function (lit "p");;
  copy_to_pbuf body;;
  encrypt_and_send200 cc etag64).

(** *** Redirects *)

Definition no_newline (l : bytes) : bool :=
  forallb (fun c => negb (bool_decide (c = chr 10)) && negb (bool_decide (c = chr 13))) l.

Definition digitb (c : ascii) : bool := (48 <=? zc c) && (zc c <=? 57).

Fixpoint span_digits (l : bytes) : bytes * bytes :=
  match l with
  | c :: l' => if digitb c then let '(a, b) := span_digits l' in (c :: a, b) else ([], l)
  | [] => ([], [])
  end.

(** [std::regex_match] of a shortest prefix, the sigil with at least one digit
    and a slash, and the rest; a dot does not match a newline. *)
Fixpoint redirect_match (pre l : bytes) : option (bytes * bytes * bytes) :=
  let here :=
    if prefixb SIGIL l then
      let '(ds, rest) := span_digits (zdrop (zlen SIGIL) l) in
      match ds, rest with
      | _ :: _, c :: m3 =>
          if bool_decide (c = "/"%char) && no_newline m3
          then Some (pre, SIGIL ++ ds ++ lit "/", m3) else None
      | _, _ => None
      end
    else None in
  match here with
  | Some r => Some r
  | None =>
      match l with
      | c :: l' => if no_newline [c] then redirect_match (pre ++ [c]) l' else None
      | [] => None
      end
  end.

Definition redirect_reply (junk location cc : bytes) : M rst unit := or_exception (
  (if decide (envelope_sid p = []) then add_hdr (lit "Location") location
   else
     match the_secret_manager svr with
     | None => raise (EHttp 500)
     | Some sm =>
         match redirect_match [] location with
         | None => raise (EHttp 500)
         | Some (m1, m2, m3) =>
             e ← lift (seal sm (envelope_sid p) junk (lit "/" ++ m3));
             add_hdr (lit "Location") (m1 ++ m2 ++ lit "e/" ++ e)
         end
     end);;
  (if bool_decide (cc = []) then mret tt else add_hdr (lit "Cache-control") cc);;
  log_and_send_destructively 302).

(** ** What a handler does

    It owns the request: it may add entries or headers and write into its
    buffer, and then it replies once (which gives the request away), throws,
    or lets the request go. *)
Inductive hstep :=
| H_dirent (name : bytes) (type esc : Z)
| H_header (n v : bytes)
| H_write (off : Z) (data : bytes).

Inductive hend :=
| E_reply_exception (e : exn)
| E_reply_errno (eno : Z) (cc : bytes)
| E_reply_not_modified (cc : bytes)
| E_reply_redirect (location cc : bytes)
| E_reply_a (sb : bytes) (validator esc : Z) (cc : bytes)
| E_reply_d (nextstart : bytes) (etag64 esc : Z) (cc : bytes)
| E_reply_f (nread validator etag64 esc : Z) (cc : bytes)
| E_reply_l (target cc : bytes)
| E_reply_s (sv cc : bytes)
| E_reply_x (xattr cc : bytes)
| E_reply_n (body stats cc : bytes)
| E_reply_p (body : bytes) (etag64 : Z) (cc : bytes)
| E_throw (e : exn)
| E_drop.

(** [add_header]: for /p handlers only. *)
Definition add_header (n v : bytes) : M rst unit := check_function (lit "p");; add_hdr n v.

Definition run_step (st : hstep) : M rst unit :=
  match st with
  | H_dirent name type esc => add_dirent name type esc;; mret tt
  | H_header n v => add_header n v
  | H_write off data => on_blob (fun b => memcpy off data;; mret b)
  end.

Fixpoint run_steps (l : list hstep) : M rst unit :=
  match l with [] => mret tt | st :: l' => run_step st;; run_steps l' end.

Definition run_end (junk : bytes) (e : hend) : M rst unit :=
  match e with
  | E_reply_exception e => exception_reply e
  | E_reply_errno eno cc => errno_reply eno cc
  | E_reply_not_modified cc => not_modified_reply cc
  | E_reply_redirect location cc => redirect_reply junk location cc
  | E_reply_a sb validator esc cc => a_reply sb validator esc cc
  | E_reply_d nextstart etag64 esc cc => d_reply nextstart etag64 esc cc
  | E_reply_f nread validator etag64 esc cc => f_reply nread validator etag64 esc cc
  | E_reply_l target cc => l_reply target cc
  | E_reply_s sv cc => s_reply sv cc
  | E_reply_x xattr cc => x_reply xattr cc
  | E_reply_n body stats cc => n_reply body stats cc
  | E_reply_p body etag64 cc => p_reply body etag64 cc
  | E_throw e => raise e
  | E_drop => mret tt
  end.

(** [req::~req] *)
Definition req_dtor : M rst unit :=
  s ← get;
  if replied s then mret tt else internal_exception (EHttp 500).

(** A handler that throws while it owns the request destroys it on the way
    out; [parse_and_handle] then has nothing left to reply to. *)
Definition run_handler (junk : bytes) (steps : list hstep) (e : hend) : M rst unit := fun s =>
  match (run_steps steps;; run_end junk e) s with
  | (Undef, s') => (Undef, s')
  | (_, s') => req_dtor s'
  end.
End Reply.

(** ** A whole request: [req::http_cb] *)

Definition rst_init (fails : bool) (kv : list (bytes * bytes)) (b : option padded_uchar_span) : rst :=
  Rst (match b with Some b => replicate (Z.to_nat (bb_len b)) zero | None => [] end)
    b kv [] [] false [] false fails.

(** A request whose reply can be handed over. *)
Definition rst0 (kv : list (bytes * bytes)) (b : option padded_uchar_span) : rst := rst_init false kv b.

(** [handler] says what the handler does for the call it gets, [fails] whether
    handing the reply over will throw.  When the parser throws, the request is
    still there to be answered. *)
Definition http_cb `{Secretbox} (add_header_ok : bytes -> bytes -> bool) (what : exn -> bytes)
    (random junk : bytes) (svr : server) (handler : parsed -> hcall -> list hstep * hend)
    (fails : bool) (h : http_req) : outcome unit * rst :=
  match parse_and_dispatch svr h with
  | Ret (p, (c, b, rlen)) =>
      let '(steps, e) := handler p c in
      run_handler add_header_ok what random svr (hr_method h) p rlen junk steps e (rst_init fails (kvpairs p) b)
  | Throw e => internal_exception what e (rst_init fails [] None)
  | Undef => (Undef, rst_init fails [] None)
  end.

(** ** Lemmas *)

(** A request is unanswered until [log_and_send_destructively]. *)
Definition unanswered_in (fails : bool) (s : rst) : Prop :=
  replied s = false /\ sent s = [] /\ segv s = false /\ send_fails s = fails.

(** The one attempt to send was made: it handed over one response, or failed. *)
Definition answered_in (fails : bool) (s : rst) : Prop :=
  replied s = true /\ segv s = false /\ if fails then sent s = [] else exists r, sent s = [r].

Definition unanswered : rst -> Prop := unanswered_in false.
Definition answered : rst -> Prop := answered_in false.

(** [m] answers the request unless it throws. *)
Definition answers {A} (m : M rst A) : Prop := forall fails s, unanswered_in fails s ->
  segv (m s).2 = false
  /\ match (m s).1 with
     | Ret _ => answered_in fails (m s).2
     | Throw _ => unanswered_in fails (m s).2
     | Undef => True
     end.

Definition quiet {A} (m : M rst A) : Prop := forall fails, keeps (unanswered_in fails) m (fun _ => True).

Create HintDb reply.

Lemma quiet_ret {A} (a : A) : quiet (mret a).
Proof. intros t. by apply keeps_ret. Qed.
Lemma quiet_raise {A} e : quiet (raise (A := A) e).
Proof. intros t. apply keeps_raise. Qed.
Lemma quiet_lift {A} (m : outcome A) : quiet (lift m).
Proof. intros t. by apply keeps_lift. Qed.
Lemma quiet_get : quiet get.
Proof. intros t. eapply keeps_weaken; [apply keeps_get|done]. Qed.
Lemma quiet_bind {A B} (m : M rst A) (k : A -> M rst B) :
  quiet m -> (forall a, quiet (k a)) -> quiet (m ≫= k).
Proof. intros Hm Hk t. eapply keeps_bind; [exact (Hm t)|]. intros a _. apply Hk. Qed.
Lemma quiet_modify f :
  (forall s, replied (f s) = replied s /\ sent (f s) = sent s /\ segv (f s) = segv s
     /\ send_fails (f s) = send_fails s) ->
  quiet (modify f).
Proof.
  intros Hf t. apply keeps_modify. intros s (H1 & H2 & H3 & H4). destruct (Hf s) as (E1 & E2 & E3 & E4).
  unfold unanswered_in. by rewrite E1, E2, E3, E4.
Qed.
Lemma quiet_on_blob f : quiet (on_blob f).
Proof.
  intros t s Hs. unfold on_blob. destruct (f _ _) as [[b|e|] mem]; by split.
Qed.
Lemma quiet_prepend x : quiet (buf_prepend x).
Proof. apply quiet_on_blob. Qed.
Lemma quiet_append x : quiet (buf_append x).
Proof. apply quiet_on_blob. Qed.
#[export] Hint Resolve @quiet_ret @quiet_raise @quiet_lift quiet_get @quiet_bind quiet_on_blob
  quiet_prepend quiet_append : reply.

Lemma answers_bind {A B} (m : M rst A) (k : A -> M rst B) :
  quiet m -> (forall a, answers (k a)) -> answers (m ≫= k).
Proof.
  intros Hm Hk t s Hs. unfold mbind, M_bind. destruct (Hm t s Hs) as [Hs' _].
  destruct (m s) as [[a|e|] s']; cbn in *; [by apply Hk| |]; (split; [apply Hs'|done]).
Qed.

Lemma answers_raise {A} e : answers (raise (A := A) e).
Proof. intros t s Hs. split; [apply Hs|done]. Qed.

#[export] Hint Resolve @answers_bind @answers_raise : reply.

Section ReplyLemmas.
Context `{SB : Secretbox}.
Context (add_header_ok : bytes -> bytes -> bool) (what : exn -> bytes) (random : bytes).
Context (svr : server) (method : method_e) (p : parsed) (rlen : Z).

Lemma quiet_add_hdr n v : quiet (add_hdr add_header_ok n v).
Proof. intros t s Hs. unfold add_hdr. destruct (add_header_ok n v); by split. Qed.

Lemma quiet_alloc sz : quiet (alloc sz).
Proof. intros t s Hs. unfold alloc. destruct (allocate_pbuf _ _); by split. Qed.

Lemma quiet_kv k v : quiet (kv_emplace k v).
Proof. by apply quiet_modify. Qed.

Lemma quiet_prepend_kvs l : quiet (prepend_kvs l).
Proof. induction l as [|kv l IH]; cbn; auto with reply. Qed.

Lemma quiet_check_function fn : quiet (check_function p fn).
Proof. unfold check_function. case_decide; auto with reply. Qed.

Lemma quiet_encode : quiet (maybe_encode_content random svr p).
Proof.
  unfold maybe_encode_content. repeat case_match; auto with reply.
Qed.

Lemma log_and_send_runs status s :
  log_and_send_destructively status s
  = (Ret tt, if replied s then s
             else if send_fails s then set_replied s
             else Rst (blob s) (buf s) (kvs s) (ohdrs s) (outbuf s) true
                    (sent s ++ [Response status (ohdrs s) (outbuf s)]) (segv s) (send_fails s)).
Proof.
  unfold log_and_send_destructively, try_M, mbind, M_bind, get, modify, hand_over.
  destruct s as [? ? ? ? ? [] ? ? []]; done.
Qed.

Lemma answers_log status : answers (log_and_send_destructively status).
Proof.
  intros t s (H1 & H2 & H3 & H4). rewrite log_and_send_runs, H1, H4.
  destruct t; cbn; rewrite ?H2, H3; (split; [done|]); split_and!; eauto.
Qed.

Lemma exception_reply_answers e : answers (exception_reply what e).
Proof.
  intros t s Hs. pose proof Hs as (H1 & H2 & H3 & H4). unfold exception_reply, evhr_null. rewrite H2.
  by apply answers_log.
Qed.

Lemma answers_or_exception (m : M rst unit) : answers m -> answers (or_exception what m).
Proof.
  intros Hm t s Hs. unfold or_exception, try_M. destruct (Hm t s Hs) as [H1 H2].
  destruct (m s) as [[[]|e|] s']; cbn in *; [done| |done]. by apply exception_reply_answers.
Qed.

#[local] Hint Resolve quiet_add_hdr quiet_alloc quiet_kv quiet_prepend_kvs quiet_check_function
  quiet_encode answers_log exception_reply_answers : reply.

Lemma encrypt_answers cc etag : answers (encrypt_and_send200 add_header_ok random svr method p cc etag).
Proof.
  unfold encrypt_and_send200. repeat (apply answers_bind; [|intros]); auto with reply;
    repeat case_match; auto with reply; by apply quiet_modify.
Qed.

Lemma common_answers cc etag : answers (common_reply200 add_header_ok random svr method p cc etag).
Proof.
  unfold common_reply200. apply answers_bind; [|intros; apply encrypt_answers].
  destruct (3 <=? rq_minor p); repeat (apply quiet_bind; [|intros]);
    auto with reply; case_match; auto with reply.
Qed.
#[local] Hint Resolve encrypt_answers common_answers : reply.

Lemma quiet_copy x : quiet (copy_to_pbuf x).
Proof. unfold copy_to_pbuf. auto with reply. Qed.
#[local] Hint Resolve quiet_copy : reply.

Ltac quiet_tac := unfold minor3; repeat match goal with
  | |- quiet (_ ≫= _) => apply quiet_bind; [|intros]
  | |- quiet (modify _) => by apply quiet_modify
  | |- quiet (match _ with _ => _ end) => case_match
  | |- quiet (if _ then _ else _) => case_match
  end; auto with reply.

Ltac answers_tac := repeat match goal with
  | |- answers (or_exception _ _) => apply answers_or_exception
  | |- answers (_ ≫= _) => apply answers_bind; [quiet_tac|intros]
  | |- answers (if _ then _ else _) => case_match
  end; auto with reply.

Lemma run_step_quiet st : quiet (run_step add_header_ok p st).
Proof. destruct st; cbn; unfold add_dirent, add_header; quiet_tac. Qed.

Lemma run_steps_quiet l : quiet (run_steps add_header_ok p l).
Proof. induction l; cbn; auto using run_step_quiet with reply. Qed.

(** Every kind of reply answers; throwing and dropping do not. *)
Definition replies (e : hend) : bool := match e with E_throw _ | E_drop => false | _ => true end.

Lemma run_end_answers junk e :
  replies e = true -> answers (run_end add_header_ok what random svr method p rlen junk e).
Proof.
  destruct e; intros He; try discriminate He; cbn; auto with reply.
  - unfold errno_reply. answers_tac.
  - unfold not_modified_reply, internal_exception. answers_tac.
  - unfold redirect_reply. answers_tac.
  - unfold a_reply. answers_tac.
  - unfold d_reply. answers_tac.
  - unfold f_reply. answers_tac.
  - unfold l_reply, text_reply. answers_tac.
  - unfold s_reply, text_reply. answers_tac.
  - unfold x_reply, text_reply. answers_tac.
  - unfold n_reply, text_reply. answers_tac.
  - unfold p_reply. answers_tac.
Qed.

Lemma run_end_cases junk e :
  answers (run_end add_header_ok what random svr method p rlen junk e)
  \/ quiet (run_end add_header_ok what random svr method p rlen junk e).
Proof.
  destruct (replies e) eqn:E; [left; by apply run_end_answers|right].
  destruct e; try discriminate E; cbn; auto with reply.
Qed.

Lemma exception_reply_nothrow e s e' : (exception_reply what e s).1 <> Throw e'.
Proof. unfold exception_reply. rewrite log_and_send_runs. by destruct (evhr_null s). Qed.

(** A reply function lets no exception out. *)
Lemma or_exception_nothrow (m : M rst unit) s e : (or_exception what m s).1 <> Throw e.
Proof.
  unfold or_exception, try_M. destruct (m s) as [[] s']; cbn; [done|apply exception_reply_nothrow|done].
Qed.
End ReplyLemmas.

Lemma rst_init_unanswered fails kv b : unanswered_in fails (rst_init fails kv b).
Proof. done. Qed.

Lemma rst0_unanswered kv b : unanswered (rst0 kv b).
Proof. done. Qed.

(** The destructor answers what was not answered and leaves the rest alone. *)
Lemma req_dtor_answers what fails s : answered_in fails s \/ unanswered_in fails s ->
  let r := req_dtor what s in segv r.2 = false /\ r.1 = Ret tt /\ answered_in fails r.2.
Proof.
  cbv zeta. unfold req_dtor, mbind, M_bind, get. intros [Ha|Hu].
  - pose proof Ha as (H1 & H2 & _). rewrite H1. by split.
  - pose proof Hu as (H1 & H2 & _). rewrite H1. unfold internal_exception.
    destruct (exception_reply_answers what (EHttp 500) fails s Hu) as [H3 H4].
    revert H3 H4. unfold exception_reply, evhr_null. rewrite H2, log_and_send_runs. cbn. auto.
Qed.

Lemma run_handler_answers `{SB : Secretbox} ok what random svr method p rlen junk steps e fails s :
  unanswered_in fails s ->
  let r := run_handler ok what random svr method p rlen junk steps e s in
  segv r.2 = false /\ (r.1 = Undef \/ (r.1 = Ret tt /\ answered_in fails r.2)).
Proof.
  intros Hs. unfold run_handler. cbv zeta.
  assert (let r := (run_steps ok p steps;; run_end ok what random svr method p rlen junk e) s in
    segv r.2 = false /\ (r.1 = Undef \/ answered_in fails r.2 \/ unanswered_in fails r.2)) as H.
  { cbv zeta. unfold mbind, M_bind. destruct (run_steps_quiet ok p steps fails s Hs) as [Hs1 _].
    destruct (run_steps ok p steps s) as [[[]|e1|] s1]; cbn in Hs1 |- *; [|split; [apply Hs1|auto]..].
    destruct (run_end_cases ok what random svr method p rlen junk e) as [Ha|Hq].
    - destruct (Ha fails s1 Hs1) as [H1 H2].
      destruct (run_end _ _ _ _ _ _ _ _ _ s1) as [[[]|e2|] s2]; cbn in *; auto.
    - destruct (Hq fails s1 Hs1) as [H1 _]. split; [apply H1|auto]. }
  cbv zeta in H. destruct ((run_steps ok p steps;; _) s) as [[[]|e1|] s1]; cbn in H; destruct H as [H1 H2];
    [..|cbn; auto]; (destruct H2 as [|H2]; [discriminate|]);
    destruct (req_dtor_answers what fails s1 H2) as (H3 & H4 & H5); auto.
Qed.


(** ** The body of a protocol-7.3 reply *)

(** The documented body: the key-value pairs, newest first, then the content. *)
Definition body73 (l : list (bytes * bytes)) (content : bytes) : bytes :=
  mjoin (map kv_text (rev l)) ++ kv_text (FS123_CONTENT, content).

(** [s] has a reply buffer showing [c], with the given room around it. *)
Definition shows (s : rst) (c : bytes) (front back : Z) : Prop :=
  exists b, buf s = Some b /\ span_wf (blob s) b /\ contents (blob s) b = c
    /\ zlen c = s_len b /\ avail_front b = front /\ avail_back b = back.

(** The parts of the state that the buffer operations leave alone. *)
Definition same_reply (s s' : rst) : Prop :=
  kvs s' = kvs s /\ ohdrs s' = ohdrs s /\ outbuf s' = outbuf s
  /\ replied s' = replied s /\ sent s' = sent s /\ segv s' = segv s /\ send_fails s' = send_fails s.

#[export] Instance same_reply_refl : Reflexive same_reply.
Proof. by intros s. Qed.
#[export] Instance same_reply_trans : Transitive same_reply.
Proof. intros a b c (?&?&?&?&?&?&?) (?&?&?&?&?&?&?). unfold same_reply. by split_and!; etransitivity. Qed.

Lemma buf_prepend_shows s c front back x :
  shows s c front back -> zlen x <= front -> front < 2 ^ 62 ->
  exists s', buf_prepend x s = (Ret tt, s') /\ shows s' (x ++ c) (front - zlen x) back /\ same_reply s s'.
Proof.
  intros (b & Hb & Hwf & Hc & Hl & Hf & Hk) Hx Hfr. unfold buf_prepend, on_blob, the_buf. rewrite Hb.
  destruct (prepend_room (blob s) b x Hwf) as (b' & mem & E & Hwf' & Hc' & Hf' & Hk' & _); [lia|lia|].
  rewrite E. eexists. split; [reflexivity|]. split; [|done].
  exists b'. split; [done|]. split; [done|]. split; [cbn [blob set_buf]; by rewrite Hc', Hc|].
  destruct (contents_split mem b' Hwf') as (_ & _ & _ & _ & El). rewrite Hc', Hc in El.
  split; [done|lia].
Qed.

Lemma buf_append_shows s c front back x :
  shows s c front back -> zlen x <= back -> zlen x < 2 ^ 62 ->
  exists s', buf_append x s = (Ret tt, s') /\ shows s' (c ++ x) front (back - zlen x) /\ same_reply s s'.
Proof.
  intros (b & Hb & Hwf & Hc & Hl & Hf & Hk) Hx Hfr. unfold buf_append, on_blob, the_buf. rewrite Hb.
  destruct (append_room (blob s) b x Hwf) as (b' & mem & E & Hwf' & Hc' & Hk' & Hf' & _); [lia|lia|].
  rewrite E. eexists. split; [reflexivity|]. split; [|done].
  exists b'. split; [done|]. split; [done|]. split; [cbn [blob set_buf]; by rewrite Hc', Hc|].
  destruct (contents_split mem b' Hwf') as (_ & _ & _ & _ & El). rewrite Hc', Hc in El.
  split; [done|lia].
Qed.

Definition kvs_size (l : list (bytes * bytes)) : Z := zlen (mjoin (map kv_text l)).

Lemma kvs_size_cons kv l : kvs_size (kv :: l) = zlen (kv_text kv) + kvs_size l.
Proof. unfold kvs_size. cbn. by rewrite zlen_app. Qed.

Lemma prepend_kvs_shows l s c front back :
  shows s c front back -> kvs_size l <= front -> front < 2 ^ 62 ->
  exists s', prepend_kvs l s = (Ret tt, s')
    /\ shows s' (mjoin (map kv_text (rev l)) ++ c) (front - kvs_size l) back /\ same_reply s s'.
Proof.
  revert s c front. induction l as [|kv l IH]; intros s c front Hs Hl Hf.
  - exists s. cbn. split; [done|]. split; [|done]. unfold kvs_size. cbn.
    change (zlen (@nil ascii)) with 0. by rewrite Z.sub_0_r.
  - rewrite kvs_size_cons in *. pose proof (zlen_nonneg (mjoin (map kv_text l))).
    pose proof (zlen_nonneg (kv_text kv)). unfold kvs_size in *.
    destruct (buf_prepend_shows s c front back (kv_text kv)) as (s1 & E1 & H1 & R1); [done|lia|done|].
    destruct (IH s1 _ _ H1) as (s2 & E2 & H2 & R2); [lia|lia|].
    exists s2. cbn [prepend_kvs]. rewrite (M_bind_Ret _ _ s tt s1 E1). split; [done|].
    split; [|by etransitivity]. cbn [rev]. rewrite map_app. cbn [map].
    assert (mjoin (map kv_text (rev l) ++ [kv_text kv]) = mjoin (map kv_text (rev l)) ++ kv_text kv) as ->.
    { rewrite join_app. cbn. by rewrite app_nil_r. }
    rewrite <- app_assoc. replace (front - (zlen (kv_text kv) + zlen (mjoin (map kv_text l))))
      with (front - zlen (kv_text kv) - zlen (mjoin (map kv_text l))) by lia. done.
Qed.

Section Reply73.
Context `{SB : Secretbox}.
Context (what : exn -> bytes) (random : bytes) (svr : server) (method : method_e) (p : parsed).

#[local] Abbreviation ok := (fun _ _ : bytes => true).

Definition plaintext_headers (h : headers) (cc body : bytes) (etag64 : Z) : headers :=
  h ++ [(lit "Cache-control", cc); (lit "Content-type", lit "application/octet-stream")]
    ++ (if etag64 =? 0 then [] else [(lit "ETag", etag_mangle etag64 [])])
    ++ (if decide (method = GET) then [(HHTRSUM, hexdigest (threeroe_of body 0 0))] else []).

(** Without secrets the response is the headers and what the buffer shows. *)
Lemma encrypt_plain s c front back cc etag64 :
  may_use_secrets svr (function p) = false -> unanswered s -> shows s c front back -> outbuf s = [] ->
  exists s', encrypt_and_send200 ok random svr method p cc etag64 s = (Ret tt, s')
    /\ sent s' = [Response 200 (plaintext_headers (ohdrs s) cc c etag64)
                    (if decide (method = HEAD) then [] else c)].
Proof.
  intros Hsec (Hr & Hsent & _ & Hfail) (b & Hb & _ & Hc & _) Ho.
  unfold encrypt_and_send200, maybe_encode_content, plaintext_headers. rewrite Hsec.
  unfold mbind, M_bind, get, add_hdr, set_out. cbn -[log_and_send_destructively threeroe_of hexdigest contents etag_mangle].
  rewrite Hb. rewrite bool_decide_eq_false_2 by done.
  cbn -[log_and_send_destructively threeroe_of hexdigest contents etag_mangle].
  unfold the_buf, mret, M_ret, modify.
  destruct (etag64 =? 0); destruct (decide (method = HEAD)), (decide (method = GET)); try congruence;
    cbn -[log_and_send_destructively threeroe_of hexdigest contents etag_mangle]; rewrite ?Hb, log_and_send_runs; cbn -[log_and_send_destructively threeroe_of hexdigest contents etag_mangle];
    rewrite ?Hr, ?Hfail, ?Hc, ?Hsent, ?Ho; eexists; (split; [reflexivity|]);
    cbn -[log_and_send_destructively threeroe_of hexdigest contents etag_mangle]; rewrite ?app_nil_r, <- ?app_assoc; done.
Qed.

(** The content's pair: its key and length in front, its end behind. *)
Lemma content_pair c :
  (netstring FS123_CONTENT ++ lit " " ++ to_string (zlen c) ++ lit ":") ++ c ++ [","%char; chr 10]
  = kv_text (FS123_CONTENT, c).
Proof.
  unfold kv_text. cbn [fst snd]. unfold netstring at 3.
  cbn [lit list_ascii_of_string]. assoc.
Qed.

(** A successful reply for minor 3 and no secrets. *)
Lemma common_plain s c front back cc etag64 :
  3 <= rq_minor p -> may_use_secrets svr (function p) = false -> unanswered s -> outbuf s = [] ->
  shows s c front back -> 2 <= back -> front < 2 ^ 62 ->
  kvs_size (kvs s) + zlen (kv_text (FS123_CONTENT, c)) - zlen c - 2 <= front ->
  exists s', common_reply200 ok random svr method p cc etag64 s = (Ret tt, s')
    /\ sent s' = [Response 200 (plaintext_headers (ohdrs s) cc (body73 (kvs s) c) etag64)
                    (if decide (method = HEAD) then [] else body73 (kvs s) c)].
Proof.
  intros Hm Hsec Hun Hout Hs Hback Hfr Hfront. pose proof Hs as (b & Hb & _ & _ & Hl & _).
  rewrite <- content_pair, !zlen_app in Hfront. change (zlen [","%char; chr 10]) with 2 in Hfront.
  set (front0 := netstring FS123_CONTENT ++ lit " " ++ to_string (zlen c) ++ lit ":") in *.
  assert (zlen front0 = zlen (netstring FS123_CONTENT) + (zlen (lit " ") + (zlen (to_string (zlen c)) + zlen (lit ":"))))
    as Hz by (unfold front0; by rewrite !zlen_app).
  pose proof (zlen_nonneg (mjoin (map kv_text (kvs s)))) as Hk0. unfold kvs_size in Hfront.
  destruct (buf_prepend_shows s c front back front0) as (s1 & E1 & H1 & R1); [done|lia|done|].
  destruct (buf_append_shows s1 _ _ _ [","%char; chr 10] H1) as (s2 & E2 & H2 & R2); [done|done|].
  assert (same_reply s s2) as R by by etransitivity.
  pose proof R as (Rk & Rh & Ro & Rr & Rs & Rg & Rf).
  pose proof (zlen_nonneg front0).
  destruct (prepend_kvs_shows (kvs s2) s2 _ _ _ H2) as (s3 & E3 & H3 & R3);
    [rewrite Rk; unfold kvs_size; lia|lia|].
  assert (same_reply s s3) as (Rk3 & Rh3 & Ro3 & Rr3 & Rs3 & Rg3 & Rf3) by by etransitivity.
  destruct (encrypt_plain s3 (mjoin (map kv_text (rev (kvs s2))) ++ (front0 ++ c) ++ [","%char; chr 10])
      (front - zlen front0 - kvs_size (kvs s2)) (back - zlen [","%char; chr 10]) cc etag64 Hsec) as (s4 & E4 & H4);
    [unfold unanswered, unanswered_in in *; by rewrite Rr3, Rs3, Rg3, Rf3|exact H3|by rewrite Ro3|].
  exists s4. rewrite Rk, <- (app_assoc front0) in H4. unfold front0 in H4 at 1 2.
  rewrite content_pair, Rh3 in H4. fold (body73 (kvs s) c) in H4. split; [|done].
  unfold common_reply200. rewrite (proj2 (Z.leb_le _ _)) by done.
  unfold mbind at 1, M_bind at 1. unfold mbind at 1, M_bind at 1, get at 1.
  rewrite Hb, bool_decide_eq_false_2 by done.
  unfold mbind at 1, M_bind at 1, mret, M_ret. unfold mbind at 1, M_bind at 1, get at 1.
  unfold the_buf. rewrite Hb, <- Hl. fold front0.
  rewrite (M_bind_Ret _ _ _ _ _ E1), (M_bind_Ret _ _ _ _ _ E2).
  unfold mbind at 1, M_bind at 1, get at 1. rewrite E3. exact E4.
Qed.
End Reply73.
