(* ===== verification/ClientReply.v ===== *)
(** * Reading replies (exe/fs123p7/app_mount.cpp, app_mount.hpp)

    The client's [decoded_reply]: the key-value pairs of a protocol-7.3 reply
    (or the text that stands for them in 7.2), its content, its errno and the
    accessors for the other keys.

    Theorems: what the server's reply functions send is decoded into what
    they were called with; a hostile reply makes the parsing loop run for
    ever. *)

From Stdlib Require Import Ascii String ZArith Lia.
From stdpp Require Import base gmap strings list numbers.
From S2P Require Import Prelude ScanInt StrUtils SvTo Netstring UcharSpan ContentCodec Backend ServerParse ServerReply.

#[local] Open Scope Z_scope.

(** ** Definitions *)

(** [kvmap] is a [std::map]; [mismatches] counts [stats.req123_mismatch]. *)
Record decoded := Decoded {
  d_expires : Z;
  d_swr : Z;
  d_cacheable : bool;
  d_eno : Z;
  d_content : bytes;
  d_kvmap : gmap bytes bytes;
  d_mismatches : Z
}.

Definition d_put (d : decoded) (eno : Z) (content : bytes) (kvmap : gmap bytes bytes) (m : Z) : decoded :=
  Decoded (d_expires d) (d_swr d) (d_cacheable d) eno content kvmap m.

(** One pair: [mine] is the request the client made, sigil and all. *)
Definition kv_put (mine : bytes) (k v : bytes) (d : decoded) : outcome decoded :=
  if decide (k = FS123_ERRNO) then
    eno ← svto T_int v 0; Ret (d_put d eno (d_content d) (d_kvmap d) (d_mismatches d))
  else if decide (k = FS123_CONTENT) then
    Ret (d_put d (d_eno d) v (d_kvmap d) (d_mismatches d))
  else if decide (k = FS123_REQUEST) then
    Ret (if decide (v = mine) then d
         else d_put d (d_eno d) (d_content d) (d_kvmap d) (d_mismatches d + 1))
  else if decide (is_Some (d_kvmap d !! k)) then Throw ERuntime
  else Ret (d_put d (d_eno d) (d_content d) (<[k := v]> (d_kvmap d)) (d_mismatches d)).

(** The body of the loop: [kvinput.at(next++)]. *)
Definition kv_one (mine kvinput : bytes) (next : Z) (d : decoded) : outcome (decoded * Z) :=
  rethrow_nested ERuntime
    ('(k, next) ← svscan_netstring false kvinput next;
     c ← sv_at kvinput next;
     if negb (bool_decide (c = " "%char)) then Throw ERuntime else
     '(v, next) ← svscan_netstring false kvinput (u64 (next + 1));
     c ← sv_at kvinput next;
     if negb (bool_decide (c = chr 10)) then Throw ERuntime else
     d ← kv_put mine k v d;
     Ret (d, u64 (next + 1))).

(** [None]: not finished within [fuel] pairs. *)
Fixpoint kv_loop (fuel : nat) (mine kvinput : bytes) (next : Z) (d : decoded)
  : option (outcome decoded) :=
  if zlen kvinput <=? next then Some (Ret d) else
  match fuel with
  | O => None
  | S fuel =>
      match kv_one mine kvinput next d with
      | Ret (d, next) => kv_loop fuel mine kvinput next d
      | Throw e => Some (Throw e)
      | Undef => Some Undef
      end
  end.

(** What a 7.2 reply's headers say, as 7.3 pairs. *)
Definition kvinput72 (from : reply123) : outcome bytes :=
  let cookie := netstring FS123_COOKIE ++ lit " " ++ netstring (to_string (estale_cookie72 from)) ++ [chr 10] in
  if chunk_next_meta72 from =? CNO_EOF then
    Ret (cookie ++ netstring FS123_NEXTSTART ++ lit " 0:," ++ [chr 10])
  else if chunk_next_meta72 from =? CNO_NOT_EOF then
    Ret (cookie ++ netstring FS123_NEXTSTART ++ lit " "
         ++ netstring (to_string (chunk_next_offset72 from)) ++ [chr 10])
  else if chunk_next_meta72 from =? CNO_MISSING then Ret cookie
  else Throw ERuntime.

(** The constructor, up to the loop's fuel. *)
Definition decoded_reply (fuel : nat) (g : req_config) (from : reply123) (plaintext urlstem : bytes)
  : option (outcome decoded) :=
  if negb (valid from) then Some (Throw ERuntime) else
  match reply_max_age from, add_sigil_version g [] with
  | Ret age, Ret base =>
      let d := Decoded (expires from) (stale_while_revalidate from) (0 <? age) 0 [] ∅ 0 in
      if 3 <=? proto_minor g then kv_loop fuel (base ++ urlstem) plaintext 0 d
      else
        match kvinput72 from with
        | Ret kv => kv_loop fuel (base ++ urlstem) kv 0
            (d_put d (eno72 from) plaintext (d_kvmap d) (d_mismatches d))
        | Throw e => Some (Throw e)
        | Undef => Some Undef
        end
  | Throw e, _ => Some (Throw e)
  | _, Throw e => Some (Throw e)
  | _, _ => Some Undef
  end.

(** The accessors: [kvmap.at] throws for a missing key. *)
Definition kv_at (d : decoded) (k : bytes) : outcome bytes :=
  match d_kvmap d !! k with Some v => Ret v | None => Throw EOutOfRange end.
Definition d_estale_cookie (d : decoded) : outcome Z :=
  rethrow_nested ERuntime (v ← kv_at d FS123_COOKIE; svto T_u64 v 0).
Definition d_chunk_next_start (d : decoded) : outcome bytes :=
  rethrow_nested ERuntime (kv_at d FS123_NEXTSTART).
Definition d_validator (d : decoded) : outcome Z :=
  rethrow_nested ERuntime (v ← kv_at d FS123_VALIDATOR; svto T_u64 v 0).

(** ** Lemmas *)

(** The effect of a list of pairs, in order. *)
Fixpoint put_all (mine : bytes) (l : list (bytes * bytes)) (d : decoded) : outcome decoded :=
  match l with
  | [] => Ret d
  | (k, v) :: l' => d ← rethrow_nested ERuntime (kv_put mine k v d); put_all mine l' d
  end.

Lemma kv_one_text mine pre k v rest d :
  zlen (pre ++ kv_text (k, v) ++ rest) < 2 ^ 62 ->
  kv_one mine (pre ++ kv_text (k, v) ++ rest) (zlen pre) d
  = (d ← rethrow_nested ERuntime (kv_put mine k v d); Ret (d, zlen (pre ++ kv_text (k, v)))).
Proof.
  intros Hl. unfold kv_one, kv_text in *. cbn [fst snd lit list_ascii_of_string] in *.
  set (all := pre ++ (netstring k ++ [" "%char] ++ netstring v ++ [chr 10]) ++ rest) in *.
  assert (all = pre ++ netstring k ++ [" "%char] ++ netstring v ++ chr 10 :: rest) as E1
    by (unfold all; assoc).
  assert (all = (pre ++ netstring k) ++ " "%char :: netstring v ++ chr 10 :: rest) as E2 by (rewrite E1; assoc).
  assert (all = (pre ++ netstring k ++ [" "%char]) ++ netstring v ++ chr 10 :: rest) as E3 by (rewrite E1; assoc).
  assert (all = (pre ++ netstring k ++ [" "%char] ++ netstring v) ++ chr 10 :: rest) as E4 by (rewrite E1; assoc).
  pose proof (zlen_nonneg pre). pose proof (zlen_nonneg (netstring k)). pose proof (zlen_nonneg (netstring v)).
  pose proof (zlen_nonneg rest).
  assert (zlen all = zlen pre + zlen (netstring k) + 1 + zlen (netstring v) + 1 + zlen rest) as Hz
    by (rewrite E1; zlia).
  rewrite E1 at 1. rewrite svscan_netstring_here by (rewrite <- E1; lia).
  cbn [mbind outcome_bind].
  assert (sv_at all (zlen (pre ++ netstring k)) = Ret " "%char) as ->
    by (unfold sv_at; by rewrite E2, zget_app_mid).
  cbn [mbind outcome_bind]. rewrite bool_decide_eq_true_2 by done. cbn [negb].
  rewrite wrap_small by (rewrite zlen_app; lia).
  replace (zlen (pre ++ netstring k) + 1) with (zlen (pre ++ netstring k ++ [" "%char])) by zlia.
  rewrite E3 at 1. rewrite svscan_netstring_here by (rewrite <- E3; lia).
  cbn [mbind outcome_bind].
  assert (sv_at all (zlen ((pre ++ netstring k ++ [" "%char]) ++ netstring v)) = Ret (chr 10)) as ->.
  { unfold sv_at. rewrite E4, zget_app_mid; [done|]. zlia. }
  cbn [mbind outcome_bind]. rewrite bool_decide_eq_true_2 by done. cbn [negb].
  destruct (kv_put mine k v d); cbn [mbind outcome_bind rethrow_nested try_catch]; [|done..].
  do 2 f_equal. rewrite wrap_small; zlia.
Qed.

(** The loop reads what the server wrote, one pair at a time, and stops. *)
Lemma kv_loop_texts mine l pre d fuel :
  (length l < fuel)%nat -> zlen (pre ++ mjoin (map kv_text l)) < 2 ^ 62 ->
  kv_loop fuel mine (pre ++ mjoin (map kv_text l)) (zlen pre) d = Some (put_all mine l d).
Proof.
  revert pre d fuel. induction l as [|[k v] l IH]; intros pre d fuel Hf Hl.
  - cbn [map put_all]. change (mjoin []) with (@nil ascii). rewrite app_nil_r.
    destruct fuel; cbn [kv_loop]; by rewrite (proj2 (Z.leb_le _ _)) by lia.
  - destruct fuel as [|fuel]; [cbn in Hf; lia|]. cbn [kv_loop].
    change (mjoin (map kv_text ((k, v) :: l))) with (kv_text (k, v) ++ mjoin (map kv_text l)) in *.
    assert (1 <= zlen (kv_text (k, v))) as Hk.
    { unfold kv_text. rewrite !zlen_app. change (zlen [chr 10]) with 1. zlia. }
    rewrite (proj2 (Z.leb_gt _ _)) by (rewrite !zlen_app; pose proof (zlen_nonneg (mjoin (map kv_text l))); lia).
    rewrite kv_one_text by done. cbn [put_all].
    destruct (rethrow_nested ERuntime (kv_put mine k v d)); cbn [mbind outcome_bind]; [|done..].
    rewrite app_assoc. apply IH; [cbn in Hf; lia|]. by rewrite <- app_assoc.
Qed.

(** A number printed by [to_string] is read back by [svto]. *)
Lemma svto_to_string t v : 1 <= it_width t -> in_type t v -> svto t (to_string v) 0 = Ret v.
Proof.
  intros Hw Hv. unfold svto. rewrite <- (app_nil_r (to_string v)) at 1.
  rewrite (scan_first t v []) by done. cbn [mbind outcome_bind].
  by rewrite Z.eqb_refl.
Qed.

(** What the client gets from a body the server made with pairs [l]. *)
Lemma decode_body73 g from urlstem l c fuel base age :
  proto_minor g = 3 -> valid from = true -> reply_max_age from = Ret age ->
  add_sigil_version g [] = Ret base -> (S (length l) < fuel)%nat -> zlen (body73 l c) < 2 ^ 62 ->
  decoded_reply fuel g from (body73 l c) urlstem
  = Some (put_all (base ++ urlstem) (rev l ++ [(FS123_CONTENT, c)])
      (Decoded (expires from) (stale_while_revalidate from) (0 <? age) 0 [] ∅ 0)).
Proof.
  intros Hm Hv Ha Hb Hf Hl. unfold decoded_reply. rewrite Hv, Ha, Hb, Hm. cbn [negb].
  change (3 <=? 3) with true. cbv iota.
  assert (body73 l c = [] ++ mjoin (map kv_text (rev l ++ [(FS123_CONTENT, c)]))) as E.
  { unfold body73. rewrite map_app, join_app. cbn [app map]. f_equal.
    change (mjoin [kv_text (FS123_CONTENT, c)]) with (kv_text (FS123_CONTENT, c) ++ []).
    by rewrite app_nil_r. }
  rewrite E in *. rewrite <- (kv_loop_texts _ _ [] _ fuel); [done| |done].
  rewrite length_app, length_rev. cbn. lia.
Qed.

(** The handler's bytes, once the window has grown over them. *)
Lemma f_window b data :
  in_bb b -> bb_off b = 0 -> s_len b = 0 -> bb_len b < 2 ^ 62 ->
  s_off b + zlen data + 34 <= bb_len b ->
  forall s, buf s = Some b -> zlen (blob s) = bb_len b ->
  exists s1 s2, on_blob (fun b' => memcpy (s_off b) data;; mret b') s = (Ret tt, s1)
    /\ on_blob (fun b => lift (grow_back b (zlen data))) s1 = (Ret tt, s2)
    /\ shows s2 data (s_off b) (bb_len b - s_off b - zlen data) /\ same_reply s s1 /\ same_reply s1 s2.
Proof.
  intros Hbb H0 Hs0 Hlim Hroom s Hb Hl. pose proof Hbb as (H1 & H2 & H3 & H4).
  pose proof (zlen_nonneg data).
  destruct (ztake_zdrop_split (blob s) (s_off b)) as (a & r & E & Ea); [lia|].
  rewrite E, zlen_app in Hl.
  destruct (ztake_zdrop_split r (zlen data)) as (x & c & -> & Ex); [lia|]. rewrite zlen_app in Hl.
  eexists _, _. unfold on_blob at 1, the_buf. rewrite Hb, E.
  erewrite M_bind_Ret; [|apply memcpy_at; lia]. split; [reflexivity|].
  unfold on_blob, the_buf, lift. cbn [buf set_buf blob]. rewrite grow_back_spec by (done || lia).
  unfold avail_back, avail_front. rewrite wrap_small by lia.
  rewrite (proj2 (Z.ltb_ge _ _)) by lia. split; [reflexivity|]. split; [|by split].
  eexists. split; [reflexivity|]. cbn [blob set_buf].
  split_and!.
  - unfold span_wf, in_bb. cbn [bb_off bb_len s_off s_len]. rewrite !zlen_app. lia.
  - apply contents_at; cbn [s_off s_len]; lia.
  - cbn [s_len]. lia.
  - unfold avail_front. cbn [s_off bb_off]. lia.
  - unfold avail_back, avail_front. cbn [s_off bb_off s_len bb_len]. rewrite wrap_small by lia. lia.
Qed.

(** The text of the pairs of an /f reply, and what they take in front. *)
Definition f_pairs (uri : bytes) (esc validator : Z) : list (bytes * bytes) :=
  [(FS123_REQUEST, uri); (FS123_COOKIE, to_string esc); (FS123_VALIDATOR, to_string validator)].

(** What one pair does, by its key. *)
Lemma kv_put_new mine k v d :
  k <> FS123_ERRNO -> k <> FS123_CONTENT -> k <> FS123_REQUEST -> d_kvmap d !! k = None ->
  kv_put mine k v d = Ret (d_put d (d_eno d) (d_content d) (<[k := v]> (d_kvmap d)) (d_mismatches d)).
Proof.
  intros H1 H2 H3 H4. unfold kv_put. rewrite !decide_False by done.
  by rewrite decide_False by (rewrite H4; by intros [? ?]).
Qed.
Lemma kv_put_content mine v d :
  kv_put mine FS123_CONTENT v d = Ret (d_put d (d_eno d) v (d_kvmap d) (d_mismatches d)).
Proof. done. Qed.
Lemma kv_put_request mine v d :
  kv_put mine FS123_REQUEST v d
  = Ret (d_put d (d_eno d) (d_content d) (d_kvmap d) (d_mismatches d + (if decide (v = mine) then 0 else 1))).
Proof.
  unfold kv_put. rewrite !decide_False by done. rewrite decide_True by done.
  destruct (decide (v = mine)); [|done]. destruct d. unfold d_put. cbn. by rewrite Z.add_0_r.
Qed.
Lemma kv_put_errno mine eno d : in_type T_int eno ->
  kv_put mine FS123_ERRNO (to_string eno) d
  = Ret (d_put d eno (d_content d) (d_kvmap d) (d_mismatches d)).
Proof. intros He. unfold kv_put. rewrite decide_True by done. by rewrite svto_to_string. Qed.

(** A key without a meaning of its own. *)
Definition plain_key (k : bytes) : Prop := k <> FS123_REQUEST /\ k <> FS123_ERRNO /\ k <> FS123_CONTENT.

(** The map after a request, two ordinary pairs and the content. *)
Lemma put_pairs mine uri k1 v1 k2 v2 c d :
  d_kvmap d = ∅ -> k1 <> k2 ->
  plain_key k1 -> plain_key k2 ->
  exists d', put_all mine (rev [(FS123_REQUEST, uri); (k1, v1); (k2, v2)] ++ [(FS123_CONTENT, c)]) d = Ret d'
    /\ d_eno d' = d_eno d /\ d_content d' = c
    /\ d_kvmap d' !! k1 = Some v1 /\ d_kvmap d' !! k2 = Some v2
    /\ d_mismatches d' = d_mismatches d + (if decide (uri = mine) then 0 else 1).
Proof.
  intros Hd Hk (A1 & A2 & A3) (B1 & B2 & B3). cbn [rev app put_all].
  rewrite kv_put_new by (done || by rewrite Hd, lookup_empty).
  cbn [mbind outcome_bind rethrow_nested try_catch d_put d_kvmap].
  rewrite kv_put_new by (done || (cbn [d_kvmap d_put]; by rewrite Hd, lookup_insert_ne, lookup_empty)).
  cbn [mbind outcome_bind rethrow_nested try_catch d_put d_kvmap]. rewrite kv_put_request.
  cbn [mbind outcome_bind rethrow_nested try_catch d_put]. rewrite kv_put_content.
  eexists. split; [reflexivity|]. cbn. rewrite Hd.
  by rewrite lookup_insert_eq, lookup_insert_ne, lookup_insert_eq.
Qed.

Lemma put_f_pairs mine uri esc validator c d :
  d_kvmap d = ∅ -> 0 <= esc < 2 ^ 64 -> 0 <= validator < 2 ^ 64 ->
  exists d', put_all mine (rev (f_pairs uri esc validator) ++ [(FS123_CONTENT, c)]) d = Ret d'
    /\ d_eno d' = d_eno d /\ d_content d' = c /\ d_estale_cookie d' = Ret esc
    /\ d_validator d' = Ret validator /\ d_mismatches d' = d_mismatches d + (if decide (uri = mine) then 0 else 1).
Proof.
  intros Hd He Hv.
  destruct (put_pairs mine uri FS123_COOKIE (to_string esc) FS123_VALIDATOR (to_string validator) c d)
    as (d' & E & E1 & E2 & E3 & E4 & E5); [done|done|by split_and!..|].
  exists d'. do 3 (split; [done|]).
  unfold d_estale_cookie, d_validator, kv_at. rewrite E3, E4. cbn [mbind outcome_bind].
  by rewrite !svto_to_string.
Qed.

Lemma zlen_netstring_le s n k : zlen s <= n -> n < 10 ^ k -> 1 <= k -> zlen (netstring s) <= n + k + 2.
Proof.
  intros Hs Hn Hk. rewrite zlen_netstring. pose proof (zlen_nonneg s).
  pose proof (zlen_to_string_u (zlen s) k). lia.
Qed.

Lemma zlen_u64 v : 0 <= v < 2 ^ 64 -> zlen (netstring (to_string v)) <= 24.
Proof.
  intros Hv. apply (zlen_netstring_le _ 20 2); [|lia|lia]. rewrite to_string_u64 by lia.
  apply zlen_to_string_u; lia.
Qed.

Lemma zlen_body73 l c : zlen (body73 l c) = kvs_size l + zlen (kv_text (FS123_CONTENT, c)).
Proof.
  unfold body73, kvs_size. rewrite zlen_app. f_equal.
  induction l as [|kv l IH]; [done|]. cbn [rev]. rewrite map_app, join_app, zlen_app, IH.
  change (mjoin (map kv_text (kv :: l))) with (kv_text kv ++ mjoin (map kv_text l)).
  change (mjoin (map kv_text [kv])) with (kv_text kv ++ []). rewrite app_nil_r, zlen_app. lia.
Qed.

Lemma f_pairs_fit uri esc validator data :
  zlen uri <= 1200 -> 0 <= esc < 2 ^ 64 -> 0 <= validator < 2 ^ 64 -> zlen data <= max_reply_size ->
  kvs_size (f_pairs uri esc validator) + zlen (kv_text (FS123_CONTENT, data)) - zlen data - 2 <= 1356.
Proof.
  intros Hu He Hv Hd. unfold kvs_size, f_pairs. cbn [map]. unfold max_reply_size in Hd.
  change (mjoin [?a; ?b; ?c]) with (a ++ b ++ c ++ []) || cbn [mjoin list_join].
  unfold kv_text. cbn [fst snd]. rewrite !zlen_app, (zlen_netstring data).
  change (zlen (netstring FS123_REQUEST)) with 9. change (zlen (netstring FS123_COOKIE)) with 16.
  change (zlen (netstring FS123_VALIDATOR)) with 12. change (zlen (netstring FS123_CONTENT)) with 10.
  change (zlen (lit " ")) with 1. change (zlen [chr 10]) with 1. change (zlen (@nil ascii)) with 0.
  pose proof (zlen_u64 esc He). pose proof (zlen_u64 validator Hv).
  pose proof (zlen_netstring_le uri 1200 4 Hu ltac:(lia) ltac:(lia)).
  pose proof (zlen_to_string_u (zlen data) 7). pose proof (zlen_nonneg data). lia.
Qed.

(** The handler's write and [f_reply], for minor 3 and in plaintext. *)
Lemma f_reply_sends `{SB : Secretbox} what random svr p len offset bufdata b rlen data validator etag64 esc cc uri :
  args_ok (Call_f validator len offset bufdata) (Some b) rlen ->
  rq_minor p = 3 -> function p = lit "f" -> may_use_secrets svr (function p) = false ->
  kvpairs p = [(FS123_REQUEST, uri)] -> zlen uri <= 1200 ->
  zlen data <= len -> 0 <= esc < 2 ^ 64 -> 0 <= validator < 2 ^ 64 ->
  let l := f_pairs uri esc validator in
  exists s1 s4, on_blob (fun b => memcpy bufdata data;; mret b) (rst0 (kvpairs p) (Some b)) = (Ret tt, s1)
    /\ f_reply (fun _ _ => true) what random svr GET p rlen (zlen data) validator etag64 esc cc s1 = (Ret tt, s4)
    /\ answered s4
    /\ sent s4 = [Response 200 (plaintext_headers GET [] cc (body73 l data) etag64) (body73 l data)].
Proof.
  intros Hargs Hmin Hfn Hsec Hkv Huri Hdata Hesc Hval. cbv zeta.
  destruct Hargs as (-> & Hlen & _ & _ & _ & b' & [= <-] & Hbb & -> & Hs0 & Hb0 & Hfr & Hbk).
  unfold secretbox_leadersz, fs123_max_headersz, secretbox_padding, final_netstring_bytes, validator_space,
    max_reply_size, MACBYTES in *.
  pose proof Hbb as (B1 & B2 & B3 & B4). pose proof (zlen_nonneg data). pose proof (zlen_nonneg uri).
  destruct (f_window b data Hbb Hb0 Hs0) with (s := rst0 (kvpairs p) (Some b))
    as (s1 & s2 & E1 & E2 & Hsh & R1 & R2); [lia|lia|done| |].
  { cbn [blob rst0 rst_init]. rewrite zlen_replicate. lia. }
  set (l := f_pairs uri esc validator). set (s3 := set_kvs l s2).
  assert (same_reply (rst0 (kvpairs p) (Some b)) s2) as (Rk & Rh & Ro & Rr & Rs & Rg & Rf) by by etransitivity.
  assert (kvs_size l + zlen (kv_text (FS123_CONTENT, data)) - zlen data - 2 <= 1356) as Hfit.
  { apply f_pairs_fit; [done|done|done|]. unfold max_reply_size. lia. }
  assert (unanswered s3) as Hun by (unfold unanswered, unanswered_in, s3; cbn; by rewrite Rr, Rs, Rg, Rf).
  destruct (common_plain random svr GET p s3 data (s_off b) (bb_len b - s_off b - zlen data) cc etag64)
    as (s4 & E4 & S4); [lia|done|done|done|done|lia|lia| |].
  { cbn [kvs s3 set_kvs]. lia. }
  assert (answered s4) as Hans.
  { destruct (common_answers (fun _ _ => true) random svr GET p cc etag64 false s3 Hun) as [_ Ha].
    by rewrite E4 in Ha. }
  exists s1, s4. split; [done|]. split; [|split; [done|]].
  2: { rewrite S4. cbn [s3 set_kvs ohdrs kvs]. by rewrite Rh. }
  unfold f_reply, or_exception, try_M, check_function. rewrite Hfn, decide_True by done.
  rewrite (M_bind_Ret _ _ s1 tt s1) by done. rewrite (proj2 (Z.ltb_ge _ _)) by lia.
  rewrite (M_bind_Ret _ _ s1 tt s1) by done. rewrite (M_bind_Ret _ _ _ _ _ E2).
  unfold minor3. rewrite Hmin. change (3 <=? 3) with true.
  rewrite (M_bind_Ret _ _ s2 tt s3); [by rewrite E4|].
  unfold kv_emplace, mbind, M_bind, modify. cbn. unfold s3, l, set_kvs. cbn.
  rewrite Rk. cbn. by rewrite Hkv.
Qed.

(** The client's reading of that body. *)
Lemma decode_f_body_fuel fuel g from urlstem base age uri esc validator data :
  (5 <= fuel)%nat -> proto_minor g = 3 -> valid from = true -> reply_max_age from = Ret age -> add_sigil_version g [] = Ret base ->
  zlen uri <= 1200 -> zlen data <= max_reply_size -> 0 <= esc < 2 ^ 64 -> 0 <= validator < 2 ^ 64 ->
  exists d, decoded_reply fuel g from (body73 (f_pairs uri esc validator) data) urlstem = Some (Ret d)
    /\ d_content d = data /\ d_eno d = 0 /\ d_estale_cookie d = Ret esc /\ d_validator d = Ret validator
    /\ (uri = base ++ urlstem -> d_mismatches d = 0).
Proof.
  intros Hfuel Hg Hfrom Hage Hbase Hu Hd Hesc Hval.
  destruct (put_f_pairs (base ++ urlstem) uri esc validator data
      (Decoded (expires from) (stale_while_revalidate from) (0 <? age) 0 [] ∅ 0))
    as (d & Ed & D1 & D2 & D3 & D4 & D5); [done|done|done|].
  exists d. pose proof (f_pairs_fit uri esc validator data Hu Hesc Hval Hd) as Hfit.
  unfold max_reply_size in Hd. split.
  { rewrite (decode_body73 g from urlstem _ data fuel base age); [by rewrite Ed|done..|cbn in *; lia|].
    rewrite zlen_body73. lia. }
  split_and!; [done|done|done|done|]. intros ->. rewrite D5. by rewrite decide_True.
Qed.

Lemma decode_f_body g from urlstem base age uri esc validator data :
  proto_minor g = 3 -> valid from = true -> reply_max_age from = Ret age -> add_sigil_version g [] = Ret base ->
  zlen uri <= 1200 -> zlen data <= max_reply_size -> 0 <= esc < 2 ^ 64 -> 0 <= validator < 2 ^ 64 ->
  exists d, decoded_reply 5 g from (body73 (f_pairs uri esc validator) data) urlstem = Some (Ret d)
    /\ d_content d = data /\ d_eno d = 0 /\ d_estale_cookie d = Ret esc /\ d_validator d = Ret validator
    /\ (uri = base ++ urlstem -> d_mismatches d = 0).
Proof. apply decode_f_body_fuel. lia. Qed.

(** File reads end to end, the reply: a server that answers an /f
    request of protocol minor 3 in plaintext, with a handler that puts [data]
    into the buffer it was given and calls [f_reply], sends one response, and
    whatever the client's [decoded_reply] is given with that body it succeeds,
    in as many rounds of its loop as there are pairs, with exactly [data] as
    the content, errno 0, the estale cookie and the validator of the reply,
    and no complaint about the request it answers when that is the client's
    own; as long as the request's URI fits the space reserved for headers. *)
Theorem f_reply_roundtrip `{SB : Secretbox} what random junk svr h p inm64 len offset bufdata b rlen
    data validator etag64 esc cc uri g from urlstem base age :
  parse_and_dispatch svr h = Ret (p, (Call_f inm64 len offset bufdata, Some b, rlen)) ->
  args_ok (Call_f inm64 len offset bufdata) (Some b) rlen ->
  rq_minor p = 3 -> function p = lit "f" -> may_use_secrets svr (function p) = false ->
  hr_method h = GET -> kvpairs p = [(FS123_REQUEST, uri)] -> zlen uri <= 1200 ->
  zlen data <= len -> 0 <= esc < 2 ^ 64 -> 0 <= validator < 2 ^ 64 ->
  proto_minor g = 3 -> valid from = true -> reply_max_age from = Ret age -> add_sigil_version g [] = Ret base ->
  exists s body hdrs d,
    http_cb (fun _ _ => true) what random junk svr
      (fun _ _ => ([H_write bufdata data], E_reply_f (zlen data) validator etag64 esc cc)) false h = (Ret tt, s)
    /\ sent s = [Response 200 hdrs body]
    /\ decoded_reply 5 g from body urlstem = Some (Ret d)
    /\ d_content d = data /\ d_eno d = 0 /\ d_estale_cookie d = Ret esc /\ d_validator d = Ret validator
    /\ (uri = base ++ urlstem -> d_mismatches d = 0).
Proof.
  intros Hpar Hargs Hmin Hfn Hsec Hget Hkv Huri Hdata Hesc Hval Hg Hfrom Hage Hbase.
  destruct (f_reply_sends what random svr p len offset bufdata b rlen data validator etag64 esc cc uri)
    as (s1 & s4 & E1 & E2 & Hans & Hs); [exact Hargs|done..|].
  pose proof Hargs as (_ & Hlen & _).
  destruct (decode_f_body g from urlstem base age uri esc validator data)
    as (d & Hd & D); [done|done|done|done|done|unfold max_reply_size, validator_space in *; lia|done|done|].
  exists s4. do 2 eexists. exists d. split; [|split; [exact Hs|by split]].
  unfold http_cb. rewrite Hpar, Hget. unfold run_handler.
  rewrite (M_bind_Ret _ _ _ tt s1) by (cbn [run_steps run_step]; by rewrite (M_bind_Ret _ _ _ _ _ E1)).
  cbn [run_end]. rewrite E2. unfold req_dtor, mbind, M_bind, get. cbn.
  destruct Hans as (-> & _). done.
Qed.

(** A one-KiB read of a file called "a file". *)
Definition hf_ex : http_req := get_ex (lit "/data/fs123/7/3/f/a%20file") (Some (lit "1;0")).
Definition uri_ex : bytes := lit "/fs123/7/3/f/a%20file?1;0".
Definition buf_ex : padded_uchar_span := Span 0 2414 1356 0.
Definition g73 : req_config := ReqConfig 0 3 0 0.
Definition from_ex : reply123 := Reply MAGIC 0 2000 7 1000 500 0 (-1) CNO_MISSING 1 (replicate 32 "0"%char) [].

Lemma f_ex : exists p, parse_and_dispatch (H := toy_box) svr_ex hf_ex
    = Ret (p, (Call_f 77 1024 0 1356, Some buf_ex, 1024))
  /\ rq_minor p = 3 /\ function p = lit "f" /\ kvpairs p = [(FS123_REQUEST, uri_ex)].
Proof. eexists. split; [vm_compute; reflexivity|]. split; [|split]; vm_compute; reflexivity. Qed.

Lemma f_ex_args : args_ok (Call_f 77 1024 0 1356) (Some buf_ex) 1024.
Proof.
  cbn [args_ok]. unfold f_args_ok, in_bb.
  refine (conj eq_refl (conj _ (conj _ (conj _ (conj _ _))))); [vm_compute; intuition discriminate
    |by exists 1|lia|by exists 0|].
  exists buf_ex. vm_compute. intuition discriminate.
Qed.

Lemma f_reply_roundtrip_witness :
  exists s body hdrs d,
    http_cb (H := toy_box) (fun _ _ => true) (fun _ => []) [] [] svr_ex
      (fun _ _ => ([H_write 1356 (lit "hello")], E_reply_f 5 11 22 33 (lit "max-age=1"))) false hf_ex = (Ret tt, s)
    /\ sent s = [Response 200 hdrs body]
    /\ decoded_reply 5 g73 from_ex body (lit "/f/a%20file?1;0") = Some (Ret d)
    /\ d_content d = lit "hello" /\ d_eno d = 0 /\ d_estale_cookie d = Ret 33 /\ d_validator d = Ret 11
    /\ (uri_ex = lit "/fs123/7/3" ++ lit "/f/a%20file?1;0" -> d_mismatches d = 0).
Proof.
  destruct f_ex as (p & Hp & H1 & H2 & H3).
  apply (f_reply_roundtrip (SB := toy_box) (fun _ => []) [] [] svr_ex hf_ex p 77 1024 0 1356 buf_ex 1024
    (lit "hello") 11 22 33 (lit "max-age=1") uri_ex g73 from_ex (lit "/f/a%20file?1;0") (lit "/fs123/7/3") 1000);
    [exact Hp|exact f_ex_args|exact H1|exact H2| |reflexivity|exact H3|vm_compute; discriminate|
     vm_compute; discriminate|lia|lia|reflexivity|reflexivity|vm_compute; reflexivity|vm_compute; reflexivity].
  rewrite H2. reflexivity.
Defined.

(** A reply on which the client's loop never ends: the last value's length
    wraps the offset back to the start of the pair, and the content key may be
    repeated. *)
Definition hostile : bytes :=
  netstring [] ++ lit " " ++ netstring [] ++ [chr 10] ++ lit "7:content, 18446744073709551582:".

Lemma hostile_pair mine d :
  exists d', kv_one mine hostile 8 d = Ret (d', 8).
Proof.
  unfold kv_one.
  assert (svscan_netstring false hostile 8 = Ret (FS123_CONTENT, 18)) as -> by (vm_compute; reflexivity).
  cbn [mbind outcome_bind].
  assert (sv_at hostile 18 = Ret " "%char) as -> by (vm_compute; reflexivity).
  cbn [mbind outcome_bind]. rewrite bool_decide_eq_true_2 by done. cbn [negb].
  assert (svscan_netstring false hostile (u64 (18 + 1)) = Ret ([], 7)) as -> by (vm_compute; reflexivity).
  cbn [mbind outcome_bind].
  assert (sv_at hostile 7 = Ret (chr 10)) as -> by (vm_compute; reflexivity).
  cbn [mbind outcome_bind]. rewrite bool_decide_eq_true_2 by done. cbn [negb].
  rewrite kv_put_content. eexists. reflexivity.
Qed.

(** C38.  A hostile (or corrupted) plaintext reply hangs the client: there is a
    reply of forty bytes on which the loop of [decoded_reply] never ends,
    however many rounds it is given, because [svscan_netstring]'s offset
    arithmetic wraps around. *)
Theorem decoded_reply_diverges g from urlstem fuel :
  proto_minor g = 3 -> valid from = true -> (exists age, reply_max_age from = Ret age) ->
  decoded_reply fuel g from hostile urlstem = None.
Proof.
  intros Hg Hv [age Ha]. unfold decoded_reply. rewrite Hv, Ha, Hg. cbn [negb].
  assert (exists base, add_sigil_version g [] = Ret base) as [base ->].
  { unfold add_sigil_version. rewrite Hg. eexists. reflexivity. }
  change (3 <=? 3) with true. cbv iota.
  assert (forall fuel d, kv_loop fuel (base ++ urlstem) hostile 8 d = None) as Hloop.
  { clear. intros fuel. induction fuel as [|fuel IH]; intros d; cbn [kv_loop].
    - assert ((zlen hostile <=? 8) = false) as -> by reflexivity. done.
    - assert ((zlen hostile <=? 8) = false) as -> by reflexivity.
      destruct (hostile_pair (base ++ urlstem) d) as [d' ->]. apply IH. }
  destruct fuel as [|fuel]; cbn [kv_loop].
  - assert ((zlen hostile <=? 0) = false) as -> by reflexivity. done.
  - assert ((zlen hostile <=? 0) = false) as -> by reflexivity.
    unfold hostile at 1.
    change (kv_one (base ++ urlstem) _ 0 _) with
      (kv_one (base ++ urlstem) hostile 0 (Decoded (expires from) (stale_while_revalidate from) (0 <? age) 0 [] ∅ 0)).
    unfold kv_one.
    assert (svscan_netstring false hostile 0 = Ret ([], 3)) as -> by (vm_compute; reflexivity).
    cbn [mbind outcome_bind].
    assert (sv_at hostile 3 = Ret " "%char) as -> by (vm_compute; reflexivity).
    cbn [mbind outcome_bind]. rewrite bool_decide_eq_true_2 by done. cbn [negb].
    assert (svscan_netstring false hostile (u64 (3 + 1)) = Ret ([], 7)) as -> by (vm_compute; reflexivity).
    cbn [mbind outcome_bind].
    assert (sv_at hostile 7 = Ret (chr 10)) as -> by (vm_compute; reflexivity).
    cbn [mbind outcome_bind]. rewrite bool_decide_eq_true_2 by done. cbn [negb].
    rewrite kv_put_new by (done || by cbn; rewrite lookup_empty).
    cbn [mbind outcome_bind rethrow_nested try_catch]. apply Hloop.
Qed.

Lemma decoded_reply_diverges_witness : decoded_reply 1000 g73 from_ex hostile (lit "/f/a") = None.
Proof.
  apply (decoded_reply_diverges g73 from_ex (lit "/f/a") 1000); [reflexivity|reflexivity|].
  exists 1000. vm_compute. reflexivity.
Defined.
