(* ===== verification/StatSer.v ===== *)
(** * [struct stat] and [struct statvfs] as text (include/fs123/stat_serializev3.hpp)

    The insertion operators print the fields with single spaces between them;
    [svscan] reads a tuple of the same types.  The widths are those of
    x86-64 Linux.  Theorems: both structures read back what was printed, field
    for field, wherever the text stands. *)

From Stdlib Require Import Ascii String ZArith Lia.
From stdpp Require Import base strings list numbers.
From S2P Require Import Prelude ScanInt StrUtils SvTo.

#[local] Open Scope Z_scope.

Record stat := Stat {
  st_mode : Z; st_nlink : Z; st_uid : Z; st_gid : Z; st_size : Z;
  st_mtime : Z; st_ctime : Z; st_atime : Z; st_ino : Z;
  st_mtim_nsec : Z; st_ctim_nsec : Z; st_atim_nsec : Z;
  st_dev : Z; st_blocks : Z; st_blksize : Z; st_rdev : Z }.

Record statvfs := Statvfs {
  f_bsize : Z; f_frsize : Z; f_blocks : Z; f_bfree : Z; f_bavail : Z; f_files : Z;
  f_ffree : Z; f_favail : Z; f_fsid : Z; f_flag : Z; f_namemax : Z }.

(** [memset(sb, 0, sizeof(struct stat))] *)
Definition stat_zero : stat := Stat 0 0 0 0 0 0 0 0 0 0 0 0 0 0 0 0.

(** The fields in the order of the operators. *)
Definition stat_fields (sb : stat) : list Z :=
  [st_mode sb; st_nlink sb; st_uid sb; st_gid sb; st_size sb; st_mtime sb; st_ctime sb;
   st_atime sb; st_ino sb; st_mtim_nsec sb; st_ctim_nsec sb; st_atim_nsec sb; st_dev sb;
   st_blocks sb; st_blksize sb; st_rdev sb].
Definition stat_types : list itype :=
  [T_u32; T_u64; T_u32; T_u32; T_i64; T_i64; T_i64; T_i64; T_u64; T_i64; T_i64; T_i64; T_u64;
   T_i64; T_i64; T_u64].

Definition statvfs_fields (sv : statvfs) : list Z :=
  [f_bsize sv; f_frsize sv; f_blocks sv; f_bfree sv; f_bavail sv; f_files sv; f_ffree sv;
   f_favail sv; f_fsid sv; f_flag sv; f_namemax sv].
Definition statvfs_types : list itype := replicate 11 T_u64.

(** [operator<<] *)
Definition print_stat (sb : stat) : bytes := print_tuple (stat_fields sb).
Definition print_statvfs (sv : statvfs) : bytes := print_tuple (statvfs_fields sv).

(** The members in the order of [std::tie]. *)
Definition stat_of (l : list Z) : stat :=
  match l with
  | [a; b; c; d; e; f; g; h; i; j; k; m; n; o; p; q] => Stat a b c d e f g h i j k m n o p q
  | _ => stat_zero
  end.
Definition statvfs_of (l : list Z) : statvfs :=
  match l with
  | [a; b; c; d; e; f; g; h; i; j; k] => Statvfs a b c d e f g h i j k
  | _ => Statvfs 0 0 0 0 0 0 0 0 0 0 0
  end.

Definition svscan_stat (sv : bytes) (start : Z) : outcome (stat * Z) :=
  '(l, nxt) ← svscan_tuple stat_types sv start; Ret (stat_of l, nxt).
Definition svscan_statvfs (sv : bytes) (start : Z) : outcome (statvfs * Z) :=
  '(l, nxt) ← svscan_tuple statvfs_types sv start; Ret (statvfs_of l, nxt).

(** The values a structure can hold. *)
Definition fields_ok (ts : list itype) (vs : list Z) : Prop := Forall2 in_type ts vs.
Definition stat_ok (sb : stat) : Prop := fields_ok stat_types (stat_fields sb).
Definition statvfs_ok (sv : statvfs) : Prop := fields_ok statvfs_types (statvfs_fields sv).

Lemma fields_widths ts vs :
  Forall (fun t => 1 <= it_width t) ts -> fields_ok ts vs ->
  Forall2 (fun t v => 1 <= it_width t /\ in_type t v) ts vs.
Proof. intros Ht H. induction H; inversion_clear Ht; constructor; auto. Qed.

Lemma svscan_stat_printed sb pre rest :
  stat_ok sb -> stops_number rest ->
  svscan_stat (pre ++ print_stat sb ++ rest) (zlen pre) = Ret (sb, zlen (pre ++ print_stat sb)).
Proof.
  intros Hok Hr. unfold svscan_stat, print_stat.
  pose proof (svscan_tuple_ws stat_types (stat_fields sb) pre [] rest) as H. cbn [app] in H.
  rewrite H; [by destruct sb| |done|done|done].
  apply fields_widths; [by repeat constructor|done].
Qed.

Lemma svscan_statvfs_printed sv pre rest :
  statvfs_ok sv -> stops_number rest ->
  svscan_statvfs (pre ++ print_statvfs sv ++ rest) (zlen pre) = Ret (sv, zlen (pre ++ print_statvfs sv)).
Proof.
  intros Hok Hr. unfold svscan_statvfs, print_statvfs.
  pose proof (svscan_tuple_ws statvfs_types (statvfs_fields sv) pre [] rest) as H. cbn [app] in H.
  rewrite H; [by destruct sv| |done|done|done].
  apply fields_widths; [by repeat constructor|done].
Qed.

(** The attributes and the file-system statistics that the server prints
    are read back by the client, field for field and over the whole range of
    every field's type, wherever the text stands and whatever follows it that
    is neither a digit nor an [x] (a validator on the next line, say); the
    returned offset is the end of the text. *)
Theorem stat_roundtrip sb sv pre rest :
  stat_ok sb -> statvfs_ok sv -> stops_number rest ->
  svscan_stat (pre ++ print_stat sb ++ rest) (zlen pre) = Ret (sb, zlen (pre ++ print_stat sb))
  /\ svscan_statvfs (pre ++ print_statvfs sv ++ rest) (zlen pre)
     = Ret (sv, zlen (pre ++ print_statvfs sv)).
Proof. intros. by split; [apply svscan_stat_printed|apply svscan_statvfs_printed]. Qed.

Definition wx_stat : stat :=
  Stat 33188 1 4294967295 0 9223372036854775807 (-9223372036854775808) 0 0 18446744073709551615
    999999999 0 0 2049 8 4096 0.
Definition wx_statvfs : statvfs := Statvfs 4096 4096 18446744073709551615 0 0 0 0 0 0 0 255.

Lemma stat_roundtrip_witness :
  svscan_stat (lit "a" ++ print_stat wx_stat ++ lit " ") 1 = Ret (wx_stat, zlen (lit "a" ++ print_stat wx_stat))
  /\ svscan_statvfs (lit "a" ++ print_statvfs wx_statvfs ++ lit " ") 1
     = Ret (wx_statvfs, zlen (lit "a" ++ print_statvfs wx_statvfs)).
Proof.
  apply (stat_roundtrip wx_stat wx_statvfs (lit "a") (lit " ")).
  - repeat constructor; vm_compute; intuition discriminate.
  - repeat constructor; vm_compute; intuition discriminate.
  - apply stops_space.
Defined.
