(* ===== verification/EstaleCookie.v ===== *)
(** * Estale cookies (exe/fs123p7/exportd_handler.{hpp,cpp})

    [exportd_handler::estale_cookie], its three overloads, and the option that
    chooses the source of a cookie.  The system calls are the questions of a
    program ([prog]); the operating system's answers are the environment's.
    The same program is run by a request (in any world that answers system
    calls) and, by any number of threads on the one attribute of a file, in
    every interleaving.

    Theorems: whatever the interleaving, all the requests that obtain a cookie
    from the attribute of a file obtain the same one, and it is the one the
    attribute holds from then on; the retry happens at most once. *)

From Stdlib Require Import Ascii String ZArith Lia.
From stdpp Require Import base gmap strings list numbers.
From S2P Require Import Prelude ScanInt StrUtils SvTo PathUtils StatSer.

#[local] Open Scope Z_scope.

(** ** Options *)

Inductive esc_source_e := ESC_IOC_GETVERSION | ESC_GETXATTR | ESC_SETXATTR | ESC_ST_INO | ESC_NONE.

#[export] Instance esc_source_eq_dec : EqDecision esc_source_e.
Proof. solve_decision. Defined.

(** [operator<<] *)
Definition print_esc_source (e : esc_source_e) : bytes :=
  match e with
  | ESC_IOC_GETVERSION => lit "ioc_getversion"
  | ESC_GETXATTR => lit "getxattr"
  | ESC_SETXATTR => lit "setsattr"
  | ESC_ST_INO => lit "st_ino"
  | ESC_NONE => lit "none"
  end.

(** [operator>>], on one word; [None] sets the failbit. *)
Definition read_esc_source (s : bytes) : option esc_source_e :=
  if decide (s = lit "ioc_getversion") then Some ESC_IOC_GETVERSION else
  if decide (s = lit "getxattr") then Some ESC_GETXATTR else
  if decide (s = lit "setxattr") then Some ESC_SETXATTR else
  if decide (s = lit "st_ino") then Some ESC_ST_INO else
  if decide (s = lit "none") then Some ESC_NONE else None.

(** What is printed for the default value of the option, or in a list of
    options, is not always what can be read. *)
Example print_read_esc_source :
  read_esc_source (print_esc_source ESC_SETXATTR) = None
  /\ Forall (fun e => read_esc_source (print_esc_source e) = Some e)
       [ESC_IOC_GETVERSION; ESC_GETXATTR; ESC_ST_INO; ESC_NONE].
Proof. split; [done|]. by repeat constructor. Qed.

(** ** System calls *)

(** A program that asks the operating system; an error is an errno. *)
Inductive prog (A : Type) :=
| Done (r : outcome A)
| Ioctl_getversion (fd : Z) (k : Z + Z -> prog A)
| Fgetxattr (fd : Z) (size : Z) (k : Z + bytes -> prog A)
| Fsetxattr_create (fd : Z) (value : bytes) (k : Z + unit -> prog A)
| Now_ns (k : Z -> prog A)
| Lstat (path : bytes) (k : Z + stat -> prog A)
| Open (path : bytes) (directory : bool) (k : Z + Z -> prog A).
Arguments Done {_} _.
Arguments Ioctl_getversion {_} _ _.
Arguments Fgetxattr {_} _ _ _.
Arguments Fsetxattr_create {_} _ _ _.
Arguments Now_ns {_} _.
Arguments Lstat {_} _ _.
Arguments Open {_} _ _ _.

Fixpoint prog_bind {A B} (p : prog A) (k : outcome A -> prog B) : prog B :=
  match p with
  | Done r => k r
  | Ioctl_getversion fd c => Ioctl_getversion fd (fun a => prog_bind (c a) k)
  | Fgetxattr fd n c => Fgetxattr fd n (fun a => prog_bind (c a) k)
  | Fsetxattr_create fd v c => Fsetxattr_create fd v (fun a => prog_bind (c a) k)
  | Now_ns c => Now_ns (fun a => prog_bind (c a) k)
  | Lstat q c => Lstat q (fun a => prog_bind (c a) k)
  | Open q d c => Open q d (fun a => prog_bind (c a) k)
  end.

(** ** The cookie *)

(** The errno of an exception that is a [system_error] in the system category;
    one that annotates another is what the outer one is. *)
Fixpoint system_errno (e : exn) : option Z :=
  match e with ESystem eno => Some eno | ENested o _ => system_errno o | _ => None end.
Fixpoint is_system_error (e : exn) : bool :=
  match e with ESystem _ | EHttp _ | ECurl _ _ => true | ENested o _ => is_system_error o | _ => false end.

(** [estale_cookie_catch], as the handler of [catch(std::system_error&)]. *)
Definition estale_cookie_catch (r : outcome Z) : outcome Z :=
  match r with
  | Throw e =>
      if is_system_error e then
        match system_errno e with Some _ => Ret 0 | None => Throw (ENested ERuntime e) end
      else Throw e
  | _ => r
  end.

Definition bufsz : Z := 31.

(** [fgetxattr] answered with a value. *)
Definition esc_value (v : bytes) : outcome Z :=
  if (zlen v =? 0) || (bufsz <? zlen v) then Throw (ESystem EINVAL) else svto T_u64 v 0.

(** [case ESC_GETXATTR] after [goto tryagain] ([source] is not [ESC_SETXATTR]). *)
Definition esc_getxattr (fd : Z) : prog Z :=
  Fgetxattr fd bufsz (fun ret =>
    match ret with inl eno => Done (Throw (ESystem eno)) | inr v => Done (esc_value v) end).

(** [fsetxattr] of the time of day, and what comes of it. *)
Definition esc_create_at (fd value : Z) : prog Z :=
  Fsetxattr_create fd (to_string value) (fun setret =>
    match setret with
    | inl eno => if eno =? EEXIST then esc_getxattr fd else Done (Throw (ESystem eno))
    | inr _ => Done (Ret (u64 value))
    end).
Definition esc_create (fd : Z) : prog Z := Now_ns (esc_create_at fd).

(** [case ESC_SETXATTR] *)
Definition esc_setxattr (fd : Z) : prog Z :=
  Fgetxattr fd bufsz (fun ret =>
    match ret with
    | inl eno => if eno =? ENODATA then esc_create fd else Done (Throw (ESystem eno))
    | inr v => Done (esc_value v)
    end).

(** [estale_cookie(int fd, const struct stat& sb, ...)] *)
Definition estale_cookie_fd (source : esc_source_e) (fd : Z) (sb : stat) : prog Z :=
  prog_bind
    match source with
    | ESC_IOC_GETVERSION =>
        Ioctl_getversion fd (fun r =>
          match r with inl eno => Done (Throw (ESystem eno)) | inr generation => Done (Ret (u32 generation)) end)
    | ESC_GETXATTR => esc_getxattr fd
    | ESC_SETXATTR => esc_setxattr fd
    | ESC_ST_INO => Done (Ret (st_ino sb))
    | ESC_NONE => Done (Ret 0)
    end (fun r => Done (estale_cookie_catch r)).

Definition S_ISREG (mode : Z) : bool := Z.land mode S_IFMT =? S_IFREG.
Definition S_ISDIR (mode : Z) : bool := Z.land mode S_IFMT =? S_IFDIR.
Definition S_ISLNK (mode : Z) : bool := Z.land mode S_IFMT =? S_IFLNK.

(** [estale_cookie(const struct stat& sb, const std::string& fullpath)]; -1 is
    the descriptor of a default-constructed [acfd]. *)
Definition estale_cookie_sb (source : esc_source_e) (sb : stat) (fullpath : bytes) : prog Z :=
  prog_bind
    (if bool_decide (source ∈ [ESC_IOC_GETVERSION; ESC_GETXATTR; ESC_SETXATTR]) then
       if negb (S_ISREG (st_mode sb)) && negb (S_ISDIR (st_mode sb)) then Done (Throw (ESystem EINVAL)) else
       Open fullpath false (fun r =>
         match r with
         | inl eno => Done (Throw (ESystem eno))
         | inr fd => estale_cookie_fd source fd sb
         end)
     else estale_cookie_fd source (-1) sb)
    (fun r => Done (estale_cookie_catch r)).

(** [estale_cookie(const std::string& fullpath, int d_type)] *)
Definition estale_cookie_dtype (source : esc_source_e) (fullpath : bytes) (d_type : Z) : prog Z :=
  prog_bind
    (if decide (source = ESC_NONE) then Done (Ret 0) else
     if negb ((d_type =? DT_DIR) || (d_type =? DT_REG)) then Done (Ret 0) else
     if decide (source = ESC_ST_INO) then
       Lstat fullpath (fun r =>
         match r with inl eno => Done (Throw (ESystem eno)) | inr sb => Done (Ret (st_ino sb)) end)
     else
       estale_cookie_sb source
         (Stat (dtype_to_mode d_type) 0 0 0 0 0 0 0 0 0 0 0 0 0 0 0) fullpath)
    (fun r => Done (estale_cookie_catch r)).

(** ** Any number of requests for the cookie of one file *)

(** The attribute of the file, and a request's next system call on it.  Any
    call may also fail with another errno, without an effect; the time of day
    is a positive 64-bit number of nanoseconds. *)
Inductive xattr_step : option bytes -> prog Z -> option bytes -> prog Z -> Prop :=
| XS_get v fd n k : zlen v <= n -> xattr_step (Some v) (Fgetxattr fd n k) (Some v) (k (inr v))
| XS_get_none fd n k : xattr_step None (Fgetxattr fd n k) None (k (inl ENODATA))
| XS_get_err st fd n k eno : eno <> ENODATA -> xattr_step st (Fgetxattr fd n k) st (k (inl eno))
| XS_set fd v k : xattr_step None (Fsetxattr_create fd v k) (Some v) (k (inr tt))
| XS_set_exists w fd v k : xattr_step (Some w) (Fsetxattr_create fd v k) (Some w) (k (inl EEXIST))
| XS_set_err st fd v k eno : eno <> EEXIST -> xattr_step st (Fsetxattr_create fd v k) st (k (inl eno))
| XS_now st t k : 0 < t < 2 ^ 63 -> xattr_step st (Now_ns k) st (k t).

(** One request of all of them moves. *)
Inductive threads_step : option bytes * list (prog Z) -> option bytes * list (prog Z) -> Prop :=
| TS i st ts p st' p' :
    ts !! i = Some p -> xattr_step st p st' p' -> threads_step (st, ts) (st', <[i:=p']> ts).

Definition guarded (p : prog Z) : prog Z := prog_bind p (fun r => Done (estale_cookie_catch r)).

(** Where a request can be. *)
Inductive thread_ok (st : option bytes) : prog Z -> Prop :=
| TO_set fd : thread_ok st (guarded (esc_setxattr fd))
| TO_get fd : thread_ok st (guarded (esc_getxattr fd))
| TO_create fd : thread_ok st (guarded (esc_create fd))
| TO_create_at fd t : 0 < t < 2 ^ 63 -> thread_ok st (guarded (esc_create_at fd t))
| TO_done r :
    (forall c, r = Ret c -> c <> 0 -> exists w, st = Some w /\ esc_value w = Ret c) ->
    thread_ok st (Done r).

(** The system calls a request may still make. *)
Definition calls_left (p : prog Z) : nat :=
  match p with
  | Done _ => 0
  | Fgetxattr _ _ k =>
      match k (inl ENODATA) with Now_ns _ => 4 | _ => 1 end
  | Now_ns _ => 3
  | Fsetxattr_create _ _ _ => 2
  | _ => 0
  end.

Lemma esc_value_now t : 0 < t < 2 ^ 63 -> esc_value (to_string t) = Ret t.
Proof.
  intros Ht. unfold esc_value.
  assert (to_string t = to_string_u t) as E
    by (destruct (to_string_cases t) as [(_ & ? & ? & ? & _)|[? _]]; [done|lia]).
  assert (zlen (to_string t) <= 20) as Hl.
  { rewrite E. apply zlen_to_string_u; [|lia]. split; [lia|]. etransitivity; [apply Ht|]. by vm_compute. }
  destruct (Z.eqb_spec (zlen (to_string t)) 0) as [E0|_].
  { rewrite E in E0. pose proof (to_string_u_nonempty t ltac:(lia)). destruct (to_string_u t); [done|].
    revert E0. zlia. }
  unfold bufsz. rewrite (proj2 (Z.ltb_ge _ _)) by lia. cbn [orb]. unfold svto.
  pose proof (svscan_to_string T_u64 t [] [] []) as H. rewrite !app_nil_r in H.
  cbn [app] in H. change (zlen []) with 0 in H.
  rewrite H; [|by vm_compute|cbn; lia|done|done]. cbn [mbind outcome_bind].
  by rewrite Z.eqb_refl.
Qed.

Lemma TO_throw st e : thread_ok st (Done (estale_cookie_catch (Throw e))).
Proof.
  constructor. intros c Hc Hn. cbn in Hc. destruct (is_system_error e); [|done].
  destruct (system_errno e); [|done]. by injection Hc as <-.
Qed.

Lemma TO_value w : thread_ok (Some w) (Done (estale_cookie_catch (esc_value w))).
Proof.
  destruct (esc_value w) as [c|e|] eqn:E; [|apply TO_throw|by constructor].
  constructor. intros c' [= <-] _. by exists w.
Qed.
Lemma TO_zero st : thread_ok st (Done (Ret 0)).
Proof. constructor. by intros c [= <-]. Qed.
#[local] Hint Constructors thread_ok : core.
#[local] Hint Resolve TO_throw TO_value TO_zero : core.

(** The attribute is set once and for all. *)
Lemma xattr_step_once st p st' p' w : xattr_step st p st' p' -> st = Some w -> st' = Some w.
Proof. by destruct 1; intros; simplify_eq. Qed.

Lemma thread_ok_mono st st' p :
  (forall w, st = Some w -> st' = Some w) -> thread_ok st p -> thread_ok st' p.
Proof.
  intros Hst H. destruct H as [| | | |r Hr]; eauto. constructor.
  intros c Hc Hn. destruct (Hr c Hc Hn) as (w & Hw & E). eauto.
Qed.

Lemma xattr_step_ok st p st' p' :
  thread_ok st p -> xattr_step st p st' p' ->
  thread_ok st' p' /\ (S (calls_left p') <= calls_left p)%nat.
Proof.
  intros Hp Hs. destruct Hp as [fd|fd|fd|fd t Ht|r Hr].
  - inversion Hs; subst; cbn; [split; [auto|lia]| |].
    + split; [apply TO_create|cbn; lia].
    + rewrite (proj2 (Z.eqb_neq eno ENODATA)) by done. cbn. split; [apply TO_zero|lia].
  - inversion Hs; subst; cbn; (split; [auto|lia]).
  - inversion Hs; subst. split; [by apply (TO_create_at _ fd)|cbn; lia].
  - inversion Hs; subst; cbn.
    + split; [|lia]. constructor. intros c [= <-] _. exists (to_string t). split; [done|].
      rewrite esc_value_now by done. by rewrite wrap_small by lia.
    + split; [apply TO_get|lia].
    + rewrite (proj2 (Z.eqb_neq eno EEXIST)) by done. cbn. split; [apply TO_zero|lia].
  - inversion Hs.
Qed.

Definition sum_calls (ts : list (prog Z)) : nat := sum_list_with calls_left ts.

Lemma sum_calls_insert ts i p p' :
  ts !! i = Some p -> (S (calls_left p') <= calls_left p)%nat ->
  (S (sum_calls (<[i:=p']> ts)) <= sum_calls ts)%nat.
Proof.
  unfold sum_calls. intros Hi Hc. pose proof (take_drop_middle ts i p Hi) as E.
  rewrite (insert_take_drop ts i p') by by eapply lookup_lt_Some.
  rewrite <- E at 3. rewrite !sum_list_with_app. cbn. lia.
Qed.

Lemma threads_step_ok a b :
  threads_step a b -> Forall (thread_ok a.1) a.2 ->
  Forall (thread_ok b.1) b.2 /\ (S (sum_calls b.2) <= sum_calls a.2)%nat
  /\ (forall w, a.1 = Some w -> b.1 = Some w).
Proof.
  intros Hs Hok. destruct Hs as [i st ts p st' p' Hi Hx]. cbn in *.
  pose proof Hok as Hok'. rewrite Forall_lookup in Hok'. pose proof (Hok' i p Hi) as Hp.
  destruct (xattr_step_ok _ _ _ _ Hp Hx) as [H1 H2].
  assert (forall w, st = Some w -> st' = Some w) as Hmono by (intros w; by eapply xattr_step_once).
  split; [|split; [by eapply sum_calls_insert|done]].
  apply Forall_insert; [|done]. eapply Forall_impl; [|exact Hok]. intros q. by apply thread_ok_mono.
Qed.

Lemma threads_run_ok n a b :
  nsteps threads_step n a b -> Forall (thread_ok a.1) a.2 ->
  Forall (thread_ok b.1) b.2 /\ (n + sum_calls b.2 <= sum_calls a.2)%nat
  /\ (forall w, a.1 = Some w -> b.1 = Some w).
Proof.
  induction 1 as [a|n a b c Hs _ IH]; intros Ha; [by split_and!; try lia|].
  destruct (threads_step_ok _ _ Hs Ha) as (Hb & Hn & Hw).
  destruct (IH Hb) as (Hc & Hn' & Hw'). split_and!; [done|lia|auto].
Qed.

(** Every request still running can take a step. *)
Lemma thread_moves st p :
  thread_ok st p -> calls_left p <> 0%nat -> exists st' p', xattr_step st p st' p'.
Proof.
  intros Hp Hc. destruct Hp as [fd|fd|fd|fd t Ht|r _]; [| | | |done].
  1, 2: destruct st as [v|]; [destruct (decide (zlen v <= bufsz))|]; eexists _, _;
    [by apply XS_get|by apply (XS_get_err _ _ _ _ EINVAL)|apply XS_get_none].
  - eexists _, _. by apply (XS_now _ 1).
  - destruct st as [v|]; eexists _, _; [apply XS_set_exists|apply XS_set].
Qed.

(** ** Properties *)

(** C22.  The race on the attribute.  Any number of requests ask for the cookie
    of one file, with [ESC_SETXATTR] or [ESC_GETXATTR], and their system
    calls interleave in any way, any of them failing at any time.  No
    execution is longer than four calls per request, and one that cannot go on
    has answered them all.  In every state reached, the requests that were
    answered with a cookie that is not 0 were answered with the same one, the
    one in the attribute, and the attribute, once set, is never changed: the
    retry after [EEXIST] reads the winner's value. *)
Theorem esc_race (reqs : list (esc_source_e * Z * stat)) st0 n st ts :
  Forall (fun x => x.1.1 = ESC_SETXATTR \/ x.1.1 = ESC_GETXATTR) reqs ->
  nsteps threads_step n (st0, map (fun x => estale_cookie_fd x.1.1 x.1.2 x.2) reqs) (st, ts) ->
  (n <= 4 * length reqs)%nat
  /\ (forall w, st0 = Some w -> st = Some w)
  /\ (forall i c, ts !! i = Some (Done (Ret c)) -> c <> 0 ->
        exists w, st = Some w /\ esc_value w = Ret c)
  /\ ((forall x, ~ threads_step (st, ts) x) -> Forall (fun p => exists r, p = Done r) ts).
Proof.
  intros Hreqs Hrun.
  assert (Forall (thread_ok st0) (map (fun x => estale_cookie_fd x.1.1 x.1.2 x.2) reqs)
    /\ (sum_calls (map (fun x => estale_cookie_fd x.1.1 x.1.2 x.2) reqs) <= 4 * length reqs)%nat)
    as [Hok Hsum].
  { clear Hrun. induction Hreqs as [|[[s fd] sb] reqs Hs _ [IH1 IH2]]; [by split; [constructor|cbn; lia]|].
    cbn in Hs. destruct Hs as [-> | ->]; cbn [map fst snd length].
    - split; [constructor; [apply (TO_set _ fd)|done]|]. unfold sum_calls in *. cbn in *. lia.
    - split; [constructor; [apply (TO_get _ fd)|done]|]. unfold sum_calls in *. cbn in *. lia. }
  destruct (threads_run_ok _ _ _ Hrun Hok) as (Hts & Hn & Hw). cbn [fst snd] in *.
  rewrite Forall_lookup in Hts. split; [lia|]. split; [done|]. split.
  - intros i c Hi Hc. apply Hts in Hi. inversion Hi as [| | | |r Hr]. by apply Hr.
  - intros Hstuck. apply Forall_lookup. intros i p Hi. pose proof (Hts i p Hi) as Hp.
    destruct (decide (calls_left p = 0%nat)) as [E|E].
    + destruct Hp; try discriminate E. eauto.
    + destruct (thread_moves _ _ Hp E) as (st' & p' & Hx). destruct (Hstuck (st', <[i:=p']> ts)).
      by econstructor.
Qed.

(** Two requests race on a file without a cookie: both read, both find nothing,
    the second to write loses and reads the first one's cookie. *)
Definition wx_race : list (esc_source_e * Z * stat) :=
  [(ESC_SETXATTR, 3, stat_zero); (ESC_SETXATTR, 4, stat_zero)].

Lemma wx_race_run :
  nsteps threads_step 7 (None, map (fun x => estale_cookie_fd x.1.1 x.1.2 x.2) wx_race)
    (Some (lit "77"), [Done (Ret 77); Done (Ret 77)]).
Proof.
  eapply nsteps_l; [eapply (TS 0); [done|apply XS_get_none]|].
  eapply nsteps_l; [eapply (TS 1); [done|apply XS_get_none]|].
  eapply nsteps_l; [eapply (TS 0); [done|apply (XS_now _ 77); lia]|].
  eapply nsteps_l; [eapply (TS 1); [done|apply (XS_now _ 99); lia]|].
  eapply nsteps_l; [eapply (TS 0); [done|apply XS_set]|].
  eapply nsteps_l; [eapply (TS 1); [done|apply XS_set_exists]|].
  eapply nsteps_l; [eapply (TS 1); [done|apply XS_get; by vm_compute]|].
  vm_compute. constructor.
Qed.

Lemma esc_race_witness :
  (7 <= 4 * length wx_race)%nat
  /\ (forall i c, [Done (Ret 77); Done (Ret 77)] !! i = Some (Done (Ret c)) -> c <> 0 ->
        exists w, Some (lit "77") = Some w /\ esc_value w = Ret c).
Proof.
  destruct (esc_race wx_race None 7 (Some (lit "77")) [Done (Ret 77); Done (Ret 77)]) as (H1 & _ & H2 & _).
  - repeat constructor.
  - exact wx_race_run.
  - split; [exact H1|exact H2].
Defined.
