(* ===== verification/MaxAge.v ===== *)
(** * Bounding the max-age (exe/fs123p7/exportd_cc_rules.cpp)

    [cc_rule_cache::bounded_max_age] lowers the max-age of a cache-control
    header to the time since the file last changed.  The regular expression of
    the source is fixed, so its matcher is written out.  Theorem: the max-age
    of the result is the old one clamped, and nothing else changes. *)

From Stdlib Require Import Ascii String ZArith Lia.
From stdpp Require Import base strings list numbers.
From S2P Require Import Prelude ScanInt StrUtils.

#[local] Open Scope Z_scope.

(** ** Definitions *)

(** The white space of a regular expression, and its digits. *)
Definition re_space (c : ascii) : bool := bool_decide (zc c ∈ [32; 9; 10; 11; 12; 13]).
Definition re_digit (c : ascii) : bool := (48 <=? zc c) && (zc c <=? 57).

Fixpoint strip (p : bytes) (l : bytes) : option bytes :=
  match p, l with
  | [], _ => Some l
  | a :: p', b :: l' => if decide (a = b) then strip p' l' else None
  | _, [] => None
  end.
Fixpoint skip_while (f : ascii -> bool) (l : bytes) : bytes :=
  match l with c :: l' => if f c then skip_while f l' else l | [] => [] end.

(** What is left at the digits of [max-age\s*=\s*(\d+)], matched at the start. *)
Definition at_digits (l : bytes) : option bytes :=
  l ← strip (lit "max-age") l;
  l ← strip (lit "=") (skip_while re_space l);
  let l := skip_while re_space l in
  match l with c :: _ => if re_digit c then Some l else None | [] => None end.

(** The leftmost match of [(?:^|,| )max-age\s*=\s*(\d+)]; [bol]: at the
    beginning. The answer is what is left at the digits. *)
Fixpoint max_age_search (bol : bool) (l : bytes) : option bytes :=
  match (if bol then at_digits l else None) with
  | Some r => Some r
  | None =>
      match l with
      | [] => None
      | c :: l' =>
          match (if bool_decide (c = ","%char) || bool_decide (c = " "%char) then at_digits l' else None) with
          | Some r => Some r
          | None => max_age_search false l'
          end
      end
  end.

Definition time_max : Z := 2 ^ 63 - 1.

(** The max-age of a match at [digits_begin]. *)
Definition scan_max_age (cc : bytes) (digits_begin : Z) : outcome Z :=
  try_catch ('(v, _) ← scanint_s 64 10 true cc digits_begin; Ret v) (fun _ => Ret time_max).

(** [mtime] and [now] in seconds; the difference is a signed 64-bit integer. *)
Definition bounded_max_age (cc : bytes) (mtime now : Z) : outcome bytes :=
  match max_age_search true cc with
  | None => Ret cc
  | Some tail =>
      let digits_begin := zlen cc - zlen tail in
      let digits_end := zlen cc - zlen (skip_while re_digit tail) in
      maxage ← scan_max_age cc digits_begin;
      let unchanged := now - mtime in
      if (unchanged <? - 2 ^ 63) || (time_max <? unchanged) then Undef else
      let maxmaxage := Z.max 1 unchanged in
      let adjusted_age := Z.min maxmaxage maxage in
      if adjusted_age =? maxage then Ret cc else
      a ← substr cc 0 digits_begin;
      b ← substr cc digits_end npos;
      Ret (a ++ to_string adjusted_age ++ b)
  end.

Example bounded_ex :
  bounded_max_age (lit "s-max-age=7, max-age = 3600,x") 1000 1060 = Ret (lit "s-max-age=7, max-age = 60,x")
  /\ bounded_max_age (lit "max-age=99999999999999999999") 1000 1000 = Ret (lit "max-age=1")
  /\ bounded_max_age (lit "max-age=0") 1000 1060 = Ret (lit "max-age=0").
Proof. by vm_compute. Qed.

(** ** Digits and searching *)

(** The maximal run of digits at the start. *)
Fixpoint take_while (f : ascii -> bool) (l : bytes) : bytes :=
  match l with c :: l' => if f c then c :: take_while f l' else [] | [] => [] end.

(** The max-age that a cache-control header announces. *)
Definition max_age (cc : bytes) : option Z :=
  match max_age_search true cc with
  | Some tail => Some (Z.min (dec_value (take_while re_digit tail) 0) time_max)
  | None => None
  end.

Lemma re_digit_iff c : re_digit c = true <-> is_digit c.
Proof. unfold re_digit, is_digit. lia. Qed.

Lemma take_skip f l : l = take_while f l ++ skip_while f l.
Proof. induction l as [|c l IH]; [done|]. cbn. destruct (f c); [cbn; congruence|done]. Qed.

Lemma take_while_Forall l : Forall is_digit (take_while re_digit l).
Proof.
  induction l as [|c l IH]; cbn; [done|]. destruct (re_digit c) eqn:E; [|done].
  constructor; [by apply re_digit_iff|done].
Qed.

Lemma take_while_app ds l :
  Forall is_digit ds -> (match l with c :: _ => re_digit c = false | [] => True end) ->
  take_while re_digit (ds ++ l) = ds /\ skip_while re_digit (ds ++ l) = l.
Proof.
  intros Hds Hl. induction Hds as [|c ds Hc _ [IH1 IH2]]; cbn.
  - destruct l as [|c l]; [done|]. cbn. by rewrite Hl.
  - apply re_digit_iff in Hc as ->. by rewrite IH1, IH2.
Qed.

Lemma skip_while_head f l : match skip_while f l with c :: _ => f c = false | [] => True end.
Proof. induction l as [|c l IH]; cbn; [done|]. by destruct (f c) eqn:E. Qed.

(** What the matcher does before a digit depends on what is before it. *)
Definition up_to {A} (r : option bytes) (d : A -> bytes) (v : A) : option bytes :=
  match r with Some x => Some (x ++ d v) | None => None end.

Lemma strip_before_digit p x :
  Forall (fun c => re_digit c = false) p ->
  exists r, forall d y, re_digit d = true ->
    strip p (x ++ d :: y) = match r with Some x2 => Some (x2 ++ d :: y) | None => None end.
Proof.
  intros Hp. revert x. induction Hp as [|c p Hc _ IH]; intros x.
  - by exists (Some x).
  - destruct x as [|b x].
    + exists None. intros d y Hd. cbn. case_decide; [congruence|done].
    + cbn. case_decide; [apply IH|by exists None].
Qed.

Lemma digit_not_space d : re_digit d = true -> re_space d = false.
Proof.
  unfold re_digit, re_space. intros H. apply bool_decide_eq_false_2.
  intros Hin. assert (48 <= zc d) by lia.
  repeat (apply elem_of_cons in Hin as [Hin|Hin]; [lia|]). by apply not_elem_of_nil in Hin.
Qed.

Lemma skip_before_digit x :
  exists x2, forall d y, re_digit d = true -> skip_while re_space (x ++ d :: y) = x2 ++ d :: y.
Proof.
  induction x as [|c x [x2 IH]].
  - exists []. intros d y Hd. cbn. by rewrite digit_not_space.
  - cbn. destruct (re_space c); [by exists x2|by exists (c :: x)].
Qed.

Lemma at_digits_before_digit x :
  exists r, forall d y, re_digit d = true ->
    at_digits (x ++ d :: y) = match r with Some x2 => Some (x2 ++ d :: y) | None => None end.
Proof.
  destruct (strip_before_digit (lit "max-age") x) as [[x1|] H1]; [by repeat constructor| |].
  2: { exists None. intros d y Hd. unfold at_digits. by rewrite H1. }
  destruct (skip_before_digit x1) as [x2 H2].
  destruct (strip_before_digit (lit "=") x2) as [[x3|] H3]; [by repeat constructor| |].
  2: { exists None. intros d y Hd. unfold at_digits. rewrite H1 by done. cbn [mbind option_bind].
       by rewrite H2, H3. }
  destruct (skip_before_digit x3) as [x4 H4].
  exists (match x4 with c :: _ => if re_digit c then Some x4 else None | [] => Some [] end).
  intros d y Hd. unfold at_digits. rewrite H1 by done. cbn [mbind option_bind].
  rewrite H2, H3 by done. cbn [mbind option_bind]. rewrite H4 by done.
  destruct x4 as [|c x4]; cbn; [by rewrite Hd|by destruct (re_digit c)].
Qed.

Lemma search_before_digit b x :
  exists r, forall d y, re_digit d = true ->
    max_age_search b (x ++ d :: y)
    = match r with Some x2 => Some (x2 ++ d :: y) | None => max_age_search false y end.
Proof.
  revert b. induction x as [|c x IH]; intros b.
  - exists None. intros d y Hd. cbn [app max_age_search].
    assert (at_digits (d :: y) = None) as E.
    { unfold at_digits. cbn. case_decide as E; [|done]. by rewrite <- E in Hd. }
    rewrite E. destruct b;
      (destruct (bool_decide (d = ","%char)) eqn:E1; [apply bool_decide_eq_true in E1; by subst d|]);
      (destruct (bool_decide (d = " "%char)) eqn:E2; [apply bool_decide_eq_true in E2; by subst d|]);
      done.
  - destruct (at_digits_before_digit (c :: x)) as [r1 H1].
    destruct (at_digits_before_digit x) as [r2 H2]. destruct (IH false) as [r3 H3].
    set (g := bool_decide (c = ","%char) || bool_decide (c = " "%char)) in *.
    exists (match (if b then r1 else None) with Some z => Some z | None =>
              match (if g then r2 else None) with Some z => Some z | None => r3 end end).
    intros d y Hd. specialize (H1 d y Hd). specialize (H2 d y Hd). specialize (H3 d y Hd).
    cbn [app] in *. cbn [max_age_search]. fold g.
    destruct b; [rewrite H1; destruct r1; [done|]|];
      (destruct g; [rewrite H2; destruct r2; [done|]|]); exact H3.
Qed.

Lemma strip_suffix p l l' : strip p l = Some l' -> exists a, l = a ++ l'.
Proof.
  revert l. induction p as [|c p IH]; intros [|d l]; cbn; try discriminate.
  - intros [= <-]. by exists [].
  - intros [= <-]. by exists [].
  - case_decide; [|discriminate]. intros (a & ->)%IH. by exists (d :: a).
Qed.

Lemma at_digits_suffix l t :
  at_digits l = Some t -> (exists a, l = a ++ t) /\ exists d y, t = d :: y /\ re_digit d = true.
Proof.
  unfold at_digits. intros H. destruct (strip (lit "max-age") l) as [l1|] eqn:E1; [|discriminate].
  cbn [mbind option_bind] in H.
  destruct (strip (lit "=") (skip_while re_space l1)) as [l2|] eqn:E2; [|discriminate].
  cbn [mbind option_bind] in H. apply strip_suffix in E1 as (a1 & ->). apply strip_suffix in E2 as (a2 & E2).
  destruct (skip_while re_space l2) as [|c l3] eqn:E3; [discriminate|].
  destruct (re_digit c) eqn:Ed; [|discriminate]. injection H as <-. split; [|eauto].
  exists (a1 ++ take_while re_space l1 ++ a2 ++ take_while re_space l2).
  rewrite (take_skip re_space l1), E2 at 1. rewrite (take_skip re_space l2), E3 at 1.
  by rewrite <- !app_assoc.
Qed.

Lemma search_suffix b l t :
  max_age_search b l = Some t -> (exists a, l = a ++ t) /\ exists d y, t = d :: y /\ re_digit d = true.
Proof.
  revert b. induction l as [|c l IH]; intros b; cbn [max_age_search].
  - destruct b; [|discriminate]. destruct (at_digits []) eqn:E; [|discriminate].
    intros [= <-]. by apply at_digits_suffix.
  - destruct (if b then at_digits (c :: l) else None) eqn:E.
    { intros [= <-]. destruct b; [|discriminate]. by apply at_digits_suffix. }
    destruct (if _ || _ then at_digits l else None) eqn:E2; intros H.
    + injection H as <-. destruct (_ || _); [|discriminate].
      destruct (at_digits_suffix _ _ E2) as [(a & ->) Hd]. split; [|done]. by exists (c :: a).
    + destruct (IH _ H) as [(a & ->) Hd]. split; [|done]. by exists (c :: a).
Qed.

(** Other digits in the same place are found in the same place. *)
Lemma search_replace pre d y d' y' :
  max_age_search true (pre ++ d :: y) = Some (d :: y) -> re_digit d = true -> re_digit d' = true ->
  max_age_search true (pre ++ d' :: y') = Some (d' :: y').
Proof.
  intros H Hd Hd'. destruct (search_before_digit true pre) as [r Hr].
  rewrite Hr in H |- * by done. destruct r as [x2|].
  - injection H as H. apply (f_equal length) in H. rewrite length_app in H. cbn in H.
    destruct x2; [done|cbn in H; lia].
  - apply search_suffix in H as [(a & H) _]. apply (f_equal length) in H.
    rewrite length_app in H. cbn in H. lia.
Qed.

(** *** Reading the digits *)

Lemma scan_max_age_digits pre ds post :
  ds <> [] -> Forall is_digit ds -> (match post with c :: _ => re_digit c = false | [] => True end) ->
  scan_max_age (pre ++ ds ++ post) (zlen pre) = Ret (Z.min (dec_value ds 0) time_max).
Proof.
  intros Hne Hds Hpost. unfold scan_max_age, scanint_s.
  destruct ds as [|d ds]; [done|]. pose proof Hds as Hds'. inversion_clear Hds' as [|? ? Hd _].
  assert (_skip_white (pre ++ (d :: ds) ++ post) (zlen pre) = zlen pre) as ->.
  { unfold _skip_white. rewrite zdrop_app by done. cbn [app]. apply skip_white_loop_stop.
    by apply is_digit_not_white. }
  rewrite (proj2 (Z.leb_gt _ _)) by zlia. cbn [app]. rewrite sv_idx_mid. cbn [mbind outcome_bind].
  rewrite bool_decide_eq_false_2 by by apply is_digit_not_minus. rewrite Z.add_0_r, scanint_u_base10.
  change (pre ++ d :: ds ++ post) with (pre ++ (d :: ds) ++ post).
  rewrite (scanuint_spec 64 10 (d :: ds) post);
    [|done|done|by apply zdrop_app|by apply all_digits_10|].
  2: { unfold no_digit_next. destruct post as [|c post]; [done|].
       destruct (decide (_digitcvt 10 c = 10)) as [|Hc]; [done|].
       apply digitcvt_10, re_digit_iff in Hc. congruence. }
  rewrite digits_value_10 by done. rewrite bool_decide_eq_true_2 by done. cbn [andb].
  pose proof (dec_value_bound (d :: ds) Hds) as [Hv _]. set (v := dec_value (d :: ds) 0) in *.
  unfold umax, time_max. change (2 ^ 64 - 1) with 18446744073709551615.
  change (2 ^ 63 - 1) with 9223372036854775807.
  destruct (Z.leb_spec v 18446744073709551615) as [H64|H64].
  2: { by rewrite Z.min_r by lia. }
  cbn [_scanint_rethrow rethrow_nested try_catch mbind outcome_bind].
  destruct (Z.eqb_spec v 0) as [->|Hv0]; [done|].
  rewrite Z.sub_0_r, wrap_small by (change (2 ^ 64) with 18446744073709551616; lia).
  change (2 ^ (64 - 1) - 1) with 9223372036854775807.
  destruct (Z.ltb_spec 9223372036854775807 v); [by rewrite Z.min_r by lia|by rewrite Z.min_l by lia].
Qed.

(** ** Property *)

(** [bounded_max_age] returns whenever the age of the file fits its type,
    and what it returns: without a max-age, the header itself; otherwise the
    max-age of the result is that of the header (the largest [time_t] when its
    digits do not fit) clamped to the time since the file changed, but not
    below one second; it is never raised, and nothing but its digits
    changes. *)
Theorem bounded_max_age_spec cc mtime now :
  zlen cc < npos -> - 2 ^ 63 <= now - mtime < 2 ^ 63 ->
  exists cc', bounded_max_age cc mtime now = Ret cc'
    /\ match max_age cc with
       | None => cc' = cc
       | Some m => max_age cc' = Some (Z.min m (Z.max 1 (now - mtime)))
           /\ exists pre ds post ds', cc = pre ++ ds ++ post /\ cc' = pre ++ ds' ++ post
                /\ Forall is_digit ds /\ Forall is_digit ds'
       end.
Proof.
  intros Hlen Hr. unfold bounded_max_age, max_age at 1.
  destruct (max_age_search true cc) as [tail|] eqn:Es; [|by exists cc].
  pose proof (search_suffix _ _ _ Es) as [(pre & ->) (d & y & -> & Hd)].
  set (ds := take_while re_digit (d :: y)). set (post := skip_while re_digit (d :: y)).
  assert (d :: y = ds ++ post) as Etl by apply take_skip.
  assert (Forall is_digit ds) as Hds by apply take_while_Forall.
  assert (ds <> []) as Hne by (unfold ds; cbn; by rewrite Hd).
  assert (match post with c :: _ => re_digit c = false | [] => True end) as Hpost
    by apply skip_while_head.
  rewrite Etl in *. cbv zeta.
  replace (zlen (pre ++ ds ++ post) - zlen (ds ++ post)) with (zlen pre) by zlia.
  replace (zlen (pre ++ ds ++ post) - zlen post) with (zlen (pre ++ ds)) by zlia.
  rewrite scan_max_age_digits by done. cbn [mbind outcome_bind].
  set (m := Z.min (dec_value ds 0) time_max).
  rewrite (proj2 (Z.ltb_ge (now - mtime) (- 2 ^ 63))) by lia. unfold time_max at 1.
  rewrite (proj2 (Z.ltb_ge (2 ^ 63 - 1) (now - mtime))) by lia. cbn [orb].
  assert (0 <= m <= time_max) as Hm.
  { pose proof (dec_value_bound ds Hds). unfold m, time_max. lia. }
  assert (max_age (pre ++ ds ++ post) = Some m) as Em.
  { unfold max_age. rewrite Es. by rewrite (proj1 (take_while_app ds post Hds Hpost)). }
  destruct (Z.eqb_spec (Z.min (Z.max 1 (now - mtime)) m) m) as [E|E].
  { exists (pre ++ ds ++ post). split; [done|]. split; [rewrite Em; f_equal; lia|].
    by exists pre, ds, post, ds. }
  rewrite substr_in by zlia. cbn [mbind outcome_bind]. rewrite substr_in by zlia. cbn [mbind outcome_bind].
  rewrite zdrop_0, ztake_app by done. rewrite (app_assoc pre ds post), zdrop_app by done.
  rewrite ztake_all by (revert Hlen; zlia).
  set (a := Z.min (Z.max 1 (now - mtime)) m) in *.
  assert (0 <= a <= time_max) as Ha by (unfold a; lia).
  assert (to_string a = to_string_u a) as Ea
    by (destruct (to_string_cases a) as [(_ & ? & ? & ? & _)|[? _]]; [done|lia]).
  rewrite Ea. eexists. split; [reflexivity|]. pose proof (to_string_u_digits a ltac:(lia)) as Hda.
  split.
  - unfold max_age. destruct (to_string_u a) as [|d' l'] eqn:El; [by destruct (to_string_u_nonempty a); [lia|]|].
    cbn [app]. destruct ds as [|d0 ds0]; [done|]. cbn [app] in Es.
    rewrite (search_replace pre d0 (ds0 ++ post) d' (l' ++ post) Es);
      [|apply re_digit_iff; by inversion Hds|apply re_digit_iff; by inversion Hda].
    change (d' :: l' ++ post) with ((d' :: l') ++ post).
    rewrite (proj1 (take_while_app _ post Hda Hpost)), <- El, to_string_u_value by lia.
    f_equal. unfold a. lia.
  - exists pre, ds, post, (to_string_u a). by rewrite <- app_assoc.
Qed.

Lemma bounded_max_age_spec_witness :
  exists cc', bounded_max_age (lit "public, max-age= 86400 ,x") 1000 1060 = Ret cc'
    /\ max_age cc' = Some 60.
Proof.
  destruct (bounded_max_age_spec (lit "public, max-age= 86400 ,x") 1000 1060) as (cc' & E & H).
  { vm_compute. reflexivity. }
  { lia. }
  exists cc'. split; [exact E|]. destruct H as [H _]. exact H.
Defined.
