(* ===== verification/CcRules.v ===== *)
(** * Cache-control rules (exe/fs123p7/exportd_cc_rules.{hpp,cpp})

    [cc_rule_cache]: the cache-control header of a reply comes from the
    [.fs123_cc_rules] file of the nearest directory that has one, read through
    an [expiring_cache], or from a fallback. [bounded_max_age] is in MaxAge.v.

    The world is a parameter: the [n]-th system call or clock reading gets
    [world n] and [clock n].  The JSON parser (the vendored json.hpp) is
    [json_parse]; [std::regex] with user-supplied extended expressions is
    [regex_ok] (the constructor accepts) and [regex_match].

    Theorems: on a file system that does not change, whatever the cache
    remembers, forgets or evicts, the answer is that of the nearest rules file
    (with no null pointer followed on the way); the fallback stops being cached
    once [default_ttl] seconds have passed since the server started. *)

From Stdlib Require Import Ascii String ZArith Lia.
From stdpp Require Import base gmap strings list numbers.
From S2P Require Import Prelude ScanInt StrUtils PathUtils Expiring.

#[local] Open Scope Z_scope.

(** ** The rules *)

(** [re] is the expression the [std::regex] was made from. *)
Record rerule := Rerule { re : bytes; rr_cc : bytes }.
Record ruleset := Ruleset { rerules : list rerule; rs_cc : bytes }.

(** A [shared_ptr] to a ruleset that nobody changes any more. *)
Abbreviation ruleset_sp := (option ruleset).
Abbreviation exruleset_sp := (expiring (option ruleset)).

#[warnings="-register-all"]
Inductive json :=
| JNull
| JBool (b : bool)
| JInt (z : Z)
| JReal (as_int : Z)     (* by the int it converts to *)
| JStr (s : bytes)
| JArr (l : list json)
| JObj (l : list (bytes * json)).

(** *** Access to a JSON value, as json.hpp documents it *)

Fixpoint assoc (k : bytes) (l : list (bytes * json)) : option json :=
  match l with
  | [] => None
  | (k', v) :: l' => if decide (k' = k) then Some v else assoc k l'
  end.

Definition json_find (k : bytes) (j : json) : option json :=
  match j with JObj l => assoc k l | _ => None end.
Definition json_at (k : bytes) (j : json) : outcome json :=
  match json_find k j with Some v => Ret v | None => Throw ERuntime end.
Definition get_string (j : json) : outcome bytes :=
  match j with JStr s => Ret s | _ => Throw ERuntime end.
Definition get_int (j : json) : outcome Z :=
  match j with
  | JBool b => Ret (if b then 1 else 0)
  | JInt z => Ret (swrap 32 z)
  | JReal z => Ret (swrap 32 z)
  | _ => Throw ERuntime
  end.
Definition json_elements (j : json) : list json :=
  match j with JNull => [] | JArr l => l | JObj l => map snd l | _ => [j] end.

(** ** Operations *)

Definition ns_per_s : Z := 1000000000.

Section CcRuleCache.
Context {T : Type} {HU : UMap bytes (expiring (option ruleset)) T}.
Context (world : nat -> bytes -> Z + bytes) (clock : nat -> Z).
Context (json_parse : bytes -> option json).
Context (regex_ok : bytes -> bool) (regex_match : bytes -> bytes -> outcome bool).

(** [opened] records the paths given to [openat]. *)
Record cc_rule_cache := CcCache {
  excache : expiring_cache (T := T);
  default_ttl : Z;
  fallback_cc : exruleset_sp;
  cc_rules_successful_opens : Z;
  cc_rules_enoents : Z;
  cc_rules_enotdirs : Z;
  opened : list bytes;
  tick : nat
}.

Definition set_excache c (s : cc_rule_cache) : cc_rule_cache :=
  CcCache c (default_ttl s) (fallback_cc s) (cc_rules_successful_opens s) (cc_rules_enoents s)
    (cc_rules_enotdirs s) (opened s) (tick s).
Definition bump (a b c : Z) (s : cc_rule_cache) : cc_rule_cache :=
  CcCache (excache s) (default_ttl s) (fallback_cc s) (cc_rules_successful_opens s + a)
    (cc_rules_enoents s + b) (cc_rules_enotdirs s + c) (opened s) (tick s).
Definition step_world (o : list bytes) (s : cc_rule_cache) : cc_rule_cache :=
  CcCache (excache s) (default_ttl s) (fallback_cc s) (cc_rules_successful_opens s)
    (cc_rules_enoents s) (cc_rules_enotdirs s) (opened s ++ o) (S (tick s)).

(** [cc_rule_cache::cc_rule_cache]; opening the export root is the caller's. *)
Definition cc_ctor (cache_entries dflt_ttl : Z) (fb_cc : bytes) : outcome cc_rule_cache :=
  fb ← expiring_ttl (clock 0) (dflt_ttl * ns_per_s) (Some (Ruleset [] fb_cc));
  Ret (CcCache (cache_ctor cache_entries) dflt_ttl fb 0 0 0 [] 1).

Definition clk_now : M cc_rule_cache Z := fun s => (Ret (clock (tick s)), step_world [] s).
Definition openat (relpath : bytes) : M cc_rule_cache (Z + bytes) := fun s =>
  (Ret (world (tick s) relpath), step_world [relpath] s).
Definition excache_lookup (k : bytes) : M cc_rule_cache exruleset_sp :=
  now ← clk_now;
  s ← get;
  let '(e, c) := cache_lookup k now (excache s) in
  put (set_excache c s);;
  mret e.
Definition excache_insert (k : bytes) (e : exruleset_sp) : M cc_rule_cache unit :=
  s ← get;
  '(_, c) ← lift (cache_insert k e (excache s));
  put (set_excache c s).

Fixpoint parse_rerules (l : list json) : outcome (list rerule) :=
  match l with
  | [] => Ret []
  | jrer :: l' =>
      jre ← json_at (lit "re") jrer; r ← get_string jre;
      if negb (regex_ok r) then Throw ERuntime else
      jcc ← json_at (lit "cc") jrer; c ← get_string jcc;
      rest ← parse_rerules l';
      Ret (Rerule r c :: rest)
  end.

(** The contents of a rules file: its max-age in seconds and the rules. *)
Definition parse_rulesfile (dflt_ttl : Z) (content : bytes) : outcome (Z * ruleset) :=
  match json_parse content with
  | None => Throw ERuntime
  | Some j =>
      rulesfile_maxage ← match json_find (lit "rulesfile-maxage") j with
                         | Some p => get_int p
                         | None => Ret dflt_ttl
                         end;
      rer ← match json_find (lit "re-rules") j with
            | Some _ => jr ← json_at (lit "re-rules") j; parse_rerules (json_elements jr)
            | None => Ret []
            end;
      jcc ← json_at (lit "cc") j; cc ← get_string jcc;
      Ret (rulesfile_maxage, Ruleset rer cc)
  end.

Definition read_cc_rulesfile (relpath : bytes) : M cc_rule_cache exruleset_sp :=
  fd ← openat relpath;
  match fd with
  | inl eno =>
      if eno =? ENOENT then modify (bump 0 1 0);; mret expiring_default else
      if eno =? ENOTDIR then modify (bump 0 0 1);; mret expiring_default else
      raise (ESystem eno)
  | inr content =>
      modify (bump 1 0 0);;
      s ← get;
      '(rulesfile_maxage, ret) ← lift (parse_rulesfile (default_ttl s) content);
      now ← clk_now;
      lift (expiring_ttl now (rulesfile_maxage * ns_per_s) (Some ret))
  end.

Definition first_of (path : bytes) : M cc_rule_cache bytes := lift (p ← pathsplit path; Ret p.1).

Definition rulesfile (path : bytes) : bytes :=
  if bool_decide (path = []) then lit ".fs123_cc_rules" else path ++ lit "/.fs123_cc_rules".

(** [tentative && !tentative.expired()] *)
Definition alive (tentative : exruleset_sp) : M cc_rule_cache bool :=
  match e_val tentative with
  | Some _ => now ← clk_now; mret (negb (expired tentative now))
  | None => mret false
  end.

(** The recursion goes up to the export root; [S (length path)] is enough. *)
Fixpoint get_cc_rules_recursive (fuel : nat) (path : bytes) : M cc_rule_cache exruleset_sp :=
  match fuel with
  | O => lift Undef
  | S fuel =>
      tentative ← excache_lookup path;
      ok ← alive tentative;
      if (ok : bool) then mret tentative else
      let fpath := rulesfile path in
      ret ← try_M (read_cc_rulesfile fpath) (fun _ => mret (expiring_default (T := option ruleset)));
      if bool_decide (e_val ret <> None) then excache_insert path ret;; mret ret else
      ret ← (if bool_decide (path = []) then s ← get; mret (fallback_cc s)
             else first ← first_of path; get_cc_rules_recursive fuel first);
      excache_insert path ret;;
      mret ret
  end.

Fixpoint first_match (path_info : bytes) (l : list rerule) : outcome (option bytes) :=
  match l with
  | [] => Ret None
  | r :: l' => b ← regex_match (re r) path_info;
      if (b : bool) then Ret (Some (rr_cc r)) else first_match path_info l'
  end.

Definition select_cc (rules : ruleset) (path_info : bytes) : outcome bytes :=
  rethrow_nested ERuntime
    (m ← first_match path_info (rerules rules);
     Ret (match m with Some cc => cc | None => rs_cc rules end)).

(** [get_cc]; following a null [rules] is undefined. *)
Definition get_cc (path_info : bytes) (directory : bool) : M cc_rule_cache bytes :=
  pi ← (if directory then mret path_info else first_of path_info);
  ex ← get_cc_rules_recursive (S (length pi)) pi;
  match e_val ex with
  | Some rules => lift (select_cc rules path_info)
  | None => lift Undef
  end.

(** A server's life: one request after the other. *)
Fixpoint get_ccs (l : list (bytes * bool)) (s : cc_rule_cache) : cc_rule_cache :=
  match l with
  | [] => s
  | (p, d) :: l' => get_ccs l' (get_cc p d s).2
  end.
End CcRuleCache.

(** ** The rules that apply *)

(** A directory and its parents, the export root last. *)
Fixpoint ancestors_aux (fuel : nat) (path : bytes) : list bytes :=
  path :: match fuel with
          | O => []
          | S fuel => if bool_decide (path = []) then [] else
              match pathsplit path with Ret (first, _) => ancestors_aux fuel first | _ => [] end
          end.
Definition ancestors (path : bytes) : list bytes := ancestors_aux (length path) path.

Lemma pathsplit_total p :
  zlen p < npos -> exists d f, pathsplit p = Ret (d, f) /\ (p <> [] -> length d < length p)%nat
    /\ (length d <= length p)%nat.
Proof.
  intros Hlen. unfold pathsplit.
  destruct (find_last_of_spec p slash) as [(-> & H)|(a & b & -> & Hb & ->)].
  - rewrite Z.eqb_refl. exists [], p. split; [done|]. destruct p; cbn; split; [done|lia|lia|lia].
  - pose proof (zlen_nonneg a). pose proof (zlen_nonneg b). revert Hlen. zlen_simpl. intros Hlen.
    rewrite (proj2 (Z.eqb_neq _ _)) by lia. rewrite substr_in by zlia.
    cbn [mbind outcome_bind]. rewrite substr_in by zlia. cbn [mbind outcome_bind].
    eexists _, _. split; [reflexivity|]. rewrite zdrop_0, ztake_app by done.
    rewrite length_app. cbn. lia.
Qed.

(** The directory whose rules apply to a path. *)
Definition rules_dir (path_info : bytes) (directory : bool) : bytes :=
  if directory then path_info
  else match pathsplit path_info with Ret (first, _) => first | _ => [] end.

Lemma rules_dir_length path_info directory :
  zlen path_info < npos -> zlen (rules_dir path_info directory) < npos.
Proof.
  intros Hz. unfold rules_dir. destruct directory; [done|].
  destruct (pathsplit_total path_info Hz) as (d & f & -> & _ & Hl). unfold zlen in *. lia.
Qed.

Lemma first_of_rules_dir {T} {HU : UMap bytes (expiring (option ruleset)) T} p :
  zlen p < npos -> forall s : cc_rule_cache (T := T), first_of p s = (Ret (rules_dir p false), s).
Proof.
  intros Hz s. unfold first_of, rules_dir, lift.
  by destruct (pathsplit_total p Hz) as (d & f & -> & _).
Qed.

Lemma ancestors_aux_enough fuel p :
  zlen p < npos -> (length p <= fuel)%nat -> ancestors_aux fuel p = ancestors p.
Proof.
  unfold ancestors. revert p. induction fuel as [fuel IH] using lt_wf_ind. intros p Hz Hl.
  destruct p as [|c p]; [by destruct fuel|]. destruct fuel as [|fuel]; [cbn in Hl; lia|].
  destruct (pathsplit_total (c :: p) Hz) as (d & f & E & Hd & _). specialize (Hd ltac:(done)).
  cbn [length ancestors_aux]. rewrite E, bool_decide_eq_false_2 by done. f_equal.
  cbn in Hd, Hl. unfold zlen in *.
  rewrite (IH fuel), (IH (length p)) by (cbn in *; lia). done.
Qed.

Lemma ancestors_root : ancestors [] = [[]].
Proof. done. Qed.

Lemma ancestors_step p d f :
  zlen p < npos -> p <> [] -> pathsplit p = Ret (d, f) -> (length d < length p)%nat ->
  ancestors p = p :: ancestors d.
Proof.
  intros Hz Hp E Hl. unfold ancestors at 1. destruct p as [|c p]; [done|].
  cbn [length ancestors_aux]. rewrite E, bool_decide_eq_false_2 by done. f_equal.
  cbn in Hl. unfold zlen in *. rewrite ancestors_aux_enough; [done|unfold zlen; cbn in *; lia|lia].
Qed.

(** The rules file of one directory, when it can be opened and parsed. *)
Definition rules_of (json_parse : bytes -> option json) (regex_ok : bytes -> bool)
    (fs : bytes -> Z + bytes) (dflt_ttl : Z) (path : bytes) : option ruleset :=
  match fs (rulesfile path) with
  | inr content =>
      match parse_rulesfile json_parse regex_ok dflt_ttl content with Ret (_, rs) => Some rs | _ => None end
  | inl _ => None
  end.

(** The specification: the nearest directory with rules, or the fallback. *)
Definition nearest json_parse regex_ok fs dflt_ttl (fb_cc : bytes) (path : bytes) : ruleset :=
  match omap (rules_of json_parse regex_ok fs dflt_ttl) (ancestors path) with
  | rs :: _ => rs
  | [] => Ruleset [] fb_cc
  end.

(** *** Parsing always answers *)

Create HintDb cc.

Definition defined {A} (m : outcome A) : Prop := m <> Undef.

Lemma defined_bind {A B} (m : outcome A) (k : A -> outcome B) :
  defined m -> (forall a, m = Ret a -> defined (k a)) -> defined (m ≫= k).
Proof. unfold defined. destruct m; cbn; auto. Qed.
Lemma defined_at k j : defined (json_at k j).
Proof. unfold json_at. by destruct (json_find k j). Qed.
Lemma defined_string j : defined (get_string j).
Proof. by destruct j. Qed.
Lemma defined_int j : defined (get_int j).
Proof. by destruct j. Qed.
Lemma defined_ret {A} (a : A) : defined (Ret a).
Proof. done. Qed.
#[export] Hint Resolve @defined_bind defined_at defined_string defined_int @defined_ret : cc.

Lemma defined_rerules regex_ok l : defined (parse_rerules regex_ok l).
Proof.
  induction l as [|j l IH]; [done|]. cbn.
  apply defined_bind; [auto with cc|]. intros jre _. apply defined_bind; [auto with cc|]. intros r _.
  destruct (negb _); [done|]. auto 6 with cc.
Qed.
#[export] Hint Resolve defined_rerules : cc.

Lemma defined_rulesfile json_parse regex_ok d c : defined (parse_rulesfile json_parse regex_ok d c).
Proof.
  unfold parse_rulesfile. destruct (json_parse c) as [j|]; [|done].
  apply defined_bind; [by case_match; auto with cc|]. intros m _.
  apply defined_bind; [case_match; auto with cc|]. intros rer _. auto 6 with cc.
Qed.

Definition int_range (z : Z) : Prop := - 2 ^ 31 <= z < 2 ^ 31.

Lemma swrap32_range z : int_range (swrap 32 z).
Proof.
  unfold int_range, swrap. assert (0 <= wrap 32 z < 2 ^ 32) as H by by apply wrap_range.
  unfold wrap in H. cbv zeta. change (2 ^ 32) with 4294967296 in *. change (2 ^ (32 - 1)) with 2147483648.
  change (2 ^ 31) with 2147483648. case_match; lia.
Qed.

Lemma parse_rulesfile_ttl json_parse regex_ok d c m rs :
  int_range d -> parse_rulesfile json_parse regex_ok d c = Ret (m, rs) -> int_range m.
Proof.
  intros Hd. unfold parse_rulesfile. destruct (json_parse c) as [j|]; [|done]. intros H.
  apply bind_Ret in H as (m' & Hm & H). inv_ret. injection H as -> _. clear - Hd Hm. destruct (json_find _ j) as [p|].
  - destruct p; try discriminate Hm; apply Ret_inj in Hm as <-; try apply swrap32_range.
    unfold int_range. destruct b; lia.
  - by apply Ret_inj in Hm as <-.
Qed.

(** The expiration time of a ruleset is representable. *)
Definition clock_ok (clock : nat -> Z) : Prop := forall n, 0 <= clock n < 2 ^ 62.

Lemma expiring_rules now m (r : option ruleset) :
  0 <= now < 2 ^ 62 -> int_range m ->
  expiring_ttl now (m * ns_per_s) r = Ret (Expiring r (now + m * ns_per_s)).
Proof.
  unfold int_range, expiring_ttl, time_point_plus, tp_min, tp_max, ns_per_s.
  change (2 ^ 31) with 2147483648. change (2 ^ 62) with 4611686018427387904.
  change (2 ^ 63) with 9223372036854775808. intros H1 H2.
  destruct (Z.leb_spec (- (9223372036854775808)) (now + m * 1000000000)); [|lia].
  by destruct (Z.leb_spec (now + m * 1000000000) (9223372036854775808 - 1)); [|lia].
Qed.

(** ** Computations that return and keep an invariant *)

Definition returns {S A} (I : S -> Prop) (m : M S A) (Q : A -> Prop) : Prop :=
  forall s, I s -> exists a s', m s = (Ret a, s') /\ Q a /\ I s'.

Lemma returns_ret {S A} (I : S -> Prop) (a : A) (Q : A -> Prop) : Q a -> returns I (mret a) Q.
Proof. intros Hq s Hs. by exists a, s. Qed.
Lemma returns_bind {S A B} (I : S -> Prop) (m : M S A) (k : A -> M S B) P Q :
  returns I m P -> (forall a, P a -> returns I (k a) Q) -> returns I (m ≫= k) Q.
Proof.
  intros Hm Hk s Hs. destruct (Hm s Hs) as (a & s1 & E & Ha & Hs1).
  destruct (Hk a Ha s1 Hs1) as (b & s2 & E2 & Hb & Hs2).
  exists b, s2. by rewrite (M_bind_Ret _ _ _ _ _ E).
Qed.
Lemma returns_get {S} (I : S -> Prop) : returns I get I.
Proof. intros s Hs. by exists s, s. Qed.
Lemma returns_modify {S} (I : S -> Prop) f : (forall s, I s -> I (f s)) -> returns I (modify f) (fun _ => True).
Proof. intros Hf s Hs. exists tt, (f s). split; [done|]. split; [done|]. by apply Hf. Qed.
Lemma returns_lift {S A} (I : S -> Prop) (a : A) (m : outcome A) (Q : A -> Prop) :
  m = Ret a -> Q a -> returns I (lift m) Q.
Proof. intros -> Hq s Hs. by exists a, s. Qed.
Lemma returns_weaken {S A} (I : S -> Prop) (m : M S A) (P Q : A -> Prop) :
  returns I m P -> (forall a, P a -> Q a) -> returns I m Q.
Proof. intros Hm HPQ s Hs. destruct (Hm s Hs) as (a & s' & ? & ? & ?). exists a, s'. auto. Qed.

Lemma lookup_cases {T} {HU : UMap bytes (expiring (option ruleset)) T} {HL : UMapLaws bytes (expiring (option ruleset)) T}
    k now (c : expiring_cache (T := T)) :
  ec_wf c ->
  let r := cache_lookup k now c in
  (r.1 = expiring_default \/ (um_map (themap c) !! k = Some r.1 /\ expired r.1 now = false))
  /\ ec_wf r.2 /\ um_map (themap r.2) ⊆ um_map (themap c) /\ ec_max_size r.2 = ec_max_size c.
Proof.
  intros Hc. cbv zeta. destruct (cache_step_inv (OpLookup k now) c Hc) as (c' & E & Hc' & Hm & _).
  cbn [cache_step] in E. injection E as E. rewrite E. split.
  - unfold cache_lookup. destruct (um_map (themap c) !! k) as [e|] eqn:Ek; [|by left].
    destruct (expired e now) eqn:Ee; [by left|]. right. by split.
  - split; [done|]. split; [|done]. rewrite <- E. unfold cache_lookup.
    destruct (um_map (themap c) !! k) as [e|]; [destruct (expired e now)|]; cbn [snd themap]; [|done|done].
    rewrite um_map_erase. apply delete_subseteq.
Qed.

(** ** A file system that does not change *)

Section Static.
Context {T : Type} {HU : UMap bytes (expiring (option ruleset)) T}.
Context {HL : UMapLaws bytes (expiring (option ruleset)) T}.
Context (world : nat -> bytes -> Z + bytes) (clock : nat -> Z).
Context (json_parse : bytes -> option json).
Context (regex_ok : bytes -> bool) (regex_match : bytes -> bytes -> outcome bool).
Context (fs : bytes -> Z + bytes) (dflt : Z) (fb_cc : bytes).
Context (Hworld : forall n p, world n p = fs p) (Hclock : clock_ok clock) (Hdflt : int_range dflt).

#[local] Abbreviation near := (nearest json_parse regex_ok fs dflt fb_cc).
#[local] Abbreviation rules := (rules_of json_parse regex_ok fs dflt).

(** What the cache remembers is right. *)
Definition cc_inv (s : cc_rule_cache (T := T)) : Prop :=
  ec_wf (excache s) /\ default_ttl s = dflt /\ e_val (fallback_cc s) = Some (Ruleset [] fb_cc)
  /\ forall k e, um_map (themap (excache s)) !! k = Some e -> e_val e = Some (near k).

Lemma cc_inv_step s o : cc_inv s -> cc_inv (step_world o s).
Proof. done. Qed.
Lemma cc_inv_bump a b c s : cc_inv s -> cc_inv (bump a b c s).
Proof. done. Qed.

Lemma clk_returns : returns cc_inv (clk_now clock) (fun now => 0 <= now < 2 ^ 62).
Proof. intros s Hs. eexists _, _. split; [reflexivity|]. split; [apply Hclock|done]. Qed.

Lemma openat_returns p : returns cc_inv (openat world p) (fun r => r = fs p).
Proof. intros s Hs. eexists _, _. split; [reflexivity|]. split; [apply Hworld|done]. Qed.

Lemma lookup_returns k :
  returns cc_inv (excache_lookup clock k) (fun e => e_val e = None \/ e_val e = Some (near k)).
Proof.
  unfold excache_lookup. eapply returns_bind; [apply clk_returns|]. intros now _ s Hs.
  pose proof Hs as (Hc & Hd & Hf & Hm).
  pose proof (lookup_cases k now (excache s) Hc) as H. cbv zeta in H. destruct H as (H1 & H2 & H3 & H4).
  destruct (cache_lookup k now (excache s)) as [e c] eqn:E. cbn in H1, H2, H3, H4.
  exists e, (set_excache c s). split; [unfold mbind, M_bind, get, put; cbn; by rewrite E|]. split.
  - destruct H1 as [->|[Hk _]]; [by left|right]. by apply Hm.
  - split; [done|]. split; [done|]. split; [done|]. cbn. intros k' e' Hk. apply Hm.
    by eapply lookup_weaken.
Qed.

Lemma insert_returns k e :
  e_val e = Some (near k) -> returns cc_inv (excache_insert k e) (fun _ => True).
Proof.
  intros He s (Hc & Hd & Hf & Hm).
  destruct (cache_step_inv (OpInsert k e) (excache s) Hc) as (c' & E & Hc' & _ & Hin).
  cbn [cache_step] in E. apply bind_Ret in E as ([r c1] & E & E1). injection E1 as ->.
  exists tt, (set_excache c' s). unfold excache_insert, mbind, M_bind, get, put, lift. rewrite E.
  split; [done|]. split; [done|]. split; [done|]. split; [done|]. split; [done|].
  intros k' e' Hk. destruct (Hin k' e' Hk) as [Hk'|Hop]; [by apply Hm|]. by injection Hop as -> ->.
Qed.

Lemma read_returns path :
  returns cc_inv (try_M (read_cc_rulesfile world clock json_parse regex_ok (rulesfile path))
                    (fun _ => mret (expiring_default (T := option ruleset))))
    (fun e => e_val e = rules path).
Proof.
  intros s Hs. unfold try_M, read_cc_rulesfile.
  destruct (openat_returns (rulesfile path) s Hs) as (r & s1 & E & -> & Hs1).
  rewrite (M_bind_Ret _ _ _ _ _ E). unfold rules_of. destruct (fs (rulesfile path)) as [eno|content].
  { destruct (eno =? ENOENT); [by eexists _, _|]. destruct (eno =? ENOTDIR); by eexists _, _. }
  unfold mbind, M_bind, modify, get, lift. pose proof Hs1 as (_ & Hd & _).
  change (default_ttl (bump 1 0 0 s1)) with (default_ttl s1). rewrite Hd.
  pose proof (defined_rulesfile json_parse regex_ok dflt content) as Hdef.
  destruct (parse_rulesfile json_parse regex_ok dflt content) as [[m rs]|e|] eqn:Ep; [| |done].
  - cbn. rewrite expiring_rules; [|apply Hclock|by eapply parse_rulesfile_ttl]. by eexists _, _.
  - by eexists _, _.
Qed.

Lemma near_root : near [] = match rules [] with Some rs => rs | None => Ruleset [] fb_cc end.
Proof. unfold nearest. rewrite ancestors_root. cbn [omap list_omap]. by destruct (rules []). Qed.

Lemma near_up path first f :
  zlen path < npos -> path <> [] -> pathsplit path = Ret (first, f) ->
  near path = match rules path with Some rs => rs | None => near first end.
Proof.
  intros Hz Hp E. destruct (pathsplit_total path Hz) as (d & g & E' & Hl & _).
  rewrite E in E'. injection E' as <- <-.
  unfold nearest. rewrite (ancestors_step path first f) by auto.
  cbn [omap list_omap]. by destruct (rules path).
Qed.

Lemma alive_returns e :
  returns cc_inv (alive clock e) (fun ok => ok = true -> e_val e <> None).
Proof.
  unfold alive. destruct (e_val e) as [r|] eqn:E.
  - eapply returns_bind; [apply clk_returns|]. intros now _. by apply returns_ret.
  - by apply returns_ret.
Qed.

Lemma get_rec_returns fuel path :
  zlen path < npos -> (length path < fuel)%nat ->
  returns cc_inv (get_cc_rules_recursive world clock json_parse regex_ok fuel path)
    (fun e => e_val e = Some (near path)).
Proof.
  revert path. induction fuel as [|fuel IH]; [lia|]. intros path Hz Hl. cbn [get_cc_rules_recursive].
  eapply returns_bind; [apply lookup_returns|]. intros t Ht.
  eapply returns_bind; [apply alive_returns|]. intros ok Hok. destruct ok.
  { apply returns_ret. destruct Ht as [Ht|Ht]; [by destruct (Hok eq_refl)|done]. }
  cbv zeta. eapply returns_bind; [apply read_returns|]. intros ret Hret.
  destruct (pathsplit_total path Hz) as (first & f & E & Hs & _).
  assert (e_val ret <> None -> e_val ret = Some (near path)) as Hnear.
  { rewrite Hret. intros Hn. destruct (decide (path = [])) as [->|Hp].
    - rewrite near_root. by destruct (rules []).
    - rewrite (near_up path first f) by done. by destruct (rules path). }
  destruct (decide (e_val ret = None)) as [En|En].
  2: { rewrite bool_decide_eq_true_2 by done.
       eapply returns_bind; [by apply insert_returns, Hnear|]. intros _ _. by apply returns_ret, Hnear. }
  rewrite bool_decide_eq_false_2 by tauto. rewrite Hret in En.
  eapply (returns_bind _ _ _ (fun e => e_val e = Some (near path))).
  - destruct (decide (path = [])) as [->|Hp].
    + rewrite bool_decide_eq_true_2 by done. eapply returns_bind; [apply returns_get|].
      intros s (_ & _ & Hf & _). apply returns_ret. by rewrite near_root, En.
    + rewrite bool_decide_eq_false_2 by done. unfold first_of.
      eapply (returns_bind _ _ _ (fun d => d = first)).
      { apply (returns_lift _ first); [by rewrite E|done]. }
      intros _ ->. rewrite (near_up path first f), En by done. specialize (Hs Hp).
      apply IH; [unfold zlen in *; lia|lia].
  - intros e He. eapply returns_bind; [by apply insert_returns|]. intros _ _. by apply returns_ret.
Qed.

Lemma get_cc_static path dir s :
  cc_inv s -> zlen path < npos ->
  let r := get_cc world clock json_parse regex_ok regex_match path dir s in
  r.1 = select_cc regex_match (near (rules_dir path dir)) path /\ cc_inv r.2.
Proof.
  intros Hs Hz. cbv zeta. unfold get_cc.
  assert ((if dir then mret path else first_of path) s = (Ret (rules_dir path dir), s)) as E
    by (destruct dir; [done|by apply first_of_rules_dir]).
  rewrite (M_bind_Ret _ _ _ _ _ E).
  destruct (get_rec_returns (S (length (rules_dir path dir))) (rules_dir path dir)) with (s := s)
    as (e & s' & E' & He & Hs'); [by apply rules_dir_length|lia|done|].
  rewrite (M_bind_Ret _ _ _ _ _ E'), He. done.
Qed.

Lemma get_ccs_static l s :
  cc_inv s -> Forall (fun x => zlen x.1 < npos) l ->
  cc_inv (get_ccs world clock json_parse regex_ok regex_match l s).
Proof.
  revert s. induction l as [|[p d] l IH]; intros s Hs Hl; [done|]. cbn.
  inversion_clear Hl. apply IH; [|done]. by apply (get_cc_static p d s).
Qed.

Lemma cc_ctor_ok entries :
  0 <= entries -> exists s, cc_ctor clock entries dflt fb_cc = Ret s /\ cc_inv s
    /\ fallback_cc s = Expiring (Some (Ruleset [] fb_cc)) (clock 0%nat + dflt * ns_per_s)
    /\ themap (excache s) = um_empty /\ opened s = [].
Proof.
  intros He. unfold cc_ctor. rewrite expiring_rules by (try apply Hclock; done).
  eexists. split; [reflexivity|]. split; [|done]. split_and!.
  - split_and!; cbn; [done|done|]. unfold ec_size. cbn. by rewrite um_map_empty, map_size_empty.
  - done.
  - done.
  - intros k e. cbn. by rewrite um_map_empty, lookup_empty.
Qed.
End Static.

(** ** A tree without rules files *)

Section NoRules.
Context {T : Type} {HU : UMap bytes (expiring (option ruleset)) T}.
Context {HL : UMapLaws bytes (expiring (option ruleset)) T}.
Context (world : nat -> bytes -> Z + bytes) (clock : nat -> Z).
Context (json_parse : bytes -> option json).
Context (regex_ok : bytes -> bool) (regex_match : bytes -> bytes -> outcome bool).
Context (fb : expiring (option ruleset)).
Context (Hworld : forall n p, world n p = inl ENOENT) (Hfb : e_val fb <> None).

(** The cache only ever holds the fallback. *)
Definition nr_inv (s : cc_rule_cache (T := T)) : Prop :=
  ec_wf (excache s) /\ fallback_cc s = fb
  /\ forall k e, um_map (themap (excache s)) !! k = Some e -> e = fb.

(** From [s], the fallback is past its expiration time. *)
Definition past (s : cc_rule_cache (T := T)) : Prop :=
  forall n, (tick s <= n)%nat -> expired fb (clock n) = true.

Lemma lookup_nr k s :
  nr_inv s -> exists e s', excache_lookup clock k s = (Ret e, s') /\ nr_inv s'
    /\ (e = expiring_default \/ e = fb) /\ opened s' = opened s /\ tick s' = S (tick s).
Proof.
  intros (Hc & Hf & Hm). pose proof (lookup_cases k (clock (tick s)) (excache s) Hc) as H.
  cbv zeta in H. destruct H as (H1 & H2 & H3 & H4).
  unfold excache_lookup, mbind, M_bind, get, put, clk_now. cbn [excache step_world].
  destruct (cache_lookup k (clock (tick s)) (excache s)) as [e c]. cbn in H1, H2, H3, H4.
  exists e, (set_excache c (step_world [] s)). cbn [opened tick step_world set_excache].
  rewrite app_nil_r. split; [done|]. split; [split; [done|split; [done|]]|split; [|done]].
  - cbn. intros k' e' Hk. apply (Hm k'). by eapply lookup_weaken.
  - destruct H1 as [->|[Hk Hx]]; [by left|right]. by eapply Hm.
Qed.

Lemma insert_nr k s :
  nr_inv s -> exists s', excache_insert k fb s = (Ret tt, s') /\ nr_inv s'
    /\ opened s' = opened s /\ tick s' = tick s.
Proof.
  intros (Hc & Hf & Hm).
  destruct (cache_step_inv (OpInsert k fb) (excache s) Hc) as (c' & E & Hc' & _ & Hin).
  cbn [cache_step] in E. apply bind_Ret in E as ([r c1] & E & E1). injection E1 as ->.
  exists (set_excache c' s). unfold excache_insert, mbind, M_bind, get, put, lift. rewrite E.
  split; [done|]. split; [split; [done|split; [done|]]|done].
  intros k' e' Hk. destruct (Hin k' e' Hk) as [Hk'|Hop]; [by eapply Hm|]. by injection Hop.
Qed.

Lemma alive_nr e s :
  nr_inv s -> (e = expiring_default \/ e = fb) ->
  exists ok s', alive clock e s = (Ret ok, s') /\ nr_inv s' /\ opened s' = opened s
    /\ (tick s <= tick s')%nat /\ (ok = true -> e = fb /\ ~ past s).
Proof.
  intros Hs He. unfold alive. destruct (e_val e) eqn:Ev.
  - eexists _, _. split; [reflexivity|]. cbn [opened tick step_world]. rewrite app_nil_r.
    split; [exact Hs|]. split; [done|]. split; [lia|]. destruct He as [->|]; [discriminate|].
    intros Hx%negb_true_iff. split; [done|]. intros Hp. subst e.
    specialize (Hp (tick s) (le_n _)). congruence.
  - eexists _, _. split; [reflexivity|]. split; [exact Hs|]. split; [done|]. by split; [lia|].
Qed.

Lemma read_nr path s :
  nr_inv s -> exists s', try_M (read_cc_rulesfile world clock json_parse regex_ok path)
      (fun _ => mret (expiring_default (T := option ruleset))) s = (Ret expiring_default, s')
    /\ nr_inv s' /\ opened s' = opened s ++ [path] /\ tick s' = S (tick s).
Proof.
  intros Hs. unfold try_M, read_cc_rulesfile, mbind, M_bind, openat, modify. rewrite Hworld.
  rewrite Z.eqb_refl. eexists. split; [reflexivity|]. split; [apply Hs|]. done.
Qed.

Lemma past_mono s s' : past s -> (tick s <= tick s')%nat -> past s'.
Proof. intros Hp Hl n Hn. apply Hp. lia. Qed.

Lemma get_rec_nr fuel path s :
  nr_inv s -> zlen path < npos -> (length path < fuel)%nat ->
  exists s' n, get_cc_rules_recursive world clock json_parse regex_ok fuel path s = (Ret fb, s')
    /\ nr_inv s' /\ (tick s <= tick s')%nat
    /\ opened s' = opened s ++ map rulesfile (take n (ancestors path))
    /\ (past s -> n = length (ancestors path)).
Proof.
  revert path s. induction fuel as [|fuel IH]; [lia|]. intros path s Hs Hz Hl.
  cbn [get_cc_rules_recursive].
  destruct (lookup_nr path s Hs) as (t & s1 & E1 & Hs1 & Ht & Ho1 & Hk1).
  rewrite (M_bind_Ret _ _ _ _ _ E1).
  destruct (alive_nr t s1 Hs1 Ht) as (ok & s2 & E2 & Hs2 & Ho2 & Hk2 & Hok).
  rewrite (M_bind_Ret _ _ _ _ _ E2). destruct ok.
  { destruct (Hok eq_refl) as [-> Hnp]. exists s2, 0%nat. cbn. rewrite app_nil_r.
    split; [done|]. split; [exact Hs2|]. split; [lia|]. split; [congruence|]. intros Hp. destruct Hnp.
    apply (past_mono s); [done|lia]. }
  cbv zeta. destruct (read_nr (rulesfile path) s2 Hs2) as (s3 & E3 & Hs3 & Ho3 & Hk3).
  rewrite (M_bind_Ret _ _ _ _ _ E3). rewrite bool_decide_eq_false_2 by (intros H; by apply H).
  assert (exists s4 n, (if bool_decide (path = []) then s ← get; mret (fallback_cc s)
      else first ← first_of path; get_cc_rules_recursive world clock json_parse regex_ok fuel first) s3
      = (Ret fb, s4) /\ nr_inv s4 /\ (tick s3 <= tick s4)%nat
      /\ opened s4 = opened s ++ map rulesfile (take (S n) (ancestors path))
      /\ (past s3 -> S n = length (ancestors path))) as (s4 & n & E4 & Hs4 & Hk4 & Ho4 & Hn4).
  { rewrite Ho2, Ho1 in Ho3. destruct (decide (path = [])) as [->|Hp].
    - exists s3, 0%nat. rewrite bool_decide_eq_true_2 by done. pose proof Hs3 as (_ & Hf & _).
      unfold mbind, M_bind, get. rewrite Hf. split; [done|]. split; [exact Hs3|]. done.
    - rewrite bool_decide_eq_false_2 by done.
      destruct (pathsplit_total path Hz) as (d & f & Ed & Hd & _). specialize (Hd Hp).
      rewrite (M_bind_Ret _ _ _ _ _ (first_of_rules_dir path Hz s3)). unfold rules_dir. rewrite Ed.
      destruct (IH d s3) as (s4 & n & E4 & H4 & Hk4 & Ho4 & Hn4); [done|unfold zlen in *; lia|lia|].
      exists s4, n. rewrite E4, (ancestors_step path d f) by done.
      split; [done|]. split; [exact H4|]. split; [done|]. split.
      + rewrite Ho4, Ho3, <- app_assoc. done.
      + intros Hpast. cbn. by rewrite <- (Hn4 Hpast). }
  rewrite (M_bind_Ret _ _ _ _ _ E4).
  destruct (insert_nr path s4 Hs4) as (s5 & E5 & Hs5 & Ho5 & Hk5).
  rewrite (M_bind_Ret _ _ _ _ _ E5). exists s5, (S n).
  split; [done|]. split; [exact Hs5|]. split; [lia|]. split; [by rewrite Ho5|].
  intros Hp. apply Hn4. apply (past_mono s); [done|lia].
Qed.

Lemma get_cc_nr path dir s :
  nr_inv s -> zlen path < npos ->
  let r := get_cc world clock json_parse regex_ok regex_match path dir s in
  nr_inv r.2 /\ (past s -> opened r.2 = opened s ++ map rulesfile (ancestors (rules_dir path dir))).
Proof.
  intros Hs Hz. cbv zeta. unfold get_cc.
  assert ((if dir then mret path else first_of path) s = (Ret (rules_dir path dir), s)) as E
    by (destruct dir; [done|by apply first_of_rules_dir]).
  rewrite (M_bind_Ret _ _ _ _ _ E).
  destruct (get_rec_nr (S (length (rules_dir path dir))) (rules_dir path dir) s)
    as (s' & n & E' & Hs' & _ & Ho & Hn); [done|by apply rules_dir_length|lia|].
  rewrite (M_bind_Ret _ _ _ _ _ E'). destruct (e_val fb) eqn:Ev; [|done].
  cbn. split; [done|]. intros Hp. rewrite Ho, (Hn Hp). by rewrite firstn_all.
Qed.

Lemma get_ccs_nr l s :
  nr_inv s -> Forall (fun x => zlen x.1 < npos) l ->
  nr_inv (get_ccs world clock json_parse regex_ok regex_match l s).
Proof.
  revert s. induction l as [|[p d] l IH]; intros s Hs Hl; [done|]. cbn.
  inversion_clear Hl. apply IH; [|done]. by apply (get_cc_nr p d s).
Qed.
End NoRules.

(** ** Properties *)

(** C23.  The rules cache is transparent.  On a file system that does not
    change, whatever requests came before, whatever the cache has kept,
    expired or evicted and however the clock runs (backwards too),
    [get_cc] returns what the nearest rules file says: going up from the
    directory, the first one that can be opened and parsed, else the
    fallback; its first matching rule, else its default.  A rules file that
    cannot be opened or does not parse counts as absent, and no null
    [shared_ptr] is ever followed. *)
Theorem cc_nearest_rules {T} {HU : UMap bytes (expiring (option ruleset)) T}
    {HL : UMapLaws bytes (expiring (option ruleset)) T}
    world clock json_parse regex_ok regex_match (fs : bytes -> Z + bytes)
    (entries dflt : Z) (fb_cc : bytes) (history : list (bytes * bool)) (path : bytes) (dir : bool) :
  (forall n p, world n p = fs p) -> clock_ok clock -> int_range dflt -> 0 <= entries ->
  Forall (fun x => zlen x.1 < npos) history -> zlen path < npos ->
  exists s0 : cc_rule_cache (T := T), cc_ctor clock entries dflt fb_cc = Ret s0
    /\ let s := get_ccs world clock json_parse regex_ok regex_match history s0 in
       (get_cc world clock json_parse regex_ok regex_match path dir s).1
       = select_cc regex_match
           (nearest json_parse regex_ok fs dflt fb_cc (rules_dir path dir)) path.
Proof.
  intros Hw Hc Hd He Hh Hp.
  destruct (cc_ctor_ok (T := T) clock json_parse regex_ok fs dflt fb_cc Hc Hd entries He)
    as (s0 & E & Hs0 & _).
  exists s0. split; [done|]. apply (get_cc_static _ _ _ _ _ fs dflt fb_cc Hw Hc Hd); [|done].
  by apply get_ccs_static.
Qed.

Definition wx_fs (p : bytes) : Z + bytes :=
  if decide (p = lit "a/.fs123_cc_rules") then inr (lit "A") else
  if decide (p = lit "a/b/.fs123_cc_rules") then inr (lit "broken") else inl ENOENT.
Definition wx_parse (c : bytes) : option json :=
  if decide (c = lit "A") then
    Some (JObj [(lit "re-rules", JArr [JObj [(lit "re", JStr (lit "x")); (lit "cc", JStr (lit "max-age=1"))]]);
                (lit "cc", JStr (lit "max-age=2"))])
  else None.
Definition wx_match (re p : bytes) : outcome bool := Ret (endswith p re).
Definition wx_clock (n : nat) : Z := if (n <=? 3)%nat then 0 else 10 ^ 18.

Lemma cc_nearest_rules_witness :
  exists s0, cc_ctor (T := gmap bytes (expiring (option ruleset))) wx_clock 1 90 (lit "fb") = Ret s0
    /\ let s := get_ccs (fun _ => wx_fs) wx_clock wx_parse (fun _ => true) wx_match
                  [(lit "a/b/c", false); (lit "q", false)] s0 in
       (get_cc (fun _ => wx_fs) wx_clock wx_parse (fun _ => true) wx_match (lit "a/b/x") false s).1
       = Ret (lit "max-age=1").
Proof.
  destruct (cc_nearest_rules (T := gmap bytes (expiring (option ruleset)))
    (fun _ => wx_fs) wx_clock wx_parse (fun _ => true) wx_match wx_fs 1 90 (lit "fb")
    [(lit "a/b/c", false); (lit "q", false)] (lit "a/b/x") false) as (s0 & E & H).
  - reflexivity.
  - intros n. unfold wx_clock. destruct (n <=? 3)%nat; split; vm_compute; congruence.
  - split; vm_compute; congruence.
  - lia.
  - repeat constructor.
  - vm_compute. reflexivity.
  - exists s0. split; [exact E|]. cbv zeta in H |- *. etransitivity; [exact H|]. vm_compute. reflexivity.
Defined.

(** Negative caching ends with the server's first [default_ttl] seconds.
    The fallback is one value with one expiration time, fixed when the
    server starts; from then on, in a tree without rules files, every request
    opens the rules file of every directory up to the root again, whatever
    the cache has been through: the entries it stores have already expired. *)
Theorem cc_fallback_uncached {T} {HU : UMap bytes (expiring (option ruleset)) T}
    {HL : UMapLaws bytes (expiring (option ruleset)) T}
    world clock json_parse regex_ok regex_match
    (entries dflt : Z) (fb_cc : bytes) (history : list (bytes * bool)) (path : bytes) (dir : bool) :
  (forall n p, world n p = inl ENOENT) -> clock_ok clock -> int_range dflt -> 0 <= entries ->
  Forall (fun x => zlen x.1 < npos) history -> zlen path < npos ->
  exists s0 : cc_rule_cache (T := T), cc_ctor clock entries dflt fb_cc = Ret s0
    /\ let s := get_ccs world clock json_parse regex_ok regex_match history s0 in
       (forall n, (tick s <= n)%nat -> clock 0%nat + dflt * ns_per_s < clock n) ->
       opened (get_cc world clock json_parse regex_ok regex_match path dir s).2
       = opened s ++ map rulesfile (ancestors (rules_dir path dir)).
Proof.
  intros Hw Hc Hd He Hh Hp.
  destruct (cc_ctor_ok (T := T) clock json_parse regex_ok (fun _ => inl ENOENT) dflt fb_cc Hc Hd entries He)
    as (s0 & E & (Hwf & _) & Hf & Hm & _).
  exists s0. split; [done|]. cbv zeta. intros Hpast.
  set (fb := Expiring (Some (Ruleset [] fb_cc)) (clock 0%nat + dflt * ns_per_s)) in *.
  assert (nr_inv fb s0) as Hs0.
  { split; [done|]. split; [done|]. intros k e. by rewrite Hm, um_map_empty, lookup_empty. }
  apply (get_cc_nr world clock json_parse regex_ok regex_match fb Hw); [done|by apply get_ccs_nr|done|].
  intros n Hn. unfold expired. cbn. apply Z.ltb_lt. by apply Hpast.
Qed.

(** The clock jumps past the 90 s of the fallback after the third reading. *)
Lemma cc_fallback_uncached_witness :
  exists s0, cc_ctor (T := gmap bytes (expiring (option ruleset))) wx_clock 100 90 (lit "fb") = Ret s0
    /\ let s := get_ccs (fun _ _ => inl ENOENT) wx_clock wx_parse (fun _ => true) wx_match
                  [(lit "a/b", false); (lit "a/b", false)] s0 in
       opened (get_cc (fun _ _ => inl ENOENT) wx_clock wx_parse (fun _ => true) wx_match (lit "a/b") false s).2
       = opened s ++ [lit "a/.fs123_cc_rules"; lit ".fs123_cc_rules"].
Proof.
  destruct (cc_fallback_uncached (T := gmap bytes (expiring (option ruleset)))
    (fun _ _ => inl ENOENT) wx_clock wx_parse (fun _ => true) wx_match 100 90 (lit "fb")
    [(lit "a/b", false); (lit "a/b", false)] (lit "a/b") false) as (s0 & E & H).
  - reflexivity.
  - intros n. unfold wx_clock. destruct (n <=? 3)%nat; split; vm_compute; congruence.
  - split; vm_compute; congruence.
  - lia.
  - repeat constructor.
  - vm_compute. reflexivity.
  - exists s0. split; [exact E|]. apply H. injection E as <-. intros n Hn.
    assert (9 <= n)%nat as H9 by (etransitivity; [|exact Hn]; vm_compute; lia).
    unfold wx_clock. rewrite (proj2 (Nat.leb_gt n 3)) by lia. vm_compute. reflexivity.
Defined.

(** While the fallback is alive the second request opens nothing. *)
Example fallback_cached_at_first :
  match cc_ctor (T := gmap bytes (expiring (option ruleset))) (fun _ => 0) 100 90 (lit "fb") with
  | Ret s0 =>
      let s := get_ccs (fun _ _ => inl ENOENT) (fun _ => 0) wx_parse (fun _ => true) wx_match
                 [(lit "a/b", false)] s0 in
      length (opened s) = 2%nat
      /\ opened (get_cc (fun _ _ => inl ENOENT) (fun _ => 0) wx_parse (fun _ => true) wx_match
                   (lit "a/b") false s).2 = opened s
  | _ => False
  end.
Proof. by vm_compute. Qed.

(** A path that still starts with a slash when it gets here (a request path
    may start with two) makes the lookup leave the export root. *)
Example absolute_rules_file :
  match cc_ctor (T := gmap bytes (expiring (option ruleset))) (fun _ => 0) 100 90 (lit "fb") with
  | Ret s0 => opened (get_cc (fun _ _ => inl ENOENT) (fun _ => 0) wx_parse (fun _ => true) wx_match
                        (lit "/etc/x") false s0).2 = [lit "/etc/.fs123_cc_rules"; lit ".fs123_cc_rules"]
  | _ => False
  end.
Proof. by vm_compute. Qed.
