(* ===== verification/Exportd.v ===== *)
(** * The export server's handlers (exe/fs123p7/exportd_handler.{hpp,cpp})

    [exportd_handler]: attributes, directories, file contents, links, extended
    attributes and statistics of an exported tree, with their validators,
    etags, estale cookies and cache-control headers.

    The operating system is a class [OS] over a world that its calls may
    change; a call answers a value or an errno.  The request is the [rst] of
    ServerReply.v; [owned] says whether the handler's [unique_ptr] still holds
    it.  A reply function takes the pointer by value: whether it is moved
    before or after the other arguments are computed is the compiler's choice,
    the parameter [move_first].

    [complain] and closing of descriptors have no effect on the reply and are
    left out.

    Theorems: each handler answers its request once; a part of a file arrives
    at the client as it was read; validators are strong.  ExportDir has the
    directories. *)

From Stdlib Require Import Ascii String ZArith Lia.
From stdpp Require Import base gmap strings list numbers.
From S2P Require Import Prelude ScanInt StrUtils Threeroe SvTo PathUtils UcharSpan ContentCodec ServerParse.
From S2P Require Import ServerReply Expiring Backend ClientReply StatSer EstaleCookie MaxAge CcRules.

#[local] Open Scope Z_scope.

(** ** The operating system *)

Record dirent := Dirent { d_name : bytes; d_type : Z; d_off : Z }.

Class OS (W : Type) := {
  os_lstat : bytes -> W -> (Z + stat) * W;
  os_open : bytes -> bool -> W -> (Z + Z) * W;          (* read-only, not through a link *)
  os_fstat : Z -> W -> (Z + stat) * W;
  os_getversion : Z -> W -> (Z + Z) * W;
  os_fgetxattr : Z -> Z -> W -> (Z + bytes) * W;
  os_fsetxattr : Z -> bytes -> W -> (Z + unit) * W;     (* XATTR_CREATE *)
  os_now_ns : W -> Z * W;
  os_clock : W -> (Z + Z * Z) * W;                      (* seconds, nanoseconds *)
  os_pread : Z -> Z -> Z -> W -> (Z + bytes) * W;       (* fd, length, offset *)
  os_fdopendir : Z -> W -> (Z + unit) * W;
  os_seekdir : Z -> Z -> W -> (Z + unit) * W;
  os_readdir : Z -> W -> (Z + option dirent) * W;
  os_readlink : bytes -> Z -> W -> (Z + bytes) * W;     (* at most so many bytes *)
  os_statvfs : bytes -> W -> (Z + statvfs) * W;
  os_listxattr : bytes -> Z -> W -> (Z + Z * bytes) * W; (* the result and what is written *)
  os_getxattr : bytes -> bytes -> Z -> W -> (Z + Z * bytes) * W;
}.

Record exportd_options := ExportdOptions {
  export_root : bytes;
  mtim_granularity_ns : Z;
  estale_cookie_src : esc_source_e;
  fake_ino_in_dirent : bool;
  generic_error_cc : bytes;
  opt_bounded_max_age : bool
}.

(** ** Validators *)

Definition timespec2ns (sec nsec : Z) : Z := u64 (u64 (1000000000 * sec) + nsec).

(** [monotonic_validator], at the time [now64]. *)
Definition validator_at (granularity now64 : Z) (sb : stat) : Z :=
  Z.min (timespec2ns (st_mtime sb) (st_mtim_nsec sb)) (u64 (now64 - u64 (2 * granularity))).

(** The bytes of a 64-bit integer in memory. *)
Definition le_bytes64 (z : Z) : bytes :=
  map (fun i => chr (Z.shiftr z (8 * Z.of_nat i))) (seq 0 8).

Definition etag_of (mtim64 esc size : Z) : Z :=
  hash64 (update (le_bytes64 size) (threeroe_ctor mtim64 esc)).

Section Handler.
Context {W T : Type} {HO : OS W} {HU : UMap bytes (expiring (option ruleset)) T}.
Context `{SB : Secretbox}.
(* what ServerReply.v and CcRules.v are about *)
Context (add_header_ok : bytes -> bytes -> bool) (what : exn -> bytes) (random : bytes).
Context (svr : server) (method : method_e) (p : parsed) (requested_len : Z).
Context (world : nat -> bytes -> Z + bytes) (clock : nat -> Z).
Context (json_parse : bytes -> option json).
Context (regex_ok : bytes -> bool) (regex_match : bytes -> bytes -> outcome bool).
Context (move_first : bool) (opts : exportd_options).

Record hst := Hst { hreq : rst; owned : bool; hworld : W; rule_cache : cc_rule_cache (T := T) }.

Definition set_req (r : rst) (s : hst) : hst := Hst r (owned s) (hworld s) (rule_cache s).
Definition set_owned (b : bool) (s : hst) : hst := Hst (hreq s) b (hworld s) (rule_cache s).

Definition on_req {A} (m : M rst A) : M hst A := fun s =>
  let '(r, q) := m (hreq s) in (r, set_req q s).
Definition on_cache {A} (m : M cc_rule_cache A) : M hst A := fun s =>
  let '(r, c) := m (rule_cache s) in (r, Hst (hreq s) (owned s) (hworld s) c).
Definition sys {A} (f : W -> A * W) : M hst A := fun s =>
  let '(r, w) := f (hworld s) in (Ret r, Hst (hreq s) (owned s) w (rule_cache s)).

(** The [sew] wrapper of a call: an error is thrown. *)
Definition sew {A} (f : W -> (Z + A) * W) : M hst A :=
  r ← sys f;
  match r with inl eno => raise (ESystem eno) | inr a => mret a end.

(** [req->...]: following a null pointer is undefined. *)
Definition use_req : M hst unit := s ← get; if owned s then mret tt else lift Undef.

Fixpoint run_prog {A} (g : prog A) : M hst A :=
  match g with
  | Done r => lift r
  | Ioctl_getversion fd k => a ← sys (os_getversion fd); run_prog (k a)
  | Fgetxattr fd n k => a ← sys (os_fgetxattr fd n); run_prog (k a)
  | Fsetxattr_create fd v k => a ← sys (os_fsetxattr fd v); run_prog (k a)
  | Now_ns k => a ← sys os_now_ns; run_prog (k a)
  | Lstat q k => a ← sys (os_lstat q); run_prog (k a)
  | Open q d k => a ← sys (os_open q d); run_prog (k a)
  end.

(** A call [reply(std::move(req), args...)]: the parameter owns the request
    and destroys it at the end, or when the call throws, or when computing
    another argument throws after the move. *)
Definition call_and_destroy (m : M rst unit) : M rst unit :=
  try_M m (fun e => req_dtor what;; raise e);; req_dtor what.

Definition give_reply {A} (args : M hst A) (reply : A -> M rst unit) : M hst unit :=
  if move_first then
    use_req;;
    modify (set_owned false);;
    a ← try_M args (fun e => on_req (req_dtor what);; raise e);
    on_req (call_and_destroy (reply a))
  else
    a ← args;
    use_req;;
    modify (set_owned false);;
    on_req (call_and_destroy (reply a)).

(** ** Cache control and validators *)

Definition cache_control (eno : Z) (path : bytes) (sb : option stat) : M hst bytes :=
  if (eno =? 0) || (eno =? ENOENT) then
    let path := match path with [] => [] | _ :: path' => path' end in
    let isdir := match sb with Some sb => S_ISDIR (st_mode sb) | None => false end in
    cc ← on_cache (get_cc world clock json_parse regex_ok regex_match path isdir);
    match sb with
    | Some sb =>
        if opt_bounded_max_age opts then
          now ← sew os_clock;
          lift (bounded_max_age cc (st_mtime sb) (now : Z * Z).1)
        else mret cc
    | None => mret cc
    end
  else if eno =? ENOTSUP then mret (lit "max-age=86400,stale-while-revalidate=864000")
  else mret (generic_error_cc opts).

Definition monotonic_validator (sb : stat) : M hst Z :=
  now ← sew os_clock;
  mret (validator_at (mtim_granularity_ns opts) (timespec2ns now.1 now.2) sb).

Definition compute_etag (sb : stat) (esc : Z) : M hst Z :=
  mtim64 ← monotonic_validator sb;
  mret (etag_of mtim64 esc (st_size sb)).

(** ** Error replies *)

Definition err_reply (eno : Z) : M hst unit :=
  use_req;;
  give_reply (cache_control eno (path_info p) None)
    (errno_reply add_header_ok what random svr method p eno).

Definition ex_reply (e : exn) : M hst unit :=
  match system_errno e with
  | Some eno => err_reply eno
  | None => give_reply (mret tt) (fun _ => exception_reply what e)
  end.

(** [try { body } catch (std::exception& e) { ex_reply(std::move(req), e); }] *)
Definition or_ex_reply (body : M hst unit) : M hst unit := try_M body ex_reply.

Definition full_path : bytes := c_str (export_root opts ++ path_info p).

(** ** The handlers *)

Definition h_a : M hst unit := or_ex_reply (
  use_req;;
  r ← sys (os_lstat full_path);
  match r with
  | inl eno => err_reply eno
  | inr sb =>
      let go (esc : Z) :=
        mv ← monotonic_validator sb;
        use_req;;
        give_reply (cache_control 0 (path_info p) (Some sb))
          (a_reply add_header_ok what random svr method p (print_stat sb) mv esc) in
      if S_ISREG (st_mode sb) || S_ISDIR (st_mode sb) then
        esc ← run_prog (estale_cookie_sb (estale_cookie_src opts) sb full_path);
        go esc
      else if negb (S_ISLNK (st_mode sb)) then err_reply EINVAL
      else go 0
  end).

(** One entry of a directory; an error while looking for its cookie makes the
    cookie 0. *)
Definition entry_esc (fname : bytes) (de : dirent) : M hst Z :=
  try_M (S := hst)
    (if fake_ino_in_dirent opts then mret 0
     else run_prog (estale_cookie_dtype (estale_cookie_src opts) (fname ++ lit "/" ++ d_name de) (d_type de)))
    (fun _ => mret 0 : M hst Z).

(** [while( (de = sew::readdir(dir)) )]: [None] when [add_dirent] refused, else
    [last_off] with the directory read to its end.  The first component says
    whether the end was reached. *)
Fixpoint read_entries (fuel : nat) (fd : Z) (fname : bytes) (last_off : Z) : M hst (bool * Z) :=
  match fuel with
  | O => lift Undef
  | S fuel =>
      r ← sew (os_readdir fd);
      match r with
      | None => mret (true, last_off)
      | Some de =>
          esc ← entry_esc fname de;
          added ← on_req (add_dirent p (d_name de) (d_type de) (esc : Z));
          if (added : bool) then read_entries fuel fd fname (u64 (d_off de))
          else mret (false, last_off)
      end
  end.

(** Enough rounds: an entry takes up room in the reply. *)
Definition entries_fuel (s : hst) : nat := S (Z.to_nat (avail_back (the_buf (hreq s)))).

Definition T_long := T_i64.

Definition h_d (inm64 : Z) (start : bytes) : M hst unit := or_ex_reply (
  use_req;;
  let fname := full_path in
  r ← sys (os_open fname true);
  match r with
  | inl eno => err_reply eno
  | inr fd =>
      sew (os_fdopendir fd);;
      sb ← sew (os_fstat fd);
      esc ← run_prog (estale_cookie_fd (estale_cookie_src opts) fd sb);
      etag64 ← compute_etag sb esc;
      use_req;;
      cc ← cache_control 0 (path_info p) (Some sb);
      if etag64 =? inm64 then
        give_reply (mret tt) (fun _ => not_modified_reply add_header_ok what p cc)
      else
        let go :=
          s ← get;
          r ← read_entries (entries_fuel s) fd fname 0;
          let '(at_eof, last_off) := (r : bool * Z) in
          give_reply (mret tt) (fun _ =>
            d_reply add_header_ok what random svr method p
              (if at_eof then [] else to_string_u last_off) etag64 esc cc) in
        match start with
        | [] => go
        | _ =>
            match svto T_long start 0 with
            | Ret istart => sew (os_seekdir fd istart);; go
            | Throw _ => ex_reply (EHttp 400)
            | Undef => lift Undef
            end
        end
  end).

(** [buf] is where [bufdata] points in the request's memory. *)
Definition h_f (inm64 len offset bufdata : Z) : M hst unit := or_ex_reply (
  use_req;;
  let fname := full_path in
  r ← sys (os_open fname false);
  match r with
  | inl eno => err_reply eno
  | inr fd =>
      sb ← sew (os_fstat fd);
      if negb (S_ISREG (st_mode sb)) then err_reply EISDIR else
      esc ← run_prog (estale_cookie_fd (estale_cookie_src opts) fd sb);
      etag64 ← compute_etag sb esc;
      use_req;;
      cc ← cache_control 0 (path_info p) (Some sb);
      if etag64 =? inm64 then
        give_reply (mret tt) (fun _ => not_modified_reply add_header_ok what p cc)
      else
        validator ← monotonic_validator sb;
        data ← sew (os_pread fd len offset);
        on_req (on_blob (fun b => memcpy bufdata data;; mret b));;
        give_reply (mret tt) (fun _ =>
          f_reply add_header_ok what random svr method p requested_len (zlen data) validator etag64 esc cc)
  end).

(** [sew::str_readlink]: the buffer is doubled at most three times. *)
Fixpoint readlink_loop (n : nat) (bufsz : Z) (path : bytes) : M hst bytes :=
  target ← sew (os_readlink path bufsz);
  if zlen target <? bufsz then mret target else
  match n with
  | O => raise (ESystem 12)
  | S n => readlink_loop n (2 * bufsz) path
  end.
Definition str_readlink (path : bytes) : M hst bytes := readlink_loop 3 4097 path.

(** [l] catches system errors only; anything else is annotated and leaves. *)
Definition h_l : M hst unit := try_M
  (use_req;;
   give_reply
     (cc ← cache_control 0 (path_info p) None; t ← str_readlink full_path; mret (t, cc))
     (fun x => l_reply add_header_ok what random svr method p x.1 x.2))
  (fun e =>
     if is_system_error e then
       match system_errno e with
       | Some eno => err_reply eno
       | None => use_req;; raise (ENested ERuntime e)
       end
     else raise e).

Definition h_s : M hst unit := or_ex_reply (
  svb ← sew (os_statvfs (c_str (export_root opts)));
  give_reply (mret tt) (fun _ =>
    s_reply add_header_ok what random svr method p (print_statvfs svb)
      (lit "max-age=30,stale-while-revalidate=30,stale-if-error=86400"))).

(** [stats] is the text of the server's own statistics. *)
Definition h_n (stats : bytes) : M hst unit :=
  give_reply (mret tt) (fun _ =>
    n_reply add_header_ok what random svr method p (lit "exportd_handlers: 0" ++ [chr 10]) stats
      (lit "max-age=1,stale-while-revalidate=1")).

(** [buf.resize(sz)] of a buffer of [len] zeros into which [data] was written. *)
Definition resized (len sz : Z) (data : bytes) : bytes :=
  let buf := data ++ replicate (Z.to_nat (len - zlen data)) zero in
  ztake sz buf ++ replicate (Z.to_nat (sz - zlen buf)) zero.

Definition h_x (len : Z) (name : bytes) : M hst unit := or_ex_reply (
  use_req;;
  r ← sys (match name with
           | [] => os_listxattr full_path len
           | _ => os_getxattr full_path (c_str name) len
           end);
  match r with
  | inl eno => err_reply eno
  | inr (sz, data) =>
      use_req;;
      cc ← cache_control 0 (path_info p) None;
      give_reply (mret tt) (fun _ =>
        x_reply add_header_ok what random svr method p
          (if len =? 0 then to_string sz else resized len sz data) cc)
  end).

(** The call the parser asks for ([p] is not a handler of this server: the
    base class refuses it). *)
Definition handle (stats : bytes) (c : hcall) : M hst unit :=
  match c with
  | Call_a => h_a
  | Call_d inm64 start => h_d inm64 start
  | Call_f inm64 len offset bufdata => h_f inm64 len offset bufdata
  | Call_l => h_l
  | Call_s => h_s
  | Call_x len name => h_x len name
  | Call_n => h_n stats
  | Call_p _ => give_reply (mret tt) (fun _ =>
      errno_reply add_header_ok what random svr method p ENOTSUP
        (lit "max-age=86400,stale-while-revalidate=864000"))
  end.

(** The handler's parameter is destroyed when it returns or throws. *)
Definition run_exportd (stats : bytes) (c : hcall) : M hst unit := fun s =>
  match handle stats c s with
  | (Undef, s') => (Undef, s')
  | (_, s') => if owned s' then on_req (req_dtor what) s' else (Ret tt, s')
  end.
End Handler.

(** ** Validators *)

(** The modification time in nanoseconds. *)
Definition mtime_ns (sb : stat) : Z := 1000000000 * st_mtime sb + st_mtim_nsec sb.

Definition mtime_ok (sb : stat) : Prop := 0 <= st_mtime sb /\ 0 <= st_mtim_nsec sb /\ mtime_ns sb < 2 ^ 64.

Lemma timespec2ns_exact sec nsec :
  0 <= sec -> 0 <= nsec -> 1000000000 * sec + nsec < 2 ^ 64 ->
  timespec2ns sec nsec = 1000000000 * sec + nsec.
Proof.
  intros H1 H2 H3. unfold timespec2ns. rewrite (wrap_small 64 (1000000000 * sec)) by lia.
  by rewrite wrap_small by lia.
Qed.

Lemma validator_at_exact g now sb :
  mtime_ok sb -> 0 <= g -> 2 * g <= now < 2 ^ 64 ->
  validator_at g now sb = Z.min (mtime_ns sb) (now - 2 * g).
Proof.
  intros (H1 & H2 & H3) Hg Hn. unfold validator_at.
  rewrite timespec2ns_exact by done. rewrite (wrap_small 64 (2 * g)) by lia.
  by rewrite wrap_small by lia.
Qed.

(** The monotonic validator is a strong validator.  Let [now] and [now']
    be the times of two requests for a file, with clocks that do not go
    backwards and are at least two granularities past the epoch.  If the file
    was modified in between, and the modification was stamped with a time at
    most the granularity before it really happened, the second validator is
    strictly greater.  If it was not, the second is at least the first, and
    the two are equal, to the modification time, once that is two granularities
    old. *)
Theorem validator_strong g sb sb' now now' :
  mtime_ok sb -> mtime_ok sb' -> 0 <= g -> 2 * g <= now -> now <= now' -> now' < 2 ^ 64 ->
  (forall t, now < t <= now' -> t - g <= mtime_ns sb' ->
     validator_at g now sb < validator_at g now' sb')
  /\ (mtime_ns sb' = mtime_ns sb ->
      validator_at g now sb <= validator_at g now' sb'
      /\ (mtime_ns sb + 2 * g <= now ->
          validator_at g now sb = mtime_ns sb /\ validator_at g now' sb' = mtime_ns sb)).
Proof.
  intros H1 H2 Hg Hn Hle Hmax. rewrite !validator_at_exact by (try done; lia). split.
  - intros t Ht Hm. lia.
  - intros ->. lia.
Qed.

Definition wx_file (sec nsec : Z) : stat :=
  Stat 33188 1 0 0 5 sec sec sec 42 nsec nsec nsec 2049 8 4096 0.

Lemma validator_strong_witness :
  validator_at 400000 (10 ^ 18 + 1000) (wx_file 999999999 999999999)
  < validator_at 400000 (10 ^ 18 + 5000) (wx_file 1000000000 0).
Proof.
  destruct (validator_strong 400000 (wx_file 999999999 999999999) (wx_file 1000000000 0)
    (10 ^ 18 + 1000) (10 ^ 18 + 5000)) as [H _].
  - split_and!; vm_compute; congruence.
  - split_and!; vm_compute; congruence.
  - lia.
  - lia.
  - lia.
  - vm_compute. reflexivity.
  - apply (H (10 ^ 18 + 3000)); [lia|vm_compute; congruence].
Defined.

(** A granularity larger than the clock wraps around: the modification time
    is used at once. *)
Example granularity_wraps :
  validator_at (2 ^ 63 - 1) (10 ^ 18) (wx_file 1000000000 0) = 10 ^ 18.
Proof. by vm_compute. Qed.

(** ** Every request is answered *)

Section Answered.
Context {W T : Type} {HO : OS W} {HU : UMap bytes (expiring (option ruleset)) T}.
Context `{SB : Secretbox}.
Context (add_header_ok : bytes -> bytes -> bool) (what : exn -> bytes) (random : bytes).
Context (svr : server) (method : method_e) (p : parsed) (requested_len : Z).
Context (world : nat -> bytes -> Z + bytes) (clock : nat -> Z).
Context (json_parse : bytes -> option json).
Context (regex_ok : bytes -> bool) (regex_match : bytes -> bytes -> outcome bool).
Context (move_first : bool) (opts : exportd_options) (fails : bool).

#[local] Abbreviation st := (hst (W := W) (T := T)).

(** The handler still holds a request that was not answered; it gave it away
    and it was answered (or the one attempt to send failed). *)
Definition unanswered_as (o : bool) (s : st) : Prop := owned s = o /\ unanswered_in fails (hreq s).
Definition holding : st -> Prop := unanswered_as true.
Definition given (s : st) : Prop := owned s = false /\ answered_in fails (hreq s).

(** [m] leaves the request alone, whoever holds it. *)
Definition hquiet {A} (m : M st A) : Prop := forall o s, unanswered_as o s ->
  match (m s).1 with Undef => segv (hreq (m s).2) = false | _ => unanswered_as o (m s).2 end.

(** The handler answers, or throws with the request in its hands or already
    answered. *)
Definition concludes (m : M st unit) (s : st) : Prop :=
  match (m s).1 with
  | Ret _ => given (m s).2
  | Throw _ => holding (m s).2 \/ given (m s).2
  | Undef => segv (hreq (m s).2) = false
  end.
Definition hanswers (m : M st unit) : Prop := forall s, holding s -> concludes m s.

(** So does the body of a catch clause, which may find the request gone. *)
Definition hcatches (m : M st unit) : Prop := forall s, holding s \/ given s -> concludes m s.

Create HintDb exportd.

Lemma hquiet_ret {A} (a : A) : hquiet (mret a).
Proof. by intros o s Hs. Qed.
Lemma hquiet_raise {A} e : hquiet (raise (A := A) e).
Proof. by intros o s Hs. Qed.
Lemma hquiet_lift {A} (m : outcome A) : hquiet (lift m).
Proof. intros o s Hs. pose proof Hs as (_ & _ & _ & H & _). by destruct m. Qed.
Lemma hquiet_get : hquiet get.
Proof. by intros o s Hs. Qed.
Lemma hquiet_bind {A B} (m : M st A) (k : A -> M st B) :
  hquiet m -> (forall a, hquiet (k a)) -> hquiet (m ≫= k).
Proof.
  intros Hm Hk o s Hs. specialize (Hm o s Hs). unfold mbind, M_bind.
  destruct (m s) as [[a|e|] s']; cbn in *; [by apply Hk|done|done].
Qed.
Lemma hquiet_try {A} (m : M st A) h : hquiet m -> (forall e, hquiet (h e)) -> hquiet (try_M m h).
Proof.
  intros Hm Hh o s Hs. specialize (Hm o s Hs). unfold try_M.
  destruct (m s) as [[a|e|] s']; cbn in *; [done|by apply Hh|done].
Qed.
Lemma hquiet_sys {A} (f : W -> A * W) : hquiet (sys f).
Proof. intros o s Hs. unfold sys. by destruct (f (hworld s)). Qed.
Lemma hquiet_sew {A} (f : W -> (Z + A) * W) : hquiet (sew f).
Proof.
  apply hquiet_bind; [apply hquiet_sys|]. intros [?|?]; [apply hquiet_raise|apply hquiet_ret].
Qed.
Lemma hquiet_cache {A} (m : M (cc_rule_cache (T := T)) A) : hquiet (on_cache m).
Proof.
  intros o s Hs. unfold on_cache. pose proof Hs as (_ & _ & _ & H & _).
  destruct (m (rule_cache s)) as [[a|e|] c]; exact Hs || exact H.
Qed.
Lemma hquiet_req {A} (m : M rst A) : quiet m -> hquiet (on_req m).
Proof.
  intros Hm o s [Ho Hs]. unfold on_req. destruct (Hm fails s.(hreq) Hs) as [Hq _].
  destruct (m (hreq s)) as [[a|e|] q]; cbn in *; [done|done|apply Hq].
Qed.
Lemma hquiet_use : hquiet use_req.
Proof.
  intros o s Hs. pose proof Hs as (Ho & _ & _ & H & _). unfold use_req, mbind, M_bind, get.
  by destruct (owned s).
Qed.
Lemma hquiet_prog {A} (g : prog A) : hquiet (run_prog g).
Proof.
  induction g as [r|fd k IH|fd n k IH|fd v k IH|k IH|q k IH|q d k IH]; cbn;
    [apply hquiet_lift|..]; (apply hquiet_bind; [apply hquiet_sys|exact IH]).
Qed.

#[local] Hint Resolve @hquiet_ret @hquiet_raise @hquiet_lift hquiet_get @hquiet_bind @hquiet_try
  @hquiet_sys @hquiet_sew @hquiet_cache @hquiet_req hquiet_use @hquiet_prog : exportd.

Ltac hquiet_tac := repeat match goal with
  | |- hquiet (_ ≫= _) => apply hquiet_bind; [|intros]
  | |- hquiet (match _ with _ => _ end) => case_match
  | |- hquiet (if _ then _ else _) => case_match
  end; auto with exportd reply.

Lemma hquiet_cc eno path sb :
  hquiet (cache_control world clock json_parse regex_ok regex_match opts eno path sb).
Proof. unfold cache_control. hquiet_tac. Qed.

Lemma hquiet_etag sb esc : hquiet (compute_etag opts sb esc).
Proof. unfold compute_etag, monotonic_validator. hquiet_tac. Qed.

Lemma hquiet_entries fuel fd fname off : hquiet (read_entries p opts fuel fd fname off).
Proof.
  revert off. induction fuel as [|fuel IH]; intros off; cbn; [apply hquiet_lift|].
  apply hquiet_bind; [auto with exportd|]. intros [de|]; [|auto with exportd].
  apply hquiet_bind.
  { unfold entry_esc. apply hquiet_try; [case_match|]; auto with exportd. }
  intros esc. apply hquiet_bind; [|intros []; [apply IH|auto with exportd]].
  apply hquiet_req. unfold add_dirent. apply quiet_bind; [apply quiet_check_function|intros _].
  repeat (case_match; auto with reply). apply quiet_bind; [auto with reply|intros r].
  apply quiet_bind; [auto with reply|intros avail]. case_match; auto with reply.
Qed.

Lemma hquiet_readlink n sz path : hquiet (readlink_loop n sz path).
Proof.
  revert sz. induction n as [|n IH]; intros sz; cbn; (apply hquiet_bind; [auto with exportd|]);
    intros t; case_match; auto with exportd.
Qed.

Lemma hanswers_bind {A} (m : M st A) k : hquiet m -> (forall a, hanswers (k a)) -> hanswers (m ≫= k).
Proof.
  intros Hm Hk s Hs. specialize (Hm true s Hs). unfold concludes, mbind, M_bind.
  destruct (m s) as [[a|e|] s']; cbn in *; [by apply Hk|by left|done].
Qed.
Lemma hanswers_raise e : hanswers (raise e).
Proof. intros s Hs. by left. Qed.
Lemma hanswers_undef : hanswers (lift Undef).
Proof. intros s Hs. apply Hs. Qed.
Lemma hanswers_try m h : hanswers m -> (forall e, hcatches (h e)) -> hanswers (try_M m h).
Proof.
  intros Hm Hh s Hs. specialize (Hm s Hs). unfold concludes, try_M in *.
  destruct (m s) as [[a|e|] s']; cbn in *; [done|by apply Hh|done].
Qed.
Lemma hcatches_answers m : hcatches m -> hanswers m.
Proof. intros Hm s Hs. apply Hm. by left. Qed.
Lemma hcatches_raise e : hcatches (raise e).
Proof. by intros s Hs. Qed.

(** Using a request that is gone follows a null pointer. *)
Lemma gone_bind {A} (k : unit -> M st A) s : given s -> (use_req ≫= k) s = (Undef, s).
Proof. intros [Ho _]. unfold use_req, mbind, M_bind, get. by rewrite Ho. Qed.
Lemma hcatches_use k : hanswers (k tt) -> hcatches (use_req ≫= k).
Proof.
  intros Hk s [Hs|Hg].
  - by apply (hanswers_bind _ _ hquiet_use ltac:(by intros [])).
  - unfold concludes. rewrite (gone_bind k s Hg). apply Hg.
Qed.

#[local] Abbreviation give := (give_reply what move_first).

Definition reply_ok (m : M rst unit) : Prop := answers m /\ forall s e, (m s).1 <> Throw e.

Lemma reply_ok_exception e : reply_ok (exception_reply what e).
Proof. split; [apply exception_reply_answers|]. intros s e'. apply exception_reply_nothrow. Qed.

Lemma set_owned_twice (s : st) : owned s = false -> set_owned false (set_owned true s) = s.
Proof. by destruct s as [? [] ? ?]. Qed.

(** The request goes into the reply function, which destroys it. *)
Lemma call_answers m s : holding s -> reply_ok m ->
  concludes (on_req (call_and_destroy what m)) (set_owned false s).
Proof.
  intros [Ho Hs] [H1 H2]. specialize (H1 _ _ Hs). specialize (H2 (hreq s)).
  unfold concludes, on_req, call_and_destroy, mbind, M_bind, try_M.
  change (hreq (set_owned false s)) with (hreq s).
  destruct (m (hreq s)) as [[[]|e|] q]; cbn in H1, H2; [|by destruct (H2 e)|exact (proj1 H1)].
  destruct (req_dtor_answers what fails q) as (_ & E & Ha); [left; apply H1|].
  destruct (req_dtor what q) as [o q']; cbn in E, Ha |- *. subst o. by split.
Qed.

(** Arguments that throw after the pointer was moved destroy the request,
    which answers it. *)
Lemma give_answers {A} (args : M st A) (reply : A -> M rst unit) :
  hquiet args -> (forall a, reply_ok (reply a)) -> hanswers (give args reply).
Proof.
  intros Ha Hr s Hs. pose proof Hs as (Ho & Hu). unfold give_reply. destruct move_first.
  - unfold concludes, use_req, mbind, M_bind, modify, get. rewrite Ho. cbn.
    specialize (Ha false (set_owned false s) (conj eq_refl Hu)). unfold try_M.
    destruct (args (set_owned false s)) as [[a|e|] s']; cbn in Ha |- *; [| |exact Ha].
    + destruct Ha as [Ho' Hu']. pose proof (call_answers (reply a) (set_owned true s') (conj eq_refl Hu') (Hr a)) as H.
      unfold concludes in H. by rewrite set_owned_twice in H.
    + destruct Ha as [Ho' Hu']. unfold on_req.
      destruct (req_dtor_answers what fails (hreq s')) as (_ & E & Hd); [by right|].
      destruct (req_dtor what (hreq s')) as [o q]; cbn in E, Hd |- *. subst o. by right.
  - apply (hanswers_bind _ _ Ha); [|done]. intros a s1 Hs1.
    unfold concludes, use_req, mbind, M_bind, modify, get. rewrite (proj1 Hs1). cbn.
    exact (call_answers (reply a) s1 Hs1 (Hr a)).
Qed.

(** *** The replies the handlers use *)

Ltac replies_ok e :=
  let H := fresh in
  pose proof (run_end_answers add_header_ok what random svr method p requested_len [] e eq_refl) as H;
  cbn [run_end] in H; split; [exact H|]; clear H; intros ? ?.

Lemma errno_ok eno cc : reply_ok (errno_reply add_header_ok what random svr method p eno cc).
Proof. replies_ok (E_reply_errno eno cc). unfold errno_reply. apply or_exception_nothrow. Qed.
Lemma not_modified_ok cc : reply_ok (not_modified_reply add_header_ok what p cc).
Proof. replies_ok (E_reply_not_modified cc). unfold not_modified_reply. apply or_exception_nothrow. Qed.
Lemma a_ok sb v esc cc : reply_ok (a_reply add_header_ok what random svr method p sb v esc cc).
Proof. replies_ok (E_reply_a sb v esc cc). unfold a_reply. apply or_exception_nothrow. Qed.
Lemma d_ok ns e esc cc : reply_ok (d_reply add_header_ok what random svr method p ns e esc cc).
Proof. replies_ok (E_reply_d ns e esc cc). unfold d_reply. apply or_exception_nothrow. Qed.
Lemma f_ok n v e esc cc : reply_ok (f_reply add_header_ok what random svr method p requested_len n v e esc cc).
Proof. replies_ok (E_reply_f n v e esc cc). unfold f_reply. apply or_exception_nothrow. Qed.
Lemma l_ok t cc : reply_ok (l_reply add_header_ok what random svr method p t cc).
Proof. replies_ok (E_reply_l t cc). unfold l_reply, text_reply. apply or_exception_nothrow. Qed.
Lemma s_ok t cc : reply_ok (s_reply add_header_ok what random svr method p t cc).
Proof. replies_ok (E_reply_s t cc). unfold s_reply, text_reply. apply or_exception_nothrow. Qed.
Lemma x_ok t cc : reply_ok (x_reply add_header_ok what random svr method p t cc).
Proof. replies_ok (E_reply_x t cc). unfold x_reply, text_reply. apply or_exception_nothrow. Qed.
Lemma n_ok b t cc : reply_ok (n_reply add_header_ok what random svr method p b t cc).
Proof. replies_ok (E_reply_n b t cc). unfold n_reply, text_reply. apply or_exception_nothrow. Qed.

#[local] Hint Resolve errno_ok not_modified_ok a_ok d_ok f_ok l_ok s_ok x_ok n_ok reply_ok_exception
  hquiet_cc hquiet_etag hquiet_entries hquiet_readlink @give_answers hanswers_raise hanswers_undef : exportd.

Lemma err_catches eno :
  hcatches (err_reply add_header_ok what random svr method p world clock json_parse regex_ok regex_match move_first opts eno).
Proof. apply hcatches_use. auto with exportd. Qed.

Lemma err_answers eno :
  hanswers (err_reply add_header_ok what random svr method p world clock json_parse regex_ok regex_match move_first opts eno).
Proof. apply hcatches_answers, err_catches. Qed.

(** Giving nothing away but the request: a null pointer in either order. *)
Lemma give_catches (m : M rst unit) : reply_ok m -> hcatches (give (mret tt) (fun _ => m)).
Proof.
  intros Hm s [Hs|Hg]; [by apply give_answers; auto with exportd|].
  assert (give (mret tt) (fun _ => m) s = (Undef, s)) as E.
  { unfold give_reply. destruct move_first; [apply (gone_bind _ s Hg)|].
    rewrite (M_bind_Ret _ _ s tt s) by done. apply (gone_bind _ s Hg). }
  unfold concludes. rewrite E. apply Hg.
Qed.

Lemma ex_catches e :
  hcatches (ex_reply add_header_ok what random svr method p world clock json_parse regex_ok regex_match move_first opts e).
Proof. unfold ex_reply. case_match; [apply err_catches|apply give_catches, reply_ok_exception]. Qed.

Lemma ex_answers e :
  hanswers (ex_reply add_header_ok what random svr method p world clock json_parse regex_ok regex_match move_first opts e).
Proof. apply hcatches_answers, ex_catches. Qed.
#[local] Hint Resolve err_answers ex_answers err_catches ex_catches hcatches_raise : exportd.

Ltac hanswers_tac := repeat match goal with
  | |- hanswers (_ ≫= _) => apply hanswers_bind; [hquiet_tac|intros]
  | |- hanswers (match _ with _ => _ end) => case_match
  | |- hanswers (if _ then _ else _) => case_match
  end; auto with exportd.

Lemma handle_answers stats c :
  hanswers (handle add_header_ok what random svr method p requested_len world clock json_parse regex_ok
              regex_match move_first opts stats c).
Proof.
  destruct c; cbn [handle]; [unfold h_a|unfold h_d|unfold h_f|unfold h_l|unfold h_s|unfold h_x|unfold h_n|];
    try (apply hanswers_try; [|intros e; auto with exportd; repeat case_match; auto with exportd;
      apply hcatches_use; auto with exportd]); unfold monotonic_validator, str_readlink; hanswers_tac.
Qed.

End Answered.

Lemma run_exportd_answers {W T} {HO : OS W} {HU : UMap bytes (expiring (option ruleset)) T} `{SB : Secretbox}
    ok what random svr method p rlen world clock json_parse regex_ok regex_match move_first opts stats c fails
    (s : hst (W := W) (T := T)) :
  holding fails s ->
  let r := run_exportd ok what random svr method p rlen world clock json_parse regex_ok regex_match
             move_first opts stats c s in
  segv (hreq r.2) = false /\ (r.1 = Undef \/ (r.1 = Ret tt /\ answered_in fails (hreq r.2))).
Proof.
  intros Hs. cbv zeta. unfold run_exportd.
  pose proof (handle_answers ok what random svr method p rlen world clock json_parse regex_ok regex_match
    move_first opts fails stats c s Hs) as H. unfold concludes in H.
  destruct (handle _ _ _ _ _ _ _ _ _ _ _ _ _ _ _ _ s) as [o s']. cbn [fst snd] in H |- *.
  assert (o = Undef /\ segv (hreq s') = false \/ o <> Undef /\ (holding fails s' \/ given fails s')) as [[-> H1]|[Hn H1]].
  { destruct o; [right|right|left]; auto. }
  { auto. }
  assert (let r := (if owned s' then on_req (req_dtor what) s' else (Ret tt, s')) in
    segv (hreq r.2) = false /\ r.1 = Ret tt /\ answered_in fails (hreq r.2)) as (H2 & H3 & H4).
  { destruct H1 as [[-> Hu]|[-> Ha]]; [|split_and!; [apply Ha|done|done]]. unfold on_req.
    destruct (req_dtor_answers what fails (hreq s')) as (H2 & H3 & H4); [by right|].
    by destruct (req_dtor what (hreq s')). }
  destruct o; [auto|auto|done].
Qed.

(** ** Serving a file *)

Section ServeFile.
Context {W T : Type} {HO : OS W} {HU : UMap bytes (expiring (option ruleset)) T}.
Context `{SB : Secretbox}.
Context (add_header_ok : bytes -> bytes -> bool) (what : exn -> bytes) (random : bytes).
Context (svr : server) (method : method_e) (p : parsed) (requested_len : Z).
Context (world : nat -> bytes -> Z + bytes) (clock : nat -> Z).
Context (json_parse : bytes -> option json).
Context (regex_ok : bytes -> bool) (regex_match : bytes -> bytes -> outcome bool).
Context (move_first : bool) (opts : exportd_options).
Context (K : W -> cc_rule_cache (T := T) -> Prop).

#[local] Abbreviation st := (hst (W := W) (T := T)).

(** [m] answers, keeps [K], and leaves the request alone. *)
Definition yields {A} (m : M st A) (Q : A -> Prop) : Prop := forall s,
  K (hworld s) (rule_cache s) ->
  exists a w c, m s = (Ret a, Hst (hreq s) (owned s) w c) /\ Q a /\ K w c.

Lemma yields_bind {A B} (m : M st A) (k : A -> M st B) P Q :
  yields m P -> (forall a, P a -> yields (k a) Q) -> yields (m ≫= k) Q.
Proof.
  intros Hm Hk s Hs. destruct (Hm s Hs) as (a & w & c & E & Ha & Hs1).
  destruct (Hk a Ha (Hst (hreq s) (owned s) w c) Hs1) as (b & w' & c' & E2 & Hb & Hs2).
  exists b, w', c'. by rewrite (M_bind_Ret _ _ _ _ _ E).
Qed.
Lemma yields_ret {A} (a : A) (Q : A -> Prop) : Q a -> yields (mret a) Q.
Proof. intros Hq [r o w c] Hs. by exists a, w, c. Qed.

(** An open regular file, as the system calls of one request see it: what the
    clock may read is [Now], what the rules files may give for it [CC]. *)
Context (Now : Z * Z -> Prop) (CC : bytes -> Prop).

Record file_view (sb : stat) (esc len offset : Z) (data : bytes) : Prop := {
  fv_open : exists fd, yields (sys (os_open (full_path p opts) false)) (fun r => r = inr fd)
    /\ yields (sew (os_fstat fd)) (fun r => r = sb)
    /\ yields (run_prog (estale_cookie_fd (estale_cookie_src opts) fd sb)) (fun r => r = esc)
    /\ yields (sew (os_pread fd len offset)) (fun r => r = data);
  fv_clock : yields (sew os_clock) Now;
  fv_cc : yields (cache_control world clock json_parse regex_ok regex_match opts 0 (path_info p) (Some sb)) CC;
  fv_reg : S_ISREG (st_mode sb) = true
}.

(** The monotonic validator of a reading of the clock. *)
Definition validator_of (sb : stat) (t : Z * Z) : Z :=
  validator_at (mtim_granularity_ns opts) (timespec2ns t.1 t.2) sb.

Lemma validator_of_range sb t : 0 <= validator_of sb t < 2 ^ 64.
Proof.
  unfold validator_of, validator_at, timespec2ns.
  pose proof (wrap_range 64 (u64 (1000000000 * st_mtime sb) + st_mtim_nsec sb) ltac:(lia)).
  pose proof (wrap_range 64 (u64 (u64 (1000000000 * t.1) + t.2) - u64 (2 * mtim_granularity_ns opts)) ltac:(lia)).
  lia.
Qed.

Lemma validator_yields sb :
  yields (sew os_clock) Now ->
  yields (monotonic_validator opts sb) (fun v => exists t, Now t /\ v = validator_of sb t).
Proof.
  intros Hc. unfold monotonic_validator. eapply yields_bind; [exact Hc|]. intros now Hn.
  apply yields_ret. by exists now.
Qed.

Lemma etag_yields sb esc :
  yields (sew os_clock) Now ->
  yields (compute_etag opts sb esc)
    (fun e => exists t, Now t /\ e = etag_of (validator_of sb t) esc (st_size sb)).
Proof.
  intros Hc. unfold compute_etag. eapply yields_bind; [by apply validator_yields|].
  intros v (t & Ht & ->). apply yields_ret. by exists t.
Qed.

Lemma use_req_ok (s : st) : owned s = true -> use_req s = (Ret tt, s).
Proof. intros Ho. unfold use_req, mbind, M_bind, get. by rewrite Ho. Qed.

Lemma give_nothing (reply : M rst unit) (s : st) q :
  owned s = true -> reply (hreq s) = (Ret tt, q) -> answered q ->
  give_reply what move_first (mret tt) (fun _ => reply) s
  = (Ret tt, Hst q false (hworld s) (rule_cache s)).
Proof.
  intros Ho E Ha. unfold give_reply.
  assert (on_req (call_and_destroy what reply) (set_owned false s)
    = (Ret tt, Hst q false (hworld s) (rule_cache s))) as E2.
  { unfold on_req, call_and_destroy, mbind, M_bind, try_M. cbn [hreq set_owned]. rewrite E.
    unfold req_dtor, mbind, M_bind, get. destruct Ha as (-> & _). done. }
  destruct move_first.
  - rewrite (M_bind_Ret _ _ _ _ _ (use_req_ok s Ho)).
    rewrite (M_bind_Ret _ _ s tt (set_owned false s)) by done. exact E2.
  - rewrite (M_bind_Ret _ _ s tt s) by done.
    rewrite (M_bind_Ret _ _ _ _ _ (use_req_ok s Ho)).
    rewrite (M_bind_Ret _ _ s tt (set_owned false s)) by done. exact E2.
Qed.

(** What the f handler does with an open regular file: it answers 304 when
    the tag it computes is the request's, and otherwise reads exactly what was
    asked into the request's buffer and replies with it. *)
Lemma h_f_serves inm64 len offset bufdata sb esc data (s : st) :
  file_view sb esc len offset data -> K (hworld s) (rule_cache s) -> owned s = true ->
  (forall cc, exists q, not_modified_reply add_header_ok what p cc (hreq s) = (Ret tt, q) /\ answered q) ->
  (forall v e cc, 0 <= v < 2 ^ 64 -> exists q1 q2,
     on_blob (fun b => memcpy bufdata data;; mret b) (hreq s) = (Ret tt, q1)
     /\ f_reply add_header_ok what random svr method p requested_len (zlen data) v e esc cc q1 = (Ret tt, q2)
     /\ answered q2) ->
  exists s' t1 cc, h_f add_header_ok what random svr method p requested_len world clock json_parse regex_ok
      regex_match move_first opts inm64 len offset bufdata s = (Ret tt, s')
    /\ Now t1 /\ CC cc /\ owned s' = false
    /\ let etag := etag_of (validator_of sb t1) esc (st_size sb) in
       if etag =? inm64 then
         not_modified_reply add_header_ok what p cc (hreq s) = (Ret tt, hreq s')
       else exists t2 q1, Now t2
         /\ on_blob (fun b => memcpy bufdata data;; mret b) (hreq s) = (Ret tt, q1)
         /\ f_reply add_header_ok what random svr method p requested_len (zlen data)
              (validator_of sb t2) etag esc cc q1
            = (Ret tt, hreq s').
Proof.
  intros [(fd & Hopen & Hstat & Hesc & Hread) Hclock Hcc Hreg] HK Ho Hnm Hf.
  destruct s as [r o w c]. cbn [hreq owned hworld rule_cache] in *. subst o.
  destruct (Hopen (Hst r true w c) HK) as (? & w1 & c1 & E1 & -> & K1).
  destruct (Hstat (Hst r true w1 c1) K1) as (? & w2 & c2 & E2 & -> & K2).
  destruct (Hesc (Hst r true w2 c2) K2) as (? & w3 & c3 & E3 & -> & K3).
  destruct (etag_yields sb esc Hclock (Hst r true w3 c3) K3) as (e & w4 & c4 & E4 & (t1 & Ht1 & ->) & K4).
  destruct (Hcc (Hst r true w4 c4) K4) as (cc & w5 & c5 & E5 & Hcc' & K5).
  cbn [hreq owned] in *. unfold h_f, or_ex_reply, try_M.
  rewrite (M_bind_Ret _ _ _ _ _ (use_req_ok (Hst r true w c) eq_refl)). cbv zeta.
  rewrite (M_bind_Ret _ _ _ _ _ E1), (M_bind_Ret _ _ _ _ _ E2), Hreg. cbn [negb].
  rewrite (M_bind_Ret _ _ _ _ _ E3), (M_bind_Ret _ _ _ _ _ E4).
  rewrite (M_bind_Ret _ _ _ _ _ (use_req_ok (Hst r true w4 c4) eq_refl)), (M_bind_Ret _ _ _ _ _ E5).
  destruct (etag_of (validator_of sb t1) esc (st_size sb) =? inm64) eqn:Ee.
  - destruct (Hnm cc) as (q & Eq & Ha).
    rewrite (give_nothing _ (Hst r true w5 c5) q eq_refl Eq Ha).
    eexists _, t1, cc. split; [reflexivity|]. split; [done|]. split; [done|]. split; [done|]. by rewrite Ee.
  - destruct (validator_yields sb Hclock (Hst r true w5 c5) K5) as (v & w6 & c6 & E6 & (t2 & Ht2 & ->) & K6).
    destruct (Hread (Hst r true w6 c6) K6) as (? & w7 & c7 & E7 & -> & K7). cbn [hreq owned] in *.
    destruct (Hf (validator_of sb t2) (etag_of (validator_of sb t1) esc (st_size sb)) cc (validator_of_range sb t2)) as (q1 & q2 & Eq1 & Eq2 & Ha).
    rewrite (M_bind_Ret _ _ _ _ _ E6), (M_bind_Ret _ _ _ _ _ E7).
    assert (on_req (on_blob (fun b => memcpy bufdata data;; mret b)) (Hst r true w7 c7)
      = (Ret tt, Hst q1 true w7 c7)) as Ew by (unfold on_req; cbn [hreq]; by rewrite Eq1).
    rewrite (M_bind_Ret _ _ _ _ _ Ew), (give_nothing _ (Hst q1 true w7 c7) q2 eq_refl Eq2 Ha).
    eexists _, t1, cc. split; [reflexivity|]. split; [done|]. split; [done|]. split; [done|].
    rewrite Ee. exists t2, q1. split; [done|]. split; [exact Eq1|exact Eq2].
Qed.
End ServeFile.

(** ** Properties *)

(** A request with no If-None-Match is given to the handler with the tag 0. *)
Lemma no_inm_tag `{SB : Secretbox} svr h p inm64 len offset bufdata b rlen :
  parse_and_dispatch svr h = Ret (p, (Call_f inm64 len offset bufdata, b, rlen)) ->
  inm p = [] -> inm64 = 0.
Proof.
  unfold parse_and_dispatch. intros HP Hi.
  apply bind_Ret in HP as ([p' i] & E1 & HP). apply bind_Ret in HP as ([[c b'] n] & E2 & HP).
  injection HP as -> -> -> ->.
  assert (i = inm64) as <-.
  { unfold dispatch in E2.
    repeat case_match; try discriminate E2; unfold dispatch_f, dispatch_d, dispatch_x in E2;
      repeat (inv_ret; case_match); inv_ret; congruence. }
  unfold parse_request, parse_inm in E1. inv_ret. injection E1 as <- <-. cbn [inm] in Hi.
  match goal with E : inm_demangle _ _ = Ret _ |- _ => rewrite Hi in E; injection E; congruence end.
Qed.

(** C5.  Reading a file end to end.  The client asks for a part of a file in
    protocol 7.3, in plaintext; the server's parser has turned the request
    into a call of the /f handler (ServerParse.v); for the system calls of this
    request the file is a readable regular file with attributes [sb], cookie
    [esc] and, in the part asked for, [data]; the clock reads times in [Now],
    the rules give a cache control in [CC], and the reply can be handed over.
    Then the handler answers once.  It computes the etag of the monotonic
    validator at a time the clock read, the cookie and the size.  If that is the
    tag in the request, the answer is a 304 with the request's tag and no body
    (a request without If-None-Match has the tag 0; should the etag be 0, the
    answer is an internal error).  If not, it is a 200 whose ETag is the etag
    computed, and the client's [decoded_reply] of its body succeeds with exactly
    [data], errno 0, the cookie [esc], and the validator of a time the clock
    read. *)
Theorem file_read_end_to_end {W T} {HO : OS W} {HU : UMap bytes (expiring (option ruleset)) T} `{SB : Secretbox}
    what random svr h p world clock json_parse regex_ok regex_match move_first opts K Now CC stats
    inm64 len offset bufdata b rlen sb esc data (w : W) (c : cc_rule_cache (T := T))
    g from urlstem base age uri :
  parse_and_dispatch svr h = Ret (p, (Call_f inm64 len offset bufdata, Some b, rlen)) ->
  rq_minor p = 3 -> function p = lit "f" -> may_use_secrets svr (function p) = false ->
  kvpairs p = [(FS123_REQUEST, uri)] -> zlen uri <= 1200 ->
  file_view p world clock json_parse regex_ok regex_match opts K Now CC sb esc len offset data -> K w c ->
  zlen data <= len -> 0 <= esc < 2 ^ 64 ->
  proto_minor g = 3 -> valid from = true -> reply_max_age from = Ret age -> add_sigil_version g [] = Ret base ->
  (inm p = [] -> inm64 = 0)
  /\ exists s' t1 cc, Now t1 /\ CC cc
    /\ run_exportd (fun _ _ => true) what random svr GET p rlen world clock json_parse regex_ok regex_match
      move_first opts stats (Call_f inm64 len offset bufdata)
      (Hst (rst0 (kvpairs p) (Some b)) true w c) = (Ret tt, s')
    /\ let etag := etag_of (validator_of opts sb t1) esc (st_size sb) in
       if etag =? inm64 then
         sent (hreq s')
         = [if decide (inm p = []) then Response 500 [] (what (EHttp 500) ++ [chr 10])
            else Response 304 [(lit "ETag", inm p); (lit "Cache-control", cc)] []]
       else exists body t2 d, Now t2
         /\ sent (hreq s') = [Response 200 (plaintext_headers GET [] cc body etag) body]
         /\ decoded_reply 5 g from body urlstem = Some (Ret d)
         /\ d_content d = data /\ d_eno d = 0 /\ d_estale_cookie d = Ret esc
         /\ d_validator d = Ret (validator_of opts sb t2)
         /\ (uri = base ++ urlstem -> d_mismatches d = 0).
Proof.
  intros Hpar Hmin Hfn Hsec Hkv Huri Hview HK Hdata Hesc Hg Hfrom Hage Hbase.
  split; [exact (no_inm_tag _ _ _ _ _ _ _ _ _ Hpar)|]. apply parsed_args_ok in Hpar as Hargs.
  pose proof Hargs as (_ & Hlen & _). set (r0 := rst0 (kvpairs p) (Some b)).
  assert (forall cc, exists q, not_modified_reply (fun _ _ => true) what p cc r0 = (Ret tt, q) /\ answered q
    /\ sent q = [if decide (inm p = []) then Response 500 [] (what (EHttp 500) ++ [chr 10])
                 else Response 304 [(lit "ETag", inm p); (lit "Cache-control", cc)] []]) as Hnm.
  { intros cc. unfold not_modified_reply, or_exception, try_M, answered, answered_in.
    destruct (decide (inm p = [])); eexists; (split; [reflexivity|]); split_and!; try done; try by eexists.
    cbn -[chr]. by rewrite app_nil_r. }
  destruct (h_f_serves (fun _ _ => true) what random svr GET p rlen world clock json_parse regex_ok regex_match
      move_first opts K Now CC inm64 len offset bufdata sb esc data (Hst r0 true w c))
    as (s' & t1 & cc & E & Ht1 & Hcc & Ho & Hs'); [done|done|done| | |].
  { intros cc. destruct (Hnm cc) as (q & Eq & Ha & _). by exists q. }
  { intros v e cc Hv.
    destruct (f_reply_sends what random svr p len offset bufdata b rlen data v e esc cc uri)
      as (q1 & q2 & E1 & E2 & Ha & _); [exact Hargs|done..|]. by exists q1, q2. }
  exists s', t1, cc. split; [done|]. split; [done|]. split.
  { unfold run_exportd. cbn [handle]. rewrite E. by rewrite Ho. }
  cbv zeta in *. destruct (etag_of _ esc (st_size sb) =? inm64).
  - cbn [hreq] in Hs'. destruct (Hnm cc) as (q & Eq & _ & Hq). rewrite Eq in Hs'. by injection Hs' as <-.
  - destruct Hs' as (t2 & q1 & Ht2 & E1 & E2). cbn [hreq] in E1.
    destruct (f_reply_sends what random svr p len offset bufdata b rlen data (validator_of opts sb t2)
        (etag_of (validator_of opts sb t1) esc (st_size sb)) esc cc uri) as (q1' & q2 & E1' & E2' & _ & Hsent);
      [exact Hargs|try done; apply validator_of_range..|].
    unfold r0 in E1. rewrite E1 in E1'. injection E1' as <-. rewrite E2 in E2'. injection E2' as <-.
    destruct (decode_f_body g from urlstem base age uri esc (validator_of opts sb t2) data)
      as (d & Hd & D); [done|done|done|done|done|unfold max_reply_size, validator_space in *; lia|done|
        apply validator_of_range|].
    exists (body73 (f_pairs uri esc (validator_of opts sb t2)) data), t2, d. split; [done|]. split; [exact Hsent|]. by split.
Qed.

(** A server exporting one file, "hello", at a fixed time. *)
#[local] Instance wx_os : OS unit := {
  os_lstat _ w := (inr (wx_file 1000 0), w);
  os_open _ _ w := (inr 3, w);
  os_fstat _ w := (inr (wx_file 1000 0), w);
  os_getversion _ w := (inr 33, w);
  os_fgetxattr _ _ w := (inl ENODATA, w);
  os_fsetxattr _ _ w := (inr tt, w);
  os_now_ns w := (10 ^ 18, w);
  os_clock w := (inr (10 ^ 9, 5), w);
  os_pread _ len off w := (inr (ztake len (zdrop off (lit "hello"))), w);
  os_fdopendir _ w := (inr tt, w);
  os_seekdir _ _ w := (inr tt, w);
  os_readdir _ w := (inr None, w);
  os_readlink _ _ w := (inl EINVAL, w);
  os_statvfs _ w := (inr wx_statvfs, w);
  os_listxattr _ _ w := (inr (0, []), w);
  os_getxattr _ _ _ w := (inl ENODATA, w)
}.

Definition wx_opts : exportd_options :=
  ExportdOptions (lit "/export") 400000 ESC_IOC_GETVERSION false (lit "max-age=30") true.
Definition wx_cc0 : cc_rule_cache (T := gmap bytes (expiring (option ruleset))) :=
  CcCache (cache_ctor 10) 90 (Expiring (Some (Ruleset [] (lit "max-age=120"))) 0) 0 0 0 [] 0.

Lemma exportd_ex : exists p, parse_and_dispatch (H := toy_box) svr_ex hf_ex
    = Ret (p, (Call_f 77 1024 0 1356, Some buf_ex, 1024))
  /\ rq_minor p = 3 /\ function p = lit "f" /\ kvpairs p = [(FS123_REQUEST, uri_ex)]
  /\ path_info p = lit "/a file".
Proof.
  eexists. split; [vm_compute; reflexivity|].
  repeat split; vm_compute; congruence.
Qed.

Definition wx_K (w : unit) : cc_rule_cache (T := gmap bytes (expiring (option ruleset))) -> Prop :=
  cc_inv wx_parse (fun _ => true) wx_fs 90 (lit "max-age=120").

Lemma wx_K0 : wx_K tt wx_cc0.
Proof.
  split; [split_and!; by vm_compute|]. split; [done|]. split; [done|].
  intros k e. cbn. by rewrite lookup_empty.
Qed.

Lemma wx_view p : path_info p = lit "/a file" ->
  file_view p (fun _ => wx_fs) (fun _ => 0) wx_parse (fun _ => true) wx_match wx_opts wx_K
    (fun t => t = (10 ^ 9, 5)) (fun cc => cc = lit "max-age=120")
    (wx_file 1000 0) 33 1024 0 (lit "hello").
Proof.
  intros Hp. split.
  - exists 3. split_and!; intros s Hs; eexists _, (hworld s), _; (split; [reflexivity|]); by split.
  - intros s Hs. eexists _, (hworld s), _. split; [reflexivity|]. by split.
  - intros s Hs. rewrite Hp. unfold cache_control. cbn [Z.eqb orb].
    destruct (get_cc_static (fun _ => wx_fs) (fun _ => 0) wx_parse (fun _ => true) wx_match wx_fs 90
      (lit "max-age=120") ltac:(done) ltac:(intros n; vm_compute; intuition congruence)
      ltac:(vm_compute; intuition congruence) (lit "a file") false (rule_cache s) Hs) as [H1 H2];
      [by vm_compute|].
    unfold on_cache, mbind, M_bind. change (S_ISDIR (st_mode (wx_file 1000 0))) with false.
    cbn [lit list_ascii_of_string] in *.
    destruct (get_cc _ _ _ _ _ _ _ _) as [r c]. cbn [fst snd] in H1, H2. subst r.
    change (select_cc _ _ _) with (Ret (A := bytes) (lit "max-age=120")). cbn -[bounded_max_age].
    eexists _, (hworld s), c. split; [|by split]. reflexivity.
  - done.
Qed.

Lemma file_read_end_to_end_witness :
  exists p, (inm p = [] -> 77 = 0)
  /\ exists s' t1 cc, t1 = (10 ^ 9, 5) /\ cc = lit "max-age=120"
    /\ run_exportd (SB := toy_box) (fun _ _ => true) (fun _ => []) [] svr_ex GET p 1024 (fun _ => wx_fs) (fun _ => 0)
      wx_parse (fun _ => true) wx_match false wx_opts [] (Call_f 77 1024 0 1356)
      (Hst (rst0 (kvpairs p) (Some buf_ex)) true tt wx_cc0) = (Ret tt, s')
    /\ let etag := etag_of (validator_of wx_opts (wx_file 1000 0) t1) 33 5 in
       if etag =? 77 then
         sent (hreq s')
         = [if decide (inm p = []) then Response 500 [] ([] ++ [chr 10])
            else Response 304 [(lit "ETag", inm p); (lit "Cache-control", cc)] []]
       else exists body t2 d, t2 = (10 ^ 9, 5)
         /\ sent (hreq s') = [Response 200 (plaintext_headers GET [] cc body etag) body]
         /\ decoded_reply 5 g73 from_ex body (lit "/f/a%20file?1;0") = Some (Ret d)
         /\ d_content d = lit "hello" /\ d_eno d = 0 /\ d_estale_cookie d = Ret 33
         /\ d_validator d = Ret (validator_of wx_opts (wx_file 1000 0) t2)
         /\ (uri_ex = lit "/fs123/7/3" ++ lit "/f/a%20file?1;0" -> d_mismatches d = 0).
Proof.
  destruct exportd_ex as (p & Hp & H1 & H2 & H3 & H5). exists p.
  apply (file_read_end_to_end (SB := toy_box) (fun _ => []) [] svr_ex hf_ex p (fun _ => wx_fs) (fun _ => 0)
    wx_parse (fun _ => true) wx_match false wx_opts wx_K (fun t => t = (10 ^ 9, 5)) (fun cc => cc = lit "max-age=120")
    [] 77 1024 0 1356 buf_ex 1024 (wx_file 1000 0) 33
    (lit "hello") tt wx_cc0 g73 from_ex (lit "/f/a%20file?1;0") (lit "/fs123/7/3") 1000 uri_ex);
    [exact Hp|exact H1|exact H2| |exact H3|vm_compute; discriminate|exact (wx_view p H5)|exact wx_K0|
     vm_compute; discriminate|lia|reflexivity|reflexivity|vm_compute; reflexivity|vm_compute; reflexivity].
  rewrite H2. reflexivity.
Defined.


(** When the pointer is moved first, a /l request for something that is not a
    symbolic link makes the handler follow a null pointer; when it is moved
    last, it is answered with the errno. *)
Example readlink_move_order : forall p, path_info p = lit "/a file" -> rq_minor p = 2 -> function p = lit "l" ->
  let run first := run_exportd (SB := toy_box) (fun _ _ => true) (fun _ => []) [] svr_ex GET p 0 (fun _ => wx_fs)
    (fun _ => 0) wx_parse (fun _ => true) wx_match first wx_opts [] Call_l
    (Hst (rst0 [] None) true tt wx_cc0) in
  (run true).1 = Undef
  /\ (run false).1 = Ret tt /\ map rs_status (sent (hreq (run false).2)) = [200].
Proof.
  intros [ae m pre fn pi q esid i kv] Hp Hm Hf. cbn in Hp, Hm, Hf. subst. by vm_compute.
Qed.
