(* ===== verification/ExportDir.v ===== *)
(** * Listing a directory end to end (exe/fs123p7/exportd_handler.cpp, lib/fs123server.cpp, exe/fs123p7/app_mount.cpp)

    The /d handler of Exportd.v fills a reply with as many entries as fit and
    says where the next request is to start; the client follows that until it
    is empty.  The directory is a stable list of entries behind [readdir] and
    [seekdir], which finds a position again by its [d_off].

    Theorem: the client that follows [chunk_next_start] gets every entry of
    the directory exactly once and in order, and stops. *)

From Stdlib Require Import Ascii String ZArith Lia.
From stdpp Require Import base gmap strings list numbers.
From S2P Require Import Prelude ScanInt StrUtils Threeroe SvTo Netstring UcharSpan ContentCodec Backend ServerParse.
From S2P Require Import ServerReply ClientReply Expiring PathUtils StatSer EstaleCookie MaxAge CcRules Exportd.

#[local] Open Scope Z_scope.

(** ** One page *)

(** How many texts fit in a room. *)
Fixpoint fit (room : Z) (l : list bytes) : nat :=
  match l with
  | e :: l' => if zlen e <=? room then S (fit (room - zlen e) l') else O
  | [] => O
  end.

Definition entry_ok (de : dirent) : Prop := 1 <= zlen (d_name de) <= 255.

(** The entry's text with the cookie [esc]. *)
Definition entry_text (esc : dirent -> Z) (de : dirent) : bytes :=
  dirent_entry (d_name de) (d_type de) (esc de).

Lemma entry_text_pos esc de : 1 <= zlen (entry_text esc de).
Proof.
  unfold entry_text, dirent_entry. rewrite !zlen_app. change (zlen [chr 10]) with 1.
  pose proof (zlen_nonneg (netstring (d_name de))). pose proof (zlen_nonneg (to_string (d_type de))).
  pose proof (zlen_nonneg (to_string (esc de))). zlia.
Qed.

(** What the reply keeps free behind the entries. *)
Definition tail_room : Z := secretbox_padding + final_netstring_bytes.

Lemma add_dirent_room p name ty esc s c front back :
  function p = lit "d" -> 1 <= zlen name <= 255 -> shows s c front back -> tail_room <= back < 2 ^ 62 ->
  zlen (dirent_entry name ty esc) < 2 ^ 62 ->
  if zlen (dirent_entry name ty esc) <=? back - tail_room then
    exists s', add_dirent p name ty esc s = (Ret true, s')
      /\ shows s' (c ++ dirent_entry name ty esc) front (back - zlen (dirent_entry name ty esc))
      /\ same_reply s s'
  else add_dirent p name ty esc s = (Ret false, s).
Proof.
  intros Hfn Hname Hs Hback He. unfold add_dirent, check_function, tail_room in *.
  rewrite Hfn, decide_True by done. rewrite (M_bind_Ret _ _ s tt s) by done.
  rewrite (proj2 (Z.ltb_ge _ _)) by lia. rewrite (proj2 (Z.eqb_neq _ _)) by lia.
  set (entry := dirent_entry name ty esc) in *. cbv zeta. rewrite (M_bind_Ret _ _ s s s) by done.
  pose proof Hs as (b & Hb & _ & _ & _ & _ & Hav). unfold the_buf. rewrite Hb.
  unfold buf_content_avail_back. rewrite Hav. rewrite (proj2 (Z.ltb_ge _ _)) by lia.
  rewrite (M_bind_Ret _ _ s (back - secretbox_padding - final_netstring_bytes) s) by done.
  destruct (Z.leb_spec (zlen entry) (back - (secretbox_padding + final_netstring_bytes))).
  - rewrite (proj2 (Z.ltb_ge _ _)) by lia.
    destruct (buf_append_shows s c front back entry Hs) as (s' & E & Hs' & Hr);
      [unfold secretbox_padding, final_netstring_bytes in *; lia|done|].
    exists s'. rewrite (M_bind_Ret _ _ _ _ _ E). by split.
  - by rewrite (proj2 (Z.ltb_lt _ _)) by lia.
Qed.

Section Page.
Context {W T : Type} {HO : OS W} {HU : UMap bytes (expiring (option ruleset)) T}.
Context `{SB : Secretbox}.
Context (p : parsed) (opts : exportd_options) (fd : Z) (fname : bytes).

#[local] Abbreviation st := (hst (W := W) (T := T)).
#[local] Abbreviation cache := (cc_rule_cache (T := T)).

(** The directory stream stands at entry [i]. *)
Context (D : nat -> W -> cache -> Prop) (ents : list dirent) (esc : dirent -> Z).

Definition dir_reads : Prop := forall i (s : st), D i (hworld s) (rule_cache s) ->
  exists w c, sew (os_readdir fd) s = (Ret (ents !! i), Hst (hreq s) (owned s) w c)
    /\ match ents !! i with Some _ => D (S i) w c | None => D i w c end.

Definition dir_escs : Prop := forall i de, ents !! i = Some de ->
  yields (D (S i)) (entry_esc opts fname de) (fun e => e = esc de).

Context (Hreads : dir_reads) (Hescs : dir_escs) (Hok : Forall entry_ok ents)
  (Hsmall : Forall (fun de => zlen (entry_text esc de) < 2 ^ 62) ents) (Hfn : function p = lit "d").

Definition texts : list bytes := map (entry_text esc) ents.

(** Where the next request is to start after [n] entries from [i] on. *)
Definition last_off_after (i n : nat) (last : Z) : Z :=
  match n with
  | O => last
  | S n' => match ents !! (i + n')%nat with Some de => u64 (d_off de) | None => last end
  end.

Lemma texts_drop i de : ents !! i = Some de -> drop i texts = entry_text esc de :: drop (S i) texts.
Proof.
  intros Hi. unfold texts. apply drop_S. by rewrite list_lookup_fmap, Hi.
Qed.

Lemma fit_le room l : (fit room l <= length l)%nat.
Proof.
  revert room. induction l as [|e l IH]; intros room; cbn; [done|]. case_match; [|lia].
  specialize (IH (room - zlen e)). lia.
Qed.

(** Reading a page: the entries that fit, from where the stream stands. *)
Lemma read_entries_page fuel i last (s : st) c front back :
  D i (hworld s) (rule_cache s) -> (i <= length ents)%nat ->
  shows (hreq s) c front back -> tail_room <= back < 2 ^ 62 -> back < Z.of_nat fuel ->
  let n := fit (back - tail_room) (drop i texts) in
  let page := mjoin (take n (drop i texts)) in
  exists w rc q,
    read_entries p opts fuel fd fname last s
      = (Ret (bool_decide ((i + n)%nat = length ents), last_off_after i n last), Hst q (owned s) w rc)
    /\ shows q (c ++ page) front (back - zlen page) /\ same_reply (hreq s) q
    /\ exists j, D j w rc.
Proof.
  revert i last s c back. induction fuel as [|fuel IH]; intros i last s c back HD Hi Hs Hb Hf; cbv zeta.
  { unfold tail_room, secretbox_padding, final_netstring_bytes in *. lia. }
  cbn [read_entries]. destruct (Hreads i s HD) as (w1 & c1 & E1 & HD1).
  rewrite (M_bind_Ret _ _ _ _ _ E1).
  destruct (ents !! i) as [de|] eqn:Ei.
  2: { apply lookup_ge_None in Ei. exists w1, c1, (hreq s).
    rewrite drop_ge by (unfold texts; rewrite length_map; lia). cbn [fit take mjoin list_join last_off_after].
    rewrite app_nil_r, bool_decide_eq_true_2 by lia. change (zlen []) with 0. rewrite Z.sub_0_r.
    split; [done|]. split; [done|]. split; [done|by exists i]. }
  destruct (Hescs i de Ei (Hst (hreq s) (owned s) w1 c1) HD1) as (e & w2 & c2 & E2 & -> & HD2).
  rewrite (M_bind_Ret _ _ _ _ _ E2). cbn [hreq owned].
  rewrite Forall_lookup in Hok, Hsmall. pose proof (Hok i de Ei) as Hde. pose proof (Hsmall i de Ei) as Hsm.
  pose proof (add_dirent_room p (d_name de) (d_type de) (esc de) (hreq s) c front back Hfn Hde Hs Hb Hsm) as Ha.
  rewrite (texts_drop i de Ei). cbn [fit]. fold (entry_text esc de) in Ha.
  pose proof (entry_text_pos esc de) as Hpos.
  destruct (Z.leb_spec (zlen (entry_text esc de)) (back - tail_room)) as [Hfit|Hfull].
  - destruct Ha as (q & Eq & Hq & Hr).
    assert (on_req (add_dirent p (d_name de) (d_type de) (esc de)) (Hst (hreq s) (owned s) w2 c2)
      = (Ret true, Hst q (owned s) w2 c2)) as E3 by (unfold on_req; cbn [hreq]; by rewrite Eq).
    rewrite (M_bind_Ret _ _ _ _ _ E3).
    assert (S i <= length ents)%nat as Hi' by (apply lookup_lt_Some in Ei; lia).
    destruct (IH (S i) (u64 (d_off de)) (Hst q (owned s) w2 c2) _ _ HD2 Hi' Hq)
      as (w3 & c3 & q3 & E4 & Hq3 & Hr3 & HD3); [unfold tail_room, secretbox_padding, final_netstring_bytes in *; lia|lia|].
    cbn [hreq owned] in *. exists w3, c3, q3.
    replace (back - zlen (entry_text esc de) - tail_room) with (back - tail_room - zlen (entry_text esc de)) in * by lia.
    set (n := fit _ (drop (S i) texts)) in *. rewrite E4. cbn [take].
    pose proof (fit_le (back - tail_room - zlen (entry_text esc de)) (drop (S i) texts)) as Hn. fold n in Hn.
    unfold texts in Hn. rewrite length_drop, length_map in Hn.
    split.
    + do 3 f_equal; [apply bool_decide_ext; lia|].
      unfold last_off_after. destruct n as [|n']; [by rewrite Nat.add_0_r, Ei|].
      replace (i + S n')%nat with (S i + n')%nat by lia.
      destruct (ents !! (S i + n')%nat) eqn:E; [done|]. apply lookup_ge_None in E. lia.
    + change (mjoin (entry_text esc de :: ?l)) with (entry_text esc de ++ mjoin l).
      rewrite app_assoc, zlen_app. split; [|split; [by etransitivity|exact HD3]].
      by replace (back - (zlen (entry_text esc de) + zlen (mjoin (take n (drop (S i) texts)))))
        with (back - zlen (entry_text esc de) - zlen (mjoin (take n (drop (S i) texts)))) by lia.
  - assert (on_req (add_dirent p (d_name de) (d_type de) (esc de)) (Hst (hreq s) (owned s) w2 c2)
      = (Ret false, Hst (hreq s) (owned s) w2 c2)) as E3 by (unfold on_req; cbn [hreq]; by rewrite Ha).
    rewrite (M_bind_Ret _ _ _ _ _ E3). exists w2, c2, (hreq s).
    cbn [take mjoin list_join last_off_after]. rewrite app_nil_r. change (zlen []) with 0. rewrite Z.sub_0_r.
    rewrite bool_decide_eq_false_2 by (apply lookup_lt_Some in Ei; lia).
    split; [done|]. split; [done|]. split; [done|by exists (S i)].
Qed.
End Page.

(** ** The reply, and what the client reads *)

Definition d_pairs (uri : bytes) (esc : Z) (ns : bytes) : list (bytes * bytes) :=
  [(FS123_REQUEST, uri); (FS123_COOKIE, to_string esc); (FS123_NEXTSTART, ns)].

Lemma d_pairs_fit uri esc ns content :
  zlen uri <= 1200 -> 0 <= esc < 2 ^ 64 -> zlen ns <= 20 -> zlen content <= max_reply_size ->
  kvs_size (d_pairs uri esc ns) + zlen (kv_text (FS123_CONTENT, content)) - zlen content - 2 <= 1324.
Proof.
  intros Hu He Hn Hd. unfold kvs_size, d_pairs. cbn [map]. unfold max_reply_size in Hd.
  change (mjoin [?a; ?b; ?c]) with (a ++ b ++ c ++ []) || cbn [mjoin list_join].
  unfold kv_text. cbn [fst snd]. rewrite !zlen_app, (zlen_netstring content).
  change (zlen (netstring FS123_REQUEST)) with 9. change (zlen (netstring FS123_COOKIE)) with 16.
  change (zlen (netstring FS123_NEXTSTART)) with 12. change (zlen (netstring FS123_CONTENT)) with 10.
  change (zlen (lit " ")) with 1. change (zlen [chr 10]) with 1. change (zlen (@nil ascii)) with 0.
  pose proof (zlen_u64 esc He).
  pose proof (zlen_netstring_le uri 1200 4 Hu ltac:(lia) ltac:(lia)).
  pose proof (zlen_netstring_le ns 20 2 Hn ltac:(lia) ltac:(lia)).
  pose proof (zlen_to_string_u (zlen content) 7). pose proof (zlen_nonneg content). lia.
Qed.

Lemma d_reply_sends `{SB : Secretbox} what random svr p q content back uri ns etag64 esc cc :
  rq_minor p = 3 -> function p = lit "d" -> may_use_secrets svr (function p) = false ->
  shows q content 1324 back -> 2 <= back -> same_reply (rst0 [(FS123_REQUEST, uri)] None) q ->
  zlen uri <= 1200 -> 0 <= esc < 2 ^ 64 -> zlen ns <= 20 -> zlen content <= max_reply_size ->
  (content = [] -> ns = []) ->
  let l := d_pairs uri esc ns in
  exists q', d_reply (fun _ _ => true) what random svr GET p ns etag64 esc cc q = (Ret tt, q')
    /\ answered q'
    /\ sent q' = [Response 200 (plaintext_headers GET [] cc (body73 l content) etag64) (body73 l content)].
Proof.
  intros Hmin Hfn Hsec Hq Hback (Rk & Rh & Ro & Rr & Rs & Rg & Rf) Huri Hesc Hns Hc Hne. cbv zeta.
  set (l := d_pairs uri esc ns). set (q3 := set_kvs l q).
  assert (unanswered q3) as Hun by (unfold unanswered, unanswered_in, q3; cbn; by rewrite Rr, Rs, Rg, Rf).
  destruct (common_plain random svr GET p q3 content 1324 back cc etag64)
    as (q4 & E4 & S4); [lia|done|done|exact Ro|exact Hq|lia|lia|by apply d_pairs_fit|].
  exists q4. split; [|split].
  - unfold d_reply, or_exception, try_M, check_function. rewrite Hfn, decide_True by done.
    rewrite (M_bind_Ret _ _ q tt q) by done. rewrite (M_bind_Ret _ _ q q q) by done.
    pose proof Hq as (b & Hb & _ & _ & Hl & _). unfold the_buf. rewrite Hb.
    assert ((s_len b =? 0) && negb (bool_decide (ns = [])) = false) as ->.
    { rewrite <- Hl. destruct content as [|a content]; [by rewrite Hne by done|].
      rewrite (proj2 (Z.eqb_neq _ _)) by zlia. done. }
    rewrite (M_bind_Ret _ _ q tt q) by done.
    unfold minor3. rewrite Hmin. change (3 <=? 3) with true.
    rewrite (M_bind_Ret _ _ q tt q3); [by rewrite E4|].
    unfold kv_emplace, mbind, M_bind, modify. cbn. unfold q3, l, set_kvs. cbn.
    rewrite Rk. done.
  - destruct (common_answers (fun _ _ => true) random svr GET p cc etag64 false q3 Hun) as [_ Ha].
    by rewrite E4 in Ha.
  - rewrite S4. cbn [q3 set_kvs ohdrs kvs]. by rewrite Rh.
Qed.

Lemma decode_d_body g from urlstem base age uri esc ns content :
  proto_minor g = 3 -> valid from = true -> reply_max_age from = Ret age -> add_sigil_version g [] = Ret base ->
  zlen uri <= 1200 -> zlen content <= max_reply_size -> 0 <= esc < 2 ^ 64 -> zlen ns <= 20 ->
  exists d, decoded_reply 5 g from (body73 (d_pairs uri esc ns) content) urlstem = Some (Ret d)
    /\ d_content d = content /\ d_eno d = 0 /\ d_estale_cookie d = Ret esc
    /\ d_chunk_next_start d = Ret ns.
Proof.
  intros Hg Hfrom Hage Hbase Hu Hc Hesc Hns.
  destruct (put_pairs (base ++ urlstem) uri FS123_COOKIE (to_string esc) FS123_NEXTSTART ns content
      (Decoded (expires from) (stale_while_revalidate from) (0 <? age) 0 [] ∅ 0))
    as (d & Ed & D1 & D2 & D3 & D4 & _); [done|done|by split_and!..|].
  fold (d_pairs uri esc ns) in Ed. exists d. pose proof (d_pairs_fit uri esc ns content Hu Hesc Hns Hc) as Hfit.
  unfold max_reply_size in Hc. split.
  { rewrite (decode_body73 g from urlstem _ content 5 base age); [by rewrite Ed|done..|cbn; lia|].
    rewrite zlen_body73. lia. }
  split; [done|]. split; [done|]. unfold d_estale_cookie, d_chunk_next_start, kv_at.
  rewrite D3, D4. cbn [mbind outcome_bind]. by rewrite svto_to_string.
Qed.

(** ** The handler *)

Section Dir.
Context {W T : Type} {HO : OS W} {HU : UMap bytes (expiring (option ruleset)) T}.
Context `{SB : Secretbox}.
Context (what : exn -> bytes) (random : bytes) (svr : server).
Context (world : nat -> bytes -> Z + bytes) (clock : nat -> Z).
Context (json_parse : bytes -> option json).
Context (regex_ok : bytes -> bool) (regex_match : bytes -> bytes -> outcome bool).
Context (move_first : bool) (opts : exportd_options) (stats : bytes).
Context (K : W -> cc_rule_cache (T := T) -> Prop) (D : nat -> W -> cc_rule_cache (T := T) -> Prop).
Context (fd : Z) (ents : list dirent) (esc : dirent -> Z) (sb : stat) (desc inm64 : Z).

#[local] Abbreviation st := (hst (W := W) (T := T)).

(** The directory, as the system calls of a request for [p] see it: [K] holds
    between requests, [D i] when its stream stands at entry [i]. *)
Record dir_view (p : parsed) : Prop := {
  dv_open : yields K (sys (os_open (full_path p opts) true)) (fun r => r = inr fd);
  dv_fdopendir : forall s : st, K (hworld s) (rule_cache s) ->
    exists w c, sew (os_fdopendir fd) s = (Ret tt, Hst (hreq s) (owned s) w c) /\ D 0 w c;
  dv_fstat : yields (D 0) (sew (os_fstat fd)) (fun r => r = sb);
  dv_esc : yields (D 0) (run_prog (estale_cookie_fd (estale_cookie_src opts) fd sb)) (fun r => r = desc);
  dv_etag : yields (D 0) (compute_etag opts sb desc) (fun e => e <> inm64);
  dv_cc : yields (D 0) (cache_control world clock json_parse regex_ok regex_match opts 0 (path_info p) (Some sb))
            (fun _ => True);
  dv_seek : forall i de (s : st), ents !! i = Some de -> D 0 (hworld s) (rule_cache s) ->
    exists w c, sew (os_seekdir fd (d_off de)) s = (Ret tt, Hst (hreq s) (owned s) w c) /\ D (S i) w c;
  dv_reads : dir_reads fd D ents;
  dv_escs : dir_escs opts (full_path p opts) D ents esc
}.

(** [start] is where entry [i] is. *)
Definition start_at (start : bytes) (i : nat) : Prop :=
  (start = [] /\ i = O)
  \/ exists j de, i = S j /\ ents !! j = Some de /\ start = to_string (d_off de).

(** What is said of where the next request is to start. *)
Definition next_start (i n : nat) : bytes :=
  if bool_decide ((i + n)%nat = length ents) then [] else to_string_u (last_off_after ents i n 0).

Context (Hok : Forall entry_ok ents)
  (Hsmall : Forall (fun de => zlen (entry_text esc de) < 2 ^ 62) ents)
  (Hoff : Forall (fun de => 0 <= d_off de < 2 ^ 63) ents)
  (HDK : forall i w c, D i w c -> K w c) (Hdesc : 0 <= desc < 2 ^ 64).

#[local] Abbreviation the_texts := (texts ents esc).

Lemma next_start_at i n : (0 < n)%nat -> (i + n <= length ents)%nat -> (i + n <> length ents)%nat ->
  start_at (next_start i n) (i + n) /\ zlen (next_start i n) <= 20 /\ next_start i n <> [].
Proof.
  intros Hn Hle Hne. unfold next_start. rewrite bool_decide_eq_false_2 by done.
  destruct n as [|n]; [lia|]. unfold last_off_after.
  destruct (lookup_lt_is_Some_2 ents (i + n)%nat) as [de Hde]; [lia|]. rewrite Hde.
  rewrite Forall_lookup in Hoff. pose proof (Hoff _ _ Hde) as Ho.
  rewrite wrap_small by lia. split; [|split].
  - right. exists (i + n)%nat, de. split; [lia|]. split; [done|].
    by rewrite to_string_u64 by lia.
  - apply zlen_to_string_u; [|lia]. split; [lia|]. etransitivity; [apply Ho|]. by vm_compute.
  - apply to_string_u_nonempty. lia.
Qed.

Lemma rst0_shows kv b start rlen :
  args_ok (Call_d inm64 start) (Some b) rlen ->
  shows (rst0 kv (Some b)) [] 1324 (avail_back b)
  /\ tail_room <= avail_back b <= max_reply_size + tail_room.
Proof.
  intros (b' & sz & [= <-] & Hbb & Hsz & H0 & Hs & Hl & Hlen & Hav). unfold tail_room.
  split; [|lia]. exists b. split; [done|]. pose proof Hbb as (B1 & B2 & B3 & B4). split_and!.
  - split; [done|]. cbn [blob rst0 rst_init]. rewrite zlen_replicate.
    unfold max_reply_size, secretbox_padding, final_netstring_bytes in *.
    change (secretbox_leadersz + fs123_max_headersz) with 1324 in *. lia.
  - unfold contents. rewrite Hl. cbn [rst0 rst_init blob]. unfold ztake.
    rewrite Z.min_l by apply zlen_nonneg. done.
  - by rewrite Hl.
  - unfold avail_front. rewrite Hs, H0. done.
  - done.
Qed.

Lemma fit_size room l : 0 <= room -> zlen (mjoin (take (fit room l) l)) <= room.
Proof.
  revert room. induction l as [|e l IH]; intros room Hr; [by rewrite take_nil|]. cbn [fit].
  destruct (Z.leb_spec (zlen e) room) as [He|He]; [|by cbn]. cbn [take].
  change (mjoin (e :: ?k)) with (e ++ mjoin k). rewrite zlen_app.
  specialize (IH (room - zlen e) ltac:(lia)). lia.
Qed.

Lemma mjoin_nil_texts n i :
  mjoin (take n (drop i the_texts)) = [] -> (n <= length (drop i the_texts))%nat -> n = O.
Proof.
  destruct n as [|n]; [done|]. destruct (drop i the_texts) as [|e l] eqn:E; [cbn; lia|]. cbn [take].
  change (mjoin (e :: ?k)) with (e ++ mjoin k). intros [He _]%app_nil _.
  assert (e ∈ the_texts) as Hin.
  { rewrite <- (take_drop i the_texts), E. apply elem_of_app. right. apply list_elem_of_here. }
  unfold texts in Hin. apply list_elem_of_fmap in Hin as (de & -> & _).
  pose proof (entry_text_pos esc de) as Hp. rewrite He in Hp. change (zlen []) with 0 in Hp. lia.
Qed.

(** Reading the entries and replying with them. *)
Lemma page_reply p uri b start i rlen etag cc w c :
  D i w c -> (i <= length ents)%nat -> dir_view p -> args_ok (Call_d inm64 start) (Some b) rlen ->
  rq_minor p = 3 -> function p = lit "d" -> may_use_secrets svr (function p) = false ->
  kvpairs p = [(FS123_REQUEST, uri)] -> zlen uri <= 1200 ->
  Forall (fun e => zlen e <= avail_back b - tail_room) the_texts ->
  let n := fit (avail_back b - tail_room) (drop i the_texts) in
  let page := mjoin (take n (drop i the_texts)) in
  exists s',
    (s ← get;
     r ← read_entries p opts (entries_fuel s) fd (full_path p opts) 0;
     let '(at_eof, last_off) := (r : bool * Z) in
     give_reply what move_first (mret tt) (fun _ =>
       d_reply (fun _ _ => true) what random svr GET p (if at_eof then [] else to_string_u last_off) etag desc cc))
      (Hst (rst0 (kvpairs p) (Some b)) true w c) = (Ret tt, s')
    /\ owned s' = false /\ K (hworld s') (rule_cache s')
    /\ sent (hreq s') = [let body := body73 (d_pairs uri desc (next_start i n)) page in
                         Response 200 (plaintext_headers GET [] cc body etag) body].
Proof.
  intros HD Hi Hview Hargs Hmin Hfn Hsec Hkv Huri Hroom. cbv zeta.
  destruct (rst0_shows (kvpairs p) b start rlen Hargs) as [Hsh Hback].
  set (s := Hst (rst0 (kvpairs p) (Some b)) true w c).
  rewrite (M_bind_Ret _ _ s s s) by done.
  destruct (read_entries_page p opts fd (full_path p opts) D ents esc (dv_reads p Hview) (dv_escs p Hview)
      Hok Hsmall Hfn (entries_fuel s) i 0 s [] 1324 (avail_back b))
    as (w1 & c1 & q & E & Hq & Hr & (j & HDj)); [done|done|done| | |].
  { unfold max_reply_size, tail_room, secretbox_padding, final_netstring_bytes in *. lia. }
  { unfold entries_fuel, s. cbn [hreq rst0 rst_init the_buf buf]. lia. }
  set (n := fit (avail_back b - tail_room) (drop i the_texts)) in *.
  set (page := mjoin (take n (drop i the_texts))) in *. cbn [app] in Hq.
  pose proof (fit_le (avail_back b - tail_room) (drop i the_texts)) as Hn. fold n in Hn.
  assert (length (drop i the_texts) = length ents - i)%nat as Hld
    by (unfold texts; by rewrite length_drop, length_map).
  assert (zlen page <= avail_back b - tail_room) as Hpage by (apply fit_size; lia).
  assert (i < length ents -> 0 < n)%nat as Hpos.
  { intros Hlt. unfold n. destruct (drop i the_texts) as [|e l] eqn:Ed; [cbn in Hld; lia|]. cbn [fit].
    apply (Forall_drop _ i) in Hroom. rewrite Ed in Hroom. inversion_clear Hroom.
    rewrite (proj2 (Z.leb_le _ _)) by done. lia. }
  assert (zlen (next_start i n) <= 20) as Hns.
  { destruct (decide ((i + n)%nat = length ents)) as [He|He].
    - unfold next_start. by rewrite bool_decide_eq_true_2.
    - apply next_start_at; lia. }
  destruct (d_reply_sends what random svr p q page (avail_back b - zlen page) uri (next_start i n) etag desc cc)
    as (q' & E' & Ha & Hsent); try done.
  { unfold tail_room, secretbox_padding, final_netstring_bytes in *. lia. }
  { unfold s in Hr. cbn [hreq] in Hr. by rewrite Hkv in Hr. }
  { lia. }
  { intros He. apply mjoin_nil_texts in He; [|done]. unfold next_start.
    by rewrite bool_decide_eq_true_2 by lia. }
  rewrite (M_bind_Ret _ _ _ _ _ E).
  assert ((if bool_decide ((i + n)%nat = length ents) then [] else to_string_u (last_off_after ents i n 0))
    = next_start i n) as -> by done.
  rewrite (give_nothing what move_first _ (Hst q (owned s) w1 c1) q' eq_refl E' Ha).
  eexists. split; [reflexivity|]. split; [done|]. split; [|exact Hsent].
  by eapply HDK.
Qed.

Lemma svto_long off : 0 <= off < 2 ^ 63 -> svto T_long (to_string off) 0 = Ret off.
Proof. intros H. apply svto_to_string; [done|]. unfold T_long, in_type. cbn. lia. Qed.

(** A page: one request for the entries from [start] on. *)
Lemma h_d_page p uri start i b rlen w c :
  dir_view p -> K w c -> start_at start i -> (i <= length ents)%nat ->
  args_ok (Call_d inm64 start) (Some b) rlen ->
  rq_minor p = 3 -> function p = lit "d" -> may_use_secrets svr (function p) = false ->
  kvpairs p = [(FS123_REQUEST, uri)] -> zlen uri <= 1200 ->
  Forall (fun e => zlen e <= avail_back b - tail_room) the_texts ->
  let n := fit (avail_back b - tail_room) (drop i the_texts) in
  let page := mjoin (take n (drop i the_texts)) in
  exists s' etag cc,
    run_exportd (fun _ _ => true) what random svr GET p rlen world clock json_parse regex_ok regex_match
      move_first opts stats (Call_d inm64 start) (Hst (rst0 (kvpairs p) (Some b)) true w c) = (Ret tt, s')
    /\ K (hworld s') (rule_cache s')
    /\ sent (hreq s') = [let body := body73 (d_pairs uri desc (next_start i n)) page in
                         Response 200 (plaintext_headers GET [] cc body etag) body].
Proof.
  intros Hview HK Hstart Hi Hargs Hmin Hfn Hsec Hkv Huri Hroom. cbv zeta. set (r := rst0 (kvpairs p) (Some b)).
  destruct (dv_open _ Hview (Hst r true w c) HK) as (? & w1 & c1 & E1 & -> & K1).
  destruct (dv_fdopendir _ Hview (Hst r true w1 c1) K1) as (w2 & c2 & E2 & K2).
  destruct (dv_fstat _ Hview (Hst r true w2 c2) K2) as (? & w3 & c3 & E3 & -> & K3).
  destruct (dv_esc _ Hview (Hst r true w3 c3) K3) as (? & w4 & c4 & E4 & -> & K4).
  destruct (dv_etag _ Hview (Hst r true w4 c4) K4) as (etag & w5 & c5 & E5 & Hetag & K5).
  destruct (dv_cc _ Hview (Hst r true w5 c5) K5) as (cc & w6 & c6 & E6 & _ & K6).
  cbn [hreq owned] in *. unfold run_exportd. cbn [handle]. unfold h_d, or_ex_reply, try_M.
  rewrite (M_bind_Ret _ _ _ _ _ (use_req_ok (Hst r true w c) eq_refl)). cbv zeta.
  rewrite (M_bind_Ret _ _ _ _ _ E1), (M_bind_Ret _ _ _ _ _ E2), (M_bind_Ret _ _ _ _ _ E3),
    (M_bind_Ret _ _ _ _ _ E4), (M_bind_Ret _ _ _ _ _ E5),
    (M_bind_Ret _ _ _ _ _ (use_req_ok (Hst r true w5 c5) eq_refl)), (M_bind_Ret _ _ _ _ _ E6).
  rewrite (proj2 (Z.eqb_neq etag inm64)) by done.
  destruct Hstart as [[-> ->]|(j & de & -> & Hde & ->)].
  - destruct (page_reply p uri b [] 0 rlen etag cc w6 c6 K6 Hi Hview Hargs Hmin Hfn Hsec Hkv Huri Hroom)
      as (s' & E & Ho & HKs & Hs). exists s', etag, cc. fold r in E. rewrite E. by rewrite Ho.
  - pose proof Hoff as Ho'. rewrite Forall_lookup in Ho'. pose proof (Ho' _ _ Hde) as Hofs.
    destruct (dv_seek _ Hview j de (Hst r true w6 c6) Hde K6) as (w7 & c7 & E7 & K7). cbn [hreq owned] in *.
    rewrite svto_long by done.
    destruct (page_reply p uri b (to_string (d_off de)) (S j) rlen etag cc w7 c7 K7 Hi Hview Hargs Hmin Hfn Hsec
      Hkv Huri Hroom) as (s' & E & Ho & HKs & Hs).
    assert (to_string (d_off de) <> []) as Hne
      by (rewrite to_string_u64 by lia; apply to_string_u_nonempty; lia).
    destruct (to_string (d_off de)) as [|a l] eqn:El; [done|].
    rewrite (M_bind_Ret _ _ _ _ _ E7). exists s', etag, cc. fold r in E. rewrite E. by rewrite Ho.
Qed.
End Dir.

(** ** The client's listing *)

Section Listing.
Context {W T : Type} {HO : OS W} {HU : UMap bytes (expiring (option ruleset)) T}.
Context `{SB : Secretbox}.
Context (what : exn -> bytes) (random : bytes) (svr : server).
Context (world : nat -> bytes -> Z + bytes) (clock : nat -> Z).
Context (json_parse : bytes -> option json).
Context (regex_ok : bytes -> bool) (regex_match : bytes -> bytes -> outcome bool).
Context (move_first : bool) (opts : exportd_options) (stats : bytes) (inm64 : Z).
(* the request for the entries from a start on, as the parser delivers it *)
Context (request : bytes -> http_req) (parse : bytes -> parsed) (b : padded_uchar_span) (rlen : Z).
Context (g : req_config) (from : reply123) (urlstem : bytes -> bytes).

(** Ask for a page, decode it, and go on where it says, until it says nowhere.
    [None]: something else than a page came, or the rounds ran out. *)
Fixpoint list_dir (fuel : nat) (start : bytes) (w : W) (c : cc_rule_cache (T := T)) : option (list bytes) :=
  match fuel with
  | O => None
  | S fuel =>
      let s := (run_exportd (fun _ _ => true) what random svr GET (parse start) rlen world clock json_parse
                  regex_ok regex_match move_first opts stats (Call_d inm64 start)
                  (Hst (rst0 (kvpairs (parse start)) (Some b)) true w c)).2 in
      match sent (hreq s) with
      | [Response 200 _ body] =>
          match decoded_reply 5 g from body (urlstem start) with
          | Some (Ret d) =>
              match d_chunk_next_start d with
              | Ret [] => Some [d_content d]
              | Ret next =>
                  match list_dir fuel next (hworld s) (rule_cache s) with
                  | Some l => Some (d_content d :: l)
                  | None => None
                  end
              | _ => None
              end
          | _ => None
          end
      | _ => None
      end
  end.
End Listing.

Lemma drop_take_split {A} (l : list A) i n : drop i l = take n (drop i l) ++ drop (i + n) l.
Proof. by rewrite <- (drop_drop l n i), take_drop. Qed.

Lemma start_at_in ents start i : start_at ents start i -> start ∈ [] :: map (fun de => to_string (d_off de)) ents.
Proof.
  intros [[-> _]|(j & de & _ & Hde & ->)]; [apply list_elem_of_here|].
  apply elem_of_cons. right. apply list_elem_of_fmap. exists de. split; [done|].
  by eapply list_elem_of_lookup_2.
Qed.

Lemma fit_pos room l : (0 < length l)%nat -> Forall (fun e => zlen e <= room) l -> (0 < fit room l)%nat.
Proof.
  intros Hl Hf. destruct l as [|e l]; [cbn in Hl; lia|]. inversion_clear Hf. cbn [fit].
  rewrite (proj2 (Z.leb_le _ _)) by done. lia.
Qed.

(** From any entry on. *)
Lemma list_dir_from {W T} {HO : OS W} {HU : UMap bytes (expiring (option ruleset)) T} `{SB : Secretbox}
    what random svr world clock json_parse regex_ok regex_match move_first opts stats K D fd ents esc sb desc inm64
    request parse b rlen g from urlstem uri base age :
  (forall start, start ∈ [] :: map (fun de => to_string (d_off de)) ents ->
     dir_view world clock json_parse regex_ok regex_match opts K D fd ents esc sb desc inm64 (parse start)
     /\ parse_and_dispatch svr (request start) = Ret (parse start, (Call_d inm64 start, Some b, rlen))
     /\ rq_minor (parse start) = 3 /\ function (parse start) = lit "d"
     /\ may_use_secrets svr (function (parse start)) = false
     /\ kvpairs (parse start) = [(FS123_REQUEST, uri start)] /\ zlen (uri start) <= 1200) ->
  (forall i w c, D i w c -> K w c) ->
  Forall entry_ok ents -> Forall (fun de => 0 <= d_off de < 2 ^ 63) ents ->
  Forall (fun e => zlen e <= avail_back b - tail_room) (texts ents esc) -> 0 <= desc < 2 ^ 64 ->
  proto_minor g = 3 -> valid from = true -> reply_max_age from = Ret age -> add_sigil_version g [] = Ret base ->
  forall fuel i start (w : W) (c : cc_rule_cache (T := T)),
  K w c -> (i <= length ents)%nat -> start_at ents start i -> (length ents - i < fuel)%nat ->
  exists pages,
    list_dir what random svr world clock json_parse regex_ok regex_match move_first opts stats inm64 parse b rlen
      g from urlstem fuel start w c = Some pages
    /\ mjoin pages = mjoin (drop i (texts ents esc)) /\ (length pages <= fuel)%nat.
Proof.
  intros Hreq HDK Hok Hoff Hroom Hdesc Hg Hfrom Hage Hbase.
  destruct (Hreq [] ltac:(by left)) as (_ & Hp0 & _). apply parsed_args_ok in Hp0.
  destruct (rst0_shows inm64 [] b [] rlen Hp0) as [_ Hback].
  assert (Forall (fun de => zlen (entry_text esc de) < 2 ^ 62) ents) as Hsmall.
  { apply Forall_lookup. intros k de Hde. rewrite Forall_lookup in Hroom.
    assert (zlen (entry_text esc de) <= avail_back b - tail_room) as Hl.
    { apply (Hroom k). unfold texts. by rewrite list_lookup_fmap, Hde. }
    unfold max_reply_size in Hback. lia. }
  induction fuel as [|fuel IH]; intros i start w c HK Hi Hst Hfuel; [lia|]. cbn [list_dir].
  destruct (Hreq start (start_at_in _ _ _ Hst)) as (Hview & Hp & Hmin & Hfn & Hsec & Hkv & Huri).
  apply parsed_args_ok in Hp.
  destruct (h_d_page what random svr world clock json_parse regex_ok regex_match move_first opts stats K D fd
    ents esc sb desc inm64 Hok Hsmall Hoff HDK Hdesc (parse start) (uri start) start i b rlen w c
    Hview HK Hst Hi Hp Hmin Hfn Hsec Hkv Huri Hroom) as (s' & etag & cc & E & HK' & Hsent).
  rewrite E. cbn [snd]. rewrite Hsent. cbv zeta.
  set (n := fit (avail_back b - tail_room) (drop i (texts ents esc))) in *.
  set (page := mjoin (take n (drop i (texts ents esc)))) in *.
  assert (length (drop i (texts ents esc)) = length ents - i)%nat as Hld
    by (unfold texts; by rewrite length_drop, length_map).
  pose proof (fit_le (avail_back b - tail_room) (drop i (texts ents esc))) as Hn. fold n in Hn.
  assert (zlen page <= max_reply_size) as Hpage.
  { pose proof (fit_size (avail_back b - tail_room) (drop i (texts ents esc)) ltac:(lia)). fold n in H.
    fold page in H. lia. }
  assert (zlen (next_start ents i n) <= 20) as Hns.
  { destruct (decide ((i + n)%nat = length ents)) as [He|He].
    - unfold next_start. by rewrite bool_decide_eq_true_2.
    - apply (next_start_at ents Hoff); [|lia|done]. apply fit_pos; [lia|by apply Forall_drop]. }
  destruct (decode_d_body g from (urlstem start) base age (uri start) desc (next_start ents i n) page)
    as (d & Ed & Hc & _ & _ & Hnext); [done..|]. rewrite Ed, Hnext, Hc.
  pose proof (drop_take_split (texts ents esc) i n) as Hsplit.
  destruct (decide ((i + n)%nat = length ents)) as [He|He].
  - unfold next_start. rewrite bool_decide_eq_true_2 by done. exists [page]. split; [done|].
    assert (drop (i + n) (texts ents esc) = []) as Hend
      by (apply drop_ge; unfold texts; rewrite length_map; lia).
    rewrite Hend, app_nil_r in Hsplit. unfold page. rewrite <- Hsplit. cbn. rewrite app_nil_r. split; [done|lia].
  - assert (0 < n)%nat as Hpos by (apply fit_pos; [lia|by apply Forall_drop]).
    destruct (next_start_at ents Hoff i n Hpos ltac:(lia) He) as (Hat & _ & Hne).
    destruct (IH (i + n)%nat (next_start ents i n) (hworld s') (rule_cache s') HK') as (pages & El & Hj & Hlen);
      [lia|done|lia|].
    rewrite El. destruct (next_start ents i n); [done|]. exists (page :: pages). split; [done|].
    split; [|cbn; lia]. change (mjoin (page :: pages)) with (page ++ mjoin pages).
    rewrite Hj, Hsplit at 1. by rewrite join_app.
Qed.

(** C2.  Listing a directory end to end.  Between requests the directory keeps
    its entries; within one, [readdir] returns them in order, and [seekdir] to
    an entry's [d_off], a 63-bit number, goes to the entry after it.  The
    client asks for the directory, decodes the page and asks again from
    [chunk_next_start] until it is empty.  If the reply buffer has room for the
    largest entry, the client stops after at most one request per entry and one
    more, and the pages put together are every entry of the directory exactly
    once, in order, with its type and cookie. *)
Theorem listing_complete {W T} {HO : OS W} {HU : UMap bytes (expiring (option ruleset)) T} `{SB : Secretbox}
    what random svr world clock json_parse regex_ok regex_match move_first opts stats K D fd ents esc sb desc inm64
    request parse b rlen g from urlstem uri base age (w : W) (c : cc_rule_cache (T := T)) :
  (forall start, start ∈ [] :: map (fun de => to_string (d_off de)) ents ->
     dir_view world clock json_parse regex_ok regex_match opts K D fd ents esc sb desc inm64 (parse start)
     /\ parse_and_dispatch svr (request start) = Ret (parse start, (Call_d inm64 start, Some b, rlen))
     /\ rq_minor (parse start) = 3 /\ function (parse start) = lit "d"
     /\ may_use_secrets svr (function (parse start)) = false
     /\ kvpairs (parse start) = [(FS123_REQUEST, uri start)] /\ zlen (uri start) <= 1200) ->
  K w c -> (forall i w c, D i w c -> K w c) ->
  Forall entry_ok ents -> Forall (fun de => 0 <= d_off de < 2 ^ 63) ents ->
  Forall (fun e => zlen e <= avail_back b - tail_room) (texts ents esc) -> 0 <= desc < 2 ^ 64 ->
  proto_minor g = 3 -> valid from = true -> reply_max_age from = Ret age -> add_sigil_version g [] = Ret base ->
  exists pages,
    list_dir what random svr world clock json_parse regex_ok regex_match move_first opts stats inm64 parse b rlen
      g from urlstem (S (length ents)) [] w c = Some pages
    /\ mjoin pages = mjoin (texts ents esc) /\ (length pages <= S (length ents))%nat.
Proof.
  intros Hreq HK HDK Hok Hoff Hroom Hdesc Hg Hfrom Hage Hbase.
  apply (list_dir_from what random svr world clock json_parse regex_ok regex_match move_first opts stats K D fd
    ents esc sb desc inm64 request parse b rlen g from urlstem uri base age Hreq HDK Hok Hoff Hroom Hdesc
    Hg Hfrom Hage Hbase (S (length ents)) 0 [] w c HK); [lia|by left|lia].
Qed.

(** Five files with long names behind a buffer of one KiB. *)
Definition wx_name (c : ascii) : bytes := replicate 255 c.
Definition wx_ents : list dirent :=
  [Dirent (wx_name "a") DT_REG 1; Dirent (wx_name "b") DT_DIR 2; Dirent (wx_name "c") DT_REG 3;
   Dirent (wx_name "d") DT_LNK 4; Dirent (lit "e") DT_REG 5].

#[local] Instance wx_dir_os : OS nat := {
  os_lstat _ w := (inl ENOENT, w);
  os_open _ _ w := (inr 3, w);
  os_fstat _ w := (inr (wx_file 1000 0), w);
  os_getversion _ w := (inl EINVAL, w);
  os_fgetxattr _ _ w := (inl ENODATA, w);
  os_fsetxattr _ _ w := (inr tt, w);
  os_now_ns w := (10 ^ 18, w);
  os_clock w := (inr (10 ^ 9, 5), w);
  os_pread _ _ _ w := (inl EINVAL, w);
  os_fdopendir _ w := (inr tt, O);
  os_seekdir _ off w := (inr tt, Z.to_nat off);
  os_readdir _ w := (inr (wx_ents !! w), match wx_ents !! w with Some _ => S w | None => w end);
  os_readlink _ _ w := (inl EINVAL, w);
  os_statvfs _ w := (inr wx_statvfs, w);
  os_listxattr _ _ w := (inr (0, []), w);
  os_getxattr _ _ _ w := (inl ENODATA, w)
}.

Definition wx_dir_opts : exportd_options :=
  ExportdOptions (lit "/export") 400000 ESC_NONE false (lit "max-age=30") false.
Definition wx_dir_K (w : nat) (c : cc_rule_cache (T := gmap bytes (expiring (option ruleset)))) : Prop :=
  cc_inv wx_parse (fun _ => true) wx_fs 90 (lit "max-age=120") c.
Definition wx_D (i w : nat) (c : cc_rule_cache (T := gmap bytes (expiring (option ruleset)))) : Prop :=
  w = i /\ wx_dir_K w c.

Definition wx_request (start : bytes) : http_req :=
  get_ex (lit "/data/fs123/7/3/d/a%20file") (Some (lit "1;" ++ start)).
Definition wx_parsed (start : bytes) : parsed :=
  match parse_and_dispatch (H := toy_box) svr_ex (wx_request start) with
  | Ret (p, _) => p
  | _ => Parsed 0 0 [] [] [] None [] [] []
  end.
Definition wx_uri (start : bytes) : bytes := lit "/fs123/7/3/d/a%20file?1;" ++ start.
Definition wx_buf : padded_uchar_span := Span 0 2382 1324 0.

Definition wx_start_ok (start : bytes) : Prop :=
  parse_and_dispatch (H := toy_box) svr_ex (wx_request start)
    = Ret (wx_parsed start, (Call_d 77 start, Some wx_buf, 0))
  /\ rq_minor (wx_parsed start) = 3 /\ function (wx_parsed start) = lit "d"
  /\ path_info (wx_parsed start) = lit "/a file"
  /\ kvpairs (wx_parsed start) = [(FS123_REQUEST, wx_uri start)] /\ (zlen (wx_uri start) <=? 1200) = true.

Lemma wx_starts : Forall wx_start_ok ([] :: map (fun de => to_string (d_off de)) wx_ents).
Proof.
  cbn [map wx_ents d_off]. unfold wx_start_ok.
  repeat constructor; vm_compute; reflexivity.
Qed.

Lemma wx_dir_view p : path_info p = lit "/a file" ->
  dir_view (T := gmap bytes (expiring (option ruleset))) (fun _ => wx_fs) (fun _ => 0) wx_parse (fun _ => true)
    wx_match wx_dir_opts wx_dir_K wx_D 3 wx_ents (fun _ => 0) (wx_file 1000 0) 0 77 p.
Proof.
  intros Hp. split.
  - intros [r o w c] Hs. eexists _, w, _. split; [reflexivity|]. by split.
  - intros s Hs. eexists O, _. split; [reflexivity|]. by split.
  - intros [r o w c] Hs. eexists _, w, _. split; [reflexivity|]. by split.
  - intros [r o w c] Hs. eexists _, w, _. split; [reflexivity|]. by split.
  - intros [r o w c] Hs. eexists _, w, _. split; [reflexivity|]. split; [|exact Hs]. vm_compute. discriminate.
  - intros s [Hw Hs]. rewrite Hp. unfold cache_control. cbn [Z.eqb orb].
    destruct (get_cc_static (fun _ => wx_fs) (fun _ => 0) wx_parse (fun _ => true) wx_match wx_fs 90
      (lit "max-age=120") ltac:(done) ltac:(intros n; vm_compute; intuition congruence)
      ltac:(vm_compute; intuition congruence) (lit "a file") false (rule_cache s) Hs) as [H1 H2];
      [by vm_compute|].
    unfold on_cache, mbind, M_bind. change (S_ISDIR (st_mode (wx_file 1000 0))) with false.
    cbn [lit list_ascii_of_string] in *.
    destruct (get_cc _ _ _ _ _ _ _ _) as [r c]. cbn [fst snd] in H1, H2. subst r.
    change (select_cc _ _ _) with (Ret (A := bytes) (lit "max-age=120")). cbn.
    eexists _, (hworld s), c. split; [reflexivity|]. split; [done|]. split; [exact Hw|exact H2].
  - intros i de s Hde [Hw Hs].
    assert (d_off de = Z.of_nat (S i)) as Ho.
    { do 5 (destruct i as [|i]; [by injection Hde as <-|]). discriminate Hde. }
    eexists (S i), _. split; [|by split]. unfold sew, sys, mbind, M_bind. cbn -[Z.to_nat].
    rewrite Ho, Nat2Z.id. reflexivity.
  - intros i s [Hw Hs]. eexists _, _. split; [unfold sew, sys, mbind, M_bind; cbn; rewrite Hw; reflexivity|].
    destruct (wx_ents !! i); by split.
  - intros i de _ [r o w c] Hs. eexists _, w, _. split; [reflexivity|]. by split.
Qed.

Lemma listing_complete_witness :
  exists pages,
    list_dir (SB := toy_box) (fun _ => []) [] svr_ex (fun _ => wx_fs) (fun _ => 0) wx_parse (fun _ => true) wx_match
      false wx_dir_opts [] 77 wx_parsed wx_buf 0 g73 from_ex (fun _ => []) 6 [] 0%nat wx_cc0 = Some pages
    /\ mjoin pages = mjoin (texts wx_ents (fun _ => 0)) /\ (length pages <= 6)%nat.
Proof.
  apply (listing_complete (SB := toy_box) (fun _ => []) [] svr_ex (fun _ => wx_fs) (fun _ => 0) wx_parse
    (fun _ => true) wx_match false wx_dir_opts [] wx_dir_K wx_D 3 wx_ents (fun _ => 0) (wx_file 1000 0) 0 77
    wx_request wx_parsed wx_buf 0 g73 from_ex (fun _ => []) wx_uri (lit "/fs123/7/3") 1000 0%nat wx_cc0).
  - intros start Hin. pose proof wx_starts as H. rewrite List.Forall_forall in H.
    destruct (H start) as (H1 & H2 & H3 & H4 & H5 & H6); [by apply list_elem_of_In|].
    split; [by apply wx_dir_view|]. split; [exact H1|]. split; [exact H2|]. split; [exact H3|].
    split; [by rewrite H3|]. split; [exact H5|]. by apply Z.leb_le.
  - exact wx_K0.
  - intros i w c [_ H]. exact H.
  - repeat constructor; vm_compute; congruence.
  - repeat constructor; cbn; lia.
  - repeat constructor; vm_compute; congruence.
  - lia.
  - reflexivity.
  - reflexivity.
  - vm_compute. reflexivity.
  - vm_compute. reflexivity.
Defined.
