(* ===== verification/Inomap.v ===== *)
(** * The client's table of inodes

    [src/exe/fs123p7/inomap.cpp]: what the kernel may ask about, by inode
    number: the name, the parent, the kernel's lookup count and the newest
    validator seen.  Every operation runs under one mutex, so an execution of
    the client is a sequence of them.  The abstract table [kview] is the
    kernel's: each inode with its path from the root; [inomap_refines] shows
    that for a kernel that keeps to the rules of [fuse_lowlevel.h] the two
    give the same answers. *)

From Stdlib Require Import Ascii String ZArith Lia Sorting.Sorted.
From stdpp Require Import base gmap strings list numbers.
From S2P Require Import Prelude.

#[local] Open Scope Z_scope.

(** ** The records *)

(** The union that holds a short name in place and a long one in a block of
    its own.  Of the buffer only the bytes [memcpy] wrote are modelled. *)
Inductive namebuf := UBuf (buf : bytes) | UPtr (block : bytes).
Definition BUFSZ : Z := 12.

Record inorecord := InoRecord {
  u : namebuf;
  refcount : Z;        (* [int32_t refcount:31] *)
  pino : Z;            (* [fuse_ino_t] *)
  validator : Z;       (* [uint64_t] *)
}.

Definition fill_buf (from : bytes) : namebuf :=
  let l := zlen (c_str from) + 1 in
  let copied := c_str from ++ [NUL] in
  if BUFSZ <? l then UPtr copied else UBuf copied.

Definition name (r : inorecord) : bytes :=
  c_str (match u r with UPtr block => block | UBuf buf => buf end).

Definition inorecord_ctor (from : bytes) (_pino _validator : Z) : inorecord :=
  InoRecord (fill_buf from) 0 _pino _validator.

(** ** The operations *)

Abbreviation inomap := (gmap Z inorecord).

(** The recursion ends at a child of the root; the fuel is more than the
    number of records, see [fullname_fuel]: when it runs out the recursion has
    no end, and the program no stack. *)
Fixpoint _fullname (fuel : nat) (m : inomap) (r : inorecord) : outcome bytes :=
  match fuel with
  | O => Undef
  | S fuel' =>
      if pino r =? 1 then Ret (lit "/" ++ name r) else
      match m !! pino r with
      | None => Throw (ESystem EINVAL)
      | Some p =>
          pname ← _fullname fuel' m p;
          Ret (pname ++ lit "/" ++ name r)
      end
  end.
Definition fullname_of (m : inomap) (r : inorecord) : outcome bytes := _fullname (S (size m)) m r.

(** [inomap.at(ino)] *)
Definition inomap_at (ino : Z) : M inomap inorecord :=
  m ← get; match m !! ino with Some r => mret r | None => raise EOutOfRange end.

Definition nested {A} (f : M inomap A) : M inomap A := try_M f (fun e => raise (ENested ERuntime e)).

Definition ino_to_fullname (ino : Z) : M inomap bytes :=
  if ino =? 1 then mret [] else
  r ← inomap_at ino; m ← get; lift (fullname_of m r).

Definition ino_to_fullname_validator (ino : Z) : M inomap (bytes * Z) :=
  if ino =? 1 then mret ([], 1) else
  r ← inomap_at ino; m ← get; n ← lift (fullname_of m r); mret (n, validator r).

Definition ino_to_fullname_nothrow (ino : Z) : M inomap bytes :=
  try_M (ino_to_fullname ino) (fun _ => mret (lit "//not_in_inomap")).

Definition ino_to_pino (ino : Z) : M inomap Z := nested (r ← inomap_at ino; mret (pino r)).

Definition ino_to_pino_name (ino : Z) : M inomap (Z * bytes) :=
  nested (r ← inomap_at ino; mret (pino r, name r)).

Definition ino_get_validator (ino : Z) : M inomap Z := nested (r ← inomap_at ino; mret (validator r)).

Definition set_validator (v : Z) (r : inorecord) : inorecord :=
  InoRecord (u r) (refcount r) (pino r) v.
Definition set_refcount (n : Z) (r : inorecord) : inorecord :=
  InoRecord (u r) n (pino r) (validator r).

Definition ino_update_validator (ino v : Z) : M inomap Z :=
  try_M
    (ir ← inomap_at ino;
     let ret := validator ir in
     let ir' := if ret <? v then set_validator v ir else ir in
     modify (insert ino ir');;
     if v <? validator ir' then
       m ← get; lift (fullname_of m ir');; raise (EOutOfOrder v (validator ir'))
     else mret ret)
    (fun e => match e with EOutOfOrder _ _ => raise e | _ => raise (ENested ERuntime e) end).

Definition ino_remember (_pino : Z) (nm : bytes) (ino v : Z) : M inomap unit :=
  m ← get;
  match m !! ino with
  | Some r =>
      if negb (bool_decide (c_str nm = name r)) then raise (ESystem EINVAL) else
      modify (insert ino (set_refcount (swrap 31 (refcount r + 1)) r))
  | None =>
      modify (insert ino (set_refcount (swrap 31 (0 + 1)) (inorecord_ctor nm _pino v)))
  end.

(** [refcount -= nlookup]: the subtraction is modulo 2^64, what is stored are
    its 31 low bits. *)
Definition ino_forget (ino nlookup : Z) : M inomap unit :=
  m ← get;
  match m !! ino with
  | None => mret tt
  | Some r =>
      let n := swrap 31 (u64 (u64 (refcount r) - nlookup)) in
      let n := if n <? 0 then 0 else n in
      if n =? 0 then modify (delete ino) else modify (insert ino (set_refcount n r))
  end.

Definition ino_count : M inomap Z := m ← get; mret (Z.of_nat (size m)).

(** [fs123_init] remembers the root. *)
Definition inomap_init (g_mount_dotdot_ino : Z) : inomap :=
  (ino_remember g_mount_dotdot_ino [] 1 (2 ^ 64 - 1) ∅).2.

(** *** Sequences of them *)

Inductive op :=
| Remember (pino : Z) (name : bytes) (ino validator : Z)
| Forget (ino nlookup : Z)
| UpdateValidator (ino validator : Z)
| GetValidator (ino : Z)
| Fullname (ino : Z)
| FullnameValidator (ino : Z)
| Pino (ino : Z)
| PinoName (ino : Z)
| Count.

Inductive answer :=
| ANone | AZ (z : Z) | AText (t : bytes) | ATextZ (t : bytes) (z : Z) | AZText (z : Z) (t : bytes).

Definition run_op (o : op) : M inomap answer :=
  match o with
  | Remember p n i v => ino_remember p n i v;; mret ANone
  | Forget i n => ino_forget i n;; mret ANone
  | UpdateValidator i v => z ← ino_update_validator i v; mret (AZ z)
  | GetValidator i => z ← ino_get_validator i; mret (AZ z)
  | Fullname i => t ← ino_to_fullname i; mret (AText t)
  | FullnameValidator i => '(t, z) ← ino_to_fullname_validator i; mret (ATextZ t z)
  | Pino i => z ← ino_to_pino i; mret (AZ z)
  | PinoName i => '(z, t) ← ino_to_pino_name i; mret (AZText z t)
  | Count => z ← ino_count; mret (AZ z)
  end.

(** The answers, exceptions included, and the table in the end. *)
Fixpoint run_ops {S} (step : op -> M S answer) (os : list op) (s : S) : list (outcome answer) * S :=
  match os with
  | [] => ([], s)
  | o :: os' =>
      let '(a, s1) := step o s in
      let '(l, s2) := run_ops step os' s1 in (a :: l, s2)
  end.

(** ** The kernel's view *)

Record knode := KNode {
  k_parent : Z;
  k_path : list bytes;       (* the components from the root *)
  k_count : Z;               (* lookups not yet forgotten *)
  k_validator : Z;           (* the newest validator *)
}.
Abbreviation kview := (gmap Z knode).

Definition path_text (p : list bytes) : bytes := mjoin (map (fun c => lit "/" ++ c) p).
Definition last_component (a : knode) : bytes := default [] (list.last (k_path a)).

Definition kview_init (dotdot : Z) : kview := {[ 1 := KNode dotdot [] 1 (2 ^ 64 - 1) ]}.

Definition with_node {A} (K : kview) (i : Z) (e : exn) (f : knode -> outcome A) : outcome A :=
  match K !! i with Some a => f a | None => Throw e end.

Definition not_there : exn := ENested ERuntime EOutOfRange.

Definition spec_op (o : op) : M kview answer := fun K =>
  match o with
  | Remember p n i v =>
      match K !! i, K !! p with
      | Some a, _ =>
          if decide (n = last_component a)
          then (Ret ANone, <[i := KNode (k_parent a) (k_path a) (k_count a + 1) (k_validator a)]> K)
          else (Throw (ESystem EINVAL), K)
      | None, Some b => (Ret ANone, <[i := KNode p (k_path b ++ [n]) 1 v]> K)
      | None, None => (Undef, K)
      end
  | Forget i n =>
      match K !! i with
      | Some a =>
          if k_count a =? n then (Ret ANone, delete i K)
          else (Ret ANone, <[i := KNode (k_parent a) (k_path a) (k_count a - n) (k_validator a)]> K)
      | None => (Ret ANone, K)
      end
  | UpdateValidator i v =>
      match K !! i with
      | Some a =>
          if v <? k_validator a then (Throw (EOutOfOrder v (k_validator a)), K)
          else (Ret (AZ (k_validator a)), <[i := KNode (k_parent a) (k_path a) (k_count a) v]> K)
      | None => (Throw not_there, K)
      end
  | GetValidator i => (with_node K i not_there (fun a => Ret (AZ (k_validator a))), K)
  | Fullname i => (with_node K i EOutOfRange (fun a => Ret (AText (path_text (k_path a)))), K)
  | FullnameValidator i =>
      (with_node K i EOutOfRange (fun a =>
         Ret (ATextZ (path_text (k_path a)) (if i =? 1 then 1 else k_validator a))), K)
  | Pino i => (with_node K i not_there (fun a => Ret (AZ (k_parent a))), K)
  | PinoName i => (with_node K i not_there (fun a => Ret (AZText (k_parent a) (last_component a))), K)
  | Count => (Ret (AZ (Z.of_nat (size K))), K)
  end.

(** The rules a kernel keeps to: it looks names up in directories it knows, it
    forgets what it has looked up and no more of it, a directory not before
    what is in it, and the root not at all; and the hash that makes the
    numbers does not give one of a known name to the same name elsewhere. *)
Definition allowed (o : op) (K : kview) : Prop :=
  match o with
  | Remember p n i v =>
      i <> 1 /\ (NUL ∉ n) /\ is_Some (K !! p)
      /\ match K !! i with
         | Some a => k_count a < 2 ^ 30 - 1 /\ (n = last_component a -> p = k_parent a)
         | None => True
         end
  | Forget i n =>
      i <> 1 /\ 0 <= n
      /\ match K !! i with
         | Some a => n <= k_count a
             /\ (n = k_count a -> map_Forall (fun j b => j <> 1 -> k_parent b <> i) K)
         | None => True
         end
  | UpdateValidator i v => i <> 1
  | _ => True
  end.

#[export] Instance allowed_dec o K : Decision (allowed o K).
Proof. destruct o as [p n i v|i n|i v|i|i|i|i|i|]; cbn; [| |apply _..]; destruct (K !! i); apply _. Defined.

Fixpoint allowed_ops (os : list op) (K : kview) : Prop :=
  match os with
  | [] => True
  | o :: os' => allowed o K /\ allowed_ops os' (spec_op o K).2
  end.

#[export] Instance allowed_ops_dec os K : Decision (allowed_ops os K).
Proof. revert K. induction os as [|o os IH]; intros K; cbn; apply _. Defined.

(** ** The recursion of [_fullname] *)

Lemma name_ctor from p v : name (inorecord_ctor from p v) = c_str from.
Proof.
  unfold name, inorecord_ctor, fill_buf; cbn [u].
  destruct (BUFSZ <? _); apply c_str_app, c_str_no_nul.
Qed.

Lemma ino_forget_ret ino n m : exists m', ino_forget ino n m = (Ret tt, m').
Proof.
  unfold ino_forget, mbind, M_bind, get. destruct (m !! ino); [|by exists m].
  cbv zeta. match goal with |- context [if ?b =? 0 then modify _ else _] => destruct (b =? 0) end; by eexists.
Qed.

Lemma fullname_mono fuel m r k :
  _fullname fuel m r <> Undef -> (fuel <= k)%nat -> _fullname k m r = _fullname fuel m r.
Proof.
  revert r k. induction fuel as [|fuel IH]; intros r k Hr Hk; [done|].
  destruct k as [|k]; [lia|]. cbn [_fullname] in *. destruct (pino r =? 1); [done|].
  destruct (m !! pino r) as [p|]; [|done]. rewrite IH; [done| |lia].
  intros E. by rewrite E in Hr.
Qed.

(** A recursion of depth [n + 1] passes through [n] different records. *)
Lemma fullname_chain n m r :
  _fullname (S n) m r <> Undef -> _fullname n m r = Undef ->
  exists l : list Z, NoDup l /\ length l = n
    /\ Forall (fun k => exists q, m !! k = Some q /\ _fullname n m q <> Undef) l.
Proof.
  revert r. induction n as [|n IH]; intros r H1 H0; [by exists []; repeat constructor|].
  cbn [_fullname] in H0, H1. destruct (pino r =? 1); [done|].
  destruct (m !! pino r) as [p|] eqn:Ep; [|done].
  assert (_fullname (S n) m p <> Undef) as Hp1.
  { intros E. cbn [_fullname] in E. by rewrite E in H1. }
  assert (_fullname n m p = Undef) as Hp0 by (by destruct (_fullname n m p)).
  destruct (IH p Hp1 Hp0) as (l & Hnd & Hl & Hall).
  exists (pino r :: l). split; [|split; [cbn; lia|]].
  - constructor; [|done]. intros Hin. rewrite Forall_forall in Hall.
    destruct (Hall _ (proj1 (list_elem_of_In _ _) Hin)) as (q & Hq & Hd). congruence.
  - constructor; [by exists p|]. eapply Forall_impl; [|exact Hall].
    intros k (q & Hq & Hd). exists q. split; [done|]. by rewrite (fullname_mono n) by (done || lia).
Qed.

(** The fuel is enough: more of it does not change an answer, and where it
    runs out no fuel is enough. *)
Lemma fullname_fuel fuel m r :
  _fullname fuel m r <> Undef -> fullname_of m r = _fullname fuel m r.
Proof.
  induction fuel as [|n IH]; intros Hr; [done|].
  assert (_fullname n m r <> Undef \/ _fullname n m r = Undef) as [E|E]
    by (destruct (_fullname n m r); auto).
  - rewrite IH by done. symmetry. apply fullname_mono; [done|lia].
  - destruct (fullname_chain n m r Hr E) as (l & Hnd & <- & Hall).
    unfold fullname_of. apply fullname_mono; [done|]. apply le_n_S.
    rewrite <- (size_list_to_set (C := gset Z) l Hnd). rewrite <- (size_dom (M := gmap Z) m). apply subseteq_size.
    intros k Hk. apply elem_of_list_to_set in Hk. rewrite Forall_forall in Hall.
    destruct (Hall _ (proj1 (list_elem_of_In _ _) Hk)) as (q & Hq & _). by apply elem_of_dom_2 in Hq.
Qed.

(** ** The table follows the kernel *)

Definition node_rel (r : inorecord) (a : knode) : Prop :=
  pino r = k_parent a /\ name r = last_component a /\ validator r = k_validator a
  /\ refcount r = k_count a /\ 0 < k_count a < 2 ^ 30.

(** Every inode but the root is in a directory that is known too. *)
Definition tree (K : kview) : Prop :=
  (exists a, K !! 1 = Some a /\ k_path a = [])
  /\ forall i a, K !! i = Some a -> i <> 1 ->
       exists b c, K !! k_parent a = Some b /\ k_path a = k_path b ++ [c].

Definition sim (m : inomap) (K : kview) : Prop := map_Forall2 (fun _ => node_rel) m K /\ tree K.

Lemma sim_lookup m K i :
  sim m K ->
  (exists r a, m !! i = Some r /\ K !! i = Some a /\ node_rel r a)
  \/ (m !! i = None /\ K !! i = None).
Proof.
  intros [H _]. specialize (H i). inversion H as [r a Hr E1 E2|E1 E2]; [left|by right].
  by exists r, a.
Qed.

Lemma sim_size m K : sim m K -> size m = size K.
Proof.
  intros [H _]. rewrite <- (size_dom (M := gmap Z) m), <- (size_dom (M := gmap Z) K).
  by rewrite (map_Forall2_dom_L _ _ _ H).
Qed.

Lemma path_text_snoc p c : path_text (p ++ [c]) = path_text p ++ lit "/" ++ c.
Proof. unfold path_text. rewrite map_app, join_app. cbn. by rewrite app_nil_r. Qed.

Lemma last_component_snoc a p c : k_path a = p ++ [c] -> last_component a = c.
Proof. unfold last_component. intros ->. by rewrite last_snoc. Qed.

Lemma fullname_sim m K i a r :
  sim m K -> i <> 1 -> K !! i = Some a -> m !! i = Some r ->
  fullname_of m r = Ret (path_text (k_path a)).
Proof.
  intros Hs Hi Ha Hr.
  assert (exists fuel, _fullname fuel m r = Ret (path_text (k_path a))) as [fuel E].
  2: { rewrite (fullname_fuel fuel); [done|by rewrite E]. }
  remember (length (k_path a)) as n eqn:En. revert i a r Hi Ha Hr En.
  induction n as [n IH] using (well_founded_induction lt_wf). intros i a r Hi Ha Hr ->.
  pose proof Hs as [Hm [(a1 & H1 & Ep1) Ht]]. destruct (Ht i a Ha Hi) as (b & c & Hb & Ep).
  destruct (sim_lookup m K i Hs) as [(r' & a' & Hr' & Ha' & Epi & En & _)|[? _]]; [|congruence].
  simplify_eq.
  rewrite (last_component_snoc _ _ _ Ep) in En.
  destruct (Z.eqb_spec (pino r) 1) as [E1|E1].
  - exists 1%nat. cbn. rewrite E1, En, Ep. cbn.
    rewrite <- Epi, E1, H1 in Hb. injection Hb as <-. rewrite Ep1. cbn. by rewrite app_nil_r.
  - destruct (sim_lookup m K (k_parent a) Hs) as [(q & b' & Hq & Hb' & _)|[_ Hn]]; [|congruence].
    rewrite Hb in Hb'. injection Hb' as <-.
    destruct (IH (length (k_path b))) with (i := k_parent a) (a := b) (r := q) as [fuel E];
      [rewrite Ep, length_app; cbn; lia|congruence|done..|].
    exists (S fuel). cbn [_fullname]. rewrite (proj2 (Z.eqb_neq _ _)) by done.
    rewrite Epi, Hq, E. cbn [mbind outcome_bind]. by rewrite En, Ep, path_text_snoc.
Qed.

Lemma tree_update K i a a' :
  tree K -> K !! i = Some a -> k_parent a' = k_parent a -> k_path a' = k_path a ->
  tree (<[i := a']> K).
Proof.
  intros [(a1 & H1 & Ep1) Ht] Ha Epa Epath. split.
  - destruct (decide (i = 1)) as [->|Hi].
    + exists a'. rewrite lookup_insert_eq. split; [done|]. congruence.
    + exists a1. by rewrite lookup_insert_ne.
  - intros j b Hb Hj.
    assert (exists b0, K !! j = Some b0 /\ k_parent b = k_parent b0 /\ k_path b = k_path b0)
      as (b0 & Hb0 & -> & ->).
    { destruct (decide (i = j)) as [<-|Hij].
      - rewrite lookup_insert_eq in Hb. injection Hb as <-. eauto.
      - rewrite lookup_insert_ne in Hb by done. eauto. }
    destruct (Ht j b0 Hb0 Hj) as (d & c & Hd & Ec).
    destruct (decide (i = k_parent b0)) as [->|Hn].
    + exists a', c. rewrite lookup_insert_eq. split; [done|]. congruence.
    + exists d, c. by rewrite lookup_insert_ne.
Qed.

Lemma sim_update m K i a r' a' :
  sim m K -> K !! i = Some a -> k_parent a' = k_parent a -> k_path a' = k_path a ->
  node_rel r' a' -> sim (<[i := r']> m) (<[i := a']> K).
Proof.
  intros [Hm Ht] Ha Epa Ep Hr. split; [by apply map_Forall2_insert_2|by eapply tree_update].
Qed.

Lemma sim_new m K i p b n r' a' :
  sim m K -> K !! i = None -> i <> 1 -> K !! p = Some b -> k_parent a' = p ->
  k_path a' = k_path b ++ [n] -> node_rel r' a' -> sim (<[i := r']> m) (<[i := a']> K).
Proof.
  intros [Hm [(a1 & H1 & Ep1) Ht]] Hi Hi1 Hb Epa Ep Hr. split; [by apply map_Forall2_insert_2|].
  split; [exists a1; by rewrite lookup_insert_ne by congruence|].
  intros j c Hc Hj. destruct (decide (i = j)) as [<-|Hij].
  - rewrite lookup_insert_eq in Hc. injection Hc as <-. exists b, n.
    by rewrite Epa, lookup_insert_ne by congruence.
  - rewrite lookup_insert_ne in Hc by done. destruct (Ht j c Hc Hj) as (d & x & Hd & Ex).
    exists d, x. by rewrite lookup_insert_ne by congruence.
Qed.

Lemma sim_delete m K i :
  sim m K -> i <> 1 -> (forall j b, K !! j = Some b -> j <> 1 -> k_parent b <> i) ->
  sim (delete i m) (delete i K).
Proof.
  intros [Hm [(a1 & H1 & Ep1) Ht]] Hi Hno. split; [by apply map_Forall2_delete|].
  split; [exists a1; by rewrite lookup_delete_ne|].
  intros j c Hc Hj. apply lookup_delete_Some in Hc as [Hij Hc].
  destruct (Ht j c Hc Hj) as (d & x & Hd & Ex). exists d, x.
  rewrite lookup_delete_ne; [done|]. intros E. by apply (Hno j c).
Qed.

Lemma swrap31 z : 0 <= z < 2 ^ 30 -> swrap 31 z = z.
Proof. intros. apply swrap_small; lia. Qed.

Ltac node_ok := repeat split; first [done | cbn; lia].

(** Evaluate an operation up to the lookups, whose results are known. *)
Ltac run_with eqs :=
  cbn [run_op spec_op];
  unfold with_node, ino_to_fullname, ino_to_fullname_validator, ino_to_pino, ino_to_pino_name,
    ino_get_validator, ino_update_validator, ino_remember, ino_forget, ino_count, nested,
    inomap_at, try_M, get, lift, modify, raise, mret, M_ret, mbind, M_bind;
  cbv beta iota; rewrite ?eqs; cbv beta iota.

Lemma step_remember m K p n i v :
  sim m K -> allowed (Remember p n i v) K ->
  (run_op (Remember p n i v) m).1 = (spec_op (Remember p n i v) K).1
  /\ sim (run_op (Remember p n i v) m).2 (spec_op (Remember p n i v) K).2.
Proof.
  intros Hs (Hi & Hn & [b Hb] & Ha). pose proof Hn as Ec%c_str_id.
  destruct (sim_lookup m K i Hs) as [(r & a & Hr & Hka & Hrel)|[Hr Hka]].
  - rewrite Hka in Ha. destruct Ha as [Hc _]. destruct Hrel as (E1 & E2 & E3 & E4 & E5).
    run_with Hr. rewrite Hka, Ec, E2.
    destruct (decide (n = last_component a)) as [->|Hd].
    + rewrite bool_decide_eq_true_2 by done. cbn. split; [done|].
      eapply sim_update; [done..|]. rewrite E4, swrap31 by lia.
      node_ok.
    + rewrite bool_decide_eq_false_2 by done. by cbn.
  - run_with Hr. rewrite Hka, Hb. cbn. split; [done|].
    eapply sim_new; [done..|]. repeat split; [|cbn; lia..].
    change (name (inorecord_ctor n p v) = last_component (KNode p (k_path b ++ [n]) 1 v)).
    by rewrite name_ctor, Ec, (last_component_snoc _ (k_path b) n).
Qed.

Lemma step_forget m K i n :
  sim m K -> allowed (Forget i n) K ->
  (run_op (Forget i n) m).1 = (spec_op (Forget i n) K).1
  /\ sim (run_op (Forget i n) m).2 (spec_op (Forget i n) K).2.
Proof.
  intros Hs (Hi & Hn & Ha).
  destruct (sim_lookup m K i Hs) as [(r & a & Hr & Hka & Hrel)|[Hr Hka]]; run_with Hr; rewrite Hka; [|done].
  rewrite Hka in Ha. destruct Ha as [Hc Hlast]. destruct Hrel as (E1 & E2 & E3 & E4 & E5). rewrite E4.
  rewrite (wrap_small 64 (k_count a)), (wrap_small 64), swrap31 by lia.
  rewrite (proj2 (Z.ltb_ge _ _)) by lia. destruct (Z.eqb_spec (k_count a) n) as [<-|Hne].
  - rewrite Z.sub_diag. cbn. split; [done|]. apply sim_delete; [done..|by apply Hlast].
  - rewrite (proj2 (Z.eqb_neq (k_count a - n) 0)) by lia. cbn. split; [done|].
    eapply sim_update; [done..|]. node_ok.
Qed.

Lemma step_update m K i v :
  sim m K -> i <> 1 ->
  (run_op (UpdateValidator i v) m).1 = (spec_op (UpdateValidator i v) K).1
  /\ sim (run_op (UpdateValidator i v) m).2 (spec_op (UpdateValidator i v) K).2.
Proof.
  intros Hs Hi.
  destruct (sim_lookup m K i Hs) as [(r & a & Hr & Hka & Hrel)|[Hr Hka]]; run_with Hr; rewrite Hka; [|done].
  pose proof Hrel as (E1 & E2 & E3 & E4 & E5). rewrite E3.
  destruct (Z.ltb_spec v (k_validator a)) as [Hlt|Hge].
  - rewrite (proj2 (Z.ltb_ge (k_validator a) v)) by lia. rewrite E3, (proj2 (Z.ltb_lt _ _)) by lia.
    rewrite insert_id by done. rewrite (fullname_sim m K i a r Hs Hi Hka Hr). by cbn.
  - destruct (Z.ltb_spec (k_validator a) v) as [Hlt|Hle].
    + cbn. rewrite Z.ltb_irrefl. cbn. split; [done|]. eapply sim_update; [done..|]. node_ok.
    + assert (v = k_validator a) as -> by lia. rewrite E3, Z.ltb_irrefl. cbn. split; [done|].
      eapply sim_update; [done..|]. node_ok.
Qed.

Lemma step_query m K i :
  sim m K ->
  let q o := run_op o m = ((spec_op o K).1, m) /\ (spec_op o K).2 = K in
  q (GetValidator i) /\ q (Fullname i) /\ q (FullnameValidator i) /\ q (Pino i) /\ q (PinoName i) /\ q Count.
Proof.
  intros Hs q. unfold q. clear q.
  assert (i = 1 \/ i <> 1) as [->|Hi] by lia.
  - pose proof Hs as [_ [(a1 & H1 & Ep1) _]].
    destruct (sim_lookup m K 1 Hs) as [(r & a & Hr & Hka & E1 & E2 & E3 & E4 & E5)|[_ ?]]; [|congruence].
    rewrite H1 in Hka. injection Hka as <-.
    run_with Hr. rewrite H1, Ep1, E1, E2, E3, (sim_size m K Hs). by repeat split.
  - destruct (sim_lookup m K i Hs) as [(r & a & Hr & Hka & Hrel)|[Hr Hka]];
      run_with Hr; rewrite Hka, (sim_size m K Hs), !(proj2 (Z.eqb_neq i 1) Hi); cbv beta iota; rewrite ?Hr.
    + destruct Hrel as (E1 & E2 & E3 & E4 & E5).
      rewrite (fullname_sim m K i a r Hs Hi Hka Hr), E1, E2, E3. by repeat split.
    + by repeat split.
Qed.

Lemma inomap_step o m K :
  sim m K -> allowed o K ->
  (run_op o m).1 = (spec_op o K).1 /\ sim (run_op o m).2 (spec_op o K).2.
Proof.
  intros Hs Ha.
  assert (run_op o m = ((spec_op o K).1, m) /\ (spec_op o K).2 = K ->
    (run_op o m).1 = (spec_op o K).1 /\ sim (run_op o m).2 (spec_op o K).2) as Hq
    by (by intros [-> ->]).
  destruct o as [p n i v|i n|i v|i|i|i|i|i|].
  1: by apply step_remember. 1: by apply step_forget. 1: by apply step_update.
  1-5: apply Hq, (step_query m K i Hs). apply Hq, (step_query m K 1 Hs).
Qed.

Lemma inomap_init_sim dotdot : sim (inomap_init dotdot) (kview_init dotdot).
Proof.
  unfold inomap_init, kview_init. cbn. split.
  - apply map_Forall2_singleton. by repeat split.
  - split; [by eexists; rewrite lookup_singleton_eq|].
    intros i a [<- <-]%lookup_singleton_Some Hi. done.
Qed.

Lemma run_ops_sim os m K :
  sim m K -> allowed_ops os K -> (run_ops run_op os m).1 = (run_ops spec_op os K).1.
Proof.
  revert m K. induction os as [|o os IH]; intros m K Hs; [done|]. intros [Ha Hos]. cbn.
  destruct (inomap_step o m K Hs Ha) as [E Hs'].
  destruct (run_op o m) as [a m'], (spec_op o K) as [a' K']. cbn in *. subst a'.
  specialize (IH m' K' Hs' Hos).
  destruct (run_ops run_op os m') as [l ?], (run_ops spec_op os K') as [l' ?]. cbn in *. by subst.
Qed.

(** ** Any kernel at all *)

(** What [ino_update_validator] accepted for one inode. *)
Definition accepted1 (ino : Z) (o : op) (a : outcome answer) : list Z :=
  match o, a with
  | UpdateValidator i v, Ret _ => if decide (i = ino) then [v] else []
  | _, _ => []
  end.
Fixpoint accepted (ino : Z) (os : list op) (l : list (outcome answer)) : list Z :=
  match os, l with
  | o :: os', a :: l' => accepted1 ino o a ++ accepted ino os' l'
  | _, _ => []
  end.

Definition forgets (ino : Z) (o : op) : bool :=
  match o with Forget i _ => bool_decide (i = ino) | _ => false end.

Lemma update_cases i v m :
  match m !! i with
  | None => run_op (UpdateValidator i v) m = (Throw not_there, m)
  | Some r =>
      if v <? validator r then is_ret (run_op (UpdateValidator i v) m).1 = false
        /\ (run_op (UpdateValidator i v) m).2 = <[i := r]> m
      else run_op (UpdateValidator i v) m = (Ret (AZ (validator r)), <[i := set_validator v r]> m)
  end.
Proof.
  destruct (m !! i) as [r|] eqn:Hr; run_with Hr; [|done].
  destruct (Z.ltb_spec v (validator r)) as [Hlt|Hge].
  - rewrite (proj2 (Z.ltb_ge (validator r) v)) by lia. cbv beta iota.
    rewrite (proj2 (Z.ltb_lt v _)) by lia. by destruct (fullname_of _ _) as [|[]|].
  - destruct (Z.ltb_spec (validator r) v) as [Hlt|Hle].
    + cbn. by rewrite Z.ltb_irrefl.
    + assert (v = validator r) as -> by lia. rewrite Z.ltb_irrefl. by destruct r.
Qed.

Lemma query_keeps o m :
  match o with Remember _ _ _ _ | Forget _ _ | UpdateValidator _ _ => False | _ => True end ->
  (run_op o m).2 = m.
Proof.
  destruct o as [p n i v|i n|i v|i|i|i|i|i|]; try done; intros _;
    destruct (m !! i) as [r|] eqn:Hi; run_with Hi; try done;
    destruct (i =? 1); cbv beta iota; rewrite ?Hi; try done; by destruct (fullname_of m _).
Qed.

(** A remembered inode stays with a validator that is not smaller, and an
    accepted validator is the one it has then. *)
Lemma validator_step ino o m :
  forgets ino o = false ->
  (forall r, m !! ino = Some r ->
     exists r', (run_op o m).2 !! ino = Some r' /\ validator r <= validator r')
  /\ (accepted1 ino o (run_op o m).1 = []
      \/ exists v r', accepted1 ino o (run_op o m).1 = [v] /\ (run_op o m).2 !! ino = Some r'
           /\ validator r' = v /\ forall r, m !! ino = Some r -> validator r <= v).
Proof.
  intros Hf.
  assert (match o with Remember _ _ _ _ | Forget _ _ | UpdateValidator _ _ => False | _ => True end ->
    (forall r, m !! ino = Some r ->
       exists r', (run_op o m).2 !! ino = Some r' /\ validator r <= validator r')
    /\ accepted1 ino o (run_op o m).1 = []) as Hq.
  { intros Hq. rewrite (query_keeps o m Hq). split; [eauto with lia|by destruct o]. }
  destruct o as [p n i v|i n|i v|i|i|i|i|i|];
    try (destruct (Hq I); split; [done|by left]); clear Hq.
  - split; [|by left]. intros r Hr. run_with Hr. destruct (m !! i) as [q|] eqn:Hi.
    + destruct (bool_decide _); cbn; [|by exists r]. destruct (decide (i = ino)) as [->|].
      * rewrite lookup_insert_eq. simplify_eq. by eexists.
      * rewrite lookup_insert_ne by done. by exists r.
    + cbn. rewrite lookup_insert_ne by congruence. by exists r.
  - split; [|by left]. cbn in Hf. apply bool_decide_eq_false in Hf.
    intros r Hr. run_with Hr. destruct (m !! i) as [q|] eqn:Hi; [|by exists r].
    exists r. split; [|done]. cbv beta iota zeta.
    destruct (_ =? 0); cbn; by rewrite ?lookup_delete_ne, ?lookup_insert_ne.
  - pose proof (update_cases i v m) as Hu. destruct (decide (i = ino)) as [->|Hne].
    + destruct (m !! ino) as [q|] eqn:Hi; [|rewrite Hu; split; [done|by left]].
      destruct (Z.ltb_spec v (validator q)) as [Hlt|Hge].
      * destruct Hu as [Hu1 Hu2]. rewrite Hu2. split.
        -- intros r [= <-]. exists q. by rewrite lookup_insert_eq.
        -- left. revert Hu1. unfold accepted1. by destruct (run_op _ m).1.
      * rewrite Hu. cbn. rewrite lookup_insert_eq. split.
        -- intros r [= <-]. by eexists.
        -- right. exists v, (set_validator v q). rewrite decide_True by done. split; [done|].
           split; [done|]. split; [done|]. by intros r [= <-].
    + split.
      * intros r Hr. exists r. split; [|done]. destruct (m !! i) as [q|]; [|by rewrite Hu].
        case_match; [destruct Hu as [_ ->]|rewrite Hu]; cbn; by rewrite lookup_insert_ne.
      * left. unfold accepted1. destruct (run_op _ m).1; [by rewrite decide_False|done..].
Qed.

Lemma accepted_sorted_from ino os m :
  forallb (fun o => negb (forgets ino o)) os = true ->
  StronglySorted Z.le (accepted ino os (run_ops run_op os m).1)
  /\ forall r, m !! ino = Some r -> Forall (Z.le (validator r)) (accepted ino os (run_ops run_op os m).1).
Proof.
  revert m. induction os as [|o os IH]; intros m; cbn [forallb]; [by repeat constructor|].
  intros [Ho Hos]%andb_prop. apply negb_true_iff in Ho.
  pose proof (validator_step ino o m Ho) as [Hkeep Hacc]. cbn [run_ops].
  destruct (run_op o m) as [a m'] eqn:Eo. cbn in Hkeep, Hacc.
  destruct (IH m' Hos) as [Hs Hb]. destruct (run_ops run_op os m') as [l m''] eqn:El.
  cbn [fst accepted] in *. destruct Hacc as [-> |(v & r' & -> & Hr' & <- & Hle)]; cbn [app].
  - split; [done|]. intros r Hr. destruct (Hkeep r Hr) as (r' & Hr' & Hle).
    eapply Forall_impl; [|by apply Hb]. intros z. cbn. lia.
  - split; [constructor; [done|by apply Hb]|]. intros r Hr. constructor; [by apply Hle|].
    specialize (Hle r Hr). eapply Forall_impl; [|by apply Hb]. intros z. cbn. lia.
Qed.

(** ** Properties *)

(** C21.  The table of inodes refines the kernel's view of the mounted tree: for
    every sequence of lookups, forgets, validator updates and questions that
    a kernel keeping to its rules can send, every answer of the table,
    exceptions included, is the one read off the abstract tree.  In
    particular an inode is in the table exactly while the kernel holds
    lookups of it, [ino_to_fullname] ends and gives the path the kernel walked to
    it, and [ino_update_validator] refuses exactly the validators older than
    the newest one. *)
Theorem inomap_refines dotdot os :
  allowed_ops os (kview_init dotdot) ->
  (run_ops run_op os (inomap_init dotdot)).1 = (run_ops spec_op os (kview_init dotdot)).1.
Proof. apply run_ops_sim, inomap_init_sim. Qed.

Definition wx_ops : list op :=
  [Remember 1 (lit "a-long-directory-name") 77 10; Remember 77 (lit "f") 99 20; Fullname 99;
   Remember 77 (lit "f") 99 25; UpdateValidator 99 30; UpdateValidator 99 29; FullnameValidator 99;
   Remember 77 (lit "g") 99 1; Forget 99 1; PinoName 99; Forget 99 1; Fullname 99; GetValidator 99;
   Forget 77 1; Count].

Lemma inomap_refines_witness :
  (run_ops run_op wx_ops (inomap_init 5000)).1 = (run_ops spec_op wx_ops (kview_init 5000)).1
  /\ (run_ops run_op wx_ops (inomap_init 5000)).1
     = [Ret ANone; Ret ANone; Ret (AText (lit "/a-long-directory-name/f")); Ret ANone; Ret (AZ 20);
        Throw (EOutOfOrder 29 30); Ret (ATextZ (lit "/a-long-directory-name/f") 30);
        Throw (ESystem EINVAL); Ret ANone; Ret (AZText 77 (lit "f")); Ret ANone; Throw EOutOfRange;
        Throw not_there; Ret ANone; Ret (AZ 1)].
Proof.
  split; [|vm_compute; reflexivity].
  apply (inomap_refines 5000 wx_ops).
  apply (bool_decide_eq_true_1 _). vm_compute. reflexivity.
Defined.

(** However the kernel behaves: as long as an inode is not forgotten, the
    validators that [ino_update_validator] accepts for it, whatever threads
    they come from and whatever else is done in between, never decrease; one
    smaller than an accepted one is refused, so the kernel's cached pages are
    never taken for newer than they are. *)
Theorem accepted_validators_sorted ino os m :
  forallb (fun o => negb (forgets ino o)) os = true ->
  StronglySorted Z.le (accepted ino os (run_ops run_op os m).1).
Proof. intros H. by apply (accepted_sorted_from ino os m). Qed.

Lemma accepted_validators_sorted_witness :
  StronglySorted Z.le (accepted 99 (take 8 wx_ops) (run_ops run_op (take 8 wx_ops) (inomap_init 5000)).1)
  /\ accepted 99 (take 8 wx_ops) (run_ops run_op (take 8 wx_ops) (inomap_init 5000)).1 = [30].
Proof.
  split; [apply (accepted_validators_sorted 99 (take 8 wx_ops) (inomap_init 5000))|]; vm_compute; reflexivity.
Defined.

(** ** What the table does not see *)

(** Only the name is compared: the same number for the same name in another
    directory is taken for the first one. *)
Example remember_other_parent :
  (run_ops run_op [Remember 1 (lit "a") 77 1; Remember 1 (lit "b") 78 1; Remember 77 (lit "f") 99 1;
                   Remember 78 (lit "f") 99 1; Fullname 99] (inomap_init 5000)).1 !! 4%nat
  = Some (Ret (AText (lit "/a/f"))).
Proof. reflexivity. Qed.

(** The count has 31 bits: two lookups too many, one of them forgotten, and the
    negative count makes [ino_forget] drop a record the kernel still uses. *)
Example refcount_wraps :
  let r := InoRecord (fill_buf (lit "f")) (2 ^ 30 - 1) 1 1 in
  refcount <$> ((run_op (Remember 1 (lit "f") 99 1) {[ 99 := r ]}).2 !! 99) = Some (- 2 ^ 30)
  /\ (run_ops run_op [Remember 1 (lit "f") 99 1; Remember 1 (lit "f") 99 1; Forget 99 1; GetValidator 99]
       {[ 99 := r ]}).1 !! 3%nat = Some (Throw not_there).
Proof. by vm_compute. Qed.
