(* ===== verification/Beget.v ===== *)
(** * Asking upstream (exe/fs123p7/app_mount.cpp)

    What lies between the callbacks of the client and its stack of backends:
    the retry loop, the decoding of replies, the check of the estale cookie
    and the attribute cache.  The backends are an interface, [Upstream], as
    they are in the code (the virtual [backend123::refresh]); the disk cache
    of DiskCache.v is one implementation of it.

    Theorems: the retry loop ends, within a number of attempts given by the
    options; attributes, and the contents of anything whose cookie is checked,
    are never those of another incarnation of the inode. *)

From Stdlib Require Import Ascii String ZArith Lia.
From stdpp Require Import base gmap strings list numbers.
From S2P Require Import Prelude ScanInt StrUtils Threeroe SvTo UcharSpan Base64 ContentCodec Expiring Backend.
From S2P Require Import ServerParse Envelope ServerReply ClientReply StatSer EstaleCookie Inomap.

#[local] Open Scope Z_scope.

(** ** Attributes *)

(** The members without an initialiser are indeterminate in a
    default-constructed one; nothing reads them there. *)
Record attrcache_value_t := ACV {
  a_eno : Z;
  a_estale_cookie : Z;
  a_swr : Z;
  a_cacheable : bool;
  a_sb : stat;
  a_validator : Z;
}.
Definition attrcache_value_default : attrcache_value_t := ACV (-1) 0 0 false stat_zero 0.
#[export] Instance attrcache_value_inhabited : Inhabited attrcache_value_t :=
  populate attrcache_value_default.

Abbreviation begetattr_t := (expiring attrcache_value_t).

(** [attrcache_value_t(const decoded_reply&)] *)
Definition attrcache_value_ctor (minor : Z) (dr : decoded) : outcome attrcache_value_t :=
  rethrow_nested ERuntime
    (if negb (d_eno dr =? 0)
     then Ret (ACV (d_eno dr) 0 (d_swr dr) (d_cacheable dr) stat_zero 0)
     else
       '(sb, off) ← svscan_stat (d_content dr) 0;
       cookie ← (if S_ISREG (st_mode sb) || S_ISDIR (st_mode sb) then d_estale_cookie dr else Ret 0);
       v ← (if 3 <=? minor then d_validator dr
            else '(v, _) ← svscan T_u64 (d_content dr) off; Ret v);
       Ret (ACV (d_eno dr) cookie (d_swr dr) (d_cacheable dr) sb v)).

(** ** Retrying *)

Definition ECONNRESET : Z := 104.
Definition ETIMEDOUT : Z := 110.
Definition ENETDOWN : Z := 100.
Definition ENETUNREACH : Z := 101.
Definition EHOSTDOWN : Z := 112.
Definition EHOSTUNREACH : Z := 113.
Definition CURLE_COULDNT_RESOLVE_HOST : Z := 6.
Definition CURLE_COULDNT_CONNECT : Z := 7.
Definition CURLE_OPERATION_TIMEDOUT : Z := 28.

Definition curl_retryable (eno code : Z) : bool :=
  bool_decide (eno ∈ [ECONNRESET; ETIMEDOUT; ENETDOWN; ENETUNREACH; EHOSTDOWN; EHOSTUNREACH])
  || bool_decide (code ∈ [CURLE_COULDNT_CONNECT; CURLE_COULDNT_RESOLVE_HOST; CURLE_OPERATION_TIMEDOUT]).

(** The first error of libcurl or http in a nest, from the inside. *)
Fixpoint retryable (l : list exn) : bool :=
  match l with
  | [] => false
  | ECurl eno code :: _ => curl_retryable eno code
  | EHttp status :: _ => bool_decide (status ∈ [500; 501; 502; 504; 503])
  | _ :: l' => retryable l'
  end.

Definition rethrow_to_abandon_retry (e : exn) : outcome unit :=
  if retryable (rev (exnest e)) then Ret tt else Throw (ENested ERuntime e).

(** Times are in nanoseconds; 0 is the epoch, a default time point. *)
Record delay_manager := DelayManager { end_time : Z; delay_for : Z; saturation : Z }.

Definition msec : Z := 1000000.
Definition sec : Z := 1000000000.

(** ** The mount *)

Record mount_config := MountConfig {
  m_req : req_config;
  secret_manager : option secret_mgr;
  encrypt_requests : bool;
  accept_plaintext_replies : bool;
  ignore_estale_mismatch : bool;
  retry_timeout : Z;
  retry_initial_millis : Z;
  retry_saturate : Z;
  Fs123Chunk : Z;
}.

(** What the mount sits on: the topmost backend, whose [refresh] fills in a
    reply or throws, the clock, sleeping, memory fresh from the allocator and
    the notifications to the kernel. *)
Class Upstream (W : Type) := {
  be_refresh : req123 -> reply123 -> W -> (outcome unit * reply123) * W;
  clk_now : W -> Z * W;
  sleep_for : Z -> W -> W;
  fresh_blob : Z -> W -> bytes * W;
  notify_inval_entry : Z -> bytes -> W -> W;
  notify_inval_inode : Z -> W -> W;
}.

Section Beget.
Context {W T : Type} {UW : Upstream W} {HU : UMap Z begetattr_t T} `{SB : Secretbox}.
Context (cfg : mount_config).
(** The rounds a loop is followed for: [retry_loop_enough] bounds those of the
    retry loop, and a reply is read in a round per pair. *)
Context (fuel : nat).

Record cst := Cst {
  inos : inomap;
  attrcache : expiring_cache (T := T);
  root_estale_cookie : option Z;     (* the static of [cookie_mismatch] *)
  cworld : W;
}.

Definition set_inos (i : inomap) (s : cst) : cst := Cst i (attrcache s) (root_estale_cookie s) (cworld s).
Definition set_attrcache (c : expiring_cache (T := T)) (s : cst) : cst :=
  Cst (inos s) c (root_estale_cookie s) (cworld s).
Definition set_root_cookie (c : Z) (s : cst) : cst := Cst (inos s) (attrcache s) (Some c) (cworld s).
Definition set_world (w : W) (s : cst) : cst := Cst (inos s) (attrcache s) (root_estale_cookie s) w.

Definition on_inos {A} (f : M inomap A) : M cst A := fun s =>
  let '(r, i) := f (inos s) in (r, set_inos i s).
Definition on_world {A} (f : W -> A * W) : M cst A := fun s =>
  let '(a, w) := f (cworld s) in (Ret a, set_world w s).
Definition tell (f : W -> W) : M cst unit := modify (fun s => set_world (f (cworld s)) s).

(** *** Keys and cookies *)

Definition genino (estale_cookie pino : Z) (name : bytes) : Z :=
  hash64 (threeroe_of name pino estale_cookie).

Definition attrcache_key (pino : Z) (lastcomponent : bytes) : Z := hash64 (threeroe_of lastcomponent pino 0).

Definition max_special_ino : Z := 5.

Definition cookie_mismatch (ino estale_cookie : Z) : M cst bool :=
  if ino =? 0 then mret false else
  if ignore_estale_mismatch cfg then mret false else
  if ino =? 1 then
    s ← get;
    match root_estale_cookie s with
    | Some c => mret (negb (c =? estale_cookie))
    | None => modify (set_root_cookie estale_cookie);; mret false
    end
  else if ino <=? max_special_ino then mret false else
  '(pino, name) ← on_inos (ino_to_pino_name ino);
  mret (negb (ino =? genino estale_cookie pino name)).

Definition fullname (pino : Z) (lastcomponent : bytes) : M cst bytes :=
  if bool_decide (lastcomponent = []) then mret [] else
  p ← on_inos (ino_to_fullname pino);
  mret (p ++ lit "/" ++ lastcomponent).

(** *** The retry loop *)

Definition delay_manager_ctor (ttl_seconds initial_delay_millis saturation_seconds : Z) : M cst delay_manager :=
  let dm end_time := DelayManager end_time (initial_delay_millis * msec) (saturation_seconds * sec) in
  if 0 <? ttl_seconds then now ← on_world clk_now; mret (dm (now + ttl_seconds * sec))
  else mret (dm 0).

Definition delay (dm : delay_manager) : M cst (bool * delay_manager) :=
  if end_time dm =? 0 then mret (false, dm) else
  now ← on_world clk_now;
  if end_time dm <? now then mret (false, dm) else
  tell (sleep_for (delay_for dm));;
  let d := delay_for dm * 2 in
  mret (true, DelayManager (end_time dm) (if saturation dm <? d then saturation dm else d) (saturation dm)).

Fixpoint retry_loop (n : nat) (dm : delay_manager) (req : req123) (reply : reply123) : M cst reply123 :=
  match n with
  | O => lift Undef
  | S n' =>
      '(r, reply) ← on_world (be_refresh req reply);
      match r with
      | Ret _ => mret reply
      | Undef => lift Undef
      | Throw e =>
          lift (rethrow_to_abandon_retry e);;
          '(again, dm) ← delay dm;
          if again : bool then retry_loop n' dm req reply else raise (ENested ERuntime e)
      end
  end.

Definition retrying_berefresh (req : req123) : M cst reply123 :=
  dm ← delay_manager_ctor (retry_timeout cfg) (retry_initial_millis cfg) (retry_saturate cfg);
  retry_loop fuel dm req reply_default.

(** *** Decoding *)

Definition decode_plaintext (reply : reply123) (plaintext stem : bytes) : M cst decoded :=
  match decoded_reply fuel (m_req cfg) reply plaintext stem with
  | Some r => lift r
  | None => lift Undef
  end.

Definition beget_decode (req : req123) : M cst decoded :=
  reply ← retrying_berefresh req;
  if content_encoding reply =? CE_IDENT then
    if negb (accept_plaintext_replies cfg) then raise (ESystem EIO) else
    decode_plaintext reply (content reply) (urlstem req)
  else if content_encoding reply =? CE_FS123_SECRETBOX then
    match secret_manager cfg with
    | None => raise (ESystem EIO)
    | Some sm =>
        match content_decode (content_encoding reply) (Span 0 (zlen (content reply)) 0 (zlen (content reply)))
                (get_sharedkey sm) (content reply) with
        | (Ret sp, mem) => decode_plaintext reply (contents mem sp) (urlstem req)
        | (Throw e, _) => raise e
        | (Undef, _) => lift Undef
        end
    end
  else raise (ESystem EIO).

(** *** beget *)

Definition set_urlstem (stem : bytes) (r : req123) : req123 :=
  Req stem (stale_if_error r) (past_stale_while_revalidate r) (no_cache r) (max_stale r) (no_peer_cache r).
Definition set_no_cache (b : bool) (r : req123) : req123 :=
  Req (urlstem r) (stale_if_error r) (past_stale_while_revalidate r) b (max_stale r) (no_peer_cache r).
Definition set_max_stale (m : option Z) (r : req123) : req123 :=
  Req (urlstem r) (stale_if_error r) (past_stale_while_revalidate r) (no_cache r) m (no_peer_cache r).

Definition encrypt_req (req : req123) : M cst req123 :=
  if negb (encrypt_requests cfg) then mret req else
  match secret_manager cfg with
  | None => raise ELogic
  | Some sm =>
      junk ← on_world (fresh_blob (zlen (urlstem req) + secretbox_leadersz + 8));
      stem ← lift (encrypt_request sm junk (urlstem req));
      mret (set_urlstem stem req)
  end.

Definition attrcache_erase (key : Z) : M cst unit :=
  modify (fun s => set_attrcache (cache_erase key (attrcache s)) s).

Definition beflush (pino : Z) (lastcomponent : bytes) : M cst unit :=
  attrcache_erase (attrcache_key pino lastcomponent);;
  name ← fullname pino lastcomponent;
  req ← encrypt_req (set_no_cache true (attrreq (m_req cfg) name));
  '(r, _) ← on_world (be_refresh req reply_default);
  lift r.

(** [reply.eno==0 && check_cookie && cookie_mismatch(ino, reply.estale_cookie())] *)
Definition mismatch (ino : Z) (check_cookie : bool) (reply : decoded) : M cst bool :=
  if (d_eno reply =? 0) && check_cookie then
    c ← lift (d_estale_cookie reply); cookie_mismatch ino c
  else mret false.

Definition beget (ino : Z) (req : req123) (check_cookie : bool) : M cst decoded :=
  req ← encrypt_req req;
  reply ← beget_decode req;
  bad ← mismatch ino check_cookie reply;
  if negb bad then mret reply else
  reply ← beget_decode (set_no_cache true req);
  bad ← mismatch ino check_cookie reply;
  if negb bad then mret reply else
  '(pino, name) ← on_inos (ino_to_pino_name ino);
  tell (notify_inval_entry pino name);;
  beflush pino name;;
  raise (ESystem ESTALE).

Definition begetchunk_dir (ino : Z) (start : bytes) : M cst decoded :=
  name ← on_inos (ino_to_fullname ino);
  beget ino (dirreq (m_req cfg) name (Fs123Chunk cfg) start) true.

Definition begetchunk_file (ino startkib : Z) (nocache : bool) : M cst decoded :=
  name ← on_inos (ino_to_fullname ino);
  beget ino (set_no_cache nocache (filereq (m_req cfg) name (Fs123Chunk cfg) startkib)) true.

Definition begetstatfs (ino : Z) : M cst decoded :=
  name ← on_inos (ino_to_fullname ino); beget ino (statfsreq (m_req cfg) name) false.

Definition begetlink (ino : Z) : M cst decoded :=
  name ← on_inos (ino_to_fullname ino); beget ino (linkreq (m_req cfg) name) false.

Definition begetxattr (ino : Z) (attrname : option bytes) (nosize : bool) : M cst decoded :=
  name ← on_inos (ino_to_fullname ino);
  beget ino (xattrreq (m_req cfg) name (if nosize then 0 else Fs123Chunk cfg) attrname) false.

Definition begetserver_stats (ino : Z) : M cst decoded := beget ino (statsreq (m_req cfg)) false.

(** *** Attributes, through their cache *)

(** The cached attributes, if there are any to be used.  Either the key is no
    longer in the cache afterwards or they are. *)
Definition attrcache_find (key ino : Z) : M cst (option begetattr_t) :=
  now ← on_world clk_now;
  s ← get;
  let '(cached_reply, c) := cache_lookup key now (attrcache s) in
  modify (set_attrcache c);;
  now ← on_world clk_now;
  if expired cached_reply now then mret None else
  bad ← cookie_mismatch ino (a_estale_cookie (e_val cached_reply));
  if negb bad then mret (Some cached_reply) else
  attrcache_erase key;; mret None.

Definition begetattr_at (pino : Z) (lc : bytes) (ino : Z) (mstale : option Z) (nocache : bool)
  : M cst begetattr_t :=
  let key := attrcache_key pino lc in
  found ← (if nocache then attrcache_erase key;; mret None else attrcache_find key ino);
  match found with
  | Some cached_reply => mret cached_reply
  | None =>
      name ← fullname pino lc;
      dr ← beget ino (set_no_cache nocache (set_max_stale mstale (attrreq (m_req cfg) name))) true;
      v ← lift (attrcache_value_ctor (proto_minor (m_req cfg)) dr);
      let eav := Expiring v (d_expires dr) in
      (if d_eno dr =? 0 then
         s ← get;
         '(_, c) ← lift (cache_insert key eav (attrcache s));
         modify (set_attrcache c)
       else mret tt);;
      mret eav
  end.

Definition begetattr (ino : Z) (mstale : option Z) (nocache : bool) : M cst begetattr_t :=
  '(pino, name) ← on_inos (ino_to_pino_name ino);
  begetattr_at pino name ino mstale nocache.

(** [clip(0, expires + swr - now, 1s)] *)
Definition ttl_or_stale (expires swr : Z) : M cst Z :=
  now ← on_world clk_now;
  if now <=? expires then lift (i64 (expires - now)) else
  e ← lift (i64 (expires + swr)); x ← lift (i64 (e - now));
  mret (if sec <? x then sec else if x <? 0 then 0 else x).
End Beget.

(** ** Lemmas *)

(** The clock never goes back, and a sleep takes its time. *)
Class UpstreamLaws (W : Type) {UW : Upstream W} := {
  time : W -> Z;
  clk_now_time w : time w <= (clk_now w).1 <= time (clk_now w).2;
  sleep_for_time d w : 0 <= d -> time w + d <= time (sleep_for d w);
  be_refresh_time req reply w : time w <= time (be_refresh req reply w).2;
}.

Section BegetLemmas.
Context {W T : Type} {UW : Upstream W} {HU : UMap Z begetattr_t T} `{SB : Secretbox}.
Context (cfg : mount_config) (fuel : nat).
Implicit Type s : cst (W := W) (T := T).

(** *** The retry loop ends *)

Section Retry.
Context {UL : UpstreamLaws W}.
Context (Hdef : forall req reply w, (be_refresh (W := W) req reply w).1.1 <> Undef).

(** At least [lo] nanoseconds pass between two attempts. *)
Lemma retry_loop_enough lo n dm req reply s :
  0 < lo -> lo <= delay_for dm -> lo <= saturation dm ->
  end_time dm = 0 /\ 1 <= Z.of_nat n \/ end_time dm - time (cworld s) < (Z.of_nat n - 1) * lo ->
  0 < Z.of_nat n ->
  (retry_loop (T := T) n dm req reply s).1 <> Undef.
Proof.
  intros Hlo. revert dm reply s. induction n as [|n IH]; intros dm reply s Hd Hs Hn Hn0; [lia|].
  cbn [retry_loop]. unfold mbind at 1, M_bind at 1, on_world at 1.
  pose proof (be_refresh_time req reply (cworld s)) as Ht. pose proof (Hdef req reply (cworld s)) as Hu.
  destruct (be_refresh req reply (cworld s)) as [[r reply'] w'] eqn:Eb. cbn in Ht, Hu |- *.
  destruct r as [?|e|]; [done| |done].
  unfold mbind at 1, M_bind at 1, lift at 1. unfold rethrow_to_abandon_retry.
  destruct (retryable _); [|done].
  unfold mbind at 1, M_bind at 1, delay. destruct (Z.eqb_spec (end_time dm) 0) as [E0|E0]; [done|].
  destruct Hn as [[? _]|Hn]; [done|].
  unfold mbind at 1, M_bind at 1, on_world at 1. cbn [set_world cworld].
  pose proof (clk_now_time w') as Hc. destruct (clk_now w') as [now w''] eqn:Ec. cbn in Hc.
  destruct (Z.ltb_spec (end_time dm) now) as [|Hnow]; [done|].
  unfold tell, modify, mret, M_ret, mbind, M_bind. cbn [set_world cworld].
  pose proof (sleep_for_time (delay_for dm) w'' ltac:(lia)) as Hsl.
  apply IH; cbn [end_time delay_for saturation cworld set_world];
    [destruct (Z.ltb_spec (saturation dm) (delay_for dm * 2)); lia|lia| |].
  - right. nia.
  - destruct n; [|lia]. exfalso. nia.
Qed.
End Retry.

(** *** What a request leaves alone, and what it checks *)

Definition same_inos (i : inomap) s : Prop := inos s = i.

Lemma keeps_world {A} i (f : W -> A * W) :
  keeps (S := cst (T := T)) (same_inos i) (on_world f) (fun _ => True).
Proof. intros s Hs. unfold on_world. by destruct (f (cworld s)). Qed.

Lemma keeps_tell i (f : W -> W) : keeps (S := cst (T := T)) (same_inos i) (tell f) (fun _ => True).
Proof. by apply keeps_modify. Qed.

Lemma keeps_inos {A} i (f : M inomap A) :
  (f i).2 = i -> keeps (S := cst (T := T)) (same_inos i) (on_inos f) (fun a => (f i).1 = Ret a).
Proof.
  intros Hf s Hs. unfold same_inos, on_inos in *. rewrite Hs. by destruct (f i) as [r i'].
Qed.

Lemma pino_name_keeps ino i :
  (ino_to_pino_name ino i).2 = i
  /\ forall p n, (ino_to_pino_name ino i).1 = Ret (p, n) ->
       exists r, i !! ino = Some r /\ p = pino r /\ n = name r.
Proof.
  unfold ino_to_pino_name, nested, inomap_at, try_M, mbind, M_bind, get, mret, M_ret, raise.
  destruct (i !! ino) as [r|]; [|done]. split; [done|]. intros p n [= <- <-]. by exists r.
Qed.

Lemma fullname_keeps ino i : (ino_to_fullname ino i).2 = i.
Proof.
  unfold ino_to_fullname, inomap_at, mbind, M_bind, get, mret, M_ret, raise, lift.
  destruct (ino =? 1); [done|]. by destruct (i !! ino).
Qed.

(** The cookie is that of the incarnation the number was made for. *)
Definition right_cookie (i : inomap) (ino c : Z) : Prop :=
  exists r, i !! ino = Some r /\ ino = genino c (pino r) (name r).

Lemma cookie_mismatch_keeps i ino c :
  keeps (S := cst (T := T)) (same_inos i) (cookie_mismatch cfg ino c)
    (fun bad => bad = false -> max_special_ino < ino -> ignore_estale_mismatch cfg = false ->
       right_cookie i ino c).
Proof.
  unfold cookie_mismatch. apply keeps_if; intros E0.
  { apply keeps_ret. unfold max_special_ino. lia. }
  apply keeps_if; intros Ei. { apply keeps_ret. congruence. }
  apply keeps_if; intros E1.
  { apply keeps_weaken with (fun _ => True); [|unfold max_special_ino; lia].
    eapply keeps_bind; [apply keeps_get|]. intros s _. destruct (root_estale_cookie s); [by apply keeps_ret|].
    eapply keeps_bind; [by apply keeps_modify|]. intros. by apply keeps_ret. }
  apply keeps_if; intros E2. { apply keeps_ret. lia. }
  destruct (pino_name_keeps ino i) as [Hk Hp].
  eapply keeps_bind; [by apply keeps_inos|]. intros [p n] Hpn. apply keeps_ret.
  destruct (Hp p n Hpn) as (r & Hr & -> & ->). intros Hb _ _. exists r. split; [done|].
  apply negb_false_iff, Z.eqb_eq in Hb. done.
Qed.

Lemma retry_loop_keeps i n dm req reply :
  keeps (S := cst (T := T)) (same_inos i) (retry_loop n dm req reply) (fun _ => True).
Proof.
  revert dm reply. induction n as [|n IH]; intros dm reply; cbn [retry_loop].
  { by apply keeps_lift. }
  eapply keeps_bind; [apply keeps_world|]. intros [r reply'] _.
  destruct r; [by apply keeps_ret| |by apply keeps_lift].
  eapply keeps_bind; [by apply (keeps_lift _ _ (fun _ => True))|]. intros _ _.
  eapply keeps_bind with (P := fun _ => True).
  - unfold delay. apply keeps_if; intros _; [by apply keeps_ret|].
    eapply keeps_bind; [apply keeps_world|]. intros now _.
    apply keeps_if; intros _; [by apply keeps_ret|].
    eapply keeps_bind; [apply keeps_tell|]. intros _ _. by apply keeps_ret.
  - intros [again dm'] _. destruct again; [apply IH|apply keeps_raise].
Qed.

Lemma beget_decode_keeps i req :
  keeps (S := cst (T := T)) (same_inos i) (beget_decode cfg fuel req) (fun _ => True).
Proof.
  unfold beget_decode. eapply keeps_bind with (P := fun _ => True).
  - unfold retrying_berefresh, delay_manager_ctor. eapply keeps_bind with (P := fun _ => True).
    + apply keeps_if; intros _; [|by apply keeps_ret].
      eapply keeps_bind; [apply keeps_world|]. intros now _. by apply keeps_ret.
    + intros dm _. apply retry_loop_keeps.
  - intros reply _.
    assert (forall text, keeps (S := cst (T := T)) (same_inos i)
      (decode_plaintext cfg fuel reply text (urlstem req)) (fun _ => True)) as Hd.
    { intros text. unfold decode_plaintext. destruct (decoded_reply _ _ _ _ _); by apply keeps_lift. }
    apply keeps_if; intros _; [apply keeps_if; intros _; [apply keeps_raise|apply Hd]|].
    apply keeps_if; intros _; [|apply keeps_raise].
    destruct (secret_manager cfg); [|apply keeps_raise].
    destruct (content_decode _ _ _ _) as [[sp|e|] mem]; [apply Hd|apply keeps_raise|by apply keeps_lift].
Qed.

Lemma encrypt_req_keeps i req :
  keeps (S := cst (T := T)) (same_inos i) (encrypt_req cfg req) (fun _ => True).
Proof.
  unfold encrypt_req. apply keeps_if; intros _; [by apply keeps_ret|].
  destruct (secret_manager cfg); [|apply keeps_raise].
  eapply keeps_bind; [apply keeps_world|]. intros junk _.
  eapply keeps_bind; [by apply (keeps_lift _ _ (fun _ => True))|]. intros stem _. by apply keeps_ret.
Qed.

(** A reply without an errno whose cookie was to be checked has the right one. *)
Definition reply_right (i : inomap) (ino : Z) (dr : decoded) : Prop :=
  d_eno dr = 0 -> max_special_ino < ino -> ignore_estale_mismatch cfg = false ->
  exists c, d_estale_cookie dr = Ret c /\ right_cookie i ino c.

Lemma mismatch_keeps i ino dr :
  keeps (S := cst (T := T)) (same_inos i) (mismatch cfg ino true dr)
    (fun bad => bad = false -> reply_right i ino dr).
Proof.
  unfold mismatch. apply keeps_if; intros E.
  - eapply keeps_bind; [by apply (keeps_lift _ _ (fun c => d_estale_cookie dr = Ret c))|].
    intros c Hc. cbv beta in Hc.
    eapply keeps_weaken; [apply cookie_mismatch_keeps|]. intros b Hb Eb _ H1 H2. exists c. eauto.
  - apply keeps_ret. intros _ He. rewrite He in E. done.
Qed.

Lemma beget_keeps i ino req :
  keeps (S := cst (T := T)) (same_inos i) (beget cfg fuel ino req true) (reply_right i ino).
Proof.
  unfold beget. eapply keeps_bind; [apply encrypt_req_keeps|]. intros req' _.
  eapply keeps_bind; [apply beget_decode_keeps|]. intros reply _.
  eapply keeps_bind; [apply mismatch_keeps|]. intros bad Hbad.
  apply keeps_if; intros Eb; [apply keeps_ret, Hbad; by destruct bad|].
  eapply keeps_bind; [apply beget_decode_keeps|]. intros reply' _.
  eapply keeps_bind; [apply mismatch_keeps|]. intros bad' Hbad'.
  apply keeps_if; intros Eb'; [apply keeps_ret, Hbad'; by destruct bad'|].
  destruct (pino_name_keeps ino i) as [Hk _].
  eapply keeps_bind; [by apply keeps_inos|]. intros [p n] _.
  eapply keeps_bind; [apply keeps_tell|]. intros _ _.
  eapply keeps_bind with (P := fun _ => True); [|intros; apply keeps_raise].
  unfold beflush. eapply keeps_bind; [by apply keeps_modify|]. intros _ _.
  eapply keeps_bind with (P := fun _ => True).
  { unfold fullname. apply keeps_if; intros _; [by apply keeps_ret|].
    eapply keeps_bind; [apply keeps_inos, fullname_keeps|]. intros p' _. by apply keeps_ret. }
  intros nm _. eapply keeps_bind; [apply encrypt_req_keeps|]. intros req'' _.
  eapply keeps_bind; [apply keeps_world|]. intros [r ?] _. by apply keeps_lift.
Qed.

(** Attributes without an errno are those of this incarnation of the inode. *)
Definition attr_right (i : inomap) (ino : Z) (v : attrcache_value_t) : Prop :=
  a_eno v = 0 -> S_ISREG (st_mode (a_sb v)) = true \/ S_ISDIR (st_mode (a_sb v)) = true ->
  max_special_ino < ino -> ignore_estale_mismatch cfg = false -> right_cookie i ino (a_estale_cookie v).

Lemma attrcache_value_right i ino minor dr v :
  attrcache_value_ctor minor dr = Ret v -> reply_right i ino dr -> attr_right i ino v.
Proof.
  unfold attrcache_value_ctor. intros H Hr. inv_ret. destruct (Z.eqb_spec (d_eno dr) 0) as [E0|E0]; cbn [negb] in H.
  - destruct (svscan_stat (d_content dr) 0) as [[sb off]|e|]; cbn [mbind outcome_bind] in H; [|done..].
    inv_ret. subst v. intros _ Hmode H1 H2. cbn in *.
    destruct (Hr E0 H1 H2) as (c & Hc & Hright). rewrite Hc in *.
    assert (S_ISREG (st_mode sb) || S_ISDIR (st_mode sb) = true) as Em by (destruct Hmode as [-> | ->]; by rewrite ?orb_true_r).
    rewrite Em in *. by simplify_eq.
  - injection H as <-. intros E. cbn in E. congruence.
Qed.

Lemma attrcache_find_keeps i key ino :
  keeps (S := cst (T := T)) (same_inos i) (attrcache_find cfg key ino)
    (fun o => forall v, o = Some v -> attr_right i ino (e_val v)).
Proof.
  unfold attrcache_find. eapply keeps_bind; [apply keeps_world|]. intros now _.
  eapply keeps_bind; [apply keeps_get|]. intros s _.
  destruct (cache_lookup key now (attrcache s)) as [cached c].
  eapply keeps_bind; [by apply keeps_modify|]. intros _ _.
  eapply keeps_bind; [apply keeps_world|]. intros now' _.
  apply keeps_if; intros _; [by apply keeps_ret|].
  eapply keeps_bind; [apply cookie_mismatch_keeps|]. intros bad Hbad.
  apply keeps_if; intros Eb.
  - apply keeps_ret. intros v [= <-] _ _ H1 H2. apply Hbad; [by destruct bad|done..].
  - eapply keeps_bind; [by apply keeps_modify|]. intros _ _. by apply keeps_ret.
Qed.

Lemma fullname_pl_keeps i pino lc :
  keeps (S := cst (T := T)) (same_inos i) (fullname pino lc) (fun _ => True).
Proof.
  unfold fullname. apply keeps_if; intros _; [by apply keeps_ret|].
  eapply keeps_bind; [apply keeps_inos, fullname_keeps|]. intros p' _. by apply keeps_ret.
Qed.

Lemma begetattr_at_keeps i pino lc ino mstale nocache :
  keeps (S := cst (T := T)) (same_inos i) (begetattr_at cfg fuel pino lc ino mstale nocache)
    (fun v => attr_right i ino (e_val v)).
Proof.
  unfold begetattr_at.
  eapply keeps_bind with (P := fun o => forall v, o = Some v -> attr_right i ino (e_val v)).
  - apply keeps_if; intros _; [|apply attrcache_find_keeps].
    eapply keeps_bind; [by apply keeps_modify|]. intros _ _. by apply keeps_ret.
  - intros [v|] Hv; [by apply keeps_ret, Hv|].
    eapply keeps_bind; [apply fullname_pl_keeps|]. intros nm _.
    eapply keeps_bind; [apply beget_keeps|]. intros dr Hdr.
    eapply keeps_bind; [by apply (keeps_lift _ _ (fun v => attrcache_value_ctor (proto_minor (m_req cfg)) dr = Ret v))|].
    intros v Ev. cbv beta in Ev.
    eapply keeps_bind with (P := fun _ => True).
    + apply keeps_if; intros _; [|by apply keeps_ret].
      eapply keeps_bind; [apply keeps_get|]. intros s _.
      eapply keeps_bind; [by apply (keeps_lift _ _ (fun _ => True))|]. intros [b c] _. by apply keeps_modify.
    + intros _ _. apply keeps_ret. by eapply attrcache_value_right.
Qed.

Lemma begetattr_keeps i ino mstale nocache :
  keeps (S := cst (T := T)) (same_inos i) (begetattr cfg fuel ino mstale nocache)
    (fun v => attr_right i ino (e_val v)).
Proof.
  unfold begetattr. destruct (pino_name_keeps ino i) as [Hk _].
  eapply keeps_bind; [by apply keeps_inos|]. intros [p n] _. apply begetattr_at_keeps.
Qed.
End BegetLemmas.

(** ** Properties *)

(** The retry loop ends: if the backend always comes back, with a reply or
    an exception, and the delays are positive, then [retrying_berefresh]
    comes back too, after at most one attempt more than delays fit into
    [retry_timeout]; with no retry timeout, after the first attempt. *)
Theorem retrying_berefresh_ends {W T} {UW : Upstream W} {UL : UpstreamLaws W} {HU : UMap Z begetattr_t T}
    cfg fuel req (s : cst (W := W) (T := T)) :
  (forall req reply w, (be_refresh (W := W) req reply w).1.1 <> Undef) ->
  let lo := Z.min (retry_initial_millis cfg * msec) (retry_saturate cfg * sec) in
  0 < lo -> Z.max 0 (retry_timeout cfg * sec) < Z.of_nat fuel * lo - lo \/ retry_timeout cfg <= 0 /\ (1 <= fuel)%nat ->
  (retrying_berefresh cfg fuel req s).1 <> Undef.
Proof.
  intros Hdef lo Hlo Hf. unfold retrying_berefresh, delay_manager_ctor.
  destruct (Z.ltb_spec 0 (retry_timeout cfg)) as [Ht|Ht].
  - unfold mbind at 1, M_bind at 1. unfold mbind at 1, M_bind at 1, on_world at 1.
    pose proof (clk_now_time (cworld s)) as Hc. destruct (clk_now (cworld s)) as [now w']. cbn in Hc.
    unfold mret, M_ret. apply (retry_loop_enough Hdef lo); cbn [delay_for saturation end_time cworld set_world];
      [lia|unfold lo; lia|unfold lo; lia|right; lia|nia].
  - apply (retry_loop_enough Hdef lo); cbn [delay_for saturation end_time cworld set_world];
      [lia|unfold lo; lia|unfold lo; lia|left; split; [done|]|]; destruct Hf as [Hf|[_ Hf]]; nia.
Qed.

(** C36.  No attributes of another incarnation.  When [begetattr] returns
    attributes of a file or directory without an errno, be they cached or
    fresh, the estale cookie in them is the one the inode number was made
    from: [genino] of it, the parent and the name is the number.  So a file
    that was replaced on the server is never passed off as the one the kernel
    knows, whatever the backend answers. *)
Theorem begetattr_right_incarnation {W T} {UW : Upstream W} {HU : UMap Z begetattr_t T} `{SB : Secretbox}
    cfg fuel ino mstale nocache (s s' : cst (W := W) (T := T)) v :
  begetattr cfg fuel ino mstale nocache s = (Ret v, s') ->
  max_special_ino < ino -> ignore_estale_mismatch cfg = false ->
  a_eno (e_val v) = 0 ->
  S_ISREG (st_mode (a_sb (e_val v))) = true \/ S_ISDIR (st_mode (a_sb (e_val v))) = true ->
  inos s' = inos s
  /\ exists r, inos s !! ino = Some r
       /\ ino = genino (a_estale_cookie (e_val v)) (pino r) (name r).
Proof.
  intros E H1 H2 H3 H4. destruct (begetattr_keeps cfg fuel (inos s) ino mstale nocache s) as [Hs Hq]; [done|].
  rewrite E in Hs, Hq. split; [done|]. by apply (Hq v).
Qed.

(** ** A backend that plays a script

    It answers from a list, and with an http error 500 when the list is over; the clock
    stands still but for the sleeps, and the notifications are recorded. *)

Record script := Script {
  sc_clock : Z; sc_replies : list (outcome reply123); sc_asked : list bytes; sc_told : list (Z * bytes) }.

#[export] Instance script_upstream : Upstream script := {
  be_refresh req reply w :=
    let asked := sc_asked w ++ [urlstem req] in
    match sc_replies w with
    | Ret r :: l => ((Ret tt, r), Script (sc_clock w) l asked (sc_told w))
    | Throw e :: l => ((Throw e, reply), Script (sc_clock w) l asked (sc_told w))
    | Undef :: l => ((Throw ERuntime, reply), Script (sc_clock w) l asked (sc_told w))
    | [] => ((Throw (EHttp 500), reply), Script (sc_clock w) [] asked (sc_told w))
    end;
  clk_now w := (sc_clock w, w);
  sleep_for d w := Script (sc_clock w + d) (sc_replies w) (sc_asked w) (sc_told w);
  fresh_blob n w := (replicate (Z.to_nat n) "."%char, w);
  notify_inval_entry p n w := Script (sc_clock w) (sc_replies w) (sc_asked w) (sc_told w ++ [(p, n)]);
  notify_inval_inode i w := Script (sc_clock w) (sc_replies w) (sc_asked w) (sc_told w ++ [(i, [])]);
}.

#[export] Instance script_laws : UpstreamLaws script.
Proof.
  apply (Build_UpstreamLaws script _ sc_clock); [done|cbn; lia|].
  intros req reply w. cbn. by destruct (sc_replies w) as [|[| |] l].
Defined.

Definition wx_cfg : mount_config :=
  MountConfig (ReqConfig 0 3 0 0) None false true false 1 100 1 128.

Abbreviation wx_map := (gmap Z (expiring begetattr_t)).

Definition wx_cst (i : inomap) (w : script) : cst (W := script) (T := gmap Z begetattr_t) :=
  Cst i (cache_ctor (K := Z) (V := attrcache_value_t) 100) None w.

(** A reply in plaintext: the pairs and the content. *)
Definition wx_reply (l : list (bytes * bytes)) (c : bytes) : reply123 :=
  Reply MAGIC 0 2000 7 1000 500 0 (-1) CNO_MISSING CE_IDENT (replicate 32 "0"%char) (body73 l c).

Definition wx_busy : script := Script 5000 [Throw (EHttp 503); Throw (ENested ERuntime (ECurl 104 56)); Ret (wx_reply [] [])] [] [].

Lemma retrying_berefresh_ends_witness :
  (retrying_berefresh wx_cfg 13 (req_ctor (m_req wx_cfg) (lit "/a/f")) (wx_cst ∅ wx_busy)).1 <> Undef
  /\ sc_clock (cworld (retrying_berefresh wx_cfg 13 (req_ctor (m_req wx_cfg) (lit "/a/f")) (wx_cst ∅ wx_busy)).2)
     = 5000 + 300 * msec.
Proof.
  split; [|vm_compute; reflexivity].
  apply (retrying_berefresh_ends wx_cfg 13 (req_ctor (m_req wx_cfg) (lit "/a/f")) (wx_cst ∅ wx_busy)).
  - intros req reply w. cbn. destruct (sc_replies w) as [|[| |] l]; discriminate.
  - vm_compute. reflexivity.
  - left. vm_compute. reflexivity.
Defined.

(** The directory 77 and in it the file [f], whose number was made from the
    cookie 42. *)
Definition wx_file : Z := genino 42 77 (lit "f").
Definition wx_inos : inomap :=
  (run_ops run_op [Remember 1 (lit "d") 77 5; Remember 77 (lit "f") wx_file 5] (inomap_init 5000)).2.
Definition wx_attrs (cookie : bytes) : reply123 :=
  wx_reply [(FS123_COOKIE, cookie); (FS123_VALIDATOR, lit "9")]
    (print_stat (Stat (PathUtils.S_IFREG + 420) 1 0 0 123 0 0 0 8 0 0 0 0 0 4096 0)).

(** The cached reply is stale, the second one is not. *)
Definition wx_replaced : script := Script 1500 [Ret (wx_attrs (lit "41")); Ret (wx_attrs (lit "42"))] [] [].

Abbreviation wx_begetattr := (begetattr wx_cfg 13 wx_file None false (wx_cst wx_inos wx_replaced)).

Lemma wx_begetattr_checks :
  match wx_begetattr.1 with
  | Ret v => (a_eno (e_val v), S_ISREG (st_mode (a_sb (e_val v))), a_estale_cookie (e_val v), a_validator (e_val v))
  | _ => (1, false, 0, 0)
  end = (0, true, 42, 9).
Proof. vm_compute. reflexivity. Qed.

Lemma wx_begetattr_ret : exists v,
  wx_begetattr = (Ret v, wx_begetattr.2) /\ a_eno (e_val v) = 0
  /\ S_ISREG (st_mode (a_sb (e_val v))) = true /\ a_estale_cookie (e_val v) = 42.
Proof.
  pose proof wx_begetattr_checks as H. destruct wx_begetattr as [[v|e|] s]; cbv beta iota delta [fst snd] in H |- *; [|discriminate H..].
  exists v. by injection H as -> -> -> _.
Qed.

Lemma begetattr_right_incarnation_witness :
  inos wx_begetattr.2 = inos (wx_cst wx_inos wx_replaced)
  /\ exists r, wx_inos !! wx_file = Some r /\ wx_file = genino 42 (pino r) (name r).
Proof.
  destruct wx_begetattr_ret as (v & E & E0 & Em & <-).
  apply (begetattr_right_incarnation wx_cfg 13 wx_file None false (wx_cst wx_inos wx_replaced) wx_begetattr.2 v E).
  - vm_compute. reflexivity.
  - reflexivity.
  - exact E0.
  - left. exact Em.
Defined.

(** When the second reply has the wrong cookie too, the entry is taken out of
    the kernel's and the client's caches and the caller gets [ESTALE]. *)
Example begetattr_estale :
  let w := Script 1500 [Ret (wx_attrs (lit "41")); Ret (wx_attrs (lit "41")); Ret (wx_attrs (lit "41"))] [] [] in
  let '(r, s) := begetattr wx_cfg 13 wx_file None false (wx_cst wx_inos w) in
  r = Throw (ESystem ESTALE) /\ sc_told (cworld s) = [(77, lit "f")]
  /\ sc_asked (cworld s) = [lit "/a/d/f"; lit "/a/d/f"; lit "/a/d/f"].
Proof. vm_compute. repeat split. Qed.
