(* ===== verification/OpenFileMap.v ===== *)
(** * The table of open files (exe/fs123p7/openfilemap.cpp)

    A map of reference-counted records, one per open inode, and a priority
    queue of their expiration times, which point at each other; a thread that
    pops expired entries and asks upstream whether the file has changed, with
    the mutex released while it waits for the answer.  Nodes of the map and of
    the queue are identified by their addresses, numbers never used twice, so
    that following a pointer to a node that is gone is undefined here
    whatever an allocator would do.

    Theorem: in every interleaving of opens, reads, closes and the scanner, no
    such pointer is followed, no exception is thrown, the two structures point
    at each other, the counts are those of the open files and nothing is left
    when all are closed. *)

From Stdlib Require Import Ascii String ZArith Lia Sorting.Sorted.
From stdpp Require Import base gmap gmultiset strings list numbers.
From S2P Require Import Prelude Expiring StatSer Inomap Beget.

#[local] Open Scope Z_scope.

(** ** The data *)

Record mrecord := MRec {
  m_ino : Z;                        (* the key of the node *)
  refcnt : Z;                       (* int *)
  qiter : Z;
  qiter_dereferenceable : bool;
  miter : Z;
}.

Record pqrecord := PQ { pq_expires : Z; pq_miter : Z }.

(** The live nodes of [ofmap] by address, and the nodes of [ofpq] in order;
    [woken] is [loopcv.notify_one] having been called. *)
Record ofm := OFM {
  ofmap : gmap Z Z;
  mnodes : gmap Z mrecord;
  ofpq : list (Z * pqrecord);
  next_m : Z;
  next_q : Z;
  woken : bool;
}.

Definition ofm_init : ofm := OFM ∅ ∅ [] 1 1 false.

(** [pqrecord::no_sooner_than] *)
Definition no_sooner_than : Z := 750 * msec.
Definition pqrecord_ctor (r : begetattr_t) (_miter now : Z) : pqrecord :=
  PQ (Z.max (good_till r) (now + no_sooner_than)) _miter.
Definition pqrecord_now (_miter : Z) : pqrecord := PQ tp_min _miter.

Definition put_node (a : Z) (mr : mrecord) (s : ofm) : ofm :=
  OFM (ofmap s) (<[a := mr]> (mnodes s)) (ofpq s) (next_m s) (next_q s) (woken s).
Definition with_pq (q : list (Z * pqrecord)) (s : ofm) : ofm :=
  OFM (ofmap s) (mnodes s) q (next_m s) (next_q s) (woken s).
Definition set_refcnt (n : Z) (mr : mrecord) : mrecord :=
  MRec (m_ino mr) n (qiter mr) (qiter_dereferenceable mr) (miter mr).
Definition set_qiter (q : Z) (b : bool) (mr : mrecord) : mrecord :=
  MRec (m_ino mr) (refcnt mr) q b (miter mr).

(** ** The containers *)

Definition deref (a : Z) : M ofm mrecord := fun s =>
  match mnodes s !! a with Some mr => (Ret mr, s) | None => (Undef, s) end.
Definition store (a : Z) (mr : mrecord) : M ofm unit := modify (put_node a mr).

(** [int] arithmetic on the count *)
Definition int_max : Z := 2 ^ 31 - 1.
Definition incref (a : Z) : M ofm unit :=
  mr ← deref a;
  if int_max <=? refcnt mr then lift Undef else store a (set_refcnt (refcnt mr + 1) mr).

(** [ofpq.emplace]: behind the elements that are not greater. *)
Fixpoint pq_insert (x : Z * pqrecord) (l : list (Z * pqrecord)) : list (Z * pqrecord) :=
  match l with
  | [] => [x]
  | y :: l' => if pq_expires x.2 <? pq_expires y.2 then x :: l else y :: pq_insert x l'
  end.
Definition pq_emplace (p : pqrecord) : M ofm Z := fun s =>
  (Ret (next_q s),
   OFM (ofmap s) (mnodes s) (pq_insert (next_q s, p) (ofpq s)) (next_m s) (next_q s + 1) (woken s)).

Fixpoint pq_find (q : Z) (l : list (Z * pqrecord)) : option pqrecord :=
  match l with
  | [] => None
  | x :: l' => if x.1 =? q then Some x.2 else pq_find q l'
  end.
Definition pq_remove (q : Z) (l : list (Z * pqrecord)) : list (Z * pqrecord) :=
  List.filter (fun x => negb (x.1 =? q)) l.

Definition pq_deref (q : Z) : M ofm pqrecord := fun s =>
  match pq_find q (ofpq s) with Some p => (Ret p, s) | None => (Undef, s) end.
Definition pq_erase (q : Z) : M ofm unit :=
  pq_deref q;; modify (fun s => with_pq (pq_remove q (ofpq s)) s).

(** [ofmap.emplace]: the node and whether it is new. *)
Definition map_emplace (ino : Z) : M ofm (Z * bool) := fun s =>
  match ofmap s !! ino with
  | Some a => (Ret (a, false), s)
  | None =>
      let a := next_m s in
      (Ret (a, true),
       OFM (<[ino := a]> (ofmap s)) (<[a := MRec ino 0 0 false 0]> (mnodes s)) (ofpq s)
         (next_m s + 1) (next_q s) (woken s))
  end.

(** [ofmap.erase] *)
Definition map_erase (a : Z) : M ofm unit :=
  mr ← deref a;
  modify (fun s => OFM (delete (m_ino mr) (ofmap s)) (delete a (mnodes s)) (ofpq s)
                     (next_m s) (next_q s) (woken s)).

Definition notify_one : M ofm unit :=
  modify (fun s => OFM (ofmap s) (mnodes s) (ofpq s) (next_m s) (next_q s) true).

(** ** The operations

    Each runs with the mutex held; [now] is what the clock says in it. *)

Definition decrefcnt (a : Z) : M ofm Z :=
  mr ← deref a;
  let ret := refcnt mr - 1 in
  store a (set_refcnt ret mr);;
  (if ret =? 0 then
     (if qiter_dereferenceable mr then pq_erase (qiter mr) else mret tt);;
     map_erase (miter mr)
   else mret tt);;
  mret ret.

(** From the top of the loop to [lk.unlock()]: the record to ask about, if
    one has expired. *)
Definition scan_top (now : Z) : M ofm (option Z) :=
  s ← get;
  match ofpq s with
  | [] => mret None
  | (q, p) :: _ =>
      if now <? pq_expires p then mret None else
      let mi := pq_miter p in
      mr ← deref mi;
      if negb (miter mr =? mi) then mret None else
      pq_erase q;;
      store mi (set_qiter (qiter mr) false mr);;
      incref mi;;
      mret (Some mi)
  end.

(** Between [lk.unlock()] and [lk.lock()], with what [begetattr] came to:
    the attributes to go on with and whether the kernel is notified. *)
Definition scan_verdict (ino : Z) (res : outcome begetattr_t) : M inomap (begetattr_t * bool) :=
  r ← (match res with Ret r => mret r | Throw _ => mret expiring_default | Undef => lift Undef end);
  let set_eno e (r : begetattr_t) :=
    let v := e_val r in
    Expiring (ACV e (a_estale_cookie v) (a_swr v) (a_cacheable v) (a_sb v) (a_validator v)) (good_till r) in
  '(r, must_notify) ←
    (if a_eno (e_val r) =? 0 then
       try_M (old_validator ← ino_update_validator ino (a_validator (e_val r));
              mret (r, negb (old_validator =? a_validator (e_val r))))
             (fun _ => mret (set_eno EIO r, true))
     else mret (r, false));
  mret (r, if a_eno (e_val r) =? 0 then (must_notify : bool) else true).

(** From [lk.lock()] to the end of the loop's body. *)
Definition scan_bottom (mi : Z) (r : begetattr_t) (now : Z) : M ofm unit :=
  n ← decrefcnt mi;
  if (n =? 0) || negb (a_eno (e_val r) =? 0) then mret tt else
  mr ← deref mi;
  (if qiter_dereferenceable mr then pq_erase (qiter mr) else mret tt);;
  q ← pq_emplace (pqrecord_ctor r mi now);
  store mi (set_qiter q true mr).

(** How long [scanloop] waits: [None] is until it is notified. *)
Definition scanloop_wait (now : Z) (s : ofm) : option Z :=
  match ofpq s with
  | [] => None
  | (_, p) :: _ => Some (Z.max (pq_expires p) now + no_sooner_than)
  end.

(** The body of [openfile_register]'s try block. *)
Definition register_try (mi : Z) (r : begetattr_t) (now : Z) : M ofm Z :=
  mr ← deref mi;
  (if negb (qiter_dereferenceable mr) then
     q ← pq_emplace (pqrecord_ctor r mi now); store mi (set_qiter q true mr)
   else mret tt);;
  mr ← deref mi;
  p ← pq_deref (qiter mr);
  if negb (pq_miter p =? mi) then raise (ESystem EIO) else
  incref mi;;
  (if negb (pq_expires p =? good_till r) then
     pq_erase (qiter mr);;
     q ← pq_emplace (pqrecord_ctor r mi now);
     mr ← deref mi;
     store mi (set_qiter q true mr)
   else mret tt);;
  mr ← deref mi;
  s ← get;
  (if bool_decide ((fst <$> head (ofpq s)) = Some (qiter mr)) then notify_one else mret tt);;
  mret mi.

Definition openfile_register (ino : Z) (r : begetattr_t) (now : Z) : M ofm Z :=
  if negb (a_eno (e_val r) =? 0) then raise (ESystem EIO) else
  '((mi, created) : Z * bool) ← map_emplace ino;
  mr ← deref mi;
  (if (created : bool) then store mi (MRec (m_ino mr) (refcnt mr) (qiter mr) (qiter_dereferenceable mr) mi)
   else mret tt);;
  try_M (register_try mi r now)
    (fun e => (if created then map_erase mi else mret tt);; raise (ENested ERuntime e)).

(** [ino != mr.miter->first || &mr != &mr.miter->second] *)
Definition check_handle (ino fifh : Z) : M ofm mrecord :=
  mr ← deref fifh;
  mi ← deref (miter mr);
  if negb (ino =? m_ino mi) || negb (fifh =? miter mr) then raise (ESystem EIO) else mret mr.

Definition openfile_expire_now (ino fifh : Z) : M ofm unit :=
  if fifh =? 0 then mret tt else
  mr ← check_handle ino fifh;
  if qiter_dereferenceable mr then
    pq_erase (qiter mr);;
    q ← pq_emplace (pqrecord_now (miter mr));
    store fifh (set_qiter q true mr);;
    notify_one
  else mret tt.

Definition openfile_release (ino fifh : Z) : M ofm unit :=
  if fifh =? 0 then mret tt else
  check_handle ino fifh;;
  decrefcnt fifh;;
  mret tt.

Definition openfile_report (s : ofm) : Z * Z := (zlen (ofpq s), Z.of_nat (size (ofmap s))).

(** ** The system: the kernel's open files and the scanner *)

(** [handles] are the [fi->fh] the kernel holds, with their inodes; [inflight] is
    the record the scanner asks upstream about, without the mutex. *)
Record sys := Sys { tab : ofm; handles : gmultiset (Z * Z); inflight : option Z }.

Definition sys_init : sys := Sys ofm_init ∅ None.

Inductive event :=
| E_open (ino : Z) (r : begetattr_t) (now : Z)       (* fs123_open *)
| E_close (ino fifh : Z)                             (* fs123_release *)
| E_expire (ino fifh : Z)                            (* fs123_read of newer content *)
| E_scan_top (now : Z)
| E_scan_bottom (r : begetattr_t) (now : Z).

(** A step of one of them; one that is not enabled changes nothing.  The
    scanner goes back to the top of its loop without releasing the mutex: to
    let others run there too only adds interleavings. *)
Definition sys_step (e : event) (s : sys) : outcome sys :=
  match e with
  | E_open ino r now =>
      if negb (a_eno (e_val r) =? 0) then Ret s else
      match openfile_register ino r now (tab s) with
      | (Ret h, t) => Ret (Sys t ({[+ (ino, h) +]} ⊎ handles s) (inflight s))
      | (Throw x, _) => Throw x
      | (Undef, _) => Undef
      end
  | E_close ino h =>
      if negb (bool_decide ((ino, h) ∈ handles s)) then Ret s else
      match openfile_release ino h (tab s) with
      | (Ret _, t) => Ret (Sys t (handles s ∖ {[+ (ino, h) +]}) (inflight s))
      | (Throw x, _) => Throw x
      | (Undef, _) => Undef
      end
  | E_expire ino h =>
      if negb (bool_decide ((ino, h) ∈ handles s)) then Ret s else
      match openfile_expire_now ino h (tab s) with
      | (Ret _, t) => Ret (Sys t (handles s) (inflight s))
      | (Throw x, _) => Throw x
      | (Undef, _) => Undef
      end
  | E_scan_top now =>
      match inflight s with
      | Some _ => Ret s
      | None =>
          match scan_top now (tab s) with
          | (Ret o, t) => Ret (Sys t (handles s) o)
          | (Throw x, _) => Throw x
          | (Undef, _) => Undef
          end
      end
  | E_scan_bottom r now =>
      match inflight s with
      | None => Ret s
      | Some mi =>
          match scan_bottom mi r now (tab s) with
          | (Ret _, t) => Ret (Sys t (handles s) None)
          | (Throw x, _) => Throw x
          | (Undef, _) => Undef
          end
      end
  end.

Fixpoint sys_run (es : list event) (s : sys) : outcome sys :=
  match es with
  | [] => Ret s
  | e :: es' => s' ← sys_step e s; sys_run es' s'
  end.

(** ** The queue *)

Definition expires_le (x y : Z * pqrecord) : Prop := pq_expires x.2 <= pq_expires y.2.

Lemma pq_insert_in x l y : y ∈ pq_insert x l <-> y = x \/ y ∈ l.
Proof.
  induction l as [|z l IH]; cbn.
  - rewrite list_elem_of_singleton. split; [by left|]. by intros [|?%not_elem_of_nil].
  - case_match; [by rewrite elem_of_cons|]. rewrite !elem_of_cons, IH. tauto.
Qed.

Lemma pq_insert_sorted x l : StronglySorted expires_le l -> StronglySorted expires_le (pq_insert x l).
Proof.
  induction 1 as [|y l Hs IH Hy]; cbn; [by repeat constructor|].
  destruct (Z.ltb_spec (pq_expires x.2) (pq_expires y.2)) as [Hlt|Hge].
  - constructor; [by constructor|]. constructor; [unfold expires_le; lia|].
    eapply Forall_impl; [|exact Hy]. unfold expires_le. intros z. cbn. lia.
  - constructor; [done|]. apply Forall_forall. intros z Hz.
    apply list_elem_of_In, pq_insert_in in Hz as [->|Hz]; [done|].
    rewrite Forall_forall in Hy. by apply Hy, list_elem_of_In.
Qed.

Lemma pq_remove_in q l x : x ∈ pq_remove q l <-> x ∈ l /\ x.1 <> q.
Proof.
  unfold pq_remove. rewrite !list_elem_of_In, filter_In, negb_true_iff, Z.eqb_neq. done.
Qed.

Lemma pq_remove_sorted q l : StronglySorted expires_le l -> StronglySorted expires_le (pq_remove q l).
Proof.
  induction 1 as [|y l Hs IH Hy]; cbn; [constructor|]. destruct (negb _); [|done].
  constructor; [done|]. apply Forall_forall. intros z Hz.
  rewrite Forall_forall in Hy. apply Hy. by apply filter_In in Hz as [? _].
Qed.

(** No two elements are the same node. *)
Definition pq_nodes (l : list (Z * pqrecord)) : Prop := forall q p p', (q, p) ∈ l -> (q, p') ∈ l -> p = p'.

Lemma pq_find_in q p l : pq_nodes l -> (q, p) ∈ l -> pq_find q l = Some p.
Proof.
  induction l as [|[q' p'] l IH]; intros Hn Hin; [by apply not_elem_of_nil in Hin|]. cbn.
  destruct (Z.eqb_spec q' q) as [->|Hne].
  - f_equal. symmetry. apply (Hn q); [done|by left].
  - apply IH; [intros ? ? ? ? ?; eapply Hn; by right|]. apply elem_of_cons in Hin as [[= -> _]|]; done.
Qed.

(** ** The invariant of the structures *)

(** The node [det], if there is one, is detached: nothing in the queue points to it, whatever its [qiter]
    says. *)
Record wf (det : option Z) (s : ofm) : Prop := Wf {
  wf_map ino a : ofmap s !! ino = Some a <-> exists mr, mnodes s !! a = Some mr /\ m_ino mr = ino;
  wf_self a mr : mnodes s !! a = Some mr -> miter mr = a /\ 0 < a < next_m s;
  wf_link a mr : mnodes s !! a = Some mr -> det <> Some a -> qiter_dereferenceable mr = true ->
    exists p, (qiter mr, p) ∈ ofpq s /\ pq_miter p = a;
  wf_back q p : (q, p) ∈ ofpq s ->
    det <> Some (pq_miter p)
    /\ exists mr, mnodes s !! pq_miter p = Some mr /\ qiter_dereferenceable mr = true /\ qiter mr = q;
  wf_fresh q p : (q, p) ∈ ofpq s -> q < next_q s;
  wf_nodes : pq_nodes (ofpq s);
  wf_sorted : StronglySorted expires_le (ofpq s);
  wf_first : 0 < next_m s;
}.

Lemma wf_detach s a mr :
  wf None s -> mnodes s !! a = Some mr -> qiter_dereferenceable mr = false -> wf (Some a) s.
Proof.
  intros [] Ha Hq. split; try done; [eauto|].
  intros q p Hin. destruct (wf_back0 q p Hin) as (_ & mr' & Hm & Hd & E). split; [|eauto].
  intros [= ->]. congruence.
Qed.

Lemma pq_erase_wf s a mr :
  wf None s -> mnodes s !! a = Some mr -> qiter_dereferenceable mr = true ->
  exists s', pq_erase (qiter mr) s = (Ret tt, s') /\ wf (Some a) s' /\ mnodes s' = mnodes s
    /\ ofmap s' = ofmap s /\ (forall x, x ∈ ofpq s' <-> x ∈ ofpq s /\ x.1 <> qiter mr) /\ next_m s' = next_m s.
Proof.
  intros Hw Ha Hq. pose proof Hw as [].
  destruct (wf_link0 a mr Ha) as (p & Hp & Ep); [done..|].
  eexists. split; [unfold pq_erase, pq_deref, mbind, M_bind; by rewrite (pq_find_in _ p)|].
  split; [|split; [done|split; [done|split; [intros; apply pq_remove_in|done]]]].
  split; cbn; try done.
  - intros b mr' Hb Hne Hd. destruct (wf_link0 b mr' Hb) as (p' & Hp' & Ep'); [done..|].
    exists p'. split; [|done]. apply pq_remove_in. split; [done|]. cbn. intros E.
    rewrite E in Hp'. pose proof (wf_nodes0 _ _ _ Hp Hp') as <-. congruence.
  - intros q p' Hin. apply pq_remove_in in Hin as [Hin Hne]. cbn in Hne.
    destruct (wf_back0 q p' Hin) as (_ & mr' & Hm & Hd & E). split; [|eauto].
    intros [= E']. rewrite <- E' in Hm. congruence.
  - intros q p' [Hin _]%pq_remove_in. eauto.
  - intros q p1 p2 [H1 _]%pq_remove_in [H2 _]%pq_remove_in. eauto.
  - by apply pq_remove_sorted.
Qed.

Lemma link_wf s a mr p :
  wf (Some a) s -> mnodes s !! a = Some mr -> pq_miter p = a ->
  exists s', (q ← pq_emplace p; store a (set_qiter q true mr)) s = (Ret tt, s')
    /\ wf None s' /\ mnodes s' = <[a := set_qiter (next_q s) true mr]> (mnodes s)
    /\ ofmap s' = ofmap s /\ (forall x, x ∈ ofpq s' <-> x = (next_q s, p) \/ x ∈ ofpq s).
Proof.
  intros Hw Ha Hp. pose proof Hw as [].
  eexists. split; [reflexivity|]. split; [|split; [done|split; [done|intros; apply pq_insert_in]]].
  assert (forall q p', (q, p') ∈ ofpq s -> q <> next_q s) as Hq by (intros q p' Hin ->; specialize (wf_fresh0 _ _ Hin); lia).
  split; cbn [put_node ofmap mnodes ofpq next_m next_q].
  - intros ino b. rewrite wf_map0. split; intros (mr' & Hm & E).
    + destruct (decide (a = b)) as [<-|Hne].
      * rewrite lookup_insert_eq. simplify_eq. by eexists.
      * rewrite lookup_insert_ne by done. eauto.
    + destruct (decide (a = b)) as [<-|Hne].
      * rewrite lookup_insert_eq in Hm. injection Hm as <-. eauto.
      * rewrite lookup_insert_ne in Hm by done. eauto.
  - intros b mr' Hm. destruct (decide (a = b)) as [<-|Hne].
    + rewrite lookup_insert_eq in Hm. injection Hm as <-. cbn. by apply wf_self0.
    + rewrite lookup_insert_ne in Hm by done. by apply wf_self0.
  - intros b mr' Hm _ Hd. destruct (decide (a = b)) as [<-|Hne].
    + rewrite lookup_insert_eq in Hm. injection Hm as <-. cbn. exists p. split; [|done].
      apply pq_insert_in. by left.
    + rewrite lookup_insert_ne in Hm by done. destruct (wf_link0 b mr' Hm) as (p' & Hp' & Ep'); [congruence|done|].
      exists p'. split; [|done]. apply pq_insert_in. by right.
  - intros q p' Hin. split; [done|]. apply pq_insert_in in Hin as [[= -> ->]|Hin].
    + rewrite Hp, lookup_insert_eq. by eexists.
    + destruct (wf_back0 q p' Hin) as (Hne & mr' & Hm & Hd & E). exists mr'.
      rewrite lookup_insert_ne by congruence. done.
  - intros q p' [[= -> _]|Hin]%pq_insert_in; [lia|]. specialize (wf_fresh0 _ _ Hin). lia.
  - intros q p1 p2 [[= -> ->]|H1]%pq_insert_in [E|H2]%pq_insert_in.
    + by injection E as ->.
    + by destruct (Hq _ _ H2).
    + injection E as -> _. by destruct (Hq _ _ H1).
    + eauto.
  - by apply pq_insert_sorted.
  - done.
Qed.

(** A node changed in place: its count, or the link of a detached one. *)
Lemma store_wf det s a mr mr' :
  wf det s -> mnodes s !! a = Some mr -> m_ino mr' = m_ino mr -> miter mr' = miter mr ->
  qiter mr' = qiter mr -> qiter_dereferenceable mr' = qiter_dereferenceable mr ->
  wf det (put_node a mr' s).
Proof.
  intros [] Ha E1 E2 E3 E4.
  assert (forall b m, mnodes (put_node a mr' s) !! b = Some m ->
    exists m0, mnodes s !! b = Some m0 /\ m_ino m = m_ino m0 /\ miter m = miter m0 /\ qiter m = qiter m0
      /\ qiter_dereferenceable m = qiter_dereferenceable m0) as Hback.
  { intros b m Hm. cbn in Hm. destruct (decide (a = b)) as [<-|Hne].
    - rewrite lookup_insert_eq in Hm. injection Hm as <-. by exists mr.
    - rewrite lookup_insert_ne in Hm by done. by exists m. }
  assert (forall b m0, mnodes s !! b = Some m0 ->
    exists m, mnodes (put_node a mr' s) !! b = Some m /\ m_ino m = m_ino m0 /\ qiter m = qiter m0
      /\ qiter_dereferenceable m = qiter_dereferenceable m0) as Hfwd.
  { intros b m Hm. cbn. destruct (decide (a = b)) as [<-|Hne].
    - rewrite lookup_insert_eq. simplify_eq. by exists mr'.
    - rewrite lookup_insert_ne by done. by exists m. }
  split; try done.
  - intros ino b. cbn [ofmap put_node]. rewrite wf_map0. split; intros (m & Hm & E).
    + destruct (Hfwd _ _ Hm) as (m' & ? & ? & _). exists m'. split; [done|congruence].
    + destruct (Hback _ _ Hm) as (m' & ? & ? & _). exists m'. split; [done|congruence].
  - intros b m Hm. destruct (Hback _ _ Hm) as (m' & H1 & H2 & -> & _). by apply (wf_self0 b m').
  - intros b m Hm Hd Hq. destruct (Hback _ _ Hm) as (m' & H1 & H2 & H3 & -> & H5).
    apply (wf_link0 b m'); [done|done|congruence].
  - intros q p Hin. destruct (wf_back0 q p Hin) as (Hne & m & Hm & Hd & E). split; [done|].
    destruct (Hfwd _ _ Hm) as (m' & H1 & H2 & H3 & H4). exists m'. split; [done|]. split; congruence.
Qed.

Lemma store_unlinked_wf s a mr q :
  wf (Some a) s -> mnodes s !! a = Some mr -> wf None (put_node a (set_qiter q false mr) s).
Proof.
  intros [] Ha. split; try done; cbn [put_node ofmap mnodes ofpq].
  - intros ino b. rewrite wf_map0. destruct (decide (a = b)) as [<-|Hne].
    + rewrite lookup_insert_eq. split; intros (m & Hm & E); simplify_eq; by eexists.
    + by rewrite lookup_insert_ne.
  - intros b m Hm. destruct (decide (a = b)) as [<-|Hne].
    + rewrite lookup_insert_eq in Hm. injection Hm as <-. by apply (wf_self0 a mr).
    + rewrite lookup_insert_ne in Hm by done. by apply wf_self0.
  - intros b m Hm _ Hd. destruct (decide (a = b)) as [<-|Hne].
    + rewrite lookup_insert_eq in Hm. by injection Hm as <-.
    + rewrite lookup_insert_ne in Hm by done. apply (wf_link0 b m); [done|congruence|done].
  - intros r p Hin. destruct (wf_back0 r p Hin) as (Hne & m & Hm & Hd & E). split; [done|].
    exists m. rewrite lookup_insert_ne by congruence. done.
Qed.

Lemma map_erase_wf s a mr :
  wf (Some a) s -> mnodes s !! a = Some mr ->
  exists s', map_erase a s = (Ret tt, s') /\ wf None s' /\ mnodes s' = delete a (mnodes s).
Proof.
  intros [] Ha. eexists. split; [unfold map_erase, deref, mbind, M_bind; by rewrite Ha|]. split; [|done].
  split; cbn; try done.
  - intros ino b. destruct (decide (a = b)) as [<-|Hab].
    + split.
      * intros [Hne (m & Hm & E)%wf_map0]%lookup_delete_Some. congruence.
      * intros (m & Hm & _). by rewrite lookup_delete_eq in Hm.
    + rewrite lookup_delete_Some, wf_map0. split.
      * intros [_ (m & Hm & E)]. exists m. by rewrite lookup_delete_ne.
      * intros (m & Hm & E). rewrite lookup_delete_ne in Hm by done. split; [|eauto]. intros E'.
        assert (ofmap s !! ino = Some a) as H1 by (apply wf_map0; eauto).
        assert (ofmap s !! ino = Some b) as H2 by (apply wf_map0; eauto). congruence.
  - intros b m [Hne Hm]%lookup_delete_Some. by apply wf_self0.
  - intros b m [Hne Hm]%lookup_delete_Some _ Hd. apply (wf_link0 b m); [done|congruence|done].
  - intros q p Hin. destruct (wf_back0 q p Hin) as (Hne & m & Hm & Hd & E). split; [done|].
    exists m. rewrite lookup_delete_ne by congruence. done.
Qed.

Lemma new_node_wf s ino :
  wf None s -> ofmap s !! ino = None ->
  let a := next_m s in
  mnodes s !! a = None
  /\ wf None (OFM (<[ino := a]> (ofmap s)) (<[a := MRec ino 0 0 false a]> (mnodes s)) (ofpq s)
                (next_m s + 1) (next_q s) (woken s)).
Proof.
  intros [] Hi a. assert (mnodes s !! a = None) as Hnew.
  { destruct (mnodes s !! a) as [m|] eqn:Hm; [|done]. destruct (wf_self0 a m Hm) as (_ & ?). unfold a in *. lia. }
  split; [done|]. split; cbn; try done.
  - intros ino' b. destruct (decide (ino = ino')) as [<-|Hne]; destruct (decide (a = b)) as [<-|Hab].
    + rewrite lookup_insert_eq. split; [|done]. intros _. eexists. by rewrite lookup_insert_eq.
    + rewrite lookup_insert_eq. split; [congruence|]. intros (m & Hm & E).
      rewrite lookup_insert_ne in Hm by done. assert (ofmap s !! ino = Some b) by (apply wf_map0; eauto). congruence.
    + rewrite lookup_insert_ne by done. split.
      * intros (m & Hm & _)%wf_map0. congruence.
      * intros (m & Hm & E). rewrite lookup_insert_eq in Hm. by injection Hm as <-.
    + rewrite lookup_insert_ne, wf_map0 by done. by setoid_rewrite lookup_insert_ne.
  - intros b m Hm. destruct (decide (a = b)) as [<-|Hab].
    + rewrite lookup_insert_eq in Hm. injection Hm as <-. cbn. unfold a. lia.
    + rewrite lookup_insert_ne in Hm by done. destruct (wf_self0 b m Hm). split; [done|lia].
  - intros b m Hm _ Hd. destruct (decide (a = b)) as [<-|Hab].
    + rewrite lookup_insert_eq in Hm. by injection Hm as <-.
    + rewrite lookup_insert_ne in Hm by done. by apply (wf_link0 b m).
  - intros q p Hin. destruct (wf_back0 q p Hin) as (Hne & m & Hm & Hd & E). split; [done|].
    exists m. rewrite lookup_insert_ne by congruence. done.
  - lia.
Qed.

(** ** The operations keep it

    [view] is what the rest of the program sees: inode and count of each
    node. *)

Definition view (s : ofm) : gmap Z (Z * Z) := (fun mr => (m_ino mr, refcnt mr)) <$> mnodes s.

Lemma view_lookup s a mr : mnodes s !! a = Some mr -> view s !! a = Some (m_ino mr, refcnt mr).
Proof. intros H. unfold view. by rewrite lookup_fmap, H. Qed.

Lemma view_inv s a x : view s !! a = Some x -> exists mr, mnodes s !! a = Some mr /\ x = (m_ino mr, refcnt mr).
Proof. unfold view. rewrite lookup_fmap. intros (mr & -> & H)%fmap_Some. eauto. Qed.

Lemma view_insert s a mr mr' :
  mnodes s = <[a := mr]> mr' -> view s = <[a := (m_ino mr, refcnt mr)]> ((fun mr => (m_ino mr, refcnt mr)) <$> mr').
Proof. unfold view. intros ->. by rewrite fmap_insert. Qed.

(** A change of the link is not seen. *)
Lemma view_same s s' a mr mr' :
  mnodes s' = <[a := mr']> (mnodes s) -> mnodes s !! a = Some mr -> m_ino mr' = m_ino mr ->
  refcnt mr' = refcnt mr -> view s' = view s.
Proof.
  intros E Ha E1 E2. rewrite (view_insert _ _ _ _ E), E1, E2. apply insert_id. by apply view_lookup.
Qed.

Lemma deref_ok s a mr : mnodes s !! a = Some mr -> deref a s = (Ret mr, s).
Proof. unfold deref. by intros ->. Qed.

Lemma unlink_ok s a mr :
  wf None s -> mnodes s !! a = Some mr ->
  exists s', (if qiter_dereferenceable mr then pq_erase (qiter mr) else mret tt) s = (Ret tt, s')
    /\ wf (Some a) s' /\ mnodes s' = mnodes s.
Proof.
  intros Hw Ha. destruct (qiter_dereferenceable mr) eqn:E.
  - destruct (pq_erase_wf s a mr Hw Ha E) as (s' & H1 & H2 & H3 & _). by exists s'.
  - exists s. split; [done|]. split; [by eapply wf_detach|done].
Qed.

Lemma relink_ok s a mr p :
  wf None s -> mnodes s !! a = Some mr -> pq_miter p = a ->
  exists s' q, ((if qiter_dereferenceable mr then pq_erase (qiter mr) else mret tt);;
             q ← pq_emplace p; store a (set_qiter q true mr)) s = (Ret tt, s')
    /\ wf None s' /\ mnodes s' = <[a := set_qiter q true mr]> (mnodes s) /\ view s' = view s.
Proof.
  intros Hw Ha Hp. destruct (unlink_ok s a mr Hw Ha) as (s1 & E1 & Hw1 & Em).
  destruct (link_wf s1 a mr p Hw1) as (s2 & E2 & Hw2 & Em2 & _); [by rewrite Em|done|].
  rewrite Em in Em2. exists s2, (next_q s1). rewrite (M_bind_Ret _ _ _ _ _ E1).
  split; [done|]. split; [done|]. split; [done|]. by eapply view_same.
Qed.

Lemma decrefcnt_ok s a mr :
  wf None s -> mnodes s !! a = Some mr ->
  exists s', decrefcnt a s = (Ret (refcnt mr - 1), s') /\ wf None s'
    /\ view s' = if refcnt mr =? 1 then delete a (view s)
                 else <[a := (m_ino mr, refcnt mr - 1)]> (view s).
Proof.
  intros Hw Ha. unfold decrefcnt. rewrite (M_bind_Ret _ _ _ _ _ (deref_ok s a mr Ha)).
  set (mr1 := set_refcnt (refcnt mr - 1) mr). set (s1 := put_node a mr1 s).
  rewrite (M_bind_Ret _ _ s tt s1) by done.
  assert (wf None s1) as Hw1 by by eapply store_wf.
  assert (mnodes s1 !! a = Some mr1) as Ha1 by (unfold s1; cbn; by rewrite lookup_insert_eq).
  assert (view s1 = <[a := (m_ino mr, refcnt mr - 1)]> (view s)) as Hv by (exact (view_insert s1 a mr1 (mnodes s) eq_refl)).
  destruct (Z.eqb_spec (refcnt mr - 1) 0) as [E0|E0].
  - rewrite (proj2 (Z.eqb_eq (refcnt mr) 1)) by lia.
    destruct (unlink_ok s1 a mr1 Hw1 Ha1) as (s2 & E2 & Hw2 & Em2).
    destruct (map_erase_wf s2 a mr1 Hw2) as (s3 & E3 & Hw3 & Em3); [by rewrite Em2|].
    exists s3. split; [|split; [done|]].
    + rewrite (M_bind_Ret _ _ s1 tt s3); [done|].
      change (qiter_dereferenceable mr) with (qiter_dereferenceable mr1). change (qiter mr) with (qiter mr1).
      rewrite (M_bind_Ret _ _ _ _ _ E2). destruct (wf_self _ _ Hw a mr Ha) as [-> _]. done.
    + unfold view. rewrite Em3, Em2. cbn. by rewrite fmap_delete, fmap_insert, delete_insert_eq, <- fmap_delete.
  - rewrite (proj2 (Z.eqb_neq (refcnt mr) 1)) by lia. exists s1. done.
Qed.

Lemma incref_ok s a mr :
  wf None s -> mnodes s !! a = Some mr -> refcnt mr < int_max ->
  exists s', incref a s = (Ret tt, s') /\ wf None s'
    /\ view s' = <[a := (m_ino mr, refcnt mr + 1)]> (view s)
    /\ s' = put_node a (set_refcnt (refcnt mr + 1) mr) s.
Proof.
  intros Hw Ha Hr. unfold incref. rewrite (M_bind_Ret _ _ _ _ _ (deref_ok s a mr Ha)).
  rewrite (proj2 (Z.leb_gt _ _)) by done. eexists. split; [reflexivity|]. split; [by eapply store_wf|].
  split; [|done]. exact (view_insert (put_node a (set_refcnt (refcnt mr + 1) mr) s) a _ (mnodes s) eq_refl).
Qed.

Lemma check_handle_ok s ino h mr :
  wf None s -> mnodes s !! h = Some mr -> m_ino mr = ino -> check_handle ino h s = (Ret mr, s).
Proof.
  intros Hw Ha <-. unfold check_handle. rewrite (M_bind_Ret _ _ _ _ _ (deref_ok s h mr Ha)).
  destruct (wf_self _ _ Hw h mr Ha) as [-> _]. rewrite (M_bind_Ret _ _ _ _ _ (deref_ok s h mr Ha)).
  by rewrite !Z.eqb_refl.
Qed.

Lemma release_ok s ino h mr :
  wf None s -> mnodes s !! h = Some mr -> m_ino mr = ino ->
  exists s', openfile_release ino h s = (Ret tt, s') /\ wf None s'
    /\ view s' = if refcnt mr =? 1 then delete h (view s) else <[h := (ino, refcnt mr - 1)]> (view s).
Proof.
  intros Hw Ha Hi. unfold openfile_release. destruct (wf_self _ _ Hw h mr Ha) as [_ Hh].
  rewrite (proj2 (Z.eqb_neq h 0)) by lia. rewrite (M_bind_Ret _ _ _ _ _ (check_handle_ok s ino h mr Hw Ha Hi)).
  destruct (decrefcnt_ok s h mr Hw Ha) as (s' & E & Hw' & Hv). exists s'.
  rewrite (M_bind_Ret _ _ _ _ _ E). by subst ino.
Qed.

Lemma wf_woken det s b : wf det s -> wf det (OFM (ofmap s) (mnodes s) (ofpq s) (next_m s) (next_q s) b).
Proof. intros []. by split. Qed.

Lemma expire_now_ok s ino h mr :
  wf None s -> mnodes s !! h = Some mr -> m_ino mr = ino ->
  exists s', openfile_expire_now ino h s = (Ret tt, s') /\ wf None s' /\ view s' = view s.
Proof.
  intros Hw Ha Hi. unfold openfile_expire_now. destruct (wf_self _ _ Hw h mr Ha) as [Em Hh].
  rewrite (proj2 (Z.eqb_neq h 0)) by lia. rewrite (M_bind_Ret _ _ _ _ _ (check_handle_ok s ino h mr Hw Ha Hi)).
  destruct (qiter_dereferenceable mr) eqn:Eq; [|by exists s].
  destruct (relink_ok s h mr (pqrecord_now (miter mr)) Hw Ha) as (s1 & q & E & Hw1 & _ & Hv); [done|].
  rewrite Eq in E. exists (OFM (ofmap s1) (mnodes s1) (ofpq s1) (next_m s1) (next_q s1) true).
  split; [|split; [by apply wf_woken|done]].
  revert E. unfold mbind, M_bind. destruct (pq_erase (qiter mr) s) as [[[]|e|] s2]; [|done..].
  destruct (pq_emplace _ s2) as [[q'|e|] s3]; [|done..]. unfold store, modify. intros [= <-]. done.
Qed.

Lemma scan_top_ok s now :
  wf None s -> (forall a x, view s !! a = Some x -> x.2 < int_max) ->
  exists o s', scan_top now s = (Ret o, s') /\ wf None s'
    /\ match o with
       | None => s' = s
       | Some a => exists ino n, view s !! a = Some (ino, n) /\ view s' = <[a := (ino, n + 1)]> (view s)
       end.
Proof.
  intros Hw Hmax. unfold scan_top. rewrite (M_bind_Ret _ _ s s s) by done.
  destruct (ofpq s) as [|[q p] l] eqn:El; [by exists None, s|].
  destruct (now <? pq_expires p); [by exists None, s|]. cbv zeta.
  destruct (wf_back _ _ Hw q p) as (_ & mr & Hm & Hd & Eq); [rewrite El; by left|].
  rewrite (M_bind_Ret _ _ _ _ _ (deref_ok s _ mr Hm)).
  destruct (wf_self _ _ Hw _ mr Hm) as [-> _]. rewrite Z.eqb_refl. cbn [negb].
  destruct (pq_erase_wf s _ mr Hw Hm Hd) as (s1 & E1 & Hw1 & Em1 & _). rewrite Eq in E1.
  rewrite (M_bind_Ret _ _ _ _ _ E1).
  set (mr2 := set_qiter (qiter mr) false mr). set (s2 := put_node (pq_miter p) mr2 s1).
  rewrite (M_bind_Ret _ _ s1 tt s2) by done.
  assert (mnodes s1 !! pq_miter p = Some mr) as Hm1 by by rewrite Em1.
  assert (wf None s2) as Hw2 by by eapply store_unlinked_wf.
  assert (view s2 = view s1) as Hv2 by by eapply view_same.
  assert (view s1 = view s) as Hv1 by (unfold view; by rewrite Em1).
  pose proof (Hmax _ _ (view_lookup s _ mr Hm)) as Hlt. cbn in Hlt.
  destruct (incref_ok s2 (pq_miter p) mr2 Hw2) as (s3 & E3 & Hw3 & Hv3 & _);
    [unfold s2; cbn; by rewrite lookup_insert_eq|done|].
  rewrite (M_bind_Ret _ _ _ _ _ E3). exists (Some (pq_miter p)), s3. split; [done|]. split; [done|].
  exists (m_ino mr), (refcnt mr). split; [by apply view_lookup|]. by rewrite Hv3, Hv2, Hv1.
Qed.

Lemma scan_bottom_ok s a r now mr :
  wf None s -> mnodes s !! a = Some mr ->
  exists s', scan_bottom a r now s = (Ret tt, s') /\ wf None s'
    /\ view s' = if refcnt mr =? 1 then delete a (view s)
                 else <[a := (m_ino mr, refcnt mr - 1)]> (view s).
Proof.
  intros Hw Ha. unfold scan_bottom. destruct (decrefcnt_ok s a mr Hw Ha) as (s1 & E1 & Hw1 & Hv1).
  rewrite (M_bind_Ret _ _ _ _ _ E1). destruct (Z.eqb_spec (refcnt mr - 1) 0) as [E0|E0]; [by exists s1|].
  destruct (Z.eqb_spec (refcnt mr) 1) as [|Hne]; [lia|]. cbn [orb].
  destruct (a_eno (e_val r) =? 0); cbn [negb]; [|by exists s1].
  destruct (view_inv s1 a (m_ino mr, refcnt mr - 1)) as (mr1 & Hm1 & _); [by rewrite Hv1, lookup_insert_eq|].
  rewrite (M_bind_Ret _ _ _ _ _ (deref_ok s1 a mr1 Hm1)).
  destruct (relink_ok s1 a mr1 (pqrecord_ctor r a now) Hw1 Hm1) as (s2 & q & E2 & Hw2 & _ & Hv2); [done|].
  exists s2. by rewrite E2, Hv2.
Qed.

(** With the record read again between the two, as [openfile_register] does. *)
Lemma relink_deref s a mr p :
  mnodes s !! a = Some mr ->
  (q ← pq_emplace p; mr ← deref a; store a (set_qiter q true mr)) s
  = (q ← pq_emplace p; store a (set_qiter q true mr)) s.
Proof. intros Ha. unfold mbind, M_bind, pq_emplace, deref. cbn. by rewrite Ha. Qed.

Lemma register_try_ok s a mr r now :
  wf None s -> mnodes s !! a = Some mr -> refcnt mr < int_max ->
  exists s', register_try a r now s = (Ret a, s') /\ wf None s'
    /\ view s' = <[a := (m_ino mr, refcnt mr + 1)]> (view s).
Proof.
  intros Hw Ha Hr. unfold register_try. rewrite (M_bind_Ret _ _ _ _ _ (deref_ok s a mr Ha)).
  assert (exists s1 mr1, (if negb (qiter_dereferenceable mr)
      then q ← pq_emplace (pqrecord_ctor r a now); store a (set_qiter q true mr) else mret tt) s = (Ret tt, s1)
    /\ wf None s1 /\ mnodes s1 !! a = Some mr1 /\ view s1 = view s /\ m_ino mr1 = m_ino mr
    /\ refcnt mr1 = refcnt mr /\ qiter_dereferenceable mr1 = true) as (s1 & mr1 & E1 & Hw1 & Ha1 & Hv1 & Ei & Ec & Ed).
  { destruct (qiter_dereferenceable mr) eqn:Eq; cbn [negb]; [by exists s, mr|].
    destruct (link_wf s a mr (pqrecord_ctor r a now)) as (s1 & E1 & Hw1 & Em1 & _);
      [by eapply wf_detach|done|done|].
    eexists s1, _. split; [done|]. split; [done|]. split; [by rewrite Em1, lookup_insert_eq|].
    split; [by eapply view_same|]. done. }
  rewrite (M_bind_Ret _ _ _ _ _ E1), (M_bind_Ret _ _ _ _ _ (deref_ok s1 a mr1 Ha1)).
  destruct (wf_link _ _ Hw1 a mr1 Ha1) as (p & Hp & Ep); [done..|].
  rewrite (M_bind_Ret _ _ s1 p s1) by (unfold pq_deref; by rewrite (pq_find_in _ p _ (wf_nodes _ _ Hw1))).
  rewrite Ep, Z.eqb_refl. cbn [negb].
  destruct (incref_ok s1 a mr1 Hw1 Ha1) as (s2 & E2 & Hw2 & Hv2 & Es2); [by rewrite Ec|].
  rewrite (M_bind_Ret _ _ _ _ _ E2). set (mr2 := set_refcnt (refcnt mr1 + 1) mr1) in *.
  assert (mnodes s2 !! a = Some mr2) as Ha2 by (rewrite Es2; cbn; by rewrite lookup_insert_eq).
  assert (exists s3 mr3, (if negb (pq_expires p =? good_till r)
      then pq_erase (qiter mr1);; q ← pq_emplace (pqrecord_ctor r a now); mr ← deref a; store a (set_qiter q true mr)
      else mret tt) s2 = (Ret tt, s3)
    /\ wf None s3 /\ mnodes s3 !! a = Some mr3 /\ view s3 = view s2) as (s3 & mr3 & E3 & Hw3 & Ha3 & Hv3).
  { destruct (pq_expires p =? good_till r); cbn [negb]; [by exists s2, mr2|].
    destruct (pq_erase_wf s2 a mr2 Hw2 Ha2 Ed) as (s3 & E3 & Hw3 & Em3 & _).
    destruct (link_wf s3 a mr2 (pqrecord_ctor r a now) Hw3) as (s4 & E4 & Hw4 & Em4 & _);
      [by rewrite Em3|done|].
    eexists s4, _. split; [|split; [done|split; [by rewrite Em4, lookup_insert_eq|]]].
    - change (qiter mr1) with (qiter mr2). rewrite (M_bind_Ret _ _ _ _ _ E3).
      by rewrite (relink_deref s3 a mr2) by by rewrite Em3.
    - rewrite Em3 in Em4. by eapply view_same. }
  rewrite (M_bind_Ret _ _ _ _ _ E3), (M_bind_Ret _ _ _ _ _ (deref_ok s3 a mr3 Ha3)).
  rewrite (M_bind_Ret _ _ s3 s3 s3) by done.
  assert (view s3 = <[a := (m_ino mr, refcnt mr + 1)]> (view s)) as Hv by by rewrite Hv3, Hv2, Hv1, Ei, Ec.
  destruct (bool_decide _); [|by exists s3].
  eexists. split; [reflexivity|]. split; [by apply wf_woken|exact Hv].
Qed.

Lemma register_ok s ino r now :
  wf None s -> a_eno (e_val r) = 0 -> (forall a x, view s !! a = Some x -> x.2 < int_max) ->
  exists h s', openfile_register ino r now s = (Ret h, s') /\ wf None s'
    /\ ((exists n, view s !! h = Some (ino, n) /\ view s' = <[h := (ino, n + 1)]> (view s))
        \/ (view s !! h = None /\ view s' = <[h := (ino, 1)]> (view s))).
Proof.
  intros Hw He Hmax. unfold openfile_register. rewrite (proj2 (Z.eqb_eq _ _) He). cbn [negb].
  destruct (ofmap s !! ino) as [a|] eqn:Ei.
  - pose proof Ei as Ei'. apply (wf_map _ _ Hw) in Ei' as (mr & Ha & Em).
    rewrite (M_bind_Ret _ _ s (a, false) s) by (unfold map_emplace; by rewrite Ei).
    rewrite (M_bind_Ret _ _ _ _ _ (deref_ok s a mr Ha)). rewrite (M_bind_Ret _ _ s tt s) by done.
    destruct (register_try_ok s a mr r now Hw Ha) as (s' & E & Hw' & Hv);
      [by apply (Hmax a _ (view_lookup s a mr Ha))|].
    exists a, s'. split; [unfold try_M; by rewrite E|]. split; [done|]. left. exists (refcnt mr).
    rewrite Em in Hv. split; [by rewrite (view_lookup s a mr Ha), Em|done].
  - destruct (new_node_wf s ino Hw Ei) as [Hn Hw1]. set (a := next_m s) in *.
    set (s1 := OFM (<[ino := a]> (ofmap s)) (<[a := MRec ino 0 0 false a]> (mnodes s)) (ofpq s)
                 (a + 1) (next_q s) (woken s)) in *.
    set (s0 := OFM (<[ino := a]> (ofmap s)) (<[a := MRec ino 0 0 false 0]> (mnodes s)) (ofpq s)
                 (a + 1) (next_q s) (woken s)).
    rewrite (M_bind_Ret _ _ s (a, true) s0) by (unfold map_emplace; by rewrite Ei).
    rewrite (M_bind_Ret _ _ _ _ _ (deref_ok s0 a (MRec ino 0 0 false 0) ltac:(by cbn; rewrite lookup_insert_eq))).
    rewrite (M_bind_Ret _ _ s0 tt s1).
    2: { unfold store, modify, put_node, s0, s1. cbn. by rewrite insert_insert_eq. }
    destruct (register_try_ok s1 a (MRec ino 0 0 false a) r now Hw1) as (s' & E & Hw' & Hv);
      [cbn; by rewrite lookup_insert_eq|done|].
    exists a, s'. split; [unfold try_M; by rewrite E|]. split; [done|]. right.
    split; [unfold view; by rewrite lookup_fmap, Hn|]. rewrite Hv. cbn.
    unfold view, s1. cbn. by rewrite fmap_insert, insert_insert_eq.
Qed.

(** ** The invariant of the system *)

Definition flight (s : sys) (a : Z) : Z := if decide (inflight s = Some a) then 1 else 0.

(** The count a node should have. *)
Definition count_of (s : sys) (ino a : Z) : Z :=
  Z.of_nat (multiplicity (ino, a) (handles s)) + flight s a.

Record sys_inv (n : nat) (s : sys) : Prop := SysInv {
  si_wf : wf None (tab s);
  si_count a ino c : view (tab s) !! a = Some (ino, c) -> c = count_of s ino a /\ 0 < c;
  si_handles ino a : (ino, a) ∈ handles s -> exists c, view (tab s) !! a = Some (ino, c);
  si_flight a : inflight s = Some a -> is_Some (view (tab s) !! a);
  si_size : (size (handles s) <= n)%nat;
}.

Lemma sys_init_inv : sys_inv 0 sys_init.
Proof.
  split; cbn; try done.
  - split; cbn; try done.
    + intros ino a. split; [done|by intros (? & ? & _)].
    + intros q p H. by apply not_elem_of_nil in H.
    + intros q p H. by apply not_elem_of_nil in H.
    + intros q p p' H. by apply not_elem_of_nil in H.
    + constructor.
  - intros ino a H. by apply gmultiset_not_elem_of_empty in H.
Qed.

Lemma multiplicity_size (x : Z * Z) (X : gmultiset (Z * Z)) : (multiplicity x X <= size X)%nat.
Proof.
  induction X as [|y X IH] using gmultiset_ind; [by rewrite multiplicity_empty|].
  rewrite multiplicity_disj_union, gmultiset_size_disj_union, gmultiset_size_singleton.
  assert (multiplicity x {[+ y +]} <= 1)%nat by (rewrite multiplicity_singleton; case_decide; lia). lia.
Qed.

Lemma inv_bound n s a x :
  sys_inv n s -> Z.of_nat n < int_max - 1 -> view (tab s) !! a = Some x -> x.2 < int_max.
Proof.
  intros [] Hn Hx. destruct x as [ino c]. destruct (si_count0 a ino c Hx) as [-> _]. cbn.
  unfold count_of, flight. pose proof (multiplicity_size (ino, a) (handles s)). case_decide; lia.
Qed.

(** Only [h]'s count changes, by what the handles and the scanner do. *)
Lemma inv_change n s t hs fl h ino c :
  sys_inv n s -> wf None t -> view t = <[h := (ino, c)]> (view (tab s)) ->
  (view (tab s) !! h = None \/ exists c0, view (tab s) !! h = Some (ino, c0)) ->
  let s' := Sys t hs fl in
  c = count_of s' ino h -> 0 < c ->
  (forall i a, a <> h -> count_of s' i a = count_of s i a /\ ((i, a) ∈ hs <-> (i, a) ∈ handles s)) ->
  (forall i, (i, h) ∈ hs -> i = ino) ->
  (forall a, fl = Some a -> a = h \/ inflight s = Some a) ->
  (size hs <= S n)%nat ->
  sys_inv (S n) s'.
Proof.
  intros [] Hw Hv Hh s' Hc Hpos Hother Hhs Hfl Hsz. split; [done| | | |done]; cbn [tab handles inflight s'].
  - intros a i d. rewrite Hv. destruct (decide (h = a)) as [<-|Hne].
    + rewrite lookup_insert_eq. intros [= -> ->]. done.
    + rewrite lookup_insert_ne by done. intros Hd. destruct (Hother i a) as [E _]; [done|].
      destruct (si_count0 a i d Hd). split; [by rewrite E|done].
  - intros i a Hin. rewrite Hv. destruct (decide (h = a)) as [<-|Hne].
    + rewrite (Hhs i Hin), lookup_insert_eq. eauto.
    + rewrite lookup_insert_ne by done. apply si_handles0. by apply Hother.
  - intros a Ha. rewrite Hv. destruct (decide (h = a)) as [<-|Hne]; [by rewrite lookup_insert_eq|].
    rewrite lookup_insert_ne by done. apply si_flight0. by destruct (Hfl a Ha).
Qed.

(** [h] goes, with the last that referred to it. *)
Lemma inv_remove n s t hs fl h ino :
  sys_inv n s -> wf None t -> view t = delete h (view (tab s)) -> is_Some (view (tab s) !! h) ->
  let s' := Sys t hs fl in
  count_of s' ino h = 0 ->
  (forall i a, a <> h -> count_of s' i a = count_of s i a /\ ((i, a) ∈ hs <-> (i, a) ∈ handles s)) ->
  (forall i, (i, h) ∈ hs -> i = ino) ->
  (forall a, fl = Some a -> inflight s = Some a) ->
  (size hs <= S n)%nat ->
  sys_inv (S n) s'.
Proof.
  intros [] Hw Hv Hh s' Hc Hother Hhs Hfl Hsz.
  unfold count_of, flight, s' in Hc. cbn [handles inflight] in Hc.
  assert (forall i a, (i, a) ∈ hs -> h <> a) as Hne.
  { intros i a Hin <-. rewrite (Hhs i Hin) in Hin. 
    assert (0 < multiplicity (ino, h) hs)%nat by by apply elem_of_multiplicity.
    destruct (decide (fl = Some h)); lia. }
  split; [done| | | |done]; cbn [tab handles inflight s'].
  - intros a i d. rewrite Hv. intros [Ha Hd]%lookup_delete_Some. destruct (Hother i a) as [E _]; [done|].
    destruct (si_count0 a i d Hd). split; [by rewrite E|done].
  - intros i a Hin. rewrite Hv, lookup_delete_ne by by eapply Hne.
    apply si_handles0, Hother; [|done]. apply not_eq_sym. by eapply Hne.
  - intros a Ha. rewrite Hv. rewrite lookup_delete_ne; [by apply si_flight0, Hfl|]. intros <-.
    rewrite decide_True in Hc by done. lia.
Qed.

Lemma inv_weaken n s : sys_inv n s -> sys_inv (S n) s.
Proof. intros []. split; try done. lia. Qed.

Lemma handle_node n s ino a :
  sys_inv n s -> (ino, a) ∈ handles s ->
  exists mr, mnodes (tab s) !! a = Some mr /\ m_ino mr = ino
    /\ refcnt mr = count_of s ino a /\ 0 < refcnt mr.
Proof.
  intros [] Hin. destruct (si_handles0 ino a Hin) as (c & Hc).
  destruct (si_count0 a ino c Hc). apply view_inv in Hc as (mr & Hm & [= -> ->]). by exists mr.
Qed.

Lemma open_inv n s ino r now :
  sys_inv n s -> Z.of_nat n < int_max - 1 ->
  exists s', sys_step (E_open ino r now) s = Ret s' /\ sys_inv (S n) s'.
Proof.
  intros Hs Hn. pose proof Hs as []. cbn [sys_step].
  destruct (Z.eqb_spec (a_eno (e_val r)) 0) as [He|He]; cbn [negb];
    [|exists s; split; [done|by apply inv_weaken]].
  destruct (register_ok (tab s) ino r now si_wf0 He) as (h & t & E & Hw & Hcase);
    [intros a x Hx; by apply (inv_bound n s a x)|].
  rewrite E. eexists. split; [reflexivity|].
  assert (forall i c, (i, h) ∈ handles s -> view (tab s) !! h = Some (ino, c) -> i = ino) as Hsame.
  { intros i c Hin Hc. destruct (si_handles0 i h Hin) as (d & Hd). congruence. }
  assert (exists c, view t = <[h := (ino, c)]> (view (tab s))
    /\ (view (tab s) !! h = None \/ exists c0, view (tab s) !! h = Some (ino, c0))
    /\ c = count_of s ino h + 1 /\ 0 < c /\ (forall i, (i, h) ∈ handles s -> i = ino))
    as (c & Hv & Hh & Hc & Hpos & Hhs).
  { destruct Hcase as [(c & Hc & Hv)|[Hc Hv]].
    - exists (c + 1). destruct (si_count0 h ino c Hc) as [-> ?]. split_and!; [done|eauto|lia|lia|eauto].
    - exists 1. assert (forall i, (i, h) ∉ handles s) as Hno.
      { intros i Hin. destruct (si_handles0 i h Hin) as (d & Hd). congruence. }
      split_and!; [done|by left| |lia|intros i Hin; by destruct (Hno i)].
      unfold count_of, flight. rewrite decide_False by (intros Hf; destruct (si_flight0 h Hf); congruence).
      specialize (Hno ino). rewrite elem_of_multiplicity in Hno. lia. }
  eapply (inv_change n s); [done..| | | | | |]; cbn [handles].
  - unfold count_of, flight in *. cbn [handles inflight].
    rewrite multiplicity_disj_union, multiplicity_singleton_eq. lia.
  - done.
  - intros i a Ha. assert ((i, a) <> (ino, h)) by congruence. split.
    + unfold count_of, flight. cbn [handles inflight].
      by rewrite multiplicity_disj_union, multiplicity_singleton_ne.
    + rewrite gmultiset_elem_of_disj_union, gmultiset_elem_of_singleton. tauto.
  - intros i [[= ->]%gmultiset_elem_of_singleton|Hin]%gmultiset_elem_of_disj_union; [done|by apply Hhs].
  - intros a Ha. by right.
  - rewrite gmultiset_size_disj_union, gmultiset_size_singleton. lia.
Qed.

Lemma close_inv n s ino h :
  sys_inv n s -> exists s', sys_step (E_close ino h) s = Ret s' /\ sys_inv (S n) s'.
Proof.
  intros Hs. pose proof Hs as []. cbn [sys_step].
  destruct (decide ((ino, h) ∈ handles s)) as [Hin|Hin];
    [rewrite bool_decide_eq_true_2 by done|rewrite bool_decide_eq_false_2 by done; exists s; split; [done|by apply inv_weaken]].
  cbn [negb]. destruct (handle_node n s ino h Hs Hin) as (mr & Hm & Hi & Hc & Hpos).
  destruct (release_ok (tab s) ino h mr si_wf0 Hm Hi) as (t & E & Hw & Hv).
  rewrite E. eexists. split; [reflexivity|].
  assert (1 <= multiplicity (ino, h) (handles s))%nat as H1 by by apply elem_of_multiplicity.
  assert (forall i a, a <> h -> count_of (Sys t (handles s ∖ {[+ (ino, h) +]}) (inflight s)) i a = count_of s i a
    /\ ((i, a) ∈ handles s ∖ {[+ (ino, h) +]} <-> (i, a) ∈ handles s)) as Hother.
  { intros i a Ha. assert ((i, a) <> (ino, h)) by congruence.
    unfold count_of, flight. cbn [handles inflight].
    rewrite !elem_of_multiplicity, multiplicity_difference, multiplicity_singleton_ne by done.
    rewrite Nat.sub_0_r. done. }
  assert (count_of (Sys t (handles s ∖ {[+ (ino, h) +]}) (inflight s)) ino h = refcnt mr - 1) as Hcnt.
  { rewrite Hc. unfold count_of, flight. cbn [handles inflight].
    rewrite multiplicity_difference, multiplicity_singleton_eq. lia. }
  assert (forall i, (i, h) ∈ handles s ∖ {[+ (ino, h) +]} -> i = ino) as Hhs.
  { intros i Hi'. destruct (si_handles0 i h) as (d & Hd).
    - rewrite elem_of_multiplicity, multiplicity_difference in Hi'. rewrite elem_of_multiplicity. lia.
    - rewrite (view_lookup _ _ _ Hm), Hi in Hd. congruence. }
  assert (size (handles s ∖ {[+ (ino, h) +]}) <= S n)%nat as Hsz.
  { rewrite gmultiset_size_difference by by apply gmultiset_singleton_subseteq_l. lia. }
  destruct (Z.eqb_spec (refcnt mr) 1) as [E1|E1].
  - eapply (inv_remove n s); [done|done|exact Hv|rewrite (view_lookup _ _ _ Hm); by eexists| |exact Hother|exact Hhs|done|done].
    rewrite Hcnt. lia.
  - eapply (inv_change n s); [done|done|exact Hv| |by symmetry|lia|exact Hother|exact Hhs|by right|done].
    right. exists (refcnt mr). by rewrite (view_lookup _ _ _ Hm), Hi.
Qed.

Lemma expire_inv n s ino h :
  sys_inv n s -> exists s', sys_step (E_expire ino h) s = Ret s' /\ sys_inv (S n) s'.
Proof.
  intros Hs. pose proof Hs as []. cbn [sys_step].
  destruct (decide ((ino, h) ∈ handles s)) as [Hin|Hin];
    [rewrite bool_decide_eq_true_2 by done|rewrite bool_decide_eq_false_2 by done; exists s; split; [done|by apply inv_weaken]].
  cbn [negb]. destruct (handle_node n s ino h Hs Hin) as (mr & Hm & Hi & _).
  destruct (expire_now_ok (tab s) ino h mr si_wf0 Hm Hi) as (t & E & Hw & Hv).
  rewrite E. eexists. split; [reflexivity|]. apply inv_weaken.
  split; cbn [tab handles inflight]; rewrite ?Hv; done.
Qed.

Lemma scan_top_inv n s now :
  sys_inv n s -> Z.of_nat n < int_max - 1 ->
  exists s', sys_step (E_scan_top now) s = Ret s' /\ sys_inv (S n) s'.
Proof.
  intros Hs Hn. pose proof Hs as []. cbn [sys_step].
  destruct (inflight s) as [b|] eqn:Ef; [exists s; split; [done|by apply inv_weaken]|].
  destruct (scan_top_ok (tab s) now si_wf0) as (o & t & E & Hw & Ho);
    [intros a x Hx; by apply (inv_bound n s a x)|].
  rewrite E. eexists. split; [reflexivity|]. destruct o as [a|].
  - destruct Ho as (ino & c & Hc & Hv). destruct (si_count0 a ino c Hc) as [Ec Hpos].
    eapply (inv_change n s); [done|done|exact Hv|eauto| |lia| | | |cbn; lia].
    + rewrite Ec. unfold count_of, flight. cbn [handles inflight]. rewrite Ef, decide_False by done.
      rewrite decide_True by done. lia.
    + intros i b Hb. split; [|done]. unfold count_of, flight. cbn [handles inflight].
      by rewrite Ef, !decide_False by congruence.
    + intros i Hin. destruct (si_handles0 i a Hin) as (d & Hd). congruence.
    + intros b [= <-]. by left.
  - rewrite Ho. apply inv_weaken. split; cbn [tab handles inflight]; try done.
    intros a i c Hc. destruct (si_count0 a i c Hc) as [-> ?]. unfold count_of, flight in *. cbn.
    by rewrite Ef in *.
Qed.

Lemma scan_bottom_inv n s r now :
  sys_inv n s -> exists s', sys_step (E_scan_bottom r now) s = Ret s' /\ sys_inv (S n) s'.
Proof.
  intros Hs. pose proof Hs as []. cbn [sys_step].
  destruct (inflight s) as [a|] eqn:Ef; [|exists s; split; [done|by apply inv_weaken]].
  destruct (si_flight0 a eq_refl) as [x Hx]. apply view_inv in Hx as (mr & Hm & ->).
  destruct (scan_bottom_ok (tab s) a r now mr si_wf0 Hm) as (t & E & Hw & Hv).
  rewrite E. eexists. split; [reflexivity|].
  destruct (si_count0 a _ _ (view_lookup _ _ _ Hm)) as [Hc Hpos].
  assert (count_of (Sys t (handles s) None) (m_ino mr) a = refcnt mr - 1) as Hcnt.
  { rewrite Hc. unfold count_of, flight. cbn [handles inflight]. rewrite Ef.
    rewrite decide_False, decide_True by done. lia. }
  assert (forall i b, b <> a -> count_of (Sys t (handles s) None) i b = count_of s i b
    /\ ((i, b) ∈ handles s <-> (i, b) ∈ handles s)) as Hother.
  { intros i b Hb. split; [|done]. unfold count_of, flight. cbn [handles inflight].
    by rewrite Ef, !decide_False by congruence. }
  assert (forall i, (i, a) ∈ handles s -> i = m_ino mr) as Hhs.
  { intros i Hin. destruct (si_handles0 i a Hin) as (d & Hd). rewrite (view_lookup _ _ _ Hm) in Hd. congruence. }
  destruct (Z.eqb_spec (refcnt mr) 1) as [E1|E1].
  - eapply (inv_remove n s); [done|done|exact Hv|rewrite (view_lookup _ _ _ Hm); by eexists| |exact Hother|exact Hhs|done|cbn; lia].
    rewrite Hcnt. lia.
  - eapply (inv_change n s); [done|done|exact Hv| |by symmetry|lia|exact Hother|exact Hhs|done|cbn; lia].
    right. exists (refcnt mr). by rewrite (view_lookup _ _ _ Hm).
Qed.

Lemma sys_run_inv es n s :
  sys_inv n s -> Z.of_nat (n + length es) < int_max ->
  exists s', sys_run es s = Ret s' /\ sys_inv (n + length es) s'.
Proof.
  revert n s. induction es as [|e es IH]; intros n s Hs Hn; cbn [sys_run length] in *.
  { exists s. by rewrite Nat.add_0_r. }
  assert (exists s1, sys_step e s = Ret s1 /\ sys_inv (S n) s1) as (s1 & E1 & Hs1).
  { destruct e; [apply open_inv|apply close_inv|apply expire_inv|apply scan_top_inv|apply scan_bottom_inv];
      solve [done | lia]. }
  rewrite E1. cbn [mbind outcome_bind]. replace (n + S (length es))%nat with (S n + length es)%nat in * by lia.
  by apply IH.
Qed.

Lemma inv_empty n s :
  sys_inv n s -> handles s = ∅ -> inflight s = None -> ofmap (tab s) = ∅ /\ ofpq (tab s) = [].
Proof.
  intros Hs Hh Hf. pose proof Hs as [].
  assert (forall a, mnodes (tab s) !! a = None) as Hno.
  { intros a. destruct (mnodes (tab s) !! a) as [mr|] eqn:Hm; [|done].
    destruct (si_count0 a _ _ (view_lookup _ _ _ Hm)) as [Hc Hpos].
    unfold count_of, flight in Hc. rewrite Hh, Hf, multiplicity_empty, decide_False in Hc by done. lia. }
  split.
  - apply map_empty. intros ino. destruct (ofmap (tab s) !! ino) as [a|] eqn:Ha; [|done].
    apply (wf_map _ _ si_wf0) in Ha as (mr & Hm & _). by rewrite Hno in Hm.
  - destruct (ofpq (tab s)) as [|[q p] l] eqn:Eq; [done|].
    destruct (wf_back _ _ si_wf0 q p) as (_ & mr & Hm & _); [rewrite Eq; by left|]. by rewrite Hno in Hm.
Qed.

Lemma scan_verdict_cases ino res m :
  (exists r must m', scan_verdict ino res m = (Ret (r, must), m')
     /\ (must = false -> res = Ret r /\ a_eno (e_val r) = 0 /\ m' = m
           /\ exists ir, m !! ino = Some ir /\ validator ir = a_validator (e_val r))
     /\ (a_eno (e_val r) <> 0 -> must = true))
  \/ (scan_verdict ino res m).1 = Undef.
Proof.
  destruct res as [r|e|]; [| |by right].
  - unfold scan_verdict. unfold mbind at 1, M_bind at 1, mret at 1, M_ret at 1.
    destruct (Z.eqb_spec (a_eno (e_val r)) 0) as [E0|E0]; [|left; exists r, true, m].
    2: { cbv beta iota zeta. unfold mbind, M_bind, mret, M_ret. rewrite (proj2 (Z.eqb_neq _ _)) by done. done. }
    unfold try_M, mbind, M_bind, mret, M_ret. cbv beta iota zeta.
    rewrite ?(proj2 (Z.eqb_eq _ _) E0).
    pose proof (update_cases ino (a_validator (e_val r)) m) as Hu. cbn [run_op] in Hu.
    unfold mbind, M_bind, mret, M_ret in Hu.
    destruct (ino_update_validator ino (a_validator (e_val r)) m) as [[old|e|] m'] eqn:Eu; [| |by right].
    + left. exists r. cbv beta iota. rewrite (proj2 (Z.eqb_eq _ _)) by done.
      eexists _, m'. split; [done|]. split; [|done]. intros Hm. apply negb_false_iff, Z.eqb_eq in Hm. subst old.
      destruct (m !! ino) as [ir|] eqn:Ei; [|done].
      case_match; cbn in Hu; [by destruct Hu|]. injection Hu as Hv ->. split; [done|]. split; [done|].
      split; [|by exists ir]. rewrite Hv. destruct ir. by apply insert_id.
    + left. eexists _, true, m'. split; [done|]. split; [done|]. done.
  - left. exists expiring_default, true, m. split; [done|]. by split.
Qed.

(** ** Properties *)

(** C16.  The table of open files is safe in every interleaving.  For any
    sequence of opens, closes and reads by the kernel and steps of the
    scanner, with any answers of upstream and at any times, of fewer than
    2^31 - 1 steps: every step returns, that is, no pointer to a node that is
    gone is followed and the "inconsistent iterators" exceptions are not
    thrown; the invariants in the comment at the top of the file hold, also
    while the scanner has released the mutex; every handle the kernel holds is
    a live record of its inode; a record's count is the number of its handles
    plus one while the scanner works on it; the queue is in order of
    expiration; and when all files are closed and the scanner is idle both
    containers are empty. *)
Theorem openfile_safe es :
  Z.of_nat (length es) < int_max ->
  exists s, sys_run es sys_init = Ret s
    /\ (forall ino a, ofmap (tab s) !! ino = Some a <-> exists mr, mnodes (tab s) !! a = Some mr /\ m_ino mr = ino)
    /\ (forall a mr, mnodes (tab s) !! a = Some mr ->
          miter mr = a /\ a <> 0 /\ 0 < refcnt mr
          /\ refcnt mr = Z.of_nat (multiplicity (m_ino mr, a) (handles s))
                         + (if decide (inflight s = Some a) then 1 else 0)
          /\ (qiter_dereferenceable mr = true ->
                exists p, (qiter mr, p) ∈ ofpq (tab s) /\ pq_miter p = a))
    /\ (forall q p, (q, p) ∈ ofpq (tab s) ->
          exists mr, mnodes (tab s) !! pq_miter p = Some mr
            /\ qiter_dereferenceable mr = true /\ qiter mr = q)
    /\ StronglySorted expires_le (ofpq (tab s))
    /\ (forall ino h, (ino, h) ∈ handles s -> exists mr, mnodes (tab s) !! h = Some mr /\ m_ino mr = ino)
    /\ (handles s = ∅ -> inflight s = None -> ofmap (tab s) = ∅ /\ ofpq (tab s) = []).
Proof.
  intros Hn. destruct (sys_run_inv es 0 sys_init sys_init_inv) as (s & E & Hs); [done|].
  exists s. split; [done|]. pose proof Hs as [Hw Hc Hh _ _]. split; [apply Hw|].
  split; [|split; [|split; [apply Hw|split; [|by eapply inv_empty]]]].
  - intros a mr Hm. destruct (wf_self _ _ Hw a mr Hm) as (H1 & H2).
    destruct (Hc a _ _ (view_lookup _ _ _ Hm)) as [H3 H4].
    split; [done|]. split; [lia|]. split; [done|]. split; [done|]. intros H5. by apply (wf_link _ _ Hw a mr).
  - intros q p Hin. destruct (wf_back _ _ Hw q p Hin) as [_ ?]. done.
  - intros ino h Hin. destruct (handle_node _ s ino h Hs Hin) as (mr & Hm & Hi & _). by exists mr.
Qed.

Definition wx_attr (good : Z) : begetattr_t := Expiring (ACV 0 1 0 true stat_zero 5) good.

(** Two opens, the second while the scanner is out; both are closed before it
    comes back and finds itself the last. *)
Definition wx_events : list event :=
  [E_open 77 (wx_attr 100) 50; E_scan_top (800 * msec); E_open 77 (wx_attr 200) 60;
   E_close 77 1; E_close 77 1; E_scan_bottom (wx_attr 9000) 300].

Lemma openfile_safe_witness :
  exists s, sys_run wx_events sys_init = Ret s
    /\ (handles s = ∅ -> inflight s = None -> ofmap (tab s) = ∅ /\ ofpq (tab s) = [])
    /\ handles s = ∅ /\ inflight s = None.
Proof.
  destruct (openfile_safe wx_events) as (s & E & _ & _ & _ & _ & _ & H); [by vm_compute|].
  exists s. split; [exact E|]. split; [exact H|].
  assert (match sys_run wx_events sys_init with Ret s => handles s = ∅ /\ inflight s = None | _ => False end) as Hx
    by (vm_compute; split; reflexivity).
  rewrite E in Hx. exact Hx.
Defined.

(** The scanner's verdict on a file, for whatever [begetattr] came to: it
    never lets an exception out, which would leave the record's count one too
    high for ever, as the comment in the code warns; and the kernel is not
    told to drop its cached pages only if the attributes came without an
    errno and with the validator the table of inodes has, which it still has
    afterwards. *)
Theorem scan_verdict_notifies ino res m :
  (forall e, (scan_verdict ino res m).1 <> Throw e)
  /\ forall r m', scan_verdict ino res m = (Ret (r, false), m') ->
       res = Ret r /\ a_eno (e_val r) = 0 /\ m' = m
       /\ exists ir, m !! ino = Some ir /\ validator ir = a_validator (e_val r).
Proof.
  destruct (scan_verdict_cases ino res m) as [(r & must & m' & E & Hm & _)|E].
  - rewrite E. split; [done|]. intros ? ? [= <- -> <-]. by apply Hm.
  - split; [by rewrite E|]. intros r m' E'. by rewrite E' in E.
Qed.

Lemma scan_verdict_notifies_witness :
  (forall e, (scan_verdict 77 (Ret (wx_attr 100)) {[ 77 := InoRecord (fill_buf (lit "f")) 1 1 5 ]}).1 <> Throw e)
  /\ exists r m', scan_verdict 77 (Ret (wx_attr 100)) {[ 77 := InoRecord (fill_buf (lit "f")) 1 1 5 ]} = (Ret (r, false), m')
       /\ a_eno (e_val r) = 0.
Proof.
  destruct (scan_verdict_notifies 77 (Ret (wx_attr 100)) {[ 77 := InoRecord (fill_buf (lit "f")) 1 1 5 ]})
    as [H1 H2].
  split; [exact H1|]. eexists _, _. split; [vm_compute; reflexivity|reflexivity].
Defined.

(** ** What the scanner forgets *)

(** After one failing [begetattr] an open file is in the queue no more, so its
    validator is not looked at again, and the kernel not told of changes,
    until somebody opens it again. *)
Example failed_scan_forgets :
  match sys_run [E_open 77 (wx_attr 100) 50; E_scan_top (800 * msec);
                 E_scan_bottom (Expiring attrcache_value_default 0) (900 * msec)] sys_init with
  | Ret s => ofpq (tab s) = [] /\ (77, 1) ∈ handles s /\ scanloop_wait (1000 * msec) (tab s) = None
  | _ => False
  end.
Proof. vm_compute. split; [done|]. split; [lia|done]. Qed.
