(* ===== verification/MountOps.v ===== *)
(** * The callbacks of the client (exe/fs123p7/app_mount.cpp, special_ino.cpp)

    What the kernel's requests to the mounted file system are answered with:
    lookup, getattr, open, read, release, readlink, the extended attributes,
    directories, statfs, locks and forget, and the four special files in the
    root; ioctls are in MountIoctl.  Replies to the kernel are recorded in the
    order in which they are sent; libfuse takes them as they are.  The
    statistics, the idle timer and the text of the reports in the special
    files are not modelled, and timeouts stay in nanoseconds where the code
    gives the kernel a double.

    Shown here: a callback sends one reply, or none when complaining of an
    exception throws, and no exception leaves it (with ioctls, in MountIoctl).
    What reads and listings say is in MountRead and MountDir, and
    what the kernel and the table know of each other in MountInos. *)

From Stdlib Require Import Ascii String ZArith Lia.
From stdpp Require Import base gmap strings list numbers.
From S2P Require Import Prelude StrUtils Threeroe SvTo Netstring PathUtils Expiring ContentCodec Backend.
From S2P Require Import ServerParse ClientReply StatSer EstaleCookie Inomap Beget OpenFileMap.

#[local] Open Scope Z_scope.

(** ** What the kernel gets *)

(** What [fuse_add_direntry] puts into the buffer. *)
Record dirent := Dirent { kd_name : bytes; kd_ino : Z; kd_mode : Z; kd_off : Z }.

Inductive kreply :=
| K_err (eno : Z)                                               (* and reply_release, with 0 *)
| K_entry (ino : Z) (attr : stat) (attr_timeout entry_timeout : Z)
| K_attr (sb : stat) (timeout : Z)
| K_open (fh : Z) (keep_cache direct_io : bool)
| K_buf (buf : bytes)
| K_iov (iov : list bytes)
| K_readlink (target : bytes)
| K_statfs (sv : statvfs)
| K_xattr (len : Z)
| K_dir (buf : list dirent)                       (* reply_buf of what fuse_add_direntry wrote *)
| K_ioctl (result : Z)                            (* fuse_reply_ioctl *)
| K_none.

Record fuse_file_info := FI { fi_flags : Z; fi_fh : Z; fi_keep_cache : bool; fi_direct_io : bool }.
Definition set_fh (fh : Z) (fi : fuse_file_info) : fuse_file_info :=
  FI (fi_flags fi) fh (fi_keep_cache fi) (fi_direct_io fi).
Definition set_keep_cache (b : bool) (fi : fuse_file_info) : fuse_file_info :=
  FI (fi_flags fi) (fi_fh fi) b (fi_direct_io fi).
(** [fi->direct_io] is a bit-field of one bit: the low bit of what is assigned. *)
Definition set_direct_io (v : Z) (fi : fuse_file_info) : fuse_file_info :=
  FI (fi_flags fi) (fi_fh fi) (fi_keep_cache fi) (Z.odd v).

(** The options the callbacks consult. *)
Record mount_opts := MountOpts {
  st_ino_mask : Z;
  privileged_server : bool;
  squash_all_uid : Z; squash_all_gid : Z;
  squash_root_uid : Z; squash_root_gid : Z;
  no_kernel_data_caching : bool;
  no_kernel_attr_caching : bool;
  no_kernel_dentry_caching : bool;
}.

(** The state of an open directory. *)
Record fh_state := FhState {
  fs_contents : bytes;
  contents_first_byte_offset : Z;
  offsets : list (Z * bytes);
  fs_eof : bool;
}.
Definition fh_state_ctor : fh_state := FhState [] 0 [(0, [])] false.

(** What else the callbacks ask the system and libfuse for, and the text
    [open_special_ino] makes of the date and the reports. *)
Class Host (W : Type) := {
  geteuid : W -> Z;
  getegid : W -> Z;
  special_report : Z -> W -> bytes * W;
  (** what [fuse_add_direntry] says an entry of this name takes *)
  direntry_size : bytes -> Z;
  (** whether [caught] itself throws, while it complains about an exception and
      before it replies (memory, or what the complaint goes to) *)
  complaint_throws : exn -> W -> bool;
}.

(** ** Attributes *)

Definition S_IROTH : Z := 4.
Definition S_IXOTH : Z := 1.
Definition S_IRALL : Z := 292.
Definition S_IWALL : Z := 146.
Definition S_IXALL : Z := 73.

Definition set_mode (m : Z) (sb : stat) : stat :=
  Stat m (st_nlink sb) (st_uid sb) (st_gid sb) (st_size sb) (st_mtime sb) (st_ctime sb) (st_atime sb)
    (st_ino sb) (st_mtim_nsec sb) (st_ctim_nsec sb) (st_atim_nsec sb) (st_dev sb) (st_blocks sb)
    (st_blksize sb) (st_rdev sb).
Definition set_ids (u g : Z) (sb : stat) : stat :=
  Stat (st_mode sb) (st_nlink sb) u g (st_size sb) (st_mtime sb) (st_ctime sb) (st_atime sb)
    (st_ino sb) (st_mtim_nsec sb) (st_ctim_nsec sb) (st_atim_nsec sb) (st_dev sb) (st_blocks sb)
    (st_blksize sb) (st_rdev sb).
Definition set_ino (i : Z) (sb : stat) : stat :=
  Stat (st_mode sb) (st_nlink sb) (st_uid sb) (st_gid sb) (st_size sb) (st_mtime sb) (st_ctime sb)
    (st_atime sb) i (st_mtim_nsec sb) (st_ctim_nsec sb) (st_atim_nsec sb) (st_dev sb) (st_blocks sb)
    (st_blksize sb) (st_rdev sb).
Definition set_size (n : Z) (sb : stat) : stat :=
  Stat (st_mode sb) (st_nlink sb) (st_uid sb) (st_gid sb) n (st_mtime sb) (st_ctime sb) (st_atime sb)
    (st_ino sb) (st_mtim_nsec sb) (st_ctim_nsec sb) (st_atim_nsec sb) (st_dev sb) (st_blocks sb)
    (st_blksize sb) (st_rdev sb).

Definition bit_set (m b : Z) : bool := negb (Z.land m b =? 0).

(** The permission bits the client shows. *)
Definition massage_mode (privileged : bool) (m : Z) : Z :=
  let m := Z.ldiff m S_IWALL in
  if privileged then m else
  let m := if bit_set m S_IROTH then m
           else let m := Z.ldiff m S_IRALL in if S_ISREG m then Z.ldiff m S_IXALL else m in
  if S_ISDIR m && negb (bit_set m S_IXOTH) then Z.ldiff m S_IXALL else m.

Definition squash_id (all root id : Z) : Z :=
  let id := if 0 <? all then all else id in
  if (id =? 0) && (0 <? root) then root else id.

Definition massage_attributes (o : mount_opts) (ino : Z) (sb : stat) : stat :=
  let sb := set_ino (Z.land ino (st_ino_mask o)) sb in
  let sb := set_mode (massage_mode (privileged_server o) (st_mode sb)) sb in
  set_ids (squash_id (squash_all_uid o) (squash_root_uid o) (st_uid sb))
    (squash_id (squash_all_gid o) (squash_root_gid o) (st_gid sb)) sb.

(** ** The special files *)

Definition SPECIAL_INO_STATS : Z := 2.
Definition SPECIAL_INO_IOCTL : Z := 3.
Definition SPECIAL_INO_CONFIG : Z := 4.
Definition SPECIAL_INO_SERVER_STATS : Z := 5.

Definition special_ino_to_fullname (ino : Z) : outcome bytes :=
  if ino =? SPECIAL_INO_STATS then Ret (lit ".fs123_statistics") else
  if ino =? SPECIAL_INO_IOCTL then Ret (lit ".fs123_ioctl") else
  if ino =? SPECIAL_INO_CONFIG then Ret (lit ".fs123_config") else
  if ino =? SPECIAL_INO_SERVER_STATS then Ret (lit ".fs123_server_statistics") else
  Throw (ESystem EINVAL).

(** [ino > 1 && ino <= max_special_ino] *)
Definition is_special (ino : Z) : bool := (1 <? ino) && (ino <=? max_special_ino).

Definition special_mode : Z := 33060.  (* S_IFREG | 0444 *)
Definition ioctl_mode : Z := 33024.    (* S_IFREG | 0400 *)

(** ** The state of the client *)

Section Ops.
Context {W T L : Type} {UW : Upstream W} {HW : Host W}.
Context {HU : UMap Z begetattr_t T} {HL : UMap Z (expiring bytes) L} `{SB : Secretbox}.
Context (cfg : mount_config) (opts : mount_opts) (fuel : nat).

#[local] Abbreviation cstate := (cst (W := W) (T := T)).

Record mst := Mst {
  begets : cstate;
  openfiles : ofm;
  linkmap : expiring_cache (T := L);
  strings : gmap Z bytes;              (* the std::string of an open special file *)
  dirs : gmap Z fh_state;              (* the fh_state of an open directory *)
  next_obj : Z;
  net_open_handles : Z;
  sent : list kreply;
}.

Definition on_begets {A} (f : M cstate A) : M mst A := fun s =>
  let '(r, c) := f (begets s) in
  (r, Mst c (openfiles s) (linkmap s) (strings s) (dirs s) (next_obj s) (net_open_handles s) (sent s)).
Definition on_files {A} (f : M ofm A) : M mst A := fun s =>
  let '(r, t) := f (openfiles s) in
  (r, Mst (begets s) t (linkmap s) (strings s) (dirs s) (next_obj s) (net_open_handles s) (sent s)).
Definition set_linkmap (l : expiring_cache (T := L)) (s : mst) : mst :=
  Mst (begets s) (openfiles s) l (strings s) (dirs s) (next_obj s) (net_open_handles s) (sent s).
Definition set_heap (h : gmap Z bytes) (d : gmap Z fh_state) (n : Z) (s : mst) : mst :=
  Mst (begets s) (openfiles s) (linkmap s) h d n (net_open_handles s) (sent s).
Definition set_handles (n : Z) (s : mst) : mst :=
  Mst (begets s) (openfiles s) (linkmap s) (strings s) (dirs s) (next_obj s) n (sent s).
Definition set_sent (l : list kreply) (s : mst) : mst :=
  Mst (begets s) (openfiles s) (linkmap s) (strings s) (dirs s) (next_obj s) (net_open_handles s) l.

Definition clock : M mst Z := on_begets (on_world clk_now).

(** [reply_err], [reply_entry] and so on hand the reply to libfuse, which is then
    done with the request; when the write to the kernel fails they complain
    and return as usual. *)
Definition reply (k : kreply) : M mst unit := modify (fun s => set_sent (sent s ++ [k]) s).
Definition reply_open (fi : fuse_file_info) : M mst unit :=
  modify (fun s => set_handles (net_open_handles s + 1) s);;
  reply (K_open (fi_fh fi) (fi_keep_cache fi) (fi_direct_io fi)).
Definition reply_release : M mst unit :=
  reply (K_err 0);; modify (fun s => set_handles (net_open_handles s - 1) s).

(** [caught] and [CATCH_ERRS].  [caught] is a [try] block too: when complaining
    throws, its [catch(...)] complains again and no reply is sent. *)
Definition caught_errno (e : exn) : Z := default EIO (system_errno e).
Definition caught_reply (e : exn) : M mst unit :=
  s ← get;
  if complaint_throws e (cworld (begets s)) then mret tt else reply (K_err (caught_errno e)).
Definition caught (h : M mst unit) : M mst unit := try_M h caught_reply.

Definition new_string (l : bytes) : M mst Z := fun s =>
  (Ret (next_obj s), set_heap (<[next_obj s := l]> (strings s)) (dirs s) (next_obj s + 1) s).
Definition the_string (a : Z) : M mst bytes := fun s =>
  match strings s !! a with Some l => (Ret l, s) | None => (Undef, s) end.
Definition delete_string (a : Z) : M mst unit :=
  the_string a;; modify (fun s => set_heap (delete a (strings s)) (dirs s) (next_obj s) s).

(** *** special_ino.cpp *)

Definition shared_getattr_special_ino (ino : Z) (fi : option fuse_file_info) : M mst stat :=
  let with_size sb :=
    match fi with
    | Some fi => if fi_fh fi =? 0 then mret sb else l ← the_string (fi_fh fi); mret (set_size (zlen l) sb)
    | None => mret sb
    end in
  if (ino =? SPECIAL_INO_STATS) || (ino =? SPECIAL_INO_CONFIG) || (ino =? SPECIAL_INO_SERVER_STATS)
  then with_size (set_ino ino (Stat special_mode 1 0 0 0 0 0 0 0 0 0 0 0 0 0 0))
  else if ino =? SPECIAL_INO_IOCTL
  then s ← get;
       let w := cworld (begets s) in
       with_size (set_ino ino (Stat ioctl_mode 1 (geteuid w) (getegid w) 0 0 0 0 0 0 0 0 0 0 0 0))
  else raise (ESystem EPROTO).

(** [strcmp(name, special_ino_to_fullname(...))], in the order of the code *)
Definition special_named (name : bytes) : Z :=
  let named i := match special_ino_to_fullname i with Ret n => bool_decide (name = n) | _ => false end in
  if named SPECIAL_INO_STATS then SPECIAL_INO_STATS else
  if named SPECIAL_INO_IOCTL then SPECIAL_INO_IOCTL else
  if named SPECIAL_INO_CONFIG then SPECIAL_INO_CONFIG else
  if named SPECIAL_INO_SERVER_STATS then SPECIAL_INO_SERVER_STATS else 0.

Definition lookup_special_ino (pino : Z) (name : bytes) : M mst bool :=
  if negb (pino =? 1) then mret false else
  let cino := special_named name in
  if cino =? 0 then mret false else
  sb ← shared_getattr_special_ino cino None;
  reply (K_entry cino sb 0 (1000 * sec));;
  mret true.

Definition getattr_special_ino (ino : Z) (fi : option fuse_file_info) : M mst unit :=
  sb ← shared_getattr_special_ino ino fi; reply (K_attr sb 0).

Definition open_special_ino (ino : Z) (fi : fuse_file_info) : M mst unit :=
  text ← on_begets (on_world (special_report ino));
  if (ino =? SPECIAL_INO_STATS) || (ino =? SPECIAL_INO_CONFIG) then
    a ← new_string text; reply_open (set_keep_cache false (set_fh a fi))
  else if ino =? SPECIAL_INO_IOCTL then reply_open fi
  else if ino =? SPECIAL_INO_SERVER_STATS then
    sstats ← on_begets (begetserver_stats cfg fuel ino);
    if negb (d_eno sstats =? 0) then reply (K_err (d_eno sstats)) else
    a ← new_string (d_content sstats); reply_open (set_fh a fi)
  else raise (ESystem EINVAL).

Definition read_special_ino (ino size off : Z) (fi : option fuse_file_info) : M mst unit :=
  if (ino =? SPECIAL_INO_STATS) || (ino =? SPECIAL_INO_CONFIG) || (ino =? SPECIAL_INO_SERVER_STATS) then
    match fi with
    | Some fi =>
        if fi_fh fi =? 0 then raise (ESystem EIO) else
        sp ← the_string (fi_fh fi);
        if off <? 0 then raise (ESystem EINVAL) else
        let soff := Z.min off (zlen sp) in
        let sz := Z.min (zlen sp - soff) size in
        reply (K_buf (ztake sz (zdrop soff sp)))
    | None => raise (ESystem EIO)
    end
  else if ino =? SPECIAL_INO_IOCTL then reply (K_buf [])
  else raise (ESystem EINVAL).

Definition release_special_ino (fi : fuse_file_info) : M mst unit :=
  (if fi_fh fi =? 0 then mret tt else delete_string (fi_fh fi));;
  reply_release.

(** *** lookup, getattr *)

Definition fs123_lookup_try (pino : Z) (name : bytes) : M mst unit :=
  special ← lookup_special_ino pino name;
  if special : bool then mret tt else
  r ← on_begets (begetattr_at cfg fuel pino name 0 None false);
  let v := e_val r in
  ttl ← on_begets (ttl_or_stale (good_till r) (a_swr v));
  let attr_timeout := if no_kernel_attr_caching opts then 0 else ttl in
  let entry_timeout := if no_kernel_dentry_caching opts then 0 else ttl in
  if a_eno v =? ENOENT then reply (K_entry 0 stat_zero attr_timeout entry_timeout) else
  if negb (a_eno v =? 0) then reply (K_err (a_eno v)) else
  let ino := genino (a_estale_cookie v) pino name in
  on_begets (on_inos (ino_remember pino name ino (a_validator v)));;
  reply (K_entry ino (massage_attributes opts ino (a_sb v)) attr_timeout entry_timeout).
Definition fs123_lookup (pino : Z) (name : bytes) : M mst unit := caught (fs123_lookup_try pino name).

Definition fs123_getattr_try (ino : Z) (fi : option fuse_file_info) : M mst unit :=
  if is_special ino then getattr_special_ino ino fi else
  r ← on_begets (begetattr cfg fuel ino None false);
  let v := e_val r in
  if negb (a_eno v =? 0) then reply (K_err (a_eno v)) else
  tosd ← (if no_kernel_attr_caching opts then mret 0 else on_begets (ttl_or_stale (good_till r) (a_swr v)));
  reply (K_attr (massage_attributes opts ino (a_sb v)) tosd).
Definition fs123_getattr (ino : Z) (fi : option fuse_file_info) : M mst unit :=
  caught (fs123_getattr_try ino fi).

(** *** Extended attributes, links, file systems *)

Definition do_xattr (ino : Z) (name : option bytes) (size : Z) : M mst unit :=
  if is_special ino then reply (K_err ENODATA) else
  let nosize := size =? 0 in
  r ← on_begets (begetxattr cfg fuel ino name nosize);
  if negb (d_eno r =? 0) then reply (K_err (d_eno r)) else
  if nosize then len ← lift (svto T_u64 (d_content r) 0); reply (K_xattr len) else
  if size <? zlen (d_content r) then reply (K_err ERANGE) else
  reply (K_buf (d_content r)).
Definition fs123_getxattr (ino : Z) (name : bytes) (size : Z) : M mst unit :=
  caught (do_xattr ino (Some name) size).
Definition fs123_listxattr (ino size : Z) : M mst unit := caught (do_xattr ino None size).

Definition fs123_readlink_try (ino : Z) : M mst unit :=
  now ← clock;
  s ← get;
  let '(lip, l) := cache_lookup ino now (linkmap s) in
  modify (set_linkmap l);;
  now ← clock;
  if negb (expired lip now) then reply (K_readlink (c_str (e_val lip))) else
  r ← on_begets (begetlink cfg fuel ino);
  if negb (d_eno r =? 0) then reply (K_err (d_eno r)) else
  ttl ← on_begets (ttl_or_stale (d_expires r) (d_swr r));
  now ← clock;
  s ← get;
  '(_, l) ← lift (cache_insert_ttl ino (d_content r) now ttl (linkmap s));
  modify (set_linkmap l);;
  reply (K_readlink (c_str (d_content r))).
Definition fs123_readlink (ino : Z) : M mst unit := caught (fs123_readlink_try ino).

(** [svto<struct statvfs>] *)
Definition svto_statvfs (sv : bytes) : outcome statvfs :=
  '(v, nxt) ← svscan_statvfs sv 0;
  if negb (nxt =? zlen sv) && negb (svscan_null sv nxt =? zlen sv) then Throw EInvalidArg else Ret v.

Definition fs123_statfs_try (ino : Z) : M mst unit :=
  r ← on_begets (begetstatfs cfg fuel ino);
  if negb (d_eno r =? 0) then reply (K_err (d_eno r)) else
  svb ← lift (svto_statvfs (d_content r));
  reply (K_statfs svb).
Definition fs123_statfs (ino : Z) : M mst unit := caught (fs123_statfs_try ino).

(** *** open *)

Definition O_WRONLY_RDWR : Z := 3.
Definition O_ASYNC_DIRECTORY : Z := 73728.  (* 020000 | 0200000 *)
Definition O_DIRECT : Z := 16384.           (* 040000 *)

(** From [tryagain]: an errno to reply with, or the attributes and the
    validator the table had.  With [no_cache] it is not tried again. *)
Definition open_notify (ino : Z) (no_cache : bool) (e : exn) : M cstate (option Z) :=
  match e with
  | EOutOfOrder _ _ =>
      if no_cache then tell (notify_inval_inode ino);; raise (ENested (ESystem ESTALE) e) else mret None
  | _ => raise e
  end.
Definition open_try (again : M mst (Z + begetattr_t * Z)) (ino : Z) (no_cache : bool)
  : M mst (Z + begetattr_t * Z) :=
  r ← on_begets (begetattr cfg fuel ino None no_cache);
  let v := e_val r in
  if negb (a_eno v =? 0) then mret (inl (a_eno v)) else
  old ← on_begets (try_M (o ← on_inos (ino_update_validator ino (a_validator v)); mret (Some o))
                     (open_notify ino no_cache));
  match old with Some o => mret (inr (r, o)) | None => again end.
Definition open_attributes (ino : Z) : M mst (Z + begetattr_t * Z) :=
  open_try (open_try (lift Undef) ino true) ino false.

Definition fs123_open_try (ino : Z) (fi : fuse_file_info) : M mst unit :=
  if bit_set (fi_flags fi) O_WRONLY_RDWR then reply (K_err EROFS) else
  if bit_set (fi_flags fi) O_ASYNC_DIRECTORY then reply (K_err ENOSYS) else
  if is_special ino then open_special_ino ino fi else
  res ← open_attributes ino;
  match res with
  | inl eno => reply (K_err eno)
  | inr (r, old_validator) =>
      let v := e_val r in
      let fi := set_keep_cache (old_validator =? a_validator v) fi in
      let fi := set_direct_io (Z.land (fi_flags fi) O_DIRECT) fi in
      let fi := if no_kernel_data_caching opts then set_direct_io 1 fi else fi in
      let fi := if a_cacheable v then fi else set_direct_io 1 fi in
      fh ← (if fi_direct_io fi then mret 0
            else now ← clock; on_files (openfile_register ino r now));
      reply_open (set_fh fh fi)
  end.
Definition fs123_open (ino : Z) (fi : fuse_file_info) : M mst unit := caught (fs123_open_try ino fi).

(** *** read *)

Definition f_validator_and_content (dr : decoded) : outcome (Z * bytes) :=
  if 3 <=? proto_minor (m_req cfg) then v ← d_validator dr; Ret (v, d_content dr) else
  '(mv, nxt) ← svscan_netstring true (d_content dr) 0;
  v ← svto T_u64 mv 0;
  rest ← substr (d_content dr) nxt npos;
  Ret (v, rest).

(** A chunk whose validator is not in the past, asked for again without
    caches if need be: an errno, or the validator and the content. *)
Definition read_chunk (ino startkib ino_validator : Z) : M mst (Z + Z * bytes) :=
  r ← on_begets (begetchunk_file cfg fuel ino startkib false);
  if negb (d_eno r =? 0) then mret (inl (d_eno r)) else
  '(rvalidator, content) ← lift (f_validator_and_content r);
  if negb (rvalidator <? ino_validator) then mret (inr (rvalidator, content)) else
  r ← on_begets (begetchunk_file cfg fuel ino startkib true);
  if negb (d_eno r =? 0) then mret (inl (d_eno r)) else
  '(rvalidator, content) ← lift (f_validator_and_content r);
  if rvalidator <? ino_validator then raise (ESystem ESTALE) else mret (inr (rvalidator, content)).

(** "Wake up the openfile machinery if rvalidator implies that kernel caches are stale." *)
Definition wake_up (ino rvalidator ino_validator : Z) (fi : fuse_file_info) : M mst unit :=
  if (ino_validator <? rvalidator) && negb (fi_fh fi =? 0)
  then on_files (openfile_expire_now ino (fi_fh fi)) else mret tt.

Definition fs123_read_try (ino size off : Z) (fi : fuse_file_info) : M mst unit :=
  if is_special ino then read_special_ino ino size off (Some fi) else
  let chunkbytes := u64 (Fs123Chunk cfg * 1024) in
  if chunkbytes <? size then raise (ESystem EINVAL) else
  '(name, ino_validator) ← on_begets (on_inos (ino_to_fullname_validator ino));
  if chunkbytes =? 0 then lift Undef else
  let chunknum := u64 off / chunkbytes in
  let off0 := u64 off mod chunkbytes in
  let len0 := Z.min size (chunkbytes - off0) in
  c0 ← read_chunk ino (swrap 64 (chunknum * Fs123Chunk cfg)) ino_validator;
  match c0 with
  | inl eno => reply (K_err eno)
  | inr (rvalidator, content) =>
      wake_up ino rvalidator ino_validator fi;;
      let shortread := zlen content <? chunkbytes in
      if zlen content <? off0 then reply (K_buf []) else
      let iov0 := ztake (Z.min len0 (zlen content - off0)) (zdrop off0 content) in
      if shortread || (zlen iov0 =? size) then reply (K_iov [iov0]) else
      let nleft := size - len0 in
      c1 ← read_chunk ino (swrap 64 ((chunknum + 1) * Fs123Chunk cfg)) ino_validator;
      match c1 with
      | inl eno => reply (K_err eno)
      | inr (rvalidator, content) =>
          wake_up ino rvalidator ino_validator fi;;
          reply (K_iov [iov0; ztake (Z.min nleft (zlen content)) content])
      end
  end.
Definition fs123_read (ino size off : Z) (fi : fuse_file_info) : M mst unit :=
  caught (fs123_read_try ino size off fi).

(** *** release, forget *)

Definition fs123_release_try (ino : Z) (fi : fuse_file_info) : M mst unit :=
  if is_special ino then release_special_ino fi else
  (if fi_fh fi =? 0 then mret tt else on_files (openfile_release ino (fi_fh fi)));;
  reply_release.
Definition fs123_release (ino : Z) (fi : fuse_file_info) : M mst unit := caught (fs123_release_try ino fi).

Definition do_forget (ino nlookup : Z) : M mst unit :=
  if is_special ino then mret tt else on_begets (on_inos (ino_forget ino nlookup)).
Fixpoint fs123_forget_multi_loop (forgets : list (Z * Z)) : M mst unit :=
  match forgets with
  | [] => mret tt
  | (ino, nlookup) :: l => do_forget ino nlookup;; fs123_forget_multi_loop l
  end.
Definition fs123_forget_multi (forgets : list (Z * Z)) : M mst unit :=
  fs123_forget_multi_loop forgets;; reply K_none.
Definition fs123_forget (ino nlookup : Z) : M mst unit := fs123_forget_multi [(ino, nlookup)].

(** *** Directories *)

Definition the_dir (a : Z) : M mst fh_state := fun s =>
  match dirs s !! a with Some d => (Ret d, s) | None => (Undef, s) end.
Definition put_dir (a : Z) (d : fh_state) : M mst unit :=
  modify (fun s => set_heap (strings s) (<[a := d]> (dirs s)) (next_obj s) s).

Definition fs123_opendir_try (fi : fuse_file_info) : M mst unit :=
  s ← get;
  let a := next_obj s in
  modify (fun s => set_heap (strings s) (<[a := fh_state_ctor]> (dirs s)) (a + 1) s);;
  reply_open (FI (fi_flags fi) a false false).
Definition fs123_opendir (fi : fuse_file_info) : M mst unit := caught (fs123_opendir_try fi).

Definition fs123_releasedir_try (fi : option fuse_file_info) : M mst unit :=
  match fi with
  | None => raise (ESystem EINVAL)
  | Some fi =>
      if fi_fh fi =? 0 then raise (ESystem EINVAL) else
      the_dir (fi_fh fi);;
      modify (fun s => set_heap (strings s) (delete (fi_fh fi) (dirs s)) (next_obj s) s);;
      reply_release
  end.
Definition fs123_releasedir (fi : option fuse_file_info) : M mst unit := caught (fs123_releasedir_try fi).

(** The special files, from [nextoff] on: what was written, how much it takes
    and whether there was room for all of it. *)
Fixpoint special_entries (n : nat) (nextoff bufsz used : Z) (acc : list dirent)
  : M mst (list dirent * Z * bool) :=
  match n with
  | O => mret (acc, used, true)
  | S n' =>
      if max_special_ino - 1 <=? nextoff then mret (acc, used, true) else
      let nextoff := nextoff + 1 in
      let sino := nextoff + 1 in
      stbuf ← shared_getattr_special_ino sino None;
      nm ← lift (special_ino_to_fullname sino);
      let needed := direntry_size nm in
      if bufsz - used <? needed then mret (acc, used, false) else
      special_entries n' nextoff bufsz (used + needed)
        (acc ++ [Dirent nm (st_ino stbuf) (st_mode stbuf) nextoff])
  end.

(** [std::upper_bound] of [offsets] by their first components *)
Fixpoint upper_bound (nextoff : Z) (l : list (Z * bytes)) : Z :=
  match l with
  | [] => 0
  | p :: l' => if nextoff <? p.1 then 0 else 1 + upper_bound nextoff l'
  end.

(** One entry of the text the server sent: its name, mode and cookie and where
    the next one starts. *)
Definition parse_dirent (svin : bytes) (nextoff : Z) : outcome (bytes * Z * Z * Z) :=
  try_catch
    ('(name, n1) ← svscan_netstring true svin nextoff;
     if 255 <? zlen name then Throw (ESystem EINVAL) else
     if zlen name =? 0 then Throw (ESystem EINVAL) else
     '(d_type, n2) ← svscan T_int svin n1;
     '(estale_cookie, lastoff) ← svscan T_u64 svin n2;
     let nextoff := svscan_null svin lastoff in
     if lastoff =? nextoff then Throw EInvalidArg else
     Ret (name, dtype_to_mode d_type, estale_cookie, nextoff))
    (fun e => Throw (ENested (ESystem EINVAL) e)).

(** [stbuf.st_ino] and [stbuf.st_mode] of an entry *)
Definition entry_ino (ino : Z) (name : bytes) (mode estale_cookie : Z) : M mst (Z * Z) :=
  '(i, mode) ←
    (if bool_decide (name = lit ".") then mret (ino, S_IFDIR)
     else if bool_decide (name = lit "..") then p ← on_begets (on_inos (ino_to_pino ino)); mret (p, S_IFDIR)
     else mret (0, mode));
  mret (if i =? 0 then Z.land (genino estale_cookie ino name) (st_ino_mask opts) else i, mode).

Fixpoint readdir_loop (n : nat) (ino : Z) (svin : bytes) (cfbo nextoff bufsz used : Z) (acc : list dirent)
  : M mst (list dirent) :=
  match n with
  | O => lift Undef
  | S n' =>
      if zlen svin <=? nextoff then mret acc else
      '(name, mode, estale_cookie, nextoff) ← lift (parse_dirent svin nextoff);
      '((i, mode) : Z * Z) ← entry_ino ino name mode estale_cookie;
      let needed := direntry_size (c_str name) in
      if bufsz - used <? needed then mret acc else
      readdir_loop n' ino svin cfbo nextoff bufsz (used + needed)
        (acc ++ [Dirent (c_str name) i mode (u64 (cfbo + nextoff))])
  end.

Definition last_offset (st : fh_state) : outcome Z :=
  match list.last (offsets st) with Some p => Ret p.1 | None => Undef end.

(** The chunk that [nextoff] is in, asked for when it is not the one at hand:
    an errno, or the state of the directory. *)
Definition readdir_chunk (ino : Z) (a : Z) (st : fh_state) (nextoff : Z) : M mst (Z + fh_state) :=
  let must_begetchunk :=
    if (nextoff <? contents_first_byte_offset st)
       || (u64 (contents_first_byte_offset st + zlen (fs_contents st)) <=? nextoff)
    then upper_bound nextoff (offsets st) else 0 in
  if negb (0 <? must_begetchunk) then mret (inr st) else
  match zget (offsets st) (must_begetchunk - 1) with
  | None => lift Undef
  | Some (byte_next_offset, chunk_next_start) =>
      r ← on_begets (begetchunk_dir cfg fuel ino chunk_next_start);
      if negb (d_eno r =? 0) then mret (inl (d_eno r)) else
      st ← (if must_begetchunk =? zlen (offsets st) then
              cns ← lift (d_chunk_next_start r);
              let st := FhState (fs_contents st) (contents_first_byte_offset st)
                          (offsets st ++ [(u64 (byte_next_offset + zlen (d_content r)), cns)])
                          (bool_decide (cns = [])) in
              put_dir a st;; mret st
            else mret st);
      let st := FhState (d_content r) byte_next_offset (offsets st) (fs_eof st) in
      put_dir a st;; mret (inr st)
  end.

Definition fs123_readdir_try (ino size off : Z) (fi : option fuse_file_info) : M mst unit :=
  match fi with
  | None => raise (ESystem EIO)
  | Some fi =>
      let a := fi_fh fi in
      if a =? 0 then raise (ESystem EIO) else
      st ← the_dir a;
      let bufsz := Z.min size 4096 in
      if off <? 0 then raise ERuntime else
      '((acc, used, room) : list dirent * Z * bool) ←
        (if ino =? 1 then special_entries 4 off bufsz 0 [] else mret ([], 0, true));
      if negb room then reply (K_dir acc) else
      let nextoff := if ino =? 1 then Z.max off (max_special_ino - 1) else off in
      st ← (match offsets st with
            | o0 :: l =>
                if ino =? 1 then
                  let st := FhState (fs_contents st) (contents_first_byte_offset st)
                              ((max_special_ino - 1, o0.2) :: l) (fs_eof st) in
                  put_dir a st;; mret st
                else mret st
            | [] => if ino =? 1 then lift Undef else mret st
            end);
      last ← lift (last_offset st);
      if last <? nextoff then raise (ESystem EINVAL) else
      if (nextoff =? last) && fs_eof st then reply (K_dir []) else
      res ← readdir_chunk ino a st nextoff;
      match res with
      | inl eno => reply (K_err eno)
      | inr st =>
          dir ← on_begets (on_inos (ino_to_fullname ino));
          let nextoff := u64 (nextoff - contents_first_byte_offset st) in
          let svin := fs_contents st in
          let nextoff := if nextoff <? zlen svin then svscan_null svin nextoff else nextoff in
          acc ← readdir_loop (S (Z.to_nat bufsz)) ino svin (contents_first_byte_offset st) nextoff
                  bufsz used acc;
          reply (K_dir acc)
      end
  end.
Definition fs123_readdir (ino size off : Z) (fi : option fuse_file_info) : M mst unit :=
  caught (fs123_readdir_try ino size off fi).

(** *** Locks *)

Definition ENOLCK : Z := 37.
Definition fs123_setlk : M mst unit := caught (reply (K_err ENOLCK)).
Definition fs123_getlk : M mst unit := caught (reply (K_err ENOLCK)).
End Ops.

(** ** The requests of the kernel, but for ioctls (MountIoctl) *)

Inductive request :=
| R_lookup (pino : Z) (name : bytes)
| R_getattr (ino : Z) (fi : option fuse_file_info)
| R_opendir (ino : Z) (fi : fuse_file_info)
| R_readdir (ino size off : Z) (fi : option fuse_file_info)
| R_releasedir (ino : Z) (fi : option fuse_file_info)
| R_getxattr (ino : Z) (name : bytes) (size : Z)
| R_listxattr (ino size : Z)
| R_readlink (ino : Z)
| R_open (ino : Z) (fi : fuse_file_info)
| R_read (ino size off : Z) (fi : fuse_file_info)
| R_release (ino : Z) (fi : fuse_file_info)
| R_statfs (ino : Z)
| R_setlk (ino : Z)
| R_getlk (ino : Z)
| R_forget (ino nlookup : Z)
| R_forget_multi (forgets : list (Z * Z)).

Definition handle_request {W T L} {UW : Upstream W} {HW : Host W}
  {HU : UMap Z begetattr_t T} {HL : UMap Z (expiring bytes) L} `{SB : Secretbox}
  (cfg : mount_config) (opts : mount_opts) (fuel : nat) (r : request)
  : M (mst (W := W) (T := T) (L := L)) unit :=
  match r with
  | R_lookup pino name => fs123_lookup cfg opts fuel pino name
  | R_getattr ino fi => fs123_getattr cfg opts fuel ino fi
  | R_opendir _ fi => fs123_opendir fi
  | R_readdir ino size off fi => fs123_readdir cfg opts fuel ino size off fi
  | R_releasedir _ fi => fs123_releasedir fi
  | R_getxattr ino name size => fs123_getxattr cfg fuel ino name size
  | R_listxattr ino size => fs123_listxattr cfg fuel ino size
  | R_readlink ino => fs123_readlink cfg fuel ino
  | R_open ino fi => fs123_open cfg opts fuel ino fi
  | R_read ino size off fi => fs123_read cfg fuel ino size off fi
  | R_release ino fi => fs123_release ino fi
  | R_statfs ino => fs123_statfs cfg fuel ino
  | R_setlk _ => fs123_setlk
  | R_getlk _ => fs123_getlk
  | R_forget ino nlookup => fs123_forget ino nlookup
  | R_forget_multi forgets => fs123_forget_multi forgets
  end.

(** ** Every request is answered once *)

Section Answers.
Context {W T L : Type} {UW : Upstream W} {HW : Host W}.
Context {HU : UMap Z begetattr_t T} {HL : UMap Z (expiring bytes) L} `{SB : Secretbox}.
Context (cfg : mount_config) (opts : mount_opts) (fuel : nat).

#[local] Abbreviation st := (mst (W := W) (T := T) (L := L)).

(** [m] sends as many replies as [n] says of its result when it returns and
    none when it throws. *)
Definition sends {A} (n : A -> nat) (m : M st A) : Prop := forall s,
  match m s with
  | (Ret a, s') => exists l, sent s' = sent s ++ l /\ length l = n a
  | (Throw _, s') => sent s' = sent s
  | (Undef, _) => True
  end.
#[local] Abbreviation quiet := (sends (fun _ => 0%nat)).
#[local] Abbreviation answers := (sends (fun _ => 1%nat)).

Lemma quiet_sent {A} (m : M st A) : (forall s, sent (m s).2 = sent s) -> quiet m.
Proof.
  intros H s. specialize (H s). destruct (m s) as [[a|e|] s']; [|done|done].
  exists []. by rewrite app_nil_r.
Qed.

Lemma sends_ret {A} (n : A -> nat) (a : A) : n a = 0%nat -> sends n (mret a).
Proof. intros Hn s. exists []. by rewrite app_nil_r, Hn. Qed.

Lemma sends_raise {A} (n : A -> nat) e : sends n (raise (S := st) e).
Proof. by intros s. Qed.

Lemma sends_bind {A B} (m : M st A) (k : A -> M st B) n :
  quiet m -> (forall a, sends n (k a)) -> sends n (m ≫= k).
Proof.
  intros Hm Hk s. specialize (Hm s). unfold mbind, M_bind. destruct (m s) as [[a|e|] s']; [|done|done].
  destruct Hm as (l & El & Hl%nil_length_inv). subst. rewrite app_nil_r in El.
  specialize (Hk a s'). destruct (k a s') as [[b|e|] s'']; by rewrite ?El in Hk.
Qed.

Lemma sends_if {A} (n : A -> nat) (b : bool) (x y : M st A) : sends n x -> sends n y -> sends n (if b then x else y).
Proof. by destruct b. Qed.

Lemma silent_lift {A} (m : outcome A) : quiet (lift (S := st) m).
Proof. apply quiet_sent. done. Qed.
Lemma sends_undef {A} (n : A -> nat) : sends n (lift (S := st) Undef).
Proof. by intros s. Qed.
Lemma quiet_begets {A} (f : M (cst (W := W) (T := T)) A) : quiet (on_begets (L := L) f).
Proof. apply quiet_sent. intros s. unfold on_begets. by destruct (f (begets s)). Qed.
Lemma quiet_files {A} (f : M ofm A) : quiet (on_files (W := W) (T := T) (L := L) f).
Proof. apply quiet_sent. intros s. unfold on_files. by destruct (f (openfiles s)). Qed.
Lemma quiet_clock : quiet (clock (W := W) (T := T) (L := L)).
Proof. apply quiet_begets. Qed.
Lemma silent_get : quiet (get (S := st)).
Proof. by apply quiet_sent. Qed.
Lemma silent_modify (f : st -> st) : (forall s, sent (f s) = sent s) -> quiet (modify f).
Proof. intros H. by apply quiet_sent. Qed.
Lemma quiet_deref {A B} (h : st -> gmap Z A) (k : A -> B) a :
  quiet (fun s => match h s !! a with Some x => (Ret (k x), s) | None => (Undef, s) end).
Proof. apply quiet_sent. intros s. by destruct (h s !! a). Qed.

Lemma answers_reply k : answers (reply (W := W) (T := T) (L := L) k).
Proof. intros s. by exists [k]. Qed.
Lemma answers_open fi : answers (reply_open (W := W) (T := T) (L := L) fi).
Proof. apply sends_bind; [by apply silent_modify|intros; apply answers_reply]. Qed.
Lemma answers_release : answers (reply_release (W := W) (T := T) (L := L)).
Proof. intros s. by exists [K_err 0]. Qed.

(** What a callback has done when it returns: it sent one reply, or none since
    complaining of an exception threw. *)
Definition replied (s s' : st) : Prop :=
  (exists k, sent s' = sent s ++ [k])
  \/ (sent s' = sent s /\ exists e, complaint_throws e (cworld (begets s')) = true).

Lemma caught_reply_once e s : exists s', caught_reply e s = (Ret tt, s') /\ replied s s'.
Proof.
  unfold caught_reply, mbind, M_bind, get. destruct (complaint_throws e (cworld (begets s))) eqn:E.
  - exists s. split; [done|]. right. by eauto.
  - eexists. split; [done|]. left. by eexists.
Qed.

(** What catches everything and answers each exception. *)
Lemma answers_caught h : answers h -> forall s,
  match caught h s with
  | (Ret _, s') => replied s s'
  | (Throw _, _) => False
  | (Undef, _) => True
  end.
Proof.
  intros H s. specialize (H s). unfold caught, try_M. destruct (h s) as [[[]|e|] s1]; [| |done].
  - left. destruct H as ([|k [|]] & E & Hl); by eauto.
  - destruct (caught_reply_once e s1) as (s' & -> & Hr). unfold replied in *. by rewrite H in Hr.
Qed.

#[local] Hint Resolve sends_ret sends_raise sends_undef silent_lift quiet_begets quiet_files quiet_clock silent_get answers_reply
  answers_open answers_release quiet_deref : fs123.

(** Take a callback apart: what asks and looks up sends nothing, and every way
    out ends in one reply. *)
Ltac answering :=
  repeat first
    [ progress auto with fs123 nocore
    | progress cbv zeta
    | apply sends_if
    | apply silent_modify; done
    | match goal with
      | |- sends _ (match ?x with _ => _ end) => destruct x
      end
    | apply sends_bind; [|intros ?]
    | progress cbv beta ].

Lemma quiet_special_getattr ino fi : quiet (shared_getattr_special_ino (W := W) (T := T) (L := L) ino fi).
Proof. unfold shared_getattr_special_ino, the_string. answering. Qed.
#[local] Hint Resolve quiet_special_getattr : fs123.

Lemma lookup_special_cases pino name s :
  match lookup_special_ino (W := W) (T := T) (L := L) pino name s with
  | (Ret true, s') => exists k, sent s' = sent s ++ [k]
  | (Ret false, s') => s' = s
  | (Throw _, s') => sent s' = sent s
  | (Undef, _) => True
  end.
Proof.
  unfold lookup_special_ino. destruct (negb (pino =? 1)); [done|]. cbv zeta.
  destruct (special_named name =? 0); [done|].
  pose proof (quiet_special_getattr (special_named name) None s) as H.
  unfold mbind, M_bind. destruct (shared_getattr_special_ino _ _ s) as [[sb|e|] s']; [|done|done].
  destruct H as (l & E & Hl%nil_length_inv). subst. rewrite app_nil_r in E.
  unfold reply, modify, mret, M_ret. eexists. cbn. by rewrite E.
Qed.

Lemma answers_lookup pino name : answers (fs123_lookup_try (L := L) cfg opts fuel pino name).
Proof.
  intros s. unfold fs123_lookup_try. pose proof (lookup_special_cases pino name s) as H.
  unfold mbind at 1, M_bind at 1. destruct (lookup_special_ino pino name s) as [[[]|e|] s']; [| |done|done].
  - destruct H as [k E]. by exists [k].
  - subst s'. revert s. match goal with |- forall s, match ?m s with _ => _ end => change (answers m) end.
    answering.
Qed.

Lemma answers_special_open ino fi : answers (open_special_ino (L := L) cfg fuel ino fi).
Proof. unfold open_special_ino, new_string. answering. Qed.

Lemma answers_special_read ino size off fi : answers (read_special_ino (W := W) (T := T) (L := L) ino size off fi).
Proof. unfold read_special_ino, the_string. answering. Qed.

Lemma quiet_try (again : M st (Z + begetattr_t * Z)) ino nc : quiet again -> quiet (open_try cfg fuel again ino nc).
Proof. intros H. unfold open_try. answering. Qed.

Lemma answers_open_try ino fi : answers (fs123_open_try (L := L) cfg opts fuel ino fi).
Proof.
  unfold fs123_open_try. apply sends_if; [answering|]. apply sends_if; [answering|].
  apply sends_if; [apply answers_special_open|].
  apply sends_bind; [by repeat apply quiet_try; auto with fs123|]. intros [|[]]; answering.
Qed.

Lemma quiet_read_chunk ino k v : quiet (read_chunk (L := L) cfg fuel ino k v).
Proof. unfold read_chunk. answering. Qed.
#[local] Hint Resolve answers_special_open answers_special_read quiet_read_chunk : fs123.

Lemma answers_read ino size off fi : answers (fs123_read_try (L := L) cfg fuel ino size off fi).
Proof. unfold fs123_read_try, wake_up. answering. Qed.

Lemma quiet_forgets l : quiet (fs123_forget_multi_loop (W := W) (T := T) (L := L) l).
Proof.
  induction l as [|[i n] l IH]; cbn [fs123_forget_multi_loop]; [by apply sends_ret|].
  unfold do_forget. answering.
Qed.
Lemma forgets_total l (s : st) : (fs123_forget_multi_loop l s).1 = Ret tt.
Proof.
  revert s. induction l as [|[i n] l IH]; intros s; cbn [fs123_forget_multi_loop]; [done|].
  unfold mbind at 1, M_bind at 1, do_forget. destruct (is_special i); [apply IH|].
  unfold on_begets, on_inos. destruct (ino_forget_ret i n (inos (begets s))) as [m' E]. cbn. rewrite E. apply IH.
Qed.

Lemma quiet_special_entries n off bufsz used acc :
  quiet (special_entries (W := W) (T := T) (L := L) n off bufsz used acc).
Proof. revert off used acc. induction n as [|n IH]; intros; cbn [special_entries]; answering. Qed.

Lemma quiet_entry_ino ino name mode c : quiet (entry_ino (W := W) (T := T) (L := L) opts ino name mode c).
Proof. unfold entry_ino. answering. Qed.
#[local] Hint Resolve quiet_special_entries quiet_entry_ino : fs123.

Lemma quiet_readdir_loop n ino sv cfbo off bufsz used acc :
  quiet (readdir_loop (W := W) (T := T) (L := L) opts n ino sv cfbo off bufsz used acc).
Proof. revert off used acc. induction n as [|n IH]; intros; cbn [readdir_loop]; answering. Qed.

Lemma quiet_readdir_chunk ino a d off : quiet (readdir_chunk (L := L) cfg fuel ino a d off).
Proof. unfold readdir_chunk, put_dir. answering. Qed.
#[local] Hint Resolve quiet_readdir_loop quiet_readdir_chunk : fs123.

Lemma answers_readdir ino size off fi : answers (fs123_readdir_try (L := L) cfg opts fuel ino size off fi).
Proof. unfold fs123_readdir_try, the_dir, put_dir. answering. Qed.
#[local] Hint Resolve answers_lookup answers_open_try answers_read answers_readdir : fs123.

Lemma answers_release_try ino fi : answers (fs123_release_try (W := W) (T := T) (L := L) ino fi).
Proof. unfold fs123_release_try, release_special_ino, delete_string, the_string. answering. Qed.
Lemma answers_readlink ino : answers (fs123_readlink_try (L := L) cfg fuel ino).
Proof. unfold fs123_readlink_try. answering. Qed.
Lemma answers_xattr ino nm size : answers (do_xattr (L := L) cfg fuel ino nm size).
Proof. unfold do_xattr. answering. Qed.
Lemma answers_getattr ino fi : answers (fs123_getattr_try (L := L) cfg opts fuel ino fi).
Proof. unfold fs123_getattr_try, getattr_special_ino. answering. Qed.
Lemma answers_statfs ino : answers (fs123_statfs_try (L := L) cfg fuel ino).
Proof. unfold fs123_statfs_try. answering. Qed.
Lemma answers_opendir fi : answers (fs123_opendir_try (W := W) (T := T) (L := L) fi).
Proof. unfold fs123_opendir_try. answering. Qed.
Lemma answers_releasedir fi : answers (fs123_releasedir_try (W := W) (T := T) (L := L) fi).
Proof. unfold fs123_releasedir_try, the_dir. answering. Qed.
End Answers.

Lemma request_answered {W T L} {UW : Upstream W} {HW : Host W}
  {HU : UMap Z begetattr_t T} {HL : UMap Z (expiring bytes) L} `{SB : Secretbox}
  (cfg : mount_config) (opts : mount_opts) (fuel : nat) (r : request) (s : mst (W := W) (T := T) (L := L)) :
  match handle_request cfg opts fuel r s with
  | (Ret _, s') => replied s s'
  | (Throw _, _) => False
  | (Undef, _) => True
  end.
Proof.
  destruct r; cbn [handle_request];
    try (apply answers_caught; auto using answers_lookup, answers_getattr, answers_opendir, answers_readdir,
      answers_releasedir, answers_xattr, answers_readlink, answers_open_try, answers_read,
      answers_release_try, answers_statfs, answers_reply).
  all: match goal with |- match ?h ?s with _ => _ end =>
      assert (forall l, match fs123_forget_multi l s with
              | (Ret _, s') => replied s s' | (Throw _, _) => False | (Undef, _) => True end)
        as H; [intros l|apply H] end.
  all: pose proof (quiet_forgets l s) as Hq; pose proof (forgets_total l s) as Ht;
    unfold fs123_forget_multi, mbind, M_bind;
    destruct (fs123_forget_multi_loop l s) as [o s']; cbn in Ht; subst o;
    destruct Hq as (l' & E & Hl%nil_length_inv); subst; rewrite app_nil_r in E;
    left; exists K_none; cbn; by rewrite E.
Qed.
