(* ===== verification/MountRead.v ===== *)
(** * What a read of the mounted file system returns

    The arithmetic of [fs123_read] (exe/fs123p7/app_mount.cpp): which chunks it
    asks for, when it asks again without caches, what it makes of short ones,
    and the pieces it hands to the kernel; on top of MountOps.v, from what the
    backends below answer to what the kernel gets.

    Theorem: over backends that answer each request for a chunk with the right
    bytes of some version of the file, as servers and caches do, a read gives
    the kernel exactly the bytes of the file it asked for, of versions not
    older than the one the table of inodes has. *)

From Stdlib Require Import Ascii String ZArith Lia.
From stdpp Require Import base gmap strings list numbers.
From S2P Require Import Prelude StrUtils Threeroe SvTo Netstring PathUtils Expiring ContentCodec Backend.
From S2P Require Import ServerParse ServerReply ClientReply StatSer EstaleCookie Inomap Beget OpenFileMap MountOps.

#[local] Open Scope Z_scope.

(** ** Bytes of a file *)

(** What [pread] of a file with contents [F] gives. *)
Definition slice (F : bytes) (off size : Z) : bytes := ztake size (zdrop off F).

Lemma zdrop_drop {A} (l : list A) n : zdrop n l = drop (Z.to_nat n) l.
Proof. unfold zdrop. case_match; [done|]. symmetry. apply drop_ge. unfold zlen in *. lia. Qed.
Lemma ztake_take {A} (l : list A) n : ztake n l = take (Z.to_nat n) l.
Proof.
  unfold ztake, zlen. destruct (Z.le_gt_cases n (Z.of_nat (length l))); [by rewrite Z.min_l|].
  rewrite Z.min_r, Nat2Z.id by lia. by rewrite !take_ge by lia.
Qed.

Lemma slice_nil F off size : zlen F <= off -> slice F off size = [].
Proof.
  intros H. pose proof (zlen_nonneg F). unfold slice. rewrite zdrop_drop, ztake_take, drop_ge by (unfold zlen in *; lia).
  apply take_nil.
Qed.

Lemma slice_app F off a b : 0 <= off -> 0 <= a -> 0 <= b ->
  slice F off a ++ slice F (off + a) b = slice F off (a + b).
Proof.
  intros. unfold slice. rewrite !zdrop_drop, !ztake_take. rewrite (Z2Nat.inj_add off a), (Z2Nat.inj_add a b) by lia.
  rewrite <- drop_drop. set (G := drop (Z.to_nat off) F).
  rewrite <- (take_drop (Z.to_nat a) (take (Z.to_nat a + Z.to_nat b) G)).
  by rewrite take_take, Nat.min_l, take_drop_commute by lia.
Qed.

Lemma zlen_slice F off size : 0 <= off -> 0 <= size ->
  zlen (slice F off size) = Z.min size (Z.max 0 (zlen F - off)).
Proof. intros. unfold slice. by rewrite zlen_ztake, zlen_zdrop by lia. Qed.

(** A piece of a chunk, however long the code makes it, is a piece of the file. *)
Lemma slice_slice F off cb o n : 0 <= off -> 0 <= o -> 0 <= n -> o + n <= cb ->
  ztake n (zdrop o (slice F off cb)) = slice F (off + o) n.
Proof.
  intros. unfold slice. rewrite !zdrop_drop, !ztake_take.
  replace (Z.to_nat cb) with (Z.to_nat o + Z.to_nat (cb - o))%nat by lia.
  rewrite <- take_drop_commute, drop_drop, take_take, <- Z2Nat.inj_add by lia.
  f_equal. lia.
Qed.

Lemma slice_clip F off a b : 0 <= off -> 0 <= a <= b -> zlen F - off <= a -> slice F off a = slice F off b.
Proof.
  intros. unfold slice. assert (zlen (zdrop off F) <= a) by (rewrite zlen_zdrop by lia; lia).
  by rewrite !ztake_all by lia.
Qed.

(** A read that starts in one chunk and ends in the next, from the versions
    [F] and [G] of the file: a short first chunk is the end of the file. *)
Definition two_chunks (F G : bytes) (cb off size : Z) : bytes :=
  let split := (off / cb + 1) * cb in
  let a := Z.min size (split - off) in
  slice F off a ++ if zlen F <? split then [] else slice G (off + a) (size - a).

Lemma two_chunks_same F cb off size : 0 < cb -> 0 <= off -> 0 <= size ->
  two_chunks F F cb off size = slice F off size.
Proof.
  intros Hcb Hoff Hsize. unfold two_chunks. pose proof (Z.div_mod off cb). pose proof (Z.mod_pos_bound off cb).
  set (a := Z.min size _). assert (0 <= a <= size) by (unfold a; nia).
  destruct (Z.ltb_spec (zlen F) ((off / cb + 1) * cb)) as [Hl|Hl].
  - rewrite app_nil_r. destruct (decide (a = size)) as [->|]; [done|].
    apply slice_clip; unfold a in *; lia.
  - rewrite slice_app by lia. f_equal. lia.
Qed.

(** ** The code's chunks *)

Definition chunkbytes (cfg : mount_config) : Z := Fs123Chunk cfg * 1024.

(** What [fs123_read] makes of the chunks it asks for. *)
Lemma read_one F cb off size : 0 < cb -> 0 <= off -> 0 <= size <= cb ->
  let n := off / cb in let off0 := off mod cb in let len0 := Z.min size (cb - off0) in
  let content := slice F (n * cb) cb in
  zlen content <= cb
  /\ (zlen content < off0 -> forall G, two_chunks F G cb off size = [])
  /\ (off0 <= zlen content -> ztake (Z.min len0 (zlen content - off0)) (zdrop off0 content) = slice F off len0).
Proof.
  intros Hcb Hoff Hs n off0 len0 content. pose proof (Z.div_mod off cb) as Hd.
  pose proof (Z.mod_pos_bound off cb Hcb) as Hm. fold n off0 in Hd, Hm.
  assert (0 <= n) by (apply Z.div_pos; lia). assert (0 <= n * cb) by nia. assert (n * cb + off0 = off) as Eo by lia.
  pose proof (zlen_nonneg F). assert (zlen content = Z.min cb (Z.max 0 (zlen F - n * cb))) as El
    by (apply zlen_slice; lia).
  split; [lia|]. split.
  - intros Hc G. unfold two_chunks. fold n. rewrite slice_nil by lia.
    rewrite (proj2 (Z.ltb_lt _ _)) by lia. done.
  - intros Hc. unfold content at 2. rewrite slice_slice by lia. rewrite Eo.
    destruct (decide (len0 <= zlen content - off0)); [by rewrite Z.min_l by lia|apply slice_clip; lia].
Qed.

Lemma slice_0 F off : slice F off 0 = [].
Proof. unfold slice. by rewrite ztake_take. Qed.

Lemma read_two F G cb off size : 0 < cb -> 0 <= off -> 0 <= size <= cb ->
  let n := off / cb in let len0 := Z.min size (cb - off mod cb) in
  let content := slice F (n * cb) cb in let content1 := slice G ((n + 1) * cb) cb in
  two_chunks F G cb off size = slice F off len0 ++
    if (zlen content <? cb) || (zlen (slice F off len0) =? size) then []
    else ztake (Z.min (size - len0) (zlen content1)) content1.
Proof.
  intros Hcb Hoff Hs n len0 content content1. pose proof (Z.div_mod off cb) as Hd.
  pose proof (Z.mod_pos_bound off cb Hcb) as Hm. fold n in Hd.
  assert (0 <= n) by (apply Z.div_pos; lia). assert (0 <= n * cb) by nia.
  pose proof (zlen_nonneg F). pose proof (zlen_nonneg G).
  assert (zlen content = Z.min cb (Z.max 0 (zlen F - n * cb))) as El by (apply zlen_slice; lia).
  assert (zlen content1 = Z.min cb (Z.max 0 (zlen G - (n + 1) * cb))) as El1 by (apply zlen_slice; lia).
  pose proof (zlen_slice F off len0 ltac:(lia) ltac:(lia)) as El0.
  unfold two_chunks. fold n. replace ((n + 1) * cb - off) with (cb - off mod cb) by lia. fold len0. f_equal.
  destruct (Z.ltb_spec (zlen content) cb); cbn [orb].
  { by rewrite (proj2 (Z.ltb_lt _ _)) by lia. }
  rewrite (proj2 (Z.ltb_ge (zlen F) _)) by lia.
  destruct (Z.eqb_spec (zlen (slice F off len0)) size).
  { replace (size - len0) with 0 by lia. apply slice_0. }
  replace (off + len0) with ((n + 1) * cb) by lia.
  pose proof (slice_slice G ((n + 1) * cb) cb 0 (Z.min (size - len0) (zlen content1))) as Hss.
  rewrite zdrop_0, Z.add_0_r in Hss. unfold content1 at 2. rewrite Hss by lia. symmetry.
  destruct (decide (size - len0 <= zlen content1)); [by rewrite Z.min_l by lia|apply slice_clip; lia].
Qed.

(** ** Backends that answer in plaintext *)

(** The mount asks and is answered in plaintext, with protocol 7.3. *)
Record plain_mount (cfg : mount_config) (fuel : nat) : Prop := {
  pm_minor : proto_minor (m_req cfg) = 3;
  pm_sigil : exists base, add_sigil_version (m_req cfg) [] = Ret base;
  pm_requests : encrypt_requests cfg = false;
  pm_replies : accept_plaintext_replies cfg = true;
  pm_chunk : 0 < chunkbytes cfg <= max_reply_size;
  pm_fuel : (5 <= fuel)%nat;
}.

(** The table knows the inode, of the incarnation with the cookie [esc]. *)
Record known_inode (esc ino : Z) (fname : bytes) (iv : Z) (i0 : inomap) : Prop := {
  kf_name : ino_to_fullname_validator ino i0 = (Ret (fname, iv), i0);
  kf_ino : exists r, i0 !! ino = Some r /\ ino = genino esc (pino r) (name r);
  kf_high : max_special_ino < ino;
  kf_esc : 0 <= esc < 2 ^ 64;
}.
Arguments pm_minor {_ _}.
Arguments pm_sigil {_ _}.
Arguments pm_requests {_ _}.
Arguments pm_replies {_ _}.
Arguments pm_chunk {_ _}.
Arguments pm_fuel {_ _}.
Arguments kf_name {_ _ _ _ _}.
Arguments kf_ino {_ _ _ _ _}.
Arguments kf_high {_ _ _ _ _}.
Arguments kf_esc {_ _ _ _ _}.

Lemma kf_fullname esc ino fname iv i0 : known_inode esc ino fname iv i0 -> ino_to_fullname ino i0 = (Ret fname, i0).
Proof.
  intros Hfile. pose proof (kf_name Hfile) as H. pose proof (kf_high Hfile) as Hh. revert H.
  unfold ino_to_fullname_validator, ino_to_fullname, max_special_ino in *.
  rewrite (proj2 (Z.eqb_neq ino 1)) by lia. unfold mbind, M_bind.
  destruct (inomap_at ino i0) as [[r|e|] m]; [|done..]. unfold get, lift, mret, M_ret.
  destruct (fullname_of m r) as [n|e|]; [|done..]. by intros [= -> _ ->].
Qed.

Section Plain.
Context {W T : Type} {UW : Upstream W} {HU : UMap Z begetattr_t T} `{SB : Secretbox}.
Context (cfg : mount_config) (fuel : nat) (K : W -> Prop) (esc ino : Z) (fname : bytes) (iv : Z) (i0 : inomap).
Context (Hclock : forall w, K w -> K (clk_now w).2).
Context (Hmount : plain_mount cfg fuel) (Hfile : known_inode esc ino fname iv i0).

#[local] Abbreviation cstate := (cst (W := W) (T := T)).
Definition ready (c : cstate) : Prop := K (cworld c) /\ inos c = i0.

Lemma cookie_matches (c : cstate) : inos c = i0 -> cookie_mismatch cfg ino esc c = (Ret false, c).
Proof.
  intros Ei. destruct (kf_ino Hfile) as (r & Er & Eino). pose proof (kf_high Hfile) as Hh.
  unfold max_special_ino in Hh. unfold cookie_mismatch.
  rewrite (proj2 (Z.eqb_neq ino 0)) by lia. destruct (ignore_estale_mismatch cfg); [done|].
  rewrite (proj2 (Z.eqb_neq ino 1)), (proj2 (Z.leb_gt ino _)) by (unfold max_special_ino; lia).
  assert (ino_to_pino_name ino (inos c) = (Ret (pino r, name r), inos c)) as E.
  { unfold ino_to_pino_name, nested, try_M, inomap_at, mbind, M_bind, get. by rewrite Ei, Er. }
  unfold mbind, M_bind, on_inos. rewrite E. rewrite <- Eino, Z.eqb_refl.
  unfold set_inos, mret, M_ret. by destruct c.
Qed.

(** The backends answer this request, with the right cookie and [P]. *)
Definition answers_plainly (req : req123) (P : decoded -> Prop) : Prop := forall w, K w ->
  exists rep w' dr, be_refresh req reply_default w = ((Ret tt, rep), w') /\ K w'
    /\ content_encoding rep = CE_IDENT
    /\ decoded_reply fuel (m_req cfg) rep (content rep) (urlstem req) = Some (Ret dr)
    /\ d_eno dr = 0 /\ d_estale_cookie dr = Ret esc /\ P dr.

Lemma beget_plain req P (c : cstate) : ready c -> answers_plainly req P ->
  exists dr c', beget cfg fuel ino req true c = (Ret dr, c') /\ ready c' /\ d_eno dr = 0 /\ P dr.
Proof.
  intros [HK Hi] Hreq. pose proof (pm_fuel Hmount) as Hf.
  assert (exists dm c1, delay_manager_ctor (retry_timeout cfg) (retry_initial_millis cfg) (retry_saturate cfg) c
      = (Ret dm, c1) /\ ready c1) as (dm & c1 & E1 & HK1 & Hi1).
  { unfold delay_manager_ctor. destruct (0 <? retry_timeout cfg); [|by do 2 eexists].
    unfold mbind, M_bind, on_world. pose proof (Hclock (cworld c) HK) as HKc.
    destruct (clk_now (cworld c)) as [now w]. by do 2 eexists. }
  destruct (Hreq (cworld c1) HK1) as (rep & w' & dr & E2 & HK2 & Hce & Edr & De & Desc & HP).
  exists dr, (set_world w' c1). split; [|by split_and!].
  unfold beget, encrypt_req. rewrite (pm_requests Hmount). cbn [negb].
  rewrite (M_bind_Ret (mret _) _ c _ c eq_refl).
  rewrite (M_bind_Ret _ _ _ dr (set_world w' c1)).
  2: { unfold beget_decode, retrying_berefresh. rewrite (M_bind_Ret _ _ _ rep (set_world w' c1)).
       - rewrite Hce, Z.eqb_refl, (pm_replies Hmount). cbn [negb]. unfold decode_plaintext. by rewrite Edr.
       - rewrite (M_bind_Ret _ _ _ _ _ E1). destruct fuel as [|n]; [lia|]. cbn [retry_loop].
         unfold mbind, M_bind, on_world. by rewrite E2. }
  rewrite (M_bind_Ret _ _ _ false (set_world w' c1)); [done|].
  unfold mismatch. rewrite De. cbn [Z.eqb andb].
  rewrite (M_bind_Ret _ _ _ esc (set_world w' c1)) by (unfold lift; by rewrite Desc). by apply cookie_matches.
Qed.

Lemma named_plain {A} (k : bytes -> M cstate A) (c : cstate) :
  ready c -> (n ← on_inos (ino_to_fullname ino); k n) c = k fname c.
Proof.
  intros [_ Hi]. apply M_bind_Ret. unfold on_inos. rewrite Hi, (kf_fullname _ _ _ _ _ Hfile). f_equal.
  unfold set_inos. rewrite <- Hi. by destruct c.
Qed.
End Plain.

(** ** Backends with a file *)

Section Read.
Context {W T L : Type} {UW : Upstream W} {HW : Host W}.
Context {HU : UMap Z begetattr_t T} {HL : UMap Z (expiring bytes) L} `{SB : Secretbox}.
Context (cfg : mount_config) (opts : mount_opts) (fuel : nat).
(** [chunks] says which chunks, by their first KiB, are asked for. *)
Context (K : W -> Prop) (chunks : Z -> Prop) (version : Z -> bytes) (esc ino : Z) (fname : bytes) (iv : Z) (i0 : inomap).

(** A reply in plaintext to a request for the chunk at [k] KiB, with the bytes
    of the file as it was when its validator was [v]. *)
Definition chunk_reply (v k : Z) (rep : reply123) : Prop :=
  valid rep = true /\ (exists age, reply_max_age rep = Ret age) /\ content_encoding rep = CE_IDENT
  /\ 0 <= v < 2 ^ 64
  /\ exists uri, zlen uri <= 1200
       /\ content rep = body73 (f_pairs uri esc v) (slice (version v) (k * 1024) (chunkbytes cfg)).

(** The backends answer every request of a mount for a chunk of the file; one
    without caches with a version not older than [iv]. *)
Record serves_file : Prop := {
  sf_clock w : K w -> K (clk_now w).2;
  sf_refresh k nc w : K w -> chunks k -> 0 <= k < 2 ^ 62 ->
    exists v rep w', be_refresh (set_no_cache nc (filereq (m_req cfg) fname (Fs123Chunk cfg) k)) reply_default w = ((Ret tt, rep), w')
      /\ K w' /\ chunk_reply v k rep /\ (nc = true -> iv <= v);
}.

Context (Hserves : serves_file) (Hmount : plain_mount cfg fuel) (Hfile : known_inode esc ino fname iv i0).

#[local] Abbreviation cstate := (cst (W := W) (T := T)).
#[local] Abbreviation ready := (ready K i0).

Lemma begetchunk_serves k nc (c : cstate) : ready c -> chunks k -> 0 <= k < 2 ^ 62 ->
  exists v dr c', begetchunk_file cfg fuel ino k nc c = (Ret dr, c') /\ ready c'
    /\ d_eno dr = 0 /\ d_content dr = slice (version v) (k * 1024) (chunkbytes cfg)
    /\ d_validator dr = Ret v /\ (nc = true -> iv <= v).
Proof.
  intros Hr Hck Hk. unfold begetchunk_file. rewrite (named_plain K esc ino fname iv i0 Hfile) by done.
  destruct (beget_plain cfg fuel K esc ino fname iv i0 (sf_clock Hserves) Hmount Hfile
      (set_no_cache nc (filereq (m_req cfg) fname (Fs123Chunk cfg) k))
      (fun dr => exists v, d_content dr = slice (version v) (k * 1024) (chunkbytes cfg)
         /\ d_validator dr = Ret v /\ (nc = true -> iv <= v)) c Hr)
    as (dr & c' & E & Hr' & De & v & Dc & Dv & Hnc); [|by exists v, dr, c'].
  intros w HK. destruct (sf_refresh Hserves k nc w HK Hck Hk)
    as (v & rep & w' & E2 & HK2 & (Hval & [age Hage] & Hce & Hv & uri & Huri & Hcont) & Hnc).
  destruct (pm_sigil Hmount) as [base Hbase]. pose proof (pm_chunk Hmount) as Hchunk.
  destruct (decode_f_body_fuel fuel (m_req cfg) rep
      (urlstem (set_no_cache nc (filereq (m_req cfg) fname (Fs123Chunk cfg) k))) base age uri esc v
      (slice (version v) (k * 1024) (chunkbytes cfg)))
    as (dr & Edr & Dc & De & Desc & Dv & _);
    [apply Hmount|apply Hmount|done..|rewrite zlen_slice by lia; lia|apply Hfile|done|].
  exists rep, w', dr. rewrite Hcont, Edr. by split_and!; [..|exists v].
Qed.

(** *** The callback *)

#[local] Abbreviation state := (mst (W := W) (T := T) (L := L)).

(** The handle of the open file, if it is in the table of open files at all. *)
Definition handle_ok (fh : Z) (t : ofm) : Prop :=
  fh = 0 \/ wf None t /\ exists mr, mnodes t !! fh = Some mr /\ m_ino mr = ino.

Lemma on_begets_ret {A} (f : M cstate A) (s : state) a c :
  f (begets s) = (Ret a, c) ->
  on_begets f s = (Ret a, Mst c (openfiles s) (linkmap s) (strings s) (dirs s) (next_obj s) (net_open_handles s) (sent s)).
Proof. intros E. unfold on_begets. by rewrite E. Qed.

Lemma bind_lift {S A B} (a : A) (k : A -> M S B) s : (lift (Ret a) ≫= k) s = k a s.
Proof. done. Qed.

Lemma content_of dr v data : d_validator dr = Ret v -> d_content dr = data ->
  f_validator_and_content cfg dr = Ret (v, data).
Proof.
  intros Ev Ed. unfold f_validator_and_content. rewrite (pm_minor Hmount), Ev, Ed. done.
Qed.

Lemma read_chunk_serves k (s : state) : ready (begets s) -> chunks k -> 0 <= k < 2 ^ 62 ->
  exists v s', read_chunk cfg fuel ino k iv s
      = (Ret (inr (v, slice (version v) (k * 1024) (chunkbytes cfg))), s')
    /\ ready (begets s') /\ openfiles s' = openfiles s /\ sent s' = sent s /\ iv <= v.
Proof.
  intros Hr Hck Hk. unfold read_chunk.
  destruct (begetchunk_serves k false (begets s) Hr Hck Hk) as (v & dr & c & E & Hr1 & De & Dc & Dv & _).
  rewrite (M_bind_Ret _ _ _ _ _ (on_begets_ret _ _ _ _ E)), De. cbn [Z.eqb negb].
  rewrite (content_of dr v _ Dv Dc), bind_lift. cbv beta iota.
  destruct (Z.ltb_spec v iv) as [Hlt|Hge]; cbn [negb]; [|by exists v; eexists].
  match goal with |- context [mbind _ _ ?s1] =>
    destruct (begetchunk_serves k true (begets s1) Hr1 Hck Hk) as (v2 & dr2 & c2 & E2 & Hr2 & De2 & Dc2 & Dv2 & Hnc) end.
  rewrite (M_bind_Ret _ _ _ _ _ (on_begets_ret _ _ _ _ E2)), De2. cbn [Z.eqb negb].
  rewrite (content_of dr2 v2 _ Dv2 Dc2), bind_lift. cbv beta iota.
  specialize (Hnc eq_refl). rewrite (proj2 (Z.ltb_ge v2 iv)) by lia. by exists v2; eexists.
Qed.

Lemma wake_up_ok v fi (s : state) : handle_ok (fi_fh fi) (openfiles s) ->
  exists s', wake_up ino v iv fi s = (Ret tt, s') /\ begets s' = begets s /\ sent s' = sent s
    /\ handle_ok (fi_fh fi) (openfiles s').
Proof.
  intros Hh. unfold wake_up. destruct ((iv <? v) && negb (fi_fh fi =? 0)) eqn:Eb; [|by exists s].
  apply andb_prop in Eb as [_ Enz%negb_true_iff%Z.eqb_neq]. destruct Hh as [|(Hw & mr & Hm & Hi)]; [done|].
  destruct (expire_now_ok (openfiles s) ino (fi_fh fi) mr Hw Hm Hi) as (t & E & Hw' & Hv).
  unfold on_files. rewrite E. eexists. split_and!; [done..|]. cbn. right. split; [done|].
  pose proof (view_lookup _ _ _ Hm) as Hl. rewrite <- Hv in Hl.
  apply view_inv in Hl as (mr' & Hm' & [= E1 _]). exists mr'. split; [done|]. congruence.
Qed.

Lemma reply_sends k (s : state) : exists s', reply k s = (Ret tt, s') /\ sent s' = sent s ++ [k].
Proof. by eexists. Qed.

(** The bytes of a reply to a read. *)
Definition reply_bytes (k : kreply) : option bytes :=
  match k with K_buf b => Some b | K_iov l => Some (mjoin l) | _ => None end.

Lemma chunk_start off : 0 <= off < 2 ^ 62 -> let n := off / chunkbytes cfg in
  swrap 64 (n * Fs123Chunk cfg) = n * Fs123Chunk cfg /\ n * Fs123Chunk cfg * 1024 = n * chunkbytes cfg
  /\ 0 <= n * Fs123Chunk cfg < 2 ^ 62
  /\ swrap 64 ((n + 1) * Fs123Chunk cfg) = (n + 1) * Fs123Chunk cfg
  /\ (n + 1) * Fs123Chunk cfg * 1024 = (n + 1) * chunkbytes cfg
  /\ 0 <= (n + 1) * Fs123Chunk cfg < 2 ^ 62.
Proof.
  intros Hoff n. pose proof (pm_chunk Hmount) as Hc. unfold n.
  pose proof (Z.div_mod off (chunkbytes cfg)). pose proof (Z.mod_pos_bound off (chunkbytes cfg)).
  assert (0 <= off / chunkbytes cfg) by (apply Z.div_pos; lia).
  set (m := off / chunkbytes cfg) in *. unfold chunkbytes, max_reply_size in *.
  rewrite !swrap_small by nia. split_and!; nia.
Qed.

Lemma read_try_correct size off fi (s : state) :
  ready (begets s) -> handle_ok (fi_fh fi) (openfiles s) ->
  0 <= off < 2 ^ 62 -> 0 <= size <= chunkbytes cfg ->
  chunks (off / chunkbytes cfg * Fs123Chunk cfg) -> chunks ((off / chunkbytes cfg + 1) * Fs123Chunk cfg) ->
  exists s' v0 v1 k, fs123_read_try cfg fuel ino size off fi s = (Ret tt, s')
    /\ ready (begets s') /\ sent s' = sent s ++ [k] /\ iv <= v0 /\ iv <= v1
    /\ reply_bytes k = Some (two_chunks (version v0) (version v1) (chunkbytes cfg) off size).
Proof.
  intros Hr Hh Hoff Hsize Hck0 Hck1. pose proof (pm_chunk Hmount) as Hc.
  destruct (chunk_start off Hoff) as (Hsw0 & Hst0 & Hn0 & Hsw1 & Hst1 & Hn1). pose proof (kf_high Hfile) as Hhigh.
  unfold fs123_read_try. unfold is_special. rewrite (proj2 (Z.leb_gt ino max_special_ino)) by lia.
  rewrite andb_false_r. fold (chunkbytes cfg).
  assert (u64 (chunkbytes cfg) = chunkbytes cfg) as -> by (apply wrap_small; unfold max_reply_size in *; lia).
  rewrite (proj2 (Z.ltb_ge _ _)) by lia.
  rewrite (M_bind_Ret _ _ _ (fname, iv) s).
  2: { destruct Hr as [HK Hi]. unfold on_begets, on_inos. rewrite Hi, (kf_name Hfile). cbv beta iota.
       unfold set_inos. rewrite <- Hi. by destruct s as [[] ?]. }
  rewrite (proj2 (Z.eqb_neq (chunkbytes cfg) 0)) by lia.
  rewrite (wrap_small 64 off) by lia. cbv zeta. rewrite Hsw0.
  destruct (read_chunk_serves _ s Hr Hck0 Hn0) as (v0 & s1 & E1 & Hr1 & Hf1 & Hs1 & Hv0).
  rewrite (M_bind_Ret _ _ _ _ _ E1), Hst0. rewrite <- Hf1 in Hh.
  destruct (wake_up_ok v0 fi s1 Hh) as (s2 & E2 & Hb2 & Hs2 & Hh2). rewrite <- Hb2 in Hr1.
  rewrite (M_bind_Ret _ _ _ _ _ E2). cbv zeta.
  destruct (read_one (version v0) (chunkbytes cfg) off size) as (Hlen & Hpast & Hone); [lia..|].
  set (content := slice (version v0) (off / chunkbytes cfg * chunkbytes cfg) (chunkbytes cfg)) in *.
  assert (forall k, sent s2 ++ [k] = sent s ++ [k]) as Es by (intros k; congruence).
  destruct (Z.ltb_spec (zlen content) (off mod chunkbytes cfg)) as [Hp|Hp].
  { exists (set_sent (sent s2 ++ [K_buf []]) s2), v0, v0, (K_buf []). split_and!; try done; [apply Es|].
    cbn. by rewrite Hpast. }
  rewrite (Hone Hp). pose proof (read_two (version v0)) as Htwo.
  destruct (_ || _) eqn:Eb in |- *.
  { destruct (reply_sends (K_iov [slice (version v0) off (Z.min size (chunkbytes cfg - off mod chunkbytes cfg))]) s2)
      as (s3 & E3 & Hs3).
    exists s3, v0, v0. eexists. split; [exact E3|]. split; [by injection E3 as <-|]. split; [by rewrite Hs3, Es|].
    split; [done|]. split; [done|].
    rewrite Htwo by lia. fold content. rewrite Eb. done. }
  rewrite Hsw1. destruct (read_chunk_serves _ s2 Hr1 Hck1 Hn1) as (v1 & s3 & E3 & Hr3 & Hf3 & Hs3 & Hv1).
  rewrite (M_bind_Ret _ _ _ _ _ E3), Hst1. rewrite <- Hf3 in Hh2.
  destruct (wake_up_ok v1 fi s3 Hh2) as (s4 & E4 & Hb4 & Hs4 & Hh4).
  rewrite (M_bind_Ret _ _ _ _ _ E4).
  match goal with |- exists s' v w k, reply ?kk _ = _ /\ _ => destruct (reply_sends kk s4) as (s5 & E5 & Hs5) end.
  exists s5, v0, v1. eexists. split; [exact E5|]. split; [injection E5 as <-; cbn; by rewrite Hb4|].
  split; [by rewrite Hs5, Hs4, Hs3, Es|]. split; [done|]. split; [done|].
  rewrite Htwo by lia. fold content. rewrite Eb. cbn. by rewrite app_nil_r.
Qed.

(** C3.  A read gives the bytes of the file.  Over backends that answer every
    request for one of its two chunks with the bytes of some version of the file, and one
    without caches with a version not older than the one the table has, a
    read inside the kernel's limits always succeeds, with exactly the bytes
    asked for, short only at the end of the file: of one version, no older
    than the table's, when one chunk is enough or both were of the same
    version, and otherwise of one version up to the boundary of the chunks
    and of another after it. *)
Theorem fs123_read_correct size off fi (s : state) :
  ready (begets s) -> handle_ok (fi_fh fi) (openfiles s) ->
  0 <= off < 2 ^ 62 -> 0 <= size <= chunkbytes cfg ->
  chunks (off / chunkbytes cfg * Fs123Chunk cfg) -> chunks ((off / chunkbytes cfg + 1) * Fs123Chunk cfg) ->
  exists s' v0 v1 k, fs123_read cfg fuel ino size off fi s = (Ret tt, s')
    /\ ready (begets s') /\ sent s' = sent s ++ [k] /\ iv <= v0 /\ iv <= v1
    /\ reply_bytes k = Some (two_chunks (version v0) (version v1) (chunkbytes cfg) off size)
    /\ (version v0 = version v1 -> reply_bytes k = Some (slice (version v0) off size)).
Proof.
  intros Hr Hh Hoff Hsize Hck0 Hck1. pose proof (pm_chunk Hmount).
  destruct (read_try_correct size off fi s Hr Hh Hoff Hsize Hck0 Hck1) as (s' & v0 & v1 & k & E & Hr' & Hs & H0 & H1 & Hb).
  exists s', v0, v1, k. unfold fs123_read, caught, try_M. rewrite E. split_and!; try done. intros Ev.
  rewrite Hb, <- Ev, two_chunks_same by lia. done.
Qed.
End Read.

(** ** A backend with a file of two versions

    It has the old one, of validator 6, in a cache, and the new one, of
    validator 9, when asked for it without caches or a second time. *)

Definition wx_version (v : Z) : bytes :=
  if v =? 9 then replicate 1500 "n"%char else replicate 2000 "o"%char.

Definition wx_read_cfg : mount_config :=
  MountConfig (ReqConfig 0 3 0 0) None false true false 1 100 1 1.

Definition wx_chunk_reply (v k : Z) : reply123 :=
  wx_reply (f_pairs (lit "/fs123/7/3/f/d/f") 42 v) (slice (wx_version v) (k * 1024) 1024).

#[local] Instance wx_file_upstream : Upstream nat := {
  be_refresh req reply w :=
    match svto T_i64 (zdrop 9 (urlstem req)) 0 with
    | Ret k => ((Ret tt, wx_chunk_reply (if no_cache req || (0 <? Z.of_nat w) then 9 else 6) k), S w)
    | _ => ((Throw (EHttp 404), reply), S w)
    end;
  clk_now w := (1500, w);
  sleep_for d w := w;
  fresh_blob n w := ([], w);
  notify_inval_entry p n w := w;
  notify_inval_inode i w := w;
}.

#[local] Instance wx_file_host : Host nat := {
  geteuid _ := 0; getegid _ := 0; special_report _ w := ([], w); direntry_size nm := 24 + zlen nm;
  complaint_throws _ _ := false }.

Definition wx_read_inos : inomap :=
  (run_ops run_op [Remember 1 (lit "d") 77 5; Remember 77 (lit "f") wx_file 7] (inomap_init 5000)).2.

Lemma wx_serves : serves_file wx_read_cfg (fun _ => True) (fun _ => True) wx_version 42 (lit "/d/f") 7.
Proof.
  split; [done|]. intros k nc w _ _ Hk. unfold be_refresh, wx_file_upstream.
  change (urlstem (set_no_cache nc (filereq _ _ _ k))) with (lit "/f/d/f?1;" ++ to_string k).
  rewrite zdrop_app, svto_to_string by (done || (unfold in_type; cbn; lia)).
  do 3 eexists. split; [reflexivity|]. split; [done|].
  assert (forall v, 0 <= v < 2 ^ 64 -> chunk_reply wx_read_cfg wx_version 42 v k (wx_chunk_reply v k)) as H.
  { intros v Hv. unfold chunk_reply. split; [reflexivity|]. split; [by eexists|]. split; [reflexivity|].
    split; [done|]. exists (lit "/fs123/7/3/f/d/f"). split; [vm_compute; discriminate|reflexivity]. }
  split; [apply H; destruct (_ || _); lia|]. intros ->. cbn. lia.
Qed.

Lemma wx_plain : plain_mount wx_read_cfg 13.
Proof. split; try reflexivity; [by eexists|split; vm_compute; congruence|lia]. Qed.

Lemma wx_known : known_inode 42 wx_file (lit "/d/f") 7 wx_read_inos.
Proof.
  split; [vm_compute; reflexivity| |vm_compute; reflexivity|lia].
  exists (set_refcount 1 (inorecord_ctor (lit "f") 77 7)). split; vm_compute; reflexivity.
Qed.

Definition wx_read_state : mst (W := nat) (T := gmap Z begetattr_t) (L := gmap Z (expiring bytes)) :=
  Mst (Cst wx_read_inos (cache_ctor (K := Z) (V := attrcache_value_t) 100) None 0%nat) ofm_init
    (cache_ctor (K := Z) (V := bytes) 100) ∅ ∅ 1 0 [].

(** The 600 bytes from 1000 on: the first chunk comes from the cache, too old,
    and is asked for again; the second one is short. *)
Lemma fs123_read_correct_witness :
  exists s' v0 v1 k,
    fs123_read (SB := toy_box) wx_read_cfg 13 wx_file 600 1000 (FI 0 0 false false) wx_read_state = (Ret tt, s')
    /\ 7 <= v0 /\ 7 <= v1 /\ sent s' = [k]
    /\ reply_bytes k = Some (two_chunks (wx_version v0) (wx_version v1) 1024 1000 600).
Proof.
  destruct (fs123_read_correct (SB := toy_box) wx_read_cfg 13 (fun _ => True) (fun _ => True) wx_version 42 wx_file (lit "/d/f") 7
      wx_read_inos wx_serves wx_plain wx_known 600 1000 (FI 0 0 false false) wx_read_state)
    as (s' & v0 & v1 & k & E & _ & Hs & H0 & H1 & Hb & _);
    [by split|by left|lia|split; vm_compute; congruence|done|done|].
  exists s', v0, v1, k. by split_and!.
Defined.

Example read_across :
  sent (fs123_read (SB := toy_box) wx_read_cfg 13 wx_file 600 1000 (FI 0 0 false false) wx_read_state).2
  = [K_iov [replicate 24 "n"%char; replicate 476 "n"%char]].
Proof. vm_compute. reflexivity. Qed.
