(* ===== verification/MountInos.v ===== *)
(** * The kernel and the table of inodes

    The kernel counts, for every inode number a lookup gave it, how often it
    was given, and hands the count back in forgets.  inomap.cpp keeps its own
    count.  Here the callbacks of MountOps.v run, one after the other, against
    a kernel that keeps its count.

    Theorem: after any sequence of requests the two counts agree, so that the
    client knows every inode the kernel may ask about and none that it cannot,
    whatever errors the requests ran into. *)

From Stdlib Require Import Ascii String ZArith Lia.
From stdpp Require Import base gmap strings list numbers.
From S2P Require Import Prelude StrUtils Threeroe SvTo Netstring PathUtils Expiring ContentCodec Backend.
From S2P Require Import ServerParse ServerReply ClientReply StatSer EstaleCookie Inomap Beget OpenFileMap MountOps.

#[local] Open Scope Z_scope.

(** ** The kernel's side *)

Definition holds (h : gmap Z Z) (i : Z) : Z := default 0 (h !! i).

Definition take_entry (h : gmap Z Z) (k : kreply) : gmap Z Z :=
  match k with
  | K_entry i _ _ _ => if i =? 0 then h else <[i := holds h i + 1]> h
  | _ => h
  end.

Definition give_back (h : gmap Z Z) (f : Z * Z) : gmap Z Z := <[f.1 := holds h f.1 - f.2]> h.

(** The kernel gives back no more than it holds. *)
Fixpoint may_forget (h : gmap Z Z) (l : list (Z * Z)) : bool :=
  match l with
  | [] => true
  | (i, n) :: l' => (0 <=? n) && (n <=? holds h i) && may_forget (give_back h (i, n)) l'
  end.

Definition returned (r : request) : list (Z * Z) :=
  match r with R_forget i n => [(i, n)] | R_forget_multi l => l | _ => [] end.

(** The inode numbers of a list of replies. *)
Definition entries (l : list kreply) : list Z :=
  omap (fun k => match k with K_entry i _ _ _ => Some i | _ => None end) l.

(** All of a record but its validator. *)
Definition shape (m : inomap) : gmap Z (namebuf * Z * Z) := (fun r => (u r, refcount r, pino r)) <$> m.

Lemma shape_insert m i r r' :
  m !! i = Some r -> u r' = u r -> refcount r' = refcount r -> pino r' = pino r -> shape (<[i := r']> m) = shape m.
Proof.
  intros Hm E1 E2 E3. unfold shape. rewrite fmap_insert. apply insert_id.
  by rewrite lookup_fmap, Hm, E1, E2, E3.
Qed.

Lemma shape_update ino v m : shape (ino_update_validator ino v m).2 = shape m.
Proof.
  unfold ino_update_validator, try_M, inomap_at, mbind, M_bind, get, modify, lift, raise, mret, M_ret.
  destruct (m !! ino) as [r|] eqn:Hr; [|done].
  destruct (validator r <? v); cbn; repeat case_match; simplify_eq; cbn; by apply (shape_insert _ _ r).
Qed.

Lemma shape_lookup m i : refcount <$> m !! i = (fun x => x.1.2) <$> shape m !! i.
Proof. unfold shape. rewrite lookup_fmap. by destruct (m !! i). Qed.

(** ** What the callbacks leave alone *)

Section Frames.
Context {W T : Type} {UW : Upstream W} {HU : UMap Z begetattr_t T} `{SB : Secretbox}.
Context (cfg : mount_config) (fuel : nat).

Definition frames {A} (f : M (cst (W := W) (T := T)) A) : Prop :=
  forall i, keeps (same_inos i) f (fun _ => True).

Lemma frames_bind {A B} (m : M (cst (W := W) (T := T)) A) (k : A -> M (cst (W := W) (T := T)) B) :
  frames m -> (forall a, frames (k a)) -> frames (m ≫= k).
Proof. intros Hm Hk i. eapply keeps_bind; [apply Hm|]. intros a _. apply Hk. Qed.

Lemma frames_world {A} (f : W -> A * W) : frames (on_world f).
Proof. intros i. apply keeps_world. Qed.

Lemma frames_query {A} (f : M inomap A) : (forall i, (f i).2 = i) -> frames (on_inos f).
Proof. intros Hf i. eapply keeps_weaken; [by apply keeps_inos|done]. Qed.

Lemma frames_beget ino req chk : frames (beget cfg fuel ino req chk).
Proof.
  intros i. destruct chk; [eapply keeps_weaken; [apply beget_keeps|done]|].
  unfold beget. eapply keeps_bind; [apply encrypt_req_keeps|]. intros req' _.
  eapply keeps_bind; [apply beget_decode_keeps|]. intros reply _.
  eapply keeps_bind with (P := fun b => b = false).
  - unfold mismatch. rewrite andb_false_r. by apply keeps_ret.
  - intros b ->. by apply keeps_ret.
Qed.

Lemma frames_named {A} ino (k : bytes -> M cst A) :
  (forall n, frames (k n)) -> frames (n ← on_inos (ino_to_fullname ino); k n).
Proof. intros Hk. apply frames_bind; [apply frames_query, fullname_keeps|done]. Qed.

Lemma frames_begetattr_at p lc ino ms nc : frames (begetattr_at cfg fuel p lc ino ms nc).
Proof. intros i. eapply keeps_weaken; [apply begetattr_at_keeps|done]. Qed.
Lemma frames_begetattr ino ms nc : frames (begetattr cfg fuel ino ms nc).
Proof. intros i. eapply keeps_weaken; [apply begetattr_keeps|done]. Qed.

Lemma frames_ttl e w : frames (ttl_or_stale (W := W) (T := T) e w).
Proof.
  unfold ttl_or_stale. apply frames_bind; [apply frames_world|]. intros now i.
  apply keeps_if; intros _; [by apply keeps_lift|].
  eapply keeps_bind; [by apply (keeps_lift _ _ (fun _ => True))|]. intros e' _.
  eapply keeps_bind; [by apply (keeps_lift _ _ (fun _ => True))|]. intros x _. by apply keeps_ret.
Qed.

Lemma pino_keeps ino i : (ino_to_pino ino i).2 = i.
Proof.
  unfold ino_to_pino, nested, inomap_at, try_M, mbind, M_bind, get, mret, M_ret, raise. by destruct (i !! ino).
Qed.
Lemma fullname_validator_keeps ino i : (ino_to_fullname_validator ino i).2 = i.
Proof.
  unfold ino_to_fullname_validator, inomap_at, mbind, M_bind, get, mret, M_ret, raise, lift.
  destruct (ino =? 1); [done|]. destruct (i !! ino); [|done]. by destruct (fullname_of i _).
Qed.
End Frames.

Create HintDb inos.
#[local] Hint Resolve frames_beget frames_named frames_begetattr frames_begetattr_at frames_ttl frames_world
  frames_query pino_keeps fullname_keeps fullname_validator_keeps keeps_raise keeps_get : inos.

Section Callbacks.
Context {W T L : Type} {UW : Upstream W} {HW : Host W}.
Context {HU : UMap Z begetattr_t T} {HL : UMap Z (expiring bytes) L} `{SB : Secretbox}.
Context (cfg : mount_config) (opts : mount_opts) (fuel : nat).

#[local] Abbreviation st := (mst (W := W) (T := T) (L := L)).
#[local] Abbreviation table s := (inos (begets s)).

(** The records are the same but for their validators, and no entry was sent. *)
Definition at_rest (sh : gmap Z (namebuf * Z * Z)) (e : list Z) (s : st) : Prop :=
  shape (table s) = sh /\ entries (sent s) = e.
Definition rests {A} (m : M st A) : Prop := forall sh e, keeps (at_rest sh e) m (fun _ => True).

Lemma rests_bind {A B} (m : M st A) (k : A -> M st B) : rests m -> (forall a, rests (k a)) -> rests (m ≫= k).
Proof. intros Hm Hk sh e. eapply keeps_bind; [apply Hm|]. intros a _. apply Hk. Qed.
Lemma rests_ret {A} (a : A) : rests (mret a).
Proof. intros sh e. by apply keeps_ret. Qed.
Lemma rests_lift {A} (m : outcome A) : rests (lift m).
Proof. intros sh e. by apply keeps_lift. Qed.
Lemma rests_raise {A} x : rests (raise (A := A) x).
Proof. intros sh e. apply keeps_raise. Qed.
Lemma rests_get : rests get.
Proof. intros sh e. eapply keeps_weaken; [apply keeps_get|done]. Qed.
Lemma rests_if {A} (b : bool) (x y : M st A) : rests x -> rests y -> rests (if b then x else y).
Proof. by destruct b. Qed.

Lemma rests_begets {A} (f : M (cst (W := W) (T := T)) A) : frames f -> rests (on_begets f).
Proof.
  intros Hf sh e s [H1 H2]. destruct (Hf (table s) (begets s) eq_refl) as [Hs _].
  unfold on_begets. destruct (f (begets s)) as [a c]. cbn in *. unfold same_inos in Hs.
  split; [|done]. split; [|done]. cbn. by rewrite Hs.
Qed.

Lemma rests_update {B} ino v (k : Z -> B) h : (forall x, frames (h x)) ->
  rests (on_begets (try_M (o ← on_inos (ino_update_validator ino v); mret (k o)) h)).
Proof.
  intros Hh sh e s [H1 H2]. unfold on_begets.
  match goal with |- context [try_M ?m _ _] =>
    assert (forall c, shape (inos (try_M m h c).2) = shape (inos c)) as Hc end.
  { intros c. unfold try_M, mbind, M_bind, on_inos. pose proof (shape_update ino v (inos c)) as Hu.
    destruct (ino_update_validator ino v (inos c)) as [[o|x|] i]; cbn in *; [done| |done].
    destruct (Hh x i (set_inos i c) eq_refl) as [Hi _]. unfold same_inos in Hi. by rewrite Hi. }
  specialize (Hc (begets s)). destruct (try_M _ h (begets s)) as [a c]. cbn in *.
  split; [|done]. split; [|done]. cbn. by rewrite Hc.
Qed.

Lemma rests_files {A} (f : M ofm A) : rests (on_files f).
Proof. intros sh e s Hs. unfold on_files. by destruct (f (openfiles s)). Qed.
Lemma rests_clock : rests clock.
Proof. apply rests_begets, frames_world. Qed.
Lemma rests_modify (f : st -> st) :
  (forall s, begets (f s) = begets s) -> (forall s, sent (f s) = sent s) -> rests (modify f).
Proof. intros H1 H2 sh e s [E1 E2]. split; [|done]. split; cbn; [by rewrite H1|by rewrite H2]. Qed.
Lemma rests_deref {A B} (h : st -> gmap Z A) (k : A -> B) a :
  rests (fun s => match h s !! a with Some x => (Ret (k x), s) | None => (Undef, s) end).
Proof. intros sh e s Hs. by destruct (h s !! a). Qed.

Definition no_entry (k : kreply) : bool := match k with K_entry _ _ _ _ => false | _ => true end.
Lemma entries_snoc l k : entries (l ++ [k]) = entries l ++ entries [k].
Proof. unfold entries. by rewrite omap_app. Qed.
Lemma rests_reply k : no_entry k = true -> rests (reply k).
Proof.
  intros Hk sh e s [E1 E2]. split; [|done]. split; cbn; [done|]. rewrite entries_snoc, E2.
  destruct k; try done; by rewrite app_nil_r.
Qed.

Lemma rests_open fi : rests (reply_open fi).
Proof. apply rests_bind; [by apply rests_modify|intros; by apply rests_reply]. Qed.
Lemma rests_release : rests reply_release.
Proof. apply rests_bind; [by apply rests_reply|intros; by apply rests_modify]. Qed.
Lemma rests_caught_reply x : rests (caught_reply x).
Proof.
  apply rests_bind; [apply rests_get|]. intros s. apply rests_if; [apply rests_ret|by apply rests_reply].
Qed.
Lemma rests_caught h : rests h -> rests (caught h).
Proof.
  intros Hh sh e s Hs. destruct (Hh sh e s Hs) as [H1 _]. unfold caught, try_M.
  destruct (h s) as [[a|x|] s']; [done| |done]. by apply rests_caught_reply.
Qed.
#[local] Hint Resolve rests_ret rests_lift rests_raise rests_get rests_begets rests_files rests_clock
  rests_deref rests_open rests_release : inos.

Ltac resting :=
  repeat first
    [ progress auto with inos nocore
    | progress cbv zeta
    | apply rests_if
    | apply rests_modify; done
    | apply rests_reply; done
    | match goal with
      | |- rests (match ?x with _ => _ end) => destruct x
      end
    | apply rests_bind; [|intros ?]
    | progress cbv beta ].

Lemma rests_special_getattr ino fi : rests (shared_getattr_special_ino ino fi).
Proof. unfold shared_getattr_special_ino, the_string. resting. Qed.
#[local] Hint Resolve rests_special_getattr : inos.

Lemma rests_getattr ino fi : rests (fs123_getattr_try cfg opts fuel ino fi).
Proof. unfold fs123_getattr_try, getattr_special_ino. resting. Qed.
Lemma rests_xattr ino n sz : rests (do_xattr cfg fuel ino n sz).
Proof. unfold do_xattr, begetxattr. resting. Qed.
Lemma rests_readlink ino : rests (fs123_readlink_try cfg fuel ino).
Proof. unfold fs123_readlink_try, begetlink. resting. Qed.
Lemma rests_statfs ino : rests (fs123_statfs_try cfg fuel ino).
Proof. unfold fs123_statfs_try, begetstatfs. resting. Qed.
Lemma rests_new_string l : rests (new_string l).
Proof. by intros sh e s. Qed.
#[local] Hint Resolve rests_new_string : inos.
Lemma rests_open_special ino fi : rests (open_special_ino cfg fuel ino fi).
Proof. unfold open_special_ino, begetserver_stats. resting. Qed.
Lemma rests_read_special ino sz off fi : rests (read_special_ino ino sz off fi).
Proof. unfold read_special_ino, the_string. resting. Qed.
#[local] Hint Resolve rests_open_special rests_read_special : inos.

Lemma frames_notify ino nc x : frames (W := W) (T := T) (open_notify ino nc x).
Proof.
  intros i. unfold open_notify. destruct x; try apply keeps_raise.
  destruct nc; [|by apply keeps_ret]. eapply keeps_bind; [apply keeps_tell|]. intros _ _. apply keeps_raise.
Qed.
Lemma rests_open_try again ino nc : rests again -> rests (open_try cfg fuel again ino nc).
Proof.
  intros Ha. unfold open_try. apply rests_bind; [auto with inos|]. intros r. cbv zeta.
  apply rests_if; [apply rests_ret|]. apply rests_bind; [apply rests_update; intros; apply frames_notify|].
  intros [o|]; [apply rests_ret|done].
Qed.
Lemma rests_open_cb ino fi : rests (fs123_open_try cfg opts fuel ino fi).
Proof.
  unfold fs123_open_try. do 2 (apply rests_if; [by apply rests_reply|]).
  apply rests_if; [apply rests_open_special|].
  apply rests_bind; [by repeat apply rests_open_try; apply rests_lift|]. intros [|[]]; resting.
Qed.

Lemma rests_read_chunk ino k v : rests (read_chunk cfg fuel ino k v).
Proof. unfold read_chunk, begetchunk_file. resting. Qed.
#[local] Hint Resolve rests_read_chunk : inos.
Lemma rests_read ino sz off fi : rests (fs123_read_try cfg fuel ino sz off fi).
Proof. unfold fs123_read_try, wake_up. resting. Qed.

Lemma rests_special_entries n off bufsz used acc : rests (special_entries n off bufsz used acc).
Proof. revert off used acc. induction n as [|n IH]; intros; cbn [special_entries]; resting. Qed.
Lemma rests_entry_ino ino nm mode c : rests (entry_ino opts ino nm mode c).
Proof. unfold entry_ino. resting. Qed.
#[local] Hint Resolve rests_special_entries rests_entry_ino : inos.
Lemma rests_readdir_loop n ino sv cfbo off bufsz used acc :
  rests (readdir_loop opts n ino sv cfbo off bufsz used acc).
Proof. revert off used acc. induction n as [|n IH]; intros; cbn [readdir_loop]; resting. Qed.
Lemma rests_readdir_chunk ino a d off : rests (readdir_chunk cfg fuel ino a d off).
Proof. unfold readdir_chunk, put_dir, begetchunk_dir. resting. Qed.
#[local] Hint Resolve rests_readdir_loop rests_readdir_chunk : inos.
Lemma rests_readdir ino sz off fi : rests (fs123_readdir_try cfg opts fuel ino sz off fi).
Proof. unfold fs123_readdir_try, the_dir, put_dir. resting. Qed.
Lemma rests_opendir fi : rests (fs123_opendir_try fi).
Proof. unfold fs123_opendir_try. resting. Qed.
Lemma rests_releasedir fi : rests (fs123_releasedir_try fi).
Proof. unfold fs123_releasedir_try, the_dir. resting. Qed.
Lemma rests_release_cb ino fi : rests (fs123_release_try ino fi).
Proof. unfold fs123_release_try, release_special_ino, delete_string, the_string. resting. Qed.

(** All but lookup and forget. *)
Definition lookup_or_forget (r : request) : bool :=
  match r with R_lookup _ _ | R_forget _ _ | R_forget_multi _ => true | _ => false end.
Lemma rests_request r : lookup_or_forget r = false -> rests (handle_request cfg opts fuel r).
Proof.
  destruct r; intros H; try done; cbn [handle_request]; apply rests_caught;
    auto using rests_getattr, rests_opendir, rests_readdir, rests_releasedir, rests_xattr, rests_readlink,
      rests_open_cb, rests_read, rests_release_cb, rests_statfs.
  all: resting.
Qed.

(** *** lookup *)

Definition count (sh : gmap Z (namebuf * Z * Z)) (i : Z) : option Z := (fun x => x.1.2) <$> sh !! i.

(** What a callback did to the counts and the entries it sent: nothing, but
    for the numbers that are not in the table, or one of each. *)
Definition grows (sh : gmap Z (namebuf * Z * Z)) (e : list Z) (s' : st) : Prop :=
  (exists l, entries (sent s') = e ++ l /\ Forall (fun i => i <= max_special_ino) l /\ shape (table s') = sh)
  \/ exists i, entries (sent s') = e ++ [i]
       /\ count (shape (table s')) i = Some (swrap 31 (default 0 (count sh i) + 1))
       /\ forall j, j <> i -> count (shape (table s')) j = count sh j.
Definition grown {A} (m : M st A) : Prop := forall sh e s, at_rest sh e s ->
  match m s with (Ret _, s') => grows sh e s' | (Throw _, s') => at_rest sh e s' | (Undef, _) => True end.

Lemma grown_rests {A} (m : M st A) : rests m -> grown m.
Proof.
  intros Hm sh e s Hs. destruct (Hm sh e s Hs) as [[H1 H2] _]. destruct (m s) as [[a|x|] s']; [|done|done].
  left. exists []. by rewrite app_nil_r.
Qed.
Lemma grown_bind {A B} (m : M st A) (k : A -> M st B) : rests m -> (forall a, grown (k a)) -> grown (m ≫= k).
Proof.
  intros Hm Hk sh e s Hs. destruct (Hm sh e s Hs) as [H1 _]. unfold mbind, M_bind.
  destruct (m s) as [[a|x|] s']; [by apply Hk|done|done].
Qed.

Lemma grown_small i a t1 t2 : i <= max_special_ino -> grown (reply (K_entry i a t1 t2)).
Proof.
  intros Hi sh e s [H1 H2]. left. exists [i]. cbn. rewrite entries_snoc, H2. split_and!; [done| |done].
  by apply Forall_singleton.
Qed.

Lemma remember_counts p n i v (m : inomap) :
  match ino_remember p n i v m with
  | (Ret _, m') => count (shape m') i = Some (swrap 31 (default 0 (count (shape m) i) + 1))
      /\ forall j, j <> i -> count (shape m') j = count (shape m) j
  | (_, m') => m' = m
  end.
Proof.
  assert (forall m' r, m' = <[i := r]> m -> refcount r = swrap 31 (default 0 (count (shape m) i) + 1) ->
    count (shape m') i = Some (swrap 31 (default 0 (count (shape m) i) + 1))
    /\ forall j, j <> i -> count (shape m') j = count (shape m) j) as H.
  { intros m' r -> Hr. unfold count, shape. rewrite fmap_insert, lookup_insert_eq. split; [cbn; f_equal; exact Hr|].
    intros j Hj. by rewrite lookup_insert_ne. }
  assert (count (shape m) i = refcount <$> m !! i) as Ec by (unfold count; by rewrite <- shape_lookup).
  unfold ino_remember, mbind, M_bind, get. destruct (m !! i) as [r|] eqn:Hr.
  - destruct (bool_decide _); cbn; [|done]. eapply H; [done|]. cbn. by rewrite Ec.
  - cbn. eapply H; [done|]. cbn. by rewrite Ec.
Qed.

Lemma grown_remember p n i v a t1 t2 :
  grown (on_begets (L := L) (on_inos (W := W) (T := T) (ino_remember p n i v));; reply (K_entry i a t1 t2)).
Proof.
  intros sh e s [H1 H2]. pose proof (remember_counts p n i v (table s)) as H.
  unfold mbind at 1, M_bind at 1, on_begets, on_inos.
  destruct (ino_remember p n i v (table s)) as [[[]|x|] m']; cbn in *; [|by subst m'|done].
  destruct H as [H3 H4]. right. exists i. cbn. rewrite entries_snoc, H2. split; [done|]. by rewrite <- H1.
Qed.

Lemma special_named_small name : special_named name <= max_special_ino.
Proof. unfold special_named, max_special_ino. repeat case_match; vm_compute; congruence. Qed.

Lemma grown_lookup pino name : grown (fs123_lookup_try cfg opts fuel pino name).
Proof.
  unfold fs123_lookup_try.
  assert (forall k : bool -> M st unit, k true = mret tt -> grown (k false) ->
    grown (special ← lookup_special_ino pino name; k special)) as Hsp.
  { intros k Hk Hf. unfold lookup_special_ino.
    destruct (negb (pino =? 1)); [exact Hf|]. cbv zeta. destruct (special_named name =? 0); [exact Hf|].
    intros sh e s Hs. unfold mbind at 1, M_bind at 1. unfold mbind at 1, M_bind at 1.
    destruct (rests_special_getattr (special_named name) None sh e s Hs) as [H1 _].
    destruct (shared_getattr_special_ino _ None s) as [[sb|x|] s']; [|done|done]. cbn in H1.
    pose proof (grown_small (special_named name) sb 0 (1000 * sec) (special_named_small name) sh e s' H1) as Hg.
    unfold mbind, M_bind. destruct (reply _ s') as [[[]|x|] s'']; [|done|done].
    unfold mret at 1, M_ret at 1. by rewrite Hk. }
  apply Hsp; [done|]. apply grown_bind; [auto with inos|]. intros r. cbv zeta.
  apply grown_bind; [auto with inos|]. intros ttl.
  case_match; [by apply grown_small|].
  case_match; [by apply grown_rests, rests_reply|]. apply grown_remember.
Qed.

Lemma lookup_counts pino name (s : st) :
  match fs123_lookup cfg opts fuel pino name s with
  | (Ret _, s') => grows (shape (table s)) (entries (sent s)) s'
  | _ => True
  end.
Proof.
  pose proof (grown_lookup pino name _ _ s (conj eq_refl eq_refl)) as H.
  unfold fs123_lookup, caught, try_M. destruct (fs123_lookup_try _ _ _ pino name s) as [[[]|x|] s']; [done| |done].
  destruct (rests_caught_reply x _ _ s' H) as [[H1 H2] _].
  destruct (caught_reply x s') as [[]]; [|done..]. left. exists []. by rewrite app_nil_r.
Qed.

(** *** forget *)

Lemma forget_counts i n (m : inomap) :
  let m' := (ino_forget i n m).2 in
  (forall j, j <> i -> count (shape m') j = count (shape m) j)
  /\ count (shape m') i = c ← count (shape m) i;
       let k := swrap 31 (u64 (u64 c - n)) in let k := if k <? 0 then 0 else k in
       if k =? 0 then None else Some k.
Proof.
  assert (count (shape m) i = refcount <$> m !! i) as Ec by (unfold count; by rewrite <- shape_lookup).
  unfold ino_forget, mbind, M_bind, get. cbv beta iota. rewrite Ec.
  destruct (m !! i) as [r|] eqn:Hr; [|by split].
  cbv zeta. cbn [fmap option_fmap option_map mbind option_bind]. set (k := if _ <? 0 then 0 else _).
  destruct (k =? 0); cbn; unfold count, shape.
  - rewrite fmap_delete, lookup_delete_eq. split; [|done]. intros j Hj. by rewrite lookup_delete_ne.
  - rewrite fmap_insert, lookup_insert_eq. split; [|done]. intros j Hj. by rewrite lookup_insert_ne.
Qed.

(** The kernel's counts, at most [n] of each, are the table's. *)
Definition agree (n : Z) (h : gmap Z Z) (sh : gmap Z (namebuf * Z * Z)) : Prop :=
  forall i, max_special_ino < i ->
    match count sh i with Some c => c = holds h i /\ 0 < c <= n | None => holds h i = 0 end.

Lemma holds_insert h i c j : holds (<[i := c]> h) j = if decide (i = j) then c else holds h j.
Proof. unfold holds. destruct (decide (i = j)) as [->|]; by rewrite ?lookup_insert_eq, ?lookup_insert_ne. Qed.

Lemma agree_forget n h m i k :
  agree n h (shape m) -> n < 2 ^ 30 -> 0 <= k <= holds h i ->
  agree n (give_back h (i, k)) (shape (ino_forget i k m).2).
Proof.
  intros Ha Hn Hk j Hj. destruct (forget_counts i k m) as [H1 H2]. specialize (Ha j Hj).
  unfold give_back. rewrite holds_insert. cbn [fst snd].
  destruct (decide (i = j)) as [<-|Hne]; [|by rewrite H1].
  rewrite H2. destruct (count (shape m) i) as [c|]; cbn [mbind option_bind]; [|lia]. destruct Ha as [Ec Hc].
  rewrite (wrap_small 64 c), (wrap_small 64 (c - k)), swrap_small by lia. cbv zeta.
  rewrite (proj2 (Z.ltb_ge _ _)) by lia. destruct (Z.eqb_spec (c - k) 0); lia.
Qed.

Lemma agree_forgets n l h (s : st) :
  agree n h (shape (table s)) -> n < 2 ^ 30 -> may_forget h l = true ->
  agree n (fold_left give_back l h) (shape (table (fs123_forget_multi_loop l s).2)).
Proof.
  revert h s. induction l as [|[i k] l IH]; intros h s Ha Hn Hm; [done|].
  cbn [may_forget] in Hm. apply andb_prop in Hm as [[H1 H2]%andb_prop Hm].
  cbn [fs123_forget_multi_loop fold_left]. unfold mbind at 1, M_bind at 1, do_forget.
  destruct (is_special i) eqn:Es.
  - apply IH; [|done|done]. intros j Hj. specialize (Ha j Hj). unfold give_back. rewrite holds_insert.
    cbn [fst snd]. unfold is_special in Es. rewrite decide_False; [done|]. lia.
  - unfold on_begets, on_inos. destruct (ino_forget_ret i k (table s)) as [m' E]. cbn. rewrite E.
    apply IH; [|done|done]. cbn. replace m' with (ino_forget i k (table s)).2 by by rewrite E.
    apply agree_forget; [done|done|lia].
Qed.

(** ** The two sides together *)

Record ksys := KSys { held : gmap Z Z; client : st }.

(** A request the kernel would not make changes nothing; [None] is a callback
    whose behaviour is undefined or that does not end. *)
Definition ksys_step (r : request) (x : ksys) : option ksys :=
  if negb (may_forget (held x) (returned r)) then Some x else
  match handle_request cfg opts fuel r (client x) with
  | (Ret _, s') =>
      let h := fold_left give_back (returned r) (held x) in
      Some (KSys (fold_left take_entry (drop (length (sent (client x))) (sent s')) h) s')
  | _ => None
  end.
Fixpoint ksys_run (rs : list request) (x : ksys) : option ksys :=
  match rs with [] => Some x | r :: rs' => y ← ksys_step r x; ksys_run rs' y end.

Lemma agree_weaken n m h sh : n <= m -> agree n h sh -> agree m h sh.
Proof. intros Hnm Ha i Hi. specialize (Ha i Hi). destruct (count sh i); lia. Qed.

Lemma agree_grows n h (s s' : st) k :
  agree n h (shape (table s)) -> 0 <= n -> n + 1 < 2 ^ 30 ->
  sent s' = sent s ++ [k] -> grows (shape (table s)) (entries (sent s)) s' ->
  agree (n + 1) (take_entry h k) (shape (table s')).
Proof.
  intros Ha Hn0 Hn Hs Hg.
  assert (forall l, entries (sent s') = entries (sent s) ++ l -> entries [k] = l) as He.
  { intros l. rewrite Hs, entries_snoc. apply app_inv_head. }
  destruct Hg as [(l & E & Hl & Hsh)|(i & E & Hi & Ho)]; apply He in E; intros j Hj.
  - rewrite Hsh. specialize (Ha j Hj). assert (holds (take_entry h k) j = holds h j) as ->.
    { destruct k; try done. cbn in E |- *. destruct (Z.eqb_spec ino 0); [done|]. subst l.
      apply Forall_cons_1 in Hl as [Hl _]. rewrite holds_insert, decide_False; [done|lia]. }
    destruct (count _ j); lia.
  - destruct k; try done. cbn in E. injection E as ->. cbn. specialize (Ha j Hj).
    destruct (decide (i = j)) as [->|Hne].
    + unfold max_special_ino in Hj. rewrite (proj2 (Z.eqb_neq j 0)) by lia.
      rewrite Hi, holds_insert, decide_True by done.
      destruct (count _ j) as [c|]; cbn [from_option]; unfold id; rewrite swrap_small by lia; lia.
    + rewrite Ho by done. destruct (i =? 0); [destruct (count _ j); lia|].
      rewrite holds_insert, decide_False by done. destruct (count _ j); lia.
Qed.

Lemma agree_answered n l (x : ksys) s' k :
  agree n (held x) (shape (table (client x))) -> n + 1 < 2 ^ 30 -> may_forget (held x) l = true ->
  fs123_forget_multi l (client x) = (Ret tt, s') -> sent s' = sent (client x) ++ [k] ->
  agree (n + 1) (take_entry (fold_left give_back l (held x)) k) (shape (table s')).
Proof.
  intros Ha Hn Hm. pose proof (agree_forgets n l (held x) (client x) Ha ltac:(lia) Hm) as Hf.
  pose proof (quiet_forgets l (client x)) as Hq. pose proof (forgets_total l (client x)) as Ht.
  unfold fs123_forget_multi, mbind, M_bind. destruct (fs123_forget_multi_loop l (client x)) as [o s1].
  cbn in Ht, Hf. subst o. destruct Hq as (l0 & E & Hl%nil_length_inv). subst l0. rewrite app_nil_r in E.
  unfold reply, modify. intros [= <-]. cbn. rewrite E. intros [= <-]%app_inv_head.
  by apply (agree_weaken n); [lia|].
Qed.

(** A request that is never answered gives the kernel nothing. *)
Lemma agree_silent r n (x : ksys) s' :
  may_forget (held x) (returned r) = true -> handle_request cfg opts fuel r (client x) = (Ret tt, s') ->
  sent s' = sent (client x) ->
  agree n (held x) (shape (table (client x))) -> 0 <= n -> n + 1 < 2 ^ 30 ->
  agree (n + 1) (fold_left give_back (returned r) (held x)) (shape (table s')).
Proof.
  intros Hm E Hs Ha Hn0 Hn.
  assert (forall l, fs123_forget_multi l (client x) = (Ret tt, s') -> False) as Hf.
  { intros l Ef. pose proof (quiet_forgets l (client x)) as Hq. pose proof (forgets_total l (client x)) as Ht.
    unfold fs123_forget_multi, mbind, M_bind in Ef. destruct (fs123_forget_multi_loop l (client x)) as [o s1].
    cbn in Ht. subst o. destruct Hq as (l0 & E0 & Hl%nil_length_inv). subst l0.
    injection Ef as <-. cbn in Hs. rewrite E0, app_nil_r in Hs. apply (f_equal length) in Hs.
    rewrite length_app in Hs. cbn in Hs. lia. }
  destruct (lookup_or_forget r) eqn:El.
  - destruct r as [p nm| | | | | | | | | | | | | |i c|l]; try done; cbn [handle_request] in E.
    + cbn [returned fold_left]. pose proof (lookup_counts p nm (client x)) as H. rewrite E in H.
      destruct H as [(l & E2 & Hl & Hsh)|(i & E2 & _)].
      * rewrite Hsh. by apply (agree_weaken n); [lia|].
      * rewrite Hs in E2. apply (f_equal length) in E2. rewrite length_app in E2. cbn in E2. lia.
    + by destruct (Hf [(i, c)]).
    + by destruct (Hf l).
  - destruct (rests_request r El (shape (table (client x))) (entries (sent (client x))) (client x)) as [[H1 _] _]; [done|].
    rewrite E in H1. cbn [snd] in H1. rewrite H1.
    destruct r; try done; cbn [returned fold_left]; by apply (agree_weaken n); [lia|].
Qed.

Lemma agree_step r n (x y : ksys) :
  ksys_step r x = Some y -> agree n (held x) (shape (table (client x))) -> 0 <= n -> n + 1 < 2 ^ 30 ->
  agree (n + 1) (held y) (shape (table (client y))).
Proof.
  unfold ksys_step. destruct (may_forget (held x) (returned r)) eqn:Em; cbn [negb];
    [|intros [= <-] Ha ? ?; by apply (agree_weaken n); [lia|]].
  pose proof (request_answered cfg opts fuel r (client x)) as Hans.
  destruct (handle_request cfg opts fuel r (client x)) as [[[]|e|] s'] eqn:E; [|done..].
  destruct Hans as [[k Hs]|[Hs _]]; intros [= <-] Ha Hn0 Hn; cbn [held client].
  2: { rewrite Hs, drop_all. cbn [fold_left]. by apply (agree_silent r). }
  rewrite Hs, drop_app_length.
  cbn [fold_left].
  destruct (lookup_or_forget r) eqn:El.
  - destruct r as [p nm| | | | | | | | | | | | | |i c|l]; try done.
    + apply (agree_grows n _ (client x)); [done..|].
      pose proof (lookup_counts p nm (client x)) as H. cbn [handle_request] in E. by rewrite E in H.
    + by apply (agree_answered n [(i, c)] x).
    + by apply (agree_answered n l x).
  - destruct (rests_request r El (shape (table (client x))) (entries (sent (client x))) (client x)) as [[H1 H2] _]; [done|].
    rewrite E in H1, H2. cbn [snd] in H1, H2. rewrite H1. rewrite Hs, entries_snoc in H2.
    assert (take_entry (held x) k = held x) as Hk.
    { rewrite <- (app_nil_r (entries (sent (client x)))) in H2 at 2. apply app_inv_head in H2. by destruct k. }
    destruct r; try done; cbn [returned fold_left]; rewrite Hk; by apply (agree_weaken n); [lia|].
Qed.

Lemma agree_run rs n (x y : ksys) :
  ksys_run rs x = Some y -> agree n (held x) (shape (table (client x))) -> 0 <= n ->
  n + Z.of_nat (length rs) < 2 ^ 30 ->
  agree (n + Z.of_nat (length rs)) (held y) (shape (table (client y))).
Proof.
  revert n x. induction rs as [|r rs IH]; intros n x; cbn [ksys_run length].
  - intros [= ->] Ha ? ?. by rewrite Z.add_0_r.
  - destruct (ksys_step r x) as [z|] eqn:E; [|done]. cbn [mbind option_bind]. intros Hr Ha Hn0 Hn.
    replace (n + _) with (n + 1 + Z.of_nat (length rs)) by lia.
    apply (IH (n + 1) z); [done|by eapply agree_step; eauto; lia|lia|lia].
Qed.

Lemma agree_init dotdot : agree 0 ∅ (shape (inomap_init dotdot)).
Proof.
  intros i Hi. unfold max_special_ino in Hi. pose proof (remember_counts dotdot [] 1 (2 ^ 64 - 1) ∅) as H.
  unfold inomap_init. destruct (ino_remember dotdot [] 1 _ ∅) as [[]]; cbn in H |- *;
    [|by rewrite H..]. destruct H as [_ H]. rewrite H by lia. done.
Qed.

(** C13.  The kernel and the client agree on the inodes in use.  After any
    sequence of requests of a kernel that gives back no more than it was
    given, be they answered or refused, every inode the kernel holds is in
    the table with the kernel's count, and every inode it does not hold is
    gone from it: nothing the kernel may still ask about is missing and
    nothing is leaked. *)
Theorem table_matches_kernel rs dotdot (x y : ksys) i :
  ksys_run rs x = Some y -> held x = ∅ -> table (client x) = inomap_init dotdot ->
  Z.of_nat (length rs) < 2 ^ 30 -> max_special_ino < i ->
  match table (client y) !! i with
  | Some r => refcount r = holds (held y) i /\ 0 < holds (held y) i
  | None => holds (held y) i = 0
  end.
Proof.
  intros Hr Hh Ht Hl Hi. pose proof (agree_run rs 0 x y Hr) as Ha.
  rewrite Hh, Ht in Ha. specialize (Ha (agree_init dotdot) ltac:(lia) ltac:(lia) i Hi).
  unfold count in Ha. rewrite <- shape_lookup in Ha. destruct (table (client y) !! i); cbn in Ha; lia.
Qed.
End Callbacks.

(** ** A kernel at work *)

#[local] Instance wx_host : Host script := {
  geteuid _ := 0; getegid _ := 0; special_report _ w := (lit "epoch: 0", w);
  complaint_throws _ _ := false;
  direntry_size nm := 24 + zlen nm;
}.

Definition wx_opts : mount_opts := MountOpts (2 ^ 64 - 1) false 0 0 0 0 false false false.

Definition wx_client (w : script) : mst (W := script) (T := gmap Z begetattr_t) (L := gmap Z (expiring bytes)) :=
  Mst (wx_cst (inomap_init 5000) w) ofm_init (cache_ctor (K := Z) (V := bytes) 100) ∅ ∅ 1 0 [].

(** The file [f] of the root is looked up twice, the second time from the
    attribute cache, another name once, in vain, and a count is given back. *)
Definition wx_root_file : Z := genino 42 1 (lit "f").
Definition wx_requests : list request :=
  [R_lookup 1 (lit "f"); R_lookup 1 (lit "f"); R_lookup 1 (lit "g"); R_forget wx_root_file 1; R_forget 77 3].
Definition wx_script : script := Script 1500 [Ret (wx_attrs (lit "42")); Throw (EHttp 404)] [] [].

Abbreviation wx_run :=
  (ksys_run (SB := toy_box) wx_cfg wx_opts 13 wx_requests (KSys ∅ (wx_client wx_script))).

Lemma wx_run_checks :
  (fun y => (holds (held y) wx_root_file, refcount <$> inos (begets (client y)) !! wx_root_file,
             length (sent (client y)))) <$> wx_run
  = Some (1, Some 1, 4%nat).
Proof. vm_compute. reflexivity. Qed.

Lemma table_matches_kernel_witness : exists y, wx_run = Some y /\
  match inos (begets (client y)) !! wx_root_file with
  | Some r => refcount r = holds (held y) wx_root_file /\ 0 < holds (held y) wx_root_file
  | None => holds (held y) wx_root_file = 0
  end.
Proof.
  pose proof wx_run_checks as H. destruct wx_run as [y|] eqn:E; [|discriminate H].
  exists y. split; [reflexivity|].
  apply (table_matches_kernel (SB := toy_box) wx_cfg wx_opts 13 wx_requests 5000 _ y wx_root_file E);
    [reflexivity|reflexivity|vm_compute; reflexivity|vm_compute; reflexivity].
Defined.
