(* ===== verification/MountDir.v ===== *)
(** * Listing a directory of the mounted file system

    [fs123_readdir] (exe/fs123p7/app_mount.cpp) serves the kernel's requests
    for a buffer of entries from an offset on out of the chunks of text it
    gets from the backends; the offsets it hands out are positions in the
    concatenation of the chunks, and the state of an open directory remembers
    where each chunk seen so far starts.

    Theorem: over backends that serve the pages of a directory, a kernel that
    asks again and again from the offset of the last entry it got receives
    every entry exactly once and in order, whatever the sizes of the pages and
    of its buffer; and it may go back to any offset it was given. *)

From Stdlib Require Import Ascii String ZArith Lia.
From stdpp Require Import base gmap strings list numbers.
From S2P Require Import Prelude ScanInt StrUtils Threeroe SvTo Netstring PathUtils Expiring ContentCodec Backend.
From S2P Require Import ServerParse ServerReply ClientReply StatSer EstaleCookie Inomap Beget OpenFileMap MountOps MountRead.

#[local] Open Scope Z_scope.

(** ** The text of an entry *)

Record entry := Entry { en_name : bytes; en_type : Z; en_cookie : Z }.
Definition en_text (e : entry) : bytes := dirent_entry (en_name e) (en_type e) (en_cookie e).
Definition en_ok (e : entry) : Prop :=
  1 <= zlen (en_name e) <= 255 /\ ~ (NUL ∈ en_name e) /\ - 2 ^ 31 <= en_type e < 2 ^ 31 /\ 0 <= en_cookie e < 2 ^ 64.

#[export] Instance en_ok_dec e : Decision (en_ok e).
Proof. unfold en_ok. apply _. Defined.

Definition starts_black (l : bytes) : Prop := match l with [] => True | c :: _ => c ∉ white_set end.

Lemma svscan_null_ws pre ws rest :
  Forall (fun c => c ∈ white_set) ws -> starts_black rest -> zlen (pre ++ ws ++ rest) < npos ->
  svscan_null (pre ++ ws ++ rest) (zlen pre) = zlen (pre ++ ws).
Proof.
  intros Hws Hr. unfold svscan_null, first_not_in. rewrite zdrop_app by done. rewrite !zlen_app.
  generalize (zlen pre) (zlen_nonneg pre). induction Hws as [|c ws Hc Hws IH]; intros i Hi Hl.
  - rewrite (@zlen_nil ascii) in *. cbn [app]. destruct rest as [|c rest]; cbn [find_from].
    + rewrite Z.eqb_refl. cbn [negb]. by rewrite (@zlen_nil ascii).
    + rewrite bool_decide_eq_false_2 by exact Hr. cbn [negb]. rewrite zlen_cons in Hl.
      pose proof (zlen_nonneg rest). rewrite (proj2 (Z.eqb_neq i npos)) by lia. cbn [negb]. lia.
  - rewrite zlen_cons in *. cbn [app find_from]. rewrite bool_decide_eq_true_2 by done. cbn [negb].
    specialize (IH (i + 1) ltac:(lia) ltac:(lia)).
    replace (i + (1 + zlen ws + zlen rest)) with (i + 1 + (zlen ws + zlen rest)) by lia. rewrite IH. lia.
Qed.

Lemma starts_black_netstring l rest : starts_black (netstring l ++ rest).
Proof.
  destruct (netstring_head l) as (c & k & -> & Hc). cbn. intros Hin. unfold is_digit in Hc.
  unfold white_set in Hin. apply list_elem_of_In in Hin. cbn in Hin.
  repeat destruct Hin as [E|Hin]; try (apply (f_equal zc) in E; rewrite zc_chr in E by lia; lia). done.
Qed.

Lemma netstring_true pre l rest :
  zlen (pre ++ netstring l ++ rest) < npos ->
  svscan_netstring true (pre ++ netstring l ++ rest) (zlen pre) = Ret (l, zlen (pre ++ netstring l)).
Proof.
  intros Hl. pose proof (svscan_netstring_here pre l rest) as H.
  pose proof (svscan_null_ws pre [] (netstring l ++ rest) (Forall_nil _) (starts_black_netstring _ _) Hl) as Hw.
  rewrite app_nil_r in Hw. cbn [app] in Hw. revert H. unfold svscan_netstring. rewrite Hw. intros H. apply H.
  unfold npos in Hl. lia.
Qed.

Lemma parse_en pre e rest :
  en_ok e -> starts_black rest -> zlen (pre ++ en_text e ++ rest) < npos ->
  parse_dirent (pre ++ en_text e ++ rest) (zlen pre)
  = Ret (en_name e, dtype_to_mode (en_type e), en_cookie e, zlen (pre ++ en_text e)).
Proof.
  intros (Hn & _ & Ht & Hc) Hr Hl. unfold en_text, dirent_entry in *. unfold parse_dirent.
  set (nm := netstring (en_name e)) in *. set (ty := to_string (en_type e)) in *.
  set (ck := to_string (en_cookie e)) in *.
  assert (pre ++ (nm ++ lit " " ++ ty ++ lit " " ++ ck ++ [chr 10]) ++ rest
    = pre ++ nm ++ lit " " ++ ty ++ lit " " ++ ck ++ [chr 10] ++ rest) as E by by rewrite <- !app_assoc.
  rewrite E in *. clear E.
  pose proof (netstring_true pre (en_name e) (lit " " ++ ty ++ lit " " ++ ck ++ [chr 10] ++ rest)) as H0.
  fold nm in H0. rewrite H0 by done. clear H0. cbn [mbind outcome_bind].
  rewrite (proj2 (Z.ltb_ge 255 _)), (proj2 (Z.eqb_neq _ 0)) by lia.
  assert (forall c, c = chr 10 \/ c = " "%char -> stops_number (c :: ck ++ [chr 10] ++ rest) /\
     stops_number (c :: rest)) as Hstop 
    by (intros c [-> | ->]; split; split; try reflexivity; intros [H _]; vm_compute in H; by apply H).
  pose proof (svscan_to_string T_int (en_type e) (pre ++ nm) (lit " ") (lit " " ++ ck ++ [chr 10] ++ rest)) as H1.
  rewrite <- !app_assoc in H1. fold ty in H1. rewrite H1; clear H1;
    [|cbn; lia|unfold in_type; cbn; lia|by apply Hstop; right|repeat constructor]. cbn [mbind outcome_bind].
  pose proof (svscan_to_string T_u64 (en_cookie e) (pre ++ nm ++ lit " " ++ ty) (lit " ") ([chr 10] ++ rest)) as H2.
  rewrite <- !app_assoc in H2. fold ck in H2. rewrite H2; clear H2;
    [|cbn; lia|unfold in_type; cbn; lia|by apply Hstop; left|repeat constructor]. cbn [mbind outcome_bind].
  pose proof (svscan_null_ws (pre ++ nm ++ lit " " ++ ty ++ lit " " ++ ck) [chr 10] rest) as H3.
  rewrite <- !app_assoc in H3. rewrite H3; clear H3; [|repeat constructor|done|done].
  rewrite (proj2 (Z.eqb_neq _ _)) by (rewrite !zlen_app; change (zlen [chr 10]) with 1; lia).
  cbn [try_catch]. by rewrite <- ?app_assoc.
Qed.

(** ** Texts and positions *)

Definition texts (es : list entry) : bytes := mjoin (map en_text es).
Definition tlen (es : list entry) : Z := zlen (texts es).

Lemma texts_app a b : texts (a ++ b) = texts a ++ texts b.
Proof. unfold texts. by rewrite map_app, join_app. Qed.
Lemma tlen_app a b : tlen (a ++ b) = tlen a + tlen b.
Proof. unfold tlen. by rewrite texts_app, zlen_app. Qed.
Lemma tlen_nonneg es : 0 <= tlen es.
Proof. apply zlen_nonneg. Qed.
Lemma tlen_cons e es : tlen (e :: es) = zlen (en_text e) + tlen es.
Proof. unfold tlen. change (texts (e :: es)) with (en_text e ++ texts es). apply zlen_app. Qed.
Lemma en_text_pos e : 0 < zlen (en_text e).
Proof.
  unfold en_text, dirent_entry. rewrite !zlen_app. change (zlen [chr 10]) with 1.
  pose proof (zlen_nonneg (netstring (en_name e))). zlia.
Qed.
Lemma tlen_pos es : es <> [] -> 0 < tlen es.
Proof.
  destruct es as [|e es]; [done|]. intros _. rewrite tlen_cons. pose proof (en_text_pos e).
  pose proof (tlen_nonneg es). lia.
Qed.
Lemma starts_black_texts es : starts_black (texts es).
Proof.
  destruct es as [|e es]; [done|]. unfold texts. cbn [map]. change (mjoin (en_text e :: map en_text es))
    with (en_text e ++ texts es). unfold en_text, dirent_entry. rewrite <- app_assoc. apply starts_black_netstring.
Qed.

(** Where each page starts. *)
Definition before (pages : list (list entry)) (j : nat) : list entry := mjoin (take j pages).
Definition pos (pages : list (list entry)) (j : nat) : Z := tlen (before pages j).

Lemma before_S pages j p : pages !! j = Some p -> before pages (S j) = before pages j ++ p.
Proof. intros H. unfold before. rewrite (take_S_r _ _ _ H), join_app. cbn. by rewrite app_nil_r. Qed.
Lemma pos_S pages j p : pages !! j = Some p -> pos pages (S j) = pos pages j + tlen p.
Proof. intros H. unfold pos. by rewrite (before_S _ _ _ H), tlen_app. Qed.
Lemma pos_le pages i j : (i <= j)%nat -> pos pages i <= pos pages j.
Proof.
  induction 1 as [|j Hij IH]; [done|]. destruct (pages !! j) as [p|] eqn:E.
  - rewrite (pos_S _ _ _ E). pose proof (tlen_nonneg p). lia.
  - unfold pos, before. apply lookup_ge_None in E. rewrite (take_ge pages (S j)) by lia.
    unfold pos, before in IH. by rewrite (take_ge pages j) in IH by lia.
Qed.

(** Every page but the last one has an entry. *)
Definition pages_ok (pages : list (list entry)) : Prop :=
  forall j p, pages !! j = Some p -> (S j < length pages)%nat -> p <> [].

Lemma pos_lt pages i j : pages_ok pages -> (i < j)%nat -> (j < length pages)%nat -> pos pages i < pos pages j.
Proof.
  intros Hok Hij Hj. destruct (pages !! i) as [p|] eqn:E; [|apply lookup_ge_None in E; lia].
  pose proof (pos_S _ _ _ E). pose proof (tlen_pos p (Hok i p E ltac:(lia))). pose proof (pos_le pages (S i) j Hij). lia.
Qed.

(** The page an entry is on. *)
Lemma locate pages A b B :
  mjoin pages = A ++ b :: B ->
  exists p A' B', pages !! p = Some (A' ++ b :: B') /\ A = before pages p ++ A' /\ exists C, B = B' ++ C.
Proof.
  revert A. induction pages as [|q pages IH]; intros A; [by destruct A|].
  cbn [mjoin list_join]. intros E. destruct (decide (length q <= length A)%nat) as [Hl|Hl].
  - assert (q = take (length q) A) as Eq.
    { apply (f_equal (take (length q))) in E. rewrite take_app_length, take_app_le in E by done. done. }
    rewrite <- (take_drop (length q) A) in E. rewrite <- Eq, <- app_assoc in E. apply app_inv_head in E.
    destruct (IH _ E) as (p & A' & B' & H1 & H2 & H3). exists (S p), A', B'. split; [done|]. split; [|done].
    unfold before in *. cbn [take]. change (mjoin (q :: take p pages)) with (q ++ mjoin (take p pages)).
    rewrite <- app_assoc, <- H2. rewrite Eq at 1. by rewrite take_drop.
  - exists 0%nat, A. assert (A = take (length A) q) as EA.
    { apply (f_equal (take (length A))) in E. rewrite take_app_length, take_app_le in E by lia. done. }
    rewrite <- (take_drop (length A) q) in E at 1. rewrite <- EA, <- app_assoc in E. apply app_inv_head in E.
    destruct (drop (length A) q) as [|b' B'] eqn:Ed; [apply (f_equal length) in Ed; rewrite length_drop in Ed; cbn in Ed; lia|].
    cbn in E. injection E as <- E. exists B'. split; [|split; [done|by eexists]].
    cbn. f_equal. rewrite <- (take_drop (length A) q), <- EA, Ed. done.
Qed.

Lemma upper_bound_map (g : nat -> Z * bytes) a k p X :
  (a <= p < a + k)%nat -> (forall i, (a <= i <= p)%nat -> (g i).1 <= X) ->
  ((S p < a + k)%nat -> X < (g (S p)).1) ->
  upper_bound X (map g (seq a k)) = Z.of_nat (S p - a).
Proof.
  revert a. induction k as [|k IH]; intros a Hp Hle Hlt; [lia|]. cbn [seq map upper_bound].
  rewrite (proj2 (Z.ltb_ge _ _)) by (apply Hle; lia).
  destruct (decide (a = p)) as [->|Hne].
  - destruct k as [|k]; cbn [seq map upper_bound]; [lia|]. rewrite (proj2 (Z.ltb_lt _ _)) by (apply Hlt; lia). lia.
  - rewrite (IH (S a)); [lia|lia|intros; apply Hle; lia|intros; apply Hlt; lia].
Qed.

(** ** The entries the kernel should get *)

Section Dir.
Context {W T L : Type} {UW : Upstream W} {HW : Host W}.
Context {HU : UMap Z begetattr_t T} {HL : UMap Z (expiring bytes) L} `{SB : Secretbox}.
Context (cfg : mount_config) (opts : mount_opts) (fuel : nat) (K : W -> Prop).
Context (esc ino parent : Z) (fname : bytes) (iv : Z) (i0 : inomap).

Definition en_ids (e : entry) : Z * Z :=
  let '(i, mode) :=
    if bool_decide (en_name e = lit ".") then (ino, S_IFDIR)
    else if bool_decide (en_name e = lit "..") then (parent, S_IFDIR)
    else (0, dtype_to_mode (en_type e)) in
  (if i =? 0 then Z.land (genino (en_cookie e) ino (en_name e)) (st_ino_mask opts) else i, mode).

(** The entries of [es], the first of which is at offset [at_]: each with the
    offset of the next one. *)
Fixpoint dents (at_ : Z) (es : list entry) : list dirent :=
  match es with
  | [] => []
  | e :: es' =>
      let nxt := at_ + zlen (en_text e) in
      Dirent (en_name e) (en_ids e).1 (en_ids e).2 nxt :: dents nxt es'
  end.

Lemma dents_app at_ a b : dents at_ (a ++ b) = dents at_ a ++ dents (at_ + tlen a) b.
Proof.
  revert at_. induction a as [|e a IH]; intros at_; cbn [app dents].
  { change (tlen []) with 0. by rewrite Z.add_0_r. }
  rewrite IH, tlen_cons. cbn [app]. by rewrite Z.add_assoc.
Qed.
Lemma length_dents at_ es : length (dents at_ es) = length es.
Proof. revert at_. induction es as [|e es IH]; intros at_; cbn; [done|]. by rewrite IH. Qed.

(** How many fit a buffer. *)
Fixpoint fitting (room : Z) (es : list entry) : nat :=
  match es with
  | e :: es' => if room <? direntry_size (en_name e) then O
                else S (fitting (room - direntry_size (en_name e)) es')
  | [] => O
  end.

#[local] Abbreviation state := (mst (W := W) (T := T) (L := L)).
#[local] Abbreviation ready := (ready (T := T) K i0).

Context (Hparent : exists r, i0 !! ino = Some r /\ pino r = parent).

Lemma entry_ino_ids e (s : state) : ready (begets s) ->
  entry_ino opts ino (en_name e) (dtype_to_mode (en_type e)) (en_cookie e) s = (Ret (en_ids e), s).
Proof.
  intros [_ Hi]. destruct Hparent as (r & Hr & Hp). unfold entry_ino, en_ids.
  destruct (bool_decide (en_name e = lit ".")); [done|].
  destruct (bool_decide (en_name e = lit "..")); [|done].
  rewrite (M_bind_Ret _ _ s (parent, S_IFDIR) s); [done|]. rewrite (M_bind_Ret _ _ s parent s); [done|].
  unfold on_begets, on_inos, ino_to_pino, nested, try_M, inomap_at, mbind, M_bind, get. rewrite Hi, Hr. cbn.
  rewrite Hp. f_equal. unfold set_inos. rewrite <- Hi. destruct s as [[] ?]; done.
Qed.

Definition sizes_ok (bufsz : Z) (e : entry) : Prop := 0 < direntry_size (en_name e) <= bufsz.

Lemma loop_ok n (s : state) pre es cfbo bufsz used acc :
  ready (begets s) -> Forall en_ok es -> Forall (sizes_ok bufsz) es ->
  0 <= cfbo -> cfbo + zlen (pre ++ texts es) < 2 ^ 62 -> 0 <= bufsz - used < Z.of_nat n ->
  readdir_loop opts n ino (pre ++ texts es) cfbo (zlen pre) bufsz used acc s
  = (Ret (acc ++ take (fitting (bufsz - used) es) (dents (cfbo + zlen pre) es)), s).
Proof.
  intros Hr. revert pre es used acc. induction n as [|n IH]; intros pre es used acc Hok Hsz Hc Hl Hn; [lia|].
  cbn [readdir_loop]. destruct es as [|e es].
  { change (texts []) with (@nil ascii). rewrite !app_nil_r, Z.leb_refl. done. }
  inversion_clear Hok as [|? ? He Hes]. inversion_clear Hsz as [|? ? Hse Hss].
  change (texts (e :: es)) with (en_text e ++ texts es) in *. pose proof (en_text_pos e) as Hpos.
  pose proof (zlen_nonneg pre). pose proof (tlen_nonneg es) as Ht. unfold tlen in Ht.
  rewrite !zlen_app in Hl. rewrite (proj2 (Z.leb_gt _ _)) by (rewrite !zlen_app; lia).
  rewrite parse_en by (done || apply starts_black_texts || (rewrite !zlen_app; unfold npos; lia)).
  rewrite bind_lift. cbv beta iota. rewrite (M_bind_Ret _ _ _ _ _ (entry_ino_ids e s Hr)).
  destruct He as (_ & Hnul & _). rewrite (c_str_id _ Hnul).
  cbn [fitting dents]. destruct (en_ids e) as [i mode] eqn:Eids. cbn [fst snd].
  destruct Hse as [Hs0 Hs1]. destruct (Z.ltb_spec (bufsz - used) (direntry_size (en_name e))).
  { cbn [take]. by rewrite app_nil_r. }
  cbn [take]. replace (pre ++ en_text e ++ texts es) with ((pre ++ en_text e) ++ texts es) by by rewrite app_assoc.
  rewrite IH; [|done|done|done|rewrite !zlen_app; lia|lia].
  rewrite <- app_assoc. cbn [app]. rewrite zlen_app, wrap_small by lia.
  by rewrite Z.add_assoc, Z.sub_add_distr.
Qed.

(** ** Backends with a directory *)

Context (pages : list (list entry)) (start : nat -> bytes) (size : Z).
#[local] Abbreviation m := (length pages).
#[local] Abbreviation all := (mjoin pages).
#[local] Abbreviation bufsz := (Z.min size 4096).

(** Each page has a name, empty for the first one and for the one after the
    last, by which it is asked for. *)
Record serves_dir : Prop := {
  sd_clock w : K w -> K (clk_now w).2;
  sd_page j p : pages !! j = Some p ->
    answers_plainly cfg fuel K esc (dirreq (m_req cfg) fname (Fs123Chunk cfg) (start j))
      (fun dr => d_content dr = texts p /\ d_chunk_next_start dr = Ret (start (S j)));
  sd_start j : (j <= m)%nat -> start j = [] <-> j = 0%nat \/ j = m;
  sd_pages : pages_ok pages;
  sd_some : pages <> [];
  sd_entries : Forall en_ok all;
  sd_sizes : Forall (sizes_ok bufsz) all;
  sd_length : tlen all < 2 ^ 61;
}.

Context (Hserves : serves_dir) (Hmount : plain_mount cfg fuel) (Hfile : known_inode esc ino fname iv i0).

(** The state of the open directory when [nl] pages have been asked for. *)
Record dir_inv (nl : nat) (d : fh_state) : Prop := {
  di_loaded : (nl <= m)%nat;
  di_offsets : offsets d = map (fun j => (pos pages j, start j)) (seq 0 (S nl));
  di_eof : fs_eof d = bool_decide (nl = m);
  di_contents : fs_contents d = [] /\ contents_first_byte_offset d = 0
    \/ exists c p, (c < nl)%nat /\ pages !! c = Some p /\ fs_contents d = texts p
         /\ contents_first_byte_offset d = pos pages c;
}.

Lemma pos_all : pos pages m = tlen all.
Proof. unfold pos, before. by rewrite take_ge by done. Qed.
Lemma pos_bound j : 0 <= pos pages j < 2 ^ 61.
Proof.
  pose proof (sd_length Hserves). rewrite <- pos_all in *. split; [apply tlen_nonneg|].
  destruct (decide (j <= m)%nat); [pose proof (pos_le pages j m); lia|].
  assert (pos pages j = pos pages m) as -> by (unfold pos, before; by rewrite !take_ge by lia). done.
Qed.

Lemma begetchunk_dir_ok j p (c : cst (W := W) (T := T)) :
  ready c -> pages !! j = Some p ->
  exists dr c', begetchunk_dir cfg fuel ino (start j) c = (Ret dr, c') /\ ready c'
    /\ d_eno dr = 0 /\ d_content dr = texts p /\ d_chunk_next_start dr = Ret (start (S j)).
Proof.
  intros Hr Hp. unfold begetchunk_dir. rewrite (named_plain K esc ino fname iv i0 Hfile) by done.
  apply (beget_plain cfg fuel K esc ino fname iv i0 (sd_clock Hserves) Hmount Hfile _
    (fun dr => d_content dr = texts p /\ d_chunk_next_start dr = Ret (start (S j)))); [done|].
  by apply (sd_page Hserves).
Qed.

(** The page at hand. *)
Definition page_at (p : nat) (d : fh_state) (es : list entry) : Prop :=
  fs_contents d = texts es /\ contents_first_byte_offset d = pos pages p.

Lemma chunk_at_hand nl d p es X :
  dir_inv nl d -> pages !! p = Some es ->
  ((p < nl)%nat /\ pos pages p <= X < pos pages (S p)) \/ (p = nl /\ X = pos pages nl) ->
  (X <? contents_first_byte_offset d) || (u64 (contents_first_byte_offset d + zlen (fs_contents d)) <=? X) = false ->
  (p < nl)%nat /\ page_at p d es.
Proof.
  intros [Hnl Ho He Hc] Hp HX [H1%Z.ltb_ge H2%Z.leb_gt]%orb_false_elim.
  destruct Hc as [[Ec Ef]|(c & q & Hcn & Hq & Ec & Ef)].
  { rewrite Ec, Ef in H2. vm_compute (u64 _) in H2. lia. }
  rewrite Ec, Ef in H2. rewrite Ef in H1. fold (tlen q) in H2. rewrite <- (pos_S _ _ _ Hq) in H2.
  pose proof (pos_bound (S c)). rewrite wrap_small in H2 by lia.
  destruct HX as [[Hpn [H3 H4]]|[-> ->]]; [|pose proof (pos_le pages (S c) nl Hcn); lia].
  split; [done|].
  destruct (Nat.lt_trichotomy c p) as [Hlt|[->|Hlt]];
    [pose proof (pos_le pages (S c) p Hlt); lia| |pose proof (pos_le pages (S p) c Hlt); lia].
  rewrite Hp in Hq. injection Hq as <-. by split.
Qed.

Definition dir_ready (a : Z) (nl : nat) (d : fh_state) (s : state) : Prop :=
  ready (begets s) /\ dirs s !! a = Some d /\ dir_inv nl d.

Lemma offsets_at nl d p : dir_inv nl d -> (p <= nl)%nat ->
  zget (offsets d) (Z.of_nat p) = Some (pos pages p, start p) /\ zlen (offsets d) = Z.of_nat (S nl).
Proof.
  intros [_ Ho _ _] Hp. assert (zlen (offsets d) = Z.of_nat (S nl)) as El
    by (rewrite Ho; unfold zlen; by rewrite length_map, length_seq).
  split; [|done]. unfold zget. rewrite El. rewrite (proj2 (Z.leb_le _ _)), (proj2 (Z.ltb_lt _ _)) by lia. cbn [andb].
  rewrite Nat2Z.id, Ho, list_lookup_fmap, lookup_seq_lt by lia. done.
Qed.

Lemma chunk_asked nl d p X :
  dir_inv nl d -> ((p < nl)%nat /\ pos pages p <= X < pos pages (S p)) \/ (p = nl /\ X = pos pages nl) ->
  upper_bound X (offsets d) = Z.of_nat (S p).
Proof.
  intros [_ Ho _ _] HX. rewrite Ho. rewrite (upper_bound_map _ 0 (S nl) p X).
  - done.
  - lia.
  - intros i Hi. cbn [fst]. pose proof (pos_le pages i p ltac:(lia)). destruct HX as [[_ Hx]|[-> ->]]; lia.
  - intros Hs. cbn [fst]. destruct HX as [[_ Hx]|[-> _]]; lia.
Qed.

Lemma readdir_chunk_ok a nl d p es X (s : state) :
  dir_ready a nl d s -> pages !! p = Some es ->
  ((p < nl)%nat /\ pos pages p <= X < pos pages (S p)) \/ (p = nl /\ X = pos pages nl) ->
  exists d' s', readdir_chunk cfg fuel ino a d X s = (Ret (inr d'), s')
    /\ dir_ready a (Nat.max nl (S p)) d' s' /\ page_at p d' es /\ sent s' = sent s.
Proof.
  intros (Hr & Hd & Hi) Hp HX. unfold readdir_chunk. cbv zeta.
  destruct (_ || _) eqn:Eb.
  2: { destruct (chunk_at_hand nl d p es X Hi Hp HX Eb) as [Hpn Hat]. exists d, s.
       rewrite Nat.max_l by lia. by split_and!. }
  rewrite (chunk_asked nl d p X Hi HX). rewrite (proj2 (Z.ltb_lt _ _)) by lia. cbn [negb].
  replace (Z.of_nat (S p) - 1) with (Z.of_nat p) by lia.
  assert (p <= nl)%nat as Hpn by lia. destruct (offsets_at nl d p Hi Hpn) as [-> ->].
  destruct (begetchunk_dir_ok p es (begets s) Hr Hp) as (dr & c & E & Hr' & De & Dc & Dn).
  rewrite (M_bind_Ret _ _ _ _ _ (on_begets_ret _ _ _ _ E)), De. cbn [Z.eqb negb].
  assert (p < m)%nat as Hpm by (apply lookup_lt_Some in Hp; done).
  destruct Hi as [Hnl Ho He Hc].
  destruct (Z.eqb_spec (Z.of_nat (S p)) (Z.of_nat (S nl))) as [Ep|Ep].
  - assert (p = nl) as -> by lia. rewrite Dn. eexists _, _. split; [reflexivity|].
    rewrite Nat.max_r by lia. split; [|by split].
    split; [done|]. split; [cbn; apply lookup_insert_eq|].
    split; cbn [offsets fs_eof fs_contents contents_first_byte_offset].
    + lia.
    + rewrite Ho, (seq_S (S nl)), map_app. cbn [map Nat.add]. f_equal. f_equal. f_equal.
      rewrite Dc. fold (tlen es). rewrite <- (pos_S _ _ _ Hp). pose proof (pos_bound (S nl)). apply wrap_small. lia.
    + apply bool_decide_ext. rewrite (sd_start Hserves (S nl)) by lia. split; [intros [|]; lia|auto].
    + right. exists nl, es. by split_and!; [lia|..].
  - assert (p < nl)%nat by lia. eexists _, _. split; [reflexivity|].
    rewrite Nat.max_l by lia. split; [|by split].
    split; [done|]. split; [cbn; apply lookup_insert_eq|].
    split; cbn [offsets fs_eof fs_contents contents_first_byte_offset]; [done..|].
    right. exists p, es. by split_and!.
Qed.

(** *** One request *)

(** The page a position is on, or the next one to ask for. *)
Lemma page_of A B nl : all = A ++ B -> (nl <= m)%nat -> tlen A <= pos pages nl -> (B = [] -> (nl < m)%nat) ->
  exists p A' B1 C, pages !! p = Some (A' ++ B1) /\ B = B1 ++ C /\ tlen A = pos pages p + tlen A'
    /\ (B <> [] -> B1 <> [])
    /\ ((p < nl)%nat /\ pos pages p <= tlen A < pos pages (S p) \/ p = nl /\ tlen A = pos pages nl).
Proof.
  intros E Hnl HX Heof. destruct B as [|b B].
  - rewrite app_nil_r in E. subst A. specialize (Heof eq_refl).
    destruct (pages !! nl) as [es|] eqn:Hp; [|apply lookup_ge_None in Hp; lia].
    pose proof (pos_S _ _ _ Hp). pose proof (pos_le pages (S nl) m Heof). rewrite <- pos_all in *.
    pose proof (tlen_nonneg es). assert (es = []) as ->.
    { destruct es as [|e es]; [done|]. pose proof (tlen_pos (e :: es) ltac:(done)). lia. }
    exists nl, [], [], []. change (tlen []) with 0 in *. split_and!; [done|done|lia|done|]. right. split; [done|lia].
  - destruct (locate pages A b B E) as (p & A' & B' & Hp & EA & C & EB).
    exists p, A', (b :: B'), C. pose proof (pos_S _ _ _ Hp) as HS. rewrite tlen_app in HS.
    pose proof (tlen_pos (b :: B') ltac:(done)). pose proof (tlen_nonneg A').
    assert (tlen A = pos pages p + tlen A') as Et by (rewrite EA, tlen_app; done).
    split_and!; [done|by rewrite EB|done|done|].
    destruct (decide (p < nl)%nat); [left; split; [done|lia]|right].
    pose proof (pos_le pages nl p ltac:(lia)). assert (p < m)%nat by (apply lookup_lt_Some in Hp; done).
    destruct (decide (p = nl)) as [->|]; [split; [done|lia]|].
    pose proof (pos_lt pages nl p (sd_pages Hserves) ltac:(lia) ltac:(done)). lia.
Qed.

Lemma fitting_le room es : (fitting room es <= length es)%nat.
Proof. revert room. induction es as [|e es IH]; intros room; cbn; [done|]. case_match; [lia|]. specialize (IH (room - direntry_size (en_name e))). lia. Qed.

Lemma skip_none pre es : zlen (pre ++ texts es) < npos ->
  (if zlen pre <? zlen (pre ++ texts es) then svscan_null (pre ++ texts es) (zlen pre) else zlen pre) = zlen pre.
Proof.
  intros Hl. case_match; [|done].
  pose proof (svscan_null_ws pre [] (texts es) (Forall_nil _) (starts_black_texts es) Hl) as H1.
  by rewrite app_nil_r in H1.
Qed.

Lemma last_offset_inv nl d : dir_inv nl d -> last_offset d = Ret (pos pages nl).
Proof. intros [_ Ho _ _]. unfold last_offset. rewrite Ho, seq_S, map_app. cbn [map]. by rewrite last_snoc. Qed.

Lemma page_entries p es : pages !! p = Some es -> Forall en_ok es /\ Forall (sizes_ok bufsz) es.
Proof.
  intros Hp. pose proof (sd_entries Hserves) as H1. pose proof (sd_sizes Hserves) as H2.
  assert (all = mjoin (take p pages) ++ es ++ mjoin (drop (S p) pages)) as E.
  { rewrite <- (take_drop_middle _ _ _ Hp) at 1. by rewrite join_app. }
  rewrite E in H1, H2. apply Forall_app in H1 as [_ H1]. apply Forall_app in H2 as [_ H2].
  apply Forall_app in H1 as [H1 _]. apply Forall_app in H2 as [H2 _]. done.
Qed.

(** From the chunk to the reply. *)
Lemma readdir_page a nl d p A' B1 X (s : state) :
  dir_ready a nl d s -> pages !! p = Some (A' ++ B1) -> X = pos pages p + tlen A' -> 0 <= bufsz ->
  ((p < nl)%nat /\ pos pages p <= X < pos pages (S p)) \/ (p = nl /\ X = pos pages nl) ->
  exists d' s',
    (res ← readdir_chunk cfg fuel ino a d X;
     match res with
     | inl eno => reply (K_err eno)
     | inr st =>
         dir ← on_begets (on_inos (ino_to_fullname ino));
         let nextoff := u64 (X - contents_first_byte_offset st) in
         let svin := fs_contents st in
         let nextoff := if nextoff <? zlen svin then svscan_null svin nextoff else nextoff in
         acc ← readdir_loop opts (S (Z.to_nat bufsz)) ino svin (contents_first_byte_offset st) nextoff bufsz 0 [];
         reply (K_dir acc)
     end) s = (Ret tt, s')
    /\ dir_ready a (Nat.max nl (S p)) d' s'
    /\ sent s' = sent s ++ [K_dir (take (fitting bufsz B1) (dents X B1))].
Proof.
  intros Hd Hp EX Hb HX. destruct (readdir_chunk_ok a nl d p _ X s Hd Hp HX) as (d' & s' & E & Hd' & [Hc Hf] & Hs).
  rewrite (M_bind_Ret _ _ _ _ _ E). destruct Hd' as (Hr' & Hda & Hi').
  rewrite (M_bind_Ret _ _ s' fname s').
  2: { unfold on_begets. pose proof (named_plain K esc ino fname iv i0 Hfile (fun n => mret n) (begets s') Hr') as H.
       assert (on_inos (ino_to_fullname ino) (begets s') = (Ret fname, begets s')) as ->; [|by destruct s'].
       unfold on_inos. destruct Hr' as [_ Ei]. rewrite Ei, (kf_fullname _ _ _ _ _ Hfile). f_equal.
       unfold set_inos. rewrite <- Ei. by destruct (begets s'). }
  cbv zeta. rewrite Hc, Hf, EX. pose proof (pos_S _ _ _ Hp) as HS. rewrite tlen_app in HS.
  pose proof (pos_bound (S p)). pose proof (pos_bound p). pose proof (tlen_nonneg A'). pose proof (tlen_nonneg B1).
  replace (pos pages p + tlen A' - pos pages p) with (tlen A') by lia. rewrite wrap_small by lia.
  assert (zlen (texts A' ++ texts B1) = tlen A' + tlen B1) as El by (rewrite zlen_app; done).
  rewrite texts_app. change (tlen A') with (zlen (texts A')). rewrite skip_none by (unfold npos; lia).
  destruct (page_entries _ _ Hp) as [Hok Hsz]. apply Forall_app in Hok as [_ Hok]. apply Forall_app in Hsz as [_ Hsz].
  rewrite (M_bind_Ret _ _ _ _ _ (loop_ok (S (Z.to_nat bufsz)) s' (texts A') B1 (pos pages p) bufsz 0 []
    Hr' Hok Hsz ltac:(lia) ltac:(lia) ltac:(lia))).
  exists d'. destruct (reply_sends (K_dir ([] ++ take (fitting (bufsz - 0) B1) (dents (pos pages p + zlen (texts A')) B1))) s')
    as (s'' & E'' & Hs''). exists s''. split; [exact E''|].
  split; [injection E'' as <-; by split_and!|]. rewrite Hs'', Hs, Z.sub_0_r. done.
Qed.

Lemma readdir_call a nl d fi A B (s : state) :
  0 <= size -> dir_ready a nl d s -> a <> 0 -> fi_fh fi = a -> all = A ++ B -> tlen A <= pos pages nl ->
  exists f nl' d' s', fs123_readdir cfg opts fuel ino size (tlen A) (Some fi) s = (Ret tt, s')
    /\ dir_ready a nl' d' s' /\ sent s' = sent s ++ [K_dir (take f (dents (tlen A) B))]
    /\ (B <> [] -> (1 <= f)%nat) /\ (f <= length B)%nat /\ (nl <= nl')%nat /\ tlen (A ++ take f B) <= pos pages nl'.
Proof.
  intros Hsize Hd Ha Hfi Eall HX.
  cut (exists f nl' d' s', fs123_readdir_try cfg opts fuel ino size (tlen A) (Some fi) s = (Ret tt, s')
    /\ dir_ready a nl' d' s' /\ sent s' = sent s ++ [K_dir (take f (dents (tlen A) B))]
    /\ (B <> [] -> (1 <= f)%nat) /\ (f <= length B)%nat /\ (nl <= nl')%nat /\ tlen (A ++ take f B) <= pos pages nl').
  { intros (f & nl' & d' & s' & E & H). exists f, nl', d', s'. split; [|done].
    unfold fs123_readdir, caught, try_M. by rewrite E. }
  pose proof Hd as (Hr & Hda & Hi). pose proof (di_loaded _ _ Hi) as Hnl.
  pose proof (kf_high Hfile) as Hhigh. unfold max_special_ino in Hhigh. pose proof (tlen_nonneg A).
  unfold fs123_readdir_try. rewrite Hfi, (proj2 (Z.eqb_neq a 0)) by done.
  rewrite (M_bind_Ret _ _ s d s) by (unfold the_dir; by rewrite Hda).
  cbv zeta. rewrite (proj2 (Z.ltb_ge _ 0)), (proj2 (Z.eqb_neq ino 1)) by lia.
  rewrite (M_bind_Ret _ _ s ([], 0, true) s) by done. cbv beta iota. cbn [negb].
  assert (offsets d <> []) as Hne by (rewrite (di_offsets _ _ Hi); done).
  rewrite (M_bind_Ret _ _ s d s) by (by destruct (offsets d)).
  rewrite (last_offset_inv _ _ Hi), bind_lift. rewrite (proj2 (Z.ltb_ge _ _)) by lia.
  rewrite (di_eof _ _ Hi). destruct ((tlen A =? pos pages nl) && bool_decide (nl = m)) eqn:Eeof.
  { apply andb_prop in Eeof as [E1%Z.eqb_eq E2%bool_decide_eq_true]. subst nl. rewrite pos_all in E1.
    assert (B = []) as ->.
    { rewrite Eall, tlen_app in E1. destruct B as [|e B]; [done|]. pose proof (tlen_pos (e :: B) ltac:(done)). lia. }
    exists 0%nat, m, d, (set_sent (sent s ++ [K_dir []]) s). rewrite app_nil_r. by split_and!. }
  destruct (page_of A B nl Eall Hnl HX) as (p & A' & B1 & C & Hp & EB & Et & Hne1 & HXp).
  { intros ->. rewrite app_nil_r in Eall. destruct (decide (nl = m)) as [->|]; [|lia].
    rewrite pos_all, Eall, Z.eqb_refl, bool_decide_eq_true_2 in Eeof by done. done. }
  destruct (readdir_page a nl d p A' B1 (tlen A) s Hd Hp Et) as (d' & s' & E & Hd' & Hs); [lia|done|].
  pose proof (fitting_le bufsz B1) as Hf. exists (fitting bufsz B1), (Nat.max nl (S p)), d', s'.
  split; [exact E|]. split; [done|]. rewrite EB.
  rewrite dents_app, take_app_le by by rewrite length_dents. rewrite take_app_le by done.
  split; [done|]. split; [|split; [rewrite length_app; lia|split; [lia|]]].
  - rewrite <- EB. intros HB. destruct B1 as [|e B1]; [by destruct Hne1|].
    destruct (page_entries _ _ Hp) as [_ [_ Hsz]%Forall_app]. inversion_clear Hsz as [|? ? [_ Hse] _].
    cbn [fitting]. rewrite (proj2 (Z.ltb_ge _ _)) by lia. lia.
  - pose proof (pos_S _ _ _ Hp) as HS. rewrite tlen_app in HS |- *.
    pose proof (pos_le pages (S p) (Nat.max nl (S p)) ltac:(lia)).
    assert (tlen (take (fitting bufsz B1) B1) <= tlen B1); [|lia].
    pose proof (tlen_app (take (fitting bufsz B1) B1) (drop (fitting bufsz B1) B1)) as Ht. rewrite take_drop in Ht.
    pose proof (tlen_nonneg (drop (fitting bufsz B1) B1)). lia.
Qed.

(** ** The kernel's loop *)

(** Ask from an offset on, then from the offset of the last entry, until a
    reply is empty. *)
Fixpoint kernel_readdir (n : nat) (off : Z) (fi : fuse_file_info) (s : state) : option (list dirent * state) :=
  match n with
  | O => None
  | S n' =>
      let '(r, s') := fs123_readdir cfg opts fuel ino size off (Some fi) s in
      match r, list.last (sent s') with
      | Ret _, Some (K_dir l) =>
          match list.last l with
          | None => Some ([], s')
          | Some e => '(rest, s'') ← kernel_readdir n' (kd_off e) fi s'; Some (l ++ rest, s'')
          end
      | _, _ => None
      end
  end.

Lemma take_dents f at_ es : take f (dents at_ es) = dents at_ (take f es).
Proof. revert f at_. induction es as [|e es IH]; intros [|f] at_; [done..|]. cbn. by rewrite IH. Qed.
Lemma last_dents at_ es : es <> [] -> exists e, list.last (dents at_ es) = Some e /\ kd_off e = at_ + tlen es.
Proof.
  intros Hne. destruct es as [|b es _] using rev_ind; [done|]. rewrite dents_app, last_app, tlen_app. cbn.
  eexists. split; [done|]. cbn. rewrite (tlen_cons b []). change (tlen []) with 0. lia.
Qed.

Lemma kernel_from n a nl d fi A B (s : state) :
  0 <= size -> dir_ready a nl d s -> a <> 0 -> fi_fh fi = a -> all = A ++ B -> tlen A <= pos pages nl ->
  (length B < n)%nat ->
  exists nl' d' s', kernel_readdir n (tlen A) fi s = Some (dents (tlen A) B, s')
    /\ dir_ready a nl' d' s' /\ tlen all <= pos pages nl'.
Proof.
  intros Hsz. revert nl d A B s. induction n as [|n IH]; intros nl d A B s Hd Ha Hfi Eall HX Hn; [lia|].
  cbn [kernel_readdir]. destruct (readdir_call a nl d fi A B s Hsz Hd Ha Hfi Eall HX)
    as (f & nl' & d' & s' & E & Hd' & Hs & Hf1 & Hfl & Hnl & Hpos).
  rewrite E, Hs, last_snoc, take_dents. destruct (decide (B = [])) as [->|HB].
  { rewrite take_nil. cbn. exists nl', d', s'. rewrite Eall. rewrite take_nil in Hpos. by split_and!. }
  specialize (Hf1 HB). assert (take f B <> []) as Hne by (destruct B, f; try done; lia).
  destruct (last_dents (tlen A) (take f B) Hne) as (e & -> & ->). rewrite <- tlen_app.
  destruct (IH nl' d' (A ++ take f B) (drop f B) s') as (nl2 & d2 & s2 & E2 & Hd2 & Hp2); [done..| |done| |].
  - by rewrite <- app_assoc, take_drop.
  - rewrite length_drop. lia.
  - exists nl2, d2, s2. rewrite E2. cbn [mbind option_bind]. split; [|done].
    f_equal. f_equal. rewrite tlen_app, <- dents_app. by rewrite take_drop.
Qed.

Lemma dir_inv_ctor : dir_inv 0 fh_state_ctor.
Proof.
  pose proof (sd_some Hserves) as Hne. split; cbn; [lia| | |by left].
  - rewrite (proj2 (sd_start Hserves 0 ltac:(lia))) by by left. done.
  - symmetry. apply bool_decide_eq_false_2. by destruct pages.
Qed.

(** C1.  Every entry once and in order.  Over backends that serve the pages
    of a directory, a kernel that reads an open directory from the start, each
    time from the offset of the last entry of the last reply, until a reply is
    empty, gets exactly the entries of all the pages, in their order, with
    the inode numbers lookup would give them, in at most one request per
    entry and one more; and then from any offset it was given it gets the
    entries after that one again, pages asked for anew as need be. *)
Theorem readdir_lists_directory n a fi (s : state) :
  0 <= size -> ready (begets s) -> dirs s !! a = Some fh_state_ctor -> a <> 0 -> fi_fh fi = a ->
  (length all < n)%nat ->
  exists s', kernel_readdir n 0 fi s = Some (dents 0 all, s')
    /\ forall A B, all = A ++ B ->
         exists s'', kernel_readdir n (tlen A) fi s' = Some (dents (tlen A) B, s'').
Proof.
  intros Hsz Hr Hd Ha Hfi Hn.
  destruct (kernel_from n a 0 fh_state_ctor fi [] all s Hsz) as (nl & d' & s' & E & Hd' & Hp);
    [by split_and!; [..|apply dir_inv_ctor]|done..|].
  exists s'. split; [exact E|]. intros A B Eall.
  destruct (kernel_from n a nl d' fi A B s' Hsz Hd' Ha Hfi Eall) as (nl2 & d2 & s2 & E2 & _).
  - rewrite Eall, tlen_app in Hp. pose proof (tlen_nonneg B). lia.
  - rewrite Eall, length_app in Hn. lia.
  - by exists s2.
Qed.
End Dir.

(** ** A directory of two pages *)

Definition wx_pages : list (list entry) :=
  [[Entry (lit ".") 4 7; Entry (lit "..") 4 8; Entry (lit "f") 8 9]; [Entry (lit "5:hello,8 1") 8 10]].
Definition wx_start (j : nat) : bytes := match j with 1%nat => lit "77" | _ => [] end.
Definition wx_dir : Z := genino 42 1 (lit "d").
Definition wx_dir_inos : inomap := (run_ops run_op [Remember 1 (lit "d") wx_dir 5] (inomap_init 5000)).2.

Definition wx_page_reply (j : nat) : reply123 :=
  wx_reply [(FS123_REQUEST, lit "/fs123/7/3/d/d"); (FS123_COOKIE, lit "42"); (FS123_NEXTSTART, wx_start (S j))]
    (texts (default [] (wx_pages !! j))).

#[local] Instance wx_dir_upstream : Upstream nat := {
  be_refresh req reply w :=
    if bool_decide (urlstem req = urlstem (dirreq (m_req wx_cfg) (lit "/d") 128 []))
    then ((Ret tt, wx_page_reply 0), S w)
    else if bool_decide (urlstem req = urlstem (dirreq (m_req wx_cfg) (lit "/d") 128 (lit "77")))
    then ((Ret tt, wx_page_reply 1), S w)
    else ((Throw (EHttp 404), reply), S w);
  clk_now w := (1500, w);
  sleep_for d w := w;
  fresh_blob n w := ([], w);
  notify_inval_entry p n w := w;
  notify_inval_inode i w := w;
}.
#[local] Instance wx_dir_host : Host nat := {
  geteuid _ := 0; getegid _ := 0; special_report _ w := ([], w); direntry_size nm := 24 + zlen nm;
  complaint_throws _ _ := false }.

Definition page_check (j : nat) : bool :=
  match decoded_reply 13 (m_req wx_cfg) (wx_page_reply j) (content (wx_page_reply j))
          (urlstem (dirreq (m_req wx_cfg) (lit "/d") 128 (wx_start j))) with
  | Some (Ret dr) =>
      match d_estale_cookie dr, d_chunk_next_start dr with
      | Ret c, Ret ns => bool_decide (d_eno dr = 0 /\ c = 42
          /\ d_content dr = texts (default [] (wx_pages !! j)) /\ ns = wx_start (S j))
      | _, _ => false
      end
  | _ => false
  end.

Lemma wx_answers j p : wx_pages !! j = Some p ->
  answers_plainly wx_cfg 13 (fun _ => True) 42 (dirreq (m_req wx_cfg) (lit "/d") 128 (wx_start j))
    (fun dr => d_content dr = texts p /\ d_chunk_next_start dr = Ret (wx_start (S j))).
Proof.
  intros Hp w _. exists (wx_page_reply j), (S w).
  assert (page_check j = true) as Hc by (destruct j as [|[|j]]; [vm_compute; reflexivity..|discriminate Hp]).
  unfold page_check in Hc. rewrite Hp in Hc. cbn [default from_option id] in Hc.
  destruct (decoded_reply _ _ _ _ _) as [[dr|e|]|]; [|discriminate Hc..].
  destruct (d_estale_cookie dr) as [c|e|] eqn:E2; [|discriminate Hc..].
  destruct (d_chunk_next_start dr) as [ns|e|] eqn:E4; [|discriminate Hc..].
  apply bool_decide_eq_true in Hc as (H1 & -> & H3 & ->). exists dr.
  split; [destruct j as [|[|j]]; [vm_compute; reflexivity..|discriminate Hp]|].
  split; [done|]. split; [reflexivity|]. rewrite E2, E4. by split_and!.
Qed.

Lemma wx_serves_dir : serves_dir wx_cfg 13 (fun _ => True) 42 (lit "/d") wx_pages wx_start 60.
Proof.
  split; [done|exact wx_answers| | |done| | |vm_compute; reflexivity].
  - intros [|[|[|j]]] Hj; cbn in *; split; intros H; try done; lia || (destruct H; lia) || auto.
  - intros [|[|j]] p Hp Hj; cbn in *; simplify_eq; [done|lia].
  - apply (bool_decide_unpack _). vm_compute. exact I.
  - repeat constructor; vm_compute; congruence.
Qed.

Lemma wx_plain_dir : plain_mount wx_cfg 13.
Proof. split; try reflexivity; [by eexists|split; vm_compute; congruence|lia]. Qed.

Lemma wx_known_dir : known_inode 42 wx_dir (lit "/d") 5 wx_dir_inos.
Proof.
  split; [vm_compute; reflexivity| |vm_compute; reflexivity|lia].
  exists (set_refcount 1 (inorecord_ctor (lit "d") 1 5)). split; vm_compute; reflexivity.
Qed.

Lemma wx_parent : exists r, wx_dir_inos !! wx_dir = Some r /\ pino r = 1.
Proof. exists (set_refcount 1 (inorecord_ctor (lit "d") 1 5)). split; vm_compute; reflexivity. Qed.

Definition wx_dir_state : mst (W := nat) (T := gmap Z begetattr_t) (L := gmap Z (expiring bytes)) :=
  Mst (Cst wx_dir_inos (cache_ctor (K := Z) (V := attrcache_value_t) 100) None 0%nat) ofm_init
    (cache_ctor (K := Z) (V := bytes) 100) ∅ {[ 1 := fh_state_ctor ]} 2 1 [].
Definition wx_dir_opts : mount_opts := MountOpts (2 ^ 64 - 1) false 0 0 0 0 false false false.

(** A buffer of 60 bytes: two entries at most; a name that reads like an entry. *)
Lemma readdir_lists_directory_witness : exists s',
  kernel_readdir (SB := toy_box) wx_cfg wx_dir_opts 13 wx_dir 60 5 0 (FI 0 1 false false) wx_dir_state
  = Some (dents wx_dir_opts wx_dir 1 0 (mjoin wx_pages), s')
  /\ map kd_name (dents wx_dir_opts wx_dir 1 0 (mjoin wx_pages))
     = [lit "."; lit ".."; lit "f"; lit "5:hello,8 1"].
Proof.
  destruct (readdir_lists_directory (SB := toy_box) wx_cfg wx_dir_opts 13 (fun _ => True) 42 wx_dir 1 (lit "/d") 5
      wx_dir_inos wx_parent wx_pages wx_start 60 wx_serves_dir wx_plain_dir wx_known_dir 5 1 (FI 0 1 false false) wx_dir_state)
    as (s' & E & _); [lia|by split|reflexivity|lia|reflexivity|cbn; lia|].
  exists s'. split; [exact E|vm_compute; reflexivity].
Defined.
