(* ===== verification/MountIoctl.v ===== *)
(** * Options of a mounted file system changed at run time

    exe/fs123p7/app_mount.cpp ([fs123_ioctl]), volatiles.hpp, app_ctl.cpp and
    the codes of fs123_ioctl.hpp: the command [ctl] opens the special file
    [.fs123_ioctl] and sends it an ioctl per argument, and the client reads
    the argument as a value of the type of the option and stores it.  Numbers
    with a decimal point are a parameter, read by the C library's [strtof].
    Where the diagnostics and the log go, locking memory and waking the
    maintenance task are an interface; the messages logged are not modelled.

    Theorems: the options always hold values of their types; every callback,
    this one and those of MountOps, is answered once, but for the cases they
    name; and [ctl] changes the option whose name it is given, as the table
    [option_names] of the specification has them, to the value that was written,
    and no other. *)

From Stdlib Require Import Ascii String ZArith Lia.
From stdpp Require Import base gmap strings list numbers.
From S2P Require Import Prelude ScanInt StrUtils SvTo Netstring PathUtils Expiring ContentCodec Backend.
From S2P Require Import ServerParse ClientReply StatSer Inomap Beget OpenFileMap MountOps.

#[local] Open Scope Z_scope.

(** ** Numbers with a decimal point *)

(** [strtof]: the number, the characters it takes and whether [errno] was set
    to [EINVAL]. *)
Class Floats (F : Type) := {
  strtof : bytes -> F * Z * bool;
  strtof_takes s : 0 <= (strtof s).1.2 <= zlen s;
}.

Definition float_chars : bytes := lit "0123456789abcdefABCDEFxXpP.+-NnIiTtYy".

(** [svscan<float>] *)
Definition svscan_float {F} `{!Floats F} (sv : bytes) (start : Z) : outcome (F * Z) :=
  let beg := Z.min (first_not_in white_set sv start) (zlen sv) in
  let en := first_not_in float_chars sv beg in
  s ← substr sv beg (u64 (en - beg));
  let '(x, n, einval) := strtof (c_str s) in
  if einval : bool then Throw EInvalidArg else Ret (x, beg + n).

(** [svto<T>] for any [svscan<T>] *)
Definition svto_with {A} (scan : bytes -> Z -> outcome (A * Z)) (sv : bytes) : outcome A :=
  '(v, nxt) ← scan sv 0;
  if negb (nxt =? zlen sv) && negb (svscan_null sv nxt =? zlen sv) then Throw EInvalidArg else Ret v.

(** ** The options *)

(** The members of [volatiles_t] that an ioctl stores to. *)
Inductive volatile :=
| V_disconnected | V_connect_timeout | V_transfer_timeout | V_peer_connect_timeout
| V_peer_transfer_timeout | V_http_maxredirects | V_curl_handles_redirects | V_namecache
| V_load_timeout_factor | V_no_verify_peer | V_no_verify_host | V_so_rcvbuf
| V_retry_timeout | V_retry_initial_millis | V_retry_saturate | V_ignore_estale_mismatch
| V_maintenance_interval | V_mlockall | V_namecache_size
| V_evict_lwm | V_evict_target_fraction | V_evict_throttle_lwm | V_evict_period_minutes
| V_dc_maxmbytes | V_dc_maxfiles | V_multicast_timestamp_skew.
#[export] Instance volatile_eq_dec : EqDecision volatile.
Proof. solve_decision. Defined.

Inductive vtype := VT_bool | VT_int (t : itype) | VT_float.

Definition vtype_of (v : volatile) : vtype :=
  match v with
  | V_disconnected | V_curl_handles_redirects | V_namecache | V_no_verify_peer | V_no_verify_host
  | V_ignore_estale_mismatch | V_mlockall => VT_bool
  | V_connect_timeout | V_transfer_timeout | V_peer_connect_timeout | V_peer_transfer_timeout
  | V_http_maxredirects => VT_int T_i64
  | V_so_rcvbuf => VT_int T_int
  | V_retry_timeout | V_retry_initial_millis | V_retry_saturate | V_maintenance_interval
  | V_evict_period_minutes | V_multicast_timestamp_skew => VT_int T_u32
  | V_namecache_size | V_dc_maxmbytes | V_dc_maxfiles => VT_int T_u64
  | V_load_timeout_factor | V_evict_lwm | V_evict_target_fraction | V_evict_throttle_lwm => VT_float
  end.

Inductive value (F : Type) := VBool (b : bool) | VInt (z : Z) | VFloat (f : F).
Arguments VBool {_} _.
Arguments VInt {_} _.
Arguments VFloat {_} _.

(** [svto<decltype(volatiles->NAME.load())>] *)
Definition svto_value {F} `{!Floats F} (t : vtype) (text : bytes) : outcome (value F) :=
  match t with
  | VT_bool => b ← svto_with (scanint_b 0 true) text; Ret (VBool b)
  | VT_int t => z ← svto t text 0; Ret (VInt z)
  | VT_float => f ← svto_with svscan_float text; Ret (VFloat f)
  end.

(** ** The codes *)

Definition ioctl_data_size : Z := 257.
(** [_IOW(0, nr, fs123_ioctl_data)] *)
Definition IOW (nr : Z) : Z :=
  Z.lor (Z.shiftl 1 30) (Z.lor (Z.shiftl ioctl_data_size 16) nr).
Definition TCGETS : Z := 21505.  (* 0x5401 *)

Inductive ioc :=
| I_store (v : volatile)
| I_diag_names | I_diag_off | I_stale_if_error | I_past_stale_while_revalidate | I_cache_tag
| I_diag_destination | I_log_destination | I_log_max_hourly_rate | I_invalidate_inode.
#[export] Instance ioc_eq_dec : EqDecision ioc.
Proof. solve_decision. Defined.

Definition volatile_nr (v : volatile) : Z :=
  match v with
  | V_connect_timeout => 101 | V_transfer_timeout => 102 | V_disconnected => 106
  | V_retry_timeout => 107 | V_retry_initial_millis => 108 | V_retry_saturate => 109
  | V_ignore_estale_mismatch => 110 | V_http_maxredirects => 114 | V_load_timeout_factor => 117
  | V_evict_lwm => 118 | V_evict_target_fraction => 119 | V_evict_throttle_lwm => 120
  | V_evict_period_minutes => 121 | V_dc_maxmbytes => 122 | V_dc_maxfiles => 123 | V_namecache => 124
  | V_curl_handles_redirects => 128 | V_mlockall => 129 | V_maintenance_interval => 130
  | V_peer_connect_timeout => 131 | V_peer_transfer_timeout => 132 | V_no_verify_peer => 133
  | V_no_verify_host => 134 | V_so_rcvbuf => 135 | V_namecache_size => 136
  | V_multicast_timestamp_skew => 137
  end.

Definition ioc_nr (i : ioc) : Z :=
  match i with
  | I_store v => volatile_nr v
  | I_diag_names => 99 | I_diag_off => 98 | I_past_stale_while_revalidate => 104
  | I_stale_if_error => 105 | I_cache_tag => 111 | I_diag_destination => 113
  | I_log_max_hourly_rate => 115 | I_log_destination => 116 | I_invalidate_inode => 127
  end.
Definition ioc_code (i : ioc) : Z := IOW (ioc_nr i).

Definition all_volatiles : list volatile :=
  [V_disconnected; V_connect_timeout; V_transfer_timeout; V_peer_connect_timeout;
   V_peer_transfer_timeout; V_http_maxredirects; V_curl_handles_redirects; V_namecache;
   V_load_timeout_factor; V_no_verify_peer; V_no_verify_host; V_so_rcvbuf;
   V_retry_timeout; V_retry_initial_millis; V_retry_saturate; V_ignore_estale_mismatch;
   V_maintenance_interval; V_mlockall; V_namecache_size;
   V_evict_lwm; V_evict_target_fraction; V_evict_throttle_lwm; V_evict_period_minutes;
   V_dc_maxmbytes; V_dc_maxfiles; V_multicast_timestamp_skew].
Definition all_iocs : list ioc :=
  map I_store all_volatiles ++
  [I_diag_names; I_diag_off; I_stale_if_error; I_past_stale_while_revalidate; I_cache_tag;
   I_diag_destination; I_log_destination; I_log_max_hourly_rate; I_invalidate_inode].

(** The case of the [switch] that a command goes to. *)
Definition ioc_of (cmd : Z) : option ioc := List.find (fun i => ioc_code i =? cmd) all_iocs.

(** ** The client *)

(** Where diagnostics and complaints go, memory and the maintenance task. *)
Class CtlHost (W F : Type) := {
  set_diag_names : bytes -> bool -> W -> outcome unit * W;
  set_diag_destination : bytes -> W -> outcome unit * W;
  set_complaint_destination : bytes -> W -> outcome unit * W;
  complaint_delta_timestamps : bool -> W -> outcome unit * W;
  set_complaint_max_hourly_rate : F -> W -> outcome unit * W;
  (** [mlockall(MCL_FUTURE)] and [munlockall()]: their errno *)
  mlock_all : bool -> W -> Z * W;
  maintenance_trigger : W -> W;
}.

Definition EPERM : Z := 1.

Section Ioctl.
Context {W T L F : Type} {UW : Upstream W} {HW : Host W} {HF : Floats F} {HC : CtlHost W F}.

#[local] Abbreviation mount_state := (mst (W := W) (T := T) (L := L)).

Record ist := Ist {
  mount : mount_state;
  volatiles : volatile -> value F;
  default_stale_if_error : Z;
  default_past_stale_while_revalidate : Z;
  cachetag : Z;
  diag_destination : bytes;
  log_destination : bytes;
}.

Definition set_mount (m : mount_state) (s : ist) : ist :=
  Ist m (volatiles s) (default_stale_if_error s) (default_past_stale_while_revalidate s) (cachetag s)
    (diag_destination s) (log_destination s).
Definition set_volatile (v : volatile) (x : value F) (s : ist) : ist :=
  Ist (mount s) (fun v' => if decide (v' = v) then x else volatiles s v') (default_stale_if_error s)
    (default_past_stale_while_revalidate s) (cachetag s) (diag_destination s) (log_destination s).
Definition set_defaults (sie swr tag : Z) (s : ist) : ist :=
  Ist (mount s) (volatiles s) sie swr tag (diag_destination s) (log_destination s).
Definition set_destinations (d l : bytes) (s : ist) : ist :=
  Ist (mount s) (volatiles s) (default_stale_if_error s) (default_past_stale_while_revalidate s)
    (cachetag s) d l.

Definition on_mount {A} (f : M mount_state A) : M ist A := fun s =>
  let '(r, m) := f (mount s) in (r, set_mount m s).
Definition on_host {A} (f : W -> A * W) : M ist A := on_mount (on_begets (on_world f)).
Definition call_host (f : W -> outcome unit * W) : M ist unit := r ← on_host f; lift r.
Definition reply_ioctl (k : kreply) : M ist unit := on_mount (reply k).

(** The argument: [in_bufsz] and [rdo->buf], terminated, as a C string. *)
Definition ioctl_text (in_buf : bytes) : outcome bytes :=
  if negb (zlen in_buf =? ioctl_data_size) then Throw (ESystem EINVAL) else
  Ret (c_str (ztake (ioctl_data_size - 1) in_buf ++ [NUL])).

(** [VOLATILE_IOCTL] *)
Definition VOLATILE_IOCTL (v : volatile) (in_buf : bytes) : M ist unit :=
  text ← lift (ioctl_text in_buf);
  x ← lift (svto_value (vtype_of v) text);
  modify (set_volatile v x);;
  reply_ioctl (K_ioctl 0).

(** What follows the store. *)
Definition after_store (v : volatile) : M ist unit :=
  match v with
  | V_mlockall =>
      s ← get;
      match volatiles s V_mlockall with
      | VBool b =>
          eno ← on_host (mlock_all (F := F) b);
          if negb (eno =? 0) then raise (ESystem eno) else mret tt
      | _ => lift Undef
      end
  | V_maintenance_interval => on_host (fun w => (tt, maintenance_trigger (F := F) w))
  | _ => mret tt
  end.

Definition ioctl_case (i : ioc) (in_buf : bytes) : M ist unit :=
  match i with
  | I_store v => VOLATILE_IOCTL v in_buf;; after_store v
  | I_diag_names =>
      text ← lift (ioctl_text in_buf);
      call_host (set_diag_names (F := F) text false);;
      reply_ioctl (K_ioctl 0)
  | I_diag_off =>
      lift (ioctl_text in_buf);;
      call_host (set_diag_names (F := F) [] true);;
      reply_ioctl (K_ioctl 0)
  | I_stale_if_error =>
      text ← lift (ioctl_text in_buf);
      n ← lift (svto T_int text 0);
      modify (fun s => set_defaults n (default_past_stale_while_revalidate s) (cachetag s) s);;
      reply_ioctl (K_ioctl 0)
  | I_past_stale_while_revalidate =>
      text ← lift (ioctl_text in_buf);
      n ← lift (svto T_int text 0);
      modify (fun s => set_defaults (default_stale_if_error s) n (cachetag s) s);;
      reply_ioctl (K_ioctl 0)
  | I_cache_tag =>
      text ← lift (ioctl_text in_buf);
      n ← lift (svto T_u64 text 0);
      modify (fun s => set_defaults (default_stale_if_error s) (default_past_stale_while_revalidate s) n s);;
      reply_ioctl (K_ioctl 0)
  | I_diag_destination =>
      text ← lift (ioctl_text in_buf);
      modify (fun s => set_destinations text (log_destination s) s);;
      call_host (set_diag_destination (F := F) text);;
      reply_ioctl (K_ioctl 0)
  | I_log_destination =>
      text ← lift (ioctl_text in_buf);
      modify (fun s => set_destinations (diag_destination s) text s);;
      call_host (set_complaint_destination (F := F) text);;
      call_host (complaint_delta_timestamps (F := F) (negb (prefixb (lit "%syslog") text)));;
      reply_ioctl (K_ioctl 0)
  | I_log_max_hourly_rate =>
      text ← lift (ioctl_text in_buf);
      f ← lift (svto_with svscan_float text);
      call_host (set_complaint_max_hourly_rate f);;
      reply_ioctl (K_ioctl 0)
  | I_invalidate_inode =>
      text ← lift (ioctl_text in_buf);
      ino ← lift (svto T_u64 text 0);
      on_host (fun w => (tt, notify_inval_inode ino w));;
      reply_ioctl (K_ioctl 0)
  end.

Definition fs123_ioctl_try (ino cmd : Z) (in_buf : bytes) : M ist unit :=
  if negb (ino =? SPECIAL_INO_IOCTL) then reply_ioctl (K_err EPERM) else
  if u32 cmd =? TCGETS then reply_ioctl (K_err ENOSYS) else
  match ioc_of (u32 cmd) with
  | Some i => ioctl_case i in_buf
  | None => reply_ioctl (K_err ENOSYS)
  end.
Definition fs123_ioctl (ino cmd : Z) (in_buf : bytes) : M ist unit :=
  try_M (fs123_ioctl_try ino cmd in_buf) (fun e => on_mount (caught_reply e)).

(** ** All the callbacks *)

Context {HU : UMap Z begetattr_t T} {HL : UMap Z (expiring bytes) L} `{SB : Secretbox}.
Context (cfg : mount_config) (opts : mount_opts) (fuel : nat).

Inductive callback :=
| CB_request (r : request)
| CB_ioctl (ino cmd : Z) (in_buf : bytes).

Definition handle_callback (c : callback) : M ist unit :=
  match c with
  | CB_request r => on_mount (handle_request cfg opts fuel r)
  | CB_ioctl ino cmd in_buf => fs123_ioctl ino cmd in_buf
  end.
End Ioctl.

(** ** The command *)

Definition ctl_commands : list (bytes * ioc) :=
  [(lit "diagnames", I_diag_names); (lit "DiagNames", I_diag_names);
   (lit "diagoff", I_diag_off); (lit "DiagOff", I_diag_off);
   (lit "ConnectTimeout", I_store V_connect_timeout);
   (lit "TransferTimeout", I_store V_transfer_timeout);
   (lit "PeerConnectTimeout", I_store V_peer_connect_timeout);
   (lit "PeerTransferTimeout", I_store V_peer_transfer_timeout);
   (lit "LoadTimeoutFactor", I_store V_load_timeout_factor);
   (lit "NameCache", I_store V_namecache);
   (lit "NameCacheSize", I_store V_namecache_size);
   (lit "NoVerifyPeer", I_store V_no_verify_peer);
   (lit "NoVerifyHost", I_store V_no_verify_host);
   (lit "SO_RCVBUF", I_store V_so_rcvbuf);
   (lit "Mlockall", I_store V_mlockall);
   (lit "PastStaleWhileRevalidate", I_past_stale_while_revalidate);
   (lit "StaleIfError", I_stale_if_error);
   (lit "Disconnected", I_store V_disconnected);
   (lit "CacheTag", I_cache_tag);
   (lit "RetryTimeout", I_store V_retry_timeout);
   (lit "RetryInitialMillis", I_store V_retry_initial_millis);
   (lit "RetrySaturate", I_store V_retry_saturate);
   (lit "IgnoreEstaleMismatch", I_store V_ignore_estale_mismatch);
   (lit "DiagDestination", I_diag_destination);
   (lit "LogDestination", I_log_destination);
   (lit "HttpMaxRedirects", I_store V_http_maxredirects);
   (lit "CurlHandlesRedirects", I_store V_curl_handles_redirects);
   (lit "LogMaxHourlyRate", I_log_max_hourly_rate);
   (lit "EvictLwm", I_store V_evict_lwm);
   (lit "EvictTargetFraction", I_store V_evict_target_fraction);
   (lit "EvictThrottleLwm", I_store V_evict_throttle_lwm);
   (lit "EvictPeriodMinutes", I_store V_evict_period_minutes);
   (lit "CacheMaxMBytes", I_store V_dc_maxmbytes);
   (lit "CacheMaxFiles", I_store V_dc_maxfiles);
   (lit "InvalidateInode", I_invalidate_inode);
   (lit "MaintenanceInterval", I_store V_maintenance_interval);
   (lit "MulticastTimestampSkew", I_store V_multicast_timestamp_skew)].

Definition ctl_command (cmd : bytes) : option ioc :=
  snd <$> List.find (fun p => bool_decide (cmd = p.1)) ctl_commands.

(** The system calls of the command: their errno, or what they return; and
    what is on its stack. *)
Class CtlSys (X : Type) := {
  ctl_open : bytes -> X -> (Z + Z) * X;
  ctl_ioctl : Z -> Z -> bytes -> X -> Z * X;
  ctl_close : Z -> X -> X;
  ctl_stack : X -> bytes;
}.

Section Ctl.
Context {X : Type} {HX : CtlSys X}.

(** [strcpy(rdo.buf, key)] *)
Definition ctl_rdo (key stack : bytes) : bytes :=
  ztake ioctl_data_size (c_str key ++ NUL :: zdrop (zlen (c_str key) + 1) (ztake ioctl_data_size stack)).

Fixpoint ctl_keys (fd code : Z) (keys : list bytes) : M X unit :=
  match keys with
  | [] => mret tt
  | key :: keys =>
      if ioctl_data_size <=? zlen (c_str key) then raise (ESystem EINVAL) else
      s ← get;
      eno ← (fun s' => let '(e, s') := ctl_ioctl fd code (ctl_rdo key (ctl_stack s)) s' in (Ret e, s'));
      if negb (eno =? 0) then raise (ESystem eno) else
      ctl_keys fd code keys
  end.

Definition ctl_cmd (fd : Z) (args : list bytes) : M X Z :=
  match args with
  | [] => mret 1
  | cmd :: keys =>
      match ctl_command cmd with
      | None => mret 1
      | Some i => ctl_keys fd (ioc_code i) keys;; mret 0
      end
  end.

(** From [argv\[1\]] on: the exit status. *)
Definition app_ctl (args : list bytes) : M X Z :=
  match args with
  | [] => mret 1
  | name :: args =>
      if bool_decide (name = lit "-h") || bool_decide (name = lit "--help") then mret 0 else
      let name := if endswith name (lit "/.fs123_ioctl") then name else name ++ lit "/.fs123_ioctl" in
      try_M
        (r ← (fun s => let '(r, s) := ctl_open name s in (Ret r, s));
         match r with
         | inl eno => raise (ESystem eno)
         | inr fd => fun s =>
             let '(r, s) := ctl_cmd fd args s in (r, ctl_close fd s)
         end)
        (fun _ => mret 2)
  end.
End Ctl.

(** ** What an ioctl does *)

Lemma svto_with_defined {A} (scan : bytes -> Z -> outcome (A * Z)) sv :
  scan sv 0 <> Undef -> svto_with scan sv <> Undef.
Proof. intros H. apply bind_defined; [done|]. intros [v n] _. by case_match. Qed.

Section Floats.
Context {F : Type} {HF : Floats F}.

Lemma svscan_float_defined sv : svscan_float (F := F) sv 0 <> Undef.
Proof.
  unfold svscan_float. cbv zeta. apply bind_defined.
  - unfold substr. by case_match.
  - intros s _. destruct (strtof (c_str s)) as [[x n] []]; done.
Qed.

(** What does not read as a value is not a system error, and answered [EIO]. *)
Definition eio (e : exn) : Prop := caught_errno e = EIO.
Lemma bind_eio {A B} (m : outcome A) (k : A -> outcome B) e :
  (forall e, m = Throw e -> eio e) -> (forall a e, k a = Throw e -> eio e) -> (m ≫= k) = Throw e -> eio e.
Proof. intros Hm Hk. destruct m; cbn; [apply Hk|intros [= <-]; by apply Hm|done]. Qed.
Lemma rethrow_eio {A} (m : outcome A) e : _scanint_rethrow m = Throw e -> eio e.
Proof. destruct m; [done|by intros [= <-]|done]. Qed.

Lemma svto_value_eio t text e : svto_value (F := F) t text = Throw e -> eio e.
Proof.
  destruct t as [|t|]; cbn [svto_value]; apply bind_eio; try done;
    clear e; intros e; (apply bind_eio; [|intros [? ?] ?; case_match; [by intros [= <-]|done]]); clear e; intros e.
  - apply rethrow_eio.
  - unfold svscan. destruct (it_signed t); apply rethrow_eio.
  - unfold svscan_float. cbv zeta. apply bind_eio.
    + intros e'. unfold substr. case_match; [by intros [= <-]|done].
    + intros s e'. destruct (strtof (c_str s)) as [[x n] []]; [by intros [= <-]|done].
Qed.

Lemma svto_value_defined t text : svto_value (F := F) t text <> Undef.
Proof.
  destruct t; cbn [svto_value]; (apply bind_defined; [|done]).
  - apply svto_with_defined. by apply scanint_b_defined.
  - apply svto_defined.
  - apply svto_with_defined, svscan_float_defined.
Qed.
End Floats.

(** The values of a type. *)
Definition has_type {F} (t : vtype) (x : value F) : Prop :=
  match t, x with
  | VT_bool, VBool _ | VT_float, VFloat _ => True
  | VT_int t, VInt z => in_type t z
  | _, _ => False
  end.

Lemma vtype_width v : match vtype_of v with VT_int t => 1 <= it_width t | _ => True end.
Proof. destruct v; cbn; done || lia. Qed.

Lemma svto_value_type {F} `{!Floats F} v text (x : value F) :
  svto_value (vtype_of v) text = Ret x -> has_type (vtype_of v) x.
Proof.
  pose proof (vtype_width v) as Hw. destruct (vtype_of v); cbn [svto_value];
    intros (y & E & [= <-])%bind_Ret; cbn; try done. by eapply svto_range.
Qed.

Lemma ioc_of_code i : ioc_of (ioc_code i) = Some i.
Proof. destruct i as [[]| | | | | | | | |]; vm_compute; reflexivity. Qed.

Section IoctlLemmas.
Context {W T L F : Type} {UW : Upstream W} {HW : Host W} {HF : Floats F} {HC : CtlHost W F}.
#[local] Abbreviation ictl := (ist (W := W) (T := T) (L := L) (F := F)).
Implicit Type s : ictl.

(** The calls of the host may fail but are defined. *)
Class HostDefined : Prop := {
  hd_names n b w : (set_diag_names (W := W) (F := F) n b w).1 <> Undef;
  hd_diag d w : (set_diag_destination (W := W) (F := F) d w).1 <> Undef;
  hd_log d w : (set_complaint_destination (W := W) (F := F) d w).1 <> Undef;
  hd_delta b w : (complaint_delta_timestamps (W := W) (F := F) b w).1 <> Undef;
  hd_rate f w : (set_complaint_max_hourly_rate (W := W) (F := F) f w).1 <> Undef;
}.

Definition well_typed s : Prop :=
  (forall v, has_type (vtype_of v) (volatiles s v))
  /\ in_type T_int (default_stale_if_error s)
  /\ in_type T_int (default_past_stale_while_revalidate s)
  /\ in_type T_u64 (cachetag s).

Definition same_options s s' : Prop :=
  volatiles s' = volatiles s
  /\ default_stale_if_error s' = default_stale_if_error s
  /\ default_past_stale_while_revalidate s' = default_past_stale_while_revalidate s
  /\ cachetag s' = cachetag s.

(** No option differs, where the log and the diagnostics go included. *)
Definition unchanged s s' : Prop :=
  same_options s s' /\ diag_destination s' = diag_destination s /\ log_destination s' = log_destination s.

Definition replies s : list kreply := sent (mount s).
Definition world s : W := cworld (begets (mount s)).

(** Locking or unlocking memory would fail. *)
Definition mlock_fails s : Prop := exists lck, (mlock_all (F := F) lck (world s)).1 <> 0.

(** Nothing stored, nothing sent. *)
Definition calm s s' : Prop := same_options s s' /\ replies s' = replies s.

Lemma same_options_trans s1 s2 s3 : same_options s1 s2 -> same_options s2 s3 -> same_options s1 s3.
Proof.
  intros (H1 & H2 & H3 & H4) (K1 & K2 & K3 & K4). unfold same_options. by rewrite K1, K2, K3, K4.
Qed.
Lemma unchanged_refl s : unchanged s s.
Proof. done. Qed.
Lemma unchanged_trans s1 s2 s3 : unchanged s1 s2 -> unchanged s2 s3 -> unchanged s1 s3.
Proof.
  intros [H1 [H2 H3]] [K1 [K2 K3]]. split; [by eapply same_options_trans|]. by rewrite K2, K3.
Qed.
Lemma calm_refl s : calm s s.
Proof. done. Qed.
Lemma calm_trans s1 s2 s3 : calm s1 s2 -> calm s2 s3 -> calm s1 s3.
Proof.
  intros [(H1 & H2 & H3 & H4) H5] [(K1 & K2 & K3 & K4) K5]. unfold calm, same_options.
  by rewrite K1, K2, K3, K4, K5.
Qed.
Lemma calm_typed s s' : calm s s' -> well_typed s -> well_typed s'.
Proof. intros [(H1 & H2 & H3 & H4) _]. unfold well_typed. by rewrite H1, H2, H3, H4. Qed.

Lemma on_host_calm {A} (f : W -> A * W) s : exists a s', on_host f s = (Ret a, s') /\ calm s s'
  /\ a = (f (cworld (begets (mount s)))).1.
Proof.
  unfold on_host, on_mount, on_begets, on_world. destruct (f (cworld (begets (mount s)))) as [a w].
  by eexists _, _.
Qed.

Lemma set_mount_typed m s : well_typed s -> well_typed (set_mount m s).
Proof. done. Qed.
Lemma set_volatile_typed v x s : well_typed s -> has_type (vtype_of v) x -> well_typed (set_volatile v x s).
Proof.
  intros [Hv Hd] Hx. split; [|done]. intros v'. cbn [volatiles set_volatile].
  destruct (decide (v' = v)) as [->|]; auto.
Qed.

(** [good ml s r]: after [r] the options are typed; an answer was sent, or an
    error is thrown with nothing stored or sent, or [ml] and both. *)
Definition good (ml : Prop) s (r : outcome unit * ictl) : Prop :=
  match r with
  | (Ret _, s') => well_typed s' /\ replies s' = replies s ++ [K_ioctl 0]
  | (Throw _, s') => calm s s' \/ ml /\ well_typed s' /\ replies s' = replies s ++ [K_ioctl 0]
  | (Undef, _) => False
  end.

Lemma good_lift {A} ml s0 s (m : outcome A) k :
  calm s0 s -> m <> Undef -> (forall a, m = Ret a -> good ml s0 (k a s)) -> good ml s0 ((lift m ≫= k) s).
Proof.
  intros Hc Hd Hk. unfold lift, mbind, M_bind. destruct m as [a|e|]; [by apply Hk|by left|done].
Qed.

Lemma good_call ml s0 s f (k : unit -> M ictl unit) :
  calm s0 s -> (forall w, (f w).1 <> Undef) -> (forall s', calm s0 s' -> good ml s0 (k tt s')) ->
  good ml s0 ((call_host f ≫= k) s).
Proof.
  intros Hc Hd Hk. unfold call_host.
  destruct (on_host_calm f s) as (r & s' & E & Hs & ->). specialize (Hd (cworld (begets (mount s)))).
  unfold mbind, M_bind. unfold mbind, M_bind in E. rewrite E. unfold lift.
  pose proof (calm_trans _ _ _ Hc Hs). destruct ((f _).1) as [[]|e|]; [by apply Hk|by left|done].
Qed.

Lemma good_modify ml s0 s f (k : unit -> M ictl unit) :
  good ml s0 (k tt (f s)) -> good ml s0 ((modify f ≫= k) s).
Proof. done. Qed.

Lemma good_end ml s0 s : well_typed s -> replies s = replies s0 -> good ml s0 (reply_ioctl (K_ioctl 0) s).
Proof. intros Hw Hr. cbn. split; [by apply set_mount_typed|]. unfold replies in *. cbn. by rewrite Hr. Qed.


Lemma ioctl_text_defined b : ioctl_text b <> Undef.
Proof. unfold ioctl_text. by case_match. Qed.

(** The state once the kernel has its answer. *)
Definition answered s : ictl := (reply_ioctl (K_ioctl 0) s).2.

Lemma volatile_ioctl v b s :
  (exists e, VOLATILE_IOCTL v b s = (Throw e, s))
  \/ exists text x, ioctl_text b = Ret text /\ svto_value (vtype_of v) text = Ret x
       /\ VOLATILE_IOCTL v b s = (Ret tt, answered (set_volatile v x s)).
Proof.
  unfold VOLATILE_IOCTL. pose proof (ioctl_text_defined b).
  destruct (ioctl_text b) as [text|e|] eqn:Et; [|left; by exists e|done].
  pose proof (svto_value_defined (F := F) (vtype_of v) text).
  destruct (svto_value (vtype_of v) text) as [x|e|] eqn:Ex; [right|left; exists e|done].
  - exists text, x. do 2 (split; [done|]). unfold mbind, M_bind, lift. by rewrite Ex.
  - unfold mbind, M_bind, lift. by rewrite Ex.
Qed.

Lemma after_store_calm v s : v <> V_mlockall ->
  exists s', after_store v s = (Ret tt, s') /\ calm s s'.
Proof.
  intros Hv.
  destruct (on_host_calm (fun w => (tt, maintenance_trigger (F := F) w)) s) as ([] & s' & E & Hc & _).
  destruct v; try done; by eauto using calm_refl.
Qed.

Lemma after_store_mlockall b s : volatiles s V_mlockall = VBool b ->
  exists eno s', after_store V_mlockall s = (if negb (eno =? 0) then Throw (ESystem eno) else Ret tt, s')
    /\ calm s s' /\ eno = (mlock_all (F := F) b (cworld (begets (mount s)))).1.
Proof.
  intros Hb. destruct (on_host_calm (mlock_all (F := F) b) s) as (eno & s' & E & Hc & He).
  exists eno, s'. split; [|done]. cbn [after_store]. unfold mbind, M_bind, get. rewrite Hb.
  unfold mbind, M_bind in E. rewrite E. by case_match.
Qed.

Lemma store_good v b s : well_typed s -> good (v = V_mlockall /\ mlock_fails s) s (ioctl_case (I_store v) b s).
Proof.
  intros Hw. cbn [ioctl_case].
  destruct (volatile_ioctl v b s) as [[e E]|(text & x & Et & Ex & E)].
  { unfold mbind, M_bind. rewrite E. by left. }
  rewrite (M_bind_Ret _ _ _ _ _ E). apply svto_value_type in Ex.
  pose proof (set_volatile_typed v x s Hw Ex) as Hw'.
  assert (well_typed (answered (set_volatile v x s))) as Hw'' by done.
  destruct (decide (v = V_mlockall)) as [->|Hv].
  - destruct x as [lck| |]; [|done..].
    destruct (after_store_mlockall lck (answered (set_volatile V_mlockall (VBool lck) s)))
      as (eno & s' & E' & Hc & He); [done|]. rewrite E'. pose proof (calm_typed _ _ Hc Hw'').
    destruct Hc as [_ Hr]. change (cworld _) with (world s) in He. subst eno.
    destruct (Z.eqb_spec (mlock_all (F := F) lck (world s)).1 0) as [|Hm]; cbn [negb]; [by split|right].
    split; [split; [done|by exists lck]|]. by split.
  - destruct (after_store_calm v (answered (set_volatile v x s)) Hv) as (s' & E' & Hc). rewrite E'.
    pose proof (calm_typed _ _ Hc Hw''). destruct Hc as [_ Hr]. by split.
Qed.

Lemma set_defaults_typed sie swr tag s : well_typed s -> in_type T_int sie -> in_type T_int swr ->
  in_type T_u64 tag -> well_typed (set_defaults sie swr tag s).
Proof. by intros [Hv _]. Qed.

(** A case of the switch, a call at a time. *)
Ltac goods := repeat first
  [ apply good_lift;
      [done|first [apply ioctl_text_defined | apply svto_defined
                  | apply svto_with_defined, svscan_float_defined]|intros ? ?]
  | apply good_call; [done|intros; apply hd_names || apply hd_diag || apply hd_log || apply hd_delta || apply hd_rate|intros ? ?]
  | apply good_modify ].

Lemma ioctl_case_good i b s : HostDefined -> well_typed s ->
  good (i = I_store V_mlockall /\ mlock_fails s) s (ioctl_case i b s).
Proof.
  intros HD Hw. destruct i as [v| | | | | | | | |].
  { pose proof (store_good v b s Hw) as H. destruct (ioctl_case (I_store v) b s) as [[[]|e|] s']; cbn in *; [done| |done].
    destruct H as [H|((-> & Hm) & H)]; [by left|by right]. }
  all: cbn [ioctl_case]; goods.
  all: apply good_end.
  all: try (by eapply calm_typed).
  all: try (match goal with H : calm _ ?t |- replies ?t = _ => apply H end).
  all: try (destruct Hw as (Hv & H1 & H2 & H3); apply set_defaults_typed; try done; by eapply svto_range).
  all: done.
Qed.

Lemma ioctl_try_good ino cmd b s : HostDefined -> well_typed s ->
  match fs123_ioctl_try ino cmd b s with
  | (Ret _, s') => well_typed s'
      /\ (replies s' = replies s ++ [K_ioctl 0] /\ ino = SPECIAL_INO_IOCTL
          \/ exists e, replies s' = replies s ++ [K_err e] /\ same_options s s')
  | (Throw _, s') => calm s s'
      \/ (ino = SPECIAL_INO_IOCTL /\ u32 cmd = ioc_code (I_store V_mlockall) /\ mlock_fails s)
         /\ well_typed s' /\ replies s' = replies s ++ [K_ioctl 0]
  | (Undef, _) => False
  end.
Proof.
  intros HD Hw. unfold fs123_ioctl_try.
  assert (forall e, match reply_ioctl (K_err e) s with
    | (Ret _, s') => well_typed s' /\ (replies s' = replies s ++ [K_ioctl 0] /\ ino = SPECIAL_INO_IOCTL
                       \/ exists e, replies s' = replies s ++ [K_err e] /\ same_options s s')
    | _ => False end) as Herr.
  { intros e. split; [done|right]. by exists e. }
  destruct (ino =? SPECIAL_INO_IOCTL) eqn:Ei; cbn [negb]; [apply Z.eqb_eq in Ei|apply Herr].
  destruct (u32 cmd =? TCGETS); [apply Herr|].
  destruct (ioc_of (u32 cmd)) as [i|] eqn:E; [|apply Herr].
  apply List.find_some in E as [_ E%Z.eqb_eq]. pose proof (ioctl_case_good i b s HD Hw) as H.
  destruct (ioctl_case i b s) as [[[]|e|] s']; cbn in H; [|destruct H as [H|((-> & Hm) & H)]|done].
  - destruct H. split; [done|]. by left.
  - by left.
  - right. by rewrite E.
Qed.

Lemma caught_ioctl e s : exists s' l, on_mount (caught_reply e) s = (Ret tt, s')
  /\ replies s' = replies s ++ l /\ (well_typed s -> well_typed s') /\ unchanged s s'
  /\ l = (if complaint_throws e (world s) then [] else [K_err (caught_errno e)]) /\ world s' = world s.
Proof.
  unfold on_mount, caught_reply, mbind, M_bind, get, world.
  destruct (complaint_throws e (cworld (begets (mount s)))).
  - exists (set_mount (mount s) s), []. rewrite app_nil_r. by split_and!.
  - eexists _, [K_err (caught_errno e)]. by split_and!.
Qed.

(** What an ioctl sends: an answer; an error, or nothing where complaining of it
    throws, with nothing stored; or both when locking memory fails. *)
Definition ioctl_sends (ino cmd : Z) s s' (l : list kreply) : Prop :=
  (l = [K_ioctl 0] /\ ino = SPECIAL_INO_IOCTL)
  \/ ((exists e, l = [K_err e]) /\ same_options s s')
  \/ (l = [] /\ same_options s s' /\ exists e, complaint_throws e (world s') = true)
  \/ (exists e, l = [K_ioctl 0; K_err e] /\ ino = SPECIAL_INO_IOCTL
        /\ u32 cmd = ioc_code (I_store V_mlockall) /\ mlock_fails s).

Lemma ioctl_good ino cmd b s : HostDefined -> well_typed s ->
  exists s' l, fs123_ioctl ino cmd b s = (Ret tt, s') /\ replies s' = replies s ++ l /\ well_typed s'
    /\ ioctl_sends ino cmd s s' l.
Proof.
  intros HD Hw. pose proof (ioctl_try_good ino cmd b s HD Hw) as H. unfold fs123_ioctl, try_M, ioctl_sends.
  destruct (fs123_ioctl_try ino cmd b s) as [[[]|e|] s1]; [| |done].
  - destruct H as (Hw' & [(Hr & Hi)|(e & Hr & Ho)]); eexists s1, _; (split; [done|]); split_and!; try done; eauto 8.
  - destruct (caught_ioctl e s1) as (s' & l & -> & Hr' & Ht & Ho' & Hl & Hwd).
    destruct H as [Hc|((Hi & Hm & Hf) & Hw' & Hr)].
    + pose proof (Ht (calm_typed _ _ Hc Hw)). destruct Hc as [Ho Hr]. exists s', l. rewrite Hr', Hr.
      do 3 (split; [done|]). pose proof (same_options_trans _ _ _ Ho (proj1 Ho')).
      destruct (complaint_throws e (world s1)) eqn:E; subst l.
      * right. right. left. split; [done|]. split; [done|]. exists e. by rewrite Hwd.
      * right. left. eauto.
    + exists s', ([K_ioctl 0] ++ l). rewrite Hr', Hr, app_assoc. split; [done|]. split; [done|]. split; [by apply Ht|].
      destruct (complaint_throws e (world s1)); subst l; [by left|]. right. right. right. by eexists.
Qed.

(** Ioctls one after the other. *)
Fixpoint ioctl_run (l : list (Z * Z * bytes)) : M ictl unit :=
  match l with
  | [] => mret tt
  | (ino, cmd, b) :: l => fs123_ioctl ino cmd b;; ioctl_run l
  end.

(** The options are well typed at all times.  Whatever ioctls are made,
    with whatever commands and arguments, each one returns, no conversion or
    access has undefined behaviour, and every option holds a value of its C++
    type, inside its range. *)
Theorem options_typed l s : HostDefined -> well_typed s ->
  exists s', ioctl_run l s = (Ret tt, s') /\ well_typed s'.
Proof.
  intros HD. revert s. induction l as [|[[ino cmd] b] l IH]; intros s Hw; [by exists s|].
  destruct (ioctl_good ino cmd b s HD Hw) as (s1 & ? & E & _ & Hw1 & _). cbn [ioctl_run].
  rewrite (M_bind_Ret _ _ _ _ _ E). by apply IH.
Qed.

(** How an ioctl is answered.  An ioctl on the special file is answered
    with success once, or with an error when nothing was stored; on any other
    file it is answered with an error; where complaining of an error throws,
    it is not answered.  But for one case: when memory cannot be locked, or
    unlocked, after a successful answer, a second answer, the error, is sent
    for the same request. *)
Theorem ioctl_answers ino cmd b s : HostDefined -> well_typed s ->
  exists s' l, fs123_ioctl ino cmd b s = (Ret tt, s') /\ replies s' = replies s ++ l
    /\ ioctl_sends ino cmd s s' l
    /\ (forall text lck, ino = SPECIAL_INO_IOCTL -> u32 cmd = ioc_code (I_store V_mlockall) ->
        ioctl_text b = Ret text -> svto_value (F := F) VT_bool text = Ret (VBool lck) ->
        (mlock_all (F := F) lck (world s)).1 <> 0 -> (forall e w, complaint_throws e w = false) ->
        length l = 2%nat).
Proof.
  intros HD Hw. destruct (ioctl_good ino cmd b s HD Hw) as (s' & l & E & Hr & _ & Hl).
  exists s', l. split_and!; try done. intros text lck Hi Hc Ht Hx Hm Hct.
  enough (replies s' = replies s ++ [K_ioctl 0; K_err (caught_errno (ESystem (mlock_all (F := F) lck (world s)).1))])
    as Hr2 by (rewrite Hr in Hr2; apply app_inv_head in Hr2; by rewrite Hr2).
  assert (fs123_ioctl_try ino cmd b s = ioctl_case (I_store V_mlockall) b s) as Et
    by (unfold fs123_ioctl_try; by rewrite Hi, Hc).
  unfold fs123_ioctl, try_M in E. rewrite Et in E. cbn [ioctl_case] in E.
  destruct (volatile_ioctl V_mlockall b s) as [[e Ev]|(text' & x & Ht' & Hx' & Ev)].
  { unfold VOLATILE_IOCTL, mbind, M_bind, lift in Ev. rewrite Ht in Ev. cbn [vtype_of] in Ev. by rewrite Hx in Ev. }
  rewrite Ht in Ht'. injection Ht' as <-. cbn [vtype_of] in Hx'. rewrite Hx in Hx'. injection Hx' as <-.
  rewrite (M_bind_Ret _ _ _ _ _ Ev) in E.
  destruct (after_store_mlockall lck (answered (set_volatile V_mlockall (VBool lck) s)))
    as (eno & s2 & Ea & [_ Hr2] & He); [done|]. rewrite Ea in E.
  change (cworld _) with (world s) in He. subst eno. rewrite (proj2 (Z.eqb_neq _ _) Hm) in E. cbn [negb] in E.
  destruct (caught_ioctl (ESystem (mlock_all (F := F) lck (world s)).1) s2) as (s3 & l3 & E3 & Hr3 & _ & _ & Hl3 & _).
  rewrite E3 in E. injection E as <-. rewrite Hr3, Hl3, Hct, Hr2. unfold replies. cbn. by rewrite <- app_assoc.
Qed.

End IoctlLemmas.

(** ** From the command to the option *)

Lemma ioctl_text_rdo key stack : NUL ∉ key -> zlen key < ioctl_data_size -> zlen stack = ioctl_data_size ->
  ioctl_text (ctl_rdo key stack) = Ret key.
Proof.
  intros Hn Hk Hs. unfold ioctl_text, ctl_rdo. rewrite (c_str_id key Hn).
  pose proof (zlen_nonneg key). rewrite (ztake_all stack) by lia.
  set (rest := zdrop _ stack). assert (zlen rest = ioctl_data_size - (zlen key + 1)) as Hr
    by (unfold rest; rewrite zlen_zdrop by lia; lia).
  assert (zlen (key ++ NUL :: rest) = ioctl_data_size) as Hl by zlia.
  rewrite (ztake_all (key ++ _)) by lia. rewrite Hl, Z.eqb_refl. cbn [negb]. f_equal.
  set (n := ioctl_data_size - 1).
  assert (exists rest', ztake n (key ++ NUL :: rest) ++ [NUL] = key ++ NUL :: rest') as [rest' ->];
    [|by apply c_str_app].
  destruct (decide (zlen key = n)) as [E|].
  - exists []. by rewrite ztake_app.
  - exists (ztake (n - zlen key - 1) rest ++ [NUL]).
    assert (0 <= n - zlen key - 1) by (unfold n, ioctl_data_size in *; lia).
    rewrite <- (ztake_zdrop rest (n - zlen key - 1)) at 1 by done.
    rewrite app_comm_cons, app_assoc, ztake_app; [by rewrite <- app_assoc|].
    zlen_simpl. rewrite zlen_ztake by lia. unfold n in *. lia.
Qed.


Section CtlFuse.
Context {W T L F : Type} {UW : Upstream W} {HW : Host W} {HF : Floats F} {HC : CtlHost W F}.
#[local] Abbreviation ictl := (ist (W := W) (T := T) (L := L) (F := F)).
Context {HX : CtlSys ictl}.

(** The kernel between the two: it opens the special file of the mount,
    passes an ioctl on it to the client and returns the answer. *)
Definition ioctl_errno (l : list kreply) : Z :=
  match l with K_err e :: _ => e | _ => 0 end.
Record through_fuse (path : bytes) (fd : Z) : Prop := {
  tf_open (s : ictl) : ctl_open path s = (inr fd, s);
  tf_ioctl cmd b (s : ictl) :
    let s' := (fs123_ioctl SPECIAL_INO_IOCTL cmd b s).2 in
    ctl_ioctl fd cmd b s = (ioctl_errno (drop (length (replies s)) (replies s')), s');
  tf_close (s : ictl) : ctl_close fd s = s;
  tf_stack (s : ictl) : zlen (ctl_stack s) = ioctl_data_size;
}.

Lemma ioc_code_case i b (s : ictl) :
  fs123_ioctl_try SPECIAL_INO_IOCTL (ioc_code i) b s = ioctl_case i b s.
Proof.
  unfold fs123_ioctl_try. rewrite Z.eqb_refl. cbn [negb].
  assert (u32 (ioc_code i) = ioc_code i /\ (ioc_code i =? TCGETS) = false) as [-> ->]
    by (destruct i as [[]| | | | | | | | |]; split; vm_compute; reflexivity).
  by rewrite ioc_of_code.
Qed.

(** *** The options and their names

    What [ctl] is documented to change, by the names the options have on the
    client's command line. *)
Inductive setting := S_volatile (v : volatile) | S_stale_if_error | S_past_stale_while_revalidate | S_cache_tag.

Definition option_names : list (bytes * setting) :=
  [(lit "Disconnected", S_volatile V_disconnected);
   (lit "StaleIfError", S_stale_if_error);
   (lit "PastStaleWhileRevalidate", S_past_stale_while_revalidate);
   (lit "CacheTag", S_cache_tag);
   (lit "NameCache", S_volatile V_namecache);
   (lit "NameCacheSize", S_volatile V_namecache_size);
   (lit "IgnoreEstaleMismatch", S_volatile V_ignore_estale_mismatch);
   (lit "RetryTimeout", S_volatile V_retry_timeout);
   (lit "RetryInitialMillis", S_volatile V_retry_initial_millis);
   (lit "RetrySaturate", S_volatile V_retry_saturate);
   (lit "ConnectTimeout", S_volatile V_connect_timeout);
   (lit "TransferTimeout", S_volatile V_transfer_timeout);
   (lit "PeerConnectTimeout", S_volatile V_peer_connect_timeout);
   (lit "PeerTransferTimeout", S_volatile V_peer_transfer_timeout);
   (lit "LoadTimeoutFactor", S_volatile V_load_timeout_factor);
   (lit "HttpMaxRedirects", S_volatile V_http_maxredirects);
   (lit "CurlHandlesRedirects", S_volatile V_curl_handles_redirects);
   (lit "NoVerifyPeer", S_volatile V_no_verify_peer);
   (lit "NoVerifyHost", S_volatile V_no_verify_host);
   (lit "SO_RCVBUF", S_volatile V_so_rcvbuf);
   (lit "CacheMaxMBytes", S_volatile V_dc_maxmbytes);
   (lit "CacheMaxFiles", S_volatile V_dc_maxfiles);
   (lit "EvictLwm", S_volatile V_evict_lwm);
   (lit "EvictTargetFraction", S_volatile V_evict_target_fraction);
   (lit "EvictThrottleLwm", S_volatile V_evict_throttle_lwm);
   (lit "EvictPeriodMinutes", S_volatile V_evict_period_minutes);
   (lit "MaintenanceInterval", S_volatile V_maintenance_interval);
   (lit "Mlockall", S_volatile V_mlockall);
   (lit "MulticastTimestampSkew", S_volatile V_multicast_timestamp_skew)].

Definition setting_type (o : setting) : vtype :=
  match o with
  | S_volatile v => vtype_of v
  | S_stale_if_error | S_past_stale_while_revalidate => VT_int T_int
  | S_cache_tag => VT_int T_u64
  end.

(** The client with one option changed. *)
Definition set_setting (o : setting) (x : value F) (s : ictl) : ictl :=
  match o, x with
  | S_volatile v, x => set_volatile v x s
  | S_stale_if_error, VInt n => set_defaults n (default_past_stale_while_revalidate s) (cachetag s) s
  | S_past_stale_while_revalidate, VInt n => set_defaults (default_stale_if_error s) n (cachetag s) s
  | S_cache_tag, VInt n =>
      set_defaults (default_stale_if_error s) (default_past_stale_while_revalidate s) n s
  | _, _ => s
  end.

Definition setting_ioc (o : setting) : ioc :=
  match o with
  | S_volatile v => I_store v
  | S_stale_if_error => I_stale_if_error
  | S_past_stale_while_revalidate => I_past_stale_while_revalidate
  | S_cache_tag => I_cache_tag
  end.

Lemma option_command cmd o : In (cmd, o) option_names -> ctl_command cmd = Some (setting_ioc o).
Proof.
  unfold option_names. intros H. repeat (destruct H as [[= <- <-]|H]; [vm_compute; reflexivity|]). destruct H.
Qed.

(** What follows a store: nothing, or an error, and no option changes. *)
Lemma after_store_unchanged v x (s : ictl) : has_type (vtype_of v) x -> volatiles s v = x ->
  exists o s', after_store v s = (o, s') /\ o <> Undef /\ unchanged s s' /\ replies s' = replies s
    /\ (v <> V_mlockall -> o = Ret tt).
Proof.
  intros Hx Hv. destruct (decide (v = V_mlockall)) as [->|Hn].
  - destruct x as [b| |]; try done. destruct (after_store_mlockall b s Hv) as (eno & s' & E & [Ho Hr] & _).
    eexists _, s'. split; [exact E|]. split; [by case_match|]. split; [|done]. split; [done|].
    revert E. cbn [after_store]. unfold mbind, M_bind, get. rewrite Hv.
    unfold on_host, on_mount, on_begets, on_world. destruct (mlock_all b _) as [n w]. cbn. by case_match; intros [= _ <-].
  - destruct v; try done; try (by exists (Ret tt), s).
    unfold after_store, on_host, on_mount, on_begets, on_world. by eexists (Ret tt), _.
Qed.

(** Those that are not among the volatiles. *)
Ltac store_default Ht He Hbad Hgood :=
  cbn [svto_value mbind outcome_bind] in *; unfold mbind, M_bind, lift; rewrite Ht; cbn [mbind outcome_bind] in *;
  match goal with |- context [svto ?t ?k 0] => destruct (svto t k 0) as [n|e|] eqn:Ex end;
    cbn [mbind outcome_bind] in *;
    [by apply Hgood|apply Hbad; [by apply He|apply unchanged_refl|done]|done].

(** One ioctl on an option: the kernel's answer and the option. *)
Lemma ctl_store o key b (s : ictl) :
  (forall e w, complaint_throws (W := W) e w = false) -> ioctl_text b = Ret key ->
  exists s' l, (fs123_ioctl SPECIAL_INO_IOCTL (ioc_code (setting_ioc o)) b s) = (Ret tt, s')
    /\ replies s' = replies s ++ l
    /\ match svto_value (setting_type o) key with
       | Ret x => ioctl_errno l = 0 /\ unchanged (set_setting o x s) s'
       | _ => ioctl_errno l = EIO /\ unchanged s s'
       end.
Proof.
  intros Hct Ht. unfold fs123_ioctl, try_M. rewrite ioc_code_case.
  pose proof (svto_value_defined (F := F) (setting_type o) key) as Hd.
  pose proof (svto_value_eio (F := F) (setting_type o) key) as He.
  assert (forall e s1, caught_errno e = EIO -> unchanged s s1 -> replies s1 = replies s ->
    exists s' l, on_mount (caught_reply e) s1 = (Ret tt, s') /\ replies s' = replies s ++ l
      /\ ioctl_errno l = EIO /\ unchanged s s') as Hbad.
  { intros e s1 Hee Hu Hr. unfold on_mount, caught_reply, mbind, M_bind, get. rewrite Hct.
    eexists _, [K_err EIO]. rewrite Hee. split; [reflexivity|]. unfold replies in *. cbn. by rewrite Hr. }
  assert (forall s1 : ictl, replies s1 = replies s -> exists s' l, reply_ioctl (K_ioctl 0) s1 = (Ret tt, s')
    /\ replies s' = replies s ++ l /\ ioctl_errno l = 0 /\ unchanged s1 s') as Hgood.
  { intros s1 Hr. eexists _, [K_ioctl 0]. split; [reflexivity|]. unfold replies in *. cbn. by rewrite Hr. }
  destruct o as [v| | |]; cbn [setting_ioc ioctl_case setting_type set_setting] in *.
  - assert (VOLATILE_IOCTL v b s = match svto_value (vtype_of v) key with
      | Ret x => (Ret tt, answered (set_volatile v x s)) | Throw e => (Throw e, s) | Undef => (Undef, s) end) as E.
    { unfold VOLATILE_IOCTL, mbind, M_bind, lift. rewrite Ht. by case_match. }
    unfold mbind, M_bind. rewrite E. destruct (svto_value (vtype_of v) key) as [x|e|] eqn:Ex; [|apply Hbad; [by apply He|apply unchanged_refl|done]|done].
    destruct (after_store_unchanged v x (answered (set_volatile v x s))) as (o & s1 & -> & Hno & Hu & Hr & _);
      [by eapply svto_value_type|cbn; by rewrite decide_True|].
    destruct o as [[]|e|]; [|destruct (caught_ioctl e s1) as (s2 & l & E2 & Hr2 & _ & Ho2 & _ & _)|done].
    + exists s1, [K_ioctl 0]. split; [done|]. split; [by rewrite Hr|]. split; [done|exact Hu].
    + exists s2, ([K_ioctl 0] ++ l). split; [exact E2|]. split; [rewrite Hr2, Hr; by rewrite app_assoc|].
      split; [done|]. by apply (unchanged_trans _ _ _ Hu Ho2).
  - store_default Ht He Hbad Hgood.
  - store_default Ht He Hbad Hgood.
  - store_default Ht He Hbad Hgood.
Qed.

(** C35.  The command does what it says.  [ctl] on the mount point, or on the
    special file itself, where the kernel passes what it does there to the
    client and complaining does not throw, with the name of one of the options of
    [option_names] and the text of a value (with no NUL and of less than 257
    bytes): if the text reads as a value of the type of the
    option, the command ends with status 0 and the client has that value for
    the option of that name, every other option, where the log and the
    diagnostics go included, being as before; if not, it ends with status 2 and
    no option has changed.  (When memory then cannot be locked, Mlockall is
    set and the command still ends with status 0: the first answer is the one
    that counts.)  Not covered are the commands that set no such option:
    DiagNames, DiagOff, LogMaxHourlyRate, InvalidateInode, and DiagDestination
    and LogDestination, which store the name first and may fail after. *)
Theorem ctl_sets_option path fd name cmd o key (s : ictl) :
  through_fuse path fd ->
  path = (if endswith name (lit "/.fs123_ioctl") then name else name ++ lit "/.fs123_ioctl") ->
  name <> lit "-h" -> name <> lit "--help" ->
  In (cmd, o) option_names -> NUL ∉ key -> zlen key < ioctl_data_size ->
  (forall e w, complaint_throws (W := W) e w = false) ->
  exists s', match svto_value (setting_type o) key with
    | Ret x => app_ctl [name; cmd; key] s = (Ret 0, s') /\ unchanged (set_setting o x s) s'
    | _ => app_ctl [name; cmd; key] s = (Ret 2, s') /\ unchanged s s'
    end.
Proof.
  intros Hf Hp H1 H2 Hc%option_command Hn Hk Hct. pose proof Hf as [Ho Hi Hcl Hst]. specialize (Ho s).
  destruct (ctl_store o key (ctl_rdo key (ctl_stack s)) s Hct) as (s' & l & E & Hr & H); [by apply ioctl_text_rdo|].
  specialize (Hi (ioc_code (setting_ioc o)) (ctl_rdo key (ctl_stack s)) s).
  rewrite E in Hi. cbn [snd] in Hi. rewrite Hr, drop_app_length in Hi.
  assert (app_ctl [name; cmd; key] s = (Ret (if ioctl_errno l =? 0 then 0 else 2), s')) as ->.
  { unfold app_ctl. rewrite bool_decide_eq_false_2, bool_decide_eq_false_2 by done. cbn [orb]. rewrite <- Hp.
    unfold try_M, mbind, M_bind. rewrite Ho. unfold ctl_cmd. rewrite Hc. cbn [ctl_keys].
    rewrite (c_str_id key Hn), (proj2 (Z.leb_gt _ _)) by done.
    unfold mbind, M_bind, get. rewrite Hi. destruct (ioctl_errno l =? 0); cbn; by rewrite Hcl. }
  exists s'. destruct (svto_value (setting_type o) key); by destruct H as [-> H].
Qed.
End CtlFuse.

(** ** A mount whose memory cannot be locked *)

Fixpoint wx_digits (s : bytes) : bytes :=
  match s with
  | c :: s => if (48 <=? zc c) && (zc c <=? 57) then c :: wx_digits s else []
  | [] => []
  end.
Lemma wx_digits_takes s : 0 <= zlen (wx_digits s) <= zlen s.
Proof. split; [apply zlen_nonneg|]. induction s as [|c s IH]; cbn; [done|]. case_match; zlia. Qed.
(** Numbers without a fraction. *)
#[local] Instance wx_floats : Floats Z := {
  strtof s := (dec_value (wx_digits s) 0, zlen (wx_digits s), false);
  strtof_takes := wx_digits_takes;
}.
#[local] Instance wx_ctl_host : CtlHost nat Z := {
  set_diag_names _ _ w := (Ret tt, w);
  set_diag_destination _ w := (Ret tt, w);
  set_complaint_destination _ w := (Throw (ESystem ENOENT), w);
  complaint_delta_timestamps _ w := (Ret tt, w);
  set_complaint_max_hourly_rate _ w := (Ret tt, w);
  mlock_all b w := (if b then 12 else 0, w);
  maintenance_trigger w := S w;
}.
#[local] Instance wx_ioctl_upstream : Upstream nat := {
  be_refresh req reply w := ((Throw ERuntime, reply), w);
  clk_now w := (Z.of_nat w, S w);
  sleep_for _ w := w;
  fresh_blob n w := (replicate (Z.to_nat n) NUL, w);
  notify_inval_entry _ _ w := w;
  notify_inval_inode _ w := w;
}.
#[local] Instance wx_ioctl_host : Host nat := {
  geteuid _ := 0; getegid _ := 0; special_report _ w := ([], w); direntry_size nm := 24 + zlen nm;
  complaint_throws _ _ := false;
}.
Lemma wx_host_defined : HostDefined (W := nat) (F := Z).
Proof. by split. Qed.

Definition wx_volatiles (v : volatile) : value Z :=
  match vtype_of v with VT_bool => VBool false | VT_int _ => VInt 20 | VT_float => VFloat 1 end.
Definition wx_ist : ist (W := nat) (T := gmap Z begetattr_t) (L := gmap Z (expiring bytes)) (F := Z) :=
  Ist (Mst (Cst (inomap_init 5000) (cache_ctor (K := Z) (V := attrcache_value_t) 100) None 0%nat) ofm_init
         (cache_ctor (K := Z) (V := bytes) 100) ∅ ∅ 1 0 [])
    wx_volatiles 100 0 0 [] [].
Lemma wx_ist_typed : well_typed wx_ist.
Proof. split; [by intros []|by split_and!]. Qed.

Definition wx_buf (text : bytes) : bytes := ctl_rdo text (replicate 257 "?"%char).
Definition wx_ioctls : list (Z * Z * bytes) :=
  [(3, ioc_code (I_store V_connect_timeout), wx_buf (lit " 7"));
   (3, ioc_code (I_store V_mlockall), wx_buf (lit "true"));
   (3, ioc_code (I_store V_so_rcvbuf), wx_buf (lit "99999999999"));
   (7, ioc_code (I_store V_namecache), wx_buf (lit "1"));
   (3, ioc_code I_log_destination, wx_buf (lit "/nowhere"))].
Example wx_ioctl_replies :
  replies (ioctl_run wx_ioctls wx_ist).2
  = [K_ioctl 0; K_ioctl 0; K_err 12; K_err EIO; K_err EPERM; K_err ENOENT].
Proof. vm_compute. reflexivity. Qed.

(** An empty text reads as zero where a number with a decimal point is wanted,
    and [DiagOff] without an argument sends nothing. *)
Example wx_empty_float : svto_value (F := Z) VT_float [] = Ret (VFloat 0).
Proof. reflexivity. Qed.

Lemma options_typed_witness :
  exists s', ioctl_run wx_ioctls wx_ist = (Ret tt, s') /\ well_typed s'.
Proof. apply (options_typed wx_ioctls wx_ist wx_host_defined wx_ist_typed). Defined.

(** Locking fails: a success, then an error, for one request. *)
Lemma ioctl_answers_witness :
  exists s' l, fs123_ioctl 3 (ioc_code (I_store V_mlockall)) (wx_buf (lit "1")) wx_ist = (Ret tt, s')
    /\ replies s' = l /\ length l = 2%nat.
Proof.
  destruct (ioctl_answers 3 (ioc_code (I_store V_mlockall)) (wx_buf (lit "1")) wx_ist wx_host_defined wx_ist_typed)
    as (s' & l & E & Hr & _ & H2).
  exists s', l. split; [exact E|]. split; [exact Hr|].
  apply (H2 (lit "1") true); [reflexivity|vm_compute; reflexivity..|vm_compute; discriminate|reflexivity].
Defined.

Definition wx_mount_opts : mount_opts := MountOpts (2 ^ 64 - 1) false 0 0 0 0 false false false.

Definition wx_lock : callback := CB_ioctl 3 (ioc_code (I_store V_mlockall)) (wx_buf (lit "1")).


Definition wx_mnt : bytes := lit "/mnt/.fs123_ioctl".
#[local] Instance wx_ctl_sys : CtlSys (ist (W := nat) (T := gmap Z begetattr_t) (L := gmap Z (expiring bytes)) (F := Z)) := {
  ctl_open p s := (if bool_decide (p = wx_mnt) then inr 3 else inl ENOENT, s);
  ctl_ioctl fd cmd b s :=
    let s' := (fs123_ioctl SPECIAL_INO_IOCTL cmd b s).2 in
    (ioctl_errno (drop (length (replies s)) (replies s')), s');
  ctl_close _ s := s;
  ctl_stack _ := replicate 257 "?"%char;
}.
Lemma wx_through_fuse : through_fuse (W := nat) (T := gmap Z begetattr_t) (L := gmap Z (expiring bytes)) (F := Z) wx_mnt 3.
Proof. by split. Qed.

Example wx_diagoff : app_ctl [lit "/mnt"; lit "DiagOff"] wx_ist = (Ret 0, wx_ist).
Proof. reflexivity. Qed.

(** [LogDestination] stores the name, then fails. *)
Example wx_logdest :
  let r := app_ctl [lit "/mnt"; lit "LogDestination"; lit "/nowhere"] wx_ist in
  r.1 = Ret 2 /\ log_destination r.2 = lit "/nowhere".
Proof. vm_compute. by split. Qed.

Lemma ctl_sets_option_witness :
  exists s', app_ctl [lit "/mnt"; lit "CacheMaxFiles"; lit "5000"] wx_ist = (Ret 0, s')
    /\ unchanged (set_setting (S_volatile V_dc_maxfiles) (VInt 5000) wx_ist) s'.
Proof.
  apply (ctl_sets_option wx_mnt 3 (lit "/mnt") (lit "CacheMaxFiles") (S_volatile V_dc_maxfiles) (lit "5000") wx_ist wx_through_fuse);
    [reflexivity|discriminate|discriminate|cbn; tauto|apply (bool_decide_unpack _); vm_compute; exact I|reflexivity|reflexivity].
Defined.
