(* ===== verification/BackendHttp.v ===== *)
(** * The HTTP backend (exe/fs123p7/backend123_http.{hpp,cpp})

    How the client asks a server, or a peer, over HTTP: the pieces of a base
    url, the headers of a request, the callbacks libcurl delivers a response
    to, following redirects, falling back to other base urls, and reading the
    headers of a response back into a [reply123].

    libcurl is the class [Libcurl]: what it does with a request is a function
    of that request and of those before it.  Its answer has the headers and
    the pieces of the body it delivers, its result code, the HTTP status, the
    errno of a failed system call, and the url of a redirect it did not follow
    itself.  Setting an option is taken to succeed.  The lookups of the
    address cache, which hands out addresses in dotted-decimal, are a parameter.
    Not modelled: the statistics, the size content is reserved for, and the
    options whose values are floating-point computations or flags for libcurl
    (timeouts, netrc, TLS verification, buffer sizes).

    Theorems: the pieces of a url reassemble it; a cache-control header is
    searched as its words are; a server's reply is read back.  HttpRefresh has
    those on [refresh]. *)

From Stdlib Require Import Ascii String ZArith Lia.
From stdpp Require Import base gmap strings list numbers.
From S2P Require Import Prelude.
From S2P Require Import ScanInt.
From S2P Require Import StrUtils.
From S2P Require Import Threeroe.
From S2P Require Import SvTo.
From S2P Require Import Netstring.
From S2P Require Import ContentCodec.
From S2P Require Import Expiring.
From S2P Require Import Backend.
From S2P Require Import ServerParse.
From S2P Require Import Envelope.
From S2P Require Import ServerReply.

#[local] Open Scope Z_scope.

(** ** Definitions *)

(** [std::tolower] in the C locale *)
Definition tolower (c : ascii) : ascii :=
  if (65 <=? zc c) && (zc c <=? 90) then chr (zc c + 32) else c.

(** The longest prefix without a character of [set], and the rest. *)
Fixpoint span_not (set : bytes) (l : bytes) : bytes * bytes :=
  match l with
  | c :: l' =>
      if bool_decide (c ∈ set) then ([], l)
      else let '(a, b) := span_not set l' in (c :: a, b)
  | [] => ([], [])
  end.

(** *** Urls *)

Record url_info := UrlInfo {
  original : bytes;
  before_hostname : bytes;
  hostname : bytes;
  after_hostname : bytes;
  do_not_lookup : bool
}.

(** The groups 1, 4 and 5 of [^((\[^:/?#\]+):)?(//(\[^/?#:\]* ))?(.* )]: an
    unmatched group is empty, and the dot stops at a line's end. *)
Definition url_scheme (url : bytes) : bytes * bytes :=
  match span_not (lit ":/?#") url with
  | (x :: sch, c :: rest) =>
      if bool_decide (c = ":"%char) then ((x :: sch) ++ lit ":", rest) else ([], url)
  | _ => ([], url)
  end.
Definition urlre (url : bytes) : bytes * bytes * bytes :=
  let '(m1, rest) := url_scheme url in
  let '(m4, rest) :=
    if prefixb (lit "//") rest then span_not (lit "/?#:") (zdrop 2 rest) else ([], rest) in
  (m1, m4, (span_not [chr 10; chr 13] rest).1).

(** One to three digits, and the rest. *)
Definition quad_part (l : bytes) : option bytes :=
  let '(ds, rest) := span_digits l in
  if (1 <=? zlen ds) && (zlen ds <=? 3) then Some rest else None.
Definition quad_dot (l : bytes) : option bytes :=
  match l with c :: l' => if bool_decide (c = "."%char) then Some l' else None | [] => None end.

(** [std::regex_match(hostname, dotted_quadre)] *)
Definition dotted_quad (l : bytes) : bool :=
  match
    l ← quad_part l; l ← quad_dot l; l ← quad_part l; l ← quad_dot l;
    l ← quad_part l; l ← quad_dot l; quad_part l
  with Some [] => true | _ => false end.

Definition url_info_ctor (url : bytes) : url_info :=
  let '(m1, m4, m5) := urlre url in
  if bool_decide (m1 = []) || bool_decide (m4 = []) then UrlInfo url [] [] [] true
  else UrlInfo url (m1 ++ lit "//") m4 m5 (dotted_quad m4).

(** *** libcurl *)

Definition CURLE_COULDNT_CONNECT : Z := 7.
Definition CURLE_WRITE_ERROR : Z := 23.
Definition CURLE_OPERATION_TIMEDOUT : Z := 28.
Definition CURLE_GOT_NOTHING : Z := 52.

(** [libcurl_category_t::make_libcurl_error] and what the catcher reads off
    with [os_errno] and [curlcode]. *)
Definition make_libcurl_error (cc os_errno : Z) : exn :=
  let ev := swrap 32 (Z.lor (Z.shiftl os_errno 8) (Z.land cc 255)) in
  ECurl (swrap 32 (Z.shiftr (u32 ev) 8)) (Z.land ev 255).

Record curl_request := CurlRequest {
  cr_url : bytes;
  cr_headers : list bytes;
  cr_connect_to : list bytes;
  cr_follow : option Z;          (* CURLOPT_FOLLOWLOCATION and MAXREDIRS *)
  cr_noproxy : bool              (* CURLOPT_PROXY set to the empty string *)
}.

Inductive curl_event := Hdr (line : bytes) | Data (piece : bytes).

Record curl_answer := CurlAnswer {
  ca_events : list curl_event;
  ca_code : Z;
  ca_http_code : Z;
  ca_os_errno : Z;
  ca_redirect_url : option bytes
}.

Class Libcurl := curl_perform : list curl_request -> curl_request -> curl_answer.

(** *** The backend and its handler *)

Record http_config := HttpConfig {
  baseurls : list url_info;
  hc_accept_encoding : bytes;
  namecache : bool;
  disconnected : bool;
  http_maxredirects : Z;
  curl_handles_redirects : bool;
  http_proxy : bool;             (* getenv("http_proxy") *)
  git_description : bytes;
  hc_minor : Z
}.

(** The clock when the reply's freshness is tested, when the first base url is
    looked at, when a failure is noticed and when a reply is stamped. *)
Record http_clocks := HttpClocks { ck_fresh : Z; ck_start : Z; ck_fail : Z; ck_reply : Z }.

(** The reply the caller passes a pointer to; the [curl_handler]; the deferrals
    of the base urls, the round-robin counter, and the requests made. *)
Record hst := Hst {
  h_reply : reply123;
  h_hdrmap : gmap bytes bytes;
  h_content : bytes;
  h_exptr : option exn;
  h_http_code : Z;
  h_connect_to : list bytes;
  h_noproxy : bool;
  h_deferred : list Z;
  h_ctr : Z;
  h_log : list curl_request
}.

Definition set_reply (r : reply123) (s : hst) : hst :=
  Hst r (h_hdrmap s) (h_content s) (h_exptr s) (h_http_code s) (h_connect_to s) (h_noproxy s)
    (h_deferred s) (h_ctr s) (h_log s).
Definition set_hdr (k v : bytes) (s : hst) : hst :=
  Hst (h_reply s) (<[k := v]> (h_hdrmap s)) (h_content s) (h_exptr s) (h_http_code s)
    (h_connect_to s) (h_noproxy s) (h_deferred s) (h_ctr s) (h_log s).
Definition set_content (c : bytes) (s : hst) : hst :=
  Hst (h_reply s) (h_hdrmap s) c (h_exptr s) (h_http_code s) (h_connect_to s) (h_noproxy s)
    (h_deferred s) (h_ctr s) (h_log s).
Definition set_exptr (e : exn) (s : hst) : hst :=
  Hst (h_reply s) (h_hdrmap s) (h_content s) (Some e) (h_http_code s) (h_connect_to s)
    (h_noproxy s) (h_deferred s) (h_ctr s) (h_log s).
Definition set_http_code (c : Z) (s : hst) : hst :=
  Hst (h_reply s) (h_hdrmap s) (h_content s) (h_exptr s) c (h_connect_to s) (h_noproxy s)
    (h_deferred s) (h_ctr s) (h_log s).
Definition set_noproxy (s : hst) : hst :=
  Hst (h_reply s) (h_hdrmap s) (h_content s) (h_exptr s) (h_http_code s) (h_connect_to s) true
    (h_deferred s) (h_ctr s) (h_log s).
Definition set_connect (ctr : Z) (to_ : list bytes) (s : hst) : hst :=
  Hst (h_reply s) (h_hdrmap s) (h_content s) (h_exptr s) (h_http_code s) to_ (h_noproxy s)
    (h_deferred s) ctr (h_log s).
Definition set_deferred (d : list Z) (s : hst) : hst :=
  Hst (h_reply s) (h_hdrmap s) (h_content s) (h_exptr s) (h_http_code s) (h_connect_to s)
    (h_noproxy s) d (h_ctr s) (h_log s).
Definition log_request (r : curl_request) (s : hst) : hst :=
  Hst (h_reply s) (h_hdrmap s) (h_content s) (h_exptr s) (h_http_code s) (h_connect_to s)
    (h_noproxy s) (h_deferred s) (h_ctr s) (h_log s ++ [r]).

(** [curl_handler::reset] *)
Definition reset (s : hst) : hst :=
  Hst (h_reply s) ∅ [] None (h_http_code s) (h_connect_to s) (h_noproxy s)
    (h_deferred s) (h_ctr s) (h_log s).

(** A new [curl_handler] on a handle that was reset. *)
Definition new_handler (s : hst) : hst :=
  Hst (h_reply s) ∅ [] None 0 [] false (h_deferred s) (h_ctr s) (h_log s).

(** *** Callbacks *)

Definition CRLF : bytes := [chr 13; chr 10].
Definition OWS : bytes := [" "%char; chr 9].

(** Strip spaces and tabs from both ends. *)
Definition strip_ows (val : bytes) : outcome bytes :=
  let first := first_not_in OWS val 0 in
  if first =? npos then Ret [] else
  let last := last_such (fun x => negb (bool_decide (x ∈ OWS))) val 0 npos in
  substr val first (u64 (u64 (last - first) + 1)).

Definition recv_hdr (buffer : bytes) : M hst unit :=
  if negb (endswith buffer CRLF) then raise (ESystem EPROTO) else
  sv ← lift (substr buffer 0 (zlen buffer - 2));
  if (zlen sv =? 0) || prefixb (lit "HTTP/") sv then mret tt else
  let firstcolonpos := find_char sv ":" 0 in
  if firstcolonpos =? npos then raise (ESystem EPROTO) else
  key ← lift (substr sv 0 firstcolonpos);
  val ← lift (substr sv (firstcolonpos + 1) npos);
  val ← lift (strip_ows val);
  modify (set_hdr (map tolower key) val).

Definition recv_data (buffer : bytes) : M hst unit :=
  modify (fun s => set_content (h_content s ++ buffer) s).

(** A callback returns the size it was given, or 0 after an exception, which
    it keeps for later. *)
Definition callback (m : M hst unit) : M hst bool :=
  try_M (m;; mret true) (fun e => modify (set_exptr e);; mret false).
Definition header_callback (buffer : bytes) : M hst bool := callback (recv_hdr buffer).
Definition write_callback (buffer : bytes) : M hst bool := callback (recv_data buffer).

(** libcurl gives up when a callback does not take what it is given. *)
Fixpoint deliver (evs : list curl_event) : M hst bool :=
  match evs with
  | [] => mret true
  | ev :: evs =>
      ok ← match ev with Hdr l => header_callback l | Data l => write_callback l end;
      if ok : bool then deliver evs else mret false
  end.

(** *** Reading the headers *)

(** A round per place the key is found at. *)
Fixpoint get_key_loop (fuel : nat) (s key : bytes) (pos : Z) : outcome (option Z) :=
  match fuel with
  | O => Undef
  | S fuel =>
      let pos := find_str s key pos in
      if (pos =? npos) || (zlen s <=? pos + zlen key) then Ret None else
      here ← (if pos =? 0 then Ret true else
              c ← sv_idx s (pos - 1);
              Ret (bool_decide (c = ","%char) || isspace c));
      if here : bool then Ret (Some pos) else get_key_loop fuel s key (pos + 1)
  end.

Definition get_key_from_string (s key : bytes) : outcome bytes :=
  rethrow_nested ERuntime (
    r ← get_key_loop (S (length s)) s key 0;
    match r with
    | None => Ret []
    | Some pos =>
        let pos := pos + zlen key in
        substr s pos (u64 (first_in (lit ", ") s pos - pos))
    end).

Definition get_age (h : gmap bytes bytes) : outcome Z :=
  rethrow_nested ERuntime (
    match h !! lit "age" with
    | None => Ret 0
    | Some v => age ← svto T_u64 v 0; Ret (swrap 64 age)
    end).

Definition get_etag64 (h : gmap bytes bytes) : outcome Z :=
  try_catch
    match h !! lit "etag" with None => Ret 0 | Some v => parse_quoted_etag v end
    (fun _ => Ret 0).

Definition get_max_age (h : gmap bytes bytes) : outcome Z :=
  rethrow_nested ERuntime (
    match h !! lit "cache-control" with
    | None => Throw (ESystem EPROTO)
    | Some v =>
        s ← get_key_from_string v (lit "max-age=");
        if bool_decide (s = []) then Ret 0 else svto T_i64 s 0
    end).

Definition get_stale_while_revalidate (h : gmap bytes bytes) : outcome Z :=
  rethrow_nested ERuntime (
    match h !! lit "cache-control" with
    | None => Ret 0
    | Some v =>
        s ← get_key_from_string v (lit "stale-while-revalidate=");
        if bool_decide (s = []) then Ret 0 else svto T_i64 s 0
    end).

(** The bookkeeping of a 304. *)
Definition revalidated (now age max_age swr : Z) (r : reply123) : outcome reply123 :=
  a ← secs age;
  lr ← i64 (now - a);
  ma ← secs max_age;
  ex ← i64 (lr + ma);
  sw ← secs swr;
  Ret (Reply (magic r) (eno72 r) ex (etag64 r) lr sw (estale_cookie72 r)
         (chunk_next_offset72 r) (chunk_next_meta72 r) (content_encoding r)
         (content_threeroe r) (content r)).

Definition set_chunk_next (off meta : Z) (r : reply123) : reply123 :=
  Reply (magic r) (eno72 r) (expires r) (etag64 r) (last_refresh r) (stale_while_revalidate r)
    (estale_cookie72 r) off meta (content_encoding r) (content_threeroe r) (content r).

(** The next-offset header: a number, then nothing or EOF.  The offset is
    stored before the word after it is looked at. *)
Definition next_offset (v : bytes) : M hst unit :=
  '(off, pos) ← lift (svscan T_i64 v 0);
  modify (fun s => set_reply (set_chunk_next off (chunk_next_meta72 (h_reply s)) (h_reply s)) s);;
  let p := c_str (drop_space (zdrop pos v)) in
  if bool_decide (p = []) then
    modify (fun s => set_reply (set_chunk_next off CNO_NOT_EOF (h_reply s)) s)
  else if prefixb (lit "EOF") p then
    modify (fun s => set_reply (set_chunk_next off CNO_EOF (h_reply s)) s)
  else raise (ESystem EPROTO).

Section Http.
Context {LC : Libcurl} (aicache_lookup : bytes -> list (option bytes)).
Context (cfg : http_config) (ck : http_clocks).

(** What is read off the headers of a 200, apart from the content. *)
Definition reply_of_headers (h : gmap bytes bytes) (age max_age swr : Z) (cont : bytes)
  : outcome reply123 :=
  eno ← (if hc_minor cfg <? 3 then
           match h !! HHERRNO with
           | None => Throw (ESystem EINVAL)
           | Some v => svto T_int v 0
           end
         else Ret 0);
  et64 ← get_etag64 h;
  let ce := encoding_stoi (default [] (h !! lit "content-encoding")) in
  esc ← match h !! HHCOOKIE with None => Ret 0 | Some v => svto T_u64 v 0 end;
  if hc_minor cfg <? 3 then reply_ctor72 (ck_reply ck) eno esc cont ce age max_age et64 swr
  else reply_ctor73 (ck_reply ck) cont ce age max_age et64 swr.

(** After [*replyp] was assigned. *)
Definition check_reply (h : gmap bytes bytes) (r : reply123) : M hst bool :=
  (match h !! HHTRSUM with
   | Some v =>
       if find_str v (content_threeroe r) 0 =? npos then raise (ESystem EINVAL) else mret tt
   | None => mret tt
   end);;
  if (hc_minor cfg <? 3) && (eno72 r =? 0) then
    (match h !! HHNO with Some v => next_offset v | None => mret tt end);; mret true
  else mret true.

Definition getreply : M hst bool :=
  s ← get;
  let h := h_hdrmap s in
  if negb ((h_http_code s =? 200) || (h_http_code s =? 304)) then raise (EHttp (h_http_code s)) else
  age ← lift (get_age h);
  max_age ← lift (get_max_age h);
  swr ← lift (get_stale_while_revalidate h);
  if h_http_code s =? 304 then
    r ← lift (revalidated (ck_reply ck) age max_age swr (h_reply s));
    modify (set_reply r);; mret false
  else
    r ← lift (reply_of_headers h age max_age swr (h_content s));
    modify (fun s => set_content [] (set_reply r s));;
    check_reply h r.

(** *** Performing a request *)

Definition the_request (url : bytes) (headers : list bytes) (s : hst) : curl_request :=
  CurlRequest (c_str url) (map c_str headers) (h_connect_to s)
    (if curl_handles_redirects cfg then Some (http_maxredirects cfg) else None) (h_noproxy s).

Definition curl_easy_perform (url : bytes) (headers : list bytes) : M hst (Z * curl_answer) := fun s =>
  let req := the_request url headers s in
  let a := curl_perform (h_log s) req in
  (ok ← deliver (ca_events a);
   mret (if ok : bool then ca_code a else CURLE_WRITE_ERROR, a)) (log_request req s).

(** "curl says it couldn't connect.  But let's check." *)
Definition perform_again_if_empty (url : bytes) (headers : list bytes) (r : Z * curl_answer)
  : M hst (Z * curl_answer) :=
  s ← get;
  if bool_decide (h_content s = []) && bool_decide (h_hdrmap s = ∅)
  then curl_easy_perform url headers else mret r.

Definition perform_once (follow : url_info -> Z -> M hst bool) (url : bytes) (headers : list bytes)
    (recursion_depth : Z) : M hst bool :=
  r ← curl_easy_perform url headers;
  r ← (if ((r.1 =? CURLE_COULDNT_CONNECT) || (r.1 =? CURLE_OPERATION_TIMEDOUT)) && http_proxy cfg
       then modify set_noproxy;; perform_again_if_empty url headers r else mret r);
  r ← (if r.1 =? CURLE_GOT_NOTHING then perform_again_if_empty url headers r else mret r);
  let '(ret, a) := r in
  if negb (ret =? 0) then
    s ← get;
    let se := make_libcurl_error ret (swrap 32 (ca_os_errno a)) in
    match h_exptr s with Some e => raise (ENested se e) | None => raise se end
  else
  modify (set_http_code (ca_http_code a));;
  match ca_redirect_url a with
  | Some newurl =>
      if negb (curl_handles_redirects cfg) && (recursion_depth <? http_maxredirects cfg) then
        modify reset;;
        follow (url_info_ctor (c_str newurl)) (recursion_depth + 1)
      else getreply
  | None => getreply
  end.

(** One of the cached addresses, in turn. *)
Definition resolve (u : url_info) : M hst unit :=
  if namecache cfg && negb (do_not_lookup u) then
    let ai := aicache_lookup (hostname u) in
    if bool_decide (ai = []) then mret tt else
    s ← get;
    let to_ := match ai !! Z.to_nat (h_ctr s mod zlen ai) with
               | Some (Some dotted_decimal) =>
                   h_connect_to s ++ [c_str (hostname u ++ lit "::" ++ dotted_decimal ++ lit ":")]
               | _ => h_connect_to s
               end in
    modify (set_connect (u64 (h_ctr s + 1)) to_)
  else mret tt.

(** [fuel] bounds the redirects that are followed. *)
Fixpoint perform_without_fallback (fuel : nat) (headers : list bytes) (u : url_info)
    (urlstem : bytes) (recursion_depth : Z) : M hst bool :=
  match fuel with
  | O => lift Undef
  | S fuel =>
      resolve u;;
      perform_once (fun u' depth => perform_without_fallback fuel headers u' [] depth)
        (original u ++ urlstem) headers recursion_depth
  end.

Definition redirect_fuel : nat := S (Z.to_nat (http_maxredirects cfg)).

(** The base url to use: the first whose deferral has passed, or else the one
    with the least.  [i] is the index of the head of the list. *)
Fixpoint choose_loop (started_at : Z) (l : list Z) (i imin min_deferred : Z) : Z :=
  match l with
  | [] => imin
  | dui :: l =>
      let '(imin, min_deferred) :=
        if dui <? min_deferred then (i, dui) else (imin, min_deferred) in
      if started_at <=? dui then choose_loop started_at l (i + 1) imin min_deferred else i
  end.
Definition choose_url (started_at : Z) (l : list Z) : outcome Z :=
  match l with
  | [] => Throw EOutOfRange
  | d :: l' =>
      Ret (if started_at <=? d then choose_loop started_at l' 1 0 d else 0)
  end.

Definition five_seconds : Z := 5 * 1000000000.
Definition ten_minutes : Z := 600 * 1000000000.
Definition clip (lo x hi : Z) : Z := Z.min (Z.max lo x) hi.

Definition url_at (i : Z) : M hst url_info :=
  match zget (baseurls cfg) i with Some u => mret u | None => raise EOutOfRange end.

Definition perform_with_fallback (headers : list bytes) (urlstem : bytes) : M hst bool :=
  if zlen (baseurls cfg) <? 2 then
    u ← url_at 0;
    perform_without_fallback redirect_fuel headers u urlstem 0
  else
    s ← get;
    i ← lift (choose_url (ck_start ck) (h_deferred s));
    try_M
      (u ← url_at i; perform_without_fallback redirect_fuel headers u urlstem 0)
      (fun e =>
         howlong ← lift (i64 (ck_fail ck - ck_start ck));
         let howlong := clip five_seconds howlong ten_minutes in
         until ← lift (i64 (ck_fail ck + howlong));
         modify (fun s => set_deferred (<[Z.to_nat i := until]> (h_deferred s)) s);;
         raise (ENested ERuntime e)).

(** *** Refresh *)

Fixpoint commas (l : list bytes) : bytes :=
  match l with
  | [] => []
  | [a] => a
  | a :: l => a ++ lit "," ++ commas l
  end.

Definition cache_control_words (req : req123) : list bytes :=
  (if negb (stale_if_error req =? 0)
   then [lit "stale-if-error=" ++ to_string (stale_if_error req)] else [])
  ++ (if no_cache req then [lit "no-cache"] else [])
  ++ match max_stale req with Some m => [lit "max-stale=" ++ to_string m] | None => [] end.

Definition request_headers (req : req123) (r : reply123) : list bytes :=
  (if valid r && negb (no_cache req) && negb (etag64 r =? 0)
   then [lit "If-None-Match: " ++ dquote :: to_string (etag64 r) ++ [dquote]] else [])
  ++ (if bool_decide (hc_accept_encoding cfg = []) then []
      else [lit "Accept-encoding: " ++ hc_accept_encoding cfg])
  ++ (if bool_decide (cache_control_words req = []) then []
      else [lit "Cache-control: " ++ commas (cache_control_words req)])
  ++ [lit "User-Agent: fs123p7/" ++ git_description cfg].

Definition refresh (req : req123) : M hst bool :=
  try_M
    (s ← get;
     if negb (no_cache req) && fresh (ck_fresh ck) (h_reply s) then mret false else
     if disconnected cfg then raise (ESystem EIO) else
     modify new_handler;;
     perform_with_fallback (request_headers req (h_reply s)) (urlstem req))
    (fun e => raise (ENested ERuntime e)).
End Http.

(** [backend123_http::backend123_http] and [add_fallback_baseurl]: no base url
    is deferred at first. *)
Definition no_deferrals (n : nat) : list Z := replicate n tp_min.
Definition add_fallback_baseurl (url : bytes) (cfg : http_config) : http_config :=
  HttpConfig (baseurls cfg ++ [url_info_ctor url]) (hc_accept_encoding cfg) (namecache cfg)
    (disconnected cfg) (http_maxredirects cfg) (curl_handles_redirects cfg) (http_proxy cfg)
    (git_description cfg) (hc_minor cfg).

(** ** Lemmas *)

(** *** The pieces of a url *)

Lemma span_not_spec set l a b : span_not set l = (a, b) ->
  l = a ++ b /\ Forall (fun c => c ∉ set) a
  /\ (b = [] \/ exists c b', b = c :: b' /\ c ∈ set).
Proof.
  revert a b. induction l as [|c l IH]; intros a b H; cbn in H.
  { injection H as <- <-. auto. }
  destruct (decide (c ∈ set)) as [Hc|Hc].
  - rewrite bool_decide_eq_true_2 in H by done. injection H as <- <-. eauto 10.
  - rewrite bool_decide_eq_false_2 in H by done. destruct (span_not set l) as [a' b'].
    injection H as <- <-. destruct (IH a' b' eq_refl) as (-> & Ha & Hb). auto.
Qed.

Lemma prefixb_inv p l : prefixb p l = true -> exists r, l = p ++ r.
Proof. unfold prefixb. intros H%bool_decide_eq_true. destruct H as [r ->]. by exists r. Qed.

Lemma span_digits_spec l a b : span_digits l = (a, b) ->
  l = a ++ b /\ Forall (fun c => digitb c = true) a
  /\ (b = [] \/ exists c b', b = c :: b' /\ digitb c = false).
Proof.
  revert a b. induction l as [|c l IH]; intros a b H; cbn in H.
  { injection H as <- <-. auto. }
  destruct (digitb c) eqn:Hc.
  - destruct (span_digits l) as [a' b']. injection H as <- <-.
    destruct (IH a' b' eq_refl) as (-> & Ha & Hb). auto.
  - injection H as <- <-. eauto 10.
Qed.

(** One to three digits. *)
Definition octet (l : bytes) : Prop := Forall (fun c => digitb c = true) l /\ 1 <= zlen l <= 3.

Lemma quad_part_spec l r : quad_part l = Some r -> exists a, octet a /\ l = a ++ r.
Proof.
  unfold quad_part. destruct (span_digits l) as [a b] eqn:E.
  destruct (span_digits_spec l a b E) as (-> & Ha & _).
  destruct ((1 <=? zlen a) && (zlen a <=? 3)) eqn:Hl; [|discriminate].
  intros [= <-]. exists a. split; [|done]. split; [done|lia].
Qed.

Lemma span_digits_app a r : Forall (fun c => digitb c = true) a ->
  (forall c r', r = c :: r' -> digitb c = false) -> span_digits (a ++ r) = (a, r).
Proof.
  intros Ha Hr. induction Ha as [|c a Hc Ha IH]; cbn.
  - destruct r as [|c r]; [done|]. cbn. by rewrite (Hr c r).
  - by rewrite Hc, IH.
Qed.

Lemma quad_part_octet a r : octet a -> (forall c r', r = c :: r' -> digitb c = false) ->
  quad_part (a ++ r) = Some r.
Proof.
  intros [Ha Hl] Hr. unfold quad_part. rewrite span_digits_app by done.
  by rewrite (proj2 (andb_true_iff _ _)) by lia.
Qed.

Lemma quad_dot_spec l r : quad_dot l = Some r -> l = "."%char :: r.
Proof.
  destruct l as [|c l]; cbn; [done|]. case_bool_decide; [|done]. intros [= <-]. by subst.
Qed.

(** The numeric host names are four short numbers with dots between them. *)
Lemma dotted_quad_spec l : dotted_quad l = true <->
  exists a b c d, octet a /\ octet b /\ octet c /\ octet d
    /\ l = a ++ lit "." ++ b ++ lit "." ++ c ++ lit "." ++ d.
Proof.
  assert (forall r c r', lit "." ++ r = c :: r' -> digitb c = false) as Hdot
    by by intros r c r' [= <- _].
  split.
  - unfold dotted_quad. intros H.
    destruct (quad_part l) as [l1|] eqn:E1; [|discriminate]. cbn in H.
    destruct (quad_dot l1) as [l2|] eqn:D1; [|discriminate]. cbn in H.
    destruct (quad_part l2) as [l3|] eqn:E2; [|discriminate]. cbn in H.
    destruct (quad_dot l3) as [l4|] eqn:D2; [|discriminate]. cbn in H.
    destruct (quad_part l4) as [l5|] eqn:E3; [|discriminate]. cbn in H.
    destruct (quad_dot l5) as [l6|] eqn:D3; [|discriminate]. cbn in H.
    destruct (quad_part l6) as [[|]|] eqn:E4; try discriminate.
    apply quad_part_spec in E1 as (a & Ha & ->), E2 as (b & Hb & ->), E3 as (c & Hc & ->), E4 as (d & Hd & ->).
    apply quad_dot_spec in D1 as ->, D2 as ->, D3 as ->.
    exists a, b, c, d. rewrite app_nil_r. split_and!; done.
  - intros (a & b & c & d & Ha & Hb & Hc & Hd & ->). unfold dotted_quad.
    rewrite quad_part_octet by (done || apply Hdot). cbn [mbind option_bind lit list_ascii_of_string app quad_dot].
    rewrite bool_decide_eq_true_2 by done. cbn [mbind option_bind].
    rewrite (quad_part_octet b) by (done || apply (Hdot (c ++ lit "." ++ d))).
    cbn [mbind option_bind quad_dot]. rewrite bool_decide_eq_true_2 by done. cbn [mbind option_bind].
    rewrite (quad_part_octet c) by (done || apply (Hdot d)).
    cbn [mbind option_bind quad_dot]. rewrite bool_decide_eq_true_2 by done. cbn [mbind option_bind].
    rewrite <- (app_nil_r d). by rewrite (quad_part_octet d []).
Qed.

Lemma url_scheme_spec url m r : url_scheme url = (m, r) ->
  (m = [] /\ r = url)
  \/ exists sch, m = sch ++ lit ":" /\ sch <> [] /\ Forall (fun c => c ∉ lit ":/?#") sch
       /\ url = sch ++ lit ":" ++ r.
Proof.
  unfold url_scheme. destruct (span_not (lit ":/?#") url) as [sch rest] eqn:E.
  destruct (span_not_spec _ _ _ _ E) as (-> & Hsch & _).
  destruct sch as [|x sch]; [intros [= <- <-]; by left|].
  destruct rest as [|c rest]; [intros [= <- <-]; by left|].
  case_bool_decide; intros [= <- <-]; [|by left]. subst. right. by exists (x :: sch).
Qed.

(** What [urlre] splits a url into. *)
Lemma urlre_spec url m1 m4 m5 : urlre url = (m1, m4, m5) -> m1 <> [] -> m4 <> [] ->
  exists sch tail, m1 = sch ++ lit ":" /\ sch <> []
    /\ url = m1 ++ lit "//" ++ m4 ++ m5 ++ tail
    /\ Forall (fun c => c ∉ lit ":/?#") sch /\ Forall (fun c => c ∉ lit "/?#:") m4
    /\ (tail = [] \/ exists c t, tail = c :: t /\ c ∈ [chr 10; chr 13]).
Proof.
  unfold urlre. intros H H1 H4. destruct (url_scheme url) as [n1 r] eqn:E1.
  destruct (url_scheme_spec _ _ _ E1) as [[-> ->]|(sch & -> & Hne & Hsch & Eu)].
  { destruct (if prefixb _ _ then _ else _) as [? ?]; congruence. }
  destruct (prefixb (lit "//") r) eqn:E2; [|by injection H as ? ? ?; subst].
  destruct (prefixb_inv _ _ E2) as [r2 ->].
  replace (zdrop 2 (lit "//" ++ r2)) with r2 in H by (symmetry; by apply (zdrop_app (lit "//"))).
  destruct (span_not (lit "/?#:") r2) as [h r3] eqn:E3.
  destruct (span_not_spec _ _ _ _ E3) as (-> & Hh & _).
  destruct (span_not [chr 10; chr 13] r3) as [p t] eqn:E4.
  destruct (span_not_spec _ _ _ _ E4) as (-> & _ & Ht).
  injection H as <- <- <-. exists sch, t. split_and!; try done. rewrite Eu. assoc.
Qed.

(** A base url is taken apart the way it can be put together again:
    when a scheme and a host name are found, the text before the host name is
    the scheme with "://", the host name has no delimiter in it, and the three
    pieces in order are the url, up to the end of its first line; when they
    are not found, the pieces are empty and the url is not looked up.  A host
    name made of four short numbers with dots is not looked up either, and any
    other is. *)
Theorem url_info_pieces url :
  let u := url_info_ctor url in
  original u = url
  /\ (hostname u = [] -> before_hostname u = [] /\ after_hostname u = [] /\ do_not_lookup u = true)
  /\ (hostname u <> [] ->
        (exists sch tail, sch <> [] /\ before_hostname u = sch ++ lit "://"
           /\ Forall (fun c => c ∉ lit ":/?#") sch /\ Forall (fun c => c ∉ lit "/?#:") (hostname u)
           /\ url = before_hostname u ++ hostname u ++ after_hostname u ++ tail
           /\ (tail = [] \/ exists c t, tail = c :: t /\ c ∈ [chr 10; chr 13]))
        /\ (do_not_lookup u = true <->
              exists a b c d, octet a /\ octet b /\ octet c /\ octet d
                /\ hostname u = a ++ lit "." ++ b ++ lit "." ++ c ++ lit "." ++ d)).
Proof.
  cbv zeta. unfold url_info_ctor. destruct (urlre url) as [[m1 m4] m5] eqn:E.
  destruct (decide (m1 = [])) as [->|H1]; [cbn; by split_and!|].
  destruct (decide (m4 = [])) as [->|H4];
    [rewrite (bool_decide_eq_false_2 (m1 = [])) by done; cbn; by split_and!|].
  rewrite !bool_decide_eq_false_2 by done.
  cbn [orb original hostname before_hostname after_hostname do_not_lookup].
  split; [done|]. split; [done|]. intros _. split; [|apply dotted_quad_spec].
  destruct (urlre_spec url m1 m4 m5 E H1 H4) as (sch & tail & -> & Hne & Hu & Hs & Hh & Ht).
  exists sch, tail. split_and!; try done; [assoc|]. rewrite Hu. assoc.
Qed.

Lemma url_info_pieces_witness :
  hostname (url_info_ctor (lit "http://fs.example.org:8080/a/fs123/7/3")) = lit "fs.example.org"
  /\ exists sch tail, sch <> []
       /\ before_hostname (url_info_ctor (lit "http://fs.example.org:8080/a/fs123/7/3")) = sch ++ lit "://"
       /\ lit "http://fs.example.org:8080/a/fs123/7/3"
          = before_hostname (url_info_ctor (lit "http://fs.example.org:8080/a/fs123/7/3"))
            ++ hostname (url_info_ctor (lit "http://fs.example.org:8080/a/fs123/7/3"))
            ++ after_hostname (url_info_ctor (lit "http://fs.example.org:8080/a/fs123/7/3")) ++ tail.
Proof.
  split; [vm_compute; reflexivity|].
  destruct (url_info_pieces (lit "http://fs.example.org:8080/a/fs123/7/3")) as (_ & _ & H).
  destruct (H ltac:(vm_compute; discriminate)) as ((sch & tail & H1 & H2 & _ & _ & H3 & _) & _).
  exists sch, tail. split_and!; done.
Defined.

Example numeric_host : do_not_lookup (url_info_ctor (lit "http://10.1.2.34/x")) = true.
Proof. vm_compute. reflexivity. Qed.
Example ipv6_host : hostname (url_info_ctor (lit "http://[::1]:80/x")) = lit "[".
Proof. vm_compute. reflexivity. Qed.

(** *** Searching a cache-control header *)

(** What the code accepts in front of a key, and what ends its value. *)
Definition starts_word (c : ascii) : bool := bool_decide (c = ","%char) || isspace c.
Definition ends_word (c : ascii) : bool := bool_decide (c ∈ lit ", ").

(** The words of a header that has commas and spaces between them, and the
    rest of the first word that starts with a key. *)
Fixpoint words (l : bytes) : list bytes :=
  match l with
  | [] => [[]]
  | c :: l' =>
      if ends_word c then [] :: words l'
      else match words l' with w :: ws => (c :: w) :: ws | [] => [[c]] end
  end.
Fixpoint first_value (key : bytes) (ws : list bytes) : bytes :=
  match ws with
  | [] => []
  | w :: ws => if prefixb key w then zdrop (zlen key) w else first_value key ws
  end.

(** The search in one pass: [prev] says whether a word may start here. *)
Fixpoint key_scan (key : bytes) (prev : bool) (l : bytes) : bytes :=
  match l with
  | [] => []
  | c :: l' =>
      if prev && prefixb key l then (span_not (lit ", ") (zdrop (zlen key) l)).1
      else key_scan key (starts_word c) l'
  end.
Definition prev_word (prev : bool) (a : bytes) : bool := foldl (fun _ c => starts_word c) prev a.

Lemma key_scan_app key prev a b :
  (forall j, 0 <= j < zlen a -> prefixb key (zdrop j (a ++ b)) = false) ->
  key_scan key prev (a ++ b) = key_scan key (prev_word prev a) b.
Proof.
  revert prev. induction a as [|c a IH]; intros prev H; [done|].
  cbn [app key_scan]. pose proof (zlen_nonneg a).
  assert (prefixb key (c :: a ++ b) = false) as ->.
  { rewrite <- (zdrop_0 (c :: a ++ b)). apply H. zlia. }
  rewrite andb_false_r. apply IH. intros j Hj.
  specialize (H (j + 1)). cbn [app] in H. rewrite zdrop_cons in H by lia.
  replace (j + 1 - 1) with j in H by lia. apply H. zlia.
Qed.

Lemma key_scan_none key prev l :
  (forall j, 0 <= j <= zlen l -> prefixb key (zdrop j l) = false) -> key_scan key prev l = [].
Proof.
  intros H. rewrite <- (app_nil_r l), key_scan_app; [done|].
  intros j Hj. rewrite app_nil_r. apply H. lia.
Qed.

Lemma prefixb_short key l : zlen l < zlen key -> prefixb key l = false.
Proof.
  intros H. apply not_true_is_false. intros [r ->]%prefixb_inv. revert H. zlia.
Qed.

Lemma key_scan_short key prev l : zlen l < zlen key -> key_scan key prev l = [].
Proof.
  intros H. apply key_scan_none. intros j Hj. apply prefixb_short. rewrite zlen_zdrop; lia.
Qed.

Lemma prefixb_app key b : prefixb key (key ++ b) = true.
Proof. apply bool_decide_eq_true_2. by exists b. Qed.

Lemma prev_word_app prev a b : prev_word prev (a ++ b) = prev_word (prev_word prev a) b.
Proof. apply foldl_app. Qed.

(** Where the loop of [get_key_from_string] stops. *)
Lemma get_key_loop_scan key fuel : key <> [] -> forall l pre,
  zlen (pre ++ l) < npos -> (length l < fuel)%nat ->
  exists r, get_key_loop fuel (pre ++ l) key (zlen pre) = Ret r
    /\ match r with
       | None => key_scan key (prev_word true pre) l = []
       | Some p => exists a b, l = a ++ key ++ b /\ p = zlen pre + zlen a
                     /\ key_scan key (prev_word true pre) l = (span_not (lit ", ") b).1
       end.
Proof.
  intros Hkey. induction fuel as [|fuel IH]; intros l pre Hs Hf; [lia|].
  cbn [get_key_loop]. unfold find_str. pose proof (zlen_nonneg l). pose proof (zlen_nonneg pre).
  rewrite (proj2 (Z.ltb_ge _ _)) by zlia. rewrite zdrop_app by done.
  destruct (find_from_spec (prefixb key) l (zlen pre)) as [(-> & H1)|(k & Hk & -> & Hp & Hj)].
  { exists None. split; [done|]. by apply key_scan_none. }
  destruct (prefixb_inv _ _ Hp) as [b Eb].
  assert (exists a, l = a ++ key ++ b /\ zlen a = k) as (a & -> & Ea).
  { exists (ztake k l). split; [|rewrite zlen_ztake by lia; lia]. rewrite <- Eb. symmetry. apply ztake_zdrop. lia. }
  subst k. clear Eb Hp Hk.
  assert (key_scan key (prev_word true pre) (a ++ key ++ b)
          = key_scan key (prev_word true (pre ++ a)) (key ++ b)) as Hscan.
  { rewrite prev_word_app. by apply key_scan_app. }
  rewrite zlen_app in Hs. pose proof (zlen_nonneg b). pose proof (zlen_nonneg a). pose proof (zlen_nonneg key).
  rewrite (zlen_app a), (zlen_app key) in Hs. rewrite (proj2 (Z.eqb_neq _ _)) by zlia.
  cbn [orb]. destruct key as [|c key]; [done|].
  destruct (Z.leb_spec (zlen (pre ++ a ++ (c :: key) ++ b)) (zlen pre + zlen a + zlen (c :: key))) as [Hle|Hlt].
  { exists None. split; [done|]. rewrite Hscan.
    assert (b = []) as -> by (apply zlen_nil_inv; revert Hle; zlia).
    rewrite app_nil_r. cbn [key_scan]. rewrite (key_scan_short _ _ key) by zlia.
    replace (zdrop (zlen (c :: key)) (c :: key)) with (@nil ascii)
      by (rewrite <- (app_nil_r (c :: key)) at 2; symmetry; by apply zdrop_app).
    by case_match. }
  assert ((if zlen pre + zlen a =? 0 then Ret true else
            c0 ← sv_idx (pre ++ a ++ (c :: key) ++ b) (zlen pre + zlen a - 1);
            Ret (bool_decide (c0 = ","%char) || isspace c0))
          = Ret (prev_word true (pre ++ a))) as ->.
  { rewrite <- zlen_app. replace (pre ++ a ++ (c :: key) ++ b) with ((pre ++ a) ++ (c :: key) ++ b) by assoc.
    generalize (pre ++ a). intros q. destruct q as [|x q _] using rev_ind; [done|].
    rewrite (proj2 (Z.eqb_neq _ _)) by zlia. rewrite (zlen_app q).
    replace (zlen q + zlen [x] - 1) with (zlen q) by zlia. rewrite <- app_assoc. cbn [app].
    rewrite sv_idx_mid. cbn. by rewrite prev_word_app. }
  cbn [mbind outcome_bind]. destruct (prev_word true (pre ++ a)) eqn:Ep.
  - eexists. split; [done|]. exists a, b. split_and!; [done..|].
    rewrite Hscan. cbn [key_scan app].
    rewrite (prefixb_app (c :: key) b : prefixb (c :: key) (c :: key ++ b) = true). cbn [andb].
    by rewrite (zdrop_app (c :: key) b _ eq_refl : zdrop (zlen (c :: key)) (c :: key ++ b) = b).
  - destruct (IH (key ++ b) (pre ++ a ++ [c])) as (r & Er & Hr); [revert Hs; zlia| |].
    { rewrite !length_app in Hf. cbn in Hf. rewrite length_app. lia. }
    replace (pre ++ a ++ (c :: key) ++ b) with ((pre ++ a ++ [c]) ++ key ++ b) by assoc.
    replace (zlen pre + zlen a + 1) with (zlen (pre ++ a ++ [c])) by zlia.
    exists r. split; [done|]. rewrite app_assoc, prev_word_app in Hr. cbn in Hr.
    assert (key_scan (c :: key) false (c :: key ++ b) = key_scan (c :: key) (starts_word c) (key ++ b))
      as Hstep by done.
    destruct r as [p|]; [|by rewrite Hscan].
    destruct Hr as (a' & b' & E1 & -> & E2). exists (a ++ [c] ++ a'), b'.
    split_and!; [cbn [app] in *; rewrite <- !app_assoc; cbn [app]; by rewrite E1|zlia|by rewrite Hscan].
Qed.

(** [find_first_of] stops where [span_not] does. *)
Lemma first_in_span set pre b :
  first_in set (pre ++ b) (zlen pre)
  = match (span_not set b).2 with [] => npos | _ => zlen pre + zlen (span_not set b).1 end.
Proof.
  unfold first_in. rewrite zdrop_app by done. generalize (zlen pre). intros i. revert i.
  induction b as [|c b IH]; intros i; [done|]. cbn [find_from span_not].
  destruct (decide (c ∈ set)) as [Hc|Hc].
  - rewrite !bool_decide_eq_true_2 by done. cbn. by rewrite (@zlen_nil ascii), Z.add_0_r.
  - rewrite !bool_decide_eq_false_2 by done. rewrite IH. destruct (span_not set b) as [x y].
    cbn. destruct y; [done|]. rewrite zlen_cons. lia.
Qed.

Lemma substr_until set pre b : zlen (pre ++ b) < npos ->
  substr (pre ++ b) (zlen pre) (u64 (first_in set (pre ++ b) (zlen pre) - zlen pre))
  = Ret (span_not set b).1.
Proof.
  intros Hs. rewrite first_in_span. destruct (span_not set b) as [x y] eqn:E.
  destruct (span_not_spec _ _ _ _ E) as (-> & _ & _). cbn [fst snd].
  rewrite !zlen_app in Hs. zlen_pos. pose proof (zlen_nonneg x). pose proof (zlen_nonneg y).
  pose proof (zlen_nonneg pre). unfold npos in *.
  rewrite substr_in by zlia. rewrite zdrop_app by done. f_equal. destruct y as [|c y].
  - rewrite app_nil_r. apply ztake_all. rewrite wrap_small by lia. lia.
  - rewrite wrap_small by lia. apply ztake_app. lia.
Qed.

(** The search always returns what the one-pass scan does. *)
Lemma get_key_from_string_scan s key : key <> [] -> zlen s < npos ->
  get_key_from_string s key = Ret (key_scan key true s).
Proof.
  intros Hkey Hs. unfold get_key_from_string.
  destruct (get_key_loop_scan key (S (length s)) Hkey s [] Hs ltac:(lia)) as (r & E & Hr).
  cbn [app] in E. rewrite (@zlen_nil ascii) in *. rewrite E. cbn [mbind outcome_bind].
  cbn [prev_word foldl] in Hr. destruct r as [p|]; [|by rewrite Hr].
  destruct Hr as (a & b & -> & -> & ->).
  replace (0 + zlen a + zlen key) with (zlen (a ++ key)) by zlia.
  rewrite app_assoc in *. by rewrite substr_until.
Qed.

Lemma words_span l :
  words l = (span_not (lit ", ") l).1
            :: match (span_not (lit ", ") l).2 with [] => [] | _ :: r => words r end.
Proof.
  induction l as [|c l IH]; [done|]. cbn [words span_not]. unfold ends_word.
  case_bool_decide; [done|]. rewrite IH. by destruct (span_not (lit ", ") l).
Qed.

Lemma span_not_app set a b : Forall (fun c => c ∉ set) a ->
  span_not set (a ++ b) = (a ++ (span_not set b).1, (span_not set b).2).
Proof.
  intros Ha. induction Ha as [|c a Hc Ha IH]; cbn; [by destruct (span_not set b)|].
  rewrite bool_decide_eq_false_2 by done. by rewrite IH.
Qed.

(** A key without separators starts a text when it starts its first word. *)
Lemma prefixb_first_word key l : Forall (fun c => c ∉ lit ", ") key ->
  prefixb key (span_not (lit ", ") l).1 = prefixb key l.
Proof.
  intros Hk. destruct (prefixb key l) eqn:E.
  - apply prefixb_inv in E as [r ->]. rewrite span_not_app by done. apply prefixb_app.
  - apply not_true_iff_false. intros [r Er]%prefixb_inv. apply not_true_iff_false in E. apply E.
    destruct (span_not (lit ", ") l) as [a b] eqn:Es. cbn in Er.
    destruct (span_not_spec _ _ _ _ Es) as (-> & _). subst. rewrite <- app_assoc. apply prefixb_app.
Qed.

Lemma key_scan_words key prev l :
  key <> [] -> Forall (fun c => c ∉ lit ", ") key ->
  Forall (fun c => isspace c = true -> c = " "%char) l ->
  key_scan key prev l = first_value key (if prev then words l else tail (words l)).
Proof.
  intros Hne Hk Hl. revert prev. induction Hl as [|c l Hc Hl IH]; intros prev.
  { cbn [key_scan words tail]. destruct prev; [|done]. cbn [first_value].
    by rewrite prefixb_short by (destruct key; [done|zlia]). }
  cbn [key_scan]. destruct (prev && prefixb key (c :: l)) eqn:E.
  - apply andb_true_iff in E as [-> Hp]. rewrite words_span. cbn [first_value].
    rewrite prefixb_first_word, Hp by done. apply prefixb_inv in Hp as [r ->].
    rewrite span_not_app by done. cbn [fst]. by rewrite !zdrop_app.
  - rewrite IH. cbn [words]. unfold ends_word.
    destruct (decide (c ∈ lit ", ")) as [Hs|Hs].
    + rewrite bool_decide_eq_true_2 by done. assert (starts_word c = true) as ->.
      { unfold starts_word. cbn in Hs. rewrite !elem_of_cons, elem_of_nil in Hs.
        destruct Hs as [->|[->|[]]]; done. }
      destruct prev; cbn [tail first_value]; [|done].
      by rewrite prefixb_short by (destruct key; [done|zlia]).
    + rewrite bool_decide_eq_false_2 by done. assert (starts_word c = false) as ->.
      { unfold starts_word. cbn in Hs. rewrite !elem_of_cons, elem_of_nil in Hs.
        rewrite bool_decide_eq_false_2 by tauto. cbn. apply not_true_is_false. intros Hsp.
        apply Hs. auto. }
      pose proof (prefixb_first_word key (c :: l) Hk) as Hw. rewrite words_span.
      cbn [span_not] in Hw. rewrite bool_decide_eq_false_2 in Hw by done.
      destruct (span_not (lit ", ") l) as [w r]. cbn [fst snd tail] in *.
      destruct prev; [|done]. cbn [andb] in E. cbn [first_value]. by rewrite Hw, E.
Qed.

(** C39.  Reading a directive off a cache-control header is what it is
    meant to be: for a header with no white space but blanks and a key with no
    separator in it, the search by repeated [find] and looking at the
    character before gives what splitting the header at commas and blanks
    gives, the rest of the first word that starts with the key, and nothing
    when there is none.  It is not misled by a longer directive that ends in
    the same letters, and it never throws. *)
Theorem get_key_from_string_words s key :
  key <> [] -> Forall (fun c => c ∉ lit ", ") key ->
  Forall (fun c => isspace c = true -> c = " "%char) s -> zlen s < npos ->
  get_key_from_string s key = Ret (first_value key (words s)).
Proof.
  intros Hne Hk Hs Hl. rewrite get_key_from_string_scan by done.
  f_equal. by apply (key_scan_words key true).
Qed.

Lemma get_key_from_string_words_witness :
  get_key_from_string (lit "s-maxage=9, max-age=30,stale-while-revalidate=5") (lit "max-age=")
  = Ret (lit "30").
Proof.
  rewrite (get_key_from_string_words (lit "s-maxage=9, max-age=30,stale-while-revalidate=5") (lit "max-age=")).
  - vm_compute. reflexivity.
  - discriminate.
  - apply (bool_decide_unpack _). vm_compute. exact I.
  - repeat constructor; vm_compute; intros ?; done || discriminate.
  - vm_compute. reflexivity.
Defined.

(** *** A header line is read back *)

Definition header_line (n v : bytes) : bytes := n ++ lit ": " ++ v ++ CRLF.

(** No blank nor tab at either end. *)
Definition trimmed (v : bytes) : Prop :=
  (forall x r, v = x :: r -> x ∉ OWS) /\ (forall x r, v = r ++ [x] -> x ∉ OWS).
Definition field_name (n : bytes) : Prop :=
  n <> [] /\ (":"%char ∉ n) /\ "/"%char ∉ n.

Lemma last_such_snoc p l x i acc :
  last_such p (l ++ [x]) i acc = if p x then i + zlen l else last_such p l i acc.
Proof.
  revert i acc. induction l as [|y l IH]; intros i acc; cbn [app last_such].
  - rewrite (@zlen_nil ascii). destruct (p x); [lia|done].
  - rewrite IH, zlen_cons. destruct (p x); [lia|done].
Qed.

Lemma first_not_in_found set a c b :
  Forall (fun x => x ∈ set) a -> c ∉ set -> first_not_in set (a ++ c :: b) 0 = zlen a.
Proof.
  intros Ha Hc. unfold first_not_in. rewrite zdrop_0.
  assert (forall i, find_from (fun l => match l with x :: _ => negb (bool_decide (x ∈ set)) | [] => false end)
    (a ++ c :: b) i = i + zlen a) as ->; [|lia].
  induction Ha as [|x a Hx Ha IH]; intros i; cbn [app find_from].
  - rewrite bool_decide_eq_false_2 by done. cbn. rewrite (@zlen_nil ascii). lia.
  - rewrite bool_decide_eq_true_2 by done. cbn. rewrite IH, zlen_cons. lia.
Qed.

Lemma strip_ows_blank v : trimmed v -> zlen v < 2 ^ 62 -> strip_ows (" "%char :: v) = Ret v.
Proof.
  intros [H1 H2] Hl. destruct v as [|x r]; [done|]. specialize (H1 x r eq_refl).
  unfold strip_ows.
  assert (first_not_in OWS (" "%char :: x :: r) 0 = 1) as ->
    by (apply (first_not_in_found OWS [" "%char] x r); [repeat constructor|done]).
  change (1 =? npos) with false. cbv iota.
  destruct (x :: r) as [|y q _] eqn:E using rev_ind; [done|].
  specialize (H2 y q eq_refl). change (" "%char :: q ++ [y]) with ((" "%char :: q) ++ [y]).
  rewrite last_such_snoc, bool_decide_eq_false_2 by done. cbn [negb].
  rewrite zlen_app, zlen_cons, (@zlen_nil ascii) in Hl. pose proof (zlen_nonneg q).
  rewrite (zlen_cons " "%char q).
  rewrite (wrap_small 64 (0 + _ - 1)) by lia. rewrite wrap_small by lia.
  rewrite substr_in by zlia. f_equal. cbn [app].
  change (" "%char :: q ++ [y]) with ([" "%char] ++ q ++ [y]). rewrite zdrop_app by done.
  apply ztake_all. zlia.
Qed.

(** A prefix without [x] of a text ends before the first [x]. *)
Lemma prefix_before (x : ascii) (p q a b : bytes) :
  x ∉ p -> p ++ q = a ++ x :: b -> exists c, a = p ++ c.
Proof.
  revert a. induction p as [|y p IH]; intros a Hp Ep; [by exists a|].
  destruct a as [|z a]; cbn in Ep; injection Ep as -> Ep; [set_solver|].
  destruct (IH a) as [c ->]; [set_solver|done|]. by exists c.
Qed.

Lemma recv_hdr_line n v s :
  field_name n -> trimmed v -> zlen (header_line n v) < 2 ^ 62 ->
  recv_hdr (header_line n v) s = (Ret tt, set_hdr (map tolower n) v s).
Proof.
  intros (Hne & Hcol & Hsl) Hv Hl. unfold recv_hdr, header_line in *.
  assert (endswith (n ++ lit ": " ++ v ++ CRLF) CRLF = true) as ->
    by (apply bool_decide_eq_true_2; exists (n ++ lit ": " ++ v); assoc).
  cbn [negb]. pose proof (zlen_nonneg n). pose proof (zlen_nonneg v).
  rewrite !zlen_app in Hl. change (zlen CRLF) with 2 in Hl. change (zlen (lit ": ")) with 2 in Hl.
  replace (n ++ lit ": " ++ v ++ CRLF) with ((n ++ lit ": " ++ v) ++ CRLF) by assoc.
  rewrite (zlen_app _ CRLF). change (zlen CRLF) with 2.
  rewrite substr_in by zlia. rewrite zdrop_0, ztake_app by lia.
  unfold mbind, M_bind, lift.
  rewrite (proj2 (Z.eqb_neq _ _)) by (destruct n; [done|zlia]).
  assert (prefixb (lit "HTTP/") (n ++ lit ": " ++ v) = false) as ->.
  { apply not_true_is_false. intros [r E]%prefixb_inv.
    change (lit "HTTP/") with (lit "HTTP" ++ ["/"%char]) in E. rewrite <- app_assoc in E.
    symmetry in E. rewrite app_assoc in E.
    destruct (prefix_before ":" (lit "HTTP" ++ ["/"%char]) r n (" "%char :: v)) as [c ->];
      [apply (bool_decide_unpack _); vm_compute; exact I|exact E|].
    apply Hsl. set_solver. }
  cbn [orb]. rewrite (find_char_found _ ":" 0 [] n (" "%char :: v)) by done.
  rewrite (proj2 (Z.eqb_neq _ _)) by (unfold npos; lia).
  rewrite Z.add_0_l, !substr_in by zlia. rewrite zdrop_0, ztake_app by lia.
  replace (n ++ lit ": " ++ v) with ((n ++ [":"%char]) ++ " "%char :: v) by assoc.
  rewrite substr_in, zdrop_app by zlia. rewrite ztake_all by (unfold npos; zlia).
  rewrite strip_ows_blank by (done || lia). done.
Qed.

(** What a list of headers makes of the map. *)
Definition with_headers (hs : headers) (m : gmap bytes bytes) : gmap bytes bytes :=
  foldl (fun m h => <[map tolower h.1 := h.2]> m) m hs.
Definition set_hdrmap (m : gmap bytes bytes) (s : hst) : hst :=
  Hst (h_reply s) m (h_content s) (h_exptr s) (h_http_code s) (h_connect_to s) (h_noproxy s)
    (h_deferred s) (h_ctr s) (h_log s).

Definition header_events (hs : headers) : list curl_event :=
  map (fun h => Hdr (header_line h.1 h.2)) hs.
Definition sendable (h : bytes * bytes) : Prop :=
  field_name h.1 /\ trimmed h.2 /\ zlen (header_line h.1 h.2) < 2 ^ 62.

Lemma callback_Ret m s s' : m s = (Ret tt, s') -> callback m s = (Ret true, s').
Proof. intros E. unfold callback, try_M. by rewrite (M_bind_Ret _ _ _ _ _ E). Qed.

Lemma deliver_headers hs evs s : Forall sendable hs ->
  deliver (header_events hs ++ evs) s = deliver evs (set_hdrmap (with_headers hs (h_hdrmap s)) s).
Proof.
  intros H. revert s. induction H as [|h hs (H1 & H2 & H3) H IH]; intros s; [by destruct s|].
  cbn [header_events map app deliver].
  rewrite (M_bind_Ret _ _ s true (set_hdr (map tolower h.1) h.2 s)).
  { cbv beta iota. by rewrite IH. }
  by apply callback_Ret, recv_hdr_line.
Qed.

Lemma deliver_data pieces s :
  deliver (map Data pieces) s = (Ret true, set_content (h_content s ++ mjoin pieces) s).
Proof.
  revert s. induction pieces as [|d l IH]; intros s.
  - cbn. by rewrite app_nil_r; destruct s.
  - cbn [map deliver]. rewrite (M_bind_Ret _ _ s true (set_content (h_content s ++ d) s)) by done.
    rewrite IH. cbn. by rewrite <- app_assoc.
Qed.

Lemma svto_number t v : 1 <= it_width t -> in_type t v -> svto t (to_string v) 0 = Ret v.
Proof.
  intros Hw Hv. unfold svto.
  pose proof (svscan_to_string t v [] [] [] Hw Hv I ltac:(constructor)) as E.
  cbn [app] in E. rewrite !app_nil_r in E. rewrite (@zlen_nil ascii) in E. rewrite E.
  cbn [mbind outcome_bind]. by rewrite Z.eqb_refl.
Qed.

(** *** A server's reply is read back *)

(** The word of a cache-control header that gives a number of seconds. *)
Definition says (cc key : bytes) (v : Z) : Prop :=
  Forall (fun c => isspace c = true -> c = " "%char) cc
  /\ (first_value key (words cc) = to_string v \/ (first_value key (words cc) = [] /\ v = 0)).

Definition directive (key : bytes) : Prop := key <> [] /\ Forall (fun c => c ∉ lit ", ") key.

Lemma directive_value cc key v :
  directive key -> says cc key v -> zlen cc < npos -> in_type T_i64 v ->
  (s ← get_key_from_string cc key; if bool_decide (s = []) then Ret 0 else svto T_i64 s 0) = Ret v.
Proof.
  intros [Hk1 Hk2] [Hcc H] Hl Hv. rewrite get_key_from_string_scan by done.
  rewrite (key_scan_words key true) by done. cbn [mbind outcome_bind].
  destruct H as [->|[-> ->]]; [|done]. case_bool_decide as E.
  - unfold to_string in E. destruct (v <? 0) eqn:Hn; [discriminate|].
    apply Z.ltb_ge in Hn. destruct (to_string_u_head v Hn) as [[_ E1]|(c & l & E1 & _)];
      rewrite E1 in E; discriminate.
  - by apply svto_number.
Qed.

(** What the client's libcurl hands over when a server's response arrives,
    with an Age header when a cache on the way added one, and the body in
    pieces. *)
Definition with_age (hs : headers) (age : option Z) : headers :=
  hs ++ match age with Some a => [(lit "Age", to_string a)] | None => [] end.
Definition wire_events (hs : headers) (age : option Z) (pieces : list bytes) : list curl_event :=
  Hdr (lit "HTTP/1.1 200 OK" ++ CRLF)
  :: header_events (with_age hs age)
  ++ Hdr CRLF :: map Data pieces.

Lemma deliver_wire hs age pieces s :
  Forall sendable (with_age hs age) ->
  deliver (wire_events hs age pieces) s
  = (Ret true, set_content (h_content s ++ mjoin pieces)
       (set_hdrmap (with_headers (with_age hs age) (h_hdrmap s)) s)).
Proof.
  intros H. unfold wire_events. cbn [deliver].
  rewrite (M_bind_Ret _ _ s true s) by (by apply callback_Ret).
  rewrite deliver_headers by done. cbn [deliver].
  rewrite (M_bind_Ret _ _ _ true _) by (by apply callback_Ret).
  by rewrite deliver_data.
Qed.

Lemma trimmed_clean v : Forall (fun c => c ∉ OWS) v -> trimmed v.
Proof.
  intros H. split; intros x r ->; [by inversion H|].
  apply Forall_app in H as [_ H]. by inversion H.
Qed.

Lemma digits_clean n : 0 <= n -> Forall (fun c => c ∉ OWS) (to_string n).
Proof.
  intros Hn. rewrite to_string_u64 by done.
  eapply Forall_impl; [|by apply to_string_u_digits]. intros c Hc Hin.
  unfold OWS in Hin. rewrite !elem_of_cons, elem_of_nil in Hin.
  destruct Hin as [->|[->|[]]]; revert Hc; unfold is_digit; vm_compute; intuition discriminate.
Qed.

Lemma zlen_to_string n : 0 <= n < 2 ^ 64 -> zlen (to_string n) <= 20.
Proof. intros. rewrite to_string_u64 by lia. apply zlen_to_string_u; [|lia].
  assert (2 ^ 64 < 10 ^ 20) by done. lia.
Qed.

Lemma sendable_intro n v : field_name n -> trimmed v -> zlen n <= 100 -> zlen v < 2 ^ 61 ->
  sendable (n, v).
Proof. intros. split_and!; [done..|]. cbn [fst snd]. unfold header_line. rewrite !zlen_app.
  change (zlen CRLF) with 2. change (zlen (lit ": ")) with 2. lia.
Qed.

Lemma hexlownibble_clean v : hexlownibble v ∉ OWS.
Proof.
  unfold hexlownibble, OWS. intros Hin.
  assert (0 <= Z.land v 15 < 16) as Hr.
  { change 15 with (Z.ones 4). rewrite Z.land_ones by lia. apply Z.mod_pos_bound. lia. }
  rewrite !elem_of_cons, elem_of_nil in Hin. destruct Hin as [E|[E|[]]];
    apply (f_equal zc) in E; revert E; case_match; rewrite zc_chr by lia;
    [change (zc " ") with 32|change (zc " ") with 32|change (zc (chr 9)) with 9|change (zc (chr 9)) with 9]; lia.
Qed.

Lemma ctor73_threeroe r now cont ce a m e w :
  reply_ctor73 now cont ce a m e w = Ret r ->
  content_threeroe r = content_hexdigest cont /\ content r = cont /\ eno72 r = 0 /\ etag64 r = e
  /\ content_encoding r = ce.
Proof.
  unfold reply_ctor73, set_times. intros H.
  apply bind_Ret in H as (ma & _ & H). cbn [valid eno72 negb] in H.
  change (0 <=? 0) with true in H. cbn [negb] in H.
  apply bind_Ret in H as (x & _ & H). apply bind_Ret in H as (y & _ & H).
  apply bind_Ret in H as (z & _ & H). apply bind_Ret in H as (w' & _ & H).
  by injection H as <-.
Qed.

Lemma find_str_self l : find_str l l 0 = 0.
Proof. by apply (find_str_found l l [] []); [rewrite app_nil_r|intros j; zlia]. Qed.

Section ReadBack.
Context (cfg : http_config) (ck : http_clocks) (h : gmap bytes bytes).
Context (cc body enc : bytes) (etag : Z) (age : option Z) (max_age swr : Z).
Context (Hcc1 : says cc (lit "max-age=") max_age).
Context (Hcc2 : says cc (lit "stale-while-revalidate=") swr).
Context (Hlen : zlen cc < npos) (Hma : in_type T_i64 max_age) (Hswr : in_type T_i64 swr).
Context (Hetag : 0 <= etag < 2 ^ 64) (Hage : 0 <= default 0 age < 2 ^ 63).
Context (Hminor : 3 <= hc_minor cfg).

(** The headers of the server's reply, as the client keeps them. *)
Context (map_cc : h !! lit "cache-control" = Some cc).
Context (map_age : h !! lit "age" = option_map to_string age).
Context (map_etag : h !! lit "etag" = if etag =? 0 then None else Some (etag_mangle etag [])).
Context (map_trsum : h !! HHTRSUM = Some (content_hexdigest body)).
Context (map_encoding : default [] (h !! lit "content-encoding") = enc).
Context (map_cookie : h !! HHCOOKIE = None).

Lemma read_age : get_age h = Ret (default 0 age).
Proof.
  unfold get_age. rewrite map_age. destruct age as [a|]; [|done].
  change (default 0 (Some a)) with a in *. cbn [option_map].
  rewrite svto_number; [|done|unfold in_type; cbn [it_signed it_width T_u64]; lia].
  cbn [mbind outcome_bind].
  rewrite swrap_small by lia. done.
Qed.

Lemma read_max_age : get_max_age h = Ret max_age.
Proof.
  unfold get_max_age. rewrite map_cc. rewrite (directive_value cc (lit "max-age=") max_age); [done| |done..].
  split; [discriminate|]. apply (bool_decide_unpack _). vm_compute. exact I.
Qed.

Lemma read_swr : get_stale_while_revalidate h = Ret swr.
Proof.
  unfold get_stale_while_revalidate. rewrite map_cc.
  rewrite (directive_value cc (lit "stale-while-revalidate=") swr); [done| |done..].
  split; [discriminate|]. apply (bool_decide_unpack _). vm_compute. exact I.
Qed.

Lemma read_etag : get_etag64 h = Ret etag.
Proof.
  unfold get_etag64. rewrite map_etag. destruct (etag =? 0) eqn:E; [by apply Z.eqb_eq in E as ->|].
  unfold etag_mangle. change (etag_h []) with 0. rewrite Z.lxor_0_r.
  by rewrite parse_quoted_etag_mangled, E.
Qed.

Lemma read_headers r :
  reply_ctor73 (ck_reply ck) body (encoding_stoi enc) (default 0 age) max_age etag swr = Ret r ->
  reply_of_headers cfg ck h (default 0 age) max_age swr body = Ret r.
Proof.
  intros Hr. unfold reply_of_headers. rewrite (proj2 (Z.ltb_ge _ _)) by done.
  cbn [mbind outcome_bind]. rewrite read_etag. cbn [mbind outcome_bind].
  rewrite map_encoding, map_cookie. exact Hr.
Qed.

Lemma getreply_reads r s :
  reply_ctor73 (ck_reply ck) body (encoding_stoi enc) (default 0 age) max_age etag swr = Ret r ->
  h_hdrmap s = h -> h_content s = body -> h_http_code s = 200 ->
  getreply cfg ck s = (Ret true, set_content [] (set_reply r s)).
Proof.
  intros Hr Hm Hc Hcode. destruct (ctor73_threeroe _ _ _ _ _ _ _ _ Hr) as (Ht & _).
  unfold getreply. rewrite (M_bind_Ret get _ s s s) by done. cbv beta zeta. rewrite Hcode.
  change (negb ((200 =? 200) || (200 =? 304))) with false. change (200 =? 304) with false. cbv iota.
  rewrite Hm, Hc, (lift_bind _ _ _ _ read_age), (lift_bind _ _ _ _ read_max_age),
    (lift_bind _ _ _ _ read_swr), (lift_bind _ _ _ _ (read_headers r Hr)).
  rewrite (M_bind_Ret _ _ s tt (set_content [] (set_reply r s))) by done. cbv beta. unfold check_reply.
  rewrite map_trsum, Ht, find_str_self. change (0 =? npos) with false. cbv iota.
  rewrite (proj2 (Z.ltb_ge _ 3)) by done. done.
Qed.

End ReadBack.

(** The headers are fit to send when the cache-control of the handler is. *)
Lemma reply_headers_sendable pre cc body etag age :
  Forall sendable pre -> trimmed cc -> zlen cc < 2 ^ 61 -> 0 <= etag < 2 ^ 64 -> 0 <= default 0 age < 2 ^ 63 ->
  Forall sendable (with_age (plaintext_headers GET pre cc body etag) age).
Proof.
  intros Hpre Ht Hl Hetag Hage. unfold with_age.
  assert (forall n v, bool_decide (n <> [] /\ (":"%char ∉ n) /\ "/"%char ∉ n) && (zlen n <=? 100) = true ->
    trimmed v -> zlen v < 2 ^ 61 -> sendable (n, v)) as Hn.
  { intros n v [H1 H2]%andb_true_iff Hv Hz. apply bool_decide_eq_true in H1. apply Z.leb_le in H2.
    by apply sendable_intro. }
  assert (forall v, bool_decide (Forall (fun c => c ∉ OWS) v) = true -> trimmed v) as Hc
    by (intros v H%bool_decide_eq_true; by apply trimmed_clean).
  unfold plaintext_headers. rewrite decide_True by done.
  rewrite !Forall_app. split_and!.
  - exact Hpre.
  - constructor; [by apply Hn; [|done|lia]|]. constructor; [|done]. by apply Hn; [|by apply Hc|].
  - destruct (etag =? 0) eqn:E; [done|]. apply Forall_singleton.
    unfold etag_mangle. change (etag_h []) with 0. rewrite Z.lxor_0_r.
    apply Hn; [done|apply trimmed_clean|].
    + constructor; [apply (bool_decide_unpack _); vm_compute; exact I|].
      apply Forall_app; split; [apply digits_clean; lia|].
      apply Forall_singleton, (bool_decide_unpack _). vm_compute. exact I.
    + pose proof (zlen_to_string etag Hetag). zlia.
  - apply Forall_singleton. apply Hn; [done|apply trimmed_clean|].
    + eapply Forall_impl; [|apply hexdigest_chars]. intros c [v ->]. apply hexlownibble_clean.
    + unfold zlen. by rewrite length_hexdigest.
  - destruct age as [a|]; [|done]. change (default 0 (Some a)) with a in *. apply Forall_singleton.
    apply Hn; [done|apply trimmed_clean, digits_clean; lia|].
    pose proof (zlen_to_string a ltac:(lia)). lia.
Qed.

(** What becomes of the headers of a plaintext reply to a GET that has [pre]
    in front. *)
Definition reply_map (pre : headers) (cc body : bytes) (etag : Z) (age : option Z) : gmap bytes bytes :=
  with_headers (with_age (plaintext_headers GET pre cc body etag) age) ∅.

Ltac look_headers := unfold reply_map, with_age, with_headers, plaintext_headers; rewrite ?decide_True by done;
  match goal with |- context [?e =? 0] => destruct (e =? 0) end;
  match goal with a : option Z |- _ => destruct a end; cbn [app foldl fst snd];
  repeat first [rewrite (lookup_insert_ne (M := gmap bytes)) by (vm_compute; discriminate)
               |rewrite (lookup_insert_eq (M := gmap bytes)) by (vm_compute; reflexivity)
               |rewrite (lookup_insert (M := gmap bytes))]; reflexivity.

Section ReplyMap.
Context (cc body : bytes) (etag : Z) (age : option Z).
#[local] Abbreviation h := (reply_map [] cc body etag age).
Lemma map_cc : h !! lit "cache-control" = Some cc.
Proof. look_headers. Qed.
Lemma map_age : h !! lit "age" = option_map to_string age.
Proof. look_headers. Qed.
Lemma map_etag : h !! lit "etag" = if etag =? 0 then None else Some (etag_mangle etag []).
Proof. look_headers. Qed.
Lemma map_trsum : h !! HHTRSUM = Some (content_hexdigest body).
Proof. look_headers. Qed.
Lemma map_encoding : default [] (h !! lit "content-encoding") = [].
Proof. look_headers. Qed.
Lemma map_cookie : h !! HHCOOKIE = None.
Proof. look_headers. Qed.
End ReplyMap.
