(* ===== verification/HttpRefresh.v ===== *)
(** * What a refresh over HTTP does (exe/fs123p7/backend123_http.cpp)

    Theorems on [BackendHttp.refresh] and the [curl_handler] under it: a
    server's reply arrives in the client's [reply123]; redirects end, with a
    bounded number of requests; the base url is the first that is not deferred
    or the least deferred, and a failure defers it; and what the caller's
    reply is after each outcome, in terms of the fields and the body of the
    last response, which have a specification of their own here ([field],
    [fields], [body_of]). *)

From Stdlib Require Import Ascii String ZArith Lia.
From stdpp Require Import base gmap strings list numbers.
From S2P Require Import Prelude.
From S2P Require Import StrUtils.
From S2P Require Import PathUtils.
From S2P Require Import SvTo.
From S2P Require Import Netstring.
From S2P Require Import ContentCodec.
From S2P Require Import Expiring.
From S2P Require Import Backend.
From S2P Require Import ServerParse.
From S2P Require Import ServerReply.
From S2P Require Import BackendHttp.

#[local] Open Scope Z_scope.

(** ** The base url that is used *)

Lemma choose_loop_spec started l : forall i imin m,
  let k := choose_loop started l i imin m in
  (exists j d, l !! j = Some d /\ k = i + Z.of_nat j /\ d < started
     /\ forall j' d', (j' < j)%nat -> l !! j' = Some d' -> started <= d')
  \/ ((forall d, d ∈ l -> started <= d)
      /\ ((k = imin /\ forall d, d ∈ l -> m <= d)
          \/ exists j d, l !! j = Some d /\ k = i + Z.of_nat j /\ d < m
               /\ forall d', d' ∈ l -> d <= d')).
Proof.
  induction l as [|x l IH]; intros i imin m; cbn zeta in *; cbn [choose_loop].
  { right. split; [set_solver|]. left. split; [done|set_solver]. }
  set (p := if x <? m then (i, x) else (imin, m)).
  assert (p = (i, x) /\ x < m \/ p = (imin, m) /\ m <= x) as Hp
    by (unfold p; destruct (Z.ltb_spec x m); [left|right]; split; done || lia).
  destruct p as [imin' m'] eqn:Ep. clear Ep p.
  destruct (Z.leb_spec started x) as [Hle|Hlt].
  2: { left. exists 0%nat, x. split_and!; [done|lia|done|lia]. }
  destruct (IH (i + 1) imin' m') as [(j & d & H1 & H2 & H3 & H4)|[Hall H]].
  - left. exists (S j), d. split_and!; [done|lia|done|].
    intros [|j'] d' Hj Hd; cbn in Hd; [by simplify_eq|]. apply (H4 j'); [lia|done].
  - right. split; [intros d [->|Hd]%elem_of_cons; auto|].
    destruct H as [[Ek Hm]|(j & d & H1 & H2 & H3 & H4)].
    + destruct Hp as [[[= -> ->] Hx]|[[= -> ->] Hx]]; [right|left].
      * exists 0%nat, x. split_and!; [done|lia|done|].
        intros d' [->|Hd]%elem_of_cons; [lia|auto].
      * split; [done|]. intros d [->|Hd]%elem_of_cons; auto.
    + right. exists (S j), d. destruct Hp as [[[= -> ->] Hx]|[[= -> ->] Hx]];
        (split_and!; [done|lia|lia|]; intros d' [->|Hd]%elem_of_cons; [lia|auto]).
Qed.

(** Not deferred, and the first such; or the least deferred of all. *)
Definition best_url (started : Z) (l : list Z) (k : Z) : Prop :=
  exists d, zget l k = Some d
    /\ ((d < started /\ forall j d', 0 <= j < k -> zget l j = Some d' -> started <= d')
        \/ ((forall d', d' ∈ l -> started <= d') /\ forall d', d' ∈ l -> d <= d')).

Lemma zget_nat {A} (l : list A) (j : nat) : zget l (Z.of_nat j) = l !! j.
Proof.
  unfold zget. destruct ((0 <=? Z.of_nat j) && (Z.of_nat j <? zlen l)) eqn:E.
  - by rewrite Nat2Z.id.
  - symmetry. apply lookup_ge_None_2. unfold zlen in E. lia.
Qed.

Lemma choose_url_best started l : l <> [] ->
  exists k, choose_url started l = Ret k /\ best_url started l k.
Proof.
  destruct l as [|x l]; [done|]. intros _. cbn [choose_url]. eexists. split; [done|].
  destruct (Z.leb_spec started x) as [Hle|Hlt].
  2: { exists x. split; [apply (zget_nat (x :: l) 0)|]. left. split; [done|lia]. }
  destruct (choose_loop_spec started l 1 0 x) as [(j & d & H1 & -> & H3 & H4)|[Hall H]].
  - exists d. replace (1 + Z.of_nat j) with (Z.of_nat (S j)) by lia. rewrite zget_nat. split; [done|].
    left. split; [done|]. intros j' d' Hj Hd. rewrite <- (Z2Nat.id j'), zget_nat in Hd by lia.
    destruct (Z.to_nat j') as [|n] eqn:En; cbn in Hd; [by simplify_eq|]. apply (H4 n); [lia|done].
  - destruct H as [[-> Hm]|(j & d & H1 & -> & H3 & H4)].
    + exists x. split; [apply (zget_nat (x :: l) 0)|]. right.
      split; intros d' [->|Hd]%elem_of_cons; auto; lia.
    + exists d. replace (1 + Z.of_nat j) with (Z.of_nat (S j)) by lia. rewrite zget_nat. split; [done|].
      right. split; intros d' [->|Hd]%elem_of_cons; auto; lia.
Qed.

Lemma zget_Some {A} (l : list A) k x : zget l k = Some x -> 0 <= k < zlen l /\ l !! Z.to_nat k = Some x.
Proof. unfold zget. destruct ((0 <=? k) && (k <? zlen l)) eqn:E; [|done]. split; [lia|done]. Qed.

Lemma zget_lt {A} (l : list A) k : 0 <= k < zlen l -> exists x, zget l k = Some x.
Proof.
  intros H. unfold zget. rewrite (proj2 (andb_true_iff _ _)) by lia.
  apply lookup_lt_is_Some_2. unfold zlen in H. lia.
Qed.

(** ** One request *)

Section Refresh.
Context {LC : Libcurl} (aicache_lookup : bytes -> list (option bytes)).
Context (cfg : http_config) (ck : http_clocks).
Implicit Type s : hst.

#[local] Abbreviation pwf := (perform_without_fallback aicache_lookup cfg ck).

Lemma resolve_cases u s : exists c t, resolve aicache_lookup cfg u s = (Ret tt, set_connect c t s).
Proof.
  unfold resolve. destruct (namecache cfg && negb (do_not_lookup u)); cbv zeta.
  2: { exists (h_ctr s), (h_connect_to s). by destruct s. }
  case_bool_decide; [exists (h_ctr s), (h_connect_to s); by destruct s|].
  rewrite (M_bind_Ret get _ s s s) by done. by do 2 eexists.
Qed.

(** A request that succeeds at once, without a redirect. *)
Lemma perform_once_ok follow url hdrs depth s a s1 :
  curl_perform (h_log s) (the_request cfg url hdrs s) = a ->
  deliver (ca_events a) (log_request (the_request cfg url hdrs s) s) = (Ret true, s1) ->
  ca_code a = 0 -> ca_redirect_url a = None ->
  perform_once cfg ck follow url hdrs depth s = getreply cfg ck (set_http_code (ca_http_code a) s1).
Proof.
  intros Ha Hd Hc Hr. unfold perform_once.
  rewrite (M_bind_Ret _ _ s (0, a) s1).
  2: { unfold curl_easy_perform. rewrite Ha, (M_bind_Ret _ _ _ _ _ Hd). by rewrite Hc. }
  rewrite (M_bind_Ret _ _ s1 (0, a) s1) by done. rewrite (M_bind_Ret _ _ s1 (0, a) s1) by done.
  cbv beta iota. change (negb (0 =? 0)) with false. cbv iota.
  rewrite (M_bind_Ret _ _ s1 tt (set_http_code (ca_http_code a) s1)) by done.
  by rewrite Hr.
Qed.

(** Whatever base url is chosen, [perform_with_fallback] returns what the
    request to it does. *)
Lemma fallback_Ret headers urlstem s P :
  baseurls cfg <> [] -> zlen (h_deferred s) = zlen (baseurls cfg) ->
  (forall u, exists b s', pwf (redirect_fuel cfg) headers u urlstem 0 s = (Ret b, s') /\ P b s') ->
  exists b s', perform_with_fallback aicache_lookup cfg ck headers urlstem s = (Ret b, s') /\ P b s'.
Proof.
  intros Hne Hlen H. unfold perform_with_fallback.
  assert (forall k, 0 <= k < zlen (baseurls cfg) -> exists u, url_at cfg k s = (Ret u, s)) as Hat.
  { intros k Hk. destruct (zget_lt _ _ Hk) as [u E]. exists u. unfold url_at. by rewrite E. }
  destruct (Z.ltb_spec (zlen (baseurls cfg)) 2).
  - destruct (Hat 0) as [u E]; [destruct (baseurls cfg); [done|zlia]|].
    rewrite (M_bind_Ret _ _ _ _ _ E). apply H.
  - rewrite (M_bind_Ret get _ s s s) by done.
    destruct (choose_url_best (ck_start ck) (h_deferred s)) as (k & Ek & d & Hd & _);
      [intros E; rewrite E in Hlen; revert Hlen; change (zlen (@nil Z)) with 0; lia|].
    apply zget_Some in Hd as [Hk _]. rewrite Hlen in Hk.
    rewrite (lift_bind _ _ _ _ Ek). destruct (Hat k Hk) as [u E]. destruct (H u) as (b & s' & Eb & HP).
    exists b, s'. unfold try_M. by rewrite (M_bind_Ret _ _ _ _ _ E), Eb.
Qed.
End Refresh.

(** A response whose headers are what the client wants to know. *)
Lemma response_arrives aicache_lookup cfg ck hs cc enc body etag age max_age swr pieces r req s
    {LC : Libcurl} :
  let h := with_headers (with_age hs age) ∅ in
  (forall past q, curl_perform past q = CurlAnswer (wire_events hs age pieces) 0 200 0 None) ->
  mjoin pieces = body -> Forall sendable (with_age hs age) ->
  h !! lit "cache-control" = Some cc -> h !! lit "age" = option_map to_string age ->
  h !! lit "etag" = (if etag =? 0 then None else Some (etag_mangle etag [])) ->
  h !! HHTRSUM = Some (content_hexdigest body) ->
  default [] (h !! lit "content-encoding") = enc -> h !! HHCOOKIE = None ->
  says cc (lit "max-age=") max_age -> says cc (lit "stale-while-revalidate=") swr ->
  zlen cc < npos -> in_type T_i64 max_age -> in_type T_i64 swr ->
  0 <= etag < 2 ^ 64 -> 0 <= default 0 age < 2 ^ 63 -> 3 <= hc_minor cfg ->
  reply_ctor73 (ck_reply ck) body (encoding_stoi enc) (default 0 age) max_age etag swr = Ret r ->
  no_cache req = true \/ fresh (ck_fresh ck) (h_reply s) = false ->
  disconnected cfg = false -> baseurls cfg <> [] -> zlen (h_deferred s) = zlen (baseurls cfg) ->
  exists s', refresh aicache_lookup cfg ck req s = (Ret true, s') /\ h_reply s' = r.
Proof.
  intros h HLC Hbody Hsend Mcc Mage Metag Mtr Menc Mco Hma Hswr Hcc Tma Tswr Hetag Hage Hmin Hr Hfresh Hdis Hne Hlen.
  destruct (fallback_Ret aicache_lookup cfg ck (request_headers cfg req (h_reply s)) (urlstem req) (new_handler s)
    (fun b s' => b = true /\ h_reply s' = r)) as (b & s' & E & -> & Es); [done..| |].
  - intros u. destruct (resolve_cases aicache_lookup cfg u (new_handler s)) as (c & t & Eu).
    do 2 eexists. unfold redirect_fuel. cbn [perform_without_fallback].
    rewrite (M_bind_Ret _ _ _ _ _ Eu). split.
    + erewrite perform_once_ok; [|apply HLC| |done..].
      2: { cbn [ca_events]. by apply deliver_wire. }
      by apply (getreply_reads cfg ck h cc body enc etag age max_age swr).
    + done.
  - exists s'. split; [|done]. unfold refresh, try_M. rewrite (M_bind_Ret get _ s s s) by done.
    assert (negb (no_cache req) && fresh (ck_fresh ck) (h_reply s) = false) as ->
      by (destruct Hfresh as [->| ->]; [done|apply andb_false_r]).
    rewrite Hdis, (M_bind_Ret _ _ s tt (new_handler s)) by done. by rewrite E.
Qed.

(** C8.  What a server replies arrives: when every request is answered by the
    response [fs123server] makes of a handler's cache-control header, tag and
    body (with an Age header if a cache on the way added one, and the body in
    any pieces), refreshing a reply that is not fresh, over any base urls with
    any deferrals, through the address cache or not, succeeds, and the reply
    has that body with its digest, that tag, no errno, and the times that
    the directives [max-age] and [stale-while-revalidate] of the header and
    the age give. *)
Theorem server_reply_arrives aicache_lookup cfg ck cc body etag age max_age swr pieces r req s
    {LC : Libcurl} :
  (forall past q, curl_perform past q
     = CurlAnswer (wire_events (plaintext_headers GET [] cc body etag) age pieces) 0 200 0 None) ->
  mjoin pieces = body ->
  says cc (lit "max-age=") max_age -> says cc (lit "stale-while-revalidate=") swr ->
  trimmed cc -> zlen cc < 2 ^ 61 -> in_type T_i64 max_age -> in_type T_i64 swr ->
  0 <= etag < 2 ^ 64 -> 0 <= default 0 age < 2 ^ 63 -> 3 <= hc_minor cfg ->
  reply_ctor73 (ck_reply ck) body CE_IDENT (default 0 age) max_age etag swr = Ret r ->
  no_cache req = true \/ fresh (ck_fresh ck) (h_reply s) = false ->
  disconnected cfg = false -> baseurls cfg <> [] -> zlen (h_deferred s) = zlen (baseurls cfg) ->
  exists s', refresh aicache_lookup cfg ck req s = (Ret true, s')
    /\ h_reply s' = r /\ content r = body /\ content_threeroe r = content_hexdigest body
    /\ etag64 r = etag /\ eno72 r = 0.
Proof.
  intros HLC Hbody Hma Hswr Htrim Hcc Tma Tswr Hetag Hage Hmin Hr Hfresh Hdis Hne Hlen.
  destruct (ctor73_threeroe _ _ _ _ _ _ _ _ Hr) as (H1 & H2 & H3 & H4 & _).
  edestruct (response_arrives aicache_lookup cfg ck (plaintext_headers GET [] cc body etag) cc [] body etag age
    max_age swr pieces r req s) as (s' & E & Es); try done.
  - by apply reply_headers_sendable.
  - apply map_cc.
  - apply map_age.
  - apply map_etag.
  - apply map_trsum.
  - apply map_encoding.
  - apply map_cookie.
  - unfold npos. lia.
  - by exists s'.
Qed.

(** A server at the other end of every request. *)
Definition url_ex : bytes := lit "http://fs.example.org/fs123/7/3".
Definition cfg_ex : http_config :=
  HttpConfig [url_info_ctor url_ex; url_info_ctor (lit "http://10.0.0.1/fs123/7/3")]
    [] true false 2 false false (lit "v1") 3.
Definition ck_ex : http_clocks := HttpClocks 50 100 (3 * 10 ^ 9) (200 * 10 ^ 9).
Definition cc_ex : bytes := lit "max-age=30,stale-while-revalidate=5".
#[local] Instance curl_ex : Libcurl := fun _ _ =>
  CurlAnswer (wire_events (plaintext_headers GET [] cc_ex (lit "hello") 77) (Some 3)
                [lit "he"; lit "llo"]) 0 200 0 None.
Definition hst_ex (r : reply123) : hst := Hst r ∅ [] None 0 [] false [tp_min; tp_min] 0 [].
Definition reply_ex : reply123 :=
  Reply MAGIC 0 (227 * 10 ^ 9) 77 (197 * 10 ^ 9) (5 * 10 ^ 9) 0 (-1) CNO_MISSING CE_IDENT
    (content_hexdigest (lit "hello")) (lit "hello").
Definition req_ex : req123 := Req (lit "/f/a?128;0") 0 0 false None false.

Lemma blank_ex (l : bytes) :
  forallb (fun c => negb (isspace c) || bool_decide (c = " "%char)) l = true ->
  Forall (fun c => isspace c = true -> c = " "%char) l.
Proof.
  induction l as [|c l IH]; cbn [forallb]; [by constructor|].
  intros [H1 H2]%andb_true_iff. constructor; [|by apply IH].
  intros Hs. rewrite Hs in H1. by apply bool_decide_eq_true in H1.
Qed.

Lemma server_reply_arrives_witness :
  exists s', refresh (fun _ => [Some (lit "10.0.0.7")]) cfg_ex ck_ex req_ex (hst_ex reply_default)
               = (Ret true, s')
    /\ h_reply s' = reply_ex /\ content reply_ex = lit "hello"
    /\ content_threeroe reply_ex = content_hexdigest (lit "hello")
    /\ etag64 reply_ex = 77 /\ eno72 reply_ex = 0.
Proof.
  apply (server_reply_arrives (fun _ => [Some (lit "10.0.0.7")]) cfg_ex ck_ex cc_ex (lit "hello") 77 (Some 3)
    30 5 [lit "he"; lit "llo"] reply_ex req_ex (hst_ex reply_default)).
  - reflexivity.
  - reflexivity.
  - split; [apply blank_ex; vm_compute; reflexivity|left; vm_compute; reflexivity].
  - split; [apply blank_ex; vm_compute; reflexivity|left; vm_compute; reflexivity].
  - apply trimmed_clean, (bool_decide_unpack _). vm_compute. exact I.
  - vm_compute. reflexivity.
  - vm_compute. intuition discriminate.
  - vm_compute. intuition discriminate.
  - lia.
  - cbn. lia.
  - cbn. lia.
  - vm_compute. reflexivity.
  - right. reflexivity.
  - reflexivity.
  - discriminate.
  - reflexivity.
Defined.

(** ** What stays as it is

    [still f m]: the part [f] of the state is the same after [m]. *)

Definition still {A B} (f : hst -> B) (m : M hst A) : Prop := forall s, f (m s).2 = f s.

Lemma still_bind {A B C} (f : hst -> C) (m : M hst A) (k : A -> M hst B) :
  still f m -> (forall a, still f (k a)) -> still f (m ≫= k).
Proof.
  intros Hm Hk s. unfold mbind, M_bind. specialize (Hm s).
  destruct (m s) as [[a|e|] s1]; cbn in *; [|done..]. by rewrite (Hk a).
Qed.
Lemma still_try {A C} (f : hst -> C) (m : M hst A) h :
  still f m -> (forall e, still f (h e)) -> still f (try_M m h).
Proof.
  intros Hm Hh s. unfold try_M. specialize (Hm s).
  destruct (m s) as [[a|e|] s1]; cbn in *; [done| |done]. by rewrite (Hh e).
Qed.
Lemma still_ret {A C} (f : hst -> C) (a : A) : still f (mret a).
Proof. by intros s. Qed.
Lemma still_raise {A C} (f : hst -> C) e : still f (raise (A := A) e).
Proof. by intros s. Qed.
Lemma still_lift {A C} (f : hst -> C) (m : outcome A) : still f (lift m).
Proof. by intros s. Qed.
Lemma still_get {C} (f : hst -> C) : still f get.
Proof. by intros s. Qed.
Lemma still_modify {C} (f : hst -> C) g : (forall s, f (g s) = f s) -> still f (modify g).
Proof. intros H s. apply H. Qed.
#[local] Hint Resolve still_ret still_raise still_lift still_get still_modify : fs123.

Ltac still := repeat first
  [ solve [auto with fs123]
  | apply still_bind; [|intros ?]
  | apply still_try; [|intros ?]
  | match goal with
    | |- still _ (if ?b then _ else _) => destruct b
    | |- still _ (match ?x with _ => _ end) => destruct x
    | |- still _ (let '(_, _) := ?x in _) => destruct x
    end ].

Section Still.
Context {LC : Libcurl} (aicache_lookup : bytes -> list (option bytes)).
Context (cfg : http_config) (ck : http_clocks).
Context {C : Type} (f : hst -> C).
Context (f_hdr : forall k v s, f (set_hdr k v s) = f s).
Context (f_content : forall c s, f (set_content c s) = f s).
Context (f_exptr : forall e s, f (set_exptr e s) = f s).
Context (f_code : forall c s, f (set_http_code c s) = f s).
Context (f_noproxy : forall s, f (set_noproxy s) = f s).
Context (f_connect : forall c t s, f (set_connect c t s) = f s).
Context (f_log : forall r s, f (log_request r s) = f s).
Context (f_reset : forall s, f (reset s) = f s).

Lemma still_deliver evs : still f (deliver evs).
Proof.
  induction evs as [|ev evs IH]; cbn [deliver]; [apply still_ret|].
  apply still_bind; [|by intros []; still]. destruct ev as [l|l];
    unfold header_callback, write_callback, callback, recv_hdr, recv_data; cbv zeta; still.
Qed.

Lemma still_perform url hdrs : still f (curl_easy_perform cfg url hdrs).
Proof.
  intros s. unfold curl_easy_perform. cbv zeta.
  rewrite <- (f_log (the_request cfg url hdrs s) s).
  generalize (log_request (the_request cfg url hdrs s) s).
  apply still_bind; [apply still_deliver|]. intros ok. apply still_ret.
Qed.

Lemma still_again url hdrs r : still f (perform_again_if_empty cfg url hdrs r).
Proof. unfold perform_again_if_empty. still; apply still_perform. Qed.

Lemma still_resolve u : still f (resolve aicache_lookup cfg u).
Proof. intros s. destruct (resolve_cases aicache_lookup cfg u s) as (c & t & ->). apply f_connect. Qed.
End Still.

(** ** The last response

    What of it is told apart: its lines, and its body. *)

(** A line that has no field: the empty one, or a status line. *)
Definition no_field (l : bytes) : Prop := l = CRLF \/ exists r, l = lit "HTTP/" ++ r ++ CRLF.
(** A field: a name, without regard to case, the first colon, and a value with
    blanks and tabs around it. *)
Definition field (l k v : bytes) : Prop := exists n a b,
  l = n ++ [":"%char] ++ a ++ v ++ b ++ CRLF /\ (":"%char ∉ n) /\ k = map tolower n
  /\ Forall (fun c => c ∈ OWS) a /\ Forall (fun c => c ∈ OWS) b /\ trimmed v.

(** The fields of the lines, a later one in place of an earlier one of the same
    name. *)
Inductive fields : gmap bytes bytes -> list curl_event -> gmap bytes bytes -> Prop :=
| Fields_end h : fields h [] h
| Fields_data h p evs h' : fields h evs h' -> fields h (Data p :: evs) h'
| Fields_none h l evs h' : no_field l -> fields h evs h' -> fields h (Hdr l :: evs) h'
| Fields_field h l k v evs h' : field l k v -> fields (<[k := v]> h) evs h' -> fields h (Hdr l :: evs) h'.

Fixpoint body_of (evs : list curl_event) : bytes :=
  match evs with
  | [] => []
  | Hdr _ :: evs => body_of evs
  | Data p :: evs => p ++ body_of evs
  end.

Definition short_lines (evs : list curl_event) : Prop := forall l, Hdr l ∈ evs -> zlen l < 2 ^ 62.

(** From [s] to [s'], the last request succeeded, with a status, with the
    fields [h] (of lines whose lengths fit in 62 bits) and the body [cont]. *)
Definition last_response {LC : Libcurl} (s s' : hst) (code : Z) (h : gmap bytes bytes) (cont : bytes) : Prop :=
  exists more q, h_log s' = (h_log s ++ more) ++ [q] /\
    let a := curl_perform (h_log s ++ more) q in
    ca_code a = 0 /\ ca_http_code a = code /\ cont = body_of (ca_events a)
    /\ (short_lines (ca_events a) -> fields ∅ (ca_events a) h).

Lemma strip_ows_spec w v : zlen w < 2 ^ 62 -> strip_ows w = Ret v ->
  exists a b, w = a ++ v ++ b /\ Forall (fun c => c ∈ OWS) a /\ Forall (fun c => c ∈ OWS) b /\ trimmed v.
Proof.
  intros Hw. unfold strip_ows.
  assert (Forall (fun c => c ∈ OWS) w
          \/ exists a c d, w = a ++ c :: d /\ Forall (fun c => c ∈ OWS) a /\ c ∉ OWS) as Hf.
  { clear. induction w as [|x w IH]; [by left; constructor|]. destruct (decide (x ∈ OWS)) as [Hx|Hx].
    - destruct IH as [H|(a & c & d & -> & Ha & Hc)]; [left; by constructor|right].
      exists (x :: a), c, d. split_and!; [done|by constructor|done].
    - right. exists [], x, w. split_and!; [done|constructor|done]. }
  destruct Hf as [Hf|(a & c & d & -> & Ha & Hc)].
  - assert (first_not_in OWS w 0 = npos) as ->.
    { unfold first_not_in. rewrite zdrop_0. generalize 0. clear Hw.
      induction Hf as [|x l Hx Hl IH]; intros i; cbn [find_from]; [done|].
      rewrite bool_decide_eq_true_2 by done. apply IH. }
    intros [= <-]. exists w, []. split_and!; [by rewrite app_nil_r|done|constructor|].
    split; intros x r E; [done|by destruct r].
  - rewrite (first_not_in_found OWS a c d) by done. rewrite zlen_app, zlen_cons in Hw.
    pose proof (zlen_nonneg a) as Hna. pose proof (zlen_nonneg d) as Hnd.
    rewrite (proj2 (Z.eqb_neq _ _)) by (unfold npos; lia).
    set (p := fun x => negb (bool_decide (x ∈ OWS))).
    destruct (PathUtils.last_such_spec p (a ++ c :: d) 0 npos) as [(_ & Hall)|(u & x & b & E & Hx & Hb & ->)].
    { exfalso. apply Forall_app in Hall as [_ Hall]. apply Forall_inv in Hall. unfold p in Hall.
      by rewrite bool_decide_eq_false_2 in Hall. }
    assert (Forall (fun c => c ∈ OWS) b) as Hb'.
    { revert Hb. apply Forall_impl. intros y Hy. unfold p in Hy.
      by apply negb_false_iff, bool_decide_eq_true in Hy. }
    assert (x ∉ OWS) as Hx' by (unfold p in Hx; by apply negb_true_iff, bool_decide_eq_false in Hx).
    assert (exists e, u ++ [x] = a ++ e /\ c :: d = e ++ b
                      /\ (forall y r, e = y :: r -> y = c) /\ 1 <= zlen e) as (e & Ee & Ed & He & Hne).
    { destruct (List.app_eq_app _ _ _ _ E) as (k & [[-> Ek]|[-> Ek]]).
      - destruct k as [|y k]; cbn in Ek.
        + injection Ek as -> ->. exists [c]. rewrite app_nil_r. by split_and!; [..|intros ? ? [= <- _]|].
        + injection Ek as <- _. exfalso. apply Hx'. apply Forall_app in Ha as [_ Ha]. by apply Forall_inv in Ha.
      - exists (k ++ [x]). split; [by rewrite <- app_assoc|]. split; [by rewrite <- app_assoc|].
        split; [|zlia]. intros y r Ey. destruct k; cbn in *; congruence. }
    assert (a ++ c :: d = a ++ e ++ b) as -> by by rewrite Ed.
    assert (zlen u = zlen a + zlen e - 1) as Hu.
    { apply (f_equal zlen) in Ee. rewrite !zlen_app in Ee. change (zlen [x]) with 1 in Ee. lia. }
    assert (zlen e <= 1 + zlen d) as Hle.
    { apply (f_equal zlen) in Ed. rewrite zlen_app, zlen_cons in Ed. pose proof (zlen_nonneg b). lia. }
    pose proof (zlen_nonneg u).
    rewrite (wrap_small 64 (0 + zlen u - zlen a)) by lia.
    rewrite wrap_small by lia.
    rewrite substr_in by zlia. rewrite zdrop_app by done.
    replace (0 + zlen u - zlen a + 1) with (zlen e) by lia. rewrite ztake_app by done.
    intros [= <-]. exists a, b. split_and!; [done..|]. split.
    + intros y r Ey. rewrite (He y r Ey). done.
    + intros y r Ey. rewrite Ey, app_assoc in Ee. apply app_inj_tail in Ee as [_ <-]. done.
Qed.

(** What the callbacks make of a line, of a piece and of them all. *)
Lemma recv_hdr_spec l s s' : zlen l < 2 ^ 62 -> recv_hdr l s = (Ret tt, s') ->
  (no_field l /\ s' = s) \/ exists k v, field l k v /\ s' = set_hdr k v s.
Proof.
  intros Hl. unfold recv_hdr. destruct (endswith l CRLF) eqn:E; [cbn [negb]|done].
  apply bool_decide_eq_true in E as [sv ->].
  rewrite zlen_app in Hl |- *. change (zlen CRLF) with 2 in *. pose proof (zlen_nonneg sv).
  rewrite substr_in by zlia. rewrite zdrop_0, ztake_app by lia. rewrite (lift_bind (Ret sv) _ _ _ eq_refl).
  destruct (Z.eqb_spec (zlen sv) 0) as [Hz|_]; cbn [orb].
  { intros [= <-]. left. split; [|done]. left. destruct sv as [|x sv]; [done|]. pose proof (zlen_nonneg sv). rewrite zlen_cons in Hz. lia. }
  destruct (prefixb (lit "HTTP/") sv) eqn:Ep.
  { intros [= <-]. left. split; [|done]. right. apply prefixb_inv in Ep as [r ->]. exists r. by rewrite <- app_assoc. }
  destruct (decide (":"%char ∈ sv)) as [Hin|Hout]; [|by rewrite find_char_none by by rewrite zdrop_0].
  apply list_elem_of_split_l in Hin as (n & w & -> & Hn).
  rewrite (find_char_found _ ":" 0 [] n w) by done.
  rewrite zlen_app, zlen_cons in *. pose proof (zlen_nonneg n). pose proof (zlen_nonneg w).
  rewrite (proj2 (Z.eqb_neq _ _)) by (unfold npos; lia).
  rewrite Z.add_0_l, !substr_in by zlia. rewrite zdrop_0, ztake_app by lia. rewrite (lift_bind (Ret n) _ _ _ eq_refl).
  replace (n ++ ":"%char :: w) with ((n ++ [":"%char]) ++ w) by by rewrite <- app_assoc.
  rewrite zdrop_app by zlia. rewrite ztake_all by (unfold npos; zlia).
  rewrite (lift_bind (Ret w) _ _ _ eq_refl).
  unfold lift at 1, mbind, M_bind. destruct (strip_ows w) as [v|e|] eqn:Ev; [|done..].
  destruct (strip_ows_spec w v) as (a & b & -> & Ha & Hb & Hv); [lia|done|]. intros [= <-].
  right. exists (map tolower n), v. split; [|done]. exists n, a, b. split_and!; try done. by rewrite <- !app_assoc.
Qed.

(** The callbacks have no undefined behaviour: they keep what is thrown. *)
Lemma recv_hdr_defined l s : (recv_hdr l s).1 <> Undef.
Proof.
  unfold recv_hdr, lift, mbind, M_bind, strip_ows, substr. cbv zeta.
  repeat case_match; simplify_eq; done.
Qed.

Lemma callback_cases m s : (m s).1 <> Undef ->
  (exists s1, m s = (Ret tt, s1) /\ callback m s = (Ret true, s1)) \/ exists s1, callback m s = (Ret false, s1).
Proof.
  intros Hm. unfold callback, try_M, mbind, M_bind. destruct (m s) as [[[]|e|] s1]; cbn; eauto; done.
Qed.

Lemma deliver_spec evs s : exists ok s1, deliver evs s = (Ret ok, s1)
  /\ (ok = true -> h_content s1 = h_content s ++ body_of evs
        /\ (short_lines evs -> fields (h_hdrmap s) evs (h_hdrmap s1))).
Proof.
  revert s. induction evs as [|ev evs IH]; intros s.
  { exists true, s. split; [done|]. intros _. split; [by rewrite app_nil_r|constructor]. }
  cbn [deliver]. destruct ev as [l|p].
  - destruct (callback_cases (recv_hdr l) s (recv_hdr_defined l s)) as [(s1 & Er & Ec)|[s1 Ec]];
      unfold header_callback; rewrite (M_bind_Ret _ _ _ _ _ Ec); [|by exists false, s1].
    destruct (IH s1) as (ok & s2 & E & H). exists ok, s2. split; [done|]. intros Hok.
    destruct (H Hok) as [Hc Hf]. assert (h_content s1 = h_content s) as Es.
    { clear -Er. assert (still h_content (recv_hdr l)) as Hs by (unfold recv_hdr; cbv zeta; still).
      specialize (Hs s). by rewrite Er in Hs. }
    split; [by rewrite Hc, Es|]. intros Hsh.
    assert (short_lines evs) as Hsh' by (intros l' Hl'; apply Hsh, elem_of_cons; by right).
    destruct (recv_hdr_spec l s s1) as [[Hn ->]|(k & v & Hk & ->)]; [apply Hsh, elem_of_cons; by left|done| |].
    + apply Fields_none; auto.
    + apply (Fields_field _ _ k v); [done|]. by apply Hf.
  - rewrite (M_bind_Ret _ _ _ true (set_content (h_content s ++ p) s)) by done.
    destruct (IH (set_content (h_content s ++ p) s)) as (ok & s2 & E & H). exists ok, s2. split; [done|].
    intros Hok. destruct (H Hok) as [Hc Hf]. split; [by rewrite Hc; cbn; rewrite <- app_assoc|].
    intros Hsh. apply Fields_data, Hf. intros l' Hl'. apply Hsh, elem_of_cons. by right.
Qed.

Lemma set_times_content now age m swr r0 r : set_times now age m swr r0 = Ret r ->
  content r = content r0 /\ content_threeroe r = content_threeroe r0.
Proof.
  unfold set_times. destruct (negb _); [done|]. intros H.
  repeat (apply bind_Ret in H as (? & _ & H)). by injection H as <-.
Qed.

(** A 200 carries its body, with the digest the constructor computes. *)
Lemma reply_of_headers_content cfg ck h age max_age swr cont r :
  reply_of_headers cfg ck h age max_age swr cont = Ret r ->
  content r = cont /\ content_threeroe r = content_hexdigest cont.
Proof.
  unfold reply_of_headers, reply_ctor72, reply_ctor73. cbv zeta. intros H.
  do 3 apply bind_Ret in H as (? & _ & H). destruct (_ <? 3); [destruct (_ && _); [done|]|];
    apply bind_Ret in H as (? & _ & H); by apply set_times_content in H.
Qed.

(** ** What the caller's reply is afterwards *)

Section Outcomes.
Context {LC : Libcurl} (aicache_lookup : bytes -> list (option bytes)).
Context (cfg : http_config) (ck : http_clocks).

(** Clock readings in order, some centuries from overflow. *)
Definition clocks_ok : Prop := 0 <= ck_start ck <= ck_fail ck /\ ck_fail ck <= 2 ^ 62.

(** The times the fields of a response give. *)
Definition dated (h : gmap bytes bytes) (age max_age swr : Z) : Prop :=
  get_age h = Ret age /\ get_max_age h = Ret max_age /\ get_stale_while_revalidate h = Ret swr.

(** The last response is a 200 with a body, from which [r] was read. *)
Definition received (s s' : hst) (h : gmap bytes bytes) (r : reply123) : Prop :=
  last_response s s' 200 h (content r) /\ content_threeroe r = content_hexdigest (content r)
  /\ exists age max_age swr, dated h age max_age swr
       /\ reply_of_headers cfg ck h age max_age swr (content r) = Ret r.

(** Its checksum, if it has one, is that of the body, or not. *)
Definition sum_ok (h : gmap bytes bytes) (cont : bytes) : Prop := forall v, h !! HHTRSUM = Some v ->
  exists a b, v = a ++ content_hexdigest cont ++ b.
Definition sum_wrong (h : gmap bytes bytes) (cont : bytes) : Prop := exists v, h !! HHTRSUM = Some v
  /\ (zlen v < npos -> forall a b, v <> a ++ content_hexdigest cont ++ b).
(** The older protocol's next-offset header. *)
Definition with_next_offset (h : gmap bytes bytes) (r r' : reply123) : Prop :=
  hc_minor cfg < 3 /\ h !! HHNO <> None /\ exists off meta, r' = set_chunk_next off meta r.

(** From a caller's state [s] to its state [s']. *)
Definition reply_after (s : hst) (o : outcome bool) (s' : hst) : Prop :=
  match o with
  | Ret false => exists h cont age max_age swr,
      last_response s s' 304 h cont /\ dated h age max_age swr
      /\ revalidated (ck_reply ck) age max_age swr (h_reply s) = Ret (h_reply s')
  | Ret true => exists h r, received s s' h r /\ sum_ok h (content r)
      /\ (h_reply s' = r \/ with_next_offset h r (h_reply s'))
  | Throw _ => h_reply s' = h_reply s
      \/ exists h r, received s s' h r
           /\ ((sum_wrong h (content r) /\ h_reply s' = r)
               \/ (sum_ok h (content r) /\ (h_reply s' = r \/ with_next_offset h r (h_reply s'))
                   /\ hc_minor cfg < 3 /\ h !! HHNO <> None))
  | Undef => clocks_ok -> exists s1 code h cont,
      last_response s s1 code h cont /\ h_hdrmap s1 = h /\ h_content s1 = cont /\ h_http_code s1 = code
      /\ getreply cfg ck s1 = (Undef, s')
  end.

Context (s0 : hst).

(** Before a request of the refresh of [s0], and after one. *)
Definition asking (s : hst) : Prop :=
  h_reply s = h_reply s0 /\ (exists more, h_log s = h_log s0 ++ more)
  /\ h_hdrmap s = ∅ /\ h_content s = [].
Definition asked (r : Z * curl_answer) (s : hst) : Prop :=
  h_reply s = h_reply s0
  /\ exists more q, h_log s = (h_log s0 ++ more) ++ [q] /\ r.2 = curl_perform (h_log s0 ++ more) q
  /\ (r.1 = 0 -> ca_code r.2 = 0 /\ h_content s = body_of (ca_events r.2)
        /\ (short_lines (ca_events r.2) -> fields ∅ (ca_events r.2) (h_hdrmap s))).

(** A step before the last response is read: it leaves the reply alone. *)
Definition step_to {A} (P : hst -> Prop) (m : M hst A) (Q : A -> hst -> Prop) : Prop := forall s, P s ->
  match m s with
  | (Ret a, s') => Q a s'
  | (Throw _, s') => h_reply s' = h_reply s0
  | (Undef, _) => False
  end.
Definition yields (P : hst -> Prop) (m : M hst bool) : Prop := forall s, P s ->
  reply_after s0 (m s).1 (m s).2.

Lemma yields_seq {A} P Q (m : M hst A) (k : A -> M hst bool) :
  step_to P m Q -> (forall a, yields (Q a) (k a)) -> yields P (m ≫= k).
Proof.
  intros Hm Hk s Hs. specialize (Hm s Hs). unfold mbind, M_bind.
  destruct (m s) as [[a|e|] s1]; cbn in *; [by apply Hk|by left|done].
Qed.

Lemma yields_raise P e : (forall s, P s -> h_reply s = h_reply s0) -> yields P (raise e).
Proof. intros H s Hs. left. by apply H. Qed.

Lemma yields_weaken (P Q : hst -> Prop) m : (forall s, P s -> Q s) -> yields Q m -> yields P m.
Proof. intros H Hm s Hs. by apply Hm, H. Qed.

(** A handler that always throws leaves what was left to it. *)
Lemma reply_after_thrown e e' s s' : h_reply s' = h_reply s -> h_log s' = h_log s ->
  reply_after s0 (Throw e) s -> reply_after s0 (Throw e') s'.
Proof. unfold reply_after, received, last_response. by intros -> ->. Qed.

Lemma yields_rethrow P (m : M hst bool) h :
  yields P m -> (forall e, still h_reply (h e)) -> (forall e, still h_log (h e)) ->
  (forall e s a, (h e s).1 <> Ret a) -> (clocks_ok -> forall e s, (h e s).1 <> Undef) ->
  yields P (try_M m h).
Proof.
  intros Hm Hr Hl Hn Hu s Hs. specialize (Hm s Hs). unfold try_M.
  destruct (m s) as [[a|e|] s1]; [done| |done]. specialize (Hr e s1). specialize (Hl e s1).
  specialize (Hn e s1). pose proof (fun H => Hu H e s1) as Hu'.
  destruct (h e s1) as [[a|e'|] s2]; cbn [fst snd] in *; [by destruct (Hn a)|by eapply reply_after_thrown|].
  intros Hck. by destruct (Hu' Hck).
Qed.

Lemma next_offset_ends v s :
  h_log (next_offset v s).2 = h_log s
  /\ (h_reply (next_offset v s).2 = h_reply s
      \/ exists off meta, h_reply (next_offset v s).2 = set_chunk_next off meta (h_reply s)).
Proof.
  unfold next_offset, lift, mbind, M_bind.
  destruct (svscan T_i64 v 0) as [[off pos]|e|]; [|split; [done|by left]..].
  cbv zeta. cbn -[drop_space zdrop c_str prefixb]. repeat case_match; cbn; (split; [done|right; eauto]).
Qed.

(** What [check_reply] does to a reply that was received; [t] is the state
    [getreply] started from. *)
Lemma check_reply_after h r s t s' o : received s0 s h r -> h_reply s = r ->
  check_reply cfg h r s = (o, s') -> (o = Undef -> getreply cfg ck t = (Undef, s')) ->
  last_response s0 t 200 h (content r) -> h_hdrmap t = h -> h_content t = content r -> h_http_code t = 200 ->
  reply_after s0 o s'.
Proof.
  intros Hrec Hs Hcheck Hun Ht Hh Hc Hcode.
  assert (forall s2, h_log s2 = h_log s -> received s0 s2 h r) as Hkeep
    by (unfold received, last_response; by intros s2 ->).
  assert (o = Undef -> reply_after s0 o s') as Hundef.
  { intros ->. intros _. exists t, 200, h, (content r). split_and!; try done. by apply Hun. }
  unfold check_reply in Hcheck.
  set (m2 := if (hc_minor cfg <? 3) && (eno72 r =? 0) then _ else _) in Hcheck.
  assert (sum_ok h (content r) -> m2 s = (o, s') -> reply_after s0 o s') as Hm2.
  { intros Hok. unfold m2. destruct (Z.ltb_spec (hc_minor cfg) 3); cbn [andb].
    2: { intros [= <- <-]. exists h, r. split_and!; [done|done|by left]. }
    destruct (eno72 r =? 0); [|intros [= <- <-]; exists h, r; split_and!; [done|done|by left]].
    destruct (h !! HHNO) as [v|] eqn:Ev; [|intros [= <- <-]; exists h, r; split_and!; [done|done|by left]].
    assert (h !! HHNO <> None) as Hno by by rewrite Ev.
    destruct (next_offset_ends v s) as [El H'].
    assert (h_reply (next_offset v s).2 = r \/ with_next_offset h r (h_reply (next_offset v s).2)) as Hr.
    { rewrite Hs in H'. destruct H' as [|(off & meta & E)]; [by left|right].
      by split_and!; [..|exists off, meta]. }
    unfold mbind, M_bind. destruct (next_offset v s) as [[[]|e|] s1]; cbn in *; intros [= <- <-]; [| |by apply Hundef].
    - exists h, r. split_and!; [by apply Hkeep|done|done].
    - right. exists h, r. split; [by apply Hkeep|]. right. by split_and!. }
  destruct Hrec as (_ & Htr & _).
  destruct (h !! HHTRSUM) as [v|] eqn:Ev; [destruct (Z.eqb_spec (find_str v (content_threeroe r) 0) npos) as [Ez|Ez]|].
  - injection Hcheck as <- <-. right. exists h, r. split; [by apply Hkeep|]. left. split; [|done]. exists v.
    split; [done|]. intros Hl. rewrite <- Htr. by apply find_str_npos.
  - rewrite (M_bind_Ret (mret tt) _ s tt s) in Hcheck by done. apply Hm2; [|done]. intros v' E.
    assert (v' = v) as -> by congruence.
    destruct (find_str_cases v (content_threeroe r) 0) as [(? & _)|(n & _ & Hn & Hz & rest & E')]; [zlia|done|].
    exists (ztake n v), rest. rewrite <- Htr, <- E'. symmetry. by apply ztake_zdrop.
  - rewrite (M_bind_Ret (mret tt) _ s tt s) in Hcheck by done. apply Hm2; [|done]. intros v' E. congruence.
Qed.

Lemma asked_getreply r s : asked r s -> r.1 = 0 -> h_http_code s = ca_http_code r.2 ->
  reply_after s0 (getreply cfg ck s).1 (getreply cfg ck s).2.
Proof.
  intros (Hr & more & q & Hl & Eq & Hok) H0 Hcode. destruct (Hok H0) as (Hc & Hb & Hf).
  assert (forall s2, h_log s2 = h_log s -> last_response s0 s2 (h_http_code s) (h_hdrmap s) (h_content s)) as Hresp.
  { intros s2 E. exists more, q. rewrite E, <- Eq. by split_and!. }
  pose proof (Hresp s eq_refl) as Hs.
  destruct (getreply cfg ck s) as [o s'] eqn:E. pose proof E as E0. unfold getreply in E.
  rewrite (M_bind_Ret get _ s s s) in E by done. cbv beta zeta in E.
  assert (o = Undef -> reply_after s0 o s') as Hun.
  { intros -> _. exists s, (h_http_code s), (h_hdrmap s), (h_content s). by split_and!. }
  assert (forall (m : outcome Z) (k : Z -> M hst bool),
    (forall a, m = Ret a -> k a s = (o, s') -> reply_after s0 o s') ->
    (lift m ≫= k) s = (o, s') -> reply_after s0 o s') as Hlift.
  { intros m k Hk. unfold lift, mbind, M_bind. destruct m as [a|e|]; [by apply Hk|intros [= <- <-]; by left|].
    intros [= <- <-]. by apply Hun. }
  cbn [fst snd].
  destruct (negb ((h_http_code s =? 200) || (h_http_code s =? 304))) eqn:Ecode.
  { injection E as <- <-. by left. }
  revert E. apply Hlift. intros age Ea. apply Hlift. intros ma Em. apply Hlift. intros swr Ew.
  destruct (Z.eqb_spec (h_http_code s) 304) as [E304|E304].
  - unfold lift, mbind, M_bind. destruct (revalidated _ _ _ _ _) as [r'|e|] eqn:Er;
      intros [= <- <-]; [|by left|by apply Hun].
    exists (h_hdrmap s), (h_content s), age, ma, swr. rewrite <- E304. split_and!; [by apply Hresp|done|].
    by rewrite <- Hr.
  - assert (h_http_code s = 200) as E200 by lia. rewrite E200 in Hs, Hresp.
    destruct (reply_of_headers cfg ck (h_hdrmap s) age ma swr (h_content s)) as [r'|e|] eqn:Er.
    2: { intros [= <- <-]. by left. }
    2: { intros [= <- <-]. by apply Hun. }
    rewrite (lift_bind _ _ _ _ eq_refl).
    destruct (reply_of_headers_content _ _ _ _ _ _ _ _ Er) as [Hcont Htr].
    rewrite (M_bind_Ret (modify _) _ s tt (set_content [] (set_reply r' s))) by done. intros Hck.
    apply (check_reply_after (h_hdrmap s) r' (set_content [] (set_reply r' s)) s); try done.
    + rewrite <- Hcont in Hresp. split; [by apply Hresp|]. split; [by rewrite Hcont|].
      exists age, ma, swr. split; [done|]. by rewrite Hcont.
    + by intros ->.
    + by rewrite Hcont.
Qed.

Lemma asking_perform url hdrs : step_to asking (curl_easy_perform cfg url hdrs) asked.
Proof.
  intros s (Hr & [more Hl] & Hh & Hc). unfold curl_easy_perform. cbv zeta.
  set (q := the_request cfg url hdrs s). set (a := curl_perform (h_log s) q).
  destruct (deliver_spec (ca_events a) (log_request q s)) as (ok & s1 & E & Hok).
  rewrite (M_bind_Ret _ _ _ _ _ E). cbn.
  pose proof (still_deliver h_reply (fun _ _ _ => eq_refl) (fun _ _ => eq_refl) (fun _ _ => eq_refl)
    (ca_events a) (log_request q s)) as Er.
  pose proof (still_deliver h_log (fun _ _ _ => eq_refl) (fun _ _ => eq_refl) (fun _ _ => eq_refl)
    (ca_events a) (log_request q s)) as El.
  rewrite E in Er, El. cbn in Er, El. rewrite Hl in El.
  split; [by rewrite Er|]. exists more, q. rewrite El. split; [done|]. unfold a. rewrite Hl. split; [done|].
  rewrite <- Hl. fold a. intros H0. destruct ok; [|done]. split; [done|]. destruct (Hok eq_refl) as [H1 H2].
  cbn in H1, H2. rewrite H1, Hc. split; [done|]. by rewrite <- Hh.
Qed.

Lemma asked_again url hdrs r : step_to (asked r) (perform_again_if_empty cfg url hdrs r) asked.
Proof.
  intros s Hs. unfold perform_again_if_empty. rewrite (M_bind_Ret get _ s s s) by done.
  destruct (_ && _) eqn:E; [|exact Hs]. apply andb_true_iff in E as [E1 E2].
  apply asking_perform. destruct Hs as (Hr & more & q & Hl & _). split_and!; [done| | |].
  - exists (more ++ [q]). by rewrite Hl, app_assoc.
  - by apply bool_decide_eq_true in E2.
  - by apply bool_decide_eq_true in E1.
Qed.

Lemma asked_modify f r : (forall s, asked r s -> asked r (f s)) ->
  step_to (asked r) (modify f) (fun _ => asked r).
Proof. intros H s Hs. by apply H. Qed.

Lemma yields_once follow url hdrs depth :
  (curl_handles_redirects cfg = false -> depth < http_maxredirects cfg ->
     forall u, yields asking (follow u (depth + 1))) ->
  yields asking (perform_once cfg ck follow url hdrs depth).
Proof.
  intros Hf. unfold perform_once. apply (yields_seq _ asked); [apply asking_perform|]. intros r.
  apply (yields_seq _ asked).
  { destruct (_ && http_proxy cfg); [|by intros s Hs].
    intros s Hs. rewrite (M_bind_Ret (modify _) _ s tt (set_noproxy s)) by done. by apply asked_again. }
  intros r1. apply (yields_seq _ asked).
  { destruct (_ =? _); [apply asked_again|by intros s Hs]. }
  intros [ret a]. destruct (Z.eqb_spec ret 0) as [->|Hret]; cbn [negb].
  - intros s Hs. rewrite (M_bind_Ret (modify _) _ s tt (set_http_code (ca_http_code a) s)) by done.
    assert (asked (0, a) (set_http_code (ca_http_code a) s)) as Hs1 by exact Hs.
    destruct (ca_redirect_url a) as [u|]; [|by apply (asked_getreply (0, a))].
    destruct (negb _ && _) eqn:E; [|by apply (asked_getreply (0, a))].
    apply andb_true_iff in E as [E1 E2]. apply negb_true_iff in E1. apply Z.ltb_lt in E2.
    rewrite (M_bind_Ret (modify _) _ _ tt (reset (set_http_code (ca_http_code a) s))) by done.
    apply Hf; [done|done|]. destruct Hs as (Hr & more & q & Hl & _). split_and!; [done| |done|done].
    exists (more ++ [q]). cbn. by rewrite Hl, app_assoc.
  - intros s Hs. rewrite (M_bind_Ret get _ s s s) by done. destruct Hs as (Hr & _).
    cbv zeta. by destruct (h_exptr s); left.
Qed.

Lemma yields_pwf fuel hdrs u stem depth :
  (0 < fuel)%nat -> (curl_handles_redirects cfg = false -> http_maxredirects cfg - depth < Z.of_nat fuel) ->
  yields asking (perform_without_fallback aicache_lookup cfg ck fuel hdrs u stem depth).
Proof.
  revert u stem depth. induction fuel as [|fuel IH]; intros u stem depth H0 Hf; [lia|].
  cbn [perform_without_fallback]. apply (yields_seq _ (fun _ => asking)).
  { intros s Hs. by destruct (resolve_cases aicache_lookup cfg u s) as (c & t & ->). }
  intros _. apply yields_once. intros Hc Hd u'. specialize (Hf Hc). apply IH; intros; lia.
Qed.

Lemma deferral_ok : clocks_ok -> exists d,
  i64 (ck_fail ck - ck_start ck) = Ret d
  /\ (let howlong := clip five_seconds d ten_minutes in
      five_seconds <= howlong <= ten_minutes /\ i64 (ck_fail ck + howlong) = Ret (ck_fail ck + howlong)).
Proof.
  intros [H1 H2]. unfold i64, in_i64, clip, five_seconds, ten_minutes, tp_min, tp_max.
  eexists. rewrite (proj2 (andb_true_iff _ _)) by lia. split; [done|]. cbv zeta. split; [lia|].
  by rewrite (proj2 (andb_true_iff _ _)) by lia.
Qed.

Lemma yields_fallback hdrs stem : yields asking (perform_with_fallback aicache_lookup cfg ck hdrs stem).
Proof.
  unfold perform_with_fallback.
  assert (forall u, yields asking (perform_without_fallback aicache_lookup cfg ck (redirect_fuel cfg) hdrs u stem 0))
    as Hp by (intros u; apply yields_pwf; unfold redirect_fuel; lia).
  assert (forall i, step_to asking (url_at cfg i) (fun _ => asking)) as Hat.
  { intros i s Hs. unfold url_at. destruct (zget _ _); [done|]. by destruct Hs. }
  destruct (_ <? 2); [apply (yields_seq _ (fun _ => asking)); [apply Hat|exact Hp]|].
  apply (yields_seq _ (fun _ => asking)); [by intros s Hs|]. intros sd.
  apply (yields_seq _ (fun _ => asking)).
  { intros s Hs. unfold lift, choose_url. destruct (h_deferred sd); [by destruct Hs|done]. }
  intros i. apply yields_rethrow.
  - apply (yields_seq _ (fun _ => asking)); [apply Hat|exact Hp].
  - intros e. cbv zeta. still.
  - intros e. cbv zeta. still.
  - intros e s a. unfold lift, mbind, M_bind. cbv zeta. repeat case_match; try done; by simplify_eq.
  - intros Hck e s. destruct (deferral_ok Hck) as (d & E1 & _ & E2). rewrite (lift_bind _ _ _ _ E1).
    cbv zeta in *. by rewrite (lift_bind _ _ _ _ E2).
Qed.
End Outcomes.

Lemma refresh_after aicache_lookup cfg ck req s {LC : Libcurl} :
  let r := refresh aicache_lookup cfg ck req s in
  (r.1 = Ret false /\ no_cache req = false /\ fresh (ck_fresh ck) (h_reply s) = true /\ r.2 = s)
  \/ reply_after cfg ck s r.1 r.2.
Proof.
  cbv zeta. destruct (negb (no_cache req) && fresh (ck_fresh ck) (h_reply s)) eqn:E.
  - left. unfold refresh, try_M. rewrite (M_bind_Ret get _ s s s) by done. rewrite E.
    apply andb_true_iff in E as [H1 H2]. by destruct (no_cache req).
  - right. set (m := if disconnected cfg then raise (ESystem EIO) else
      modify new_handler;;
      perform_with_fallback aicache_lookup cfg ck (request_headers cfg req (h_reply s)) (urlstem req)).
    assert (refresh aicache_lookup cfg ck req s = try_M m (fun e => raise (ENested ERuntime e)) s) as ->.
    { unfold refresh, try_M. rewrite (M_bind_Ret get _ s s s) by done. by rewrite E. }
    apply (yields_rethrow cfg ck s (eq s)); [|by intros..|done]. unfold m.
    destruct (disconnected cfg); [apply yields_raise; by intros ? <-|].
    apply (yields_seq cfg ck s _ (fun _ => asking s)); [|intros _; by apply yields_fallback].
    intros ? <-. split_and!; [done| |done|done]. exists []. by rewrite app_nil_r.
Qed.


(** ** Redirects end *)

Section Ends.
Context {LC : Libcurl} (aicache_lookup : bytes -> list (option bytes)).
Context (cfg : http_config) (ck : http_clocks).

(** [m] makes at most [n] requests. *)
Definition sends {A} (n : Z) (m : M hst A) : Prop :=
  forall s, zlen (h_log (m s).2) <= zlen (h_log s) + n.

Lemma sends_seq {A B} n n' (m : M hst A) (k : A -> M hst B) :
  0 <= n' -> sends n m -> (forall a, sends n' (k a)) -> sends (n + n') (m ≫= k).
Proof.
  intros Hn Hm Hk s. specialize (Hm s). unfold mbind, M_bind.
  destruct (m s) as [[a|e|] s1]; cbn in *; [|lia..]. specialize (Hk a s1). lia.
Qed.

Lemma sends_bind0 {A B} n (m : M hst A) (k : A -> M hst B) :
  0 <= n -> still h_log m -> (forall a, sends n (k a)) -> sends n (m ≫= k).
Proof.
  intros Hn Hm Hk. replace n with (0 + n) by lia. apply sends_seq; [done| |done].
  intros s. rewrite Hm. lia.
Qed.

Lemma sends_still {A} n (m : M hst A) : 0 <= n -> still h_log m -> sends n m.
Proof. intros Hn Hm s. rewrite Hm. lia. Qed.

Lemma sends_try {A} n (m : M hst A) h : sends n m -> (forall e, still h_log (h e)) -> sends n (try_M m h).
Proof.
  intros Hm Hh s. specialize (Hm s). unfold try_M.
  destruct (m s) as [[a|e|] s1]; cbn in *; [done| |done]. by rewrite Hh.
Qed.

Lemma sends_perform url hdrs : sends 1 (curl_easy_perform cfg url hdrs).
Proof.
  intros s. unfold curl_easy_perform. cbv zeta. set (q := the_request cfg url hdrs s).
  destruct (deliver_spec (ca_events (curl_perform (h_log s) q)) (log_request q s)) as (ok & s1 & E & _).
  assert (h_log (deliver (ca_events (curl_perform (h_log s) q)) (log_request q s)).2 = h_log s ++ [q]) as Hl
    by by rewrite (still_deliver h_log).
  rewrite (M_bind_Ret _ _ _ _ _ E). rewrite E in Hl. cbn in *. rewrite Hl, zlen_app.
  change (zlen [q]) with 1. lia.
Qed.

Lemma sends_again url hdrs r : sends 1 (perform_again_if_empty cfg url hdrs r).
Proof.
  unfold perform_again_if_empty. apply sends_bind0; [lia|apply still_get|].
  intros s. destruct (_ && _); [apply sends_perform|]. apply sends_still; [lia|apply still_ret].
Qed.

Lemma still_getreply : still h_log (getreply cfg ck).
Proof. unfold getreply, check_reply, next_offset. cbv zeta. still. Qed.

Lemma sends_once n follow url hdrs depth : 0 <= n ->
  (curl_handles_redirects cfg = false -> depth < http_maxredirects cfg ->
     forall u, sends n (follow u (depth + 1))) ->
  sends (3 + n) (perform_once cfg ck follow url hdrs depth).
Proof.
  intros Hn Hf. unfold perform_once.
  replace (3 + n) with (1 + (1 + (1 + n))) by lia.
  apply sends_seq; [lia|apply sends_perform|]. intros r. apply sends_seq; [lia| |].
  { destruct (_ && http_proxy cfg); [|apply sends_still; [lia|apply still_ret]].
    apply sends_bind0; [lia|by apply still_modify|]. intros _. apply sends_again. }
  intros r1. apply sends_seq; [lia| |].
  { destruct (_ =? _); [apply sends_again|]. apply sends_still; [lia|apply still_ret]. }
  intros [ret a]. destruct (negb (ret =? 0)); [apply sends_still; [lia|cbv zeta; still]|].
  assert (sends n (getreply cfg ck)) as Hg by (apply sends_still; [lia|apply still_getreply]).
  apply sends_bind0; [lia|by apply still_modify|]. intros _.
  destruct (ca_redirect_url a); [|done].
  destruct (negb (curl_handles_redirects cfg) && (depth <? http_maxredirects cfg)) eqn:E; [|done].
  apply andb_true_iff in E as [E1 E2]. apply negb_true_iff in E1. apply Z.ltb_lt in E2.
  apply sends_bind0; [lia|by apply still_modify|]. intros _. by apply Hf.
Qed.

Lemma sends_pwf fuel hdrs u stem depth :
  (curl_handles_redirects cfg = false -> http_maxredirects cfg - depth < Z.of_nat fuel) ->
  sends (3 * (1 + Z.max 0 (http_maxredirects cfg - depth)))
    (perform_without_fallback aicache_lookup cfg ck fuel hdrs u stem depth).
Proof.
  revert u stem depth. induction fuel as [|fuel IH]; intros u stem depth Hf.
  { apply sends_still; [lia|]. intros s. reflexivity. }
  cbn [perform_without_fallback]. apply sends_bind0; [lia|by apply still_resolve|].
  intros _. replace (3 * _) with (3 + 3 * Z.max 0 (http_maxredirects cfg - depth)) by lia.
  apply sends_once; [lia|]. intros Hc Hd u'. specialize (Hf Hc).
  replace (Z.max 0 (http_maxredirects cfg - depth)) with (1 + Z.max 0 (http_maxredirects cfg - (depth + 1))) by lia.
  apply IH. lia.
Qed.

Lemma sends_fallback hdrs stem :
  sends (3 * (1 + Z.max 0 (http_maxredirects cfg)))
    (perform_with_fallback aicache_lookup cfg ck hdrs stem).
Proof.
  unfold perform_with_fallback.
  assert (forall u, sends (3 * (1 + Z.max 0 (http_maxredirects cfg)))
            (perform_without_fallback aicache_lookup cfg ck (redirect_fuel cfg) hdrs u stem 0)) as Hp.
  { intros u. rewrite <- (Z.sub_0_r (http_maxredirects cfg)) at 1. apply sends_pwf. unfold redirect_fuel. lia. }
  assert (forall i, still h_log (url_at cfg i)) as Hat by (intros i; unfold url_at; still).
  destruct (_ <? 2); [apply sends_bind0; [lia|apply Hat|exact Hp]|].
  apply sends_bind0; [lia|apply still_get|]. intros sd. apply sends_bind0; [lia|apply still_lift|].
  intros i. apply sends_try; [apply sends_bind0; [lia|apply Hat|exact Hp]|]. intros e. cbv zeta. still.
Qed.

(** With as many rounds as it takes, more make no difference. *)
Lemma bind_same {A B} (m m' : M hst A) (k k' : A -> M hst B) :
  (forall s, m s = m' s) -> (forall a s, k a s = k' a s) -> forall s, (m ≫= k) s = (m' ≫= k') s.
Proof. intros Hm Hk s. unfold mbind, M_bind. rewrite Hm. by destruct (m' s) as [[]]. Qed.

Lemma once_same follow follow' url hdrs depth :
  (curl_handles_redirects cfg = false -> depth < http_maxredirects cfg ->
     forall u s, follow u (depth + 1) s = follow' u (depth + 1) s) ->
  forall s, perform_once cfg ck follow url hdrs depth s = perform_once cfg ck follow' url hdrs depth s.
Proof.
  intros Hf. unfold perform_once. apply bind_same; [done|]. intros r1. apply bind_same; [done|].
  intros r2. apply bind_same; [done|]. intros [ret a]. destruct (negb (ret =? 0)); [done|]. apply bind_same; [done|]. intros _.
  destruct (ca_redirect_url a); [|done].
  destruct (negb (curl_handles_redirects cfg) && (depth <? http_maxredirects cfg)) eqn:E; [|done].
  apply andb_true_iff in E as [E1 E2]. apply negb_true_iff in E1. apply Z.ltb_lt in E2.
  apply bind_same; [done|]. intros _. by apply Hf.
Qed.

Lemma pwf_fuel n m hdrs u stem depth : (0 < n)%nat -> (0 < m)%nat ->
  (curl_handles_redirects cfg = false -> http_maxredirects cfg - depth < Z.of_nat n) ->
  (curl_handles_redirects cfg = false -> http_maxredirects cfg - depth < Z.of_nat m) ->
  forall s, perform_without_fallback aicache_lookup cfg ck n hdrs u stem depth s
            = perform_without_fallback aicache_lookup cfg ck m hdrs u stem depth s.
Proof.
  revert m u stem depth. induction n as [|n IH]; intros m u stem depth Hn Hm Hfn Hfm; [lia|].
  destruct m as [|m]; [lia|]. cbn [perform_without_fallback]. apply bind_same; [done|]. intros _.
  apply once_same. intros Hc Hd u'. specialize (Hfn Hc). specialize (Hfm Hc). apply IH; intros; lia.
Qed.
End Ends.


(** A server that redirects to itself for ever. *)
Definition cfg_loop : http_config :=
  HttpConfig [url_info_ctor url_ex] [] false false 2 false false [] 3.
Definition curl_loop : Libcurl := fun _ _ => CurlAnswer [] 0 302 0 (Some url_ex).


Example redirected_twice :
  let r := refresh (LC := curl_loop) (fun _ => []) cfg_loop ck_ex req_ex (hst_ex reply_default) in
  zlen (h_log r.2) = 3 /\ r.1 = Throw (ENested ERuntime (EHttp 302)).
Proof. split; vm_compute; reflexivity. Qed.

(** ** Falling back *)

Section Fallback.
Context {LC : Libcurl} (aicache_lookup : bytes -> list (option bytes)).
Context (cfg : http_config) (ck : http_clocks).

Lemma deferred_getreply : still h_deferred (getreply cfg ck).
Proof. unfold getreply, check_reply, next_offset. cbv zeta. still. Qed.

Lemma deferred_pwf fuel hdrs u stem depth :
  still h_deferred (perform_without_fallback aicache_lookup cfg ck fuel hdrs u stem depth).
Proof.
  revert u stem depth. induction fuel as [|fuel IH]; intros u stem depth; [apply still_lift|].
  cbn [perform_without_fallback]. apply still_bind; [by apply still_resolve|]. intros _.
  unfold perform_once. apply still_bind; [by apply still_perform|]. intros r.
  apply still_bind; [|intros r1; apply still_bind; [|intros [ret a]]].
  - destruct (_ && http_proxy cfg); [|apply still_ret].
    apply still_bind; [by apply still_modify|]. intros _. by apply still_again.
  - destruct (_ =? _); [by apply still_again|apply still_ret].
  - destruct (negb (ret =? 0)); [cbv zeta; still|].
    apply still_bind; [by apply still_modify|]. intros _.
    destruct (ca_redirect_url a); [|apply deferred_getreply].
    destruct (negb _ && _); [|apply deferred_getreply].
    apply still_bind; [by apply still_modify|]. intros _. apply IH.
Qed.
End Fallback.

(** With several base urls, a request goes to one of them: the first
    whose deferral is over, or when all are deferred the one whose deferral
    ends soonest.  If it succeeds, its result is the result and no deferral
    changes.  If it fails, with any exception, that url alone is deferred, for
    as long as the failure took but for five seconds at least and ten minutes at
    most, and a later request that starts before then uses another url as
    long as one is not deferred. *)
Theorem fallback_policy aicache_lookup cfg ck headers urlstem s {LC : Libcurl} :
  clocks_ok ck -> 2 <= zlen (baseurls cfg) -> zlen (h_deferred s) = zlen (baseurls cfg) ->
  exists k u, best_url (ck_start ck) (h_deferred s) k /\ zget (baseurls cfg) k = Some u
    /\ let p := perform_without_fallback aicache_lookup cfg ck (redirect_fuel cfg) headers u urlstem 0 s in
       match perform_with_fallback aicache_lookup cfg ck headers urlstem s with
       | (Throw e, s') => exists e1 until,
           p.1 = Throw e1 /\ e = ENested ERuntime e1
           /\ h_deferred s' = <[Z.to_nat k := until]> (h_deferred s)
           /\ ck_fail ck + five_seconds <= until <= ck_fail ck + ten_minutes
           /\ forall t k', t <= until -> (exists d, d ∈ h_deferred s' /\ d < t) ->
                best_url t (h_deferred s') k' -> k' <> k
       | r => r = p /\ h_deferred r.2 = h_deferred s
       end.
Proof.
  intros Hck Hn Hlen. unfold perform_with_fallback. rewrite (proj2 (Z.ltb_ge _ _)) by done.
  destruct (choose_url_best (ck_start ck) (h_deferred s)) as (k & Ek & Hbest);
    [intros E; rewrite E in Hlen; revert Hlen; change (zlen (@nil Z)) with 0; lia|].
  pose proof Hbest as (d0 & Hd0 & _). apply zget_Some in Hd0 as [Hk Hd0]. rewrite Hlen in Hk.
  destruct (zget_lt _ _ Hk) as [u Hu]. exists k, u. split; [done|]. split; [done|]. cbv zeta.
  rewrite (M_bind_Ret get _ s s s) by done. rewrite (lift_bind _ _ _ _ Ek).
  assert (url_at cfg k s = (Ret u, s)) as Hat by (unfold url_at; by rewrite Hu).
  unfold try_M. rewrite (M_bind_Ret _ _ _ _ _ Hat).
  pose proof (deferred_pwf aicache_lookup cfg ck (redirect_fuel cfg) headers u urlstem 0 s) as Hst.
  destruct (perform_without_fallback _ _ _ _ _ _ _ _ s) as [[b|e|] s1]; cbn [snd] in Hst; [done| |done].
  destruct (deferral_ok ck Hck) as (d & E1 & Hr & E2).
  rewrite (lift_bind _ _ _ _ E1). cbv zeta in *. rewrite (lift_bind _ _ _ _ E2). cbn.
  eexists e, _. split_and!; [done..|by rewrite Hst|lia|lia|]. intros t k' Ht (d1 & Hd1 & Hlt) (d2 & Hd2 & H) ->.
  cbn [h_deferred set_deferred] in *. apply zget_Some in Hd2 as [_ Hd2]. rewrite Hst, list_lookup_insert_eq in Hd2
    by (apply lookup_lt_is_Some; eauto).
  injection Hd2 as <-. destruct H as [[H _]|[H _]]; [lia|]. specialize (H d1 Hd1). lia.
Qed.

Lemma fallback_policy_witness :
  exists k u, best_url 100 [tp_min; tp_min] k /\ zget (baseurls cfg_ex) k = Some u
    /\ let p := perform_without_fallback (LC := curl_loop) (fun _ => []) cfg_ex ck_ex (redirect_fuel cfg_ex)
                  [] u (lit "/a") 0 (hst_ex reply_default) in
       match perform_with_fallback (LC := curl_loop) (fun _ => []) cfg_ex ck_ex [] (lit "/a") (hst_ex reply_default) with
       | (Throw e, s') => exists e1 until,
           p.1 = Throw e1 /\ e = ENested ERuntime e1
           /\ h_deferred s' = <[Z.to_nat k := until]> [tp_min; tp_min]
           /\ 3 * 10 ^ 9 + five_seconds <= until <= 3 * 10 ^ 9 + ten_minutes
           /\ forall t k', t <= until -> (exists d, d ∈ h_deferred s' /\ d < t) ->
                best_url t (h_deferred s') k' -> k' <> k
       | r => r = p /\ h_deferred r.2 = [tp_min; tp_min]
       end.
Proof.
  apply (fallback_policy (fun _ => []) cfg_ex ck_ex [] (lit "/a") (hst_ex reply_default) (LC := curl_loop)).
  - vm_compute; intuition discriminate.
  - vm_compute; intuition discriminate.
  - reflexivity.
Defined.
