(* ===== verification/DistribCache.v ===== *)
(** * The distributed cache (exe/fs123p7/distrib_cache_backend.{hpp,cpp})

    A backend that passes a request to the peer in charge of its url: the
    consistent-hash ring of [peer_map_t], the datagrams in which peers announce
    themselves ([distrib_cache_message]), the handlers of these, and
    [distrib_cache_backend::refresh].

    The backends below it are one parameter, [be_refresh]: what the upstream
    or a peer's HTTP backend does with a request and a reply; HttpRefresh says
    what the latter is.  libsodium's [crypto_auth] is the class [Auth].
    Not modelled: sockets, threads and the constructor's and destructor's calls
    of the system; the statistics.  The ring and the maps are always accessed
    under their mutex, so that each operation on them is one step.

    Theorems: the ring is what the known peers make it, and a lookup finds the
    next place on it; a peer that comes or
    goes moves only the urls it gets or had; a datagram is read back, and
    with keys is authentic and recent; a failing peer costs no request, as long
    as no peer answers with a uuid that is not its own. *)

From Stdlib Require Import Ascii String ZArith Lia.
From stdpp Require Import base gmap strings list numbers.
From S2P Require Import Prelude.
From S2P Require Import ScanInt.
From S2P Require Import StrUtils.
From S2P Require Import Threeroe.
From S2P Require Import Expiring.
From S2P Require Import Backend.

#[local] Open Scope Z_scope.

(** ** The peers *)

(** Who answers: the upstream backend, or an HTTP backend on a base url. *)
Inductive be_id := BeUpstream | BeHttp (baseurl : bytes).

#[export] Instance be_id_eq_dec : EqDecision be_id.
Proof. solve_decision. Defined.

Record peer := Peer { p_uuid : bytes; p_url : bytes; p_be : be_id }.

#[export] Instance peer_eq_dec : EqDecision peer.
Proof. solve_decision. Defined.

Record peer_map := PeerMap {
  ring : gmap Z peer;
  url_to_uuid : gmap bytes bytes;
  uuid_to_peer : gmap bytes peer
}.

Definition no_peers : peer_map := PeerMap ∅ ∅ ∅.

Definition Nrep : nat := 100.

(** [hash(s, n1)] *)
Definition ring_hash (s : bytes) (n1 : Z) : Z := hash64 (threeroe_of s n1 0).

(** The places of a peer on the ring. *)
Definition nodes (uuid : bytes) : list Z := map (fun i => ring_hash uuid (Z.of_nat i)) (seq 1 Nrep).

Definition insert_peer (p : peer) (m : peer_map) : peer_map :=
  let urls := match ring m !! ring_hash (p_uuid p) 1 with
              | Some old => delete (p_url old) (url_to_uuid m)
              | None => url_to_uuid m
              end in
  PeerMap (foldl (fun r h => <[h := p]> r) (ring m) (nodes (p_uuid p)))
    (<[p_url p := p_uuid p]> urls)
    (<[p_uuid p := p]> (uuid_to_peer m)).

Definition remove_url (url : bytes) (m : peer_map) : peer_map :=
  match url_to_uuid m !! url with
  | None => m
  | Some uuid =>
      PeerMap (foldl (fun r h => delete h r) (ring m) (nodes uuid))
        (delete url (url_to_uuid m)) (delete uuid (uuid_to_peer m))
  end.

Definition check_url (url : bytes) (m : peer_map) : bool := bool_decide (is_Some (url_to_uuid m !! url)).

(** The entry with the least key among those with [f]. *)
Definition least_node (f : Z -> bool) (r : gmap Z peer) : option (Z * peer) :=
  map_fold (fun k p acc =>
    if f k then
      match acc with
      | Some (k', _) => if k <? k' then Some (k, p) else acc
      | None => Some (k, p)
      end
    else acc) None r.

(** [ring.upper_bound(h)], or [ring.begin()] when that is the end. *)
Definition ring_next (h : Z) (r : gmap Z peer) : option (Z * peer) :=
  match least_node (fun k => h <? k) r with
  | Some x => Some x
  | None => least_node (fun _ => true) r
  end.

Definition lookup (key : bytes) (m : peer_map) : outcome peer :=
  match ring_next (ring_hash key 0) (ring m) with
  | Some (_, p) => Ret p
  | None => Throw ERuntime
  end.

Definition lookup_peerurl (purl : bytes) (m : peer_map) : option peer :=
  uuid ← url_to_uuid m !! purl; ring m !! ring_hash uuid 1.

(** ** Messages *)

Definition VERSION : bytes := lit "2".
Definition crypto_auth_BYTES : Z := 32.
Definition crypto_auth_KEYBYTES : Z := 32.
Definition message_size : Z := 512.

(** [crypto_auth(out, in, inlen, k)]: an authenticator of 32 bytes from the
    message and the first 32 bytes of the key. *)
Class Auth := crypto_auth : bytes -> bytes -> bytes.
Class AuthLaws `{Auth} := crypto_auth_length : forall m k, zlen (crypto_auth m k) = 32.

(** [crypto_auth_verify] returns 0 when the authenticator is the one
    [crypto_auth] computes. *)
Definition crypto_auth_verify `{Auth} (mac m k : bytes) : bool := bool_decide (mac = crypto_auth m k).

(** The secret manager: [get_indirect_sid("multicast")] and [get_sharedkey]. *)
Record multicast_secrets := MulticastSecrets {
  multicast_sid : outcome bytes;
  multicast_key : bytes -> outcome bytes
}.

(** Appending to [data], which [d] is the used part of. *)
Definition wroom (d : bytes) (need : Z) : outcome unit :=
  if message_size <? zlen d + need then Throw ERuntime else Ret tt.
Definition wpush (sv : bytes) (d : bytes) : outcome bytes :=
  wroom d (zlen sv + 1);; Ret (d ++ sv ++ [NUL]).
Fixpoint wpush_all (l : list bytes) (d : bytes) : outcome bytes :=
  match l with [] => Ret d | sv :: l => d ← wpush sv d; wpush_all l d end.

Definition auth_key (k : bytes) : outcome bytes :=
  if zlen k <? crypto_auth_KEYBYTES then Throw ERuntime else Ret (ztake crypto_auth_KEYBYTES k).

(** [distrib_cache_message::send], up to the datagram it sends. *)
Definition message_send `{Auth} (scope : bytes) (sm : option multicast_secrets) (parts : list bytes)
    (now_millis : Z) : outcome bytes :=
  d ← wpush VERSION [];
  d ← wpush scope d;
  '(sid, key) ← match sm with
                | Some sm =>
                    sid ← multicast_sid sm;
                    k ← multicast_key sm sid;
                    k ← auth_key k;
                    Ret (sid, Some k)
                | None => Ret ([], None)
                end;
  d ← wpush sid d;
  d ← wpush_all parts d;
  wroom d 8;;
  let d := d ++ le 8 now_millis in
  wroom d crypto_auth_BYTES;;
  Ret (d ++ match key with
            | Some k => crypto_auth d k
            | None => replicate (Z.to_nat crypto_auth_BYTES) NUL
            end).

(** [rpop]: the word at the front of what is left before [rendptr]. *)
Definition rpop (l : bytes) : outcome (bytes * bytes) :=
  match l with
  | [] => Throw ERuntime
  | _ => let w := c_str l in Ret (w, zdrop (zlen w + 1) l)
  end.
Fixpoint rpop_all (fuel : nat) (l : bytes) : outcome (list bytes) :=
  match fuel with
  | O => Undef
  | S fuel =>
      match l with
      | [] => Ret []
      | _ => '(w, l) ← rpop l; ws ← rpop_all fuel l; Ret (w :: ws)
      end
  end.

(** What [recvfrom] gives: an error, or a datagram (which [MSG_TRUNC] reports
    the whole length of). *)
Inductive recv_result := RecvError (eno : Z) | Datagram (m : bytes).

Definition EAGAIN : Z := 11.

(** The checks of [recv] on a datagram with the right ends: the words of it,
    the timestamp, what is authenticated and the authenticator. *)
Definition recv_words `{Auth} (scope : bytes) (sm : option multicast_secrets)
    (timestamp_skew now_millis : Z) (words ts signed mac : bytes) : outcome (option (list bytes)) :=
  '(version, words) ← rpop words;
  if negb (bool_decide (version = VERSION)) then Ret None else
  '(msg_scope, words) ← rpop words;
  if negb (bool_decide (msg_scope = scope)) then Ret None else
  let tstamp := swrap 64 (of_le ts) in
  delta ← i64 (now_millis - tstamp);
  absdelta ← i64 (Z.abs delta);
  if u32 (timestamp_skew * 1000) <? absdelta then Throw ERuntime else
  '(sid, words) ← rpop words;
  match sm with
  | Some sm =>
      k ← multicast_key sm sid;
      k ← auth_key k;
      if crypto_auth_verify mac signed k then Ret tt else Throw ERuntime
  | None => Ret tt
  end;;
  parts ← rpop_all (S (length words)) words;
  Ret (Some parts).

(** [distrib_cache_message::recv]: [None] is a return of false. *)
Definition message_recv `{Auth} (scope : bytes) (sm : option multicast_secrets)
    (timestamp_skew now_millis : Z) (r : recv_result) : outcome (option (list bytes)) :=
  match r with
  | RecvError eno => if eno =? EAGAIN then Ret None else Throw (ESystem eno)
  | Datagram m =>
      let recvd := zlen m in
      if recvd =? 0 then Ret None else
      if message_size <? recvd then Ret None else
      (* set_rptrs: too short, or the words do not end with NUL *)
      if recvd <? 8 + crypto_auth_BYTES + 1 then Ret None else
      let rend := recvd - 8 - crypto_auth_BYTES in
      c ← sv_idx m (rend - 1);
      if negb (bool_decide (c = NUL)) then Ret None else
      recv_words scope sm timestamp_skew now_millis (ztake rend m) (ztake 8 (zdrop rend m))
        (ztake (rend + 8) m) (zdrop (rend + 8) m)
  end.

(** ** The backend *)

(** What it was built with. *)
Record dcb_config := DcbConfig {
  dc_scope : bytes;
  server_url : bytes;
  server_uuid : bytes;           (* server_backend->get_uuid() *)
  secret_mgr : option multicast_secrets;
  multicast_timestamp_skew : Z;
  dc_req : req_config
}.

(** The peers, the reply the caller points to, the datagrams sent, and the
    world the backends below act on. *)
Record dst (W : Type) := Dst {
  d_peers : peer_map;
  d_reply : reply123;
  d_sent : list bytes;
  d_world : W
}.
Arguments Dst {_} _ _ _ _.
Arguments d_peers {_} _.
Arguments d_reply {_} _.
Arguments d_sent {_} _.
Arguments d_world {_} _.

Definition PEER_VERSION : bytes := lit "/1".

Definition with_urlstem (u : bytes) (r : req123) : req123 :=
  Req u (stale_if_error r) (past_stale_while_revalidate r) (no_cache r) (max_stale r) (no_peer_cache r).

Section Distrib.
Context `{Auth} {W : Type}.
(** [be->refresh(req, reply)]; [now_millis] is the clock when it sends, and
    [sendto_ok] whether the system takes a datagram. *)
Context (be_refresh : be_id -> req123 -> reply123 -> W -> (outcome bool * reply123) * W).
Context (now_millis : Z) (sendto_ok : bytes -> bool).
Context (cfg : dcb_config).
Implicit Type s : dst W.

Definition set_peers (m : peer_map) s : dst W := Dst m (d_reply s) (d_sent s) (d_world s).
Definition add_sent (d : bytes) s : dst W := Dst (d_peers s) (d_reply s) (d_sent s ++ [d]) (d_world s).

Definition call_backend (b : be_id) (req : req123) : M (dst W) bool := fun s =>
  let '((o, r), w) := be_refresh b req (d_reply s) (d_world s) in
  (o, Dst (d_peers s) r (d_sent s) w).

(** The [send_*] functions catch what they throw. *)
Definition send_message (cmd url : bytes) : M (dst W) unit :=
  try_M
    (d ← lift (message_send (dc_scope cfg) (secret_mgr cfg) [cmd; url] now_millis);
     if sendto_ok d then modify (add_sent d) else raise (ESystem EIO))
    (fun _ => mret tt).
Definition send_present : M (dst W) unit := send_message (lit "P") (server_url cfg).
Definition send_absent : M (dst W) unit := send_message (lit "A") (server_url cfg).
Definition send_discourage_peer (peer_url : bytes) : M (dst W) unit := send_message (lit "D") peer_url.

Definition handle_peer_error (p : peer) : M (dst W) unit :=
  send_discourage_peer (p_url p);;
  modify (fun s => set_peers (remove_url (p_url p) (d_peers s)) s).

Definition refresh (req : req123) : M (dst W) bool :=
  if no_peer_cache req then call_backend BeUpstream req else
  s ← get;
  p ← lift (lookup (urlstem req) (d_peers s));
  if bool_decide (p_be p = BeUpstream) then call_backend BeUpstream req else
  try_M (call_backend (p_be p) (with_urlstem (lit "/p" ++ PEER_VERSION ++ urlstem req) req))
    (fun _ => handle_peer_error p;; call_backend BeUpstream req).

(** *** Handling messages *)

(** The new backend asks the peer for its uuid, into a reply of its own. *)
Definition handle_present (peerurl : bytes) : M (dst W) unit :=
  s ← get;
  if check_url peerurl (d_peers s) then mret tt else
  match add_sigil_version (dc_req cfg) peerurl with
  | Ret base =>
      let req := req_ctor (dc_req cfg) (lit "/p" ++ PEER_VERSION ++ lit "/p/uuid") in
      let '((o, rep), w) := be_refresh (BeHttp base) req reply_default (d_world s) in
      put (Dst (d_peers s) (d_reply s) (d_sent s) w);;
      match o with
      | Ret _ => modify (fun s => set_peers (insert_peer (Peer (content rep) peerurl (BeHttp base)) (d_peers s)) s)
      | Throw _ => mret tt
      | Undef => lift Undef
      end
  | Throw _ => mret tt
  | Undef => lift Undef
  end.

Definition handle_absent (peerurl : bytes) : M (dst W) unit :=
  if bool_decide (peerurl = server_url cfg) then mret tt
  else modify (fun s => set_peers (remove_url peerurl (d_peers s)) s).

Definition handle_discourage_peer (peerurl : bytes) : M (dst W) unit := mret tt.

(** A round of [udp_listener] that finds a datagram; it goes on after any
    exception. *)
Definition udp_round (now : Z) (r : recv_result) : M (dst W) unit :=
  try_M
    (parts ← lift (message_recv (dc_scope cfg) (secret_mgr cfg) (multicast_timestamp_skew cfg) now r);
     match parts with
     | Some [cmd; url] =>
         if negb (zlen cmd =? 1) then mret tt else
         if bool_decide (cmd = lit "P") then handle_present url else
         if bool_decide (cmd = lit "A") then handle_absent url else
         if bool_decide (cmd = lit "D") then handle_discourage_peer url else
         mret tt
     | _ => mret tt
     end)
    (fun _ => mret tt).

(** The constructor puts itself on the ring. *)
Definition self_peer : peer := Peer (server_uuid cfg) (server_url cfg) BeUpstream.
Definition dcb_ctor (r : reply123) (w : W) : dst W := Dst (insert_peer self_peer no_peers) r [] w.
End Distrib.

(** ** Lemmas *)

#[local] Arguments nodes : simpl never.
#[local] Arguments ring_hash : simpl never.

(** *** The ring *)

Lemma least_node_spec f r :
  match least_node f r with
  | Some (k, p) => r !! k = Some p /\ f k = true
                   /\ forall k' p', r !! k' = Some p' -> f k' = true -> k <= k'
  | None => forall k p, r !! k = Some p -> f k = false
  end.
Proof.
  unfold least_node. revert r. apply (map_fold_weak_ind (fun acc r =>
    match acc with
    | Some (k, p) => r !! k = Some p /\ f k = true
                     /\ forall k' p', r !! k' = Some p' -> f k' = true -> k <= k'
    | None => forall k p, r !! k = Some p -> f k = false
    end)); [by intros k p ?%lookup_empty_Some|].
  intros k p r acc Hk IH. destruct (f k) eqn:Ef.
  - destruct acc as [[k0 p0]|].
    + destruct IH as (H1 & H2 & H3). assert (k <> k0) by congruence.
      destruct (Z.ltb_spec k k0).
      * rewrite lookup_insert_eq. split_and!; [done|done|]. intros k' p' [[<- _]|[_ E]]%lookup_insert_Some Hf; [lia|].
        specialize (H3 k' p' E Hf). lia.
      * rewrite lookup_insert_ne by done. split_and!; [done|done|].
        intros k' p' [[<- _]|[_ E]]%lookup_insert_Some Hf; [lia|]. by apply (H3 k' p').
    + rewrite lookup_insert_eq. split_and!; [done|done|].
      intros k' p' [[<- _]|[_ E]]%lookup_insert_Some Hf; [lia|]. by rewrite (IH k' p' E) in Hf.
  - destruct acc as [[k0 p0]|].
    + destruct IH as (H1 & H2 & H3). assert (k <> k0) by congruence.
      rewrite lookup_insert_ne by done. split_and!; [done|done|].
      intros k' p' [[<- _]|[_ E]]%lookup_insert_Some Hf; [congruence|]. by apply (H3 k' p').
    + intros k' p' [[<- _]|[_ E]]%lookup_insert_Some; [done|]. by apply (IH k' p').
Qed.

(** [k] is where a search from [h] ends: the least key above it or, round the
    end, the least of all. *)
Definition next_node (h : Z) (r : gmap Z peer) (k : Z) (p : peer) : Prop :=
  r !! k = Some p
  /\ ((h < k /\ forall k' p', r !! k' = Some p' -> h < k' -> k <= k')
      \/ ((forall k' p', r !! k' = Some p' -> k' <= h) /\ forall k' p', r !! k' = Some p' -> k <= k')).

Lemma ring_next_spec h r :
  match ring_next h r with Some (k, p) => next_node h r k p | None => r = ∅ end.
Proof.
  unfold ring_next. pose proof (least_node_spec (fun k => h <? k) r) as H1.
  destruct (least_node (fun k => h <? k) r) as [[k p]|].
  - destruct H1 as (H1 & H2 & H3). split; [done|]. left. split; [lia|].
    intros k' p' Hk' Hlt. apply (H3 k' p'); [done|lia].
  - pose proof (least_node_spec (fun _ => true) r) as H2.
    destruct (least_node (fun _ => true) r) as [[k p]|].
    + destruct H2 as (H2 & _ & H3). split; [done|]. right. split.
      * intros k' p' Hk'. specialize (H1 k' p' Hk'). lia.
      * intros k' p' Hk'. by apply (H3 k' p').
    + apply map_empty. intros k. destruct (r !! k) as [p|] eqn:E; [|done]. by specialize (H2 k p E).
Qed.

Lemma next_node_unique h r k p k' p' : next_node h r k p -> next_node h r k' p' -> k = k' /\ p = p'.
Proof.
  intros [H1 H] [H1' H'].
  assert (k = k') as -> ; [|split; congruence].
  destruct H as [[Ha Hb]|[Ha Hb]], H' as [[Ha' Hb']|[Ha' Hb']].
  - specialize (Hb _ _ H1' Ha'). specialize (Hb' _ _ H1 Ha). lia.
  - specialize (Ha' _ _ H1). lia.
  - specialize (Ha _ _ H1'). lia.
  - specialize (Hb _ _ H1'). specialize (Hb' _ _ H1). lia.
Qed.

Lemma ring_next_intro h r k p : next_node h r k p -> ring_next h r = Some (k, p).
Proof.
  intros Hn. pose proof (ring_next_spec h r) as H. destruct (ring_next h r) as [[k' p']|].
  - by destruct (next_node_unique _ _ _ _ _ _ Hn H) as [-> ->].
  - subst. destruct Hn as [?%lookup_empty_Some _]. done.
Qed.

(** The same search after some nodes were set to one peer, or taken away. *)
Lemma lookup_foldl_insert (l : list Z) (p : peer) (r : gmap Z peer) h :
  foldl (fun (r : gmap Z peer) h => <[h := p]> r) r l !! h = if bool_decide (h ∈ l) then Some p else r !! h.
Proof.
  revert r. induction l as [|x l IH]; intros r; [done|]. cbn [foldl]. rewrite IH.
  destruct (decide (h ∈ l)) as [Hl|Hl].
  - rewrite !bool_decide_eq_true_2 by set_solver. done.
  - rewrite (bool_decide_eq_false_2 (h ∈ l)) by done. destruct (decide (h = x)) as [->|Hx].
    + rewrite bool_decide_eq_true_2 by set_solver. apply lookup_insert_eq.
    + rewrite bool_decide_eq_false_2 by set_solver. by apply lookup_insert_ne.
Qed.

Lemma lookup_foldl_delete (l : list Z) (r : gmap Z peer) h :
  foldl (fun (r : gmap Z peer) h => delete h r) r l !! h = if bool_decide (h ∈ l) then None else r !! h.
Proof.
  revert r. induction l as [|x l IH]; intros r; [done|]. cbn [foldl]. rewrite IH.
  destruct (decide (h ∈ l)) as [Hl|Hl].
  - rewrite !bool_decide_eq_true_2 by set_solver. done.
  - rewrite (bool_decide_eq_false_2 (h ∈ l)) by done. destruct (decide (h = x)) as [->|Hx].
    + rewrite bool_decide_eq_true_2 by set_solver. apply lookup_delete_eq.
    + rewrite bool_decide_eq_false_2 by set_solver. by apply lookup_delete_ne.
Qed.

Lemma ring_insert p m h :
  ring (insert_peer p m) !! h
  = if bool_decide (h ∈ nodes (p_uuid p)) then Some p else ring m !! h.
Proof. apply lookup_foldl_insert. Qed.

Lemma ring_remove url u m h : url_to_uuid m !! url = Some u ->
  ring (remove_url url m) !! h = if bool_decide (h ∈ nodes u) then None else ring m !! h.
Proof. intros E. unfold remove_url. rewrite E. apply lookup_foldl_delete. Qed.

Lemma next_insert p m h k q :
  next_node h (ring (insert_peer p m)) k q -> q = p \/ next_node h (ring m) k q.
Proof.
  intros [H1 H]. rewrite ring_insert in H1. case_bool_decide as E; [left; congruence|right].
  assert (forall k' p', ring m !! k' = Some p' -> exists p'', ring (insert_peer p m) !! k' = Some p'') as Hin.
  { intros k' p' E'. rewrite ring_insert. case_bool_decide; eauto. }
  split; [done|]. destruct H as [[Ha Hb]|[Ha Hb]]; [left|right]; split; try done.
  - intros k' p' Hk Hlt. destruct (Hin _ _ Hk) as [p'' Hk']. by apply (Hb k' p'').
  - intros k' p' Hk. destruct (Hin _ _ Hk) as [p'' Hk']. by apply (Ha k' p'').
  - intros k' p' Hk. destruct (Hin _ _ Hk) as [p'' Hk']. by apply (Hb k' p'').
Qed.

Lemma next_remove url u m h k q : url_to_uuid m !! url = Some u -> k ∉ nodes u ->
  next_node h (ring m) k q -> next_node h (ring (remove_url url m)) k q.
Proof.
  intros Hu Hk [H1 H]. split; [rewrite (ring_remove _ u) by done; by rewrite bool_decide_eq_false_2|].
  assert (forall k' p', ring (remove_url url m) !! k' = Some p' -> ring m !! k' = Some p') as Hin.
  { intros k' p'. rewrite (ring_remove _ u) by done. by case_bool_decide. }
  destruct H as [[Ha Hb]|[Ha Hb]]; [left|right]; split; eauto.
Qed.

(** *** The table of peers

    [uuid_to_peer] is the table; the ring and [url_to_uuid] are what it makes
    of them, when the uuids in use have no places on the ring in common. *)

Definition no_collisions (U : list bytes) : Prop :=
  forall u v h, u ∈ U -> v ∈ U -> h ∈ nodes u -> h ∈ nodes v -> u = v.

Record peers_ok (U : list bytes) (m : peer_map) : Prop := {
  po_key : forall u p, uuid_to_peer m !! u = Some p -> p_uuid p = u /\ u ∈ U;
  po_ring : forall h p, ring m !! h = Some p
      <-> h ∈ nodes (p_uuid p) /\ uuid_to_peer m !! p_uuid p = Some p;
  po_url : forall x u, url_to_uuid m !! x = Some u
      <-> exists p, uuid_to_peer m !! u = Some p /\ p_url p = x
}.

Lemma no_peers_ok U : peers_ok U no_peers.
Proof.
  split; cbn.
  - by intros u p ?%lookup_empty_Some.
  - intros h p. rewrite !lookup_empty. split; [done|by intros [_ ?]].
  - intros x u. rewrite lookup_empty. split; [done|intros (p & E & _); by rewrite lookup_empty in E].
Qed.

Lemma first_node u : ring_hash u 1 ∈ nodes u.
Proof. unfold nodes, Nrep. cbn [seq map]. apply elem_of_cons. by left. Qed.

(** Who is at the first place of a uuid. *)
Lemma ring_first U m u : no_collisions U -> peers_ok U m -> u ∈ U ->
  ring m !! ring_hash u 1 = uuid_to_peer m !! u.
Proof.
  intros HU Hm Hu. destruct (uuid_to_peer m !! u) as [p|] eqn:E.
  - apply (po_ring U m Hm). destruct (po_key U m Hm u p E) as [-> _]. split; [apply first_node|done].
  - destruct (ring m !! ring_hash u 1) as [q|] eqn:Eq; [|done].
    apply (po_ring U m Hm) in Eq as [H1 H2]. destruct (po_key U m Hm _ _ H2) as [_ H3].
    assert (p_uuid q = u) as Eu by (eapply HU; [done..|apply first_node]). congruence.
Qed.

Lemma insert_peer_ok U m p : no_collisions U -> peers_ok U m -> p_uuid p ∈ U ->
  check_url (p_url p) m = false -> peers_ok U (insert_peer p m).
Proof.
  intros HU Hm Hp Hurl. apply bool_decide_eq_false in Hurl.
  assert (forall u q, uuid_to_peer m !! u = Some q -> p_url q <> p_url p) as Hfresh.
  { intros u q Hq E. apply Hurl. exists u. apply (po_url U m Hm). by exists q. }
  split.
  - cbn. intros u q [[<- <-]|[_ E]]%lookup_insert_Some; [done|by apply (po_key U m Hm)].
  - intros h q. rewrite ring_insert. cbn [uuid_to_peer insert_peer]. case_bool_decide as Eh.
    + split; [intros [= <-]; by rewrite lookup_insert_eq|].
      intros [H1 [[E ->]|[Hne E]]%lookup_insert_Some]; [done|].
      destruct (po_key U m Hm _ _ E) as [_ HqU]. exfalso. apply Hne. by eapply HU.
    + rewrite (po_ring U m Hm). split; intros [H1 H2]; (split; [done|]).
      * rewrite lookup_insert_ne; [done|]. intros E. apply Eh. by rewrite E.
      * rewrite lookup_insert_ne in H2; [done|]. intros E. apply Eh. by rewrite E.
  - intros x u. cbn [url_to_uuid insert_peer uuid_to_peer].
    rewrite (ring_first U) by done. split.
    + intros [[<- <-]|[Hx Hlk]]%lookup_insert_Some; [exists p; by rewrite lookup_insert_eq|].
      assert (exists q, uuid_to_peer m !! u = Some q /\ p_url q = x /\ u <> p_uuid p) as (q & Hq & Eq & Hne).
      { destruct (uuid_to_peer m !! p_uuid p) as [old|] eqn:Eold.
        - apply lookup_delete_Some in Hlk as [Ho Hlk]. apply (po_url U m Hm) in Hlk as (q & Hq & Eq).
          exists q. split_and!; [done..|]. intros ->. congruence.
        - apply (po_url U m Hm) in Hlk as (q & Hq & Eq). exists q. split_and!; [done..|]. intros ->. congruence. }
      exists q. by rewrite lookup_insert_ne.
    + intros (q & [[<- <-]|[Hne Hq]]%lookup_insert_Some & Eq).
      * subst. apply lookup_insert_eq.
      * rewrite lookup_insert_ne by (intros E; apply (Hfresh u q Hq); congruence).
        assert (url_to_uuid m !! x = Some u) as Hx by (apply (po_url U m Hm); by exists q).
        destruct (uuid_to_peer m !! p_uuid p) as [old|] eqn:Eold; [|done].
        rewrite lookup_delete_ne; [done|]. intros E.
        assert (url_to_uuid m !! p_url old = Some (p_uuid p)) as Ho by (apply (po_url U m Hm); by exists old).
        rewrite E, Hx in Ho. congruence.
Qed.

Lemma remove_url_ok U m url : no_collisions U -> peers_ok U m -> peers_ok U (remove_url url m).
Proof.
  intros HU Hm. destruct (url_to_uuid m !! url) as [u|] eqn:Eu; [|unfold remove_url; by rewrite Eu].
  pose proof (proj1 (po_url U m Hm url u) Eu) as (p & Hp & Hurl).
  destruct (po_key U m Hm u p Hp) as [Hpu HuU].
  assert (uuid_to_peer (remove_url url m) = delete u (uuid_to_peer m)) as E1
    by (unfold remove_url; by rewrite Eu).
  assert (url_to_uuid (remove_url url m) = delete url (url_to_uuid m)) as E2
    by (unfold remove_url; by rewrite Eu).
  split.
  - rewrite E1. intros v q [_ E]%lookup_delete_Some. by apply (po_key U m Hm).
  - intros h q. rewrite (ring_remove _ u) by done. rewrite E1. case_bool_decide as Eh.
    + split; [done|]. intros [H1 [Hne H2]%lookup_delete_Some]. destruct (po_key U m Hm _ _ H2) as [_ HqU].
      exfalso. apply Hne. by eapply HU.
    + rewrite (po_ring U m Hm). split; intros [H1 H2]; (split; [done|]).
      * rewrite lookup_delete_ne; [done|]. intros E. apply Eh. by rewrite E.
      * by apply lookup_delete_Some in H2 as [_ H2].
  - intros x v. rewrite E1, E2. split.
    + intros [Hx Hv]%lookup_delete_Some. apply (po_url U m Hm) in Hv as (q & Hq & Eq). exists q.
      split; [|done]. rewrite lookup_delete_ne; [done|]. intros <-. congruence.
    + intros (q & [Hne Hq]%lookup_delete_Some & Eq). assert (url_to_uuid m !! x = Some v) as Hx
        by (apply (po_url U m Hm); by exists q).
      rewrite lookup_delete_ne; [done|]. intros <-. congruence.
Qed.

Lemma check_url_spec U m url : peers_ok U m ->
  (check_url url m = true <-> exists u p, uuid_to_peer m !! u = Some p /\ p_url p = url).
Proof.
  intros Hm. unfold check_url. rewrite bool_decide_eq_true. split.
  - intros [u Hu]. exists u. by apply (po_url U m Hm).
  - intros (u & H). exists u. by apply (po_url U m Hm).
Qed.

(** How far a place of the ring is past another, going round. *)
Definition past_place (h k : Z) : Z := (k - h - 1) mod 2 ^ 64.

Lemma ring_hash_range u i : 0 <= ring_hash u i < 2 ^ 64.
Proof. apply hash64_range. Qed.

Lemma nodes_range u k : k ∈ nodes u -> 0 <= k < 2 ^ 64.
Proof. intros (i & -> & _)%list_elem_of_fmap. apply ring_hash_range. Qed.

Lemma past_place_cases h k : 0 <= h < 2 ^ 64 -> 0 <= k < 2 ^ 64 ->
  past_place h k = if h <? k then k - h - 1 else k - h - 1 + 2 ^ 64.
Proof.
  intros Hh Hk. unfold past_place. destruct (Z.ltb_spec h k); [apply Z.mod_small; lia|].
  symmetry. apply Z.mod_unique with (q := -1); lia.
Qed.

(** The next node is the nearest one. *)
Lemma next_node_nearest h r k p : 0 <= h < 2 ^ 64 ->
  (forall k' p', r !! k' = Some p' -> 0 <= k' < 2 ^ 64) -> next_node h r k p ->
  forall k' p', r !! k' = Some p' -> past_place h k <= past_place h k'.
Proof.
  intros Hh Hr [Hk H] k' p' Hk'. rewrite !past_place_cases by eauto.
  pose proof (Hr _ _ Hk). pose proof (Hr _ _ Hk').
  destruct H as [[Ha Hb]|[Ha Hb]].
  - specialize (Hb _ _ Hk'). destruct (Z.ltb_spec h k), (Z.ltb_spec h k'); lia.
  - specialize (Hb _ _ Hk'). pose proof (Ha _ _ Hk). pose proof (Ha _ _ Hk').
    destruct (Z.ltb_spec h k), (Z.ltb_spec h k'); lia.
Qed.

(** A lookup finds the peer with the nearest place. *)
Definition nearest (key : bytes) (m : peer_map) (q : peer) : Prop :=
  exists k, k ∈ nodes (p_uuid q)
    /\ forall u q' k', uuid_to_peer m !! u = Some q' -> k' ∈ nodes u ->
         past_place (ring_hash key 0) k <= past_place (ring_hash key 0) k'.

Lemma lookup_nearest U m key q : peers_ok U m -> lookup key m = Ret q -> nearest key m q.
Proof.
  intros Hm. unfold lookup. pose proof (ring_next_spec (ring_hash key 0) (ring m)) as H.
  destruct (ring_next (ring_hash key 0) (ring m)) as [[k p]|]; [|done]. intros [= <-].
  pose proof H as [Hk _]. apply (po_ring U m Hm) in Hk as [Hk _]. exists k. split; [done|].
  intros u q' k' Hu Hk'. destruct (po_key U m Hm u q' Hu) as [<- _].
  apply (next_node_nearest _ (ring m) k p (ring_hash_range key 0)) with (p' := q'); [|done|].
  - intros j p' [Hj _]%(po_ring U m Hm). by eapply nodes_range.
  - by apply (po_ring U m Hm).
Qed.

Lemma lookup_known U m key q : peers_ok U m -> lookup key m = Ret q -> uuid_to_peer m !! p_uuid q = Some q.
Proof.
  intros Hm. unfold lookup. pose proof (ring_next_spec (ring_hash key 0) (ring m)) as H.
  destruct (ring_next (ring_hash key 0) (ring m)) as [[k p]|]; [|done]. intros [= <-].
  destruct H as [H _]. by apply (po_ring U m Hm) in H as [_ H].
Qed.

Lemma lookup_total U m key u p : peers_ok U m -> uuid_to_peer m !! u = Some p ->
  exists q, lookup key m = Ret q.
Proof.
  intros Hm Hu. unfold lookup. pose proof (ring_next_spec (ring_hash key 0) (ring m)) as H.
  destruct (ring_next (ring_hash key 0) (ring m)) as [[k q]|]; [eauto|].
  destruct (po_key U m Hm u p Hu) as [E _]. subst u.
  assert (ring m !! ring_hash (p_uuid p) 1 = Some p) as Hr by (apply (po_ring U m Hm); split; [apply first_node|done]).
  rewrite H in Hr. by apply lookup_empty_Some in Hr.
Qed.

(** C30.  The peer map keeps its three maps together.  As long as no two
    uuids in use share a place on the ring, the ring, the url index and the
    table of peers say the same at all times: each known peer is at its
    hundred places and no one else is, a url is indexed when a known peer has
    it, and its peer is the one [lookup_peerurl] finds.  Inserting a peer with a
    new url replaces the peer with its uuid, old url and all; removing a url
    removes the peer that has it and no other; and, whenever there is a known
    peer, a lookup finds the one that has the next place on the ring: going up
    from the hash of the key and round at 2^64, no place of any known peer is
    nearer than one of its. *)
Theorem peer_map_refines U m :
  no_collisions U -> peers_ok U m ->
  (forall p, p_uuid p ∈ U -> check_url (p_url p) m = false ->
     peers_ok U (insert_peer p m)
     /\ uuid_to_peer (insert_peer p m) = <[p_uuid p := p]> (uuid_to_peer m))
  /\ (forall url, peers_ok U (remove_url url m)
       /\ forall u q, uuid_to_peer (remove_url url m) !! u = Some q
            <-> uuid_to_peer m !! u = Some q /\ p_url q <> url)
  /\ (forall url, check_url url m = true <-> exists u p, uuid_to_peer m !! u = Some p /\ p_url p = url)
  /\ (forall url p, lookup_peerurl url m = Some p
       <-> uuid_to_peer m !! p_uuid p = Some p /\ p_url p = url)
  /\ (forall key, uuid_to_peer m <> ∅ ->
        exists q k, lookup key m = Ret q /\ uuid_to_peer m !! p_uuid q = Some q
          /\ k ∈ nodes (p_uuid q)
          /\ forall u q' k', uuid_to_peer m !! u = Some q' -> k' ∈ nodes u ->
               past_place (ring_hash key 0) k <= past_place (ring_hash key 0) k').
Proof.
  intros HU Hm. split_and!.
  - intros p Hp Hurl. split; [by apply insert_peer_ok|done].
  - intros url. split; [by apply remove_url_ok|]. intros u q. unfold remove_url.
    destruct (url_to_uuid m !! url) as [v|] eqn:Ev.
    + pose proof (proj1 (po_url U m Hm url v) Ev) as (p & Hp & Hurl). cbn [uuid_to_peer].
      rewrite lookup_delete_Some. split; intros [H1 H2]; split; try done.
      * intros E. assert (url_to_uuid m !! url = Some u) by (apply (po_url U m Hm); by exists q). congruence.
      * intros <-. congruence.
    + split; [|by intros [? _]]. intros H. split; [done|]. intros E.
      assert (url_to_uuid m !! url = Some u) by (apply (po_url U m Hm); by exists q). congruence.
  - intros url. by apply (check_url_spec U).
  - intros url p. unfold lookup_peerurl. destruct (url_to_uuid m !! url) as [u|] eqn:Eu; cbn.
    + pose proof (proj1 (po_url U m Hm url u) Eu) as (q & Hq & Hurl).
      destruct (po_key U m Hm u q Hq) as [Equ HuU]. rewrite (ring_first U) by done. split.
      * intros E. destruct (po_key U m Hm u p E) as [-> _]. by simplify_eq.
      * intros [H1 H2]. assert (url_to_uuid m !! url = Some (p_uuid p)) by (apply (po_url U m Hm); by exists p).
        congruence.
    + split; [done|]. intros [H1 H2].
      assert (url_to_uuid m !! url = Some (p_uuid p)) by (apply (po_url U m Hm); by exists p). congruence.
  - intros key Hne. apply map_choose in Hne as (u & p & Hu).
    destruct (lookup_total U m key u p Hm Hu) as [q Hq].
    destruct (lookup_nearest U m key q Hm Hq) as (k & Hk & Hn). exists q, k.
    split_and!; [done|by eapply lookup_known|done|done].
Qed.

(** The hashing is consistent: a peer that joins takes urls over, and
    no url moves between the others, whatever collides with what; a peer that
    leaves gives up its own urls, and every url that another peer had stays
    there. *)
Theorem consistent_hashing U m key :
  (forall p, lookup key (insert_peer p m) = Ret p
             \/ lookup key (insert_peer p m) = lookup key m)
  /\ (no_collisions U -> peers_ok U m ->
      forall url q, lookup key m = Ret q -> p_url q <> url -> lookup key (remove_url url m) = Ret q).
Proof.
  split.
  - intros p. unfold lookup. pose proof (ring_next_spec (ring_hash key 0) (ring (insert_peer p m))) as H.
    destruct (ring_next (ring_hash key 0) (ring (insert_peer p m))) as [[k q]|].
    + destruct (next_insert p m _ k q H) as [->|Hn]; [by left|right].
      by rewrite (ring_next_intro _ _ _ _ Hn).
    + exfalso. pose proof (ring_insert p m (ring_hash (p_uuid p) 1)) as E.
      rewrite bool_decide_eq_true_2 in E by apply first_node. rewrite H in E.
      by apply lookup_empty_Some in E.
  - intros HU Hm url q Hq Hne. destruct (url_to_uuid m !! url) as [u|] eqn:Eu;
      [|unfold remove_url; by rewrite Eu].
    unfold lookup in *. pose proof (ring_next_spec (ring_hash key 0) (ring m)) as H.
    destruct (ring_next (ring_hash key 0) (ring m)) as [[k p]|] eqn:En; [|done]. injection Hq as ->.
    pose proof (proj1 (po_url U m Hm url u) Eu) as (p' & Hp' & Hurl).
    destruct (po_key U m Hm u p' Hp') as [_ HuU].
    assert (k ∉ nodes u) as Hk.
    { intros Hin. destruct H as [H _]. apply (po_ring U m Hm) in H as [H1 H2].
      destruct (po_key U m Hm _ _ H2) as [_ HqU].
      assert (p_uuid q = u) as Equ by (by eapply HU). congruence. }
    by rewrite (ring_next_intro _ _ _ _ (next_remove url u m _ k q Eu Hk H)).
Qed.

(** Two peers. *)
Definition disjointb (na nb : list Z) : bool := forallb (fun h => negb (existsb (Z.eqb h) nb)) na.

Lemma no_collisions_2 a b : disjointb (nodes a) (nodes b) = true -> no_collisions [a; b].
Proof.
  unfold disjointb. intros H. assert (forall h, h ∈ nodes a -> h ∈ nodes b -> False) as Hd.
  { intros h Ha Hb. rewrite forallb_forall in H. apply list_elem_of_In in Ha. specialize (H h Ha).
    apply negb_true_iff, not_true_iff_false in H. apply H, existsb_exists. exists h.
    split; [by apply list_elem_of_In|apply Z.eqb_refl]. }
  intros u v h Hu Hv H1 H2. rewrite !elem_of_cons, elem_of_nil in Hu, Hv.
  destruct Hu as [->|[->|[]]], Hv as [->|[->|[]]]; try done; exfalso; eauto.
Qed.

Definition uuid_a : bytes := lit "uuid-a".
Definition uuid_b : bytes := lit "uuid-b".
Definition peer_a : peer := Peer uuid_a (lit "http://10.0.0.1:80") BeUpstream.
Definition peer_b : peer := Peer uuid_b (lit "http://10.0.0.2:80") (BeHttp (lit "http://10.0.0.2:80/fs123/7/3")).

Lemma no_collisions_ex : no_collisions [uuid_a; uuid_b].
Proof. apply no_collisions_2. vm_compute. reflexivity. Qed.

Lemma peer_map_refines_witness :
  peers_ok [uuid_a; uuid_b] (insert_peer peer_a no_peers)
  /\ uuid_to_peer (insert_peer peer_a no_peers) = <[uuid_a := peer_a]> ∅.
Proof.
  destruct (peer_map_refines [uuid_a; uuid_b] no_peers no_collisions_ex (no_peers_ok _)) as (H & _).
  apply (H peer_a); [apply elem_of_cons; by left|reflexivity].
Defined.

(** *** Messages *)

(** Words, each with a NUL after it. *)
Definition words_text (l : list bytes) : bytes := mjoin (map (fun w => w ++ [NUL]) l).
Definition nul_free (w : bytes) : Prop := NUL ∉ w.
Definition ends_nul (l : bytes) : Prop := exists q, l = q ++ [NUL].

Lemma words_text_cons w l : words_text (w :: l) = w ++ NUL :: words_text l.
Proof. unfold words_text. cbn. assoc. Qed.

Lemma words_text_app l k : words_text (l ++ k) = words_text l ++ words_text k.
Proof. unfold words_text. by rewrite map_app, join_app. Qed.

Lemma rpop_app w l : nul_free w -> rpop (w ++ NUL :: l) = Ret (w, l).
Proof.
  intros Hw. unfold rpop. rewrite c_str_app by done.
  replace (zdrop (zlen w + 1) (w ++ NUL :: l)) with l; [by destruct (w ++ NUL :: l) eqn:E; [destruct w|]|].
  replace (w ++ NUL :: l) with ((w ++ [NUL]) ++ l) by assoc. symmetry. apply zdrop_app. zlia.
Qed.

(** Up to the first NUL, which is there. *)
Lemma ends_nul_split l : ends_nul l ->
  exists w r, l = w ++ NUL :: r /\ nul_free w /\ (r = [] \/ ends_nul r).
Proof.
  intros [q ->]. induction q as [|c q IH].
  - exists [], []. split_and!; [done|apply not_elem_of_nil|by left].
  - destruct (decide (c = NUL)) as [->|Hc].
    + exists [], (q ++ [NUL]). split_and!; [done|apply not_elem_of_nil|right; by exists q].
    + destruct IH as (w & r & E & Hw & Hr). exists (c :: w), r. cbn. rewrite E.
      split_and!; [done|by apply not_elem_of_cons|done].
Qed.

Lemma ends_nul_ne l : ends_nul l -> l <> [].
Proof. intros [q ->]. by destruct q. Qed.

Lemma rpop_inv l : ends_nul l ->
  exists w r, rpop l = Ret (w, r) /\ l = w ++ NUL :: r /\ nul_free w /\ (r = [] \/ ends_nul r).
Proof.
  intros Hl. destruct (ends_nul_split l Hl) as (w & r & -> & Hw & Hr).
  exists w, r. by rewrite rpop_app.
Qed.

Lemma rpop_all_text fuel ws : Forall nul_free ws -> (length (words_text ws) < fuel)%nat ->
  rpop_all fuel (words_text ws) = Ret ws.
Proof.
  intros H. revert fuel. induction H as [|w ws Hw H IH]; intros [|fuel] Hf; [lia|done|lia|].
  rewrite words_text_cons in *. rewrite length_app in Hf. cbn [length] in Hf. cbn [rpop_all].
  destruct (w ++ NUL :: words_text ws) eqn:E; [by destruct w|]. rewrite <- E, rpop_app by done.
  cbn [mbind outcome_bind]. rewrite IH by lia. done.
Qed.

Lemma rpop_all_inv fuel l : l = [] \/ ends_nul l -> (length l < fuel)%nat ->
  exists ws, rpop_all fuel l = Ret ws /\ l = words_text ws /\ Forall nul_free ws.
Proof.
  revert l. induction fuel as [|fuel IH]; intros l Hl Hf; [lia|]. destruct Hl as [->|Hl].
  { by exists []. }
  destruct (rpop_inv l Hl) as (w & r & E & -> & Hw & Hr). cbn [rpop_all].
  destruct (w ++ NUL :: r) eqn:El; [by destruct w|]. rewrite E, <- El in *. cbn [mbind outcome_bind].
  rewrite length_app in Hf. cbn [length] in Hf.
  destruct (IH r Hr) as (ws & -> & -> & Hws); [lia|]. exists (w :: ws). cbn [mbind outcome_bind].
  rewrite words_text_cons. split_and!; [done|done|by constructor].
Qed.

Lemma wpush_all_Ret l d d' : wpush_all l d = Ret d' -> d' = d ++ words_text l.
Proof.
  revert d. induction l as [|w l IH]; intros d H; cbn [wpush_all] in H.
  { injection H as <-. unfold words_text. cbn. by rewrite app_nil_r. }
  apply bind_Ret in H as (d1 & H1 & H). unfold wpush, wroom in H1.
  apply bind_Ret in H1 as (u & _ & [= <-]). rewrite (IH _ H), words_text_cons. assoc.
Qed.

Lemma wpush_Ret w d d' : wpush w d = Ret d' -> d' = d ++ words_text [w].
Proof.
  unfold wpush. intros H. apply bind_Ret in H as (u & _ & [= <-]).
  rewrite words_text_cons. done.
Qed.

Section Messages.
Context `{AL : AuthLaws}.

(** The datagram that is sent. *)
Lemma message_send_Ret scope sm parts now d : message_send scope sm parts now = Ret d ->
  zlen d <= message_size /\
  exists sid mac, d = words_text ([VERSION; scope; sid] ++ parts) ++ le 8 now ++ mac /\ zlen mac = 32
    /\ match sm with
       | Some sm => multicast_sid sm = Ret sid
           /\ exists k, multicast_key sm sid = Ret k /\ 32 <= zlen k
                /\ mac = crypto_auth (words_text ([VERSION; scope; sid] ++ parts) ++ le 8 now) (ztake 32 k)
       | None => sid = []
       end.
Proof.
  unfold message_send. intros Hs.
  apply bind_Ret in Hs as (d1 & E1%wpush_Ret & Hs). apply bind_Ret in Hs as (d2 & E2%wpush_Ret & Hs).
  apply bind_Ret in Hs as ([sid key] & Ek & Hs). apply bind_Ret in Hs as (d3 & E3%wpush_Ret & Hs).
  apply bind_Ret in Hs as (d4 & E4%wpush_all_Ret & Hs). cbv zeta in Hs.
  apply bind_Ret in Hs as (u1 & _ & Hs). apply bind_Ret in Hs as (u2 & Hroom & Hs).
  apply Ret_inj in Hs as <-.
  assert (d4 = words_text ([VERSION; scope; sid] ++ parts)) as Ed.
  { rewrite E4, E3, E2, E1. rewrite !words_text_app. cbn [app]. rewrite !words_text_cons. unfold words_text. cbn. assoc. }
  unfold wroom in Hroom. apply if_throw_Ret in Hroom as [Hroom _].
  unfold message_size, crypto_auth_BYTES in *.
  assert (zlen match key with Some k => crypto_auth (d4 ++ le 8 now) k | None => replicate (Z.to_nat 32) NUL end = 32)
    as Hmac by (destruct key; [apply crypto_auth_length|reflexivity]).
  split; [rewrite zlen_app, Hmac; lia|].
  exists sid. eexists. split; [rewrite <- Ed; symmetry; apply app_assoc|]. split; [exact Hmac|].
  destruct sm as [sm|]; [|by injection Ek as <- <-].
  apply bind_Ret in Ek as (sid' & Esid & Ek). apply bind_Ret in Ek as (k & Ekey & Ek).
  apply bind_Ret in Ek as (k' & Eauth & [= <- <-]). unfold auth_key, crypto_auth_KEYBYTES in Eauth.
  apply if_throw_Ret in Eauth as [Hlen [= <-]]. split; [done|]. exists k. rewrite <- Ed.
  split_and!; [done|lia|done].
Qed.

(** The end of a well-formed datagram. *)
Lemma message_split (body ts mac m : bytes) : m = body ++ ts ++ mac -> zlen ts = 8 -> zlen mac = 32 ->
  zlen m - 8 - crypto_auth_BYTES = zlen body /\ ztake (zlen body) m = body
  /\ ztake 8 (zdrop (zlen body) m) = ts /\ zdrop (zlen body + 8) m = mac
  /\ ztake (zlen body + 8) m = body ++ ts.
Proof.
  intros -> Ht Hm. unfold crypto_auth_BYTES. split_and!.
  - rewrite !zlen_app. lia.
  - by apply ztake_app.
  - rewrite zdrop_app, ztake_app; done.
  - rewrite app_assoc. apply zdrop_app. rewrite zlen_app. lia.
  - rewrite app_assoc. apply ztake_app. rewrite zlen_app. lia.
Qed.

Lemma words_text_ends ws : ws <> [] -> ends_nul (words_text ws).
Proof.
  destruct ws as [|w ws _] using rev_ind; [done|]. intros _. exists (words_text ws ++ w).
  rewrite words_text_app. unfold words_text at 2. cbn. assoc.
Qed.

Lemma message_recv_shape scope sm skew now (body ts mac m : bytes) :
  m = body ++ ts ++ mac -> ends_nul body -> zlen ts = 8 -> zlen mac = 32 -> zlen m <= message_size ->
  message_recv scope sm skew now (Datagram m) = recv_words scope sm skew now body ts (body ++ ts) mac.
Proof.
  intros Em [q Eq] Ht Hm Hl. destruct (message_split body ts mac m Em Ht Hm) as (Er & Eb & Et & Emac & Ebt).
  assert (zlen body = zlen q + 1) as Hb by (rewrite Eq; zlia). pose proof (zlen_nonneg q).
  unfold message_recv. cbv zeta. rewrite Er, Eb, Et, Emac, Ebt. unfold crypto_auth_BYTES in *.
  rewrite (proj2 (Z.eqb_neq _ _)) by lia. rewrite (proj2 (Z.ltb_ge _ _)) by done.
  rewrite (proj2 (Z.ltb_ge _ _)) by lia. replace (zlen body - 1) with (zlen q) by lia.
  assert (sv_idx m (zlen q) = Ret NUL) as ->.
  { rewrite Em, Eq, <- app_assoc. apply sv_idx_mid. }
  cbn [mbind outcome_bind]. by rewrite bool_decide_eq_true_2.
Qed.

(** What a datagram that gets to [recv_words] looks like. *)
Lemma message_recv_split scope sm skew now r parts :
  message_recv scope sm skew now r = Ret (Some parts) ->
  exists body ts mac, r = Datagram (body ++ ts ++ mac) /\ ends_nul body /\ zlen ts = 8 /\ zlen mac = 32
    /\ recv_words scope sm skew now body ts (body ++ ts) mac = Ret (Some parts).
Proof.
  destruct r as [eno|d]; cbn [message_recv]; [by case_match|]. cbv zeta. unfold crypto_auth_BYTES.
  destruct (zlen d =? 0) eqn:E0; [done|]. destruct (message_size <? zlen d); [done|].
  destruct (Z.ltb_spec (zlen d) (8 + 32 + 1)) as [|Hlen]; [done|].
  set (rend := zlen d - 8 - 32). intros Hr. apply bind_Ret in Hr as (c & Hc & Hr).
  case_bool_decide as En; [|done]. subst c. cbn [negb] in Hr.
  assert (d = ztake rend d ++ ztake 8 (zdrop rend d) ++ zdrop (rend + 8) d) as Ed.
  { rewrite <- zdrop_zdrop by (unfold rend; lia). rewrite ztake_zdrop by lia.
    symmetry. apply ztake_zdrop. unfold rend. lia. }
  assert (ztake (rend + 8) d = ztake rend d ++ ztake 8 (zdrop rend d)) as E8.
  { assert (zlen (ztake rend d ++ ztake 8 (zdrop rend d)) = rend + 8) as El.
    { rewrite zlen_app, !zlen_ztake, zlen_zdrop by (unfold rend; lia). unfold rend. lia. }
    set (x := ztake rend d ++ ztake 8 (zdrop rend d)) in *.
    transitivity (ztake (rend + 8) (x ++ zdrop (rend + 8) d)); [|by apply ztake_app].
    f_equal. unfold x. by rewrite <- app_assoc. }
  exists (ztake rend d), (ztake 8 (zdrop rend d)), (zdrop (rend + 8) d).
  rewrite <- Ed, <- E8. split_and!; [done| | | |exact Hr].
  - unfold sv_idx in Hc. destruct (zget d (rend - 1)) as [x|] eqn:Ex; [|done]. injection Hc as ->.
    unfold zget in Ex. destruct ((0 <=? rend - 1) && (rend - 1 <? zlen d)) eqn:Eb; [|done].
    exists (take (Z.to_nat (rend - 1)) d). rewrite <- (take_S_r d (Z.to_nat (rend - 1)) NUL Ex).
    unfold ztake. f_equal. unfold rend in *. lia.
  - rewrite zlen_ztake, zlen_zdrop by (unfold rend; lia). unfold rend. lia.
  - rewrite zlen_zdrop by (unfold rend; lia). unfold rend. lia.
Qed.

Lemma rpop_Ret l w r : l = [] \/ ends_nul l -> rpop l = Ret (w, r) ->
  l = w ++ NUL :: r /\ nul_free w /\ (r = [] \/ ends_nul r).
Proof.
  intros [->|Hl] E; [done|]. destruct (rpop_inv l Hl) as (w' & r' & E' & Hs). rewrite E in E'. by simplify_eq.
Qed.

Lemma i64_inv z x : i64 z = Ret x -> x = z.
Proof. unfold i64. case_match; [|done]. by intros [= <-]. Qed.

Lemma i64_Ret z : - 2 ^ 63 <= z < 2 ^ 63 -> i64 z = Ret z.
Proof.
  intros Hz. unfold i64, in_i64, tp_min, tp_max. by rewrite (proj2 (andb_true_iff _ _)) by lia.
Qed.
End Messages.

(** What one peer multicasts another reads: a datagram made by [send]
    fits the 512 bytes, and a receiver of the same scope, with no keys or with
    the sender's key under the same id, whose clock is within the permitted skew
    of the sender's, gets the very parts that were sent, as long as they, the
    scope and the key id have no NUL in them. *)
Theorem message_roundtrip `{AL : AuthLaws} scope sm sm' parts now d skew now' :
  message_send scope sm parts now = Ret d ->
  nul_free scope -> Forall nul_free parts -> (forall m sid, sm = Some m -> multicast_sid m = Ret sid -> nul_free sid) ->
  - 2 ^ 63 <= now < 2 ^ 63 -> - 2 ^ 62 <= now' - now < 2 ^ 62 ->
  Z.abs (now' - now) <= u32 (skew * 1000) ->
  match sm' with
  | None => True
  | Some m' => exists m, sm = Some m
      /\ forall sid, multicast_sid m = Ret sid -> multicast_key m' sid = multicast_key m sid
  end ->
  zlen d <= 512 /\ message_recv scope sm' skew now' (Datagram d) = Ret (Some parts).
Proof.
  intros Hs Hscope Hparts Hsid Hnow Hdelta Hskew Hkeys.
  destruct (message_send_Ret scope sm parts now d Hs) as (Hlen & sid & mac & Ed & Hmac & Hsm).
  split; [done|].
  assert (nul_free sid) as Hsidf.
  { destruct sm as [m|]; [by eapply Hsid; [|apply Hsm]|]. rewrite Hsm. apply not_elem_of_nil. }
  assert (zlen (le 8 now) = 8) as Hts by apply zlen_le.
  rewrite (message_recv_shape scope sm' skew now' _ (le 8 now) mac d Ed)
    by (done || apply words_text_ends; done).
  unfold recv_words. cbn [app]. rewrite words_text_cons, rpop_app by (apply (bool_decide_unpack _); vm_compute; exact I).
  cbn [mbind outcome_bind]. rewrite bool_decide_eq_true_2 by done. cbn [negb].
  rewrite words_text_cons, rpop_app by done. cbn [mbind outcome_bind].
  rewrite bool_decide_eq_true_2 by done. cbn [negb]. cbv zeta.
  assert (swrap 64 (of_le (le 8 now)) = now) as ->.
  { rewrite of_le_le. change (256 ^ Z.of_nat 8) with (2 ^ 64). apply swrap_mod; lia. }
  assert (i64 (now' - now) = Ret (now' - now)) as -> by (apply i64_Ret; lia).
  cbn [mbind outcome_bind]. assert (i64 (Z.abs (now' - now)) = Ret (Z.abs (now' - now))) as ->
    by (apply i64_Ret; lia).
  cbn [mbind outcome_bind]. rewrite (proj2 (Z.ltb_ge _ _)) by done.
  rewrite words_text_cons, rpop_app by done. cbn [mbind outcome_bind].
  assert (match sm' with
          | Some m' => k ← multicast_key m' sid; k ← auth_key k;
              if crypto_auth_verify mac (words_text ([VERSION; scope; sid] ++ parts) ++ le 8 now) k
              then Ret tt else Throw ERuntime
          | None => Ret tt end = Ret tt) as Hauth.
  { destruct sm' as [m'|]; [|done]. destruct Hkeys as (m & -> & Hk).
    destruct Hsm as (Esid & k & Ek & Hkl & ->). rewrite (Hk sid Esid), Ek. cbn [mbind outcome_bind].
    unfold auth_key, crypto_auth_KEYBYTES. rewrite (proj2 (Z.ltb_ge _ _)) by done. cbn [mbind outcome_bind].
    unfold crypto_auth_verify. by rewrite bool_decide_eq_true_2. }
  cbn [app] in Hauth. rewrite !words_text_cons in Hauth. rewrite Hauth. cbn [mbind outcome_bind].
  rewrite rpop_all_text by (done || lia). done.
Qed.

(** C31.  What a peer with keys acts on is authentic and recent: whatever
    arrives, a datagram [recv] accepts has the current version and its own
    scope, a timestamp within the permitted skew of the clock, and at its
    end the authenticator of everything before it under the first 32
    bytes of the key with the id in the message; its parts are the words between
    the id and the timestamp, all of them and nothing else. *)
Theorem message_authentic `{A : Auth} scope m skew now r parts :
  message_recv scope (Some m) skew now r = Ret (Some parts) ->
  exists sid ts k, multicast_key m sid = Ret k /\ 32 <= zlen k /\ zlen ts = 8
    /\ let signed := words_text ([VERSION; scope; sid] ++ parts) ++ ts in
       r = Datagram (signed ++ crypto_auth signed (ztake 32 k))
       /\ Z.abs (now - swrap 64 (of_le ts)) <= u32 (skew * 1000).
Proof.
  intros Hr. destruct (message_recv_split scope (Some m) skew now r parts Hr)
    as (body & ts & mac & -> & Hbody & Hts & Hmac & Hw). clear Hr.
  unfold recv_words in Hw.
  destruct (rpop_inv body Hbody) as (v & w1 & E1 & -> & Hv & H1). rewrite E1 in Hw. cbn [mbind outcome_bind] in Hw.
  case_bool_decide as Ev; [|done]. subst v. cbn [negb] in Hw.
  apply bind_Ret in Hw as ([sc w2] & E2 & Hw).
  destruct (rpop_Ret _ _ _ H1 E2) as (-> & Hsc & H2).
  case_bool_decide as Es; [|done]. subst sc. cbn [negb] in Hw. cbv zeta in Hw.
  apply bind_Ret in Hw as (delta & Ed & Hw). apply bind_Ret in Hw as (absd & Ea & Hw).
  apply i64_inv in Ed as ->. apply i64_inv in Ea as ->.
  apply if_throw_Ret in Hw as [Hskew Hw].
  apply bind_Ret in Hw as ([sid w3] & E3 & Hw).
  destruct (rpop_Ret _ _ _ H2 E3) as (-> & Hsid & H3).
  apply bind_Ret in Hw as (u & Hauth & Hw). apply bind_Ret in Hw as (ps & Ep & Hw).
  injection Hw as <-.
  destruct (rpop_all_inv _ w3 H3 (Nat.lt_succ_diag_r _)) as (ws & Ews & -> & _).
  rewrite Ews in Ep. injection Ep as <-.
  apply bind_Ret in Hauth as (k & Ek & Hauth). apply bind_Ret in Hauth as (k' & Ek' & Hauth).
  unfold auth_key, crypto_auth_KEYBYTES in Ek'. apply if_throw_Ret in Ek' as [Hlen [= <-]].
  destruct (crypto_auth_verify _ _ _) eqn:Hver in Hauth; [|done].
  apply bool_decide_eq_true in Hver.
  exists sid, ts, k. split_and!; [done|lia|done|].
  assert (words_text ([VERSION; scope; sid] ++ ws) = VERSION ++ NUL :: scope ++ NUL :: sid ++ NUL :: words_text ws) as Et
    by (cbn [app]; by rewrite !words_text_cons).
  cbv zeta. rewrite Et. split; [|lia]. f_equal. rewrite Hver. assoc.
Qed.

(** A toy authenticator, and a message between two peers with a key. *)
#[local] Instance auth_ex : Auth := fun m k => replicate 31 NUL ++ [chr (zlen m + zlen k)].
#[local] Instance auth_ex_laws : AuthLaws.
Proof. intros m k. reflexivity. Qed.
Definition secrets_ex : multicast_secrets :=
  MulticastSecrets (Ret (lit "k1")) (fun sid => if bool_decide (sid = lit "k1") then Ret (replicate 40 "x"%char) else Throw ERuntime).
Definition datagram_ex : bytes :=
  match message_send (lit "/data") (Some secrets_ex) [lit "P"; lit "http://10.0.0.2:80"] 1000000 with
  | Ret d => d | _ => [] end.

Lemma consistent_hashing_witness :
  let m := insert_peer peer_b (insert_peer peer_a no_peers) in
  (lookup (lit "/a/x") m = Ret peer_b \/ lookup (lit "/a/x") m = lookup (lit "/a/x") (insert_peer peer_a no_peers))
  /\ lookup (lit "/a") (remove_url (p_url peer_b) m) = Ret peer_a.
Proof.
  cbv zeta. split.
  - exact (proj1 (consistent_hashing [uuid_a; uuid_b] (insert_peer peer_a no_peers) (lit "/a/x")) peer_b).
  - apply (proj2 (consistent_hashing [uuid_a; uuid_b] (insert_peer peer_b (insert_peer peer_a no_peers)) (lit "/a"))
             no_collisions_ex).
    + apply insert_peer_ok; [exact no_collisions_ex| |apply (bool_decide_unpack _); vm_compute; exact I|vm_compute; reflexivity].
      apply insert_peer_ok; [exact no_collisions_ex|apply no_peers_ok|apply (bool_decide_unpack _); vm_compute; exact I|vm_compute; reflexivity].
    + vm_compute. reflexivity.
    + discriminate.
Defined.

Lemma message_roundtrip_witness :
  zlen datagram_ex <= 512
  /\ message_recv (lit "/data") (Some secrets_ex) 10 1002000 (Datagram datagram_ex)
     = Ret (Some [lit "P"; lit "http://10.0.0.2:80"]).
Proof.
  apply (message_roundtrip (lit "/data") (Some secrets_ex) (Some secrets_ex)
    [lit "P"; lit "http://10.0.0.2:80"] 1000000 datagram_ex 10 1002000).
  - vm_compute. reflexivity.
  - apply (bool_decide_unpack _). vm_compute. exact I.
  - apply (bool_decide_unpack _). vm_compute. exact I.
  - intros m sid [= <-] [= <-]. apply (bool_decide_unpack _). vm_compute. exact I.
  - lia.
  - lia.
  - vm_compute. discriminate.
  - exists secrets_ex. split; [reflexivity|]. intros sid _. reflexivity.
Defined.

Lemma message_authentic_witness :
  exists sid ts k, multicast_key secrets_ex sid = Ret k /\ 32 <= zlen k /\ zlen ts = 8
    /\ let signed := words_text ([VERSION; lit "/data"; sid] ++ [lit "P"; lit "http://10.0.0.2:80"]) ++ ts in
       Datagram datagram_ex = Datagram (signed ++ crypto_auth signed (ztake 32 k))
       /\ Z.abs (1002000 - swrap 64 (of_le ts)) <= u32 (10 * 1000).
Proof.
  apply (message_authentic (lit "/data") secrets_ex 10 1002000 (Datagram datagram_ex)
    [lit "P"; lit "http://10.0.0.2:80"]).
  vm_compute. reflexivity.
Defined.

(** A timestamp at the other end of time: the subtraction overflows, before
    the authenticator is looked at. *)
Example hostile_timestamp :
  message_recv (lit "/data") (Some secrets_ex) 10 1002000
    (Datagram (words_text [VERSION; lit "/data"; []] ++ le 8 (- 2 ^ 63) ++ replicate 32 NUL)) = Undef.
Proof. vm_compute. reflexivity. Qed.

(** *** The backend *)

Section Reach.
Context {A : Auth} {W : Type}.
Context (be_refresh : be_id -> req123 -> reply123 -> W -> (outcome bool * reply123) * W).
Context (now_millis : Z) (sendto_ok : bytes -> bool).
Context (cfg : dcb_config).
Implicit Type s : dst W.

#[local] Abbreviation refr := (refresh be_refresh now_millis sendto_ok cfg).

(** What happens to the backend: a refresh into some reply, which may also be
    any other change to the world and the reply, or a datagram. *)
Inductive dstep : dst W -> dst W -> Prop :=
| Step_refresh s req r w : dstep s (refr req (Dst (d_peers s) r (d_sent s) w)).2
| Step_udp s now r : dstep s (udp_round be_refresh cfg now r s).2
| Step_send s url : dstep s (send_message now_millis sendto_ok cfg (lit "P") url s).2.

Definition reachable (r : reply123) (w : W) : dst W -> Prop := rtc dstep (dcb_ctor cfg r w).

(** What is answered to the question for a uuid is some uuid of [U], and not
    the backend's own. *)
Definition honest_uuids (U : list bytes) : Prop := forall base w b rep w',
  be_refresh (BeHttp base) (req_ctor (dc_req cfg) (lit "/p" ++ PEER_VERSION ++ lit "/p/uuid"))
    reply_default w = (Ret b, rep, w') ->
  content rep ∈ U /\ content rep <> server_uuid cfg.

Definition knows_self (U : list bytes) s : Prop :=
  peers_ok U (d_peers s) /\ uuid_to_peer (d_peers s) !! server_uuid cfg = Some (self_peer cfg)
  /\ forall u p, uuid_to_peer (d_peers s) !! u = Some p -> p_be p = BeUpstream -> p = self_peer cfg.

Context (U : list bytes) (HU : no_collisions U) (Hself : server_uuid cfg ∈ U) (Hhonest : honest_uuids U).

Lemma ctor_knows_self r w : knows_self U (dcb_ctor cfg r w).
Proof.
  unfold knows_self. cbn [dcb_ctor d_peers]. split_and!.
  - apply insert_peer_ok; [done|apply no_peers_ok|done|]. unfold check_url. cbn. by rewrite lookup_empty.
  - cbn. apply lookup_insert_eq.
  - cbn. intros u p [[_ <-]|[_ E]]%lookup_insert_Some; [done|]. by rewrite lookup_empty in E.
Qed.

Lemma remove_knows_self url m s : d_peers s = m -> knows_self U s -> url <> server_url cfg ->
  knows_self U (set_peers (remove_url url m) s).
Proof.
  intros <- (H1 & H2 & H3) Hne. unfold knows_self. cbn [set_peers d_peers].
  destruct (url_to_uuid (d_peers s) !! url) as [u|] eqn:Eu.
  2: { unfold remove_url. by rewrite Eu. }
  assert (uuid_to_peer (remove_url url (d_peers s)) = delete u (uuid_to_peer (d_peers s))) as E
    by (unfold remove_url; by rewrite Eu).
  rewrite E. split_and!; [by apply remove_url_ok| |].
  - rewrite lookup_delete_ne; [done|]. intros ->.
    apply (po_url U _ H1) in Eu as (p & Hp & Hurl). rewrite H2 in Hp. injection Hp as <-. by apply Hne.
  - intros v p [_ Hv]%lookup_delete_Some. by apply (H3 v).
Qed.

Lemma insert_knows_self s peerurl base rep : knows_self U s -> check_url peerurl (d_peers s) = false ->
  content rep ∈ U -> content rep <> server_uuid cfg ->
  knows_self U (set_peers (insert_peer (Peer (content rep) peerurl (BeHttp base)) (d_peers s)) s).
Proof.
  intros (H1 & H2 & H3) Hc Hin Hne. unfold knows_self. cbn [set_peers d_peers]. split_and!.
  - by apply insert_peer_ok.
  - cbn. by rewrite lookup_insert_ne.
  - cbn. intros u p [[_ <-]|[_ E]]%lookup_insert_Some; [done|]. by apply (H3 u).
Qed.

(** [knows_self] is about the peers only. *)
Lemma knows_self_peers s s' : d_peers s' = d_peers s -> knows_self U s -> knows_self U s'.
Proof. unfold knows_self. by intros ->. Qed.

Lemma call_backend_peers b req s : d_peers (call_backend be_refresh b req s).2 = d_peers s.
Proof. unfold call_backend. by destruct (be_refresh b req (d_reply s) (d_world s)) as [[o r] w]. Qed.

(** The key functions return or throw. *)
Context (Hsec : forall sm, secret_mgr cfg = Some sm ->
  multicast_sid sm <> Undef /\ forall sid, multicast_key sm sid <> Undef).

Lemma message_send_defined parts : message_send (dc_scope cfg) (secret_mgr cfg) parts now_millis <> Undef.
Proof.
  assert (forall w d, wpush w d <> Undef) as Hp.
  { intros w d. unfold wpush, wroom. by case_match. }
  assert (forall l d, wpush_all l d <> Undef) as Hpa.
  { induction l as [|w l IH]; intros d; [done|]. cbn [wpush_all]. by apply bind_defined. }
  assert (forall d n, wroom d n <> Undef) as Hr by (intros d n; unfold wroom; by case_match).
  unfold message_send. do 2 (apply bind_defined; [by auto|intros ? _]).
  apply bind_defined; [|intros [sid key] _; repeat (apply bind_defined; [by auto|intros ? _]); done].
  destruct (secret_mgr cfg) as [sm|] eqn:E; [|done]. destruct (Hsec sm eq_refl) as [H1 H2].
  apply bind_defined; [done|intros sid _]. apply bind_defined; [done|intros k _].
  apply bind_defined; [unfold auth_key; by case_match|done].
Qed.

(** A send changes nothing but the datagrams sent. *)
Lemma send_message_ends cmd url s : exists l, (length l <= 1)%nat
  /\ send_message now_millis sendto_ok cfg cmd url s = (Ret tt, Dst (d_peers s) (d_reply s) (d_sent s ++ l) (d_world s)).
Proof.
  unfold send_message, try_M, lift, mbind, M_bind. pose proof (message_send_defined [cmd; url]) as Hd.
  destruct (message_send _ _ _ _) as [d|e|]; [destruct (sendto_ok d)| |done]; cbn.
  - exists [d]. split; [cbn; lia|done].
  - exists []. split; [cbn; lia|]. rewrite app_nil_r. by destruct s.
  - exists []. split; [cbn; lia|]. rewrite app_nil_r. by destruct s.
Qed.

(** Refreshing, by cases. *)
Lemma refresh_cases req s : knows_self U s ->
  exists p, lookup (urlstem req) (d_peers s) = Ret p
    /\ uuid_to_peer (d_peers s) !! p_uuid p = Some p
    /\ (no_peer_cache req = true \/ p = self_peer cfg -> refr req s = call_backend be_refresh BeUpstream req s)
    /\ (no_peer_cache req = false -> p <> self_peer cfg ->
         p_be p <> BeUpstream /\ p_url p <> server_url cfg /\
         let r := call_backend be_refresh (p_be p) (with_urlstem (lit "/p" ++ PEER_VERSION ++ urlstem req) req) s in
         match r.1 with
         | Throw _ => exists l, (length l <= 1)%nat
             /\ refr req s = call_backend be_refresh BeUpstream req
                  (Dst (remove_url (p_url p) (d_peers s)) (d_reply r.2) (d_sent s ++ l) (d_world r.2))
         | _ => refr req s = r
         end).
Proof.
  intros (H1 & H2 & H3). destruct (lookup_total U _ (urlstem req) _ _ H1 H2) as [p Hp].
  pose proof (lookup_known U _ _ _ H1 Hp) as Hk. exists p. split; [done|]. split; [done|]. split.
  - intros Hor. unfold refresh. destruct (no_peer_cache req); [done|].
    destruct Hor as [|Ep]; [done|]. rewrite (M_bind_Ret get _ s s s) by done.
    rewrite (lift_bind _ _ _ _ Hp). by rewrite Ep.
  - intros Hn Hne.
    assert (p_be p <> BeUpstream) as Hbe by (intros E; apply Hne; by apply (H3 (p_uuid p))).
    split; [done|]. split.
    { intros Eurl. assert (url_to_uuid (d_peers s) !! server_url cfg = Some (p_uuid p)) as Ea
        by (apply (po_url U _ H1); by exists p).
      assert (url_to_uuid (d_peers s) !! server_url cfg = Some (server_uuid cfg)) as Eb
        by (apply (po_url U _ H1); by exists (self_peer cfg)).
      rewrite Ea in Eb. injection Eb as Eb. rewrite Eb, H2 in Hk. injection Hk as <-. done. }
    cbv zeta. unfold refresh. rewrite Hn. rewrite (M_bind_Ret get _ s s s) by done.
    rewrite (lift_bind _ _ _ _ Hp). rewrite bool_decide_eq_false_2 by done. unfold try_M.
    pose proof (call_backend_peers (p_be p) (with_urlstem (lit "/p" ++ PEER_VERSION ++ urlstem req) req) s) as Hpe.
    assert (d_sent (call_backend be_refresh (p_be p) (with_urlstem (lit "/p" ++ PEER_VERSION ++ urlstem req) req) s).2
            = d_sent s) as Hse.
    { unfold call_backend. by destruct (be_refresh _ _ _ _) as [[o r] w]. }
    destruct (call_backend _ _ _ s) as [[b|e|] s1]; cbn [fst snd] in *; [done| |done].
    destruct (send_message_ends (lit "D") (p_url p) s1) as (l & Hl & El). exists l. split; [done|].
    unfold handle_peer_error, send_discourage_peer.
    rewrite (M_bind_Ret _ _ s1 tt (Dst (remove_url (p_url p) (d_peers s1)) (d_reply s1) (d_sent s1 ++ l) (d_world s1))).
    + by rewrite Hpe, Hse.
    + by rewrite (M_bind_Ret _ _ _ _ _ El).
Qed.

Lemma refresh_knows_self req s : knows_self U s -> knows_self U (refr req s).2.
Proof.
  intros Hs. destruct (refresh_cases req s Hs) as (p & _ & _ & Ha & Hb).
  destruct (decide (no_peer_cache req = true \/ p = self_peer cfg)) as [Hor|Hor].
  { rewrite (Ha Hor). eapply knows_self_peers; [apply call_backend_peers|done]. }
  destruct Hb as (Hbe & Hurl & Hb); [destruct (no_peer_cache req); [by destruct Hor; left|done]|by intros E; apply Hor; right|].
  cbv zeta in Hb. destruct (call_backend _ _ _ s).1 as [b|e|] eqn:E.
  - rewrite Hb. eapply knows_self_peers; [apply call_backend_peers|done].
  - destruct Hb as (l & _ & ->). eapply knows_self_peers; [apply call_backend_peers|].
    eapply knows_self_peers; [|by apply (remove_knows_self (p_url p) (d_peers s) s)]. done.
  - rewrite Hb. eapply knows_self_peers; [apply call_backend_peers|done].
Qed.

Lemma present_knows_self url s : knows_self U s -> knows_self U (handle_present be_refresh cfg url s).2.
Proof.
  intros Hs. unfold handle_present. rewrite (M_bind_Ret get _ s s s) by done.
  destruct (check_url url (d_peers s)) eqn:Ec; [done|].
  destruct (add_sigil_version (dc_req cfg) url) as [base|e|]; [|done..]. cbv zeta.
  destruct (be_refresh (BeHttp base) _ reply_default (d_world s)) as [[o rep] w] eqn:Er.
  rewrite (M_bind_Ret (put _) _ s tt (Dst (d_peers s) (d_reply s) (d_sent s) w)) by done.
  assert (knows_self U (Dst (d_peers s) (d_reply s) (d_sent s) w)) as Hs' by by eapply knows_self_peers.
  destruct o as [b|e|]; [|done..]. destruct (Hhonest _ _ _ _ _ Er) as [Hin Hne].
  by apply (insert_knows_self _ url base rep Hs').
Qed.

Lemma dstep_knows_self s s' : dstep s s' -> knows_self U s -> knows_self U s'.
Proof.
  intros [s0 req r w|s0 now r|s0 url] Hs.
  - apply refresh_knows_self. by eapply knows_self_peers.
  - unfold udp_round, try_M, lift, mbind, M_bind.
    destruct (message_recv _ _ _ _ _) as [[[|cmd [|url [|]]]|]|e|]; try done.
    destruct (negb (zlen cmd =? 1)); [done|].
    pose proof (present_knows_self url s0 Hs) as Hp.
    assert (knows_self U (handle_absent cfg url s0).2) as Ha.
    { unfold handle_absent. case_bool_decide; [done|]. by apply remove_knows_self. }
    case_bool_decide; [by destruct (handle_present be_refresh cfg url s0) as [[]]|].
    case_bool_decide; [by destruct (handle_absent cfg url s0) as [[]]|]. by case_bool_decide.
  - destruct (send_message_ends (lit "P") url s0) as (l & _ & ->). by eapply knows_self_peers.
Qed.

Lemma reachable_knows_self r w s : reachable r w s -> knows_self U s.
Proof.
  intros Hr. unfold reachable in Hr. pose proof (ctor_knows_self r w) as H0.
  induction Hr as [|s0 s1 s2 Hstep _ IH]; [done|]. apply IH. by eapply dstep_knows_self.
Qed.
End Reach.

(** C32.  A failing peer costs no request.  In every state that requests,
    datagrams, failures and announcements lead to, provided that what a peer's
    url answers to the question for its uuid is a uuid of the set [U] and never
    this backend's own (nothing checks it: [PeerServer.imposter] is a backend
    that such an answer takes off its own ring), that this backend's uuid is in [U], that
    no two uuids of [U] have a place on the ring in common, and that looking up
    a secret, with a secret manager, returns or throws: the backend stays on its
    own ring and a lookup always finds a known peer.  A request that must not go to peers, or whose url is the backend's own, goes to
    the upstream unchanged.  Any other goes to the peer; what the peer
    returns is returned; and when the peer throws, that peer is taken off the
    ring, at most one datagram is sent about it, and the request goes to the
    upstream after all, whose result, good or bad, is the result, starting
    from the reply as the peer left it. *)
Theorem refresh_falls_back {A : Auth} {W : Type} be_refresh now_millis sendto_ok cfg U r0 w0 (s : dst W) req :
  no_collisions U -> server_uuid cfg ∈ U -> honest_uuids be_refresh cfg U ->
  (forall sm, secret_mgr cfg = Some sm ->
     multicast_sid sm <> Undef /\ forall sid, multicast_key sm sid <> Undef) ->
  reachable be_refresh now_millis sendto_ok cfg r0 w0 s ->
  let result := refresh be_refresh now_millis sendto_ok cfg req s in
  exists p, lookup (urlstem req) (d_peers s) = Ret p
    /\ uuid_to_peer (d_peers s) !! p_uuid p = Some p
    /\ (no_peer_cache req = true \/ p = self_peer cfg -> result = call_backend be_refresh BeUpstream req s)
    /\ (no_peer_cache req = false -> p <> self_peer cfg ->
         p_be p <> BeUpstream /\ p_url p <> server_url cfg /\
         let r := call_backend be_refresh (p_be p) (with_urlstem (lit "/p" ++ PEER_VERSION ++ urlstem req) req) s in
         match r.1 with
         | Throw _ => exists l, (length l <= 1)%nat
             /\ result = call_backend be_refresh BeUpstream req
                  (Dst (remove_url (p_url p) (d_peers s)) (d_reply r.2) (d_sent s ++ l) (d_world r.2))
         | _ => result = r
         end).
Proof.
  intros HU Hself Hh Hsec Hr. cbv zeta.
  apply (refresh_cases be_refresh now_millis sendto_ok cfg U Hsec req s).
  by apply (reachable_knows_self be_refresh now_millis sendto_ok cfg U HU Hself Hh Hsec r0 w0 s).
Qed.

(** A backend with one peer, which fails. *)
Definition dcfg_ex : dcb_config :=
  DcbConfig (lit "/data") (p_url peer_a) uuid_a (Some secrets_ex) 10 (ReqConfig 0 3 0 0).
Definition fetched_ex (c : bytes) : reply123 :=
  Reply MAGIC 0 2000 7 1000 500 0 (-1) CNO_MISSING 0 (content_hexdigest c) c.
Definition be_ex : be_id -> req123 -> reply123 -> unit -> (outcome bool * reply123) * unit :=
  fun b req r w =>
    match b with
    | BeUpstream => (Ret true, fetched_ex (lit "file"), w)
    | BeHttp _ => if prefixb (lit "/p/1/p/uuid") (urlstem req) then (Ret true, fetched_ex uuid_b, w)
                  else (Throw (EHttp 500), r, w)
    end.
Definition two_ex : dst unit :=
  (udp_round be_ex dcfg_ex 1002000 (Datagram datagram_ex) (dcb_ctor dcfg_ex reply_default tt)).2.

Lemma refresh_falls_back_witness :
  let req := Req (lit "/a/x") 0 0 false None false in
  let result := refresh be_ex 5 (fun _ => true) dcfg_ex req two_ex in
  exists p, lookup (urlstem req) (d_peers two_ex) = Ret p
    /\ uuid_to_peer (d_peers two_ex) !! p_uuid p = Some p
    /\ (no_peer_cache req = true \/ p = self_peer dcfg_ex -> result = call_backend be_ex BeUpstream req two_ex)
    /\ (no_peer_cache req = false -> p <> self_peer dcfg_ex ->
         p_be p <> BeUpstream /\ p_url p <> server_url dcfg_ex /\
         let r := call_backend be_ex (p_be p) (with_urlstem (lit "/p" ++ PEER_VERSION ++ urlstem req) req) two_ex in
         match r.1 with
         | Throw _ => exists l, (length l <= 1)%nat
             /\ result = call_backend be_ex BeUpstream req
                  (Dst (remove_url (p_url p) (d_peers two_ex)) (d_reply r.2) (d_sent two_ex ++ l) (d_world r.2))
         | _ => result = r
         end).
Proof.
  apply (refresh_falls_back be_ex 5 (fun _ => true) dcfg_ex [uuid_a; uuid_b] reply_default tt two_ex).
  - exact no_collisions_ex.
  - apply (bool_decide_unpack _). vm_compute. exact I.
  - intros base w b rep w' E. unfold be_ex in E. destruct (prefixb _ _); [|discriminate].
    injection E as _ <- _. split; [apply (bool_decide_unpack _); vm_compute; exact I|discriminate].
  - intros sm [= <-]. split; [discriminate|]. intros sid. unfold secrets_ex. cbn. by case_bool_decide.
  - eapply rtc_l; [|apply rtc_refl]. apply Step_udp.
Defined.

Example failing_peer :
  let r := refresh be_ex 5 (fun _ => true) dcfg_ex (Req (lit "/a/x") 0 0 false None false) two_ex in
  r.1 = Ret true /\ content (d_reply r.2) = lit "file" /\ length (d_sent r.2) = 1%nat
  /\ lookup (lit "/a/x") (d_peers r.2) = Ret peer_a.
Proof. split_and!; vm_compute; reflexivity. Qed.
