(* ===== verification/PeerServer.v ===== *)
(** * Serving peers (exe/fs123p7/distrib_cache_backend.cpp)

    [peer_handler_t]: the handler of the server a distributed cache runs for
    its peers.  Only the pass-through function /p does anything: it strips its
    own version off the url, asks the server backend, and turns the [reply123]
    into an HTTP reply.

    The server backend is a parameter.  Theorems: a peer's request reaches it
    with the url the peer's own client asked for; what it returns arrives in the
    other peer's reply; every request is answered once; and examples of how
    a damaged reply gets past its checksum and of what a peer does that
    answers with our own uuid. *)

From Stdlib Require Import Ascii String ZArith Lia.
From stdpp Require Import base gmap strings list numbers.
From S2P Require Import Prelude.
From S2P Require Import ScanInt.
From S2P Require Import StrUtils.
From S2P Require Import Threeroe.
From S2P Require Import SvTo.
From S2P Require Import Netstring.
From S2P Require Import UcharSpan.
From S2P Require Import ContentCodec.
From S2P Require Import Expiring.
From S2P Require Import Backend.
From S2P Require Import ServerParse.
From S2P Require Import Envelope.
From S2P Require Import ServerReply.
From S2P Require Import BackendHttp.
From S2P Require Import HttpRefresh.
From S2P Require Import DistribCache.

#[local] Open Scope Z_scope.

(** ** Definitions *)

Definition ns_per_sec : Z := 1000000000.

(** [cache_control]: [duration_cast] truncates. *)
Definition cache_control (r : reply123) : outcome bytes :=
  ma ← reply_max_age r;
  Ret (lit "max-age=" ++ to_string (Z.quot ma ns_per_sec)
       ++ lit ",stale_while_revalidate=" ++ to_string (Z.quot (stale_while_revalidate r) ns_per_sec)).

(** The url of a /p request, without the /p. *)
Definition versioned_url (p : parsed) : bytes :=
  urlescape (path_info p) ++ match query p with Some q => lit "?" ++ q | None => [] end.

(** The request for the server backend, and the reply it starts from: valid
    when there is a tag to ask about. *)
Definition peer_request (g : req_config) (p : parsed) : req123 :=
  let r := req_ctor g (zdrop (zlen PEER_VERSION) (versioned_url p)) in
  Req (urlstem r) (stale_if_error r) (past_stale_while_revalidate r) (no_cache r) (max_stale r) true.
Definition peer_reply0 (etag : Z) : reply123 :=
  if etag =? 0 then reply_default
  else Reply MAGIC 0 0 etag 0 0 0 (-1) CNO_MISSING 0 (content_hexdigest []) [].

Section Peer.
Context `{SB : Secretbox}.
Context (add_header_ok : bytes -> bytes -> bool) (what : exn -> bytes) (random : bytes).
Context (svr : server) (method : method_e) (g : req_config) (own_uuid : bytes).
Context (server_refresh : req123 -> reply123 -> outcome (bool * reply123)).

#[local] Abbreviation add := (add_header add_header_ok).
#[local] Abbreviation reply_p := (fun p => p_reply add_header_ok what random svr method p).

(** The headers that the older protocol needs. *)
Definition old_headers (p : parsed) (r : reply123) : M rst unit :=
  if rq_minor p <? 3 then
    add p HHCOOKIE (to_string (estale_cookie72 r));;
    add p HHERRNO (to_string (eno72 r));;
    (if chunk_next_meta72 r =? CNO_MISSING then mret tt
     else add p HHNO (to_string (chunk_next_offset72 r)
                      ++ if chunk_next_meta72 r =? CNO_EOF then lit " EOF" else []))
  else mret tt.

Definition encoding_header (p : parsed) (r : reply123) : M rst unit :=
  if content_encoding r =? CE_IDENT then mret tt
  else if content_encoding r =? CE_FS123_SECRETBOX
  then add p (lit "Content-encoding") (lit "fs123-secretbox")
  else if content_encoding r =? CE_UNKNOWN then raise (EHttp 500) else mret tt.

Definition peer_p_try (p : parsed) (etag : Z) : M rst unit :=
  if negb (prefixb PEER_VERSION (urlescape (path_info p))) then exception_reply what (EHttp 400) else
  let myreq := peer_request g p in
  if prefixb (lit "/p") (urlstem myreq) then
    if bool_decide (urlstem myreq = lit "/p/uuid") then
      add p HHERRNO (lit "0");;
      reply_p p own_uuid 0 (lit "max-age=86400")
    else exception_reply what (EHttp 404)
  else
  '(modified, r) ← lift (server_refresh myreq (peer_reply0 etag));
  cc ← lift (cache_control r);
  if negb modified then not_modified_reply add_header_ok what p cc else
  old_headers p r;;
  encoding_header p r;;
  add p HHTRSUM (content_threeroe r);;
  reply_p p (content r) (etag64 r) cc.

(** The function's own catch clause. *)
Definition peer_p (p : parsed) (etag : Z) : M rst unit :=
  try_M (peer_p_try p etag) (fun e => exception_reply what (ENested (EHttp 500) e)).

(** Every other function is unknown to a peer. *)
Definition peer_handler (p : parsed) (c : hcall) : M rst unit :=
  match c with Call_p etag => peer_p p etag | _ => exception_reply what (EHttp 404) end.

Definition peer_cb (fails : bool) (h : http_req) : outcome unit * rst :=
  match parse_and_dispatch svr h with
  | Ret (p, (c, b, _)) =>
      match peer_handler p c (rst_init fails (kvpairs p) b) with
      | (Undef, s') => (Undef, s')
      | (_, s') => req_dtor what s'
      end
  | Throw e => internal_exception what e (rst_init fails [] None)
  | Undef => (Undef, rst_init fails [] None)
  end.
End Peer.

(** ** The url a peer asks for *)

(** The uri of a peer's request for the url [/fn/escaped-name?query]. *)
Definition peer_stem (fn name : bytes) (q : option bytes) : bytes :=
  lit "/" ++ fn ++ urlescape name ++ opt_after "?" q.

Lemma prefixb_app_plain a b : prefixb a (a ++ b) = true.
Proof. apply bool_decide_eq_true_2. by exists b. Qed.

Lemma parse_peer_request `{SB : Secretbox} svr h g sel base e fn name q :
  served svr h g sel base [] e -> the_secret_manager svr = None ->
  Forall (fun c => url_plain c = true) fn -> nul_free name ->
  hr_uri h = base ++ lit "/p" ++ PEER_VERSION ++ peer_stem fn name q ->
  exists p, parse_request svr h = Ret (p, e) /\ rq_minor p = proto_minor g
    /\ function p = lit "p" /\ path_info p = PEER_VERSION ++ lit "/" ++ fn ++ name /\ query p = q.
Proof.
  intros Hsv Hno Hfn Hnul Hu. pose proof Hsv as [].
  set (pi := PEER_VERSION ++ lit "/" ++ fn ++ name).
  assert (urlescape pi = PEER_VERSION ++ lit "/" ++ fn ++ urlescape name) as Epi.
  { unfold pi. rewrite !urlescape_app, (urlescape_plain fn) by done. done. }
  assert (urlescape (base ++ "/"%char :: lit "p" ++ pi) = base ++ lit "/p" ++ urlescape pi) as E.
  { rewrite urlescape_app, (urlescape_plain base) by by eapply base_plain.
    by rewrite urlescape_cons, urlescape_app. }
  destruct sv_split as (pth & Hp & Hq & Es).
  assert (pth = urlescape (base ++ "/"%char :: lit "p" ++ pi) /\ hr_query h = q) as [-> Hqq].
  { apply (split_unique "?"); [done|by apply not_in_escaped|]. rewrite <- Es, Hu, E, Epi.
    unfold peer_stem. assoc. }
  assert (zlen base + 2 + zlen pi < npos) as Hlen.
  { rewrite Hu in sv_len. unfold peer_stem in sv_len. rewrite !zlen_app in sv_len.
    unfold pi. rewrite !zlen_app. change (zlen (lit "/p")) with 2 in sv_len.
    pose proof (zlen_urlescape name). pose proof (zlen_nonneg (opt_after "?" q)). lia. }
  pose proof (zlen_nonneg base). pose proof (zlen_nonneg pi).
  assert (zlen sel < npos) as Hsel.
  { rewrite (add_sigil_version_Ret g sel base sv_base sv_minor), zlen_app in Hlen.
    pose proof (zlen_nonneg (SIGIL ++ to_string (proto_minor g))). lia. }
  assert (parse_path svr h = Ret (Parsed
      match hr_accept_encoding h with Some s => encoding_stoi s | None => CE_IDENT end
      (proto_minor g) (base ++ ["/"%char]) (lit "p") pi None [] [] [])) as Epath.
  { unfold parse_path. rewrite Hp. cbn -[parse_upath may_use_secrets lit urlescape].
    rewrite sv_decode. cbn -[parse_upath may_use_secrets lit]. rewrite c_str_id.
    - rewrite (parse_upath_of g sel); [|done|done|done|by apply (bool_decide_unpack _); vm_compute; exact I|done| |].
      + cbn -[lit]. unfold may_use_secrets. by rewrite Hno.
      + right. by exists (lit "1" ++ lit "/" ++ fn ++ name).
      + change (lit "p") with ["p"%char]. zlia.
    - unfold pi. rewrite not_elem_of_app, not_elem_of_cons, !not_elem_of_app.
      split_and!; try (apply (bool_decide_unpack _); vm_compute; exact I).
      + by eapply not_in_plain, base_plain.
      + by eapply not_in_plain.
      + done. }
  unfold parse_request. rewrite Epath. cbn -[open_envelope check_request parse_inm lit].
  unfold open_envelope. cbn [function]. rewrite decide_False by done.
  unfold may_use_secrets. rewrite Hno. cbn [andb accept_encoding rq_minor prefix path_info envelope_sid inm kvpairs mbind outcome_bind].
  unfold check_request. cbn [function]. rewrite decide_True by done. cbn [mbind outcome_bind].
  match goal with |- context [parse_inm svr h ?p] =>
    destruct (inm_header_parse svr h g sel base [] e p Hsv) as (p' & E' & ? & ? & ? & ?) end.
  exists p'. rewrite E'. cbn [mbind outcome_bind] in *. split_and!; try done. by rewrite <- Hqq.
Qed.

(** The url survives the trip to a peer.  When a distributed cache
    sends "/p/1" and the url of its own request over HTTP to a peer (with the
    tag of the reply it has, if any), the peer's handler is called with that
    tag and asks its server backend for the very url of the request, with
    peers excluded so that it goes no further: the handler escapes the decoded
    path again, and escaping, decoding and escaping give the same text. *)
Theorem peer_stem_roundtrip `{SB : Secretbox} svr h g sel base e fn name q req :
  served svr h g sel base [] e -> the_secret_manager svr = None ->
  Forall (fun c => url_plain c = true) fn -> nul_free name ->
  urlstem req = peer_stem fn name q ->
  hr_uri h = base ++ urlstem (with_urlstem (lit "/p" ++ PEER_VERSION ++ urlstem req) req) ->
  exists p, parse_and_dispatch svr h = Ret (p, (Call_p e, None, 0))
    /\ rq_minor p = proto_minor g
    /\ prefixb PEER_VERSION (urlescape (path_info p)) = true
    /\ urlstem (peer_request g p) = urlstem req /\ no_peer_cache (peer_request g p) = true
    /\ etag64 (peer_reply0 e) = e /\ (e <> 0 -> valid (peer_reply0 e) = true).
Proof.
  intros Hsv Hno Hfn Hnul Hstem Hu. cbn [with_urlstem urlstem] in Hu. rewrite Hstem in Hu.
  destruct (parse_peer_request svr h g sel base e fn name q Hsv Hno Hfn Hnul Hu)
    as (p & Ep & Em & Ef & Epi & Eq).
  exists p. unfold parse_and_dispatch. rewrite Ep. cbn [mbind outcome_bind]. split.
  { unfold dispatch. rewrite Ef. do 7 (rewrite decide_False by done). by rewrite decide_True. }
  assert (urlescape (path_info p) = PEER_VERSION ++ lit "/" ++ fn ++ urlescape name) as Ev.
  { rewrite Epi, !urlescape_app, (urlescape_plain fn) by done. done. }
  split_and!; [done|rewrite Ev; apply prefixb_app_plain| |done| |].
  - unfold peer_request. cbn [urlstem req_ctor]. unfold versioned_url. rewrite Ev, Eq, <- app_assoc.
    rewrite zdrop_app by done. rewrite Hstem. unfold peer_stem. destruct q; cbn [opt_after]; assoc.
  - unfold peer_reply0. destruct (e =? 0) eqn:E; [by apply Z.eqb_eq in E as ->|done].
  - intros He. unfold peer_reply0. by rewrite (proj2 (Z.eqb_neq _ _)) by done.
Qed.

(** A conditional request of one peer to another. *)
Definition peer_h_ex : http_req := get_ex (lit "/fs123/7/3/p/1/f/a%20file") (Some (lit "128;5")).

Lemma peer_served_ex : served svr_ex peer_h_ex g_ex [] (lit "/fs123/7/3") [] 77.
Proof.
  split; try done.
  - by right.
  - apply decode_ex_ok.
  - eexists. split; [reflexivity|]. split; [apply (bool_decide_unpack _); vm_compute; exact I|reflexivity].
  - by left.
  - left. split; [lia|]. vm_compute. discriminate.
Qed.

Lemma peer_stem_roundtrip_witness :
  exists p, parse_and_dispatch (H := toy_box) svr_ex peer_h_ex = Ret (p, (Call_p 77, None, 0))
    /\ rq_minor p = 3 /\ prefixb PEER_VERSION (urlescape (path_info p)) = true
    /\ urlstem (peer_request g_ex p) = lit "/f/a%20file?128;5" /\ no_peer_cache (peer_request g_ex p) = true
    /\ etag64 (peer_reply0 77) = 77 /\ (77 <> 0 -> valid (peer_reply0 77) = true).
Proof.
  apply (peer_stem_roundtrip (SB := toy_box) svr_ex peer_h_ex g_ex [] (lit "/fs123/7/3") 77 (lit "f") (lit "/a file")
    (Some (lit "128;5")) (Req (lit "/f/a%20file?128;5") 0 0 false None false)).
  - exact peer_served_ex.
  - reflexivity.
  - repeat constructor.
  - apply (bool_decide_unpack _). vm_compute. exact I.
  - vm_compute. reflexivity.
  - vm_compute. reflexivity.
Defined.

(** ** The reply *)

(** A number as it is printed. *)
Lemma to_string_chars n : Forall (fun c => is_digit c \/ c = "-"%char) (to_string n).
Proof.
  unfold to_string. destruct (n <? 0) eqn:E.
  - constructor; [by right|]. eapply Forall_impl; [|apply to_string_u_digits; lia]. intros c; by left.
  - eapply Forall_impl; [|apply to_string_u_digits; lia]. intros c; by left.
Qed.

Lemma number_char c : is_digit c \/ c = "-"%char -> (c ∉ lit ", ") /\ isspace c = false.
Proof.
  intros H. assert (zc c = 45 \/ 48 <= zc c <= 57) as Hz by (destruct H as [H| ->]; [by right|by left]).
  split.
  - cbn. rewrite !elem_of_cons, elem_of_nil. intros [->|[->|[]]]; revert Hz; vm_compute; intuition discriminate.
  - unfold isspace. lia.
Qed.

Lemma words_comma w l : Forall (fun c => c ∉ lit ", ") w -> words (w ++ ","%char :: l) = w :: words l.
Proof.
  intros Hw. rewrite words_span, span_not_app by done. cbn [span_not].
  rewrite bool_decide_eq_true_2 by (apply elem_of_cons; by left). cbn. by rewrite app_nil_r.
Qed.
Lemma words_one w : Forall (fun c => c ∉ lit ", ") w -> words w = [w].
Proof.
  intros Hw. rewrite words_span. rewrite <- (app_nil_r w), span_not_app by done. cbn. by rewrite app_nil_r.
Qed.

(** What a client reads off [cache_control]: the max-age, and no
    stale-while-revalidate, for the directive is written with underscores and
    looked for with hyphens. *)
Lemma cache_control_says r cc : cache_control r = Ret cc ->
  exists ma, reply_max_age r = Ret ma
    /\ says cc (lit "max-age=") (Z.quot ma ns_per_sec) /\ says cc (lit "stale-while-revalidate=") 0
    /\ trimmed cc.
Proof.
  unfold cache_control. intros H. apply bind_Ret in H as (ma & Hma & H). apply Ret_inj in H as <-.
  exists ma. split; [done|].
  set (a := to_string (Z.quot ma ns_per_sec)). set (b := to_string (Z.quot (stale_while_revalidate r) ns_per_sec)).
  assert (Forall (fun c => (c ∉ lit ", ") /\ isspace c = false) a) as Ha
    by (eapply Forall_impl; [|apply to_string_chars]; intros c; apply number_char).
  assert (Forall (fun c => (c ∉ lit ", ") /\ isspace c = false) b) as Hb
    by (eapply Forall_impl; [|apply to_string_chars]; intros c; apply number_char).
  assert (Forall (fun c => c ∉ lit ", ") (lit "max-age=" ++ a)) as H1.
  { apply Forall_app. split; [apply (bool_decide_unpack _); vm_compute; exact I|].
    eapply Forall_impl; [|exact Ha]. by intros c [? _]. }
  assert (Forall (fun c => c ∉ lit ", ") (lit "stale_while_revalidate=" ++ b)) as H2.
  { apply Forall_app. split; [apply (bool_decide_unpack _); vm_compute; exact I|].
    eapply Forall_impl; [|exact Hb]. by intros c [? _]. }
  set (cc := lit "max-age=" ++ a ++ lit ",stale_while_revalidate=" ++ b).
  assert (words cc = [lit "max-age=" ++ a; lit "stale_while_revalidate=" ++ b]) as Hw.
  { replace cc with ((lit "max-age=" ++ a) ++ ","%char :: (lit "stale_while_revalidate=" ++ b)) by (unfold cc; assoc).
    by rewrite words_comma, words_one. }
  assert (Forall (fun c => isspace c = false) cc) as Hsp.
  { unfold cc. rewrite !Forall_app. split_and!; try (by repeat constructor);
      (eapply Forall_impl; [|eassumption]; by intros c [_ ?]). }
  assert (Forall (fun c => isspace c = true -> c = " "%char) cc) as Hsp'
    by (eapply Forall_impl; [|exact Hsp]; congruence).
  split_and!.
  - split; [done|]. left. rewrite Hw. cbn [first_value]. rewrite prefixb_app_plain. by apply zdrop_app.
  - split; [done|]. right. split; [|done]. rewrite Hw. reflexivity.
  - apply trimmed_clean. eapply Forall_impl; [|exact Hsp]. intros c Hc Hin. unfold OWS in Hin.
    rewrite !elem_of_cons, elem_of_nil in Hin. by destruct Hin as [->|[->|[]]].
Qed.

(** A reply buffer holding a text. *)
Lemma copy_shows x s : buf s = None -> zlen x <= max_reply_size ->
  exists s', copy_to_pbuf x s = (Ret tt, s') /\ shows s' x 1324 34 /\ same_reply s s'.
Proof.
  intros Hb Hx. pose proof (zlen_nonneg x). unfold copy_to_pbuf.
  pose proof (allocate_pbuf_ok (zlen x) ltac:(lia)) as Ea.
  set (b := Span 0 (blob_size (zlen x)) (secretbox_leadersz + fs123_max_headersz) 0) in *.
  set (s1 := set_buf (replicate (Z.to_nat (blob_size (zlen x))) zero) (Some b) s).
  rewrite (M_bind_Ret _ _ s tt s1) by (unfold alloc; by rewrite Hb, Ea).
  assert (blob_size (zlen x) = 1324 + zlen x + 34) as Eb
    by (unfold blob_size, secretbox_padding, final_netstring_bytes;
        change secretbox_leadersz with 300; change fs123_max_headersz with 1024; lia).
  unfold max_reply_size in *.
  assert (shows s1 [] 1324 (zlen x + 34)) as Hs1.
  { exists b. split; [done|]. unfold span_wf, in_bb, contents, avail_front, avail_back, avail_front. cbn [bb_off bb_len s_off s_len b s1 blob set_buf].
    change (secretbox_leadersz + fs123_max_headersz) with 1324. rewrite Eb.
    rewrite zlen_replicate. split_and!; try lia.
    - unfold ztake. rewrite Z.min_l by apply zlen_nonneg. done.
    - done.
    - rewrite wrap_small; lia. }
  destruct (buf_append_shows s1 [] 1324 (zlen x + 34) x Hs1) as (s' & E & Hs' & Hr); [lia|lia|].
  exists s'. split; [done|]. cbn [app] in Hs'. replace (zlen x + 34 - zlen x) with 34 in Hs' by lia.
  split; [done|]. transitivity s1; [done|exact Hr].
Qed.

(** The headers the handler adds for protocol 7.3. *)
Definition peer_headers (r : reply123) : headers :=
  (if content_encoding r =? CE_IDENT then [] else [(lit "Content-encoding", lit "fs123-secretbox")])
  ++ [(HHTRSUM, content_threeroe r)].

(** A reply a server backend gives: its digest is its content's, and it is plain
    or encrypted. *)
Record peer_sendable (r : reply123) : Prop := {
  ps_digest : content_threeroe r = content_hexdigest (content r);
  ps_encoding : content_encoding r = CE_IDENT \/ content_encoding r = CE_FS123_SECRETBOX;
  ps_size : zlen (content r) <= max_reply_size;
  ps_etag : 0 <= etag64 r < 2 ^ 64
}.

Section Arrives.
Context `{SB : Secretbox}.
Context (what : exn -> bytes) (random : bytes) (svr : server) (g : req_config) (own_uuid : bytes).
Context (server_refresh : req123 -> reply123 -> outcome (bool * reply123)).

#[local] Abbreviation ok := (fun _ _ : bytes => true).

Lemma p_reply_sends p cc etag body s :
  function p = lit "p" -> unanswered s -> buf s = None -> outbuf s = [] -> zlen body <= max_reply_size ->
  exists s', p_reply ok what random svr GET p body etag cc s = (Ret tt, s') /\ answered s'
    /\ sent s' = [Response 200 (plaintext_headers GET (ohdrs s) cc body etag) body].
Proof.
  intros Hf Hun Hb Ho Hsz. destruct (copy_shows body s Hb Hsz) as (s1 & E1 & Hs1 & Hr).
  pose proof Hr as (_ & Hh & Hout & Hrep & Hse & Hsg & Hsf).
  assert (unanswered s1) as Hun1 by (unfold unanswered, unanswered_in in *; by rewrite Hrep, Hse, Hsg, Hsf).
  destruct (encrypt_plain random svr GET p s1 body 1324 34 cc etag) as (s2 & E2 & Hs2);
    [unfold may_use_secrets; rewrite Hf; by destruct (the_secret_manager svr)|done|done|by rewrite Hout|].
  pose proof (encrypt_answers ok random svr GET p cc etag false s1 Hun1) as [_ Ha].
  rewrite E2 in Ha. exists s2. cbn in Ha. split; [|split; [done|]].
  - unfold p_reply, or_exception, try_M. rewrite (M_bind_Ret _ _ s tt s)
      by (unfold check_function; by rewrite decide_True).
    rewrite (M_bind_Ret _ _ _ _ _ E1). by rewrite E2.
  - rewrite Hs2, Hh. cbn. done.
Qed.

Definition add_out (n v : bytes) (s : rst) : rst := set_out (ohdrs s ++ [(n, v)]) (outbuf s) s.

Lemma add_header_ok_ex p n v s : function p = lit "p" ->
  add_header ok p n v s = (Ret tt, add_out n v s).
Proof.
  intros Hf. unfold add_header. rewrite (M_bind_Ret _ _ s tt s) by (unfold check_function; by rewrite decide_True).
  done.
Qed.

Lemma encoding_Ret r p s : peer_sendable r -> function p = lit "p" ->
  encoding_header ok p r s
  = (Ret tt, if content_encoding r =? CE_IDENT then s else add_out (lit "Content-encoding") (lit "fs123-secretbox") s).
Proof.
  intros Hr Hf. unfold encoding_header. destruct (ps_encoding r Hr) as [E|E]; rewrite E.
  - done.
  - change (CE_FS123_SECRETBOX =? CE_IDENT) with false. rewrite Z.eqb_refl. by apply add_header_ok_ex.
Qed.

(** What the handler sends for a reply that was fetched or changed. *)
Lemma peer_p_sends p e r cc kv :
  function p = lit "p" -> 3 <= rq_minor p -> prefixb PEER_VERSION (urlescape (path_info p)) = true ->
  prefixb (lit "/p") (urlstem (peer_request g p)) = false ->
  server_refresh (peer_request g p) (peer_reply0 e) = Ret (true, r) -> peer_sendable r ->
  cache_control r = Ret cc ->
  exists s', peer_p ok what random svr GET g own_uuid server_refresh p e (rst0 kv None) = (Ret tt, s')
    /\ answered s'
    /\ sent s' = [Response 200 (plaintext_headers GET (peer_headers r) cc (content r) (etag64 r)) (content r)].
Proof.
  intros Hf Hm Hv Hp Hs Hr Hcc. unfold peer_p, try_M, peer_p_try. rewrite Hv, Hp. cbn [negb]. cbv zeta.
  rewrite (lift_bind _ _ _ _ Hs). cbv beta iota. rewrite (lift_bind _ _ _ _ Hcc). cbn [negb].
  set (s0 := rst0 kv None).
  rewrite (M_bind_Ret (old_headers ok p r) _ s0 tt s0)
    by (unfold old_headers; by rewrite (proj2 (Z.ltb_ge _ _))).
  rewrite (M_bind_Ret _ _ _ _ _ (encoding_Ret r p s0 Hr Hf)).
  set (s1 := if content_encoding r =? CE_IDENT then s0 else _).
  rewrite (M_bind_Ret _ _ _ _ _ (add_header_ok_ex p HHTRSUM (content_threeroe r) s1 Hf)).
  destruct (p_reply_sends p cc (etag64 r) (content r) (add_out HHTRSUM (content_threeroe r) s1))
    as (s' & E & Ha & Hse); [done|by unfold s1; case_match|by unfold s1; case_match|by unfold s1; case_match|apply Hr|].
  exists s'. rewrite E. split; [done|]. split; [done|]. rewrite Hse.
  assert (ohdrs (add_out HHTRSUM (content_threeroe r) s1) = peer_headers r) as ->; [|done].
  unfold s1, peer_headers. by destruct (content_encoding r =? CE_IDENT).
Qed.
End Arrives.

(** The peer's headers as a client keeps them. *)
Section PeerMap.
Context (cc : bytes) (r : reply123) (age : option Z) (Hr : peer_sendable r).
#[local] Abbreviation h := (reply_map (peer_headers r) cc (content r) (etag64 r) age).

Ltac look_peer := unfold peer_headers; rewrite (ps_digest r Hr);
  destruct (ps_encoding r Hr) as [E|E]; rewrite E;
  [change (CE_IDENT =? CE_IDENT) with true|change (CE_FS123_SECRETBOX =? CE_IDENT) with false]; cbn [app];
  look_headers.

Lemma peer_map_cc : h !! lit "cache-control" = Some cc.
Proof. look_peer. Qed.
Lemma peer_map_age : h !! lit "age" = option_map to_string age.
Proof. look_peer. Qed.
Lemma peer_map_etag : h !! lit "etag" = if etag64 r =? 0 then None else Some (etag_mangle (etag64 r) []).
Proof. look_peer. Qed.
Lemma peer_map_trsum : h !! HHTRSUM = Some (content_hexdigest (content r)).
Proof. look_peer. Qed.
Lemma peer_map_encoding : encoding_stoi (default [] (h !! lit "content-encoding")) = content_encoding r.
Proof. look_peer. Qed.
Lemma peer_map_cookie : h !! HHCOOKIE = None.
Proof. look_peer. Qed.

Lemma peer_headers_sendable : Forall sendable (peer_headers r).
Proof.
  unfold peer_headers. rewrite (ps_digest r Hr). apply Forall_app. split.
  - destruct (content_encoding r =? CE_IDENT); [done|]. apply Forall_singleton, sendable_intro; [|apply trimmed_clean| |];
      [split_and!; [discriminate|..]|..]; try (apply (bool_decide_unpack _); vm_compute; exact I); by vm_compute.
  - unfold content_hexdigest. apply Forall_singleton, sendable_intro; [|apply trimmed_clean| |].
    + split_and!; [discriminate|..]; apply (bool_decide_unpack _); vm_compute; exact I.
    + eapply Forall_impl; [|apply hexdigest_chars]. intros c [v ->]. apply hexlownibble_clean.
    + by vm_compute.
    + unfold zlen. by rewrite length_hexdigest.
Qed.
End PeerMap.

Lemma max_age_i64 r m : reply_max_age r = Ret m -> in_type T_i64 (Z.quot m ns_per_sec).
Proof.
  unfold reply_max_age, i64, in_i64, tp_min, tp_max, in_type, ns_per_sec. intros H.
  destruct (_ && _) eqn:E in H; [|done]. apply Ret_inj in H as <-. cbn.
  revert E. generalize (expires r - last_refresh r). intros z E. Z.to_euclidean_division_equations. lia.
Qed.

(** C9.  A peer's reply is the upstream's.  When the server backend of a
    peer fetches a reply, the peer answers once, with status 200, and a client
    whose requests are answered by that response (with an Age header if a
    cache on the way added one, and the body in any pieces) ends with a reply
    that has the content, its digest, its encoding and its tag, and that
    expires as the age and the lifetime of the peer's reply, in whole
    seconds, say.  Its stale-while-revalidate time is 0 whatever the peer's was:
    [cache_control] writes that directive with underscores and the client reads
    it with hyphens. *)
Theorem peer_reply_arrives `{SB : Secretbox} {LC : Libcurl} what random svr g own_uuid server_refresh
    aicache_lookup cfg ck p e r cc kv age pieces max_age r' req s :
  function p = lit "p" -> 3 <= rq_minor p -> prefixb PEER_VERSION (urlescape (path_info p)) = true ->
  prefixb (lit "/p") (urlstem (peer_request g p)) = false ->
  server_refresh (peer_request g p) (peer_reply0 e) = Ret (true, r) -> peer_sendable r ->
  cache_control r = Ret cc -> zlen cc < 2 ^ 61 -> reply_max_age r = Ret max_age ->
  let o := peer_handler (fun _ _ => true) what random svr GET g own_uuid server_refresh p (Call_p e)
             (rst0 kv None) in
  (forall resp, sent o.2 = [resp] -> forall past q, curl_perform past q
     = CurlAnswer (wire_events (rs_headers resp) age pieces) 0 (rs_status resp) 0 None) ->
  mjoin pieces = content r -> 0 <= default 0 age < 2 ^ 63 -> 3 <= hc_minor cfg ->
  reply_ctor73 (ck_reply ck) (content r) (content_encoding r) (default 0 age)
    (Z.quot max_age ns_per_sec) (etag64 r) 0 = Ret r' ->
  no_cache req = true \/ fresh (ck_fresh ck) (h_reply s) = false ->
  disconnected cfg = false -> baseurls cfg <> [] -> zlen (h_deferred s) = zlen (baseurls cfg) ->
  o.1 = Ret tt /\ answered o.2
  /\ exists s', BackendHttp.refresh aicache_lookup cfg ck req s = (Ret true, s') /\ h_reply s' = r'
    /\ content r' = content r /\ content_threeroe r' = content_threeroe r
    /\ etag64 r' = etag64 r /\ content_encoding r' = content_encoding r.
Proof.
  intros Hf Hm Hv Hp Hs Hr Hcc Hl Hma o HLC Hbody Hage Hmin Hctor Hfresh Hdis Hne Hlen.
  destruct (peer_p_sends what random svr g own_uuid server_refresh p e r cc kv)
    as (s1 & E1 & Ha & Hsent); try done.
  assert (o = (Ret tt, s1)) as Eo by exact E1. rewrite Eo in HLC |- *. cbn [fst snd] in HLC |- *.
  split; [done|]. split; [done|]. specialize (HLC _ Hsent). cbn [rs_headers rs_status] in HLC.
  destruct (cache_control_says r cc Hcc) as (ma & Ema & Hsay1 & Hsay2 & Htrim).
  rewrite Hma in Ema. apply Ret_inj in Ema as <-.
  destruct (ctor73_threeroe _ _ _ _ _ _ _ _ Hctor) as (H1 & H2 & H3 & H4 & H5).
  assert (in_type T_i64 (Z.quot max_age ns_per_sec)) as Hty
    by by eapply max_age_i64.
  edestruct (response_arrives aicache_lookup cfg ck (plaintext_headers GET (peer_headers r) cc (content r) (etag64 r))
    cc (default [] (reply_map (peer_headers r) cc (content r) (etag64 r) age !! lit "content-encoding"))
    (content r) (etag64 r) age (Z.quot max_age ns_per_sec) 0 pieces r' req s) as (s' & E & Es).
  - exact HLC.
  - exact Hbody.
  - apply reply_headers_sendable; [by apply peer_headers_sendable|exact Htrim|exact Hl|apply Hr|exact Hage].
  - by apply peer_map_cc.
  - by apply peer_map_age.
  - by apply peer_map_etag.
  - by apply peer_map_trsum.
  - reflexivity.
  - by apply peer_map_cookie.
  - exact Hsay1.
  - exact Hsay2.
  - unfold npos. lia.
  - exact Hty.
  - vm_compute. intuition discriminate.
  - apply Hr.
  - exact Hage.
  - exact Hmin.
  - by rewrite peer_map_encoding.
  - exact Hfresh.
  - exact Hdis.
  - exact Hne.
  - exact Hlen.
  - exists s'. rewrite (ps_digest r Hr). split_and!; try done.
Qed.

(** An encrypted reply, with time left to live, on its way through a peer. *)
Definition peer_p_ex : parsed := Parsed CE_IDENT 3 (lit "/fs123/7/3/") (lit "p") (lit "/1/f/a file") (Some (lit "128;5")) [] [] [].
Definition upstream_ex : reply123 :=
  Reply MAGIC 0 (130 * 10 ^ 9) 78 (100 * 10 ^ 9) (5 * 10 ^ 9) 0 (-1) CNO_MISSING CE_FS123_SECRETBOX
    (content_hexdigest (lit "sealed")) (lit "sealed").
Definition peer_cc_ex : bytes := lit "max-age=30,stale_while_revalidate=5".
Definition peer_out_ex : outcome unit * rst :=
  peer_handler (SB := toy_box) (fun _ _ => true) (fun _ => []) [] svr_ex GET g_ex uuid_b
    (fun _ _ => Ret (true, upstream_ex)) peer_p_ex (Call_p 77) (rst0 [] None).
#[local] Instance peer_curl_ex : Libcurl := fun _ _ =>
  match sent peer_out_ex.2 with
  | [resp] => CurlAnswer (wire_events (rs_headers resp) None [lit "sea"; lit "led"]) 0 (rs_status resp) 0 None
  | _ => CurlAnswer [] 1 0 0 None
  end.
Definition relayed_ex : reply123 :=
  Reply MAGIC 0 (230 * 10 ^ 9) 78 (200 * 10 ^ 9) 0 0 (-1) CNO_MISSING CE_FS123_SECRETBOX
    (content_hexdigest (lit "sealed")) (lit "sealed").

#[local] Strategy expand [peer_out_ex].

Lemma peer_curl_answers resp : sent peer_out_ex.2 = [resp] ->
  forall past q, curl_perform past q
    = CurlAnswer (wire_events (rs_headers resp) None [lit "sea"; lit "led"]) 0 (rs_status resp) 0 None.
Proof. intros E past q. unfold curl_perform, peer_curl_ex. by rewrite E. Qed.

Lemma peer_reply_arrives_witness :
  peer_out_ex.1 = Ret tt /\ answered peer_out_ex.2
  /\ exists s', BackendHttp.refresh (fun _ => [None]) cfg_ex ck_ex req_ex (hst_ex reply_default) = (Ret true, s')
    /\ h_reply s' = relayed_ex
    /\ content relayed_ex = lit "sealed" /\ content_threeroe relayed_ex = content_threeroe upstream_ex
    /\ etag64 relayed_ex = 78 /\ content_encoding relayed_ex = CE_FS123_SECRETBOX.
Proof.
  apply (peer_reply_arrives (SB := toy_box) (fun _ => []) [] svr_ex g_ex uuid_b
    (fun _ _ => Ret (true, upstream_ex)) (fun _ => [None]) cfg_ex ck_ex peer_p_ex 77 upstream_ex peer_cc_ex
    [] None [lit "sea"; lit "led"] (30 * 10 ^ 9) relayed_ex req_ex (hst_ex reply_default)).
  - reflexivity.
  - cbn. lia.
  - vm_compute. reflexivity.
  - vm_compute. reflexivity.
  - reflexivity.
  - split; [vm_compute; reflexivity|by right|vm_compute; discriminate|cbn; lia].
  - vm_compute. reflexivity.
  - vm_compute. reflexivity.
  - vm_compute. reflexivity.
  - exact peer_curl_answers.
  - reflexivity.
  - cbn. lia.
  - cbn. lia.
  - vm_compute. reflexivity.
  - right. reflexivity.
  - reflexivity.
  - discriminate.
  - reflexivity.
Defined.

(** ** Every request is answered *)

Section Once.
Context `{SB : Secretbox}.
Context (add_header_ok : bytes -> bytes -> bool) (what : exn -> bytes) (random : bytes).
Context (svr : server) (method : method_e) (g : req_config) (own_uuid : bytes).
Context (server_refresh : req123 -> reply123 -> outcome (bool * reply123)).

Lemma quiet_add_header p n v : quiet (add_header add_header_ok p n v).
Proof.
  unfold add_header. apply quiet_bind; [apply quiet_check_function|intros; apply quiet_add_hdr].
Qed.
#[local] Hint Resolve quiet_add_header exception_reply_answers : reply.

Lemma old_headers_quiet p r : quiet (old_headers add_header_ok p r).
Proof.
  unfold old_headers. case_match; [|auto with reply]. do 2 (apply quiet_bind; [auto with reply|intros]).
  case_match; auto with reply.
Qed.
Lemma encoding_quiet p r : quiet (encoding_header add_header_ok p r).
Proof. unfold encoding_header. repeat case_match; auto with reply. Qed.
#[local] Hint Resolve old_headers_quiet encoding_quiet : reply.

Lemma p_reply_answers p body etag cc : answers (p_reply add_header_ok what random svr method p body etag cc).
Proof. exact (run_end_answers add_header_ok what random svr method p 0 [] (E_reply_p body etag cc) eq_refl). Qed.
Lemma not_modified_answers p cc : answers (not_modified_reply add_header_ok what p cc).
Proof. exact (run_end_answers add_header_ok what random svr method p 0 [] (E_reply_not_modified cc) eq_refl). Qed.
#[local] Hint Resolve p_reply_answers not_modified_answers : reply.

Lemma peer_try_answers p e :
  answers (peer_p_try add_header_ok what random svr method g own_uuid server_refresh p e).
Proof.
  unfold peer_p_try. cbv zeta. repeat case_match; auto with reply.
  apply answers_bind; [auto with reply|]. intros [m r]. apply answers_bind; [auto with reply|]. intros cc.
  destruct m; cbn [negb]; auto with reply.
Qed.

Lemma peer_handler_answers p c fails s : unanswered_in fails s ->
  let r := peer_handler add_header_ok what random svr method g own_uuid server_refresh p c s in
  segv r.2 = false /\ (r.1 = Undef \/ (r.1 = Ret tt /\ answered_in fails r.2)).
Proof.
  intros Hs. assert (forall e s', unanswered_in fails s' ->
    let r := exception_reply what e s' in segv r.2 = false /\ (r.1 = Undef \/ (r.1 = Ret tt /\ answered_in fails r.2))) as Hx.
  { intros e s' Hs'. destruct (exception_reply_answers what e fails s' Hs') as [H1 H2].
    pose proof (exception_reply_nothrow what e s') as Hn. cbv zeta.
    destruct (exception_reply what e s') as [[[]|e'|] s'']; cbn in *; [auto|by destruct (Hn e')|auto]. }
  destruct c; cbn [peer_handler]; try by apply Hx.
  unfold peer_p, try_M. match goal with |- context [peer_p_try _ _ _ _ _ _ _ _ _ ?e] =>
    destruct (peer_try_answers p e fails s Hs) as [H1 H2] end.
  destruct (peer_p_try _ _ _ _ _ _ _ _ _ _ s) as [[[]|x|] s1]; cbn in H1, H2 |- *; auto.
Qed.
End Once.

(** A peer answers every request exactly once when its reply can be handed
    over, and does not when that throws: whatever the request is (of another
    function, of another version of /p, for something under /p/p that it does
    not know, or one the parser refuses), and whatever its server backend does,
    with any reply of any encoding or an exception. *)
Theorem peer_answers_once `{SB : Secretbox} add_header_ok what random svr method g own_uuid server_refresh fails h :
  let r := peer_cb add_header_ok what random svr method g own_uuid server_refresh fails h in
  segv r.2 = false
  /\ (r.1 = Undef \/ (r.1 = Ret tt /\ if fails then sent r.2 = [] else exists rs, sent r.2 = [rs])).
Proof.
  cbv zeta. unfold peer_cb. destruct (parse_and_dispatch svr h) as [[p [[c b] rlen]]|e|].
  - destruct (peer_handler_answers add_header_ok what random svr method g own_uuid server_refresh p c
      fails (rst_init fails (kvpairs p) b)) as [H1 H2]; [done|].
    destruct (peer_handler _ _ _ _ _ _ _ _ _ _ _) as [[[]|e|] s1]; cbn in H1, H2;
      [|by destruct H2 as [|[]]|cbn; auto].
    destruct H2 as [|(_ & H2)]; [discriminate|].
    destruct (req_dtor_answers what fails s1) as (H3 & H4 & _ & _ & H5); [by left|]. auto.
  - unfold internal_exception, exception_reply. cbn [evhr_null sent rst_init]. rewrite log_and_send_runs.
    split; [by destruct fails|]. right. split; [done|]. destruct fails; [done|by eexists].
  - split; [done|]. by left.
Qed.

(** ** Two incidents *)

#[local] Existing Instance auth_ex.

(** A peer's body is damaged on the way: its checksum is found wrong and the
    exception leads to the upstream backend.  But the damaged reply is already
    the caller's, and is fresh, so that backend has nothing to do. *)
Definition http_ex (b : be_id) (req : req123) (r : reply123) (w : unit) : (outcome bool * reply123) * unit :=
  let body := match b with BeUpstream => lit "file" | BeHttp _ => lit "fi?e" end in
  let answer := CurlAnswer (wire_events (plaintext_headers GET [] cc_ex (lit "file") 7) None [body]) 0 200 0 None in
  let '(o, s') := BackendHttp.refresh (LC := fun _ _ => answer) (fun _ => []) cfg_ex ck_ex req (hst_ex r) in
  (o, h_reply s', w).

Example damaged_reply_kept :
  let r := DistribCache.refresh http_ex 5 (fun _ => true) dcfg_ex req_ex
             (Dst (insert_peer peer_b no_peers) reply_default [] tt) in
  r.1 = Ret false /\ content (d_reply r.2) = lit "fi?e" /\ length (d_sent r.2) = 1%nat.
Proof. split_and!; vm_compute; reflexivity. Qed.

(** A peer that says it has our own uuid takes our places on the ring.  When
    a request to it fails the places are given up, and the next request finds no
    backend at all, not even upstream. *)
Definition imposter_ex (b : be_id) (req : req123) (r : reply123) (w : unit) : (outcome bool * reply123) * unit :=
  match b with
  | BeUpstream => (Ret true, fetched_ex (lit "file"), w)
  | BeHttp _ => if prefixb (lit "/p/1/p/uuid") (urlstem req) then (Ret true, fetched_ex uuid_a, w)
                else (Throw (EHttp 500), r, w)
  end.

Example imposter :
  let s1 := (handle_present imposter_ex dcfg_ex (p_url peer_b) (dcb_ctor dcfg_ex reply_default tt)).2 in
  let r1 := DistribCache.refresh imposter_ex 5 (fun _ => true) dcfg_ex req_ex s1 in
  r1.1 = Ret true /\ (DistribCache.refresh imposter_ex 5 (fun _ => true) dcfg_ex req_ex r1.2).1 = Throw ERuntime.
Proof. split; vm_compute; reflexivity. Qed.
