(* ===== verification/Floats.v ===== *)
(** * Floating-point arithmetic

    [float] and [double] of the program are the binary32 and binary64 formats
    of the standard library's [SpecFloat], whose operations compute.  Each C++
    operator is the one with its format, and conversions are written out.

    The lemmas bound what an operation returns by the exponents of its
    arguments: enough to know that a conversion to an integer type is
    defined. *)

From Stdlib Require Import ZArith Lia Bool.
From Stdlib Require Import SpecFloat.
From stdpp Require Import base numbers.
From S2P Require Import Prelude.

#[local] Open Scope Z_scope.

(** ** Definitions *)

Abbreviation float := spec_float.

Definition F32 : Z * Z := (24, 128).
Definition F64 : Z * Z := (53, 1024).

(** An integer, or another format's number, converted to a format. *)
Definition of_int (f : Z * Z) (z : Z) : float := binary_normalize f.1 f.2 z 0 false.
Definition convert (f : Z * Z) (x : float) : float :=
  match x with S754_finite s m e => binary_round f.1 f.2 s m e | _ => x end.

Definition fmul (f : Z * Z) (x y : float) : float := SFmul f.1 f.2 x y.
Definition fdiv (f : Z * Z) (x y : float) : float := SFdiv f.1 f.2 x y.
Definition fsub (f : Z * Z) (x y : float) : float := SFsub f.1 f.2 x y.
Definition fmax (x y : float) : float := if SFltb x y then y else x.

(** The number of ones of [x], and how many of them are left of the point. *)
Definition trunc (s : bool) (m : positive) (e : Z) : Z :=
  let z := if 0 <=? e then Zpos m * 2 ^ e else Zpos m / 2 ^ (- e) in if s then - z else z.

(** [ceil] *)
Definition fceil (f : Z * Z) (x : float) : float :=
  match x with
  | S754_finite s m e =>
      if 0 <=? e then x
      else binary_normalize f.1 f.2 (if s then trunc s m e else (Zpos m + 2 ^ (- e) - 1) / 2 ^ (- e)) 0 s
  | _ => x
  end.

(** [floor] *)
Definition ffloor (f : Z * Z) (x : float) : float :=
  match x with
  | S754_finite s m e =>
      if 0 <=? e then x
      else binary_normalize f.1 f.2 (if s then - ((Zpos m + 2 ^ (- e) - 1) / 2 ^ (- e)) else trunc s m e) 0 s
  | _ => x
  end.

(** Conversion to a [w]-bit signed integer: towards zero, and undefined when
    the result does not fit. *)
Definition to_int (w : Z) (x : float) : outcome Z :=
  match x with
  | S754_zero _ => Ret 0
  | S754_finite s m e =>
      let z := trunc s m e in if (- 2 ^ (w - 1) <=? z) && (z <? 2 ^ (w - 1)) then Ret z else Undef
  | _ => Undef
  end.

(** ** The exponent of a number *)

Definition flog2 (m : positive) (e : Z) : Z := Z.log2 (Zpos m) + e.

Lemma digits_log2 m : Zpos (digits2_pos m) = Z.log2 (Zpos m) + 1.
Proof.
  destruct m as [m|m|]; [|change (Zpos (digits2_pos m~0)) with (Zpos (Pos.succ (digits2_pos m)))|reflexivity].
  - change (Zpos (digits2_pos m~1)) with (Zpos (Pos.succ (digits2_pos m))).
    change (Z.log2 (Zpos m~1)) with (Zpos (digits2_pos m)). lia.
  - change (Z.log2 (Zpos m~0)) with (Zpos (digits2_pos m)). lia.
Qed.

Lemma Zdigits2_log2 z : 0 < z -> Zdigits2 z = Z.log2 z + 1.
Proof. destruct z as [|m|m]; [lia| |lia]. intros _. apply digits_log2. Qed.

Lemma log2_div_pow z n : 0 < z -> 0 <= n <= Z.log2 z -> Z.log2 (z / 2 ^ n) = Z.log2 z - n.
Proof. intros. rewrite <- Z.shiftr_div_pow2, Z.log2_shiftr by lia. lia. Qed.

Lemma div_pow_pos z n : 0 < z -> 0 <= n <= Z.log2 z -> 0 < z / 2 ^ n.
Proof.
  intros Hz Hn. apply Z.div_str_pos. split; [by apply Z.pow_pos_nonneg; lia|].
  destruct (Z.log2_spec z Hz) as [H _]. eapply Z.le_trans; [apply Z.pow_le_mono_r|exact H]; lia.
Qed.

Lemma div_pow_zero z n : 0 < z -> Z.log2 z < n -> z / 2 ^ n = 0.
Proof.
  intros Hz Hn. apply Z.div_small. split; [lia|]. destruct (Z.log2_spec z Hz) as [_ H].
  eapply Z.lt_le_trans; [exact H|]. apply Z.pow_le_mono_r; lia.
Qed.

(** A number one more has the same exponent, or is a power of two. *)
Lemma log2_succ_cases z : 0 < z ->
  Z.log2 (z + 1) = Z.log2 z \/ (Z.log2 (z + 1) = Z.log2 z + 1 /\ z + 1 = 2 ^ (Z.log2 z + 1)).
Proof.
  intros Hz. destruct (Z.log2_spec z Hz) as [H1 H2]. replace (Z.succ (Z.log2 z)) with (Z.log2 z + 1) in H2 by lia.
  destruct (Z.eq_dec (z + 1) (2 ^ (Z.log2 z + 1))) as [E|E].
  - right. split; [|done]. rewrite E. apply Z.log2_pow2. pose proof (Z.log2_nonneg z). lia.
  - left. apply Z.log2_unique; [apply Z.log2_nonneg|]. unfold Z.succ. lia.
Qed.

(** ** Shifting *)

Lemma half_pos p : Zpos p~1 / 2 = Zpos p /\ Zpos p~0 / 2 = Zpos p.
Proof.
  split; symmetry; [apply (Z.div_unique (Zpos p~1) 2 (Zpos p) 1)|apply (Z.div_unique (Zpos p~0) 2 (Zpos p) 0)]; lia.
Qed.

Lemma shr_1_m r : 0 <= shr_m r -> shr_m (shr_1 r) = shr_m r / 2.
Proof.
  destruct r as [[|[p|p|]|p] b c]; intros Hm.
  - done.
  - symmetry. apply (half_pos p).
  - symmetry. apply (half_pos p).
  - done.
  - by destruct Hm.
Qed.

Lemma iter_shr_m p r : 0 <= shr_m r -> shr_m (SpecFloat.iter_pos shr_1 p r) = shr_m r / 2 ^ Zpos p.
Proof.
  assert (forall a b, 0 <= a -> 0 <= b -> 2 ^ a * 2 ^ b = 2 ^ (a + b)) as Hpow by (intros; symmetry; by apply Z.pow_add_r).
  revert r. induction p as [p IH|p IH|]; intros r Hr; cbn [SpecFloat.iter_pos].
  - assert (0 <= shr_m (shr_1 r)) by (rewrite shr_1_m by done; by apply Z.div_pos).
    rewrite !IH; [|done|rewrite IH by done; by apply Z.div_pos; [|apply Z.pow_pos_nonneg]].
    rewrite shr_1_m by done. rewrite !Z.div_div by lia. f_equal. rewrite Pos2Z.inj_xI.
    rewrite (Hpow (Zpos p)) by lia. change 2 with (2 ^ 1) at 1. rewrite Hpow by lia. f_equal. lia.
  - rewrite !IH; [|done|rewrite IH by done; by apply Z.div_pos; [|apply Z.pow_pos_nonneg]].
    rewrite Z.div_div by lia. f_equal. rewrite Hpow by lia. f_equal. lia.
  - rewrite shr_1_m by done. by rewrite Z.pow_1_r.
Qed.

Lemma shr_m_of_loc m l : shr_m (shr_record_of_loc m l) = m.
Proof. by destruct l as [|[]]. Qed.

Lemma shr_spec m l e n : 0 <= m ->
  shr_m (shr (shr_record_of_loc m l) e n).1 = m / 2 ^ Z.max 0 n
  /\ (shr (shr_record_of_loc m l) e n).2 = e + Z.max 0 n.
Proof.
  intros Hm. destruct n as [|n|n]; cbn [shr fst snd].
  - rewrite shr_m_of_loc, Z.div_1_r. split; [done|lia].
  - rewrite iter_shr_m by by rewrite shr_m_of_loc. rewrite shr_m_of_loc. by split.
  - rewrite shr_m_of_loc, Z.div_1_r. split; [done|lia].
Qed.

Lemma round_cases m l : round_nearest_even m l = m \/ round_nearest_even m l = m + 1.
Proof. destruct l as [|[]]; cbn; auto. destruct (Z.even m); auto. Qed.

(** ** Rounding *)

Section Format.
Context (f : Z * Z) (Hf : 1 < f.1 /\ f.1 < f.2).
#[local] Abbreviation prec := f.1.
#[local] Abbreviation emax := f.2.
#[local] Abbreviation emin := (3 - emax - prec).

Lemma fexp_eq x : fexp prec emax x = Z.max (x - prec) emin.
Proof. reflexivity. Qed.

(** [x] has sign [s], its mantissa is as long as the format wants, and its
    exponent is between the bounds. *)
Definition fin (s : bool) (lo hi : Z) (x : float) : Prop :=
  exists m e, x = S754_finite s m e /\ e = fexp prec emax (flog2 m e + 1) /\ lo <= flog2 m e <= hi.
Definition zero (x : float) : Prop := exists s, x = S754_zero s.
Definition small (hi : Z) (x : float) : Prop := zero x \/ exists s lo, fin s lo hi x.

Lemma fin_weaken s lo hi lo' hi' x : fin s lo hi x -> lo' <= lo -> hi <= hi' -> fin s lo' hi' x.
Proof. intros (m & e & H1 & H2 & H3) ? ?. exists m, e. split_and!; [done..|lia|lia]. Qed.
Lemma small_weaken hi hi' x : small hi x -> hi <= hi' -> small hi' x.
Proof.
  intros [H|(s & lo & H)] ?; [by left|right]. exists s, lo. by eapply fin_weaken.
Qed.
Lemma fin_small s lo hi x : fin s lo hi x -> small hi x.
Proof. right. by exists s, lo. Qed.

(** Rounding what is at least as precise as the format. *)
Lemma round_aux s m e l : 0 < m -> let t := Z.log2 m + e in
  e <= fexp prec emax (t + 1) -> t + 1 < emax ->
  let x := binary_round_aux prec emax s m e l in
  (emin <= t -> fin s t (t + 1) x) /\ (t < emin -> x = S754_zero s \/ fin s emin emin x).
Proof.
  intros Hm t He Ht x. pose proof (Z.log2_nonneg m) as Hl.
  unfold x, binary_round_aux, shr_fexp. rewrite Zdigits2_log2 by done.
  replace (Z.log2 m + 1 + e) with (t + 1) by (unfold t; lia).
  set (n := fexp prec emax (t + 1) - e). destruct (shr_spec m l e n) as [E1 E2]; [lia|].
  destruct (shr _ e n) as [r1 e1]. cbn [fst snd] in E1, E2.
  assert (e1 = fexp prec emax (t + 1)) as -> by (unfold n in E2; lia). clear E2.
  replace (Z.max 0 n) with n in E1 by (unfold n; lia).
  set (e1 := fexp prec emax (t + 1)) in *.
  assert (He1 : e1 = Z.max (t + 1 - prec) emin) by reflexivity.
  (* the second shift is exact *)
  assert (forall m2 t2, 0 < m2 -> Z.log2 m2 + e1 = t2 -> (t2 = t \/ (t2 = t + 1 /\ m2 = 2 ^ Z.log2 m2)) ->
    fin s t2 t2 match shr_m (shr (shr_record_of_loc m2 loc_Exact) e1 (fexp prec emax (Zdigits2 m2 + e1) - e1)).1 with
      | Z0 => S754_zero s
      | Zpos m => if (shr (shr_record_of_loc m2 loc_Exact) e1 (fexp prec emax (Zdigits2 m2 + e1) - e1)).2 <=? emax - prec
                  then S754_finite s m (shr (shr_record_of_loc m2 loc_Exact) e1 (fexp prec emax (Zdigits2 m2 + e1) - e1)).2
                  else S754_infinity s
      | _ => S754_nan end) as Hsecond.
  { intros m2 t2 Hm2 Et2 Hcase. rewrite Zdigits2_log2 by done.
    destruct (shr_spec m2 loc_Exact e1 (fexp prec emax (Z.log2 m2 + 1 + e1) - e1)) as [F1 F2]; [lia|].
    rewrite F1, F2. set (k := Z.max 0 _). pose proof (Z.log2_nonneg m2) as Hl2.
    assert (Hk : k = Z.max 0 (Z.max (t2 + 1 - prec) emin - e1)).
    { unfold k. rewrite fexp_eq. do 2 f_equal. lia. }
    assert (0 <= k <= Z.log2 m2) as Hkl by lia.
    pose proof (div_pow_pos m2 k Hm2 Hkl) as Hpos.
    pose proof (log2_div_pow m2 k Hm2 Hkl) as Hlog.
    destruct (m2 / 2 ^ k) as [|q|q] eqn:Eq; [lia| |lia].
    assert (e1 + k = fexp prec emax (t2 + 1)) as Efin.
    { rewrite fexp_eq. clear - Hk He1 Hcase. clearbody k e1 t. destruct Hcase as [->|[-> _]]; lia. }
    rewrite (proj2 (Z.leb_le _ _)) by lia.
    exists q, (e1 + k). unfold flog2. rewrite Hlog.
    replace (Z.log2 m2 - k + (e1 + k)) with t2 by lia. split_and!; [done|done|lia|lia]. }
  set (m2 := round_nearest_even _ _).
  change (let '(mrs'', e'') := shr (shr_record_of_loc m2 loc_Exact) e1 (fexp prec emax (Zdigits2 m2 + e1) - e1) in
          match shr_m mrs'' with
          | Z0 => S754_zero s
          | Zpos m => if Z.leb e'' (emax - prec) then S754_finite s m e'' else S754_infinity s
          | _ => S754_nan end) with
    (let p := shr (shr_record_of_loc m2 loc_Exact) e1 (fexp prec emax (Zdigits2 m2 + e1) - e1) in
     let '(mrs'', e'') := p in
          match shr_m mrs'' with
          | Z0 => S754_zero s
          | Zpos m => if Z.leb e'' (emax - prec) then S754_finite s m e'' else S754_infinity s
          | _ => S754_nan end).
  cbv zeta. rewrite (surjective_pairing (shr (shr_record_of_loc m2 loc_Exact) _ _)).
  assert (m2 = shr_m r1 \/ m2 = shr_m r1 + 1) as Hm2 by apply round_cases.
  rewrite E1 in Hm2. split; intros Hmin.
  - assert (0 <= n <= Z.log2 m) as Hn by (unfold n, t in *; lia).
    pose proof (div_pow_pos m n Hm Hn) as Hp1. pose proof (log2_div_pow m n Hm Hn) as Hp2.
    assert (Z.log2 (m / 2 ^ n) + e1 = t) as Et by (unfold n, t in *; lia).
    destruct Hm2 as [Hm2|Hm2].
    + eapply fin_weaken; [apply (Hsecond m2 t)|lia|lia]; [lia|by rewrite Hm2|by left].
    + destruct (log2_succ_cases (m / 2 ^ n) Hp1) as [E|[E Epow]]; rewrite <- Hm2 in E.
      * eapply fin_weaken; [apply (Hsecond m2 t)|lia|lia]; [lia|by rewrite E|by left].
      * eapply fin_weaken; [apply (Hsecond m2 (t + 1))|lia|lia]; [lia|lia|].
        right. split; [done|]. rewrite E. by rewrite Hm2.
  - rewrite (div_pow_zero m n Hm) in Hm2 by (unfold n, t in *; lia).
    destruct Hm2 as [->| ->].
    + left. by destruct (fexp prec emax (Zdigits2 0 + e1) - e1) as [|k|k] eqn:Ek; cbn [shr fst];
        [|rewrite iter_shr_m by done; cbn [shr_m shr_record_of_loc]; rewrite Z.div_0_l by (apply Z.pow_nonzero; lia)|].
    + right. change (0 + 1) with 1. clear Hsecond. cbn [Zdigits2 digits2_pos].
      replace (fexp prec emax (1 + e1) - e1) with 0 by (rewrite fexp_eq; lia).
      cbn [shr fst snd shr_record_of_loc shr_m]. rewrite (proj2 (Z.leb_le _ _)) by lia.
      exists 1%positive, e1. unfold flog2. change (Z.log2 1) with 0.
      split_and!; [done| |lia|lia]. rewrite fexp_eq. lia.
Qed.

(** An upper bound whatever is rounded. *)
Lemma round_small s m e l : 0 < m -> let t := Z.log2 m + e in
  e <= fexp prec emax (t + 1) -> t + 1 < emax ->
  small (Z.max (t + 1) emin) (binary_round_aux prec emax s m e l).
Proof.
  intros Hm t He Ht. destruct (round_aux s m e l Hm He Ht) as [H1 H2].
  destruct (Z.le_gt_cases emin t) as [H|H].
  - eapply small_weaken; [apply (fin_small s t (t + 1)), H1, H|lia].
  - destruct (H2 H) as [->|H3]; [left; by exists s|]. eapply small_weaken; [by eapply fin_small|lia].
Qed.

Lemma iter_xO m d : Zpos (Pos.iter xO m d) = Zpos m * 2 ^ Zpos d.
Proof.
  rewrite <- (Pos.mul_1_l (Pos.iter xO m d)). induction d as [|d IH] using Pos.peano_ind.
  - cbn. lia.
  - rewrite Pos.iter_succ. rewrite Pos2Z.inj_succ, Z.pow_succ_r by lia. cbn in *. lia.
Qed.

(** Aligning keeps the number. *)
Lemma shl_align_spec m e e' :
  Zpos (shl_align m e e').1 = Zpos m * 2 ^ Z.max 0 (e - e')
  /\ (shl_align m e e').2 = Z.min e e'.
Proof.
  unfold shl_align. destruct (e' - e) as [|d|d] eqn:E; cbn [fst snd].
  - replace (Z.max 0 (e - e')) with 0 by lia. split; lia.
  - replace (Z.max 0 (e - e')) with 0 by lia. split; lia.
  - rewrite iter_xO. replace (Z.max 0 (e - e')) with (Zpos d) by lia. split; [done|lia].
Qed.

Lemma log2_shl z n : 0 < z -> 0 <= n -> Z.log2 (z * 2 ^ n) = Z.log2 z + n.
Proof. intros. rewrite Z.log2_mul_pow2; lia. Qed.

(** Rounding a number given exactly. *)
Lemma binary_round_cases s m e : let t := flog2 m e in t + 1 < emax ->
  (emin <= t -> fin s t (t + 1) (binary_round prec emax s m e))
  /\ (t < emin -> binary_round prec emax s m e = S754_zero s \/ fin s emin emin (binary_round prec emax s m e)).
Proof.
  intros t Ht. unfold binary_round. rewrite digits_log2.
  destruct (shl_align_spec m e (fexp prec emax (Z.log2 (Zpos m) + 1 + e))) as [E1 E2].
  destruct (shl_align _ _ _) as [mz ez]. cbn [fst snd] in E1, E2.
  assert (Z.log2 (Zpos mz) + ez = t) as Et.
  { rewrite E1, log2_shl by lia. unfold t, flog2. lia. }
  destruct (round_aux s (Zpos mz) ez loc_Exact) as [H1 H2]; [done| |lia|].
  - rewrite Et, E2. replace (t + 1) with (Z.log2 (Zpos m) + 1 + e) by (unfold t, flog2; lia). lia.
  - rewrite Et in H1, H2. by split.
Qed.

Lemma binary_round_small s m e : flog2 m e + 1 < emax ->
  small (Z.max (flog2 m e + 1) emin) (binary_round prec emax s m e).
Proof.
  intros Ht. destruct (binary_round_cases s m e Ht) as [H1 H2]. destruct (Z.le_gt_cases emin (flog2 m e)) as [H|H].
  - eapply small_weaken; [eapply fin_small, H1, H|lia].
  - destruct (H2 H) as [->|H3]; [left; by exists s|]. eapply small_weaken; [by eapply fin_small|lia].
Qed.

Lemma of_int_fin z : 0 < z -> Z.log2 z + 1 < emax -> emin <= 0 ->
  fin false (Z.log2 z) (Z.log2 z + 1) (of_int f z).
Proof.
  intros Hz Hl Hm. destruct z as [|m|m]; [lia| |lia]. unfold of_int, binary_normalize.
  destruct (binary_round_cases false m 0) as [H _]; [unfold flog2; lia|].
  unfold flog2 in H. rewrite Z.add_0_r in H. apply H. pose proof (Z.log2_nonneg (Zpos m)). lia.
Qed.

Lemma normalize_small z e b hi : (z = 0 \/ Z.log2 (Z.abs z) + e <= hi) -> hi + 1 < emax -> emin <= hi + 1 ->
  small (hi + 1) (binary_normalize prec emax z e b).
Proof.
  intros Hz Hl Hm. destruct z as [|m|m]; cbn [binary_normalize].
  - left. by exists b.
  - assert (flog2 m e <= hi) as Hz' by (by destruct Hz).
    eapply small_weaken; [apply binary_round_small|]; lia.
  - assert (flog2 m e <= hi) as Hz' by (by destruct Hz).
    eapply small_weaken; [apply binary_round_small|]; lia.
Qed.

Lemma log2_mul_lower a b : 0 < a -> 0 < b -> Z.log2 a + Z.log2 b <= Z.log2 (a * b) <= Z.log2 a + Z.log2 b + 1.
Proof. intros. split; [apply Z.log2_mul_below; lia|]. apply Z.log2_mul_above; lia. Qed.

(** The exponents a product has. *)
Lemma mul_exps sx sy lx hx ly hy x y : fin sx lx hx x -> fin sy ly hy y -> hx + hy + 2 < emax -> emin <= 0 ->
  exists mx ex my ey, x = S754_finite sx mx ex /\ y = S754_finite sy my ey
    /\ let t := Z.log2 (Zpos mx * Zpos my) + (ex + ey) in
       lx + ly <= t <= hx + hy + 1 /\ ex + ey <= fexp prec emax (t + 1).
Proof.
  intros (mx & ex & -> & Ex & Hx) (my & ey & -> & Ey & Hy) Hl Hm.
  exists mx, ex, my, ey. split; [done|]. split; [done|].
  pose proof (log2_mul_lower (Zpos mx) (Zpos my) ltac:(lia) ltac:(lia)). cbv zeta.
  pose proof (Z.log2_nonneg (Zpos mx)). pose proof (Z.log2_nonneg (Zpos my)).
  unfold flog2 in *. rewrite fexp_eq in *. lia.
Qed.

Lemma fmul_fin sx sy lx hx ly hy x y : fin sx lx hx x -> fin sy ly hy y ->
  hx + hy + 2 < emax -> emin <= lx + ly -> emin <= 0 ->
  fin (xorb sx sy) (lx + ly) (hx + hy + 2) (fmul f x y).
Proof.
  intros Hx Hy Hh Hl Hm. destruct (mul_exps _ _ _ _ _ _ _ _ Hx Hy Hh Hm) as (mx & ex & my & ey & -> & -> & Ht & He).
  unfold fmul, SFmul. rewrite Pos2Z.inj_mul. cbv zeta in Ht, He.
  destruct (round_aux (xorb sx sy) (Zpos mx * Zpos my) (ex + ey) loc_Exact) as [H _]; [lia|done|lia|].
  eapply fin_weaken; [apply H|..]; lia.
Qed.

Lemma fmul_small hx hy x y : small hx x -> small hy y -> hx + hy + 2 < emax -> emin <= hx + hy + 2 -> emin <= 0 ->
  small (hx + hy + 2) (fmul f x y).
Proof.
  intros [[a ->]|(sx & lx & Hx)] [[b ->]|(sy & ly & Hy)] Hh Hl Hm.
  - left. by eexists.
  - left. destruct Hy as (? & ? & -> & _). by eexists.
  - left. destruct Hx as (? & ? & -> & _). by eexists.
  - destruct (mul_exps _ _ _ _ _ _ _ _ Hx Hy Hh Hm) as (mx & ex & my & ey & -> & -> & Ht & He).
    unfold fmul, SFmul. rewrite Pos2Z.inj_mul. cbv zeta in Ht, He.
    eapply small_weaken; [apply round_small|]; [lia|done|lia|lia].
Qed.

(** *** Division *)

Lemma log2_div a b : 0 < b <= a -> Z.log2 a - Z.log2 b - 1 <= Z.log2 (a / b) <= Z.log2 a - Z.log2 b.
Proof.
  intros Hb. assert (0 < a / b) as Hq by (apply Z.div_str_pos; lia).
  assert (b * (a / b) <= a) as H1 by (apply Z.mul_div_le; lia).
  assert (a < b * (a / b + 1)) as H2 by (rewrite Z.add_1_r; apply Z.mul_succ_div_gt; lia).
  pose proof (Z.log2_mul_below b (a / b) ltac:(lia) ltac:(lia)) as H3.
  pose proof (Z.log2_le_mono _ _ H1) as H4.
  destruct (Z.log2_spec b) as [_ H5]; [lia|]. destruct (Z.log2_spec (a / b) Hq) as [_ H6].
  pose proof (Z.log2_nonneg b). pose proof (Z.log2_nonneg (a / b)).
  assert (a < 2 ^ (Z.log2 b + Z.log2 (a / b) + 2)) as H7.
  { eapply Z.lt_le_trans; [exact H2|].
    replace (Z.log2 b + Z.log2 (a / b) + 2) with (Z.succ (Z.log2 b) + Z.succ (Z.log2 (a / b))) by lia.
    rewrite Z.pow_add_r by lia. apply Z.mul_le_mono_nonneg; lia. }
  apply Z.log2_lt_pow2 in H7; lia.
Qed.

(** The quotient and its exponent. *)
Lemma div_core mx ex my ey : let E := flog2 mx ex - flog2 my ey in
  exists q e' l, SFdiv_core_binary prec emax (Zpos mx) ex (Zpos my) ey = (q, e', l)
    /\ e' <= fexp prec emax E /\ 0 <= q /\ (q = 0 -> E <= e') /\ (0 < q -> E - 1 <= Z.log2 q + e' <= E).
Proof.
  intros E. unfold SFdiv_core_binary. cbn [Zdigits2]. rewrite !digits_log2.
  replace (Z.log2 (Zpos mx) + 1 + ex - (Z.log2 (Zpos my) + 1 + ey)) with E by (unfold E, flog2; lia).
  set (e' := Z.min (fexp prec emax E) (ex - ey)).
  assert (e' <= fexp prec emax E /\ 0 <= ex - ey - e') as [He' Hs] by (unfold e'; lia). clearbody e'.
  remember (ex - ey - e') as k eqn:Ek.
  assert ((match k with Z0 => Zpos mx | Zpos _ => Z.shiftl (Zpos mx) k | Zneg _ => Z0 end) = Zpos mx * 2 ^ k) as ->.
  { destruct k as [|k'|k']; [lia|by rewrite Z.shiftl_mul_pow2|lia]. }
  set (a := Zpos mx * 2 ^ k). pose proof (Z.div_mod a (Zpos my) ltac:(lia)) as Hdm. unfold Z.div, Z.modulo in Hdm.
  assert (0 < a) as Ha by (unfold a; assert (0 < 2 ^ k) by (by apply Z.pow_pos_nonneg); lia).
  assert (Z.log2 a = Z.log2 (Zpos mx) + k) as La by (by apply log2_shl).
  pose proof (Z.div_pos a (Zpos my) ltac:(lia) ltac:(lia)) as Hq0.
  assert (a / Zpos my = 0 -> E <= e') as Hz.
  { intros H0. apply Z.div_small_iff in H0; [|lia]. destruct H0 as [[_ H0]|[H0 H0']]; [|lia].
    pose proof (Z.log2_le_mono a (Zpos my) ltac:(lia)). unfold E, flog2. lia. }
  assert (0 < a / Zpos my -> E - 1 <= Z.log2 (a / Zpos my) + e' <= E) as Hp.
  { intros H0. assert (Zpos my <= a).
    { destruct (Z.lt_ge_cases a (Zpos my)); [|done]. rewrite Z.div_small in H0; lia. }
    pose proof (log2_div a (Zpos my) ltac:(lia)).
    unfold E, flog2. lia. }
  unfold Z.div in Hq0, Hz, Hp. destruct (Z.div_eucl a (Zpos my)) as [q r].
  eexists q, e', _. split; [done|]. done.
Qed.

(** What is too small for the format. *)
Lemma round_tiny s e l : e <= emin -> emin < emax ->
  small emin (binary_round_aux prec emax s 0 e l).
Proof.
  intros He Hl. unfold binary_round_aux, shr_fexp. change (Zdigits2 0 + e) with e.
  destruct (shr_spec 0 l e (fexp prec emax e - e)) as [E1 E2]; [lia|].
  destruct (shr _ e (fexp prec emax e - e)) as [r1 e1]. cbn [fst snd] in E1, E2.
  rewrite Z.div_0_l in E1 by (apply Z.pow_nonzero; lia).
  assert (e1 = emin) as -> by (rewrite E2, fexp_eq; lia).
  destruct (round_cases (shr_m r1) (loc_of_shr_record r1)) as [->| ->]; rewrite E1.
  - left. exists s. destruct (shr_spec 0 loc_Exact emin (fexp prec emax (Zdigits2 0 + emin) - emin)) as [F1 F2]; [lia|].
    destruct (shr _ emin _) as [r2 e2]. cbn [fst snd] in F1, F2. rewrite Z.div_0_l in F1 by (apply Z.pow_nonzero; lia).
    by rewrite F1.
  - right. exists s, emin. change (0 + 1) with 1. cbn [Zdigits2 digits2_pos].
    replace (fexp prec emax (1 + emin) - emin) with 0 by (rewrite fexp_eq; lia).
    cbn [shr fst snd shr_record_of_loc shr_m]. rewrite (proj2 (Z.leb_le _ _)) by lia.
    exists 1%positive, emin. unfold flog2. change (Z.log2 1) with 0. split_and!; [done|rewrite fexp_eq; lia|lia|lia].
Qed.

Lemma fdiv_fin sx sy lx hx ly hy x y : fin sx lx hx x -> fin sy ly hy y ->
  hx - ly + 1 < emax -> emin <= lx - hy - 1 ->
  fin (xorb sx sy) (lx - hy - 1) (hx - ly + 1) (fdiv f x y).
Proof.
  intros (mx & ex & -> & _ & Hx) (my & ey & -> & _ & Hy) Hh Hl. unfold fdiv, SFdiv.
  destruct (div_core mx ex my ey) as (q & e' & l & -> & He & Hq & Hz & Hp). rewrite fexp_eq in He.
  assert (0 < q) as Hq'.
  { destruct (Z.eq_dec q 0) as [E|]; [|lia]. specialize (Hz E). lia. }
  specialize (Hp Hq'). destruct (round_aux (xorb sx sy) q e' l Hq') as [H _]; [rewrite fexp_eq; lia|lia|].
  eapply fin_weaken; [apply H|..]; lia.
Qed.

Lemma fdiv_small hx sy ly hy x y : small hx x -> fin sy ly hy y -> hx - ly + 1 < emax -> emin < emax ->
  small (Z.max (hx - ly + 1) emin) (fdiv f x y).
Proof.
  intros [[a ->]|(sx & lx & mx & ex & -> & Ex & Hx)] (my & ey & -> & _ & Hy) Hh Hl; unfold fdiv, SFdiv.
  - left. by eexists.
  - destruct (div_core mx ex my ey) as (q & e' & l & -> & He & Hq & Hz & Hp). rewrite fexp_eq in He.
    destruct (Z.eq_dec q 0) as [E|].
    + specialize (Hz E). subst q. eapply small_weaken; [apply round_tiny|]; lia.
    + specialize (Hp ltac:(lia)). eapply small_weaken; [apply round_small|]; [lia|rewrite fexp_eq; lia|lia|lia].
Qed.

(** *** Subtraction *)

Lemma log2_lt_bound z k : Z.abs z < 2 ^ k -> z <> 0 -> Z.log2 (Z.abs z) < k.
Proof. intros H Hz. apply Z.log2_lt_pow2; lia. Qed.

Lemma pos_lt_pow m e ez h : ez <= e -> flog2 m e <= h -> Zpos m * 2 ^ (e - ez) < 2 ^ (h - ez + 1).
Proof.
  unfold flog2. intros He Hh. destruct (Z.log2_spec (Zpos m) ltac:(lia)) as [_ H].
  pose proof (Z.log2_nonneg (Zpos m)).
  apply Z.lt_le_trans with (2 ^ (Z.succ (Z.log2 (Zpos m)) + (e - ez))).
  - rewrite Z.pow_add_r by lia. apply Z.mul_lt_mono_pos_r; [by apply Z.pow_pos_nonneg; lia|done].
  - apply Z.pow_le_mono_r; lia.
Qed.

(** The difference of two numbers aligned at the lesser exponent. *)
Lemma sub_aligned sx sy mx ex my ey h : flog2 mx ex <= h -> flog2 my ey <= h ->
  exists z, fsub f (S754_finite sx mx ex) (S754_finite sy my ey)
            = binary_normalize prec emax z (Z.min ex ey) false
    /\ (z <> 0 -> Z.log2 (Z.abs z) + Z.min ex ey <= h + 1).
Proof.
  intros Hx Hy. unfold fsub, SFsub. eexists. split; [reflexivity|].
  destruct (shl_align_spec mx ex (Z.min ex ey)) as [-> _]. destruct (shl_align_spec my ey (Z.min ex ey)) as [-> _].
  set (ez := Z.min ex ey). replace (Z.max 0 (ex - ez)) with (ex - ez) by (unfold ez; lia).
  replace (Z.max 0 (ey - ez)) with (ey - ez) by (unfold ez; lia). intros Hz.
  pose proof (pos_lt_pow mx ex ez h ltac:(unfold ez; lia) Hx) as H1.
  pose proof (pos_lt_pow my ey ez h ltac:(unfold ez; lia) Hy) as H2.
  pose proof (Z.log2_nonneg (Zpos mx)). pose proof (Z.log2_nonneg (Zpos my)). unfold flog2 in *.
  assert (2 ^ (h - ez + 2) = 2 * 2 ^ (h - ez + 1)) as Hp
    by (rewrite <- Z.pow_succ_r by (unfold ez; lia); f_equal; lia).
  assert (0 <= 2 ^ (ex - ez) /\ 0 <= 2 ^ (ey - ez)) as [] by (split; apply Z.pow_nonneg; lia).
  set (a := Zpos mx * 2 ^ (ex - ez)) in *. set (b := Zpos my * 2 ^ (ey - ez)) in *.
  assert (0 <= a /\ 0 <= b) as [] by (unfold a, b; lia).
  assert (Z.abs (cond_Zopp sx a - cond_Zopp sy b) < 2 ^ (h - ez + 2)) as Hlt
    by (unfold cond_Zopp; destruct sx, sy; lia).
  apply log2_lt_bound in Hlt; [lia|done].
Qed.

Lemma fsub_small hx hy x y h : small hx x -> small hy y -> hx <= h -> hy <= h -> h + 2 < emax -> emin <= h + 2 ->
  small (h + 2) (fsub f x y).
Proof.
  intros [[a ->]|(sx & lx & mx & ex & -> & Ex & Hx)] [[b ->]|(sy & ly & my & ey & -> & Ey & Hy)] ? ? ? ?.
  - left. unfold fsub, SFsub. destruct a, b; by eexists.
  - right. exists (negb sy), ly. eapply (fin_weaken _ ly hy); [by exists my, ey|lia|lia].
  - right. exists sx, lx. eapply (fin_weaken _ lx hx); [by exists mx, ex|lia|lia].
  - destruct (sub_aligned sx sy mx ex my ey h) as (z & -> & Hz); [lia|lia|].
    replace (h + 2) with (h + 1 + 1) by lia. apply normalize_small; [|lia|lia].
    destruct (Z.eq_dec z 0); auto.
Qed.

(** A difference that is not zero is not too small either. *)
Lemma fsub_fin hx hy x y sx lx sy ly h l : fin sx lx hx x -> fin sy ly hy y ->
  hx <= h -> hy <= h -> l <= lx - prec -> l <= ly - prec -> emin <= l -> h + 2 < emax ->
  (exists a, fsub f x y = S754_zero a) \/ exists s, fin s l (h + 2) (fsub f x y).
Proof.
  intros (mx & ex & -> & Ex & Hx) (my & ey & -> & Ey & Hy) ? ? ? ? ? ?. rewrite fexp_eq in Ex, Ey.
  destruct (sub_aligned sx sy mx ex my ey h) as (z & -> & Hz); [lia|lia|].
  assert (forall b m, Z.log2 (Zpos m) + Z.min ex ey <= h + 1 ->
    exists s, fin s l (h + 2) (binary_round prec emax b m (Z.min ex ey))) as Hr.
  { intros b m Hm. pose proof (Z.log2_nonneg (Zpos m)). unfold flog2 in *.
    destruct (binary_round_cases b m (Z.min ex ey)) as [Hr _]; unfold flog2 in *; [lia|].
    eexists. eapply fin_weaken; [apply Hr|..]; lia. }
  destruct z as [|m|m]; [left; by eexists|right..]; apply Hr; by apply Hz.
Qed.

(** *** Conversions *)

Lemma convert_fin s m e : flog2 m e + 1 < emax -> emin <= flog2 m e ->
  fin s (flog2 m e) (flog2 m e + 1) (convert f (S754_finite s m e)).
Proof. intros H1 H2. cbn [convert]. by apply binary_round_cases. Qed.

(** *** Comparisons *)

Lemma compare_cont_Lt a b : Pos.compare_cont Eq a b = Lt -> (a < b)%positive.
Proof. done. Qed.

Lemma fexp_mono a b : a <= b -> fexp prec emax a <= fexp prec emax b.
Proof. rewrite !fexp_eq. lia. Qed.

(** Positive numbers compare as their exponents do. *)
Lemma fltb_exps lx hx ly hy x y : fin false lx hx x -> fin false ly hy y -> SFltb x y = true ->
  exists m e m' e', x = S754_finite false m e /\ y = S754_finite false m' e' /\ flog2 m e <= flog2 m' e'.
Proof.
  intros (m & e & -> & E & Hx) (m' & e' & -> & E' & Hy). unfold SFltb, SFcompare.
  destruct (Z.compare_spec e e') as [He|He|He]; [|intros _|done].
  - destruct (Pos.compare_cont Eq m m') eqn:Ec; [done|intros _|done]. apply compare_cont_Lt in Ec.
    exists m, e, m', e'. split_and!; [done..|]. unfold flog2.
    pose proof (Z.log2_le_mono (Zpos m) (Zpos m') ltac:(lia)). lia.
  - exists m, e, m', e'. split_and!; [done..|]. destruct (Z.le_gt_cases (flog2 m e) (flog2 m' e')); [done|].
    pose proof (fexp_mono (flog2 m' e' + 1) (flog2 m e + 1) ltac:(lia)). lia.
Qed.

Lemma fmax_fin lx hx ly hy x y : fin false lx hx x -> fin false ly hy y ->
  fin false lx (Z.max hx hy) (fmax x y).
Proof.
  intros Hx Hy. unfold fmax. destruct (SFltb x y) eqn:E.
  - destruct (fltb_exps _ _ _ _ _ _ Hx Hy E) as (m & e & m' & e' & -> & -> & H).
    destruct Hx as (? & ? & [= <- <-] & Ex & Hx), Hy as (? & ? & [= <- <-] & Ey & Hy).
    exists m', e'. split_and!; [done..|lia|lia].
  - eapply fin_weaken; [exact Hx|lia|lia].
Qed.
End Format.

(** Into another format. *)
Lemma convert_small g f hi x : 1 < f.1 /\ f.1 < f.2 -> small g hi x -> hi + 1 < f.2 ->
  small f (Z.max (hi + 1) (3 - f.2 - f.1)) (convert f x).
Proof.
  intros Hf [[a ->]|(s & lo & m & e & -> & _ & Hx)] Hh; [left; by eexists|].
  cbn [convert]. eapply small_weaken; [apply binary_round_small; [done|lia]|lia].
Qed.
Lemma convert_fin_to g f s lo hi x : 1 < f.1 /\ f.1 < f.2 -> fin g s lo hi x -> hi + 1 < f.2 -> 3 - f.2 - f.1 <= lo ->
  fin f s lo (hi + 1) (convert f x).
Proof.
  intros Hf (m & e & -> & _ & Hx) Hh Hl. eapply fin_weaken; [apply convert_fin; [done|..]|..]; lia.
Qed.

(** ** Conversion to integers *)

Lemma trunc_bound s m e k : 0 <= k -> flog2 m e < k -> Z.abs (trunc s m e) < 2 ^ k.
Proof.
  intros Hk Hm. assert (forall z, 0 <= z < 2 ^ k -> Z.abs (if s then - z else z) < 2 ^ k) as Hs by (intros; destruct s; lia).
  unfold trunc. apply Hs. unfold flog2 in Hm. destruct (Z.log2_spec (Zpos m) ltac:(lia)) as [_ H].
  pose proof (Z.log2_nonneg (Zpos m)). destruct (Z.leb_spec 0 e) as [He|He].
  - assert (0 < 2 ^ e) by (apply Z.pow_pos_nonneg; lia). split; [lia|].
    apply Z.lt_le_trans with (2 ^ (Z.succ (Z.log2 (Zpos m)) + e)); [|apply Z.pow_le_mono_r; lia].
    rewrite Z.pow_add_r by lia. by apply Z.mul_lt_mono_pos_r.
  - assert (0 < 2 ^ (- e)) by (apply Z.pow_pos_nonneg; lia). split; [by apply Z.div_pos|].
    apply Z.div_lt_upper_bound; [done|]. rewrite <- Z.pow_add_r by lia.
    eapply Z.lt_le_trans; [exact H|]. apply Z.pow_le_mono_r; lia.
Qed.

Lemma to_int_small f w hi x : 0 <= w -> small f hi x -> hi < w - 1 -> 0 <= hi ->
  exists z, to_int w x = Ret z /\ Z.abs z < 2 ^ (hi + 1).
Proof.
  intros Hw [[a ->]|(s & lo & m & e & -> & _ & Hx)] Hh H0; cbn [to_int].
  - exists 0. split; [done|]. by apply Z.pow_pos_nonneg; lia.
  - pose proof (trunc_bound s m e (hi + 1) ltac:(lia) ltac:(lia)) as Hb.
    assert (2 ^ (hi + 1) <= 2 ^ (w - 1)) by (apply Z.pow_le_mono_r; lia).
    exists (trunc s m e). rewrite (proj2 (andb_true_iff _ _)) by lia. done.
Qed.

Lemma fceil_small f hi x : 1 < f.1 /\ f.1 < f.2 -> small f hi x -> 0 <= hi -> hi + 2 < f.2 ->
  small f (hi + 2) (fceil f x).
Proof.
  intros Hf [[a ->]|(s & lo & m & e & -> & Ex & Hx)] H0 Hh; cbn [fceil]; [left; by eexists|].
  destruct (Z.leb_spec 0 e) as [He|He].
  { eapply small_weaken; [apply (fin_small _ s lo hi); by exists m, e|lia]. }
  replace (hi + 2) with (hi + 1 + 1) by lia.
  apply normalize_small; [done| |lia|lia]. set (z := if s then _ else _).
  destruct (Z.eq_dec z 0) as [|Hz]; [by left|right]. rewrite Z.add_0_r.
  pose proof (trunc_bound s m e (hi + 1) ltac:(lia) ltac:(lia)) as Hb.
  assert (Z.abs z < 2 ^ (hi + 2)) as Hlt.
  { replace (hi + 2) with (Z.succ (hi + 1)) by lia. rewrite Z.pow_succ_r by lia.
    assert (0 < 2 ^ (hi + 1)) by (apply Z.pow_pos_nonneg; lia).
    unfold z. destruct s; [lia|]. unfold trunc in Hb. rewrite (proj2 (Z.leb_gt _ _)) in Hb by done.
    assert (0 < 2 ^ (- e)) as Hp by (apply Z.pow_pos_nonneg; lia).
    pose proof (Z.div_pos (Zpos m) (2 ^ (- e)) ltac:(lia) Hp).
    assert ((Zpos m + 2 ^ (- e) - 1) / 2 ^ (- e) <= Zpos m / 2 ^ (- e) + 1).
    { rewrite <- Z.div_add by lia. apply Z.div_le_mono; lia. }
    assert (0 <= (Zpos m + 2 ^ (- e) - 1) / 2 ^ (- e)) by (apply Z.div_pos; lia). lia. }
  apply log2_lt_bound in Hlt; [lia|done].
Qed.

(** A third, and the same number as a [float]. *)
Example third : fdiv F64 (of_int F64 1) (of_int F64 3) = S754_finite false 6004799503160661 (-54)
  /\ convert F32 (fdiv F64 (of_int F64 1) (of_int F64 3)) = S754_finite false 11184811 (-25).
Proof. by split. Qed.
Example ceilings : to_int 32 (fceil F64 (fdiv F64 (of_int F64 7) (of_int F64 2))) = Ret 4
  /\ to_int 32 (fceil F64 (fdiv F64 (of_int F64 (-7)) (of_int F64 2))) = Ret (-3)
  /\ to_int 32 (of_int F64 (2 ^ 31)) = Undef.
Proof. split_and!; reflexivity. Qed.
