(* ===== verification/Evictor.v ===== *)
(** * The evictor of the disk cache (exe/fs123p7/diskcache.cpp)

    [evict_once], run from time to time by its own thread, looks at one
    sub-directory of the cache, estimates how full the cache is, unlinks some
    of its files at random, and sets the probability that new files are written
    and the time until the next run.  The estimates are floating-point
    numbers, in the formats and the order of operations of the code.

    What the system does in one run is a parameter, as is the random engine:
    [uniform_int_distribution] gives some number between its bounds.

    Theorems: whatever the system does, files are only unlinked in that one
    directory, each at most once and no more than planned, and no exception
    gets out; with sane options the arithmetic is defined; and the directories
    are visited in turn, unless one of them cannot be read or something in it
    not be unlinked. *)

From Stdlib Require Import Ascii String ZArith Lia Bool.
From Stdlib Require Import SpecFloat.
From stdpp Require Import base strings list numbers.
From S2P Require Import Prelude.
From S2P Require Import StrUtils.
From S2P Require Import Threeroe.
From S2P Require Import PathUtils.
From S2P Require Import Floats.

#[local] Open Scope Z_scope.

(** ** Definitions *)

(** The settings, of [volatiles_t], that the evictor reads. *)
Record evict_options := EvictOptions {
  dc_maxfiles : Z;
  dc_maxmbytes : Z;
  evict_lwm : float;
  evict_target_fraction : float;
  evict_throttle_lwm : float;
  evict_period_minutes : Z
}.

Record evictor := Evictor {
  dir_to_evict : Z;
  files_evicted : Z;
  files_scanned : Z;
  bytes_scanned : Z;
  overfull : Z;
  injection_probability : float;
  unlinked : list bytes                (* the paths given to unlinkat *)
}.

Definition set_overfull (n : Z) (s : evictor) : evictor :=
  Evictor (dir_to_evict s) (files_evicted s) (files_scanned s) (bytes_scanned s) n
    (injection_probability s) (unlinked s).
Definition set_dir (n : Z) (s : evictor) : evictor :=
  Evictor n (files_evicted s) (files_scanned s) (bytes_scanned s) (overfull s)
    (injection_probability s) (unlinked s).
Definition set_counts (e f b : Z) (s : evictor) : evictor :=
  Evictor (dir_to_evict s) e f b (overfull s) (injection_probability s) (unlinked s).
Definition set_injection (p : float) (s : evictor) : evictor :=
  Evictor (dir_to_evict s) (files_evicted s) (files_scanned s) (bytes_scanned s) (overfull s)
    p (unlinked s).
Definition add_unlinked (p : bytes) (s : evictor) : evictor :=
  Evictor (dir_to_evict s) (files_evicted s) (files_scanned s) (bytes_scanned s) (overfull s)
    (injection_probability s) (unlinked s ++ [p]).

(** What the system answers in one run. *)
Record evict_sys := EvictSys {
  sys_opendir : bytes -> option Z;                      (* its errno *)
  sys_readdir : bytes -> list bytes * option Z;         (* the names, and the errno after them *)
  sys_fstatat : bytes -> bytes -> Z + (Z * Z);          (* errno, or st_mode and st_blocks *)
  sys_unlinkat : bytes -> Z                             (* 0 or its errno *)
}.

(** [reldirname]: [sprintf("%0*x", hexdigits, i)] *)
Fixpoint hex_digits (fuel : nat) (i : Z) : bytes :=
  match fuel with
  | O => []
  | S fuel => (if i <? 16 then [] else hex_digits fuel (i / 16)) ++ [hexlownibble i]
  end.
Definition reldirname (hexdigits i : Z) : bytes :=
  let d := hex_digits 8 i in replicate (Z.to_nat (hexdigits - zlen d)) "0"%char ++ d.

Record scan_result := ScanResult { nbytes : Z; names : list bytes }.

Section Evictor.
Context (hexdigits Ndirs : Z) (opts : evict_options) (os : evict_sys) (pick : Z -> Z -> Z).

Fixpoint scan_names (dir : bytes) (l : list bytes) (ret : scan_result) : outcome scan_result :=
  match l with
  | [] => match (sys_readdir os dir).2 with Some eno => Throw (ESystem eno) | None => Ret ret end
  | fname :: l =>
      match sys_fstatat os dir fname with
      | inl eno => if eno =? ENOENT then scan_names dir l ret else Throw (ESystem eno)
      | inr (st_mode, st_blocks) =>
          if negb (Z.land st_mode S_IFMT =? S_IFREG) then scan_names dir l ret else
          scan_names dir l (ScanResult (u64 (nbytes ret + (st_blocks * 512 + 4096))) (names ret ++ [fname]))
      end
  end.
Definition do_scan (dirnum : Z) : outcome scan_result :=
  let dir := reldirname hexdigits dirnum in
  match sys_opendir os dir with
  | Some eno => Throw (ESystem eno)
  | None => scan_names dir (sys_readdir os dir).1 (ScanResult 0 [])
  end.

(** [std::swap(names[i], names[j])] *)
Definition swap_at (i j : nat) (l : list bytes) : option (list bytes) :=
  a ← l !! i; b ← l !! j; Some (<[j := a]> (<[i := b]> l)).

Fixpoint evict_loop (n : nat) (i : Z) (pfx : bytes) (l : list bytes) : M evictor unit :=
  match n with
  | O => mret tt
  | S n =>
      if zlen l - 1 <? i then lift Undef else           (* uniform_int_distribution(i, size() - 1) *)
      match swap_at (Z.to_nat i) (Z.to_nat (pick i (zlen l - 1))) l with
      | None => lift Undef
      | Some l =>
          match l !! Z.to_nat i with
          | None => lift Undef
          | Some name =>
              modify (add_unlinked (pfx ++ name));;
              let eno := sys_unlinkat os (pfx ++ name) in
              if negb (eno =? 0) && negb (eno =? ENOENT) then raise (ESystem eno)
              else evict_loop n (i + 1) pfx l
          end
      end
  end.
Definition evict (Nevict dir : Z) (sr : scan_result) : M evictor unit :=
  evict_loop (Z.to_nat Nevict) 0 (reldirname hexdigits dir ++ lit "/") (names sr).

(** *** How full the cache is *)

Definition maxfiles_per_dir : float :=
  fdiv F32 (of_int F32 (dc_maxfiles opts)) (of_int F32 Ndirs).
Definition maxbytes_per_dir : float :=
  convert F32 (fdiv F64 (fmul F64 (convert F64 (of_int F32 (dc_maxmbytes opts))) (of_int F64 1000000))
                 (of_int F64 Ndirs)).
Definition filefraction (Nfiles : Z) : float := convert F64 (fdiv F32 (of_int F32 Nfiles) maxfiles_per_dir).
Definition bytefraction (nbytes : Z) : float := convert F64 (fdiv F32 (of_int F32 nbytes) maxbytes_per_dir).
Definition usage_fraction (sr : scan_result) : float :=
  fmax (filefraction (zlen (names sr))) (bytefraction (nbytes sr)).

Definition clip_int (low x high : Z) : Z := if high <? x then high else if x <? low then low else x.
Definition clip_float (low x high : float) : float :=
  if SFltb high x then high else if SFltb x low then low else x.
Definition f0 : float := of_int F64 0.
Definition f1 : float := of_int F64 1.

(** The number of files to evict. *)
Definition evict_number (u : float) (Nfiles : Z) : outcome Z :=
  if SFltb (convert F64 (evict_target_fraction opts)) u then
    let evict_fraction := fdiv F64 (fsub F64 u (convert F64 (evict_lwm opts))) u in
    n ← to_int 32 (fceil F64 (fmul F64 (of_int F64 Nfiles) evict_fraction));
    Ret (u64 (clip_int 0 n (swrap 32 Nfiles)))
  else Ret 0.

Definition inj_prob (u : float) : float :=
  convert F32 (clip_float f0 (fdiv F64 (fsub F64 f1 u) (fsub F64 f1 (convert F64 (evict_throttle_lwm opts)))) f1).

(** In seconds as a [double], and the same in ticks of the system clock. *)
Definition sleepfor (p : float) : float :=
  fmul F64 (fmul F64 (of_int F64 (evict_period_minutes opts)) (of_int F64 60))
    (convert F64 (fdiv F32 p (of_int F32 Ndirs))).
Definition sleep_ticks (p : float) : outcome Z := to_int 64 (fmul F64 (sleepfor p) (of_int F64 1000000000)).

Definition five_minutes : Z := 300 * 1000000000.

Definition next_dir (dir : Z) : Z := let d := u64 (dir + 1) in if Ndirs <=? d then 0 else d.

Definition evict_once : M evictor Z :=
  try_M
    (s ← get;
     let dir := dir_to_evict s in
     scan ← lift (do_scan dir);
     let Nfiles := zlen (names scan) in
     let u := usage_fraction scan in
     (if SFltb f1 u then modify (fun s => set_overfull (u64 (overfull s + 1)) s) else mret tt);;
     Nevict ← lift (evict_number u Nfiles);
     evict Nevict dir scan;;
     modify (set_dir (next_dir dir));;
     (if next_dir dir =? 0 then modify (fun s => set_overfull 0 (set_counts 0 0 0 s)) else mret tt);;
     modify (fun s => set_counts (u64 (files_evicted s + Nevict)) (u64 (files_scanned s + Nfiles))
                        (u64 (bytes_scanned s + nbytes scan)) s);;
     modify (set_injection (inj_prob u));;
     lift (sleep_ticks (inj_prob u)))
    (fun e => modify (set_injection (of_int F32 0));; mret five_minutes).
End Evictor.

(** ** What one run does to the files *)

Lemma swap_at_spec i j l : (i <= j)%nat -> (j < length l)%nat -> exists l' x,
  swap_at i j l = Some l' /\ l' !! i = Some x /\ l' ≡ₚ l /\ take i l' = take i l.
Proof.
  intros Hij Hj. destruct (lookup_lt_is_Some_2 l i ltac:(lia)) as [a Ha].
  destruct (lookup_lt_is_Some_2 l j Hj) as [b Hb].
  exists (<[j := a]> (<[i := b]> l)), b. unfold swap_at. rewrite Ha, Hb. split; [done|].
  destruct (decide (i = j)) as [->|Hne].
  { assert (a = b) as -> by congruence. rewrite !list_insert_id; [done|done|by rewrite list_lookup_insert_eq]. }
  split; [rewrite list_lookup_insert_ne, list_lookup_insert_eq; [done|lia|lia]|].
  rewrite !take_insert_ge by lia. split; [|done].
  apply list_elem_of_split_length in Ha as (l1 & l2 & -> & ->).
  rewrite lookup_app_r in Hb by lia. destruct (j - length l1)%nat as [|k] eqn:Ek; [lia|]. cbn in Hb.
  apply list_elem_of_split_length in Hb as (m & r & -> & ->).
  rewrite insert_app_r_alt, Nat.sub_diag by lia.
  change (<[0%nat := b]> (a :: m ++ b :: r)) with (b :: m ++ b :: r).
  rewrite insert_app_r_alt, Ek by lia.
  change (<[S (length m) := a]> (b :: m ++ b :: r)) with (b :: <[length m := a]> (m ++ b :: r)).
  rewrite insert_app_r_alt, Nat.sub_diag by lia.
  change (<[0%nat := a]> (b :: r)) with (a :: r).
  apply Permutation_app_head. rewrite <- (Permutation_middle m r a), <- (Permutation_middle m r b). apply perm_swap.
Qed.

Section Spec.
Context (hexdigits Ndirs : Z) (opts : evict_options) (os : evict_sys) (pick : Z -> Z -> Z).
Context (Hpick : forall a b, a <= b -> a <= pick a b <= b).

(** The errors that unlinking does not overlook. *)
Definition unlink_fails (eno : Z) : Prop := eno <> 0 /\ eno <> ENOENT /\ exists path, sys_unlinkat os path = eno.

Lemma evict_loop_spec pfx n i l s : 0 <= i -> i + Z.of_nat n <= zlen l ->
  exists l' k, l' ≡ₚ l /\ take (Z.to_nat i) l' = take (Z.to_nat i) l /\ (k <= n)%nat
    /\ let r := evict_loop os pick n i pfx l s in
       r.2 = Evictor (dir_to_evict s) (files_evicted s) (files_scanned s) (bytes_scanned s) (overfull s)
               (injection_probability s)
               (unlinked s ++ map (app pfx) (take k (drop (Z.to_nat i) l')))
       /\ ((r.1 = Ret tt /\ k = n) \/ exists eno, r.1 = Throw (ESystem eno) /\ unlink_fails eno).
Proof.
  revert i l s. induction n as [|n IH]; intros i l s Hi Hn.
  { exists l, 0%nat. split_and!; [done..|]. cbn. rewrite app_nil_r. destruct s; auto. }
  cbn [evict_loop]. rewrite (proj2 (Z.ltb_ge _ _)) by lia.
  pose proof (Hpick i (zlen l - 1) ltac:(lia)) as Hp. unfold zlen in *.
  destruct (swap_at_spec (Z.to_nat i) (Z.to_nat (pick i (Z.of_nat (length l) - 1))) l) as (l1 & x & -> & Hx & Hl1 & Ht);
    [lia|lia|].
  rewrite Hx. rewrite (M_bind_Ret _ _ s tt (add_unlinked (pfx ++ x) s)) by done. cbv zeta.
  assert (length l1 = length l) as Hlen by by rewrite Hl1.
  assert (forall l', take (Z.to_nat (i + 1)) l' = take (Z.to_nat (i + 1)) l1 ->
    drop (Z.to_nat i) l' = x :: drop (Z.to_nat (i + 1)) l') as Hdrop.
  { intros l' E. replace (Z.to_nat (i + 1)) with (S (Z.to_nat i)) in * by lia. apply drop_S.
    rewrite <- (lookup_take_lt l' (S (Z.to_nat i)) (Z.to_nat i)) by lia. rewrite E. by rewrite lookup_take_lt by lia. }
  destruct (negb (sys_unlinkat os (pfx ++ x) =? 0) && negb (sys_unlinkat os (pfx ++ x) =? ENOENT)) eqn:Ebad.
  - exists l1, 1%nat. split_and!; [done|done|lia|by rewrite (Hdrop l1) by done|].
    right. eexists. split; [done|]. apply andb_true_iff in Ebad as [E1 E2]. repeat split; [lia|lia|by eexists].
  - destruct (IH (i + 1) l1 (add_unlinked (pfx ++ x) s)) as (l' & k & Hl' & Ht' & Hk & H1 & H2); [lia|lia|].
    exists l', (S k). split; [by rewrite Hl'|]. split.
    { replace (Z.to_nat (i + 1)) with (S (Z.to_nat i)) in Ht' by lia.
      apply (f_equal (take (Z.to_nat i))) in Ht'. rewrite !take_take in Ht'.
      replace (Z.to_nat i `min` S (Z.to_nat i))%nat with (Z.to_nat i) in Ht' by lia. by rewrite Ht'. }
    split; [lia|]. cbv zeta in *. rewrite H1, (Hdrop l' Ht'). cbn. split; [by rewrite <- app_assoc|].
    destruct H2 as [[H2 ->]|H2]; [by left|by right].
Qed.

Lemma to_int_cases w x : (exists z, to_int w x = Ret z) \/ to_int w x = Undef.
Proof. destruct x; cbn; eauto. destruct (_ && _); eauto. Qed.

Lemma sleep_ticks_nothrow p e : sleep_ticks Ndirs opts p <> Throw e.
Proof. unfold sleep_ticks. by destruct (to_int_cases 64 (fmul F64 (sleepfor Ndirs opts p) (of_int F64 1000000000))) as [[z ->]| ->]. Qed.

(** Only regular files are in a scan. *)
Definition regular (dir name : bytes) : Prop :=
  exists mode blocks, sys_fstatat os dir name = inr (mode, blocks) /\ Z.land mode S_IFMT = S_IFREG.

Lemma scan_names_regular dir l ret sr : scan_names os dir l ret = Ret sr ->
  Forall (regular dir) (names ret) -> Forall (regular dir) (names sr).
Proof.
  revert ret. induction l as [|x l IH]; intros ret H Hr; cbn [scan_names] in H.
  - destruct (sys_readdir os dir).2; [done|]. by injection H as <-.
  - destruct (sys_fstatat os dir x) as [eno|[mode blocks]] eqn:Ef; [destruct (eno =? ENOENT); [by eauto|done]|].
    destruct (Z.eqb_spec (Z.land mode S_IFMT) S_IFREG); cbn [negb] in H; [|by eauto].
    apply IH in H; [done|]. cbn. apply Forall_app. split; [done|]. apply Forall_singleton. by eexists _, _.
Qed.

Lemma scan_names_length dir l ret sr : scan_names os dir l ret = Ret sr ->
  zlen (names sr) <= zlen (names ret) + zlen l.
Proof.
  revert ret. induction l as [|x l IH]; intros ret H; cbn [scan_names] in H; rewrite ?zlen_nil, ?zlen_cons.
  - destruct (sys_readdir os dir).2; [done|]. injection H as <-. lia.
  - destruct (sys_fstatat os dir x) as [eno|[mode blocks]]; [destruct (eno =? ENOENT); [apply IH in H; lia|done]|].
    destruct (negb _); apply IH in H; [lia|]. cbn [names] in H. rewrite zlen_app in H. change (zlen [x]) with 1 in H. lia.
Qed.

Lemma scan_names_defined dir l ret : scan_names os dir l ret <> Undef.
Proof.
  revert ret. induction l as [|x l IH]; intros ret; cbn [scan_names]; repeat case_match; done || apply IH.
Qed.

Lemma do_scan_Ret dir sr : do_scan hexdigits os dir = Ret sr ->
  Forall (regular (reldirname hexdigits dir)) (names sr)
  /\ zlen (names sr) <= zlen (sys_readdir os (reldirname hexdigits dir)).1.
Proof.
  unfold do_scan. destruct (sys_opendir os _); [done|]. intros H. split.
  - by eapply scan_names_regular.
  - apply scan_names_length in H. cbn [names] in H. rewrite zlen_nil in H. lia.
Qed.
Lemma do_scan_defined dir : do_scan hexdigits os dir <> Undef.
Proof. unfold do_scan. destruct (sys_opendir os _); [done|]. apply scan_names_defined. Qed.

Lemma scan_names_bytes dir l ret sr : scan_names os dir l ret = Ret sr ->
  0 <= nbytes ret < 2 ^ 64 -> 0 <= nbytes sr < 2 ^ 64.
Proof.
  revert ret. induction l as [|x l IH]; intros ret H Hr; cbn [scan_names] in H.
  - destruct (sys_readdir os dir).2; [done|]. by injection H as <-.
  - destruct (sys_fstatat os dir x) as [eno|[mode blocks]]; [destruct (eno =? ENOENT); [by eauto|done]|].
    destruct (negb _); [by eauto|]. apply IH in H; [done|]. cbn [nbytes]. apply wrap_range. lia.
Qed.
Lemma do_scan_bytes dir sr : do_scan hexdigits os dir = Ret sr -> 0 <= nbytes sr < 2 ^ 64.
Proof. unfold do_scan. destruct (sys_opendir os _); [done|]. intros H. by eapply scan_names_bytes. Qed.

Lemma evict_number_range u N n : 0 <= N < 2 ^ 31 -> evict_number opts u N = Ret n -> 0 <= n <= N.
Proof.
  intros HN. unfold evict_number. destruct (SFltb _ _); [|intros [= <-]; lia].
  intros H. apply bind_Ret in H as (x & _ & H). apply Ret_inj in H as <-.
  rewrite swrap_small by lia. unfold clip_int. rewrite wrap_small; destruct (N <? x) eqn:E1; try lia;
    destruct (x <? 0) eqn:E2; lia.
Qed.
Lemma evict_number_nothrow u N e : evict_number opts u N <> Throw e.
Proof.
  unfold evict_number. destruct (SFltb _ _); [|done]. destruct (to_int_cases 32 (fceil F64
    (fmul F64 (of_int F64 N) (fdiv F64 (fsub F64 u (convert F64 (evict_lwm opts))) u)))) as [[z ->]| ->]; done.
Qed.

(** How one run ends: with the planned number of files unlinked and the next
    directory next; or with an error, after which nothing is to be written and
    the same directory is tried again in five minutes; or by arithmetic that
    is not defined. *)
Definition run_ends (s s' : evictor) (removed : list bytes) (o : outcome Z) : Prop :=
  match o with
  | Ret t =>
      (exists sr, do_scan hexdigits os (dir_to_evict s) = Ret sr
         /\ evict_number opts (usage_fraction Ndirs opts sr) (zlen (names sr)) = Ret (zlen removed)
         /\ dir_to_evict s' = next_dir Ndirs (dir_to_evict s)
         /\ injection_probability s' = inj_prob opts (usage_fraction Ndirs opts sr)
         /\ sleep_ticks Ndirs opts (injection_probability s') = Ret t)
      \/ (t = five_minutes /\ dir_to_evict s' = dir_to_evict s /\ injection_probability s' = of_int F32 0
          /\ ((exists e, do_scan hexdigits os (dir_to_evict s) = Throw e) \/ exists eno, unlink_fails eno))
  | Throw _ => False
  | Undef => exists sr, do_scan hexdigits os (dir_to_evict s) = Ret sr
      /\ let u := usage_fraction Ndirs opts sr in
         evict_number opts u (zlen (names sr)) = Undef
         \/ sleep_ticks Ndirs opts (inj_prob opts u) = Undef
  end.

Lemma evict_once_facts s : zlen (sys_readdir os (reldirname hexdigits (dir_to_evict s))).1 < 2 ^ 31 ->
  let dir := reldirname hexdigits (dir_to_evict s) in
  let r := evict_once hexdigits Ndirs opts os pick s in
  exists removed, unlinked r.2 = unlinked s ++ map (app (dir ++ lit "/")) removed
    /\ Forall (regular dir) removed
    /\ (forall sr, do_scan hexdigits os (dir_to_evict s) = Ret sr -> exists kept, removed ++ kept ≡ₚ names sr)
    /\ run_ends s r.2 removed r.1.
Proof.
  intros Hlen dir r. unfold r, evict_once, try_M. rewrite (M_bind_Ret get _ s s s) by done. cbv beta zeta.
  destruct (do_scan hexdigits os (dir_to_evict s)) as [sr|e|] eqn:Escan; [| |by apply do_scan_defined in Escan].
  2: { exists []. cbn. rewrite app_nil_r. split_and!; [done|done|done|]. right. split_and!; [done..|]. left. by exists e. }
  rewrite (lift_bind _ _ _ _ (eq_refl (Ret sr))). cbv beta.
  destruct (do_scan_Ret _ _ Escan) as [Hreg Hn]. set (u := usage_fraction Ndirs opts sr) in *.
  set (s0 := if SFltb f1 u then set_overfull (u64 (overfull s + 1)) s else s).
  rewrite (M_bind_Ret _ _ s tt s0) by (unfold s0; by destruct (SFltb f1 u)).
  assert (unlinked s0 = unlinked s /\ dir_to_evict s0 = dir_to_evict s) as [Hu Hd] by (unfold s0; by destruct (SFltb f1 u)).
  destruct (evict_number opts u (zlen (names sr))) as [n|e|] eqn:En; [|by apply evict_number_nothrow in En|].
  2: { exists []. cbn. rewrite app_nil_r. split_and!; [done|done|intros sr' [= <-]; by exists (names sr)|].
       exists sr. split; [done|]. by left. }
  rewrite (lift_bind _ _ _ _ (eq_refl (Ret n))). cbv beta. unfold evict.
  pose proof (zlen_nonneg (names sr)).
  apply evict_number_range in En as Hrange; [|lia].
  destruct (evict_loop_spec (dir ++ lit "/") (Z.to_nat n) 0 (names sr) s0) as (l' & k & Hl' & _ & Hk & H1 & H2); [done|lia|].
  cbv zeta in H1, H2. fold dir. change (Z.to_nat 0) with 0%nat in H1. cbn [drop] in H1.
  assert (length (take k l') = k) as Hlenk.
  { rewrite length_take, Hl'. apply Nat.min_l. unfold zlen in Hrange. lia. }
  assert (Forall (regular dir) (take k l')) as Hreg'.
  { apply Forall_take. by rewrite Hl'. }
  assert (exists kept, take k l' ++ kept ≡ₚ names sr) as Hkept.
  { exists (drop k l'). by rewrite take_drop. }
  exists (take k l'). destruct (evict_loop os pick (Z.to_nat n) 0 (dir ++ lit "/") (names sr) s0) as [o s1] eqn:El.
  cbn [fst snd] in H1, H2. destruct H2 as [[-> ->]|(eno & -> & Hbad)].
  - rewrite (M_bind_Ret _ _ s0 tt s1) by done. rewrite (M_bind_Ret (modify _) _ s1 tt (set_dir (next_dir Ndirs (dir_to_evict s)) s1)) by done.
    set (s2 := set_dir _ s1).
    set (s3 := if next_dir Ndirs (dir_to_evict s) =? 0 then set_overfull 0 (set_counts 0 0 0 s2) else s2).
    rewrite (M_bind_Ret _ _ s2 tt s3) by (unfold s3; by destruct (_ =? 0)).
    rewrite (M_bind_Ret (modify _) _ s3 tt _) by reflexivity.
    match goal with |- context [(modify (set_injection ?p);; _) ?x] => set (s4 := x) end.
    rewrite (M_bind_Ret (modify _) _ s4 tt (set_injection (inj_prob opts u) s4)) by done.
    assert (unlinked s4 = unlinked s1 /\ dir_to_evict s4 = next_dir Ndirs (dir_to_evict s)) as [Hu4 Hd4]
      by (unfold s4, s3; by destruct (_ =? 0)).
    assert (zlen (take (Z.to_nat n) l') = n) as Hz by (unfold zlen; rewrite Hlenk; lia).
    assert (unlinked (set_injection (inj_prob opts u) s4)
            = unlinked s ++ map (app (dir ++ lit "/")) (take (Z.to_nat n) l')) as Hun
      by (change (unlinked s4 = unlinked s ++ map (app (dir ++ lit "/")) (take (Z.to_nat n) l'));
          rewrite Hu4, H1; cbn [unlinked]; by rewrite Hu).
    unfold lift. destruct (sleep_ticks Ndirs opts (inj_prob opts u)) as [t|e|] eqn:Et; cbn [fst snd].
    + split_and!; [by rewrite Hun|done|intros sr' [= <-]; done|].
      left. exists sr. split; [done|]. rewrite Hz. split; [done|]. split; [by rewrite <- Hd4|by split].
    + by destruct (sleep_ticks_nothrow _ _ Et).
    + split_and!; [by rewrite Hun|done|intros sr' [= <-]; done|].
      exists sr. split; [done|]. by right.
  - rewrite (M_bind_Throw _ _ s0 (ESystem eno) s1) by done. cbn [fst snd].
    split_and!; [|done|intros sr' [= <-]; done|]; [|right]; rewrite H1; [by rewrite <- Hu|].
    split_and!; [done|done|done|]. right. by exists eno.
Qed.

(** C25.  A run of the evictor, whatever the system answers and whatever the
    random engine picks: the paths it unlinks are in the directory whose turn
    it is, are names of regular files the scan found there, each as often as
    the scan found it, and are as many as planned unless a call fails; and
    no exception gets out of it. *)
Theorem evict_once_spec s : zlen (sys_readdir os (reldirname hexdigits (dir_to_evict s))).1 < 2 ^ 31 ->
  let dir := reldirname hexdigits (dir_to_evict s) in
  let r := evict_once hexdigits Ndirs opts os pick s in
  exists removed, unlinked r.2 = unlinked s ++ map (app (dir ++ lit "/")) removed
    /\ Forall (regular dir) removed
    /\ (forall sr, do_scan hexdigits os (dir_to_evict s) = Ret sr -> exists kept, removed ++ kept ≡ₚ names sr)
    /\ run_ends s r.2 removed r.1.
Proof. apply evict_once_facts. Qed.
End Spec.

(** ** The arithmetic is defined *)

(** The settings with which it is: at least one file and one megabyte, a target
    of at least a half, a low water mark of at most about one, and a throttle
    that is not one. *)
Record sane (h : Z) (opts : evict_options) : Prop := Sane {
  sane_h : 1 <= h <= 4;
  sane_files : 0 < dc_maxfiles opts < 2 ^ 40;
  sane_mbytes : 0 < dc_maxmbytes opts < 2 ^ 40;
  sane_lwm : small F32 0 (evict_lwm opts);
  sane_target : exists hi, hi < 100 /\ fin F32 false (-1) hi (evict_target_fraction opts);
  sane_throttle : exists s lo, -100 <= lo
    /\ fin F64 s lo 100 (fsub F64 f1 (convert F64 (evict_throttle_lwm opts)));
  sane_period : 0 <= evict_period_minutes opts < 2 ^ 19
}.

Lemma log2_lt z k : 0 < z < 2 ^ k -> 0 <= Z.log2 z < k.
Proof. intros [H1 H2]. split; [apply Z.log2_nonneg|]. by apply Z.log2_lt_pow2. Qed.

#[local] Ltac fmt := unfold F32, F64 in *; cbn [fst snd] in *; lia.

Lemma f1_fin : fin F64 false 0 0 f1.
Proof. exists 4503599627370496%positive, (-52). by vm_compute. Qed.

(** A count, that may be zero. *)
Lemma of_int_small f z k : 1 < f.1 /\ f.1 < f.2 -> 0 <= z < 2 ^ k -> 0 <= k -> k + 1 < f.2 -> 3 - f.2 - f.1 <= 0 ->
  small f k (of_int f z).
Proof.
  intros Hf Hz Hk Hl Hm. destruct (Z.eq_dec z 0) as [->|Hz0].
  - left. by exists false.
  - pose proof (log2_lt z k ltac:(lia)). eapply small_weaken; [eapply fin_small, of_int_fin|]; [done|lia|lia|lia|lia].
Qed.

(** What is below, and not above, one. *)
Lemma clip_one hi x : small F64 hi x -> small F64 0 (clip_float f0 x f1).
Proof.
  intros Hx. unfold clip_float. destruct (SFltb f1 x) eqn:E1; [by eapply fin_small, f1_fin|].
  destruct (SFltb x f0) eqn:E2; [left; by exists false|].
  destruct Hx as [Hx|(s & lo & m & e & -> & Ee & Hx)]; [by left|]. right.
  destruct s; [done|]. exists false, lo, m, e. split_and!; [done|done|lia|].
  rewrite fexp_eq in Ee by fmt. change f1 with (S754_finite false 4503599627370496 (-52)) in E1.
  unfold SFltb, SFcompare in E1. unfold flog2 in *.
  destruct (Z.compare_spec (-52) e) as [He|He|He]; [|done|fmt].
  subst e. destruct (Pos.compare_cont Eq _ m) eqn:Ec; [|done|].
  - apply (Pos.compare_eq 4503599627370496 m) in Ec. subst m. by vm_compute.
  - change (Pos.compare_cont Eq 4503599627370496 m) with (Pos.compare 4503599627370496 m) in Ec.
    apply Pos.compare_gt_iff, Pos2Z.pos_lt_pos, Z.lt_le_incl, Z.log2_le_mono in Ec.
    change (Z.log2 4503599627370496) with 52 in Ec. lia.
Qed.

Section Sane.
Context (h : Z) (opts : evict_options) (Hs : sane h opts).
#[local] Abbreviation Ndirs := (2 ^ (4 * h)).

Lemma Ndirs_log2 : Z.log2 Ndirs = 4 * h /\ 0 < Ndirs.
Proof.
  destruct Hs as [Hh _ _ _ _ _ _]. split; [apply Z.log2_pow2; lia|apply Z.pow_pos_nonneg; lia].
Qed.

Lemma Ndirs_fin f : f = F32 \/ f = F64 -> fin f false 4 17 (of_int f Ndirs).
Proof.
  intros Hf. destruct Ndirs_log2 as [Hl Hp]. destruct Hs as [Hh _ _ _ _ _ _].
  eapply fin_weaken; [apply of_int_fin|..]; destruct Hf as [-> | ->]; fmt || done.
Qed.

Lemma maxfiles_fin : fin F32 false (-18) 37 (maxfiles_per_dir Ndirs opts).
Proof.
  destruct Hs as [_ Hm _ _ _ _ _]. pose proof (log2_lt _ _ Hm).
  eapply (fin_weaken _ (xorb false false)); [eapply fdiv_fin|..]; [by split| |by apply Ndirs_fin; left|..];
    [apply of_int_fin; [by split|lia|fmt|fmt]|fmt..].
Qed.

Lemma maxbytes_fin : fin F32 false 0 61 (maxbytes_per_dir Ndirs opts).
Proof.
  destruct Hs as [_ _ Hm _ _ _ _]. pose proof (log2_lt _ _ Hm).
  unfold maxbytes_per_dir.
  eapply (fin_weaken F32 (xorb (xorb false false) false)); [eapply convert_fin_to; [by split|eapply fdiv_fin|..]|..].
  - by split.
  - eapply fmul_fin; [by split|eapply convert_fin_to; [by split|apply of_int_fin; [by split|lia|fmt|fmt]|fmt|fmt]|
      apply of_int_fin; [by split|done|done|done]|..]; change (Z.log2 1000000) with 19; fmt.
  - apply Ndirs_fin. by right.
  - change (Z.log2 1000000) with 19. fmt.
  - change (Z.log2 1000000) with 19. fmt.
  - change (Z.log2 1000000) with 19. fmt.
  - change (Z.log2 1000000) with 19. fmt.
  - change (Z.log2 1000000) with 19. fmt.
  - change (Z.log2 1000000) with 19. fmt.
Qed.

(** Each fraction is a small number, and the larger of the two is one of them. *)
Lemma fraction_small n k mx hi lo : 0 <= n < 2 ^ k -> 0 <= k <= 64 -> -18 <= lo -> fin F32 false lo hi mx ->
  small F64 (k + 20) (convert F64 (fdiv F32 (of_int F32 n) mx)).
Proof.
  intros Hn Hk Hlo Hmx. eapply small_weaken; [eapply convert_small; [by split|eapply fdiv_small|..]|..].
  - by split.
  - by apply of_int_small; [by split|exact Hn|lia|fmt|fmt].
  - exact Hmx.
  - fmt.
  - fmt.
  - fmt.
  - fmt.
Qed.

Lemma usage_small sr : zlen (names sr) < 2 ^ 21 -> 0 <= nbytes sr < 2 ^ 64 ->
  small F64 84 (usage_fraction Ndirs opts sr).
Proof.
  intros Hn Hb. unfold usage_fraction, fmax.
  destruct (SFltb _ _).
  - eapply small_weaken; [eapply (fraction_small _ 64); [done|lia|..|apply maxbytes_fin]|]; lia.
  - pose proof (zlen_nonneg (names sr)).
    eapply small_weaken; [eapply (fraction_small _ 21); [lia|lia|..|apply maxfiles_fin]|]; lia.
Qed.

(** Above the target, the number to evict is defined. *)
Lemma evict_number_defined u N : small F64 84 u -> 0 <= N < 2 ^ 21 -> exists n, evict_number opts u N = Ret n.
Proof.
  intros Hu HN. unfold evict_number. destruct (SFltb (convert F64 (evict_target_fraction opts)) u) eqn:Elt; [|by eexists].
  destruct Hs as [_ _ _ Hlwm (hi & Hhi & Ht) _ _].
  eapply convert_fin_to in Ht; [|instantiate (1 := F64); by split|fmt|fmt].
  destruct Hu as [[a ->]|(s & lo & Hu)].
  { destruct Ht as (m & e & Et & _). rewrite Et in Elt. by destruct a. }
  assert (exists t, -1 <= t <= 84 /\ fin F64 s t t u) as (t & Ht1 & Hut).
  { destruct s.
    - destruct Ht as (m & e & Et & _), Hu as (m' & e' & -> & _). by rewrite Et in Elt.
    - destruct (fltb_exps F64 _ _ _ _ _ _ Ht Hu Elt) as (m & e & m' & e' & Em & -> & Hle).
      destruct Hu as (? & ? & [= <- <-] & Ex & Hx), Ht as (? & ? & Et & _ & Ht).
      rewrite Em in Et. injection Et as <- <-. exists (flog2 m' e'). split; [lia|]. by exists m', e'. }
  destruct (to_int_small F64 32 30 (fceil F64 (fmul F64 (of_int F64 N)
      (fdiv F64 (fsub F64 u (convert F64 (evict_lwm opts))) u)))) as (z & -> & _); [lia| |lia|lia|by eexists].
  eapply (small_weaken _ 30); [|lia]. apply (fceil_small F64 28); [by split| |lia|fmt].
  eapply (small_weaken _ (21 + 5 + 2)); [|lia]. apply fmul_small; [by split|by apply of_int_small; [by split|..]|..|fmt|fmt|fmt].
  eapply small_weaken; [eapply (fdiv_small F64 ltac:(by split) (Z.max t 1 + 2)); [|exact Hut|fmt|fmt]|].
  - apply (fsub_small F64 ltac:(by split) t 1 _ _ (Z.max t 1)); [by eapply fin_small| |lia|lia|fmt|fmt].
    eapply small_weaken; [eapply convert_small; [by split|exact Hlwm|fmt]|fmt].
  - fmt.
Qed.

Lemma sleep_defined u : small F64 84 u -> exists n, sleep_ticks Ndirs opts (inj_prob opts u) = Ret n.
Proof.
  intros Hu. destruct Hs as [_ _ _ _ _ (s & lo & Hlo & Ht) Hp]. unfold sleep_ticks, sleepfor.
  assert (small F32 1 (inj_prob opts u)) as Hi.
  { unfold inj_prob. eapply small_weaken; [eapply convert_small; [by split|eapply clip_one|fmt]|fmt].
    eapply (fdiv_small F64 ltac:(by split) (84 + 2)); [|exact Ht|fmt|fmt].
    apply (fsub_small F64 ltac:(by split) 0 84 _ _ 84); [eapply fin_small, f1_fin|exact Hu|lia|lia|fmt|fmt]. }
  destruct (to_int_small F64 64 62 (fmul F64 (fmul F64 (fmul F64 (of_int F64 (evict_period_minutes opts)) (of_int F64 60))
     (convert F64 (fdiv F32 (inj_prob opts u) (of_int F32 Ndirs)))) (of_int F64 1000000000))) as (z & -> & _);
    [lia| |lia|lia|by eexists].
  assert (forall x hx z, small F64 hx x -> -2 <= hx <= 40 -> 0 < z < 2 ^ 30 ->
    small F64 (hx + (Z.log2 z + 1) + 2) (fmul F64 x (of_int F64 z))) as Hmul.
  { intros x hx z Hx Hh Hz. pose proof (log2_lt z 30 Hz).
    apply fmul_small; [by split|done|eapply fin_small, of_int_fin; [by split|lia|fmt|fmt]|fmt|fmt|fmt]. }
  eapply (small_weaken _ (28 + (29 + 1) + 2)); [|lia]. apply (Hmul _ 28); [|lia|lia].
  eapply (small_weaken _ (27 + (-1) + 2)); [|lia]. apply fmul_small; [by split|..|fmt|fmt|fmt].
  - apply (Hmul _ 19); [apply of_int_small; [by split|lia|lia|fmt|fmt]|lia|lia].
  - eapply (small_weaken F64 (Z.max (-2 + 1) (3 - F64.2 - F64.1))); [apply (convert_small F32 F64 (-2)); [by split| |fmt]|fmt].
    eapply (small_weaken F32); [apply (fdiv_small F32 ltac:(by split) 1 false 4 17); [exact Hi| |fmt|fmt]|fmt].
    apply Ndirs_fin. by left.
Qed.
End Sane.

(** ** Runs *)

(** A cache whose directories can be read, and whose files can be unlinked. *)
Definition healthy (os : evict_sys) : Prop := forall dir,
  sys_opendir os dir = None /\ (sys_readdir os dir).2 = None /\ zlen (sys_readdir os dir).1 < 2 ^ 21
  /\ (forall name eno, sys_fstatat os dir name = inl eno -> eno = ENOENT)
  /\ (forall path, sys_unlinkat os path = 0 \/ sys_unlinkat os path = ENOENT).
Definition picks (pick : Z -> Z -> Z) : Prop := forall a b, a <= b -> a <= pick a b <= b.

Lemma healthy_scan hexdigits os d : healthy os -> exists sr, do_scan hexdigits os d = Ret sr.
Proof.
  intros Hh. unfold do_scan. destruct (Hh (reldirname hexdigits d)) as (-> & He & _ & Hf & _).
  generalize (ScanResult 0 []) as ret. induction ((sys_readdir os (reldirname hexdigits d)).1) as [|x l IH]; intros ret; cbn.
  - rewrite He. by eexists.
  - destruct (sys_fstatat os (reldirname hexdigits d) x) as [eno|[mode blocks]] eqn:Ef.
    + rewrite (Hf _ _ Ef). apply IH.
    + by destruct (negb _).
Qed.

(** Run after run: the directories whose turn it was, and the state. *)
Fixpoint evict_runs (hexdigits Ndirs : Z) (opts : evict_options) (l : list (evict_sys * (Z -> Z -> Z))) (s : evictor)
  : list Z * evictor :=
  match l with
  | [] => ([], s)
  | (os, pick) :: l =>
      let q := evict_runs hexdigits Ndirs opts l (evict_once hexdigits Ndirs opts os pick s).2 in
      (dir_to_evict s :: q.1, q.2)
  end.

Section Runs.
Context (h : Z) (opts : evict_options) (Hs : sane h opts).
#[local] Abbreviation Ndirs := (2 ^ (4 * h)).

(** With sane settings a run returns, and only an error of the system keeps
    it from going on to the next directory. *)
Lemma sane_run os pick s : picks pick -> zlen (sys_readdir os (reldirname h (dir_to_evict s))).1 < 2 ^ 21 ->
  exists t, let r := evict_once h Ndirs opts os pick s in
    r.1 = Ret t /\ (healthy os -> dir_to_evict r.2 = next_dir Ndirs (dir_to_evict s)).
Proof.
  intros Hp Hn. cbv zeta.
  destruct (evict_once_facts h Ndirs opts os pick Hp s) as (removed & _ & _ & _ & H); [lia|].
  destruct (evict_once h Ndirs opts os pick s) as [o s']. cbn [fst snd] in *.
  destruct o as [t|e|]; cbn [run_ends] in H.
  - exists t. split; [done|]. intros Hh. destruct H as [(sr & _ & _ & H & _)|(_ & _ & _ & [[e H]|(eno & H0 & H1 & path & <-)])]; [done|..].
    + destruct (healthy_scan h os (dir_to_evict s) Hh) as [sr E]. congruence.
    + destruct (Hh []) as (_ & _ & _ & _ & Hun). destruct (Hun path); lia.
  - done.
  - exfalso. destruct H as (sr & Hsr & H).
    pose proof (do_scan_bytes _ _ _ _ Hsr) as Hb. destruct (do_scan_Ret _ _ _ _ Hsr) as [_ Hl].
    pose proof (zlen_nonneg (names sr)). pose proof (usage_small h opts Hs sr ltac:(lia) Hb) as Hu.
    destruct H as [H|H].
    + destruct (evict_number_defined h opts Hs _ (zlen (names sr)) Hu ltac:(lia)) as [n E]. congruence.
    + destruct (sleep_defined h opts Hs _ Hu) as [n E]. congruence.
Qed.

(** C40.  With sane settings, and fewer than two million names in a directory,
    no conversion of a floating-point number in a run is undefined, and the
    run returns the time until the next one. *)
Theorem evict_once_defined os pick s : picks pick ->
  zlen (sys_readdir os (reldirname h (dir_to_evict s))).1 < 2 ^ 21 ->
  exists t, (evict_once h Ndirs opts os pick s).1 = Ret t.
Proof. intros Hp Hn. destruct (sane_run os pick s Hp Hn) as (t & H & _). by exists t. Qed.

Lemma next_dir_mod d : 0 <= d < Ndirs -> next_dir Ndirs d = (d + 1) mod Ndirs.
Proof.
  intros Hd. assert (Ndirs <= 2 ^ 16) by (destruct Hs; apply Z.pow_le_mono_r; lia).
  unfold next_dir. rewrite wrap_small by lia. destruct (Z.leb_spec Ndirs (d + 1)).
  - replace (d + 1) with Ndirs by lia. symmetry. apply Z.mod_same. lia.
  - symmetry. apply Z.mod_small. lia.
Qed.

Lemma healthy_runs l s : 0 <= dir_to_evict s < Ndirs -> Forall (fun p => healthy p.1 /\ picks p.2) l ->
  let q := evict_runs h Ndirs opts l s in
  dir_to_evict q.2 = (dir_to_evict s + zlen l) mod Ndirs
  /\ forall i, 0 <= i < zlen l -> (dir_to_evict s + i) mod Ndirs ∈ q.1.
Proof.
  revert s. induction l as [|[os pick] l IH]; intros s Hd Hl; cbn.
  - rewrite zlen_nil, Z.add_0_r, Z.mod_small by done. split; [done|lia].
  - apply Forall_cons_1 in Hl as [[Hh Hp] Hl]. cbn in Hh, Hp.
    destruct (sane_run os pick s Hp) as (t & _ & Hnext); [by apply Hh|]. specialize (Hnext Hh).
    rewrite (next_dir_mod _ Hd) in Hnext.
    destruct (IH (evict_once h Ndirs opts os pick s).2) as [E1 E2]; [rewrite Hnext; apply Z.mod_pos_bound; lia|done|].
    rewrite zlen_cons. split.
    + rewrite E1, Hnext, Zplus_mod_idemp_l. f_equal. lia.
    + intros i Hi. destruct (Z.eq_dec i 0) as [->|].
      * rewrite Z.add_0_r, Z.mod_small by done. by left.
      * right. specialize (E2 (i - 1) ltac:(lia)). rewrite Hnext, Zplus_mod_idemp_l in E2.
        by replace (dir_to_evict s + 1 + (i - 1)) with (dir_to_evict s + i) in E2 by lia.
Qed.

Lemma stuck_run os pick s eno : sys_opendir os (reldirname h (dir_to_evict s)) = Some eno ->
  evict_once h Ndirs opts os pick s = (Ret five_minutes, set_injection (of_int F32 0) s).
Proof.
  intros E. unfold evict_once, try_M. rewrite (M_bind_Ret get _ s s s) by done. cbv beta zeta.
  unfold do_scan. by rewrite E.
Qed.

(** With sane settings a run goes on to the next directory, or a call for this
    one, or an unlinking, failed and the same directory is kept. *)
Lemma run_advances os pick s : 0 <= dir_to_evict s < Ndirs -> picks pick ->
  zlen (sys_readdir os (reldirname h (dir_to_evict s))).1 < 2 ^ 21 ->
  let r := evict_once h Ndirs opts os pick s in
  dir_to_evict r.2 = (dir_to_evict s + 1) mod Ndirs
  \/ (r.1 = Ret five_minutes /\ dir_to_evict r.2 = dir_to_evict s /\ injection_probability r.2 = of_int F32 0
      /\ ((exists e, do_scan h os (dir_to_evict s) = Throw e) \/ exists eno, unlink_fails os eno)).
Proof.
  intros Hd Hp Hn. cbv zeta. destruct (sane_run os pick s Hp Hn) as (t & Ht & _).
  destruct (evict_once_facts h Ndirs opts os pick Hp s) as (removed & _ & _ & _ & H); [lia|].
  destruct (evict_once h Ndirs opts os pick s) as [o s']. cbn [fst snd] in *. subst o. cbn [run_ends] in H.
  destruct H as [(sr & _ & _ & H & _)|(-> & H)]; [left|by right]. by rewrite H, next_dir_mod.
Qed.

(** C26.  The turns of the evictor, with sane settings.  While every call on the
    directories succeeds, every name can be unlinked (or is gone already), and
    there are fewer than two million names in each, as many runs as there are
    directories visit each of them and come back to the first.  Any run over so
    few names either goes on to the next directory, or a call for this directory, or an
    unlinking, failed: then the injection probability is 0, and the next run
    is for the same directory in five minutes.  So a directory that cannot be
    opened holds the evictor up: as long as it cannot, every run is for that
    same directory and nothing is unlinked anywhere. *)
Theorem evictor_turns l s : 0 <= dir_to_evict s < Ndirs ->
  let q := evict_runs h Ndirs opts l s in
  (Forall (fun p => healthy p.1 /\ picks p.2) l -> zlen l = Ndirs ->
   (forall d, 0 <= d < Ndirs -> d ∈ q.1) /\ dir_to_evict q.2 = dir_to_evict s)
  /\ (forall os pick, picks pick -> zlen (sys_readdir os (reldirname h (dir_to_evict s))).1 < 2 ^ 21 ->
      let r := evict_once h Ndirs opts os pick s in
      dir_to_evict r.2 = (dir_to_evict s + 1) mod Ndirs
      \/ (r.1 = Ret five_minutes /\ dir_to_evict r.2 = dir_to_evict s
          /\ injection_probability r.2 = of_int F32 0
          /\ ((exists e, do_scan h os (dir_to_evict s) = Throw e) \/ exists eno, unlink_fails os eno)))
  /\ (Forall (fun p => is_Some (sys_opendir p.1 (reldirname h (dir_to_evict s)))) l -> l <> [] ->
      q.1 = replicate (length l) (dir_to_evict s) /\ q.2 = set_injection (of_int F32 0) s).
Proof.
  intros Hd q. split; [intros Hl Hlen|split; [intros os pick Hp Hn; by apply run_advances|]].
  - destruct (healthy_runs l s Hd Hl) as [E1 E2]. rewrite Hlen in E1, E2. split.
    + intros d Hd'. pose proof (Z.mod_pos_bound (d - dir_to_evict s) Ndirs ltac:(lia)) as Hb. specialize (E2 _ Hb).
      rewrite Zplus_mod_idemp_r in E2.
      replace (dir_to_evict s + (d - dir_to_evict s)) with d in E2 by lia. by rewrite Z.mod_small in E2 by done.
    + unfold q. rewrite E1. rewrite <- Zplus_mod_idemp_r, Z.mod_same, Z.add_0_r by lia. by apply Z.mod_small.
  - unfold q. clear q. revert s Hd. induction l as [|[os pick] l IH]; intros s Hd Hl Hne; [done|].
    apply Forall_cons_1 in Hl as [[eno He] Hl]. cbn. rewrite (stuck_run _ _ _ _ He). cbn [fst snd].
    destruct l as [|p l]; [done|].
    destruct (IH (set_injection (of_int F32 0) s)) as [-> ->]; done.
Qed.
End Runs.

(** ** Examples *)

Definition demo_opts (files mbytes : Z) (throttle : float) : evict_options :=
  EvictOptions files mbytes (convert F32 (fdiv F64 (of_int F64 7) (of_int F64 10)))
    (convert F32 (fdiv F64 (of_int F64 8) (of_int F64 10))) throttle 60.
Definition demo_throttle : float := convert F32 (fdiv F64 (of_int F64 9) (of_int F64 10)).
Definition demo_sys (l : list string) : evict_sys :=
  EvictSys (fun _ => None) (fun _ => (lit "." :: map lit l, None))
    (fun _ name => inr (if bool_decide (name = lit ".") then S_IFDIR else S_IFREG, 8)) (fun _ => 0).
Definition demo_pick (a b : Z) : Z := b.
Definition demo_evictor (dir : Z) : evictor := Evictor dir 0 0 0 0 (of_int F32 1) [].

Lemma demo_picks : picks demo_pick.
Proof. unfold picks, demo_pick. lia. Qed.
Lemma demo_healthy l : zlen l < 2 ^ 20 -> healthy (demo_sys l).
Proof.
  intros Hl dir. cbn -[Z.pow]. split_and!; [done|done| |done|by left].
  rewrite zlen_cons. unfold zlen in *. rewrite length_map. lia.
Qed.
Lemma demo_sane : sane 1 (demo_opts 32 100 demo_throttle).
Proof.
  split; [done|done|done| | | |done].
  - right. exists false, (-1), 11744051%positive, (-24). by vm_compute.
  - exists (-1). split; [done|]. exists 13421773%positive, (-24). by vm_compute.
  - exists false, (-4). split; [done|]. exists 7205761121779712%positive, (-56). by vm_compute.
Qed.

(** Three files where there is room for two: two of them go, from the end of
    the names, and writing is suspended. *)
Example two_of_three :
  let r := evict_once 1 16 (demo_opts 32 100 demo_throttle) (demo_sys ["a"; "b"; "c"]) demo_pick (demo_evictor 15) in
  unlinked r.2 = [lit "f/c"; lit "f/a"] /\ dir_to_evict r.2 = 0 /\ injection_probability r.2 = S754_zero false
  /\ files_evicted r.2 = 2 /\ r.1 = Ret 0.
Proof. vm_compute. repeat split. Qed.

(** A limit of no files makes the fraction infinite, and a fraction of an
    infinite number is not a number, which is then converted to [int]; the
    same with no megabytes. *)
Example no_files_allowed :
  (evict_once 1 16 (demo_opts 0 100 demo_throttle) (demo_sys ["a"]) demo_pick (demo_evictor 0)).1 = Undef
  /\ (evict_once 1 16 (demo_opts 32 0 demo_throttle) (demo_sys ["a"]) demo_pick (demo_evictor 0)).1 = Undef.
Proof. split; by vm_compute. Qed.

(** With a throttle mark of one, a cache that is exactly full divides zero by
    zero. *)
Example throttle_of_one :
  (evict_once 1 16 (demo_opts 32 100 (of_int F32 1)) (demo_sys ["a"; "b"]) demo_pick (demo_evictor 0)).1 = Undef.
Proof. by vm_compute. Qed.

Lemma evict_once_spec_witness : exists removed,
  unlinked (evict_once 1 16 (demo_opts 32 100 demo_throttle) (demo_sys ["a"; "b"; "c"]) demo_pick (demo_evictor 3)).2
  = unlinked (demo_evictor 3) ++ map (app (reldirname 1 (dir_to_evict (demo_evictor 3)) ++ lit "/")) removed
  /\ exists kept, removed ++ kept ≡ₚ [lit "a"; lit "b"; lit "c"].
Proof.
  destruct (evict_once_spec 1 16 (demo_opts 32 100 demo_throttle) (demo_sys ["a"; "b"; "c"]) demo_pick demo_picks
              (demo_evictor 3) eq_refl) as (removed & H1 & _ & H2 & _).
  exists removed. split; [exact H1|]. exact (H2 (ScanResult 24576 [lit "a"; lit "b"; lit "c"]) eq_refl).
Defined.

Lemma evict_once_defined_witness :
  exists t, (evict_once 1 (2 ^ (4 * 1)) (demo_opts 32 100 demo_throttle) (demo_sys ["a"]) demo_pick (demo_evictor 3)).1 = Ret t.
Proof.
  exact (evict_once_defined 1 (demo_opts 32 100 demo_throttle) demo_sane (demo_sys ["a"]) demo_pick (demo_evictor 3)
           demo_picks eq_refl).
Defined.

Lemma evictor_turns_witness :
  15 ∈ (evict_runs 1 (2 ^ (4 * 1)) (demo_opts 32 100 demo_throttle)
          (replicate 16 (demo_sys ["a"; "b"; "c"], demo_pick)) (demo_evictor 3)).1.
Proof.
  destruct (evictor_turns 1 (demo_opts 32 100 demo_throttle) demo_sane
              (replicate 16 (demo_sys ["a"; "b"; "c"], demo_pick)) (demo_evictor 3)) as [H _]; [by split|].
  apply H; [|by vm_compute|by split]. apply Forall_replicate. split; [by apply demo_healthy|exact demo_picks].
Defined.
