(* ===== verification/CacheRoot.v ===== *)
(** * Opening a disk cache (exe/fs123p7/diskcache.cpp, core123/uuid.hpp)

    The constructor of [diskcache] finds or makes the root directory, decides
    how many hexadecimal digits the names of its sub-directories have, makes
    them, and finds or makes the symlink [.uuid], the name of the cache that
    all the processes using it agree on.

    The file system is a parameter, as is [log2] of the C library.  The steps
    around [.uuid] are those of a small program, one system call each, so that
    several processes can take them in any order.

    Theorems: the text of a random UUID; however the calls of starting
    processes interleave, those that get a UUID get the same one, after at most
    four calls each; and a root, once opened, is opened again with the same
    layout, in which every file the cache writes is in a directory that the
    evictor visits. *)

From Stdlib Require Import Ascii String ZArith Lia Bool.
From Stdlib Require Import SpecFloat.
From stdpp Require Import base strings list numbers.
From S2P Require Import Prelude.
From S2P Require Import StrUtils.
From S2P Require Import Threeroe.
From S2P Require Import PathUtils.
From S2P Require Import DiskCache.
From S2P Require Import Floats.
From S2P Require Import Evictor.

#[local] Open Scope Z_scope.

(** ** Definitions *)

(** *** [gen_random_uuid] *)

(** [buf[i] = x] *)
Definition set_byte (i : nat) (x : Z) (buf : list Z) : list Z := <[i := x]> buf.

(** The loop from [p], the length of what was written, to [e]. *)
Fixpoint uuid_loop (fuel : nat) (i : nat) (buf : list Z) (ret : bytes) : outcome bytes :=
  if 36 <=? zlen ret then (if zlen ret =? 36 then Ret ret else Undef) else
  match fuel, buf !! i with
  | S fuel, Some b =>
      let ret := ret ++ (if bool_decide (i = 4 \/ i = 6 \/ i = 8 \/ i = 10)%nat then lit "-" else []) in
      uuid_loop fuel (S i) buf (ret ++ [hexlownibble (Z.shiftr b 4); hexlownibble b])
  | _, _ => Undef
  end.

(** What the open and the read of [/dev/urandom] gave: an errno, or bytes. *)
Definition gen_random_uuid (urandom : Z + list Z) : outcome bytes :=
  match urandom with
  | inl eno => Throw (ESystem eno)
  | inr buf =>
      if negb (zlen buf =? 16) then Throw ERuntime else
      let buf := set_byte 6 (Z.lor (Z.land (nth 6 buf 0) 15) 64) buf in
      let buf := set_byte 8 (Z.lor (Z.land (nth 8 buf 0) 63) 128) buf in
      uuid_loop 36 0 buf []
  end.

(** *** The layout *)

Section Layout.
Context (libm_log2 : float -> float).

Definition log_16 (x : float) : float := fdiv F64 (libm_log2 x) (of_int F64 4).

Definition suggested_hexdigits (maxfiles : Z) : outcome Z :=
  n ← to_int 32 (ffloor F64 (log_16 (fdiv F64 (of_int F64 maxfiles) (of_int F64 1000))));
  Ret (clip_int 1 n 4).
End Layout.

(** The calls on the file system that the constructor makes.  Paths are
    relative to the root but for [cwd_mkdirat] and [cwd_is_dir]; an errno is 0
    when the call succeeds. *)
Class RootFs (fs : Type) := {
  cwd_mkdirat : bytes -> Z -> fs -> Z * fs;
  cwd_is_dir : fs -> bytes -> bool;
  open_dir : bytes -> fs -> Z;                         (* open(root, O_DIRECTORY) *)
  mkdirat : bytes -> Z -> fs -> Z * fs;
  is_dir : fs -> bytes -> bool;
  readlinkat : bytes -> fs -> Z + bytes;
  symlinkat : bytes -> bytes -> fs -> Z * fs;
  creat_close : bytes -> fs -> Z * fs                  (* close(openat(..., O_CREAT|O_WRONLY)) *)
}.

Section Open.
Context {fs : Type} `{RootFs fs}.

Definition find_hexdigits (f : fs) : option bytes :=
  List.find (is_dir f) [lit "0"; lit "00"; lit "000"; lit "0000"].

Definition choose_hexdigits (suggested : Z) (f : fs) : Z :=
  match find_hexdigits f with Some zeros => zlen zeros | None => suggested end.

(** The first [n] of the remaining sub-directories, from [i]. *)
Fixpoint make_dirs (hexdigits : Z) (n : nat) (i : Z) : M fs unit :=
  match n with
  | O => mret tt
  | S n =>
      (fun f => makedirsat mkdirat is_dir (reldirname hexdigits i) 448 true f);;      (* 0700 *)
      make_dirs hexdigits n (i + 1)
  end.

Definition UUID_ASCII_LEN : Z := 36.

(** The program around [.uuid], between two system calls. *)
Inductive uuid_pc :=
| ReadLink (ntry : Z)
| MakeLink (ntry : Z)            (* gen_random_uuid, symlinkat *)
| MakeTarget (ntry : Z) (uu : bytes)
| Have (uuid : bytes)
| Failed (e : exn).

(** [errno] where nothing was wrong with the call itself. *)
Context (stale_errno : Z).

Definition uuid_step (urandom : Z + list Z) (pc : uuid_pc) (f : fs) : uuid_pc * fs :=
  match pc with
  | ReadLink ntry =>
      match readlinkat (lit ".uuid") f with
      | inr target =>                                      (* at most sizeof(uuid_buf) bytes of it *)
          if negb (Z.min (zlen target) (UUID_ASCII_LEN + 1) =? UUID_ASCII_LEN) then (Failed (ESystem stale_errno), f)
          else (Have (ztake UUID_ASCII_LEN target), f)
      | inl eno =>
          if (eno =? ENOENT) && (ntry + 1 <? 2) then (MakeLink (ntry + 1), f) else (Failed (ESystem eno), f)
      end
  | MakeLink ntry =>
      match gen_random_uuid urandom with
      | Ret uu =>
          let '(eno, f) := symlinkat uu (lit ".uuid") f in
          if eno =? 0 then (MakeTarget ntry uu, f)
          else if negb (eno =? EEXIST) then (Failed (ESystem eno), f)
          else (ReadLink ntry, f)
      | Throw e => (Failed e, f)
      | Undef => (Failed ERuntime, f)                      (* never: [gen_random_uuid_text] *)
      end
  | MakeTarget ntry uu =>
      let '(eno, f) := creat_close uu f in
      if negb (eno =? 0) then (Failed (ESystem eno), f) else (ReadLink ntry, f)
  | _ => (pc, f)
  end.

Fixpoint uuid_steps (n : nat) (urandom : Z + list Z) (pc : uuid_pc) (f : fs) : uuid_pc * fs :=
  match n with
  | O => (pc, f)
  | S n => let '(pc, f) := uuid_step urandom pc f in uuid_steps n urandom pc f
  end.

(** One process alone takes at most four steps. *)
Definition get_uuid (urandom : Z + list Z) : M fs bytes := fun f =>
  match uuid_steps 4 urandom (ReadLink 0) f with
  | (Have u, f) => (Ret u, f)
  | (Failed e, f) => (Throw e, f)
  | (_, f) => (Undef, f)
  end.

Definition check_root (hexdigits Ndirs : Z) (urandom : Z + list Z) : M fs bytes :=
  make_dirs hexdigits (Z.to_nat Ndirs) 0;; get_uuid urandom.

Record opened := Opened { o_hexdigits : Z; o_Ndirs : Z; o_uuid : bytes; o_evictor : evictor }.

(** The constructor. *)
Definition open_diskcache (libm_log2 : float -> float) (urandom : Z + list Z) (root : bytes) (maxfiles : Z)
  : M fs opened :=
  (fun f => makedirsat cwd_mkdirat cwd_is_dir root 493 true f);;                      (* 0755 *)
  f ← get;
  (if negb (open_dir root f =? 0) then raise (ESystem (open_dir root f)) else mret tt);;
  suggested ← lift (suggested_hexdigits libm_log2 maxfiles);
  f ← get;
  let hexdigits := choose_hexdigits suggested f in
  let Ndirs := Z.shiftl 1 (4 * hexdigits) in
  uuid ← check_root hexdigits Ndirs urandom;
  mret (Opened hexdigits Ndirs uuid (Evictor 0 0 0 0 0 (of_int F32 1) [])).

(** Several processes: each has its random bytes, and the schedule says whose
    turn it is. *)
Fixpoint uuid_race (urandom : nat -> Z + list Z) (schedule : list nat) (st : list uuid_pc * fs) : list uuid_pc * fs :=
  match schedule with
  | [] => st
  | i :: schedule =>
      let st := match st.1 !! i with
                | Some pc => let '(pc, f) := uuid_step (urandom i) pc st.2 in (<[i := pc]> st.1, f)
                | None => st
                end in
      uuid_race urandom schedule st
  end.
End Open.

(** ** The text of a UUID *)

(** The digits of a byte. *)
Definition hex2 (b : Z) : bytes := [hexlownibble (Z.shiftr b 4); hexlownibble b].
Definition dash : bytes := lit "-".

Lemma land_15 v : Z.land v 15 = v mod 16.
Proof. change 15 with (Z.ones 4). rewrite Z.land_ones by lia. reflexivity. Qed.

Lemma hexlownibble_inj v w : hexlownibble v = hexlownibble w -> v mod 16 = w mod 16.
Proof.
  unfold hexlownibble. rewrite !land_15. intros E. apply (f_equal zc) in E.
  pose proof (Z.mod_pos_bound v 16 ltac:(lia)). pose proof (Z.mod_pos_bound w 16 ltac:(lia)).
  destruct (9 <? v mod 16) eqn:E1, (9 <? w mod 16) eqn:E2; rewrite !zc_chr in E by lia; lia.
Qed.

Lemma hex2_inj b c : 0 <= b < 256 -> 0 <= c < 256 -> hex2 b = hex2 c -> b = c.
Proof.
  intros Hb Hc [= E1%hexlownibble_inj E2%hexlownibble_inj]. rewrite !Z.shiftr_div_pow2 in E1 by lia.
  change (2 ^ 4) with 16 in E1. pose proof (Z.div_mod b 16 ltac:(lia)). pose proof (Z.div_mod c 16 ltac:(lia)).
  rewrite !Z.mod_small in E1; [lia|..]; split; try (apply Z.div_lt_upper_bound; lia); apply Z.div_pos; lia.
Qed.

(** The sixteen bytes, with the version and the variant put in. *)
Definition version4 (b : Z) : Z := Z.lor (Z.land b 15) 64.
Definition variant1 (b : Z) : Z := Z.lor (Z.land b 63) 128.
Definition stamped (buf : list Z) : list Z :=
  set_byte 8 (variant1 (nth 8 buf 0)) (set_byte 6 (version4 (nth 6 buf 0)) buf).

Definition uuid_text (l : list Z) : bytes :=
  mbind hex2 (take 4 l) ++ dash ++ mbind hex2 (take 2 (drop 4 l)) ++ dash ++ mbind hex2 (take 2 (drop 6 l)) ++ dash
  ++ mbind hex2 (take 2 (drop 8 l)) ++ dash ++ mbind hex2 (drop 10 l).

Lemma gen_random_uuid_eq buf : zlen buf = 16 -> gen_random_uuid (inr buf) = Ret (uuid_text (stamped buf)).
Proof.
  intros Hl. unfold gen_random_uuid. rewrite Hl. cbn [negb Z.eqb].
  do 16 (destruct buf as [|? buf]; [done|]). destruct buf as [|? buf]; [|by unfold zlen in Hl; cbn in Hl; lia].
  reflexivity.
Qed.

Lemma uuid_text_length l : length l = 16%nat -> zlen (uuid_text l) = 36.
Proof.
  intros Hl. do 16 (destruct l as [|? l]; [done|]). destruct l as [|? l]; [|done]. reflexivity.
Qed.

Lemma stamped_length buf : length (stamped buf) = length buf.
Proof. unfold stamped, set_byte. by rewrite !length_insert. Qed.

Lemma gen_random_uuid_length urandom u : gen_random_uuid urandom = Ret u -> zlen u = 36.
Proof.
  destruct urandom as [eno|buf]; [done|]. destruct (Z.eq_dec (zlen buf) 16) as [E|E].
  - rewrite gen_random_uuid_eq by done. intros [= <-]. apply uuid_text_length.
    rewrite stamped_length. unfold zlen in E. lia.
  - unfold gen_random_uuid. by rewrite (proj2 (Z.eqb_neq _ _) E).
Qed.

Lemma stamps b : 0 <= b < 256 -> version4 b = 64 + b mod 16 /\ variant1 b = 128 + b mod 64.
Proof.
  intros Hb.
  assert (forallb (fun n => (version4 (Z.of_nat n) =? 64 + Z.of_nat n mod 16) && (variant1 (Z.of_nat n) =? 128 + Z.of_nat n mod 64))
            (seq 0 256) = true) as H by by vm_compute.
  rewrite forallb_forall in H. specialize (H (Z.to_nat b)). rewrite Z2Nat.id in H by lia.
  rewrite andb_true_iff, !Z.eqb_eq in H. apply H. apply in_seq. lia.
Qed.

Definition byte (b : Z) : Prop := 0 <= b < 256.

Lemma stamped_bytes buf : length buf = 16%nat -> Forall byte buf -> Forall byte (stamped buf).
Proof.
  intros Hl Hb. unfold stamped, set_byte.
  assert (forall i, (i < 16)%nat -> byte (nth i buf 0)) as Hn.
  { intros i Hi. destruct (lookup_lt_is_Some_2 buf i ltac:(lia)) as [x Hx].
    rewrite (nth_lookup_Some _ _ _ _ Hx). by eapply Forall_lookup_1. }
  unfold byte in *. destruct (stamps (nth 6 buf 0) (Hn 6%nat ltac:(lia))) as [-> _], (stamps (nth 8 buf 0) (Hn 8%nat ltac:(lia))) as [_ ->].
  apply Forall_insert; [apply Forall_insert; [done|]|];
    [pose proof (Z.mod_pos_bound (nth 6 buf 0) 16 ltac:(lia))|pose proof (Z.mod_pos_bound (nth 8 buf 0) 64 ltac:(lia))]; lia.
Qed.

Lemma hex2s_inj l l' : Forall byte l -> Forall byte l' -> mbind hex2 l = mbind hex2 l' -> l = l'.
Proof.
  revert l'. induction l as [|b l IH]; intros [|c l'] Hl Hl' E; [done..|].
  apply Forall_cons_1 in Hl as [Hb Hl], Hl' as [Hc Hl'].
  change (hex2 b ++ mbind hex2 l = hex2 c ++ mbind hex2 l') in E.
  apply app_inj_1 in E as [E1 E2]; [|done]. f_equal; [by apply hex2_inj|by apply IH].
Qed.

Lemma hex2s_length (l : list Z) : length (mbind hex2 l) = (2 * length l)%nat.
Proof. induction l as [|b l IH]; [done|]. change (mbind hex2 (b :: l)) with (hex2 b ++ mbind hex2 l). rewrite length_app, IH. cbn. lia. Qed.

(** The text gives the bytes back. *)
Lemma uuid_text_inj l l' : length l = 16%nat -> length l' = 16%nat -> Forall byte l -> Forall byte l' ->
  uuid_text l = uuid_text l' -> l = l'.
Proof.
  intros Hl Hl' Hb Hb' E. unfold uuid_text in E.
  assert (forall n k, length (mbind hex2 (take n (drop k l))) = length (mbind hex2 (take n (drop k l')))) as Hlen.
  { intros n k. by rewrite !hex2s_length, !length_take, !length_drop, Hl, Hl'. }
  pose proof (Hlen 4 0)%nat as H0. cbn [drop] in H0.
  apply app_inj_1 in E as [E1 E]; [|done]. apply app_inj_1 in E as [_ E]; [|done].
  apply app_inj_1 in E as [E2 E]; [|done]. apply app_inj_1 in E as [_ E]; [|done].
  apply app_inj_1 in E as [E3 E]; [|done]. apply app_inj_1 in E as [_ E]; [|done].
  apply app_inj_1 in E as [E4 E]; [|done]. apply app_inj_1 in E as [_ E5]; [|done].
  apply hex2s_inj in E1, E2, E3, E4, E5; try by repeat first [apply Forall_take|apply Forall_drop].
  rewrite <- (take_drop 4 l), <- (take_drop 4 l'), E1. f_equal.
  rewrite <- (take_drop 2 (drop 4 l)), <- (take_drop 2 (drop 4 l')), E2. f_equal. rewrite !drop_drop.
  rewrite <- (take_drop 2 (drop (4 + 2) l)), <- (take_drop 2 (drop (4 + 2) l')). cbn [Nat.add]. rewrite E3. f_equal.
  rewrite !drop_drop. cbn [Nat.add].
  rewrite <- (take_drop 2 (drop 8 l)), <- (take_drop 2 (drop 8 l')), E4. f_equal. rewrite !drop_drop. exact E5.
Qed.

Definition is_hex (c : ascii) : Prop := exists v, c = hexlownibble v.

(** From sixteen random bytes [gen_random_uuid] makes, without writing
    outside its 36 characters, a text of five groups of hexadecimal digits,
    the third starting with "4" and the fourth with "8", "9", "a" or "b"; and
    the text determines the bytes, but for the six bits that were replaced. *)
Theorem gen_random_uuid_text buf : zlen buf = 16 -> Forall byte buf ->
  exists a b c v d e, gen_random_uuid (inr buf) = Ret (a ++ dash ++ b ++ dash ++ lit "4" ++ c ++ dash ++ [v] ++ d ++ dash ++ e)
    /\ map length [a; b; c; d; e] = [8; 4; 3; 3; 12]%nat /\ v ∈ lit "89ab" /\ Forall is_hex (a ++ b ++ c ++ d ++ e)
    /\ forall buf', zlen buf' = 16 -> Forall byte buf' -> gen_random_uuid (inr buf') = gen_random_uuid (inr buf) ->
       stamped buf' = stamped buf.
Proof.
  intros Hl Hb. assert (length buf = 16%nat) as Hl' by (unfold zlen in Hl; lia).
  assert (forall b', byte b' -> hexlownibble (Z.shiftr (version4 b') 4) = "4"%char
            /\ hexlownibble (Z.shiftr (variant1 b') 4) ∈ lit "89ab") as Hstamp.
  { intros b' Hb'. destruct (stamps b' Hb') as [-> ->]. rewrite !Z.shiftr_div_pow2 by lia. change (2 ^ 4) with 16.
    pose proof (Z.mod_pos_bound b' 16 ltac:(lia)). pose proof (Z.mod_pos_bound b' 64 ltac:(lia)) as H64.
    replace ((64 + b' mod 16) / 16) with 4 by (apply Z.div_unique with (b' mod 16); lia). split; [done|].
    assert (8 <= (128 + b' mod 64) / 16 < 12) as Hq by (split; [apply Z.div_le_lower_bound|apply Z.div_lt_upper_bound]; lia).
    assert (In ((128 + b' mod 64) / 16) [8; 9; 10; 11]) as Hin by (cbn; lia).
    cbn in Hin. destruct Hin as [<-|[<-|[<-|[<-|[]]]]]; apply (bool_decide_unpack _); by vm_compute. }
  rewrite gen_random_uuid_eq by done.
  do 16 (destruct buf as [|? buf]; [done|]). destruct buf as [|? buf]; [|done].
  inversion Hb as [|? ? _ Hb1]; subst. do 5 (inversion Hb1 as [|? ? _ Hb2]; subst; clear Hb1; rename Hb2 into Hb1).
  inversion Hb1 as [|? ? H6 Hb2]; subst. inversion Hb2 as [|? ? _ Hb3]; subst. inversion Hb3 as [|? ? H8 _]; subst.
  destruct (Hstamp _ H6) as [E6 _], (Hstamp _ H8) as [_ E8].
  eexists (_ :: _ :: _ :: _ :: _ :: _ :: _ :: [_]), [_; _; _; _], [_; _; _], _, [_; _; _], (_ :: _ :: _ :: _ :: _ :: _ :: _ :: _ :: [_; _; _; _]).
  split; [|split; [reflexivity|split; [exact E8|split]]].
  - apply (f_equal Ret). unfold uuid_text, stamped, set_byte. cbn [nth take drop insert list_insert app mbind list_bind hex2].
    rewrite E6. reflexivity.
  - repeat first [constructor; [by eexists|]|constructor].
  - intros buf' Hl2 Hb2' E. rewrite gen_random_uuid_eq in E by done. injection E as E.
    apply uuid_text_inj in E; [exact E|..]; rewrite ?stamped_length; [|exact Hl'| |by apply stamped_bytes];
      unfold zlen in Hl2; [|apply stamped_bytes; [|done]]; lia.
Qed.

(** ** The names of the directories *)

Lemma hex_digits_S fuel i : hex_digits (S fuel) i = (if i <? 16 then [] else hex_digits fuel (i / 16)) ++ [hexlownibble i].
Proof. reflexivity. Qed.

Lemma reldirname_snoc h d c i : 1 <= h -> zlen d = h -> is_hex c -> 0 <= i < 2 ^ 28 -> reldirname h i = d ->
  exists j, i * 16 <= j < i * 16 + 16 /\ reldirname (h + 1) j = d ++ [c].
Proof.
  intros Hh Hd [v ->] Hi E. exists (i * 16 + v mod 16). pose proof (Z.mod_pos_bound v 16 ltac:(lia)).
  split; [lia|].
  assert (hexlownibble (i * 16 + v mod 16) = hexlownibble v) as Hnib.
  { unfold hexlownibble. rewrite !land_15. replace (i * 16 + v mod 16) with (v mod 16 + i * 16) by lia.
    by rewrite Z.mod_add, Z.mod_mod by lia. }
  unfold reldirname in *. rewrite (hex_digits_S 7 (i * 16 + v mod 16)), Hnib.
  replace ((i * 16 + v mod 16) / 16) with i by (apply Z.div_unique with (v mod 16); lia).
  destruct (Z.ltb_spec (i * 16 + v mod 16) 16) as [Hlt|Hlt].
  - assert (i = 0) as -> by lia. change (hex_digits 8 0) with (lit "0") in E. rewrite app_nil_l.
    change (zlen (lit "0")) with 1 in E. change (zlen [hexlownibble v]) with 1.
    rewrite <- E. replace (Z.to_nat (h + 1 - 1)) with (Z.to_nat (h - 1) + 1)%nat by lia.
    by rewrite replicate_add.
  - assert (forall n k, 0 <= k < 16 ^ (Z.of_nat n + 1) -> hex_digits (S n) k = hex_digits (S (S n)) k) as Hfuel.
    { induction n as [|n IH]; intros k Hk.
      - change (16 ^ (Z.of_nat 0 + 1)) with 16 in Hk. cbn [hex_digits]. by rewrite (proj2 (Z.ltb_lt _ _)) by lia.
      - rewrite (hex_digits_S (S n)), (hex_digits_S (S (S n))). destruct (k <? 16) eqn:Ek; [done|].
        f_equal. apply IH.
        replace (Z.of_nat (S n) + 1) with (Z.of_nat n + 1 + 1) in Hk by lia. rewrite Z.pow_add_r in Hk by lia.
        change (16 ^ 1) with 16 in Hk. split; [apply Z.div_pos|apply Z.div_lt_upper_bound]; lia. }
    rewrite (Hfuel 6%nat i) by (change (16 ^ (Z.of_nat 6 + 1)) with (2 ^ 28); lia).
    rewrite zlen_app. change (zlen [hexlownibble v]) with 1.
    replace (h + 1 - (zlen (hex_digits 8 i) + 1)) with (h - zlen (hex_digits 8 i)) by lia.
    by rewrite app_assoc, E.
Qed.

Lemma reldirname_of_digits d : 1 <= zlen d <= 7 -> Forall is_hex d ->
  exists i, 0 <= i < 16 ^ zlen d /\ reldirname (zlen d) i = d.
Proof.
  induction d as [|c d IH] using rev_ind; [rewrite zlen_nil; lia|]. rewrite zlen_app. change (zlen [c]) with 1.
  intros Hd Hc. apply Forall_app in Hc as [Hc1 Hc2]. inversion Hc2 as [|? ? Hc _]; subst.
  destruct (Z.eq_dec (zlen d) 0) as [E|E].
  - apply Z.eq_le_incl, zlen_nil_inv in E as ->. destruct Hc as [v ->]. exists (v mod 16).
    change (16 ^ (zlen [] + 1)) with 16. pose proof (Z.mod_pos_bound v 16 ltac:(lia)). split; [done|].
    unfold reldirname. cbn [hex_digits]. rewrite (proj2 (Z.ltb_lt _ _)) by lia. cbn [app].
    change (zlen [] + 1) with 1. change (zlen [hexlownibble (v mod 16)]) with 1. cbn [Z.sub Z.to_nat Z.opp Z.add replicate app].
    unfold hexlownibble. by rewrite !land_15, Z.mod_mod.
  - destruct IH as (i & Hi & Ei); [pose proof (zlen_nonneg d); lia|done|].
    assert (16 ^ zlen d <= 2 ^ 24).
    { change (2 ^ 24) with (16 ^ 6). apply Z.pow_le_mono_r; lia. }
    destruct (reldirname_snoc (zlen d) d c i) as (j & Hj & Ej); [lia|done|done|lia|done|].
    exists j. split; [|done]. rewrite Z.pow_add_r by lia. lia.
Qed.

Lemma hash_dir g s : 1 <= DiskCache.hexdigits g <= 4 ->
  exists i rest, 0 <= i < 16 ^ DiskCache.hexdigits g /\ hash g s = reldirname (DiskCache.hexdigits g) i ++ lit "/" ++ rest.
Proof.
  intros Hh. unfold hash. set (hd := hexdigest _).
  assert (zlen hd = 32) as Hl by (unfold zlen, hd; by rewrite length_hexdigest).
  pose proof (hexdigest_chars (threeroe_of s (hashseed g) 0)) as Hc. fold hd in Hc.
  assert (zlen (ztake (DiskCache.hexdigits g) hd) = DiskCache.hexdigits g) as Ht by (rewrite zlen_ztake; lia).
  destruct (reldirname_of_digits (ztake (DiskCache.hexdigits g) hd)) as (i & Hi & Ei).
  { lia. } { rewrite <- (ztake_zdrop hd (DiskCache.hexdigits g)) in Hc by lia. by apply Forall_app in Hc as [Hc _]. }
  rewrite Ht in Hi, Ei. exists i. eexists. split; [done|]. by rewrite Ei.
Qed.

(** ** What the system calls are for *)

(** A name, in the root, that is not the link. *)
Definition simple (q : bytes) : Prop := q <> [] /\ Forall is_hex q.

Class RootFsLaws (fs : Type) `{RootFs fs} := {
  uuid_link : fs -> option bytes;                       (* what .uuid points to *)
  readlink_uuid f : readlinkat (lit ".uuid") f = match uuid_link f with Some t => inr t | None => inl ENOENT end;
  symlink_uuid u f eno f' : symlinkat u (lit ".uuid") f = (eno, f') ->
    if eno =? 0 then uuid_link f = None /\ uuid_link f' = Some u
    else uuid_link f' = uuid_link f /\ (eno = EEXIST -> is_Some (uuid_link f));
  creat_uuid u f eno f' : creat_close u f = (eno, f') -> uuid_link f' = uuid_link f;
  symlink_dir u q f : simple q -> is_dir (symlinkat u (lit ".uuid") f).2 q = is_dir f q;
  creat_dir u q f : simple q -> is_dir (creat_close u f).2 q = is_dir f q;
  mkdir_dir q m f eno f' : simple q -> mkdirat q m f = (eno, f') ->
    forall p, simple p -> is_dir f' p = if (eno =? 0) && bool_decide (p = q) then true else is_dir f p
}.

(** *** The steps of the processes *)

Section Race.
Context {fs : Type} `{RootFsLaws fs} (stale_errno : Z).

(** What is known of a process, given the file system: [good] means that no
    call has failed but for the reasons the code expects. *)
Definition pc_inv (good : Prop) (f : fs) (pc : uuid_pc) : Prop :=
  match pc with
  | ReadLink n => n = 0 \/ (n = 1 /\ is_Some (uuid_link f))
  | MakeLink n => n = 1
  | MakeTarget n _ => n = 1 /\ is_Some (uuid_link f)
  | Have u => uuid_link f = Some u
  | Failed _ => ~ good
  end.

(** At most so many calls are left. *)
Definition pc_left (pc : uuid_pc) : nat :=
  match pc with
  | ReadLink n => if n =? 0 then 4 else 1
  | MakeLink _ => 3
  | MakeTarget _ _ => 2
  | Have _ | Failed _ => 0
  end.

Definition link_ok (f : fs) : Prop := match uuid_link f with Some t => zlen t = 36 | None => True end.

(** The link, once there, stays. *)
Definition keeps (f f' : fs) : Prop := uuid_link f = None \/ uuid_link f' = uuid_link f.

Lemma keeps_inv good f f' pc : keeps f f' -> pc_inv good f pc -> pc_inv good f' pc.
Proof.
  intros [E|E] Hpc; destruct pc as [n|n|n u|u|e]; cbn in *; rewrite ?E in *; try done.
  - destruct Hpc as [|[_ [? [=]]]]. by left.
  - by destruct Hpc as [_ [? [=]]].
Qed.

(** No call fails but as the code expects. *)
Definition calls_good : Prop :=
  (forall u f, (symlinkat u (lit ".uuid") f).1 = 0 \/ (symlinkat u (lit ".uuid") f).1 = EEXIST)
  /\ (forall u (f : fs), (creat_close u f).1 = 0).
Definition random_good (urandom : Z + list Z) : Prop := exists buf, urandom = inr buf /\ zlen buf = 16.

Lemma uuid_step_inv urandom pc f pc' f' : link_ok f -> pc_inv (calls_good /\ random_good urandom) f pc ->
  uuid_step stale_errno urandom pc f = (pc', f') ->
  link_ok f' /\ keeps f f' /\ pc_inv (calls_good /\ random_good urandom) f' pc'
  /\ (pc_left pc' <= pred (pc_left pc))%nat.
Proof.
  intros Hok Hpc E. unfold link_ok, keeps in *. destruct pc as [n|n|n uu|u|e]; cbn [pc_inv] in Hpc; cbn [uuid_step] in E.
  - rewrite readlink_uuid in E. destruct (uuid_link f) as [t|] eqn:Et; rewrite ?Et in Hpc; cbn in Hok.
    + unfold UUID_ASCII_LEN in E. rewrite (proj2 (Z.eqb_eq _ _)) in E by lia. injection E as <- <-.
      rewrite Et, ztake_all by lia. split_and!; [done|by right|done|apply Nat.le_0_l].
    + destruct Hpc as [->|[_ [? Hx]]]; [|discriminate Hx]. injection E as <- <-. rewrite Et. by split_and!; [|left| |cbn; lia].
  - subst n. destruct (gen_random_uuid urandom) as [uu|e|] eqn:Eg.
    + destruct (symlinkat uu (lit ".uuid") f) as [eno g] eqn:Es. pose proof (symlink_uuid _ _ _ _ Es) as Hs.
      destruct (eno =? 0) eqn:E0.
      * destruct Hs as [Hf Hg]. injection E as <- <-. rewrite Hg.
        split_and!; [by eapply gen_random_uuid_length|by left|by split|cbn; lia].
      * destruct Hs as [Hg He]. destruct (Z.eqb_spec eno EEXIST) as [->|Hne]; injection E as <- <-; rewrite Hg.
        -- split_and!; [done|by right|right; rewrite Hg; auto|cbn; lia].
        -- split_and!; [done|by right| |cbn; lia]. intros [[Hgood _] _]. specialize (Hgood uu f). rewrite Es in Hgood.
           cbn in Hgood. lia.
    + injection E as <- <-. split_and!; [done|by right| |cbn; lia]. intros [_ (buf & -> & Hb)].
      by rewrite gen_random_uuid_eq in Eg.
    + injection E as <- <-. split_and!; [done|by right| |cbn; lia]. intros [_ (buf & -> & Hb)].
      by rewrite gen_random_uuid_eq in Eg.
  - destruct Hpc as [-> Hl]. destruct (creat_close uu f) as [eno g] eqn:Ec. pose proof (creat_uuid _ _ _ _ Ec) as Hg.
    destruct (Z.eqb_spec eno 0) as [->|Hne]; injection E as <- <-; rewrite Hg.
    + split_and!; [done|by right|right; by rewrite Hg|cbn; lia].
    + split_and!; [done|by right| |cbn; lia]. intros [[_ Hgood] _]. specialize (Hgood uu f). rewrite Ec in Hgood. by apply Hne.
  - injection E as <- <-. by split_and!; [|right| |cbn; lia].
  - injection E as <- <-. by split_and!; [|right| |cbn; lia].
Qed.
Definition pcs_inv (urandom : nat -> Z + list Z) (st : list uuid_pc * fs) : Prop :=
  link_ok st.2 /\ forall i pc, st.1 !! i = Some pc -> pc_inv (calls_good /\ random_good (urandom i)) st.2 pc.

Lemma uuid_race_inv urandom schedule st : pcs_inv urandom st ->
  let st' := uuid_race stale_errno urandom schedule st in
  pcs_inv urandom st' /\ keeps st.2 st'.2
  /\ forall i pc, st.1 !! i = Some pc -> exists pc', st'.1 !! i = Some pc'
       /\ (pc_left pc' + count_occ Nat.eq_dec schedule i <= Nat.max (pc_left pc) (count_occ Nat.eq_dec schedule i))%nat.
Proof.
  revert st. induction schedule as [|j l IH]; intros [pcs f] Hinv; cbn zeta; cbn [uuid_race fst snd].
  { split_and!; [done|by right|]. intros i pc Hi. exists pc. split; [done|]. cbn. lia. }
  destruct Hinv as [Hok Hpcs]. cbn [fst snd] in *. destruct (pcs !! j) as [pc|] eqn:Ej.
  - destruct (uuid_step stale_errno (urandom j) pc f) as [pc1 f1] eqn:Es.
    destruct (uuid_step_inv _ _ _ _ _ Hok (Hpcs _ _ Ej) Es) as (Hok1 & Hk & Hpc1 & Hleft).
    destruct (IH (<[j := pc1]> pcs, f1)) as (Hinv' & Hk' & Hl').
    { split; [done|]. cbn [fst snd]. intros i pc' Hi. destruct (decide (i = j)) as [->|Hne].
      - rewrite list_lookup_insert_eq in Hi by by eapply lookup_lt_Some. by injection Hi as <-.
      - rewrite list_lookup_insert_ne in Hi by done. eapply keeps_inv; [done|]. by apply Hpcs. }
    cbn [fst snd] in *. split_and!; [done| |].
    { unfold keeps in *. destruct Hk as [Hk|Hk]; [by left|]. rewrite <- Hk. done. }
    intros i pc' Hi. destruct (decide (i = j)) as [->|Hne].
    + rewrite Ej in Hi. injection Hi as <-.
      destruct (Hl' j pc1) as (pc2 & E2 & Hle); [apply list_lookup_insert_eq; by eapply lookup_lt_Some|].
      exists pc2. split; [done|]. rewrite count_occ_cons_eq by done. lia.
    + destruct (Hl' i pc') as (pc2 & E2 & Hle); [by rewrite list_lookup_insert_ne|].
      exists pc2. split; [done|]. by rewrite count_occ_cons_neq by done.
  - destruct (IH (pcs, f)) as (Hinv' & Hk' & Hl'); [by split|]. split_and!; [done|done|].
    intros i pc Hi. destruct (Hl' i pc Hi) as (pc2 & E2 & Hle). exists pc2. split; [done|].
    rewrite count_occ_cons_neq by congruence. done.
Qed.

(** C28.  Processes that open the same root at the same time, in any
    interleaving of their calls: those that have a UUID have the same one, the
    target of the link; and if no call fails unexpectedly, each process has it
    after at most four calls of its own, whatever the others do. *)
Theorem uuid_race_agree urandom schedule n f : link_ok f ->
  let st := uuid_race stale_errno urandom schedule (replicate n (ReadLink 0), f) in
  (forall i u, st.1 !! i = Some (Have u) -> uuid_link st.2 = Some u /\ zlen u = 36)
  /\ (calls_good -> forall i, (i < n)%nat -> random_good (urandom i) ->
      (4 <= count_occ Nat.eq_dec schedule i)%nat -> exists u, st.1 !! i = Some (Have u)).
Proof.
  intros Hok st. destruct (uuid_race_inv urandom schedule (replicate n (ReadLink 0), f)) as ([Hok' Hpcs] & _ & Hl).
  { split; [done|]. cbn. intros i pc [-> _]%lookup_replicate. by left. }
  fold st in Hok', Hpcs, Hl. split.
  - intros i u Hi. specialize (Hpcs _ _ Hi). cbn in Hpcs. split; [done|]. unfold link_ok in Hok'. by rewrite Hpcs in Hok'.
  - intros Hgood i Hi Hr Hc. destruct (Hl i (ReadLink 0)) as (pc & E & Hle); [by apply lookup_replicate_2|].
    cbn [pc_left Z.eqb] in Hle. specialize (Hpcs _ _ E). destruct pc as [m|m|m uu|u|e]; cbn in Hle, Hpcs; try lia.
    + destruct (m =? 0); lia.
    + by exists u.
    + by destruct Hpcs.
Qed.
End Race.

(** ** The layout *)

Lemma hex_not_slash c : is_hex c -> c <> slash.
Proof.
  intros [v ->] E. unfold hexlownibble in E. rewrite land_15 in E. apply (f_equal zc) in E.
  pose proof (Z.mod_pos_bound v 16 ltac:(lia)). change (zc slash) with 47 in E.
  destruct (9 <? v mod 16) eqn:E9; rewrite zc_chr in E by lia; lia.
Qed.

Lemma simple_last q : simple q -> find_last_not_of q slash = zlen q - 1 /\ find_last_of (ztake (zlen q - 1) q) slash = npos.
Proof.
  intros [Hne Hq]. assert (Forall (fun c => c <> slash) q) as Hns by (eapply Forall_impl; [exact hex_not_slash|exact Hq]).
  split.
  - unfold find_last_not_of. destruct (last_such_spec (fun x => negb (bool_decide (x = slash))) q 0 npos)
      as [[_ H]|(a & x & b & -> & _ & Hb & ->)].
    + destruct q as [|c q]; [done|]. inversion H; inversion Hns; subst. by rewrite bool_decide_eq_false_2 in *.
    + destruct b as [|c b]; [zlia|]. inversion Hb. apply Forall_app in Hns as [_ Hns]. inversion Hns; inversion H6; subst.
      by rewrite bool_decide_eq_false_2 in *.
  - destruct (find_last_of_spec (ztake (zlen q - 1) q) slash) as [[H _]|(a & b & E & _ & _)]; [done|].
    assert (Forall (fun c => c <> slash) (ztake (zlen q - 1) q)) as Ht by by apply Forall_take.
    rewrite E in Ht. apply Forall_app in Ht as [_ Ht]. by inversion Ht.
Qed.

Section LayoutSpec.
Context {fs : Type} `{RootFsLaws fs}.

Lemma makedirs_simple q mode f o f' : simple q -> makedirsat mkdirat is_dir q mode true f = (o, f') ->
  (forall p, simple p -> is_dir f' p = true -> p = q \/ is_dir f p = true)
  /\ (forall p, simple p -> is_dir f p = true -> is_dir f' p = true)
  /\ (o = Ret tt -> is_dir f' q = true).
Proof.
  intros Hq E. destruct (simple_last q Hq) as [E1 E2]. pose proof Hq as [Hne _].
  assert (0 < zlen q) as Hl by (destruct q; [done|zlia]).
  unfold makedirsat in E. rewrite E1 in E. rewrite (proj2 (Z.ltb_lt _ _)) in E by lia.
  replace (zlen q - 1 + 1) with (zlen q) in E by lia. rewrite ztake_all in E by lia. cbn [_makedirsat] in E.
  destruct (mkdirat q mode f) as [eno g] eqn:Em. pose proof (mkdir_dir _ _ _ _ _ Hq Em) as Hd.
  assert (g = f') as ->.
  { destruct ((eno =? 0) || negb (eno =? ENOENT)); [|rewrite E2, Z.eqb_refl in E];
      destruct (negb (eno =? 0)); try destruct (_ && _); congruence. }
  assert (o = Ret tt -> eno = 0 \/ is_dir f' q = true) as Ho.
  { destruct ((eno =? 0) || negb (eno =? ENOENT)); [|rewrite E2, Z.eqb_refl in E];
      (destruct (Z.eqb_spec eno 0); [by left|]; cbn [negb] in E; destruct (_ && is_dir f' q) eqn:Ed;
       [right; by apply andb_true_iff in Ed as [_ ->]|congruence]). }
  split_and!.
  - intros p Hp. rewrite Hd by done. destruct (eno =? 0); cbn; [case_bool_decide; auto|auto].
  - intros p Hp Hpd. rewrite Hd by done. by destruct (_ && _).
  - intros Hr. destruct (Ho Hr) as [->|]; [|done]. rewrite Hd by done. by rewrite bool_decide_eq_true_2.
Qed.

Lemma reldirname_simple h i : 1 <= h -> simple (reldirname h i).
Proof.
  intros Hh. unfold reldirname. cbn [hex_digits]. split.
  { intros E. apply app_eq_nil in E as [_ E]. by apply app_eq_nil in E as [_ E]. }
  apply Forall_app. split; [apply Forall_replicate; by exists 0|].
  assert (forall n k, Forall is_hex (hex_digits n k)) as Hx.
  { induction n as [|n IH]; intros k; cbn [hex_digits]; [done|].
    apply Forall_app. split; [by destruct (k <? 16)|]. by repeat econstructor. }
  apply (Hx 8%nat).
Qed.

Lemma make_dirs_spec h n i f f' : 1 <= h -> make_dirs h n i f = (Ret tt, f') ->
  (forall j, i <= j < i + Z.of_nat n -> is_dir f' (reldirname h j) = true)
  /\ (forall p, simple p -> is_dir f p = true -> is_dir f' p = true)
  /\ (forall p, simple p -> is_dir f' p = true -> is_dir f p = true \/ exists j, i <= j < i + Z.of_nat n /\ p = reldirname h j).
Proof.
  intros Hh. revert i f. induction n as [|n IH]; intros i f E; cbn [make_dirs] in E.
  { injection E as <-. split_and!; [lia|done|auto]. }
  destruct (makedirsat mkdirat is_dir (reldirname h i) 448 true f) as [o g] eqn:Em.
  destruct (makedirs_simple _ _ _ _ _ (reldirname_simple h i Hh) Em) as (H1 & H2 & H3).
  destruct o as [[]|e|]; [|by rewrite (M_bind_Throw _ _ f e g) in E by done|by unfold mbind, M_bind in E; rewrite Em in E].
  rewrite (M_bind_Ret _ _ f tt g) in E by done. destruct (IH _ _ E) as (I1 & I2 & I3). split_and!.
  - intros j Hj. destruct (Z.eq_dec j i) as [->|]; [|apply I1; lia]. apply I2; [by apply reldirname_simple|by apply H3].
  - auto.
  - intros p Hp Hd. destruct (I3 p Hp Hd) as [Hd'|(j & Hj & ->)]; [|right; exists j; split; [lia|done]].
    destruct (H1 p Hp Hd') as [->|]; [|by left]. right. exists i. split; [lia|done].
Qed.

Lemma uuid_step_dirs stale urandom pc f p : simple p -> is_dir (uuid_step stale urandom pc f).2 p = is_dir f p.
Proof.
  intros Hp. destruct pc as [n|n|n uu|u|e]; cbn [uuid_step]; [| | |done..].
  - destruct (readlinkat _ _); [by destruct (_ && _)|by destruct (negb _)].
  - destruct (gen_random_uuid urandom) as [uu|e|]; [|done..]. pose proof (symlink_dir uu p f Hp) as Hs.
    destruct (symlinkat _ _ _) as [eno g]. cbn in Hs. by destruct (eno =? 0), (negb (eno =? EEXIST)).
  - pose proof (creat_dir uu p f Hp) as Hs. destruct (creat_close _ _) as [eno g]. cbn in Hs. by destruct (negb _).
Qed.

Definition have_ok (pc : uuid_pc) (f : fs) : Prop :=
  match pc with Have u => uuid_link f = Some u /\ zlen u = 36 | _ => True end.

Lemma uuid_step_have stale urandom pc f : have_ok pc f ->
  have_ok (uuid_step stale urandom pc f).1 (uuid_step stale urandom pc f).2.
Proof.
  intros Hpc. destruct pc as [n|n|n uu|u|e]; cbn [uuid_step]; [| | |done..].
  - rewrite readlink_uuid. destruct (uuid_link f) as [t|] eqn:Et; [|by destruct (_ && _)].
    unfold UUID_ASCII_LEN. destruct (Z.eqb_spec (Z.min (zlen t) (36 + 1)) 36); [|done]. cbn [negb fst snd have_ok].
    rewrite ztake_all by lia. split; [done|lia].
  - destruct (gen_random_uuid urandom) as [uu|e|]; [|done..]. destruct (symlinkat _ _ _) as [eno g].
    by destruct (eno =? 0), (negb (eno =? EEXIST)).
  - destruct (creat_close _ _) as [eno g]. by destruct (negb _).
Qed.

Lemma uuid_steps_spec stale n urandom pc f : have_ok pc f ->
  have_ok (uuid_steps stale n urandom pc f).1 (uuid_steps stale n urandom pc f).2
  /\ forall p, simple p -> is_dir (uuid_steps stale n urandom pc f).2 p = is_dir f p.
Proof.
  revert pc f. induction n as [|n IH]; intros pc f Hpc; cbn [uuid_steps]; [done|].
  pose proof (uuid_step_have stale urandom pc f Hpc) as H1.
  pose proof (fun p Hp => uuid_step_dirs stale urandom pc f p Hp) as H2.
  destruct (uuid_step stale urandom pc f) as [pc1 f1]. cbn [fst snd] in *. destruct (IH pc1 f1 H1) as [I1 I2].
  split; [done|]. intros p Hp. by rewrite I2, H2.
Qed.
(** The names that are looked for. *)
Definition zeros (h : Z) : bytes := reldirname h 0.

Lemma zeros_simple h : 1 <= h -> simple (zeros h).
Proof. apply reldirname_simple. Qed.

Lemma find_hexdigits_spec f : 
  match find_hexdigits f with
  | Some z => exists h, 1 <= h <= 4 /\ z = zeros h /\ is_dir f (zeros h) = true
      /\ forall k, 1 <= k < h -> is_dir f (zeros k) = false
  | None => forall k, 1 <= k <= 4 -> is_dir f (zeros k) = false
  end.
Proof.
  assert (forall k, 1 <= k <= 4 -> k = 1 \/ k = 2 \/ k = 3 \/ k = 4) as Hk by lia.
  unfold find_hexdigits. cbn [List.find].
  change (lit "0") with (zeros 1). change (lit "00") with (zeros 2). change (lit "000") with (zeros 3). change (lit "0000") with (zeros 4).
  destruct (is_dir f (zeros 1)) eqn:E1; [exists 1; split_and!; [lia..|done|done|lia]|].
  destruct (is_dir f (zeros 2)) eqn:E2; [exists 2; split_and!; [lia..|done|done|]|].
  { intros k Hk'. by replace k with 1 by lia. }
  destruct (is_dir f (zeros 3)) eqn:E3; [exists 3; split_and!; [lia..|done|done|]|].
  { intros k Hk'. assert (k = 1 \/ k = 2) as [-> | ->] by lia; done. }
  destruct (is_dir f (zeros 4)) eqn:E4; [exists 4; split_and!; [lia..|done|done|]|];
    intros k Hk'; destruct (Hk k) as [->|[->|[->| ->]]]; lia || done.
Qed.

Lemma choose_unique f h s : 1 <= h <= 4 -> is_dir f (zeros h) = true -> (forall k, 1 <= k < h -> is_dir f (zeros k) = false) ->
  choose_hexdigits s f = h.
Proof.
  intros Hh Hd Hk. unfold choose_hexdigits. pose proof (find_hexdigits_spec f) as Hf.
  destruct (find_hexdigits f) as [z|]; [|by rewrite Hf in Hd].
  destruct Hf as (h' & Hh' & -> & Hd' & Hk').
  assert (h' = h) as ->.
  { destruct (Z.lt_trichotomy h h') as [Hlt|[Heq|Hlt]]; [by rewrite Hk' in Hd by lia|done|by rewrite Hk in Hd' by lia]. }
  assert (h = 1 \/ h = 2 \/ h = 3 \/ h = 4) as [->|[->|[->| ->]]] by lia; reflexivity.
Qed.

Lemma choose_spec f s : 1 <= s <= 4 -> let h := choose_hexdigits s f in
  1 <= h <= 4 /\ forall k, 1 <= k < h -> is_dir f (zeros k) = false.
Proof.
  intros Hs. cbv zeta. unfold choose_hexdigits. pose proof (find_hexdigits_spec f) as Hf.
  destruct (find_hexdigits f) as [z|]; [|split; [done|intros; apply Hf; lia]].
  destruct Hf as (h & Hh & -> & _ & Hk).
  assert (zlen (zeros h) = h) as ->; [|done].
  assert (h = 1 \/ h = 2 \/ h = 3 \/ h = 4) as [->|[->|[->| ->]]] by lia; reflexivity.
Qed.

Lemma reldirname_long h i : h <= zlen (reldirname h i).
Proof. unfold reldirname. rewrite zlen_app, zlen_replicate. lia. Qed.

Lemma zeros_length h : 1 <= h <= 4 -> zlen (zeros h) = h.
Proof. intros Hh. assert (h = 1 \/ h = 2 \/ h = 3 \/ h = 4) as [->|[->|[->| ->]]] by lia; reflexivity. Qed.

(** C27.  A cache that was opened: it has between 16 and 65536 sub-directories,
    all of which are there; its UUID has 36 characters and is the target of the
    link; whoever opens the root again, with whatever limit on the number of
    files, gets the same layout; and the path of every file the cache writes
    is in one of the directories that the evictor, which starts among them,
    visits. *)
Theorem cache_opened stale libm_log2 urandom root maxfiles f o f' :
  open_diskcache stale libm_log2 urandom root maxfiles f = (Ret o, f') ->
  let h := o_hexdigits o in
  1 <= h <= 4 /\ o_Ndirs o = 16 ^ h
  /\ (forall i, 0 <= i < o_Ndirs o -> is_dir f' (reldirname h i) = true)
  /\ uuid_link f' = Some (o_uuid o) /\ zlen (o_uuid o) = 36
  /\ (forall suggested, choose_hexdigits suggested f' = h)
  /\ 0 <= dir_to_evict (o_evictor o) < o_Ndirs o
  /\ (forall g s, DiskCache.hexdigits g = h ->
      exists i rest, 0 <= i < o_Ndirs o /\ hash g s = reldirname h i ++ lit "/" ++ rest).
Proof.
  intros E. unfold open_diskcache in E.
  apply M_bind_inv in E as (? & f1 & _ & E). apply M_bind_inv in E as (? & f2 & _ & E).
  apply M_bind_inv in E as (? & f3 & _ & E). apply M_bind_inv in E as (sug & f4 & Hsug & E).
  apply M_bind_inv in E as (f5 & f6 & Hget & E). injection Hget as <- <-.
  apply M_bind_inv in E as (uu & f7 & Hroot & E). injection E as <- <-. cbn [o_hexdigits o_Ndirs o_uuid o_evictor dir_to_evict].
  assert (1 <= sug <= 4) as Hs.
  { injection Hsug as Hsug _. apply bind_Ret in Hsug as (n & _ & Hn). injection Hn as <-.
    unfold clip_int. destruct (4 <? n) eqn:E1; [lia|]. destruct (n <? 1) eqn:E2; lia. }
  destruct (choose_spec f4 sug Hs) as [Hh Hk]. set (h := choose_hexdigits sug f4) in *. clearbody h.
  assert (Z.shiftl 1 (4 * h) = 16 ^ h) as HN.
  { rewrite Z.shiftl_mul_pow2 by lia. change 16 with (2 ^ 4). rewrite <- Z.pow_mul_r by lia. lia. }
  rewrite HN in *. assert (0 < 16 ^ h) as Hpos by (apply Z.pow_pos_nonneg; lia).
  apply M_bind_inv in Hroot as ([] & f8 & Hmk & Huu).
  destruct (make_dirs_spec h (Z.to_nat (16 ^ h)) 0 f4 f8 ltac:(lia) Hmk) as (D1 & _ & D3). rewrite Z2Nat.id, Z.add_0_l in * by lia.
  destruct (uuid_steps_spec stale 4 urandom (ReadLink 0) f8 I) as [Hu Hd]. unfold get_uuid in Huu.
  destruct (uuid_steps stale 4 urandom (ReadLink 0) f8) as [pc f9]. cbn [fst snd] in *.
  destruct pc as [| | |u|]; try discriminate Huu. injection Huu as -> ->. destruct Hu as [Hu1 Hu2].
  assert (forall i, 0 <= i < 16 ^ h -> is_dir f7 (reldirname h i) = true) as Hdirs.
  { intros i Hi. rewrite Hd by (apply reldirname_simple; lia). by apply D1. }
  split_and!; [lia|lia|done|exact Hdirs|exact Hu1|exact Hu2| |lia|lia|].
  - intros s'. apply choose_unique; [done|by apply Hdirs|].
    intros k Hk'. destruct (is_dir f7 (zeros k)) eqn:Ek; [|done]. exfalso.
    rewrite Hd in Ek by (apply zeros_simple; lia).
    apply D3 in Ek as [Ek|(j & _ & Ek)]; [|pose proof (reldirname_long h j) as Hl|apply zeros_simple; lia].
    + by rewrite Hk in Ek by lia.
    + rewrite <- Ek, zeros_length in Hl by lia. lia.
  - intros g s <-. by apply hash_dir.
Qed.
End LayoutSpec.

(** ** A root directory for the examples *)

Record toy_root := ToyRoot { t_dirs : list bytes; t_link : option bytes; t_files : list bytes }.

#[export] Instance toy_ops : RootFs toy_root := {
  cwd_mkdirat _ _ f := (0, f);
  cwd_is_dir _ _ := true;
  open_dir _ _ := 0;
  mkdirat q _ f := if bool_decide (q ∈ t_dirs f) then (EEXIST, f)
                   else (0, ToyRoot (q :: t_dirs f) (t_link f) (t_files f));
  is_dir f q := bool_decide (q ∈ t_dirs f);
  readlinkat q f := if bool_decide (q = lit ".uuid") then match t_link f with Some t => inr t | None => inl ENOENT end
                    else inl ENOENT;
  symlinkat t q f := if bool_decide (q = lit ".uuid") then
                       match t_link f with
                       | Some _ => (EEXIST, f)
                       | None => (0, ToyRoot (t_dirs f) (Some t) (t_files f))
                       end
                     else (ENOENT, f);
  creat_close u f := (0, ToyRoot (t_dirs f) (t_link f) (u :: t_files f))
}.

#[export] Instance toy_laws : RootFsLaws toy_root.
Proof.
  refine {| uuid_link := t_link |}.
  - done.
  - intros u f eno f' E. cbn in E. rewrite bool_decide_eq_true_2 in E by done.
    destruct (t_link f) eqn:El; injection E as <- <-; cbn; [split; [done|by eexists]|done].
  - intros u f eno f' [= <- <-]. done.
  - intros u q f _. cbn [symlinkat toy_ops is_dir]. rewrite (bool_decide_eq_true_2 (lit ".uuid" = lit ".uuid")) by done.
    by destruct (t_link f).
  - done.
  - intros q m f eno f' _ E p _. cbn in *. case_bool_decide as Eq; injection E as <- <-; cbn; [done|].
    destruct (decide (p = q)) as [->|Hne].
    + rewrite (bool_decide_eq_true_2 (q = q)) by done. apply bool_decide_eq_true_2. by left.
    + rewrite (bool_decide_eq_false_2 (p = q)) by done. apply bool_decide_ext. rewrite elem_of_cons.
      split; [by intros [?|?]|by right].
Defined.

(** [log2], right on powers of two. *)
Definition toy_log2 (x : float) : float :=
  match x with
  | S754_finite false m e => of_int F64 (flog2 m e)
  | S754_zero _ => S754_infinity true
  | _ => S754_nan
  end.
Definition toy_random (seed : Z) : Z + list Z := inr (map (fun i => (seed * 37 + Z.of_nat i * 29) mod 256) (seq 0 16)).
Definition toy_uuid (seed : Z) : bytes := match gen_random_uuid (toy_random seed) with Ret u => u | _ => [] end.

(** 256000 files: 256 times a thousand, so two digits; a million: two; ten
    million: three.  With no files at all, the logarithm of zero is converted
    to [int]. *)
Example suggestions :
  suggested_hexdigits toy_log2 256000 = Ret 2 /\ suggested_hexdigits toy_log2 1024000 = Ret 2
  /\ suggested_hexdigits toy_log2 8192000 = Ret 3 /\ suggested_hexdigits toy_log2 1000 = Ret 1
  /\ suggested_hexdigits toy_log2 0 = Undef.
Proof. repeat split. Qed.

Example a_uuid : toy_uuid 5 = lit "b9d6f310-2d4a-4784-a1be-dbf815324f6c".
Proof. by vm_compute. Qed.

(** The second process finds no link, but comes too late to make it. *)
Example late :
  uuid_race 0 (fun i => toy_random (Z.of_nat i)) [0; 1; 0; 1; 1]%nat (replicate 2 (ReadLink 0), ToyRoot [] None [])
  = ([MakeTarget 1 (toy_uuid 0); Have (toy_uuid 0)], ToyRoot [] (Some (toy_uuid 0)) []).
Proof. by vm_compute. Qed.

Lemma gen_random_uuid_text_witness : exists a b c v d e,
  gen_random_uuid (inr (map (fun i => (5 * 37 + Z.of_nat i * 29) mod 256) (seq 0 16)))
  = Ret (a ++ dash ++ b ++ dash ++ lit "4" ++ c ++ dash ++ [v] ++ d ++ dash ++ e)
  /\ map length [a; b; c; d; e] = [8; 4; 3; 3; 12]%nat.
Proof.
  destruct (gen_random_uuid_text (map (fun i => (5 * 37 + Z.of_nat i * 29) mod 256) (seq 0 16)))
    as (a & b & c & v & d & e & H1 & H2 & _); [done| |by exists a, b, c, v, d, e].
  apply Forall_map, Forall_forall. intros i _. apply Z.mod_pos_bound. lia.
Defined.

Lemma uuid_race_agree_witness :
  exists u, (uuid_race 0 (fun i => toy_random (Z.of_nat i)) [0; 1; 1; 0; 1; 1; 0; 0; 0]%nat
      (replicate 2 (ReadLink 0), ToyRoot [] None [])).1 !! 1%nat = Some (Have u).
Proof.
  assert (link_ok (ToyRoot [] None [])) as Hok by done.
  apply (uuid_race_agree 0 (fun i => toy_random (Z.of_nat i)) [0; 1; 1; 0; 1; 1; 0; 0; 0]%nat 2 (ToyRoot [] None []) Hok).
  - split; [|done]. intros u f. cbn. rewrite bool_decide_eq_true_2 by done. destruct (t_link f); [by right|by left].
  - lia.
  - by eexists.
  - cbn. lia.
Defined.

Lemma cache_opened_witness :
  exists o f', open_diskcache 0 toy_log2 (toy_random 5) (lit "/cache") 6103 (ToyRoot [] None []) = (Ret o, f')
    /\ choose_hexdigits 4 f' = o_hexdigits o.
Proof.
  pose (r := open_diskcache 0 toy_log2 (toy_random 5) (lit "/cache") 6103 (ToyRoot [] None [])).
  assert (exists o f', r = (Ret o, f')) as (o & f' & E) by (eexists _, _; vm_compute; reflexivity).
  exists o, f'. split; [exact E|].
  destruct (cache_opened 0 toy_log2 (toy_random 5) (lit "/cache") 6103 (ToyRoot [] None []) o f' E) as (_ & _ & _ & _ & _ & H & _).
  exact (H 4).
Defined.
