(* ===== verification/MountInit.v ===== *)
(** * Starting and stopping the mount (exe/fs123p7/app_mount.cpp)

    [fs123_init] reads the options from environment variables, where
    fuseful.cpp put those of the command line ([gardenfs_opt_proc]), checks
    that the secrets fit together, stacks the backends, and starts the command
    pipe; [fs123_destroy] stops it.  The variables of [volatiles_t]
    (volatiles.hpp) are read when it is constructed.

    The calls on the system, the constructors of the disk cache and the
    distributed cache and the literal numbers with a decimal point are
    parameters.  Globals that are only read after [fs123_init] has returned are
    fields of its result; those of the command pipe, which [fs123_destroy]
    uses even when [fs123_init] failed, are a state.

    Theorems: which combinations of secrets are accepted, that the default
    is the safest, and that with it nothing but envelopes is sent; that every
    request to the topmost backend ends at
    the http backend; that the fallback urls are the words of the option; and
    that three of the options of the command line do nothing. *)

From Stdlib Require Import Ascii String ZArith Lia.
From stdpp Require Import base gmap strings list numbers.
From S2P Require Import Prelude.
From S2P Require Import ScanInt.
From S2P Require Import StrUtils.
From S2P Require Import Threeroe.
From S2P Require Import SvTo.
From S2P Require Import Backend.
From S2P Require Import BackendHttp.
From S2P Require Import Inomap.
From S2P Require Import Secrets.
From S2P Require Import UcharSpan.
From S2P Require Import ContentCodec.
From S2P Require Import Expiring.
From S2P Require Import ServerParse.
From S2P Require Import Envelope.
From S2P Require Import ClientReply.
From S2P Require Import Beget.
From S2P Require Import MountIoctl.

#[local] Open Scope Z_scope.

(** ** Definitions *)

(** *** Options *)

Abbreviation environment := (gmap bytes bytes).

(** What libfuse's parser calls [gardenfs_opt_proc] with: an option of ours, an
    argument that is not an option, or anything else, which is passed on. *)
Inductive fuse_key := KEY_PUTENV | FUSE_OPT_KEY_NONOPT | FUSE_OPT_KEY_OPT.

Record opt_state := OptState { os_env : environment; os_device : option bytes; os_out : list bytes }.

Definition gardenfs_opt_proc (st : opt_state) (ev : fuse_key * bytes) : opt_state :=
  let '(key, arg) := ev in
  match key with
  | KEY_PUTENV =>
      let eqpos := find_char arg "="%char 0 in
      let k := if eqpos =? npos then arg else ztake eqpos arg in
      let val := if eqpos =? npos then [] else zdrop (eqpos + 1) arg in
      OptState (<[c_str k := c_str val]> (os_env st)) (os_device st) (os_out st)
  | FUSE_OPT_KEY_NONOPT =>
      match os_device st with
      | None => OptState (os_env st) (Some arg) (os_out st)
      | Some _ => OptState (os_env st) (os_device st) (os_out st ++ [arg])
      end
  | FUSE_OPT_KEY_OPT => OptState (os_env st) (os_device st) (os_out st ++ [arg])
  end.
Definition fuse_options_to_envvars (events : list (fuse_key * bytes)) (e : environment) : opt_state :=
  fold_left gardenfs_opt_proc events (OptState e None []).

(** The options of the command line that are put in the environment. *)
Definition mount_options : list string :=
  ["Fs123DiagNames"; "Fs123DiagDestination"; "Fs123TruncateTo32BitIno"; "Fs123FallbackUrls"; "Fs123ProtoMinor";
   "Fs123LogDestination"; "Fs123LogMinLevel"; "Fs123LogMaxHourlyRate"; "Fs123LogRateWindow"; "Fs123CommandPipe";
   "Fs123Subprocess"; "Fs123IdleTimeoutMinutes"; "Fs123Chunk"; "Fs123LocalLocks"; "Fs123Rundir";
   "Fs123BuggyAutomountWorkaround"; "Fs123Nice"; "Fs123AttrCacheSize"; "Fs123LinkCacheSize"; "Fs123StaleIfError";
   "Fs123PrivilegedServer"; "Fs123SquashAll"; "Fs123SquashRoot"; "Fs123Sharedkeydir"; "Fs123SharedkeydirRefresh";
   "Fs123EncodingKeyidFile"; "Fs123SendPlaintextRequests"; "Fs123AcceptPlaintextReplies";
   "Fs123IgnoreEstaleMismatch"; "Fs123SupportXattr"; "Fs123SignalFile"; "Fs123MallocArenaMax";
   "Fs123MulticastTimestampSkew"; "Fs123RetryTimeout"; "Fs123RetryInitialMillis"; "Fs123RetrySaturate";
   "Fs123MaintenanceInterval"; "Fs123SO_RCVBUF"; "Fs123SSLNoVerifyPeer"; "Fs123SSLNoVerifyHost";
   "Fs123TransferTimeout"; "Fs123ConnectTimeout"; "Fs123PeerTransferTimeout"; "Fs123PeerConnectTimeout";
   "Fs123LoadTimeoutFactor"; "Fs123NameCache"; "Fs123NameCacheSize"; "Fs123Mlockall"; "Fs123Disconnected";
   "Fs123NoKernelDataCaching"; "Fs123NoKernelAttrCaching"; "Fs123NoKernelDentryCaching"; "Fs123NetrcFile";
   "Fs123CacheTag"; "Fs123HttpMaxRedirects"; "Fs123CurlHandlesRedirects"; "Fs123CacheDir";
   "Fs123PastStaleWhileRevalidate"; "Fs123CacheMaxMBytes"; "Fs123CacheMaxFiles"; "Fs123EvictLwm";
   "Fs123EvictTargetFraction"; "Fs123EvictThrottleLWM"; "Fs123EvictPeriodMinutes"; "Fs123RefreshThreads";
   "Fs123RefreshBacklog"; "Fs123ForegroundSerialize"; "Fs123DistribCacheExperimental"; "Fs123DistribCacheReflector";
   "Fs123DistribCacheMulticastLoop"; "Fs123DangerousNoDistribCacheAbsentOnShutdown"; "http_proxy"; "https_proxy";
   "Fs123Trampoline"].

(** *** [envto] *)

(** [envto<T>(name, dflt)], for the [T] that [scan] reads. *)
Definition envto {A} (scan : bytes -> outcome A) (e : environment) (name : string) (dflt : A) : outcome A :=
  match e !! lit name with Some v => scan v | None => Ret dflt end.
Definition envto_string (e : environment) (name : string) (dflt : bytes) : outcome bytes :=
  envto (fun v => Ret v) e name dflt.
Definition envto_bool : environment -> string -> bool -> outcome bool := envto (svto_with (scanint_b 0 true)).
Definition envto_int (t : itype) : environment -> string -> Z -> outcome Z := envto (fun v => svto t v 0).

(** *** [volatiles_t] *)

(** The variable each member is read from. *)
Definition volatile_name (v : volatile) : string :=
  match v with
  | V_disconnected => "Fs123Disconnected"
  | V_connect_timeout => "Fs123ConnectTimeout"
  | V_transfer_timeout => "Fs123TransferTimeout"
  | V_peer_connect_timeout => "Fs123PeerConnectTimeout"
  | V_peer_transfer_timeout => "Fs123PeerTransferTimeout"
  | V_http_maxredirects => "Fs123HttpMaxRedirects"
  | V_curl_handles_redirects => "Fs123CurlHandlesRedirects"
  | V_namecache => "Fs123NameCache"
  | V_load_timeout_factor => "Fs123LoadTimeoutFactor"
  | V_no_verify_peer => "Fs123NoVerifyPeer"
  | V_no_verify_host => "Fs123NoVerifyHost"
  | V_so_rcvbuf => "Fs123SO_RCVBUF"
  | V_retry_timeout => "Fs123RetryTimeout"
  | V_retry_initial_millis => "Fs123RetryInitialMillis"
  | V_retry_saturate => "Fs123RetrySaturate"
  | V_ignore_estale_mismatch => "Fs123IgnoreEstaleMismatch"
  | V_maintenance_interval => "Fs123MaintenanceInterval"
  | V_mlockall => "Fs123Mlockall"
  | V_namecache_size => "Fs123NameCacheSize"
  | V_evict_lwm => "Fs123EvictLwm"
  | V_evict_target_fraction => "Fs123EvictTargetFraction"
  | V_evict_throttle_lwm => "Fs123EvictThrottleLwm"
  | V_evict_period_minutes => "Fs123EvictPeriodMinutes"
  | V_dc_maxmbytes => "Fs123CacheMaxMBytes"
  | V_dc_maxfiles => "Fs123CacheMaxFiles"
  | V_multicast_timestamp_skew => "Fs123MulticastTimestampSkew"
  end.

Section Init.
(** [float_lit n d] is the literal [n / 10^d]. *)
Context {F : Type} `{!Floats F} (float_lit : Z -> Z -> F).

Definition vmap : Type := volatile -> value F.
Definition vset (v : volatile) (x : value F) (m : vmap) : vmap := fun v' => if decide (v' = v) then x else m v'.

(** The initializers, some of which use members above them. *)
Definition volatile_default (m : vmap) (v : volatile) : value F :=
  match v with
  | V_disconnected | V_no_verify_peer | V_no_verify_host | V_ignore_estale_mismatch | V_mlockall => VBool false
  | V_curl_handles_redirects | V_namecache => VBool true
  | V_connect_timeout => VInt 20
  | V_transfer_timeout => VInt 40
  | V_peer_connect_timeout => m V_connect_timeout
  | V_peer_transfer_timeout => m V_transfer_timeout
  | V_http_maxredirects => VInt 2
  | V_load_timeout_factor => VFloat (float_lit 15 1)
  | V_so_rcvbuf => VInt (24 * 1024)
  | V_retry_timeout => VInt 0
  | V_retry_initial_millis => VInt 100
  | V_retry_saturate => VInt 1
  | V_maintenance_interval => VInt 60
  | V_namecache_size => VInt 300
  | V_evict_lwm => VFloat (float_lit 7 1)
  | V_evict_target_fraction => VFloat (float_lit 8 1)
  | V_evict_throttle_lwm => VFloat (float_lit 9 1)
  | V_evict_period_minutes => VInt 60
  | V_dc_maxmbytes => VInt 100
  | V_dc_maxfiles => match m V_dc_maxmbytes with VInt n => VInt (u64 (n * 1000000) / 16384) | x => x end
  | V_multicast_timestamp_skew => VInt 10
  end.

Fixpoint volatiles_loop (l : list volatile) (e : environment) (m : vmap) : outcome vmap :=
  match l with
  | [] => Ret m
  | v :: l =>
      x ← envto (svto_value (vtype_of v)) e (volatile_name v) (volatile_default m v);
      volatiles_loop l e (vset v x m)
  end.
(** The members in the order of their declarations. *)
Definition volatiles_ctor (e : environment) : outcome vmap :=
  volatiles_loop all_volatiles e (fun _ => VBool false).

(** *** Configuration *)

(** What the system and the constructors of the backends answer. *)
Record init_sys := InitSys {
  sys_geteuid : Z;
  sys_getegid : Z;
  sys_getpwnam : bytes -> option (Z * Z);
  sys_getgrnam : bytes -> option Z;
  sys_open_keydir : bytes -> Z;                                  (* its errno, or 0 *)
  sys_diskcache : bytes -> Z -> outcome unit;                    (* the constructor of diskcache *)
  sys_distrib_cache : outcome unit;                              (* and of distrib_cache_backend *)
  sys_mkfifo : bytes -> Z;
  sys_open_fifo : bytes -> Z + Z;                                (* errno, or the descriptor *)
  sys_getpid : Z;
  sys_mlockall : Z
}.

Context (e : environment) (os : init_sys).

(** [*uidp] and [*gidp], which are 0 before. *)
Definition parse_uidgid (squash_s : bytes) : outcome (Z * Z) :=
  if bool_decide (squash_s = []) then Ret (0, 0) else
  if bool_decide (squash_s = lit "~") then Ret (sys_geteuid os, sys_getegid os) else
  '(U, G) ← split1 squash_s ":"%char;
  '(uid, gid) ← match svto T_u32 U 0 with
                | Ret uid => Ret (uid, 0)
                | Throw _ =>
                    match sys_getpwnam os (c_str U) with
                    | None => Throw (ESystem EINVAL)
                    | Some p => Ret p
                    end
                | Undef => Undef
                end;
  match G with
  | None => Ret (uid, gid)
  | Some G =>
      match svto T_u32 G 0 with
      | Ret gid => Ret (uid, gid)
      | Throw _ =>
          match sys_getgrnam os (c_str G) with
          | None => Throw (ESystem EINVAL)
          | Some gid => Ret (uid, gid)
          end
      | Undef => Undef
      end
  end.

(** The secrets: the directory of keys, the file with the name of the key to
    encrypt with, and what is encrypted. *)
Record secrets_config := SecretsConfig {
  sharedkeydir_name : bytes;
  sharedkeydir_refresh : Z;
  encoding_keyid_file : option bytes;        (* with a secret manager *)
  encrypt_requests : bool;
  accept_plaintext_replies : bool;
  accepted_encodings : bytes
}.
Definition has_secret_mgr (c : secrets_config) : bool :=
  match encoding_keyid_file c with Some _ => true | None => false end.

Definition init_secrets : outcome secrets_config :=
  name ← envto_string e "Fs123Sharedkeydir" [];
  refresh ← envto_int T_u32 e "Fs123SharedkeydirRefresh" 43200;
  keyid ← (if bool_decide (name = []) then Ret None else
           f ← envto_string e "Fs123EncodingKeyidFile" (lit "encoding");
           if negb (sys_open_keydir os name =? 0) then Throw (ESystem (sys_open_keydir os name)) else Ret (Some f));
  let secret_mgr := match keyid with Some _ => true | None => false end in
  plain_requests ← envto_bool e "Fs123SendPlaintextRequests" (negb secret_mgr);
  let encrypt := negb plain_requests in
  let accept_secretbox := secret_mgr in
  accept_plain ← envto_bool e "Fs123AcceptPlaintextReplies" (negb secret_mgr);
  if negb secret_mgr && encrypt then Throw (ESystem EINVAL) else
  if negb accept_secretbox && negb accept_plain then Throw (ESystem EINVAL) else
  if encrypt && accept_plain then Throw (ESystem EINVAL) else
  let encodings := if accept_secretbox && negb accept_plain then lit "fs123-secretbox,*;q=0"
                   else if accept_secretbox then lit "fs123-secretbox" else [] in
  Ret (SecretsConfig name refresh keyid encrypt accept_plain encodings).

Definition fs123_protocol_minor_min : Z := 2.
Definition fs123_protocol_minor_max : Z := 3.
Definition init_proto_minor : outcome Z :=
  minor ← envto_int T_int e "Fs123ProtoMinor" 3;
  if minor <? fs123_protocol_minor_min then Throw (ESystem EINVAL) else
  if fs123_protocol_minor_max <? minor then Throw (ESystem EINVAL) else Ret minor.

(** *** The backends *)

(** "| \t\n\f" *)
Definition fallback_sep : bytes := map chr [124; 32; 9; 10; 12].

Fixpoint fallback_loop (fuel : nat) (g : req_config) (fallbacks : bytes) (e : Z) (acc : list bytes) : outcome (list bytes) :=
  let b := first_not_in fallback_sep fallbacks e in
  if b =? npos then Ret acc else
  match fuel with
  | O => Undef
  | S fuel =>
      let e := first_in fallback_sep fallbacks b in
      url ← substr fallbacks b (u64 (e - b));
      with_sigil ← add_sigil_version g url;
      fallback_loop fuel g fallbacks e (acc ++ [with_sigil])
  end.

Inductive backend := B_http | B_diskcache | B_distrib.
#[export] Instance backend_eq_dec : EqDecision backend.
Proof. solve_decision. Defined.

Record stack := Stack {
  baseurl : bytes;
  http_urls : list bytes;                          (* with the fallbacks *)
  be : backend;                                    (* whom the callbacks ask *)
  diskcache : option (bytes * Z * backend);        (* its directory, seed and upstream *)
  distrib : option (backend * backend)             (* its upstream and its server backend *)
}.

Definition init_stack (g : req_config) (device : bytes) (dc_maxmbytes : Z) : outcome stack :=
  baseurl ← add_sigil_version g device;
  fallbacks ← envto_string e "Fs123FallbackUrls" [];
  urls ← (if bool_decide (fallbacks = []) then Ret [] else fallback_loop (S (length fallbacks)) g fallbacks 0 []);
  cache_dir ← envto_string e "Fs123CacheDir" [];
  let seed := hash64 (threeroe_of baseurl 0 0) in
  let with_disk := negb (bool_decide (cache_dir = [])) && negb (dc_maxmbytes =? 0) in
  (if with_disk then sys_diskcache os cache_dir seed else Ret tt);;
  style ← envto_string e "Fs123DistribCacheExperimental" [];
  let urls := baseurl :: urls in
  if bool_decide (style = []) then
    Ret (if with_disk then Stack baseurl urls B_diskcache (Some (cache_dir, seed, B_http)) None
         else Stack baseurl urls B_http None None)
  else if negb with_disk then Throw (ESystem EINVAL)
  else if bool_decide (style = lit "diskcache-in-front") then
    sys_distrib_cache os;;
    Ret (Stack baseurl urls B_diskcache (Some (cache_dir, seed, B_distrib)) (Some (B_http, B_diskcache)))
  else if bool_decide (style = lit "diskcache-behind") then
    sys_distrib_cache os;;
    Ret (Stack baseurl urls B_distrib (Some (cache_dir, seed, B_http)) (Some (B_diskcache, B_diskcache)))
  else Throw (ESystem EINVAL).

(** *** [fs123_init] *)

Record mount_init := MountInit {
  i_Fs123Chunk : Z;
  i_req : req_config;                        (* cachetag, proto_minor and the defaults of requests *)
  i_st_ino_mask : Z;
  i_squash_all : Z * Z;
  i_squash_root : Z * Z;
  i_privileged_server : bool;
  i_secrets : secrets_config;
  i_volatiles : vmap;
  i_netrc_file : bytes;
  i_stack : stack;
  i_attrcachesz : Z;
  i_linkmapsz : Z;
  i_inos : inomap;
  i_no_kernel_data_caching : bool;
  i_no_kernel_attr_caching : bool;
  i_no_kernel_dentry_caching : bool
}.

(** All that comes before the command pipe. *)
Definition init_config (device : bytes) (g_mount_dotdot_ino : Z) : outcome mount_init :=
  chunk ← envto_int T_u64 e "Fs123Chunk" 128;
  tag ← envto_int T_u64 e "Fs123CacheTag" 0;
  let mask := match e !! lit "Fs123TruncateTo32BitIno" with Some _ => 2 ^ 32 - 1 | None => 2 ^ 64 - 1 end in
  s ← envto_string e "Fs123SquashAll" [];
  squash_all ← parse_uidgid s;
  s ← envto_string e "Fs123SquashRoot" [];
  squash_root ← parse_uidgid s;
  sie ← envto_int T_int e "Fs123StaleIfError" 864000;
  past_swr ← envto_int T_int e "Fs123PastStaleWhileRevalidate" 0;
  privileged ← envto_bool e "Fs123PrivilegedServer" true;
  secrets ← init_secrets;
  minor ← init_proto_minor;
  vols ← volatiles_ctor e;
  netrc ← envto_string e "Fs123NetrcFile" [];
  let g := ReqConfig tag minor sie past_swr in
  dc_maxmbytes ← (match vols V_dc_maxmbytes with VInt n => Ret n | _ => Undef end);
  st ← init_stack g device dc_maxmbytes;
  attrcachesz ← envto_int T_u64 e "Fs123AttrCacheSize" 100000;
  linkmapsz ← envto_int T_u64 e "Fs123LinkCacheSize" 10000;
  data ← envto_bool e "Fs123NoKernelDataCaching" false;
  attr ← envto_bool e "Fs123NoKernelAttrCaching" false;
  dentry ← envto_bool e "Fs123NoKernelDentryCaching" false;
  Ret (MountInit chunk g mask squash_all squash_root privileged secrets vols netrc st attrcachesz linkmapsz
         (inomap_init g_mount_dotdot_ino) data attr dentry).

(** *** The command pipe *)

(** The globals of the pipe; then the names made and unlinked, and the
    descriptors written to and closed. *)
Record pipe_state := PipeState {
  named_pipe_name : bytes;
  named_pipe_done : bool;
  named_pipe_fd : Z;
  named_pipe_thread : bool;                  (* joinable *)
  fifos_made : list bytes;
  names_unlinked : list bytes;
  fds_written : list Z;
  fds_closed : list Z
}.
Definition pipe_state0 : pipe_state := PipeState [] false 0 false [] [] [] [].

Definition set_pipe_name (n : bytes) (s : pipe_state) : pipe_state :=
  PipeState n (named_pipe_done s) (named_pipe_fd s) (named_pipe_thread s) (fifos_made s) (names_unlinked s)
    (fds_written s) (fds_closed s).
Definition made_fifo (n : bytes) (s : pipe_state) : pipe_state :=
  PipeState (named_pipe_name s) false (named_pipe_fd s) (named_pipe_thread s) (fifos_made s ++ [n]) (names_unlinked s)
    (fds_written s) (fds_closed s).
Definition started_pipe (fd : Z) (s : pipe_state) : pipe_state :=
  PipeState (named_pipe_name s) (named_pipe_done s) fd true (fifos_made s) (names_unlinked s)
    (fds_written s) (fds_closed s).

Definition start_pipe : M pipe_state unit :=
  name ← lift (envto_string e "Fs123CommandPipe" []);
  modify (set_pipe_name name);;
  if bool_decide (name = []) then mret tt else
  let name := name ++ lit "." ++ to_string (sys_getpid os) in
  modify (set_pipe_name name);;
  if negb (sys_mkfifo os name =? 0) then raise (ESystem (sys_mkfifo os name)) else
  modify (made_fifo name);;
  match sys_open_fifo os name with
  | inl eno => raise (ESystem eno)
  | inr fd => modify (started_pipe fd)
  end.

(** What the callback returns, and whether [fuseful_init_failed] was called. *)
Definition fs123_init_try (device : bytes) (dotdot : Z) : M pipe_state (mount_init * bytes * Z) :=
  c ← lift (init_config device dotdot);
  start_pipe;;
  subprocesscmd ← lift (envto_string e "Fs123Subprocess" []);
  idle_timeout_minutes ← lift (envto_int T_u32 e "Fs123IdleTimeoutMinutes" 0);
  mlock ← lift (match i_volatiles c V_mlockall with VBool b => Ret b | _ => Undef end);
  (if (mlock : bool) && negb (sys_mlockall os =? 0) then raise (ESystem (sys_mlockall os)) else mret tt);;
  mret (c, subprocesscmd, idle_timeout_minutes).
Definition fs123_init (device : bytes) (dotdot : Z) : M pipe_state (option (mount_init * bytes * Z)) :=
  try_M (c ← fs123_init_try device dotdot; mret (Some c)) (fun _ => mret None).
End Init.

(** [fs123_destroy], as far as the pipe goes: it is called whether or not
    [fs123_init] succeeded. *)
Definition fs123_destroy (s : pipe_state) : pipe_state :=
  if bool_decide (named_pipe_name s = []) then s else
  PipeState (named_pipe_name s) true (-1) false (fifos_made s) (names_unlinked s ++ [named_pipe_name s])
    (fds_written s ++ [named_pipe_fd s]) (fds_closed s ++ [named_pipe_fd s]).
(** [fs123_crash] *)
Definition fs123_crash (s : pipe_state) : pipe_state :=
  if bool_decide (named_pipe_name s = []) then s else
  PipeState (named_pipe_name s) (named_pipe_done s) (named_pipe_fd s) (named_pipe_thread s) (fifos_made s)
    (names_unlinked s ++ [named_pipe_name s]) (fds_written s) (fds_closed s).

(** [named_pipe_func]: for each round whether the mount is shutting down and
    what [read] gave; the number of reports. *)
Fixpoint named_pipe_func (rounds : list (bool * option ascii)) : nat :=
  match rounds with
  | (false, Some cmd) :: rounds => ((if bool_decide (cmd = "s"%char) then 1 else 0) + named_pipe_func rounds)%nat
  | _ => 0%nat
  end.

(** *** Maintenance *)

(** What the tasks answer, and how full and how idle the mount is. *)
Record maintenance_sys := MaintenanceSys {
  secret_maintenance : option (outcome unit);       (* with a secret manager *)
  namecache_refresh : outcome unit;
  namecache_invariant : outcome unit;               (* [_check_invariant] *)
  distrib_maintenance : option (outcome unit);
  open_handles : Z;
  idle_elapsed : Z                                  (* in nanoseconds *)
}.
(** The name cache, and whether the shutdown was initiated. *)
Record maintenance_state := MaintenanceState { m_namecache : bool; m_shutdown : bool }.

Definition idle_timeout_expired (idle_timeout_minutes elapsed : Z) : bool :=
  if negb (idle_timeout_minutes =? 0) then idle_timeout_minutes * 60 * 1000000000 <? elapsed else false.

Definition regular_maintenance (idle_timeout_minutes : Z) (os : maintenance_sys) : M maintenance_state unit :=
  (match secret_maintenance os with Some r => lift r | None => mret tt end);;
  s ← get;
  (if m_namecache s then
     lift (namecache_refresh os);;
     try_M (lift (namecache_invariant os)) (fun _ => modify (fun s => MaintenanceState false (m_shutdown s)))
   else mret tt);;
  (match distrib_maintenance os with Some r => lift r | None => mret tt end);;
  if (open_handles os =? 0) && idle_timeout_expired idle_timeout_minutes (idle_elapsed os)
  then modify (fun s => MaintenanceState (m_namecache s) true) else mret tt.

(** The seconds until the next run. *)
Definition regular_maintenance_noexcept (idle_timeout_minutes maintenance_interval : Z) (os : maintenance_sys)
  : M maintenance_state Z :=
  try_M (regular_maintenance idle_timeout_minutes os) (fun _ => mret tt);;
  mret (Z.min 1 maintenance_interval).

(** *** What the callbacks go by *)

(** The settings [beget] and the rest read: [secret_mgr] is made from the
    directory of keys, and the volatiles are as they were read. *)
Definition vint {F} (x : value F) : Z := match x with VInt n => n | VBool b => Z.b2z b | VFloat _ => 0 end.
Definition vbool {F} (x : value F) : bool := match x with VBool b => b | _ => false end.
Definition mount_config_of {F} (i : mount_init (F := F)) (sm : secret_mgr) : mount_config :=
  let s := i_secrets i in let v := i_volatiles i in
  MountConfig (i_req i) (if has_secret_mgr s then Some sm else None) (encrypt_requests s) (accept_plaintext_replies s)
    (vbool (v V_ignore_estale_mismatch)) (vint (v V_retry_timeout)) (vint (v V_retry_initial_millis))
    (vint (v V_retry_saturate)) (i_Fs123Chunk i).

(** ** Secrets *)

Lemma envto_None {A} (scan : bytes -> outcome A) e name d : e !! lit name = None -> envto scan e name d = Ret d.
Proof. intros H. unfold envto. by rewrite H. Qed.

Lemma init_secrets_inv e os c : init_secrets e os = Ret c ->
  (encrypt_requests c = true -> has_secret_mgr c = true /\ accept_plaintext_replies c = false)
  /\ (has_secret_mgr c = false -> accept_plaintext_replies c = true)
  /\ has_secret_mgr c = negb (bool_decide (sharedkeydir_name c = []))
  /\ sharedkeydir_name c = default [] (e !! lit "Fs123Sharedkeydir")
  /\ (has_secret_mgr c = true -> e !! lit "Fs123SendPlaintextRequests" = None ->
       e !! lit "Fs123AcceptPlaintextReplies" = None -> encrypt_requests c = true).
Proof.
  intros H. unfold init_secrets in H. apply bind_Ret in H as (name & Hname & H). apply bind_Ret in H as (refresh & _ & H).
  apply bind_Ret in H as (keyid & Hkey & H). cbv zeta in H. apply bind_Ret in H as (pr & Hpr & H).
  apply bind_Ret in H as (ap & Hap & H).
  assert (name = default [] (e !! lit "Fs123Sharedkeydir")) as Hn
    by (unfold envto_string, envto in Hname; destruct (e !! _); by injection Hname as <-).
  assert ((match keyid with Some _ => true | None => false end) = negb (bool_decide (name = []))) as Hmgr.
  { destruct (bool_decide (name = [])); [by injection Hkey as <-|]. apply bind_Ret in Hkey as (f & _ & Hkey).
    destruct (negb (sys_open_keydir os name =? 0)); [discriminate|by injection Hkey as <-]. }
  destruct (negb _ && negb pr) eqn:E1; [discriminate|]. destruct (negb _ && negb ap) eqn:E2; [discriminate|].
  destruct (negb pr && ap) eqn:E3; [discriminate|]. injection H as <-. unfold has_secret_mgr.
  cbn [encoding_keyid_file encrypt_requests accept_plaintext_replies sharedkeydir_name].
  split_and!; [| |exact Hmgr|exact Hn|].
  - destruct keyid, pr, ap; cbn in *; by try split.
  - destruct keyid, ap; cbn in *; done.
  - intros Hk Hp _. unfold envto_bool in Hpr. rewrite (envto_None _ _ _ _ Hp) in Hpr. injection Hpr as <-. by rewrite Hk.
Qed.

Lemma init_config_secrets {F} `{!Floats F} (lit_f : Z -> Z -> F) e os device dotdot i :
  init_config lit_f e os device dotdot = Ret i -> init_secrets e os = Ret (i_secrets i).
Proof.
  unfold init_config. intros H.
  repeat (apply bind_Ret in H; let x := fresh "x" in let E := fresh "E" in destruct H as (x & E & H); cbv zeta in H).
  injection H as <-. cbn [i_secrets]. assumption.
Qed.

Section Encrypting.
Context {W T} {UW : Upstream W} {HU : UMap Z begetattr_t T} `{SB : Secretbox} (cfg : mount_config) (sm : secret_mgr).
Hypothesis Hsm : secret_manager cfg = Some sm.

Hypothesis Henc : Beget.encrypt_requests cfg = true.
Hypothesis Hplain : Beget.accept_plaintext_replies cfg = false.

#[local] Abbreviation st := (cst (W := W) (T := T)).

(** A request that goes upstream for the urlstem [plain]: its own urlstem is the
    envelope [encrypt_request] makes of it. *)
Definition sealed (plain : bytes) (r : req123) : Prop :=
  exists junk, encrypt_request sm junk plain = Ret (urlstem r).

(** [I] outlasts what the mount does to the world, where its requests are those
    in [R]. *)
Record outlasts (R : req123 -> Prop) (I : W -> Prop) : Prop := {
  ol_refresh r reply w : R r -> I w -> I (be_refresh r reply w).2;
  ol_now w : I w -> I (clk_now w).2;
  ol_sleep d w : I w -> I (sleep_for d w);
  ol_blob n w : I w -> I (fresh_blob n w).2;
  ol_entry p n w : I w -> I (notify_inval_entry p n w);
}.

Lemma encrypt_req_sealed req (s : st) req' s' : encrypt_req cfg req s = (Ret req', s') ->
  sealed (urlstem req) req'.
Proof.
  intros H. unfold encrypt_req in H. rewrite Henc, Hsm in H. cbn [negb] in H.
  apply M_bind_inv in H as (junk & s1 & _ & H). apply M_bind_inv in H as (stem & s2 & Es & H).
  injection H as <- _. unfold lift in Es. injection Es as Es _. by exists junk.
Qed.

(** *** What [beget] does to the world *)

Section Outlasts.
Context (fuel : nat) (R : req123 -> Prop) (I : W -> Prop) (HI : outlasts R I).
Definition world_kept (s : st) : Prop := I (cworld s).
#[local] Abbreviation kept m := (keeps world_kept m (fun _ => True)).

Lemma kept_world {A} (f : W -> A * W) : (forall w, I w -> I (f w).2) -> kept (on_world (T := T) f).
Proof. intros Hf s Hs. unfold on_world. specialize (Hf _ Hs). by destruct (f (cworld s)). Qed.
Lemma kept_tell f : (forall w, I w -> I (f w)) -> kept (tell (T := T) f).
Proof. intros Hf. apply keeps_modify. intros s Hs. by apply Hf. Qed.
Lemma kept_inos {A} (f : M inomap A) : kept (on_inos (W := W) (T := T) f).
Proof. intros s Hs. unfold on_inos. by destruct (f (inos s)). Qed.
Lemma kept_bind {A B} (m : M st A) (k : A -> M st B) : kept m -> (forall a, kept (k a)) -> kept (m ≫= k).
Proof. intros Hm Hk. eapply keeps_bind; [exact Hm|]. intros a _. apply Hk. Qed.
Lemma kept_lift {A} (m : outcome A) : kept (lift (S := st) m).
Proof. by apply keeps_lift. Qed.
Lemma kept_ret {A} (a : A) : kept (mret (M := M st) a).
Proof. by apply keeps_ret. Qed.
Lemma kept_raise {A} e : kept (raise (S := st) (A := A) e).
Proof. apply keeps_raise. Qed.
Lemma kept_modify (f : st -> st) : (forall s, cworld (f s) = cworld s) -> kept (modify f).
Proof. intros Hf. apply keeps_modify. intros s Hs. unfold world_kept. by rewrite Hf. Qed.
Lemma kept_get : kept (get (S := st)).
Proof. eapply keeps_weaken; [apply keeps_get|done]. Qed.
Create HintDb kept.
#[local] Hint Resolve kept_inos kept_lift kept_ret kept_raise kept_get : kept.

Ltac keeping := repeat first
  [ progress auto with kept nocore
  | apply kept_modify; done
  | match goal with |- keeps _ (match ?x with _ => _ end) _ => destruct x end
  | match goal with |- keeps _ (_ ≫= _) _ => apply kept_bind; [|intros ?] end ].

Lemma kept_delay dm : kept (delay (T := T) dm).
Proof.
  unfold delay. destruct (end_time dm =? 0); [keeping|]. apply kept_bind; [apply kept_world, HI|intros now].
  destruct (end_time dm <? now); [keeping|]. apply kept_bind; [apply kept_tell; intros; by apply HI|keeping].
Qed.

Lemma kept_retry n dm req reply : R req -> kept (retry_loop (T := T) n dm req reply).
Proof.
  intros HR. revert dm reply. induction n as [|n IH]; intros dm reply; cbn [retry_loop]; [keeping|].
  apply kept_bind; [apply kept_world; intros; by apply HI|]. intros [r rep]. keeping; apply kept_delay || apply IH.
Qed.

Lemma kept_decode req : R req -> kept (beget_decode (T := T) cfg fuel req).
Proof.
  intros HR. unfold beget_decode, retrying_berefresh, delay_manager_ctor, decode_plaintext.
  apply kept_bind; [|intros; keeping]. apply kept_bind; [|intros; by apply kept_retry].
  case_match; [|keeping]. keeping. apply kept_world, HI.
Qed.

Lemma kept_encrypt {A} req (k : req123 -> M st A) :
  (forall req', sealed (urlstem req) req' -> kept (k req')) -> kept (encrypt_req cfg req ≫= k).
Proof.
  intros Hk s Hs. assert (kept (encrypt_req (T := T) cfg req)) as He.
  { unfold encrypt_req. keeping. apply kept_world. intros. by apply HI. }
  destruct (He s Hs) as [H1 _]. unfold mbind, M_bind.
  destruct (encrypt_req cfg req s) as [[req'|e|] s'] eqn:E; [|by split..].
  apply Hk; [by eapply encrypt_req_sealed|done].
Qed.

Lemma kept_cookie ino c : kept (cookie_mismatch (W := W) (T := T) cfg ino c).
Proof. unfold cookie_mismatch. keeping. Qed.

(** [beget] only lets the asked urlstem out in an envelope, and [beflush] the
    urlstem of the attributes. *)
Lemma kept_beget ino req chk :
  (forall r, sealed (urlstem req) r -> R r) ->
  (forall name r, sealed (urlstem (attrreq (m_req cfg) name)) r -> R r) ->
  kept (beget (T := T) cfg fuel ino req chk).
Proof.
  intros HR HF. assert (forall r, kept (mismatch (W := W) (T := T) cfg ino chk r)) as Hm.
  { intros r. unfold mismatch. keeping. apply kept_cookie. }
  unfold beget. apply kept_encrypt. intros req' Hreq.
  apply kept_bind; [by apply kept_decode, HR|]. intros reply. apply kept_bind; [apply Hm|]. intros []; cbn [negb]; [|keeping].
  apply kept_bind; [apply kept_decode, HR; exact Hreq|]. intros reply'.
  apply kept_bind; [apply Hm|]. intros []; cbn [negb]; [|keeping]. apply kept_bind; [keeping|]. intros [pino name].
  apply kept_bind; [apply kept_tell; intros; by apply HI|intros _]. apply kept_bind; [|keeping].
  unfold beflush, attrcache_erase, fullname. apply kept_bind; [keeping|intros _]. apply kept_bind; [keeping|]. intros nm.
  apply kept_encrypt. intros r Hr. apply kept_bind; [|intros []; keeping].
  apply kept_world. intros w. apply HI. by apply (HF nm).
Qed.
End Outlasts.

(** *** What [beget] returns *)

Lemma decode_opened fuel req (s : st) d s' : beget_decode cfg fuel req s = (Ret d, s') ->
  exists reply sp mem,
    content_decode CE_FS123_SECRETBOX (Span 0 (zlen (content reply)) 0 (zlen (content reply)))
      (get_sharedkey sm) (content reply) = (Ret sp, mem)
    /\ decoded_reply fuel (m_req cfg) reply (contents mem sp) (urlstem req) = Some (Ret d).
Proof.
  intros H. unfold beget_decode in H. apply M_bind_inv in H as (reply & s1 & Er & H). rewrite Hplain, Hsm in H.
  destruct (_ =? CE_IDENT); [discriminate|]. destruct (Z.eqb_spec (content_encoding reply) CE_FS123_SECRETBOX) as [Ec|]; [|discriminate].
  rewrite Ec in H. exists reply. destruct (content_decode _ _ _ _) as [[sp|x|] mem]; [|discriminate..].
  exists sp, mem. split; [done|]. unfold decode_plaintext in H.
  destruct (decoded_reply _ _ _ _ _) as [[r|e|]|]; unfold lift in H; [|discriminate..]. by injection H as -> _.
Qed.

Lemma beget_opened fuel ino req chk (s : st) d s' : beget cfg fuel ino req chk s = (Ret d, s') ->
  exists req' reply sp mem, sealed (urlstem req) req'
    /\ content_decode CE_FS123_SECRETBOX (Span 0 (zlen (content reply)) 0 (zlen (content reply)))
         (get_sharedkey sm) (content reply) = (Ret sp, mem)
    /\ decoded_reply fuel (m_req cfg) reply (contents mem sp) (urlstem req') = Some (Ret d).
Proof.
  unfold beget. intros H. apply M_bind_inv in H as (req' & s1 & Eq & H). apply encrypt_req_sealed in Eq.
  apply M_bind_inv in H as (r1 & s2 & E1 & H). apply M_bind_inv in H as (b1 & s3 & _ & H).
  destruct b1; cbn [negb] in H.
  - apply M_bind_inv in H as (r2 & s4 & E2 & H). apply M_bind_inv in H as (b2 & s5 & _ & H).
    destruct b2; cbn [negb] in H.
    + apply M_bind_inv in H as ([pino nm] & s6 & _ & H). apply M_bind_inv in H as ([] & s7 & _ & H).
      apply M_bind_inv in H as ([] & s8 & _ & H). discriminate H.
    + injection H as <- _. destruct (decode_opened _ _ _ _ _ E2) as (reply & sp & mem & Ho & Hd).
      by exists req', reply, sp, mem.
  - injection H as <- _. destruct (decode_opened _ _ _ _ _ E1) as (reply & sp & mem & Ho & Hd).
    by exists req', reply, sp, mem.
Qed.
End Encrypting.

(** C14.  What [fs123_init] accepts of the options about secrets: requests are
    only encrypted with a secret manager and when plaintext replies are
    refused, and without a secret manager plaintext replies are accepted.  A
    directory of keys and nothing else means to encrypt.  When requests are
    encrypted, whatever [beget] does, the requests it makes of the backend are
    envelopes that [encrypt_request] made of the urlstem it was asked for, or,
    to flush what is cached for a name, of the urlstem of that name's
    attributes: anything that such requests, the clock, sleeping, fresh memory
    and the notifications leave true of the world, [beget] leaves true.  And
    what it returns was read from a body that a shared key opened. *)
Theorem mount_secrets_safe {W T} {UW : Upstream W} {HU : UMap Z begetattr_t T} `{SB : Secretbox} {F} `{!Floats F}
    (lit_f : Z -> Z -> F) e os device dotdot i sm fuel :
  init_config lit_f e os device dotdot = Ret i ->
  let cfg := mount_config_of i sm in
  (Beget.encrypt_requests cfg = true -> secret_manager cfg = Some sm /\ Beget.accept_plaintext_replies cfg = false)
  /\ (secret_manager cfg = None -> Beget.accept_plaintext_replies cfg = true)
  /\ (default [] (e !! lit "Fs123Sharedkeydir") <> [] -> e !! lit "Fs123SendPlaintextRequests" = None ->
      e !! lit "Fs123AcceptPlaintextReplies" = None -> Beget.encrypt_requests cfg = true)
  /\ (Beget.encrypt_requests cfg = true -> forall ino req chk (s : cst (W := W) (T := T)),
      (forall I, outlasts (fun r => sealed sm (urlstem req) r
                            \/ exists name, sealed sm (urlstem (attrreq (m_req cfg) name)) r) I ->
         I (cworld s) -> I (cworld (beget cfg fuel ino req chk s).2))
      /\ (forall d s', beget cfg fuel ino req chk s = (Ret d, s') -> exists req' reply sp mem,
          sealed sm (urlstem req) req'
          /\ content_decode CE_FS123_SECRETBOX (Span 0 (zlen (content reply)) 0 (zlen (content reply)))
               (get_sharedkey sm) (content reply) = (Ret sp, mem)
          /\ decoded_reply fuel (m_req cfg) reply (contents mem sp) (urlstem req') = Some (Ret d))).
Proof.
  intros Hi cfg. apply init_config_secrets in Hi. destruct (init_secrets_inv _ _ _ Hi) as (H1 & H2 & Hm & Hn & Hd).
  unfold cfg, mount_config_of. cbn [Beget.encrypt_requests Beget.accept_plaintext_replies secret_manager].
  split_and!.
  - intros He. destruct (H1 He) as [-> ->]. done.
  - destruct (has_secret_mgr _); [done|auto].
  - intros Hne Hp Ha. apply Hd; [|done..]. rewrite Hm, bool_decide_eq_false_2; [done|]. by rewrite Hn.
  - intros He ino req chk s. destruct (H1 He) as [Hsm Hap]. split.
    + intros I HI HS. eapply (kept_beget _ sm) with (s := s); [..|exact HS]; cbn [secret_manager Beget.encrypt_requests];
        [by rewrite Hsm|exact He|exact HI|by left|right; by eexists].
    + intros d s' H. eapply beget_opened; [| | |exact H]; cbn; [by rewrite Hsm|exact He|exact Hap].
Qed.

(** ** Fallback urls *)

(** The pieces between separators, and those that are not empty. *)
Fixpoint split_by (sep l : bytes) : list bytes :=
  match l with
  | [] => [[]]
  | c :: l =>
      if bool_decide (c ∈ sep) then [] :: split_by sep l
      else match split_by sep l with w :: ws => (c :: w) :: ws | [] => [[c]] end
  end.
Definition words_by (sep l : bytes) : list bytes := List.filter (fun w => negb (bool_decide (w = []))) (split_by sep l).

Lemma split_by_span sep l : split_by sep l
  = (span_not sep l).1 :: match (span_not sep l).2 with [] => [] | _ :: r => split_by sep r end.
Proof.
  induction l as [|c l IH]; [done|]. cbn [split_by span_not]. destruct (bool_decide (c ∈ sep)); [done|].
  rewrite IH. by destruct (span_not sep l).
Qed.

Lemma words_by_blank sep c l : c ∈ sep -> words_by sep (c :: l) = words_by sep l.
Proof. intros Hc. unfold words_by. cbn [split_by]. by rewrite bool_decide_eq_true_2. Qed.

Lemma first_not_in_blanks sep pre b :
  first_not_in sep (pre ++ b) (zlen pre) = match b with
    | [] => npos
    | c :: b' => if bool_decide (c ∈ sep) then first_not_in sep ((pre ++ [c]) ++ b') (zlen (pre ++ [c])) else zlen pre
    end.
Proof.
  unfold first_not_in. rewrite zdrop_app by done. destruct b as [|c b]; [done|]. cbn [find_from].
  destruct (bool_decide (c ∈ sep)); [|done]. cbn [negb]. rewrite zdrop_app by done. f_equal. zlia.
Qed.

Fixpoint add_sigils (g : req_config) (l : list bytes) : outcome (list bytes) :=
  match l with [] => Ret [] | w :: l => x ← add_sigil_version g w; r ← add_sigils g l; Ret (x :: r) end.

Lemma find_from_npos_end p l : p [] = false -> find_from p (zdrop npos l) npos = npos \/ npos < zlen l.
Proof.
  intros Hp. destruct (Z.lt_ge_cases npos (zlen l)); [by right|left]. unfold zdrop, zlen in *. case_match; rewrite ?drop_ge by lia; unfold find_from; by rewrite Hp.
Qed.

Lemma fallback_loop_blank n g pre c b acc : c ∈ fallback_sep ->
  fallback_loop n g (pre ++ c :: b) (zlen pre) acc = fallback_loop n g ((pre ++ [c]) ++ b) (zlen (pre ++ [c])) acc.
Proof.
  intros Hc. assert (first_not_in fallback_sep (pre ++ c :: b) (zlen pre)
    = first_not_in fallback_sep ((pre ++ [c]) ++ b) (zlen (pre ++ [c]))) as E.
  { rewrite first_not_in_blanks. by rewrite bool_decide_eq_true_2. }
  assert (pre ++ c :: b = (pre ++ [c]) ++ b) as E2 by by rewrite <- app_assoc.
  destruct n; cbn [fallback_loop]; rewrite E, ?E2; reflexivity.
Qed.

Lemma fallback_loop_spec n g pre b acc : (length b < n)%nat -> zlen (pre ++ b) < npos ->
  fallback_loop n g (pre ++ b) (zlen pre) acc = (l ← add_sigils g (words_by fallback_sep b); Ret (acc ++ l)).
Proof.
  revert n pre acc. induction b as [b IH] using (induction_ltof1 _ (@length ascii)); unfold ltof in IH.
  intros n pre acc Hn Hl. destruct b as [|c b].
  { destruct n; cbn [fallback_loop]; rewrite first_not_in_blanks, Z.eqb_refl; cbn; by rewrite app_nil_r. }
  destruct (decide (c ∈ fallback_sep)) as [Hc|Hc].
  { rewrite fallback_loop_blank, words_by_blank by done. apply IH; [cbn; lia|cbn in Hn; lia|].
    rewrite <- app_assoc. exact Hl. }
  destruct n as [|n]; [lia|]. cbn [fallback_loop]. rewrite first_not_in_blanks, bool_decide_eq_false_2 by done.
  assert (zlen pre <> npos) as Hp by (revert Hl; zlen_simpl; pose proof (zlen_nonneg b); lia).
  rewrite (proj2 (Z.eqb_neq _ _) Hp). rewrite substr_until by done. cbn [mbind outcome_bind].
  unfold words_by. rewrite split_by_span, first_in_span.
  destruct (span_not fallback_sep (c :: b)) as [w r] eqn:Es. destruct (span_not_spec _ _ _ _ Es) as (Hs & _ & Hstop).
  cbn [fst snd] in *. assert (w <> []) as Hw.
  { cbn [span_not] in Es. rewrite bool_decide_eq_false_2 in Es by done. destruct (span_not fallback_sep b). by injection Es as <- _. }
  cbn [List.filter]. rewrite bool_decide_eq_false_2 by done. cbn [negb add_sigils].
  destruct (add_sigil_version g w) as [x|e|]; [|done..]. cbn [mbind outcome_bind].
  destruct r as [|d r].
  - cbn. destruct n; cbn [fallback_loop]; unfold first_not_in;
      (destruct (find_from_npos_end (fun l => match l with x :: _ => negb (bool_decide (x ∈ fallback_sep)) | [] => false end)
                  (pre ++ c :: b)) as [-> |]; [done| |lia]); by rewrite Z.eqb_refl.
  - rewrite Hs, app_assoc, <- zlen_app.
    assert (d ∈ fallback_sep) as Hd by (by destruct Hstop as [|(? & ? & [= -> ->] & ?)]).
    rewrite fallback_loop_blank by done.
    fold (words_by fallback_sep r). rewrite IH.
    + destruct (add_sigils g (words_by fallback_sep r)); cbn; [by rewrite <- app_assoc|done..].
    + rewrite Hs. rewrite length_app. cbn. lia.
    + apply (f_equal length) in Hs. rewrite length_app in Hs. cbn in Hs, Hn. destruct w; [done|]. cbn in Hs. lia.
    + rewrite Hs in Hl. rewrite <- !app_assoc. exact Hl.
Qed.

(** ** The stack of backends *)

(** Whom a backend asks what it does not know itself. *)
Definition upstream (st : stack) (b : backend) : option backend :=
  match b with
  | B_http => None
  | B_diskcache => match diskcache st with Some (_, _, up) => Some up | None => None end
  | B_distrib => fst <$> distrib st
  end.
Fixpoint route (n : nat) (st : stack) (b : backend) : list backend :=
  match n with
  | O => [b]
  | S n => b :: match upstream st b with Some b => route n st b | None => [] end
  end.

(** The parts of the theorem below for one of the four stacks. *)
Ltac stack_case :=
  cbn [route be diskcache distrib upstream http_urls fmap option_fmap option_map fst];
  split_and!;
  [ reflexivity
  | apply (bool_decide_unpack _); vm_compute; exact I
  | split; [intros Hin; first [by eexists | apply (bool_decide_pack _) in Hin; by vm_compute in Hin]
           | intros [? ?]; first [done | apply (bool_decide_unpack _); vm_compute; exact I]]
  | split; [intros Hin; first [by eexists | apply (bool_decide_pack _) in Hin; by vm_compute in Hin]
           | intros [? ?]; first [done | apply (bool_decide_unpack _); vm_compute; exact I]]
  | intros up server Hd; by inversion Hd
  | reflexivity ].

(** C15.  A mount that starts asks a backend from which every request that is
    passed on comes, through each backend once, to the http backend; the disk
    cache is among them if it was made, and the distributed cache too, which
    answers its peers from the disk cache.  The urls of the http backend are
    the device of the command line and the words of the option, in order, each
    with the version of the protocol. *)
Theorem stack_reaches_http e os g device dc_maxmbytes st :
  init_stack e os g device dc_maxmbytes = Ret st ->
  (forall v, e !! lit "Fs123FallbackUrls" = Some v -> zlen v < npos) ->
  List.last (route 3 st (be st)) B_diskcache = B_http /\ NoDup (route 3 st (be st))
  /\ (B_diskcache ∈ route 3 st (be st) <-> is_Some (diskcache st))
  /\ (B_distrib ∈ route 3 st (be st) <-> is_Some (distrib st))
  /\ (forall up server, distrib st = Some (up, server) -> server = B_diskcache)
  /\ add_sigils g (device :: words_by fallback_sep (default [] (e !! lit "Fs123FallbackUrls"))) = Ret (http_urls st).
Proof.
  intros H Hl. unfold init_stack in H. apply bind_Ret in H as (base & Hbase & H).
  apply bind_Ret in H as (fb & Hfb & H). apply bind_Ret in H as (urls & Hurls & H).
  apply bind_Ret in H as (dir & Hdir & H). cbv zeta in H. apply bind_Ret in H as ([] & _ & H).
  apply bind_Ret in H as (style & _ & H).
  assert (add_sigils g (device :: words_by fallback_sep (default [] (e !! lit "Fs123FallbackUrls"))) = Ret (base :: urls)) as ->.
  { cbn [add_sigils]. rewrite Hbase. cbn [mbind outcome_bind]. unfold envto_string, envto in Hfb.
    assert (default [] (e !! lit "Fs123FallbackUrls") = fb /\ zlen fb < npos) as [-> Hz].
    { destruct (e !! lit "Fs123FallbackUrls") as [v|] eqn:Ev; injection Hfb as <-; [split; [done|by apply Hl]|done]. }
    destruct (decide (fb = [])) as [->|Hne].
    { rewrite bool_decide_eq_true_2 in Hurls by done. by injection Hurls as <-. }
    rewrite bool_decide_eq_false_2 in Hurls by done.
    pose proof (fallback_loop_spec (S (length fb)) g [] fb [] (Nat.lt_succ_diag_r _) Hz) as Hspec.
    cbn [app] in Hspec. change (zlen []) with 0 in Hspec. rewrite Hspec in Hurls.
    apply bind_Ret in Hurls as (l & -> & Hl'). by injection Hl' as <-. }
  destruct (bool_decide (style = [])).
  { injection H as <-. destruct (_ && _); stack_case. }
  destruct (negb (_ && _)); [done|]. destruct (bool_decide (style = _)); [|destruct (bool_decide (style = _)); [|done]];
    apply bind_Ret in H as ([] & _ & [= <-]); stack_case.
Qed.

(** ** The members of [volatiles_t] *)

(** Every member has the value its variable gives, read as its type, or
    if that is not set its default, which for the timeouts of peers and the
    number of files of the cache is computed from other members; and each
    value is in the range of its type. *)
Theorem volatiles_read {F} `{!Floats F} (lit_f : Z -> Z -> F) e m v :
  volatiles_ctor lit_f e = Ret m ->
  envto (svto_value (vtype_of v)) e (volatile_name v) (volatile_default lit_f m v) = Ret (m v)
  /\ has_type (vtype_of v) (m v).
Proof.
  intros H. assert (forall v, envto (svto_value (vtype_of v)) e (volatile_name v) (volatile_default lit_f m v) = Ret (m v)) as Hall.
  { unfold volatiles_ctor, all_volatiles in H. cbn [volatiles_loop] in H.
    repeat (apply bind_Ret in H; let x := fresh "x" in let E := fresh "E" in destruct H as (x & E & H)).
    injection H as <-. clear v. intros []; assumption. }
  split; [apply Hall|]. assert (forall v t, envto (svto_value (vtype_of v)) e (volatile_name v) t = Ret (m v) ->
    has_type (vtype_of v) t -> has_type (vtype_of v) (m v)) as Hty.
  { clear v. intros v t Ht Hd. unfold envto in Ht. destruct (e !! _); [by eapply svto_value_type|]. by injection Ht as <-. }
  assert (forall v, has_type (vtype_of v) (volatile_default lit_f m v) -> has_type (vtype_of v) (m v)) as Hd
    by (intros; by eapply Hty).
  assert (Hct : has_type (VT_int T_i64) (m V_connect_timeout)) by (apply (Hd V_connect_timeout); by split).
  assert (Htt : has_type (VT_int T_i64) (m V_transfer_timeout)) by (apply (Hd V_transfer_timeout); by split).
  assert (Hmb : has_type (VT_int T_u64) (m V_dc_maxmbytes)) by (apply (Hd V_dc_maxmbytes); by split).
  destruct v; apply Hd; first [exact Hct|exact Htt|exact I|by split|idtac].
  cbn [vtype_of volatile_default]. destruct (m V_dc_maxmbytes); [done| |done].
  destruct (wrap_range 64 (z * 1000000) ltac:(lia)) as [H0 H1]. split; cbn; [by apply Z.div_pos|].
  apply Z.div_lt_upper_bound; [done|]. eapply Z.lt_trans; [exact H1|done].
Qed.

(** ** Options that do nothing *)

Definition dead_options : list string :=
  ["Fs123EvictThrottleLWM"; "Fs123SSLNoVerifyPeer"; "Fs123SSLNoVerifyHost"].

(** What [fs123_init] reads. *)
Definition read_names : list string :=
  map volatile_name all_volatiles ++
  ["Fs123Chunk"; "Fs123CacheTag"; "Fs123TruncateTo32BitIno"; "Fs123SquashAll"; "Fs123SquashRoot"; "Fs123StaleIfError";
   "Fs123PastStaleWhileRevalidate"; "Fs123PrivilegedServer"; "Fs123Sharedkeydir"; "Fs123SharedkeydirRefresh";
   "Fs123EncodingKeyidFile"; "Fs123SendPlaintextRequests"; "Fs123AcceptPlaintextReplies"; "Fs123ProtoMinor";
   "Fs123NetrcFile"; "Fs123FallbackUrls"; "Fs123CacheDir"; "Fs123DistribCacheExperimental"; "Fs123AttrCacheSize";
   "Fs123LinkCacheSize"; "Fs123NoKernelDataCaching"; "Fs123NoKernelAttrCaching"; "Fs123NoKernelDentryCaching";
   "Fs123CommandPipe"; "Fs123Subprocess"; "Fs123IdleTimeoutMinutes"].

(** Three options of the command line change nothing, whatever their
    value: the program reads variables with other names. *)
Theorem dead_options_ignored {F} `{!Floats F} (lit_f : Z -> Z -> F) e os device dotdot k x s :
  k ∈ dead_options ->
  k ∈ mount_options /\ fs123_init lit_f (<[lit k:=x]> e) os device dotdot s = fs123_init lit_f e os device dotdot s.
Proof.
  intros Hk. assert (k ∈ mount_options /\ forall name, bool_decide (name ∈ read_names) = true -> lit k <> lit name) as [Hin Hne].
  { unfold dead_options in Hk. rewrite !elem_of_cons, elem_of_nil in Hk. destruct Hk as [->|[->|[->|[]]]]; (split; [apply (bool_decide_unpack _); vm_compute; exact I|]);
      intros name Hn; apply bool_decide_eq_true_1 in Hn; revert name Hn;
      apply list.Forall_forall, (bool_decide_unpack _); vm_compute; exact I. }
  split; [exact Hin|].
  unfold fs123_init, fs123_init_try, init_config, init_secrets, init_proto_minor, init_stack, start_pipe, volatiles_ctor, all_volatiles.
  cbn [volatiles_loop volatile_name]. unfold envto_string, envto_int, envto_bool, envto.
  rewrite !lookup_insert_ne by (apply Hne; vm_compute; reflexivity).
  reflexivity.
Qed.

(** ** The command pipe *)

Lemma start_pipe_cases e os o s : start_pipe e os pipe_state0 = (o, s) ->
  s = pipe_state0 \/ exists name, name <> []
  /\ ((exists fd, sys_open_fifo os name = inr fd /\ s = PipeState name false fd true [name] [] [] [])
     \/ (exists x, o = Throw x /\ sys_mkfifo os name <> 0 /\ s = PipeState name false 0 false [] [] [] [])
     \/ (exists x eno, o = Throw x /\ sys_mkfifo os name = 0 /\ sys_open_fifo os name = inl eno
        /\ s = PipeState name false 0 false [name] [] [] [])).
Proof.
  intros H. unfold start_pipe in H. assert (exists name, envto_string e "Fs123CommandPipe" [] = Ret name) as [name Hname]
    by (unfold envto_string, envto; destruct (e !! _); eauto).
  unfold lift, modify, raise, mbind, M_bind in H. rewrite Hname in H.
  destruct (bool_decide (name = [])) eqn:En.
  { apply bool_decide_eq_true in En as ->. injection H as _ <-. by left. }
  right. cbv zeta in H.
  exists (name ++ lit "." ++ to_string (sys_getpid os)). split; [by destruct name|].
  set (full := name ++ _) in *. clearbody full.
  destruct (Z.eqb_spec (sys_mkfifo os full) 0) as [Hm|Hm]; cbn [negb] in H;
    [|injection H as <- <-; right; left; eauto].
  destruct (sys_open_fifo os full) as [eno|fd] eqn:Ef; injection H as <- <-; [right; right|left]; eauto 6.
Qed.

(** What [fs123_init] does around the pipe leaves it alone. *)
Lemma init_try_pipe {F} `{!Floats F} (lit_f : Z -> Z -> F) e os device dotdot o s :
  fs123_init_try lit_f e os device dotdot pipe_state0 = (o, s) ->
  s = pipe_state0 \/ exists o', start_pipe e os pipe_state0 = (o', s) /\ (forall x, o' = Throw x -> o = Throw x).
Proof.
  unfold fs123_init_try. intros H. unfold lift, mbind, M_bind in H.
  destruct (init_config lit_f e os device dotdot) as [c|x|]; [|left; by injection H..].
  right. destruct (start_pipe e os pipe_state0) as [[[]|x|] s1];
    [|injection H as <- <-; eexists; (split; [reflexivity|]); intros ? [=]; by subst..].
  exists (Ret tt). split; [|discriminate]. f_equal.
  destruct (envto_string e "Fs123Subprocess" []); [|by injection H..].
  destruct (envto_int T_u32 e "Fs123IdleTimeoutMinutes" 0); [|by injection H..].
  destruct (match i_volatiles c V_mlockall with VBool b => Ret b | _ => Undef end) as [b| |]; [|by injection H..].
  destruct (b && negb (sys_mlockall os =? 0)); by injection H.
Qed.

(** C1.  [fs123_destroy] unlinks the pipe [fs123_init] made and closes the
    descriptor it opened, and nothing else, unless [mkfifo] or [open] failed:
    then it unlinks the name that was meant and writes to and closes
    descriptor 0. *)
Theorem destroy_undoes_init {F} `{!Floats F} (lit_f : Z -> Z -> F) e os device dotdot r s :
  fs123_init lit_f e os device dotdot pipe_state0 = (Ret r, s) ->
  let d := fs123_destroy s in
  (fifos_made d = [] /\ names_unlinked d = [] /\ fds_written d = [] /\ fds_closed d = [])
  \/ (exists name fd, sys_open_fifo os name = inr fd /\ fifos_made d = [name] /\ names_unlinked d = [name]
        /\ fds_written d = [fd] /\ fds_closed d = [fd])
  \/ (exists name, r = None /\ names_unlinked d = [name] /\ fds_written d = [0] /\ fds_closed d = [0]
        /\ ((sys_mkfifo os name <> 0 /\ fifos_made d = [])
            \/ (sys_mkfifo os name = 0 /\ fifos_made d = [name] /\ exists eno, sys_open_fifo os name = inl eno))).
Proof.
  intros H d. unfold fs123_init, try_M in H. unfold mbind, M_bind in H.
  destruct (fs123_init_try lit_f e os device dotdot pipe_state0) as [o s1] eqn:E.
  assert (s1 = s) as -> by (destruct o; by injection H).
  destruct (init_try_pipe _ _ _ _ _ _ _ E) as [-> |(o' & Ho' & Ht)]; [by left|].
  destruct (start_pipe_cases _ _ _ _ Ho') as [-> |(name & Hne & Hc)]; [by left|right].
  assert (d = PipeState name true (-1) false (fifos_made s) [name] [named_pipe_fd s] [named_pipe_fd s]) as Hd.
  { unfold d, fs123_destroy. destruct Hc as [(fd & _ & ->)|[(x & _ & _ & ->)|(x & eno & _ & _ & _ & ->)]];
      cbn; by rewrite bool_decide_eq_false_2. }
  rewrite Hd. cbn. assert (forall x, o' = Throw x -> r = None) as Hr.
  { intros x Hx. rewrite (Ht x Hx) in H. by injection H. }
  destruct Hc as [(fd & Hf & ->)|[(x & Hx & Hm & ->)|(x & eno & Hx & Hm & Hf & ->)]];
    [left|right; exists name; apply Hr in Hx..]; eauto 10.
Qed.

(** ** Concrete mounts *)

Definition mx_float (n d : Z) : Z := n / 10 ^ d.
(** The key directory can be opened, the backends are made, and the second
    system cannot make pipes. *)
Definition mx_os (mkfifo_errno : Z) : init_sys :=
  InitSys 1000 100 (fun _ => None) (fun _ => None) (fun _ => 0) (fun _ _ => Ret tt) (Ret tt)
    (fun _ => mkfifo_errno) (fun _ => inr 7) 4321 0.
Definition mx_env : environment := list_to_map (map (fun p => (lit p.1, lit p.2))
  [("Fs123Sharedkeydir", "/etc/keys"); ("Fs123CacheDir", "/var/cache/fs123"); ("Fs123ConnectTimeout", "5");
   ("Fs123DistribCacheExperimental", "diskcache-in-front"); ("Fs123FallbackUrls", " http://b/x|http://c/y ");
   ("Fs123CommandPipe", "/run/fs123")]%string).
Definition mx_device : bytes := lit "http://a/x".

#[local] Existing Instance wx_floats.
Abbreviation mx_config := (init_config mx_float mx_env (mx_os 0) mx_device 0).
Abbreviation mx_stack := (init_stack mx_env (mx_os 0) (ReqConfig 0 3 864000 0) mx_device 100).

Lemma mx_config_ok : exists i, mx_config = Ret i.
Proof.
  assert (match mx_config with Ret _ => true | _ => false end = true) as H by (vm_compute; reflexivity).
  destruct mx_config as [i|x|]; [by exists i|discriminate H..].
Qed.

Example mx_seen : match mx_stack with
  | Ret st => (http_urls st, route 3 st (be st)) | _ => ([], []) end
  = ([lit "http://a/x/fs123/7/3"; lit "http://b/x/fs123/7/3"; lit "http://c/y/fs123/7/3"], [B_diskcache; B_distrib; B_http]).
Proof. vm_compute. reflexivity. Qed.

Lemma mount_secrets_safe_witness : exists i, mx_config = Ret i
  /\ Beget.encrypt_requests (mount_config_of i sm_ex) = true
  /\ Beget.accept_plaintext_replies (mount_config_of i sm_ex) = false.
Proof.
  destruct mx_config_ok as (i & Hi). exists i. split; [exact Hi|].
  destruct (mount_secrets_safe (UW := script_upstream) (SB := toy_box) (T := gmap Z begetattr_t)
              mx_float mx_env (mx_os 0) mx_device 0 i sm_ex 9 Hi) as (H1 & _ & H3 & _).
  assert (Beget.encrypt_requests (mount_config_of i sm_ex) = true) as He
    by (apply H3; [discriminate|reflexivity|reflexivity]).
  split; [exact He|]. apply (H1 He).
Defined.

Lemma stack_reaches_http_witness : exists st, mx_stack = Ret st
  /\ List.last (route 3 st (be st)) B_diskcache = B_http /\ is_Some (distrib st).
Proof.
  assert (match mx_stack with Ret st => bool_decide (is_Some (distrib st)) | _ => false end = true) as H
    by (vm_compute; reflexivity).
  destruct mx_stack as [st|x|] eqn:E; [|discriminate H..]. exists st. split; [reflexivity|].
  split; [|exact (bool_decide_eq_true_1 _ H)].
  apply (stack_reaches_http mx_env (mx_os 0) (ReqConfig 0 3 864000 0) mx_device 100 st E).
  intros v Hv. vm_compute in Hv. injection Hv as <-. reflexivity.
Defined.

Lemma volatiles_read_witness : exists m, volatiles_ctor mx_float mx_env = Ret m
  /\ envto (svto_value (vtype_of V_peer_connect_timeout)) mx_env "Fs123PeerConnectTimeout" (m V_connect_timeout)
     = Ret (m V_peer_connect_timeout).
Proof.
  assert (match volatiles_ctor mx_float mx_env with Ret _ => true | _ => false end = true) as H by (vm_compute; reflexivity).
  destruct (volatiles_ctor mx_float mx_env) as [m|x|] eqn:E; [|discriminate H..]. exists m. split; [reflexivity|].
  apply (volatiles_read mx_float mx_env m V_peer_connect_timeout E).
Defined.

Lemma dead_options_ignored_witness :
  fs123_init mx_float (<[lit "Fs123SSLNoVerifyPeer":=lit "1"]> mx_env) (mx_os 0) mx_device 0 pipe_state0
  = fs123_init mx_float mx_env (mx_os 0) mx_device 0 pipe_state0.
Proof.
  apply (dead_options_ignored mx_float mx_env (mx_os 0) mx_device 0 "Fs123SSLNoVerifyPeer" (lit "1") pipe_state0).
  apply (bool_decide_unpack _). vm_compute. exact I.
Defined.

(** A pipe that cannot be made: descriptor 0 is closed, and a file that bears
    the name is unlinked. *)
Lemma destroy_undoes_init_witness : exists s,
  fs123_init mx_float mx_env (mx_os 17) mx_device 0 pipe_state0 = (Ret None, s)
  /\ fifos_made (fs123_destroy s) = [] /\ names_unlinked (fs123_destroy s) = [lit "/run/fs123.4321"]
  /\ fds_closed (fs123_destroy s) = [0].
Proof.
  assert (match fs123_init mx_float mx_env (mx_os 17) mx_device 0 pipe_state0 with
          | (Ret None, s) => bool_decide (fds_closed (fs123_destroy s) = [0]
                                          /\ names_unlinked (fs123_destroy s) = [lit "/run/fs123.4321"])
          | _ => false end = true) as H by (vm_compute; reflexivity).
  destruct (fs123_init mx_float mx_env (mx_os 17) mx_device 0 pipe_state0) as [[[c|]|x|] s] eqn:E; [discriminate H| |discriminate H..].
  apply bool_decide_eq_true_1 in H as [Hc Hn]. exists s. split; [reflexivity|]. split; [|by split].
  destruct (destroy_undoes_init mx_float mx_env (mx_os 17) mx_device 0 None s E)
    as [(H & _)|[(name & fd & Ho & _ & _ & _ & Hfd)|(name & _ & _ & _ & _ & [(_ & H)|(Hm & _)])]];
    [exact H| |exact H|discriminate Hm].
  exfalso. rewrite Hc in Hfd. injection Ho as <-. discriminate Hfd.
Defined.
