(* ===== verification/AddrInfo.v ===== *)
(** * The cache of name lookups (core123/addrinfo_cache.hpp)

    A map from the arguments of getaddrinfo to its answer, whose nodes are
    linked to each other in order of recent use.  [lookup] releases the mutex
    while it waits for getaddrinfo, and so does [refresh] for each entry: what
    happens with the mutex held is a section, and the threads are any sequence
    of sections.  Nodes of the map are identified by their addresses, numbers
    never used twice; the iterators of the code are addresses, 0 those of the
    end and those that were never assigned, and to follow one whose node is
    gone is undefined.  What getaddrinfo answers comes with the event.

    Theorems: in every sequence of sections the cache is a list of entries in
    order of recent use, no dangling iterator is followed and the invariant
    checker finds nothing; a refresh asks for each entry it keeps exactly
    once and ends. *)

From Stdlib Require Import Ascii String ZArith Lia Sorting.Sorted.
From stdpp Require Import base gmap strings list numbers.
From S2P Require Import Prelude.

#[local] Open Scope Z_scope.

(** ** The data *)

(** [gai_args]: the parts that are compared; the others are zero. *)
Record gai_args := GaiArgs {
  ga_name : bytes;
  ga_service : bytes;
  ai_family : Z;
  ai_socktype : Z;
  ai_protocol : Z;
  ai_flags : Z
}.
#[export] Instance gai_args_eq_dec : EqDecision gai_args.
Proof. solve_decision. Defined.

(** [std::tie] *)
Definition tied (a : gai_args) : bytes * (bytes * (Z * (Z * (Z * Z)))) :=
  (ga_name a, (ga_service a, (ai_family a, (ai_socktype a, (ai_protocol a, ai_flags a))))).
#[export] Instance gai_args_countable : Countable gai_args.
Proof.
  apply (inj_countable' tied (fun '(n, (s, (f, (t, (p, g))))) => GaiArgs n s f t p g)). by intros [].
Defined.

(** [operator<] of strings and of tuples *)
Fixpoint bytes_ltb (l l' : bytes) : bool :=
  match l, l' with
  | _, [] => false
  | [], _ :: _ => true
  | c :: l, d :: l' => if zc c <? zc d then true else if zc d <? zc c then false else bytes_ltb l l'
  end.
Definition tuple_ltb {A B} (lt1 : A -> A -> bool) (lt2 : B -> B -> bool) (x y : A * B) : bool :=
  if lt1 x.1 y.1 then true else if lt1 y.1 x.1 then false else lt2 x.2 y.2.
Definition gai_args_ltb (a b : gai_args) : bool :=
  tuple_ltb bytes_ltb (tuple_ltb bytes_ltb (tuple_ltb Z.ltb (tuple_ltb Z.ltb (tuple_ltb Z.ltb Z.ltb)))) (tied a) (tied b).

(** The constructor, with the hints of the caller or, with the flags
    [AI_V4MAPPED] and [AI_ADDRCONFIG], for any family. *)
Definition AF_UNSPEC : Z := 0.
Definition AI_V4MAPPED : Z := 8.
Definition AI_ADDRCONFIG : Z := 32.
Definition gai_args_ctor (name service : bytes) (hints : option (Z * Z * Z * Z)) : gai_args :=
  match hints with
  | Some (family, socktype, protocol, flags) => GaiArgs name service family socktype protocol flags
  | None => GaiArgs name service AF_UNSPEC 0 0 (Z.lor AI_V4MAPPED AI_ADDRCONFIG)
  end.

(** [addrinfo_result], with the list of addresses as a number. *)
Record addrinfo_result := AddrinfoResult { ar_status : Z; ar_aip : Z; ar_eno : Z }.
Definition EAI_AGAIN : Z := -3.
Definition EAI_SYSTEM : Z := -11.
Definition addrinfo_result_ctor (status aip errno : Z) : addrinfo_result :=
  AddrinfoResult status aip (if status =? EAI_SYSTEM then errno else 0).

(** [gai_mrecord], with its key. *)
Record gai_mrecord := GaiMRecord { g_args : gai_args; g_air : addrinfo_result; less_ru : Z; more_ru : Z }.

(** [cursor] is the iterator of the loop of [refresh] while one runs. *)
Record addrinfo_cache := AddrinfoCache {
  the_map : gmap gai_args Z;
  gnodes : gmap Z gai_mrecord;
  next_node : Z;
  most_ru : Z;
  least_ru : Z;
  cursor : option Z;
  eai_again_count : Z;
  hit_count : Z;
  miss_count : Z;
  refresh_count : Z;
  erase_count : Z
}.
Definition addrinfo_cache_init : addrinfo_cache := AddrinfoCache ∅ ∅ 1 0 0 None 0 0 0 0 0.

Definition with_nodes (n : gmap Z gai_mrecord) (s : addrinfo_cache) : addrinfo_cache :=
  AddrinfoCache (the_map s) n (next_node s) (most_ru s) (least_ru s) (cursor s)
    (eai_again_count s) (hit_count s) (miss_count s) (refresh_count s) (erase_count s).
Definition with_most (p : Z) (s : addrinfo_cache) : addrinfo_cache :=
  AddrinfoCache (the_map s) (gnodes s) (next_node s) p (least_ru s) (cursor s)
    (eai_again_count s) (hit_count s) (miss_count s) (refresh_count s) (erase_count s).
Definition with_least (p : Z) (s : addrinfo_cache) : addrinfo_cache :=
  AddrinfoCache (the_map s) (gnodes s) (next_node s) (most_ru s) p (cursor s)
    (eai_again_count s) (hit_count s) (miss_count s) (refresh_count s) (erase_count s).
Definition with_cursor (c : option Z) (s : addrinfo_cache) : addrinfo_cache :=
  AddrinfoCache (the_map s) (gnodes s) (next_node s) (most_ru s) (least_ru s) c
    (eai_again_count s) (hit_count s) (miss_count s) (refresh_count s) (erase_count s).
Definition counted (again hit miss refreshed erased : Z) (s : addrinfo_cache) : addrinfo_cache :=
  AddrinfoCache (the_map s) (gnodes s) (next_node s) (most_ru s) (least_ru s) (cursor s)
    (wrap 64 (eai_again_count s + again)) (wrap 64 (hit_count s + hit)) (wrap 64 (miss_count s + miss))
    (wrap 64 (refresh_count s + refreshed)) (wrap 64 (erase_count s + erased)).

(** ** The map and its nodes *)

Definition deref (a : Z) : M addrinfo_cache gai_mrecord := fun s =>
  match gnodes s !! a with Some nd => (Ret nd, s) | None => (Undef, s) end.
Definition store (a : Z) (nd : gai_mrecord) : M addrinfo_cache unit :=
  modify (fun s => with_nodes (<[a := nd]> (gnodes s)) s).
Definition set_less_ru (a x : Z) : M addrinfo_cache unit :=
  nd ← deref a; store a (GaiMRecord (g_args nd) (g_air nd) x (more_ru nd)).
Definition set_more_ru (a x : Z) : M addrinfo_cache unit :=
  nd ← deref a; store a (GaiMRecord (g_args nd) (g_air nd) (less_ru nd) x).
Definition set_air (a : Z) (r : addrinfo_result) : M addrinfo_cache unit :=
  nd ← deref a; store a (GaiMRecord (g_args nd) r (less_ru nd) (more_ru nd)).

(** [the_map.insert]: the node and whether it is new. *)
Definition map_insert (args : gai_args) (r : addrinfo_result) : M addrinfo_cache (Z * bool) := fun s =>
  match the_map s !! args with
  | Some a => (Ret (a, false), s)
  | None =>
      let a := next_node s in
      (Ret (a, true),
       AddrinfoCache (<[args := a]> (the_map s)) (<[a := GaiMRecord args r 0 0]> (gnodes s)) (a + 1)
         (most_ru s) (least_ru s) (cursor s)
         (eai_again_count s) (hit_count s) (miss_count s) (refresh_count s) (erase_count s))
  end.
Definition map_erase (a : Z) : M addrinfo_cache unit :=
  nd ← deref a;
  modify (fun s => AddrinfoCache (delete (g_args nd) (the_map s)) (delete a (gnodes s)) (next_node s)
                     (most_ru s) (least_ru s) (cursor s)
                     (eai_again_count s) (hit_count s) (miss_count s) (refresh_count s) (erase_count s)).

(** The least of the keys above a bound: the map's order. *)
Fixpoint least_above (lo : option gai_args) (keys : list gai_args) : option gai_args :=
  match keys with
  | [] => None
  | k :: keys =>
      let best := least_above lo keys in
      let above := match lo with Some lo => gai_args_ltb lo k | None => true end in
      let better := match best with Some b => gai_args_ltb k b | None => true end in
      if above && better then Some k else best
  end.
(** [begin()] and [++]; 0 is [end()]. *)
Definition map_next (lo : option gai_args) (s : addrinfo_cache) : Z :=
  match least_above lo (map fst (map_to_list (the_map s))) with
  | Some k => default 0 (the_map s !! k)
  | None => 0
  end.

(** ** The operations *)

(** "disconnect pmr" *)
Definition disconnect (p : Z) : M addrinfo_cache unit :=
  s ← get;
  pmr ← deref p;
  if p =? least_ru s then modify (with_least (more_ru pmr)) else
  set_more_ru (less_ru pmr) (more_ru pmr);;
  pmr ← deref p;
  set_less_ru (more_ru pmr) (less_ru pmr).
Definition make_most_ru (p : Z) : M addrinfo_cache unit :=
  s ← get;
  if p =? most_ru s then mret tt else
  disconnect p;;
  set_less_ru p (most_ru s);;
  set_more_ru (most_ru s) p;;
  modify (with_most p).

(** The first section of [lookup]: the answer in the cache. *)
Definition lookup_find (args : gai_args) : M addrinfo_cache (option addrinfo_result) :=
  s ← get;
  match the_map s !! args with
  | Some p => make_most_ru p;; modify (counted 0 1 0 0 0);; nd ← deref p; mret (Some (g_air nd))
  | None => mret None
  end.

(** What follows a miss, when getaddrinfo has answered. *)
Definition lookup_insert (args : gai_args) (newvalue : addrinfo_result) : M addrinfo_cache addrinfo_result :=
  modify (counted 0 0 1 0 0);;
  if ar_status newvalue =? EAI_AGAIN then modify (counted 1 0 0 0 0);; mret newvalue else
  '(p, inserted) ← map_insert args newvalue;
  if negb inserted then
    set_air p newvalue;; make_most_ru p;; nd ← deref p; mret (g_air nd)
  else
    s ← get;
    (if Z.of_nat (size (the_map s)) =? 1 then modify (with_least p)
     else set_more_ru (most_ru s) p;; set_less_ru p (most_ru s));;
    modify (with_most p);;
    mret newvalue.

(** [lookup] of a thread that is alone. *)
Definition lookup_alone (getaddrinfo : gai_args -> addrinfo_result) (args : gai_args) : M addrinfo_cache addrinfo_result :=
  o ← lookup_find args;
  match o with Some r => mret r | None => lookup_insert args (getaddrinfo args) end.

(** The first loop of [refresh], in as many rounds as there are entries. *)
Fixpoint evict_loop (fuel : nat) (max_size : Z) : M addrinfo_cache unit :=
  s ← get;
  if Z.of_nat (size (the_map s)) <=? max_size then mret tt else
  match fuel with
  | O => lift Undef
  | S fuel =>
      nd ← deref (least_ru s);
      map_erase (least_ru s);;
      modify (counted 0 0 0 0 1);;
      modify (with_least (more_ru nd));;
      evict_loop fuel max_size
  end.
Definition refresh_start (max_size : Z) : M addrinfo_cache unit :=
  s ← get;
  evict_loop (size (the_map s)) max_size;;
  modify (fun s => with_cursor (match map_next None s with 0 => None | p => Some p end) s).

(** A round of the second loop, from [lk.lock()] to [lk.unlock()]; what was
    asked for. *)
Definition refresh_round (p : Z) (newvalue : addrinfo_result) : M addrinfo_cache gai_args :=
  modify (counted 0 0 0 1 0);;
  nd ← deref p;
  (if negb (ar_status newvalue =? EAI_AGAIN) then set_air p newvalue else modify (counted 1 0 0 0 0));;
  modify (fun s => with_cursor (match map_next (Some (g_args nd)) s with 0 => None | p => Some p end) s);;
  mret (g_args nd).

(** [check_invariant_already_locked] *)
Fixpoint check_loop (fuel : nat) (s : addrinfo_cache) (p n : Z) : outcome Z :=
  match gnodes s !! p with
  | None => Undef
  | Some nd =>
      if negb (bool_decide (the_map s !! g_args nd = Some p)) then Throw ERuntime else
      if p =? least_ru s then Ret n else
      match gnodes s !! less_ru nd with
      | None => Undef
      | Some less =>
          if negb (more_ru less =? p) then Throw ERuntime else
          match fuel with O => Undef | S fuel => check_loop fuel s (less_ru nd) (n + 1) end
      end
  end.
Definition check_invariant (s : addrinfo_cache) : outcome unit :=
  if Z.of_nat (size (the_map s)) =? 0 then Ret tt else
  n ← check_loop (size (the_map s)) s (most_ru s) 1;
  if negb (n =? Z.of_nat (size (the_map s))) then Throw ERuntime else Ret tt.

(** ** The threads *)

Inductive event :=
| E_find (args : gai_args)
| E_insert (args : gai_args) (r : addrinfo_result)
| E_refresh (max_size : Z)
| E_refreshed (r : addrinfo_result).

Inductive answer :=
| A_found (r : option addrinfo_result)
| A_inserted (r : addrinfo_result)
| A_asked (args : option gai_args).

(** A refresh waits while another runs. *)
Definition step (ev : event) : M addrinfo_cache answer :=
  match ev with
  | E_find args => r ← lookup_find args; mret (A_found r)
  | E_insert args r => r ← lookup_insert args r; mret (A_inserted r)
  | E_refresh max_size =>
      s ← get;
      match cursor s with Some _ => mret (A_asked None) | None => refresh_start max_size;; mret (A_asked None) end
  | E_refreshed r =>
      s ← get;
      match cursor s with Some p => k ← refresh_round p r; mret (A_asked (Some k)) | None => mret (A_asked None) end
  end.
Fixpoint run (evs : list event) : M addrinfo_cache (list answer) :=
  match evs with [] => mret [] | ev :: evs => a ← step ev; l ← run evs; mret (a :: l) end.

(** ** What the cache is *)

(** The entries, most recently used first, and the key a refresh has come to. *)
Record spec := Spec { lru : list (gai_args * addrinfo_result); sp_cursor : option gai_args }.
Definition spec_init : spec := Spec [] None.

Fixpoint entry (k : gai_args) (l : list (gai_args * addrinfo_result)) : option addrinfo_result :=
  match l with [] => None | kr :: l => if decide (kr.1 = k) then Some kr.2 else entry k l end.
Definition forget (k : gai_args) (l : list (gai_args * addrinfo_result)) : list (gai_args * addrinfo_result) :=
  List.filter (fun kr => negb (bool_decide (kr.1 = k))) l.
Definition answered (k : gai_args) (r : addrinfo_result) (l : list (gai_args * addrinfo_result)) :=
  map (fun kr => if decide (kr.1 = k) then (k, r) else kr) l.

Definition spec_step (ev : event) (sp : spec) : answer * spec :=
  match ev with
  | E_find k =>
      match entry k (lru sp) with
      | Some r => (A_found (Some r), Spec ((k, r) :: forget k (lru sp)) (sp_cursor sp))
      | None => (A_found None, sp)
      end
  | E_insert k r =>
      (A_inserted r,
       if ar_status r =? EAI_AGAIN then sp else Spec ((k, r) :: forget k (lru sp)) (sp_cursor sp))
  | E_refresh max_size =>
      (A_asked None,
       match sp_cursor sp with
       | Some _ => sp
       | None => let l := ztake max_size (lru sp) in Spec l (least_above None (map fst l))
       end)
  | E_refreshed r =>
      match sp_cursor sp with
      | None => (A_asked None, sp)
      | Some k =>
          (A_asked (Some k),
           Spec (if ar_status r =? EAI_AGAIN then lru sp else answered k r (lru sp))
             (least_above (Some k) (map fst (lru sp))))
      end
  end.
Fixpoint spec_run (evs : list event) (sp : spec) : list answer * spec :=
  match evs with
  | [] => ([], sp)
  | ev :: evs => let '(a, sp) := spec_step ev sp in let '(l, sp) := spec_run evs sp in (a :: l, sp)
  end.

(** ** The order of the keys *)

Class StrictTotal {A} (lt : A -> A -> bool) := {
  lt_irrefl x : lt x x = false;
  lt_trans x y z : lt x y = true -> lt y z = true -> lt x z = true;
  lt_tricho x y : lt x y = false -> lt y x = false -> x = y
}.

#[export] Instance Z_strict : StrictTotal Z.ltb.
Proof. split; intros *; rewrite ?Z.ltb_lt, ?Z.ltb_ge; lia. Qed.

#[export] Instance tuple_strict {A B} (lt1 : A -> A -> bool) (lt2 : B -> B -> bool) `{!StrictTotal lt1, !StrictTotal lt2} :
  StrictTotal (tuple_ltb lt1 lt2).
Proof.
  unfold tuple_ltb. split.
  - intros x. by rewrite !lt_irrefl.
  - intros [x1 x2] [y1 y2] [z1 z2]; cbn. destruct (lt1 x1 y1) eqn:Exy, (lt1 y1 z1) eqn:Eyz.
    + by rewrite (lt_trans _ _ _ Exy Eyz).
    + destruct (lt1 z1 y1) eqn:Ezy; [done|]. by rewrite (lt_tricho _ _ Ezy Eyz), Exy.
    + destruct (lt1 y1 x1) eqn:Eyx; [done|]. by rewrite (lt_tricho _ _ Exy Eyx), Eyz.
    + destruct (lt1 y1 x1) eqn:Eyx, (lt1 z1 y1) eqn:Ezy; try done.
      rewrite (lt_tricho _ _ Exy Eyx), (lt_tricho _ _ Eyz Ezy), !lt_irrefl. apply lt_trans.
  - intros [x1 x2] [y1 y2]; cbn. destruct (lt1 x1 y1) eqn:E1, (lt1 y1 x1) eqn:E2; try done.
    intros H2 H3. by rewrite (lt_tricho _ _ E1 E2), (lt_tricho _ _ H2 H3).
Qed.

#[export] Instance bytes_strict : StrictTotal bytes_ltb.
Proof.
  split.
  - induction x as [|c l IH]; cbn; [done|]. by rewrite Z.ltb_irrefl.
  - induction x as [|c x IH]; intros [|d y] [|e z]; cbn; try done.
    destruct (Z.ltb_spec (zc c) (zc d)), (Z.ltb_spec (zc d) (zc c)), (Z.ltb_spec (zc d) (zc e)),
      (Z.ltb_spec (zc e) (zc d)), (Z.ltb_spec (zc c) (zc e)), (Z.ltb_spec (zc e) (zc c)); try done; try lia.
    apply IH.
  - induction x as [|c x IH]; intros [|d y]; cbn; try done.
    destruct (Z.ltb_spec (zc c) (zc d)), (Z.ltb_spec (zc d) (zc c)); try done.
    intros H1 H2. assert (c = d) as -> by (apply zc_inj; lia). by rewrite (IH y).
Qed.

#[export] Instance gai_args_strict : StrictTotal gai_args_ltb.
Proof.
  unfold gai_args_ltb. set (lt := tuple_ltb _ _). assert (StrictTotal lt) as Hlt by (unfold lt; typeclasses eauto).
  split.
  - intros x. apply lt_irrefl.
  - intros x y z. apply lt_trans.
  - intros [] [] H1 H2. pose proof (lt_tricho _ _ H1 H2) as E. by injection E as -> -> -> -> -> ->.
Qed.

Definition above (lo : option gai_args) (k : gai_args) : bool :=
  match lo with Some lo => gai_args_ltb lo k | None => true end.

Lemma least_above_spec lo keys : match least_above lo keys with
  | Some k => k ∈ keys /\ above lo k = true /\ forall k', k' ∈ keys -> above lo k' = true -> gai_args_ltb k' k = false
  | None => forall k', k' ∈ keys -> above lo k' = false
  end.
Proof.
  induction keys as [|k keys IH]; cbn [least_above]; [by intros k' ?%elem_of_nil|].
  fold (above lo k). destruct (above lo k) eqn:Ek; cbn [andb].
  - destruct (least_above lo keys) as [b|]; cbn.
    + destruct IH as (Hb & Hlo & Hmin). destruct (gai_args_ltb k b) eqn:Ekb.
      * split_and!; [by left|done|]. intros k' [->|Hk']%elem_of_cons Ha; [apply lt_irrefl|].
        destruct (gai_args_ltb k' k) eqn:E; [|done]. by rewrite <- (Hmin k' Hk' Ha), (lt_trans _ _ _ E Ekb).
      * split_and!; [by right|done|]. intros k' [->|Hk']%elem_of_cons Ha; [done|auto].
    + split_and!; [by left|done|]. intros k' [->|Hk']%elem_of_cons Ha; [apply lt_irrefl|]. by rewrite (IH _ Hk') in Ha.
  - destruct (least_above lo keys) as [b|].
    + destruct IH as (Hb & Hlo & Hmin). split_and!; [by right|done|].
      intros k' [->|Hk']%elem_of_cons Ha; [by rewrite Ek in Ha|auto].
    + intros k' [->|Hk']%elem_of_cons; auto.
Qed.

(** The next key depends on the set of the keys only. *)
Lemma least_above_perm lo l l' : l ≡ₚ l' -> least_above lo l = least_above lo l'.
Proof.
  intros Hp. pose proof (least_above_spec lo l) as H. pose proof (least_above_spec lo l') as H'.
  destruct (least_above lo l) as [k|], (least_above lo l') as [k'|]; [| | |done].
  - destruct H as (Hk & Ha & Hm), H' as (Hk' & Ha' & Hm'). f_equal. apply lt_tricho.
    + apply Hm'; [by rewrite <- Hp|done].
    + apply Hm; [by rewrite Hp|done].
  - destruct H as (Hk & Ha & _). rewrite Hp in Hk. by rewrite (H' _ Hk) in Ha.
  - destruct H' as (Hk & Ha & _). rewrite <- Hp in Hk. by rewrite (H _ Hk) in Ha.
Qed.

(** ** The list in order of use *)

(** [lf] and [mf] link the elements of a list. *)
Fixpoint chain (lf mf : Z -> option Z) (l : list Z) : Prop :=
  match l with
  | a :: (b :: _) as l => lf a = Some b /\ mf b = Some a /\ chain lf mf l
  | _ => True
  end.

Lemma chain_app lf mf l a b l' :
  chain lf mf (l ++ a :: b :: l') <-> chain lf mf (l ++ [a]) /\ lf a = Some b /\ mf b = Some a /\ chain lf mf (b :: l').
Proof.
  induction l as [|c l IH]; [cbn; tauto|]. destruct l as [|d l]; cbn [app] in *.
  - cbn. tauto.
  - cbn [chain]. cbn [chain] in IH. tauto.
Qed.

(** The last element's less and the first one's more do not matter. *)
Lemma chain_agree lf mf lf' mf' l : chain lf mf l ->
  (forall l1 a, l = l1 ++ [a] -> forall b, b ∈ l1 -> lf' b = lf b) ->
  (forall a l1, l = a :: l1 -> forall b, b ∈ l1 -> mf' b = mf b) ->
  chain lf' mf' l.
Proof.
  induction l as [|a l IH]; [done|]. intros Hc Hl Hm. destruct l as [|b l]; [done|]. cbn [chain] in *.
  destruct Hc as (Ha & Hb & Hc). split_and!.
  - rewrite <- Ha. destruct (exists_last (l := b :: l)) as (l1 & x & E); [done|]. rewrite E in Hl.
    apply (Hl (a :: l1) x); [done|by left].
  - rewrite <- Hb. apply (Hm a (b :: l)); [done|by left].
  - apply IH; [done| |].
    + intros l1 x E c Hin. apply (Hl (a :: l1) x); [cbn; by f_equal|by right].
    + intros x l1 [= <- <-] c Hin. apply (Hm a (b :: l)); [done|by right].
Qed.

Definition less (s : addrinfo_cache) (a : Z) : option Z := less_ru <$> gnodes s !! a.
Definition more (s : addrinfo_cache) (a : Z) : option Z := more_ru <$> gnodes s !! a.
(** What a node holds. *)
Definition held (s : addrinfo_cache) (a : Z) : option (gai_args * addrinfo_result) :=
  (fun nd => (g_args nd, g_air nd)) <$> gnodes s !! a.

Record dll (s : addrinfo_cache) (l : list Z) : Prop := {
  dll_nodup : NoDup l;
  dll_live a : a ∈ l -> is_Some (gnodes s !! a);
  dll_chain : chain (less s) (more s) l;
  dll_most a l' : l = a :: l' -> most_ru s = a;
  dll_least a l' : l = l' ++ [a] -> least_ru s = a
}.

(** What the links do not change. *)
Record same_content (s s' : addrinfo_cache) : Prop := {
  sc_map : the_map s' = the_map s;
  sc_next : next_node s' = next_node s;
  sc_cursor : cursor s' = cursor s;
  sc_held a : held s' a = held s a
}.
#[export] Instance same_content_pre : PreOrder same_content.
Proof.
  split; [by intros s|]. intros s1 s2 s3 [] []. split; try congruence.
Qed.

(** A write to a link of a live node. *)
Lemma set_less_ru_ok s a x : is_Some (gnodes s !! a) -> exists s',
  set_less_ru a x s = (Ret tt, s') /\ same_content s s' /\ most_ru s' = most_ru s /\ least_ru s' = least_ru s
  /\ (forall b, is_Some (gnodes s' !! b) <-> is_Some (gnodes s !! b))
  /\ (forall b, less s' b = if decide (b = a) then Some x else less s b) /\ (forall b, more s' b = more s b).
Proof.
  intros [nd E]. unfold set_less_ru, deref. cbv [mbind M_bind]. rewrite E. eexists. split; [reflexivity|]. cbn.
  split; [split; [reflexivity..|]|split_and!; [reflexivity..| | |]]; unfold held, less, more; cbn;
    intros b; destruct (decide (b = a)) as [-> |]; rewrite ?lookup_insert_eq, ?E, ?lookup_insert_ne by done;
    try reflexivity. by split; eauto.
Qed.
Lemma set_more_ru_ok s a x : is_Some (gnodes s !! a) -> exists s',
  set_more_ru a x s = (Ret tt, s') /\ same_content s s' /\ most_ru s' = most_ru s /\ least_ru s' = least_ru s
  /\ (forall b, is_Some (gnodes s' !! b) <-> is_Some (gnodes s !! b))
  /\ (forall b, less s' b = less s b) /\ (forall b, more s' b = if decide (b = a) then Some x else more s b).
Proof.
  intros [nd E]. unfold set_more_ru, deref. cbv [mbind M_bind]. rewrite E. eexists. split; [reflexivity|]. cbn.
  split; [split; [reflexivity..|]|split_and!; [reflexivity..| | |]]; unfold held, less, more; cbn;
    intros b; destruct (decide (b = a)) as [-> |]; rewrite ?lookup_insert_eq, ?E, ?lookup_insert_ne by done;
    try reflexivity. by split; eauto.
Qed.

Lemma chain_split lf mf l l' : chain lf mf (l ++ l') -> chain lf mf l /\ chain lf mf l'.
Proof.
  destruct l' as [|b l']; [by rewrite app_nil_r|]. destruct l as [|a l _] using rev_ind; [by split|].
  rewrite <- app_assoc. cbn [app]. rewrite chain_app. tauto.
Qed.

Lemma dll_nil s : dll s [].
Proof. split; [constructor|by intros a ?%elem_of_nil|done|done|]. by intros a [] ?. Qed.

(** A live node becomes the first. *)
Lemma dll_push s s' p q l :
  dll s (q :: l) -> p ∉ q :: l -> is_Some (gnodes s' !! p) ->
  (forall b, is_Some (gnodes s !! b) -> is_Some (gnodes s' !! b)) ->
  (forall b, less s' b = if decide (b = p) then Some q else less s b) ->
  (forall b, more s' b = if decide (b = q) then Some p else more s b) ->
  most_ru s' = p -> least_ru s' = least_ru s -> dll s' (p :: q :: l).
Proof.
  intros Hd Hp Hl Hlive Hless Hmore Hm Hle. pose proof (dll_nodup _ _ Hd) as Hnd. split.
  - by constructor.
  - intros a [-> |Ha]%elem_of_cons; [done|]. by apply Hlive, (dll_live _ _ Hd).
  - change (less s' p = Some q /\ more s' q = Some p /\ chain (less s') (more s') (q :: l)).
    rewrite Hless, Hmore, !decide_True by done. split_and!; [done..|].
    eapply chain_agree; [apply (dll_chain _ _ Hd)| |].
    + intros l1 a E b Hb. rewrite Hless, decide_False; [done|]. intros ->. apply Hp. rewrite E. apply elem_of_app. by left.
    + intros a l1 [= <- <-] b Hb. rewrite Hmore, decide_False; [done|]. intros ->. by inversion Hnd.
  - by intros a l' [= -> _].
  - intros a l' E. rewrite Hle. destruct l' as [|c l']; [discriminate|]. injection E as -> E. by apply (dll_least _ _ Hd _ l').
Qed.

(** The last node leaves. *)
Lemma dll_drop_last s s' l x p :
  dll s (l ++ [x; p]) -> (forall b, b ∈ l ++ [x] -> gnodes s' !! b = gnodes s !! b) ->
  most_ru s' = most_ru s -> least_ru s' = x -> dll s' (l ++ [x]).
Proof.
  intros Hd Hn Hm Hle. split.
  - pose proof (dll_nodup _ _ Hd) as H. change [x; p] with ([x] ++ [p]) in H. rewrite app_assoc in H. by apply list.NoDup_app in H as [? _].
  - intros a Ha. rewrite Hn by done. apply (dll_live _ _ Hd). rewrite elem_of_app, !elem_of_cons in *. tauto.
  - pose proof (dll_chain _ _ Hd) as Hc. apply chain_app in Hc as (Hc & _). eapply chain_agree; [exact Hc| |].
    + intros l1 a E b Hb. unfold less. rewrite Hn; [done|]. rewrite E, elem_of_app. by left.
    + intros a l1 E b Hb. unfold more. rewrite Hn; [done|]. rewrite E, elem_of_cons. by right.
  - intros a l' E. rewrite Hm. apply (dll_most _ _ Hd a (l' ++ [p])). change (l ++ [x; p]) with (l ++ [x] ++ [p]).
    by rewrite app_assoc, E.
  - intros a l' E. apply app_inj_2 in E as [_ [= ->]]; [|done]. exact Hle.
Qed.

(** A node in the middle leaves. *)
Lemma dll_drop_mid s s' l x p h l' :
  dll s (l ++ x :: p :: h :: l') ->
  (forall b, is_Some (gnodes s !! b) -> is_Some (gnodes s' !! b)) ->
  (forall b, less s' b = if decide (b = x) then Some h else less s b) ->
  (forall b, more s' b = if decide (b = h) then Some x else more s b) ->
  most_ru s' = most_ru s -> least_ru s' = least_ru s -> dll s' (l ++ x :: h :: l').
Proof.
  intros Hd Hlive Hless Hmore Hm Hle. pose proof (dll_nodup _ _ Hd) as Hnd. pose proof (dll_chain _ _ Hd) as Hc.
  apply chain_app in Hc as (Hc1 & _ & _ & Hc2). apply (chain_split _ _ [p]) in Hc2 as [_ Hc2].
  change (x :: p :: h :: l') with ([x] ++ [p] ++ h :: l') in Hnd. rewrite app_assoc in Hnd.
  apply list.NoDup_app in Hnd as (Hnd1 & Hdis & Hnd2). apply list.NoDup_app in Hnd2 as (_ & _ & Hnd2).
  assert (x ∉ h :: l') as Hx.
  { intros Hx. apply (Hdis x); [apply elem_of_app; right; by left|by right]. }
  assert (h ∉ l ++ [x]) as Hh by (intros Hh; apply (Hdis h Hh); right; by left).
  split.
  - change (x :: h :: l') with ([x] ++ h :: l'). rewrite app_assoc. apply list.NoDup_app. split_and!; [done| |done].
    intros b Hb Hb'. apply (Hdis b Hb). by right.
  - intros a Ha. apply Hlive, (dll_live _ _ Hd). rewrite elem_of_app, !elem_of_cons in *. tauto.
  - apply chain_app. rewrite Hless, Hmore, !decide_True by done. split_and!; [|done|done|].
    + eapply chain_agree; [exact Hc1| |].
      * intros l1 a [-> _]%app_inj_2 b Hb; [|done]. rewrite Hless, decide_False; [done|]. intros ->.
        apply list.NoDup_app in Hnd1 as (_ & Hnd1 & _). apply (Hnd1 x Hb). by left.
      * intros a l1 E b Hb. rewrite Hmore, decide_False; [done|]. intros ->. apply Hh. rewrite E. by right.
    + eapply chain_agree; [exact Hc2| |].
      * intros l1 a E b Hb. rewrite Hless, decide_False; [done|]. intros ->. apply Hx. rewrite E, elem_of_app. by left.
      * intros a l1 [= <- <-] b Hb. rewrite Hmore, decide_False; [done|]. intros ->. by inversion Hnd2.
  - intros a l1 E. rewrite Hm. destruct l as [|c l]; injection E as -> E; by eapply (dll_most _ _ Hd).
  - intros a l1 E. rewrite Hle. destruct l' as [|c l' _] using rev_ind.
    + apply (dll_least _ _ Hd a (l ++ [x; p])). change [x; h] with ([x] ++ [h]) in E. rewrite app_assoc in E.
      apply app_inj_2 in E as [_ [= ->]]; [|done]. by rewrite <- app_assoc.
    + apply (dll_least _ _ Hd a (l ++ x :: p :: h :: l')).
      change (x :: h :: l' ++ [c]) with ((x :: h :: l') ++ [c]) in E. rewrite app_assoc in E.
      apply app_inj_2 in E as [_ [= ->]]; [|done]. by rewrite <- app_assoc.
Qed.

(** The first links of a node that is put in front, in either order. *)
Lemma front_ok s q l p : dll s (q :: l) -> p ∉ q :: l -> is_Some (gnodes s !! p) -> exists s',
  (set_less_ru p q;; set_more_ru q p;; modify (with_most p)) s = (Ret tt, s')
  /\ (set_more_ru q p;; set_less_ru p q;; modify (with_most p)) s = (Ret tt, s')
  /\ same_content s s' /\ dll s' (p :: q :: l).
Proof.
  intros Hd Hp Hlive. assert (q <> p) as Hqp by (intros ->; apply Hp; by left).
  destruct (dll_live _ _ Hd q ltac:(by left)) as [nq Eq]. destruct Hlive as [np Ep].
  eexists. unfold set_less_ru, set_more_ru, deref, store, modify. cbv [mbind M_bind]. rewrite Ep, Eq.
  cbn [with_nodes gnodes]. rewrite !lookup_insert_ne, Ep, Eq by done. split; [reflexivity|]. cbn [with_nodes gnodes].
  split; [unfold with_most, with_nodes; cbn; by rewrite insert_insert_ne|]. split.
  - split; [reflexivity..|]. intros a. unfold held. cbn.
    destruct (decide (a = q)) as [-> |]; [by rewrite lookup_insert_eq, Eq|rewrite lookup_insert_ne by done].
    destruct (decide (a = p)) as [-> |]; [by rewrite lookup_insert_eq, Ep|by rewrite lookup_insert_ne by done].
  - apply (dll_push s); [done|done| | | | |done|done]; unfold less, more; cbn.
    + rewrite lookup_insert_ne, lookup_insert_eq by done. eauto.
    + intros b Hb. destruct (decide (b = q)) as [-> |]; [rewrite lookup_insert_eq; eauto|rewrite lookup_insert_ne by done].
      destruct (decide (b = p)) as [-> |]; [rewrite lookup_insert_eq; eauto|by rewrite lookup_insert_ne by done].
    + intros b. destruct (decide (b = q)) as [-> |].
      * by rewrite lookup_insert_eq, Eq, decide_False by done.
      * rewrite lookup_insert_ne by done. destruct (decide (b = p)) as [-> |]; [by rewrite lookup_insert_eq|by rewrite lookup_insert_ne].
    + intros b. destruct (decide (b = q)) as [-> |]; [by rewrite lookup_insert_eq|].
      rewrite lookup_insert_ne by done. destruct (decide (b = p)) as [-> |]; [by rewrite lookup_insert_eq, Ep|by rewrite lookup_insert_ne].
Qed.

Lemma get_bind {S A} (k : S -> M S A) s : (get ≫= k) s = k s s.
Proof. done. Qed.
Lemma deref_bind {A} p nd (k : gai_mrecord -> M addrinfo_cache A) s : gnodes s !! p = Some nd -> (deref p ≫= k) s = k nd s.
Proof. intros E. unfold deref. cbv [mbind M_bind]. by rewrite E. Qed.

(** A node that is not the first leaves the list. *)
Lemma disconnect_ok s l x p l2 : dll s (l ++ x :: p :: l2) -> exists s',
  disconnect p s = (Ret tt, s') /\ same_content s s' /\ is_Some (gnodes s' !! p) /\ dll s' (l ++ x :: l2).
Proof.
  intros Hd. pose proof (dll_chain _ _ Hd) as Hc. apply chain_app in Hc as (_ & _ & Hmx & Hc).
  assert (forall b, b ∈ x :: p :: l2 -> is_Some (gnodes s !! b)) as Hlive
    by (intros b Hb; apply (dll_live _ _ Hd), elem_of_app; by right).
  destruct (Hlive p ltac:(set_solver)) as [np Ep]. unfold more in Hmx. rewrite Ep in Hmx. injection Hmx as Hmx.
  unfold disconnect. rewrite get_bind, (deref_bind _ _ _ _ Ep). destruct l2 as [|h l2].
  { rewrite (dll_least _ _ Hd p (l ++ [x])) by (by rewrite <- app_assoc). rewrite Z.eqb_refl. eexists. split; [reflexivity|].
    split; [by split|]. split; [cbn; eauto|]. eapply dll_drop_last; [exact Hd|done|done|exact Hmx]. }
  pose proof (dll_nodup _ _ Hd) as Hnd. apply list.NoDup_app in Hnd as (_ & _ & Hnd).
  apply list.NoDup_cons in Hnd as [_ Hnd]. apply list.NoDup_cons in Hnd as [Hnd _].
  assert (p <> least_ru s) as Hpl.
  { destruct (exists_last (l := h :: l2)) as (l3 & y & E3); [done|]. rewrite E3 in Hnd.
    rewrite (dll_least _ _ Hd y (l ++ x :: p :: l3)) by (rewrite E3, <- app_assoc; done).
    intros ->. apply Hnd, elem_of_app. right; by left. }
  rewrite (proj2 (Z.eqb_neq _ _) Hpl). destruct Hc as (Hlp & Hmh & Hc). unfold less in Hlp. rewrite Ep in Hlp.
  injection Hlp as Hlp. rewrite Hmx, Hlp. assert (p <> h) as Hph by (intros ->; apply Hnd; by left).
  destruct (set_more_ru_ok s h x) as (s1 & E1 & Hsc1 & Hm1 & Hl1 & Hlv1 & Hless1 & Hmore1); [apply Hlive; set_solver|].
  rewrite (M_bind_Ret _ _ _ _ _ E1). destruct (proj2 (Hlv1 p) ltac:(eauto)) as [np1 Ep1]. rewrite (deref_bind _ _ _ _ Ep1).
  pose proof (Hless1 p) as Hl'. pose proof (Hmore1 p) as Hm'. rewrite decide_False in Hm' by done.
  unfold less in Hl'. unfold more in Hm'. rewrite Ep1, Ep in Hl', Hm'. cbn in Hl', Hm'. rewrite Hlp in Hl'. rewrite Hmx in Hm'.
  injection Hl' as ->. injection Hm' as ->.
  destruct (set_less_ru_ok s1 x h) as (s2 & E2 & Hsc2 & Hm2 & Hl2 & Hlv2 & Hless2 & Hmore2); [apply Hlv1, Hlive; set_solver|].
  exists s2. split; [exact E2|]. split; [by etransitivity|]. split; [apply Hlv2; eauto|].
  eapply dll_drop_mid; [exact Hd| | | |congruence|congruence].
  - intros b Hb. by apply Hlv2, Hlv1.
  - intros b. rewrite Hless2. case_decide; [done|apply Hless1].
  - intros b. by rewrite Hmore2.
Qed.

(** [make_most_ru] takes a node to the front, keeping the order of the others. *)
Lemma make_most_ru_ok s l1 p l2 : dll s (l1 ++ p :: l2) -> exists s',
  make_most_ru p s = (Ret tt, s') /\ same_content s s' /\ dll s' (p :: l1 ++ l2).
Proof.
  intros Hd. unfold make_most_ru. rewrite get_bind. destruct l1 as [|q l1].
  { rewrite (dll_most _ _ Hd p l2) by done. rewrite Z.eqb_refl. by exists s. }
  rewrite (dll_most _ _ Hd q (l1 ++ p :: l2) eq_refl).
  pose proof (dll_nodup _ _ Hd) as Hnd. apply list.NoDup_app in Hnd as (_ & Hdis & Hnd).
  assert (p ∉ (q :: l1) ++ l2) as Hp.
  { intros [Hp|Hp]%elem_of_app; [apply (Hdis p Hp); by left|by inversion Hnd]. }
  assert (p <> q) as Hpq by (intros ->; apply Hp; by left). rewrite (proj2 (Z.eqb_neq _ _) Hpq).
  destruct (exists_last (l := q :: l1)) as (l0 & x & E); [done|]. rewrite E, <- app_assoc in Hd.
  destruct (disconnect_ok _ _ _ _ _ Hd) as (s1 & E1 & Hs1 & Hp1 & Hd1). rewrite (M_bind_Ret _ _ _ _ _ E1).
  change (x :: l2) with ([x] ++ l2) in Hd1. rewrite app_assoc, <- E in Hd1.
  destruct (front_ok s1 q (l1 ++ l2) p) as (s2 & E2 & _ & Hs2 & Hd2); [exact Hd1|exact Hp|exact Hp1|].
  exists s2. split; [exact E2|]. split; [by etransitivity|exact Hd2].
Qed.

(** ** Lists of entries *)

Abbreviation keys l := (map fst l).

Lemma forget_notin k l : k ∉ keys l -> forget k l = l.
Proof.
  induction l as [|[k' r] l IH]; cbn; [done|]. rewrite elem_of_cons. intros H.
  rewrite bool_decide_eq_false_2 by (intros ->; tauto). cbn. f_equal. tauto.
Qed.
Lemma entry_notin k l : k ∉ keys l -> entry k l = None.
Proof. induction l as [|[k' r] l IH]; cbn; [done|]. rewrite elem_of_cons. intros H. rewrite decide_False by (intros ->; tauto). tauto. Qed.
Lemma answered_notin k r l : k ∉ keys l -> answered k r l = l.
Proof.
  induction l as [|[k' r'] l IH]; cbn; [done|]. rewrite elem_of_cons. intros H.
  rewrite decide_False by (intros ->; tauto). f_equal. tauto.
Qed.
Lemma entry_mid k r l l' : k ∉ keys l -> entry k (l ++ (k, r) :: l') = Some r.
Proof.
  induction l as [|[k' r'] l IH]; cbn; [by rewrite decide_True|]. rewrite elem_of_cons. intros H.
  rewrite decide_False by (intros ->; tauto). tauto.
Qed.
Lemma forget_mid k r l l' : k ∉ keys l -> k ∉ keys l' -> forget k (l ++ (k, r) :: l') = l ++ l'.
Proof.
  intros H H'. unfold forget. rewrite List.filter_app. cbn. rewrite bool_decide_eq_true_2 by done. cbn.
  fold (forget k l) (forget k l'). by rewrite !forget_notin.
Qed.
Lemma answered_mid k r r' l l' : k ∉ keys l -> k ∉ keys l' -> answered k r' (l ++ (k, r) :: l') = l ++ (k, r') :: l'.
Proof.
  intros H H'. unfold answered. rewrite map_app. cbn. rewrite decide_True by done.
  fold (answered k r' l) (answered k r' l'). by rewrite !answered_notin.
Qed.

(** ** The cache as such a list

    [E] is the keys and the nodes in order of use. *)
Record repr (s : addrinfo_cache) (sp : spec) (E : list (gai_args * Z)) : Prop := {
  r_map : map_to_list (the_map s) ≡ₚ E;
  r_dll : dll s (map snd E);
  r_held : Forall2 (fun e kr => held s e.2 = Some kr /\ e.1 = kr.1) E (lru sp);
  r_next : 0 < next_node s;
  r_used a : is_Some (gnodes s !! a) -> 0 < a < next_node s;
  r_cursor : match cursor s, sp_cursor sp with
    | Some p, Some k => (k, p) ∈ E
    | None, None => True
    | _, _ => False
    end
}.

Lemma r_keys s sp E : repr s sp E -> map fst E = keys (lru sp).
Proof. intros [_ _ H _ _ _]. revert H. generalize (lru sp). induction 1 as [|e kr E' l [_ He] _ IH]; cbn; congruence. Qed.
Lemma r_nodup s sp E : repr s sp E -> NoDup (keys (lru sp)).
Proof.
  intros Hr. rewrite <- (r_keys _ _ _ Hr). change (NoDup (E.*1)). rewrite <- (r_map _ _ _ Hr). apply NoDup_fst_map_to_list.
Qed.
Lemma r_lookup s sp E k p : repr s sp E -> the_map s !! k = Some p <-> (k, p) ∈ E.
Proof. intros Hr. by rewrite <- (r_map _ _ _ Hr), elem_of_map_to_list. Qed.
Lemma r_size s sp E : repr s sp E -> size (the_map s) = length (lru sp).
Proof.
  intros Hr. rewrite <- length_map_to_list, (Permutation_length (r_map _ _ _ Hr)). eapply Forall2_length, (r_held _ _ _ Hr).
Qed.
Lemma r_next_key s sp E lo : repr s sp E -> match least_above lo (keys (lru sp)) with
  | Some k => exists p, (k, p) ∈ E /\ 0 < p /\ map_next lo s = p
  | None => map_next lo s = 0
  end.
Proof.
  intros Hr. unfold map_next. assert (map fst (map_to_list (the_map s)) ≡ₚ keys (lru sp)) as Hp.
  { rewrite <- (r_keys _ _ _ Hr). apply (fmap_Permutation fst), (r_map _ _ _ Hr). }
  rewrite (least_above_perm _ _ _ Hp). pose proof (least_above_spec lo (keys (lru sp))) as H.
  destruct (least_above lo (keys (lru sp))) as [k|]; [|done]. destruct H as (Hk & _).
  rewrite <- (r_keys _ _ _ Hr) in Hk. apply (list_elem_of_fmap_1 fst) in Hk as ([k' p] & -> & Hin). exists p.
  cbn [fst]. split; [done|]. rewrite (proj2 (r_lookup _ _ _ k' p Hr) Hin). split; [|done].
  apply (r_used _ _ _ Hr), (dll_live _ _ (r_dll _ _ _ Hr)). by apply (list_elem_of_fmap_2 snd _ _ Hin).
Qed.
(** An entry of the map, in both lists. *)
Lemma r_split s sp E k p : repr s sp E -> (k, p) ∈ E -> exists E1 E2 l1 l2 r,
  E = E1 ++ (k, p) :: E2 /\ lru sp = l1 ++ (k, r) :: l2 /\ held s p = Some (k, r) /\ (k ∉ keys l1) /\ (k ∉ keys l2)
  /\ Forall2 (fun e kr => held s e.2 = Some kr /\ e.1 = kr.1) E1 l1
  /\ Forall2 (fun e kr => held s e.2 = Some kr /\ e.1 = kr.1) E2 l2.
Proof.
  intros Hr Hin. apply list_elem_of_split in Hin as (E1 & E2 & ->). pose proof (r_held _ _ _ Hr) as H.
  apply Forall2_app_inv_l in H as (l1 & l & H1 & H2 & Hl). apply Forall2_cons_inv_l in H2 as ([k' r] & l2 & [Hh Hk] & H2 & ->).
  cbn in Hh, Hk. subst k'. exists E1, E2, l1, l2, r. pose proof (r_nodup _ _ _ Hr) as Hnd. rewrite Hl, map_app in Hnd.
  apply list.NoDup_app in Hnd as (_ & Hdis & Hnd). cbn in Hnd. apply list.NoDup_cons in Hnd as [Hnd _].
  split_and!; try done. intros Hin. apply (Hdis k Hin). by left.
Qed.

(** ** The operations on such a list *)

Lemma repr_counted s sp E a h m r e : repr s sp E -> repr (counted a h m r e s) sp E.
Proof. intros [? [] ? ? ? ?]. split; [done|by split|done..]. Qed.
Lemma repr_cursor s sp E k : repr s sp E -> k = least_above (sp_cursor sp) (keys (lru sp)) ->
  repr (with_cursor (match map_next (sp_cursor sp) s with 0 => None | p => Some p end) s) (Spec (lru sp) k) E.
Proof.
  intros Hr ->. pose proof (r_next_key _ _ _ (sp_cursor sp) Hr) as H. destruct Hr as [? [] ? ? ? _]. split; [done|by split|done..|]. cbn.
  destruct (least_above _ _) as [k|]; [|by rewrite H]. destruct H as (p & Hin & Hp & ->). by destruct p.
Qed.

Lemma held_same s s' E l : (forall a, held s' a = held s a) ->
  Forall2 (fun e kr => held s e.2 = Some kr /\ e.1 = kr.1) E l -> Forall2 (fun e kr => held s' e.2 = Some kr /\ e.1 = kr.1) E l.
Proof. intros Hs. apply Forall2_impl. intros e kr. by rewrite Hs. Qed.

Lemma live_held s a : is_Some (gnodes s !! a) <-> is_Some (held s a).
Proof. unfold held. by rewrite fmap_is_Some. Qed.

Lemma touch_ok s sp E k p : repr s sp E -> (k, p) ∈ E -> exists r s' E',
  entry k (lru sp) = Some r /\ held s p = Some (k, r) /\ make_most_ru p s = (Ret tt, s') /\ same_content s s'
  /\ repr s' (Spec ((k, r) :: forget k (lru sp)) (sp_cursor sp)) E'.
Proof.
  intros Hr Hin. destruct (r_split _ _ _ _ _ Hr Hin) as (E1 & E2 & l1 & l2 & r & -> & Hl & Hh & H1 & H2 & HE1 & HE2).
  pose proof (r_dll _ _ _ Hr) as Hd. rewrite map_app in Hd. cbn [map] in Hd.
  destruct (make_most_ru_ok _ _ _ _ Hd) as (s' & Hm & Hs & Hd'). exists r, s', ((k, p) :: E1 ++ E2).
  rewrite Hl, entry_mid, forget_mid by done. split_and!; [done..|]. destruct Hs as [Hsm Hsn Hsc Hsh].
  assert ((k, p) :: E1 ++ E2 ≡ₚ E1 ++ (k, p) :: E2) as Hp by apply Permutation_middle. split; cbn [lru sp_cursor].
  - rewrite Hsm, Hp. apply (r_map _ _ _ Hr).
  - cbn [map]. by rewrite map_app.
  - apply (held_same s); [done|]. constructor; [by split|]. by apply Forall2_app.
  - rewrite Hsn. apply (r_next _ _ _ Hr).
  - intros a. rewrite live_held, Hsh, <- live_held, Hsn. apply (r_used _ _ _ Hr).
  - rewrite Hsc. pose proof (r_cursor _ _ _ Hr) as Hc. destruct (cursor s), (sp_cursor sp); try done. by rewrite Hp.
Qed.

(** A write of an answer touches neither links nor other nodes. *)
Lemma set_air_writes s p nd r' : gnodes s !! p = Some nd -> exists s',
  set_air p r' s = (Ret tt, s') /\ the_map s' = the_map s /\ next_node s' = next_node s /\ cursor s' = cursor s
  /\ (forall a, held s' a = if decide (a = p) then Some (g_args nd, r') else held s a)
  /\ (forall a, is_Some (gnodes s !! a) <-> is_Some (gnodes s' !! a))
  /\ forall l, dll s l -> dll s' l.
Proof.
  intros Ep. unfold set_air. rewrite (deref_bind _ _ _ _ Ep). eexists. split; [reflexivity|].
  assert (forall a, is_Some (gnodes s !! a) <-> is_Some (<[p:=GaiMRecord (g_args nd) r' (less_ru nd) (more_ru nd)]> (gnodes s) !! a)) as Hlive.
  { intros a. destruct (decide (a = p)) as [-> |]; [|by rewrite lookup_insert_ne]. rewrite lookup_insert_eq. by split; eauto. }
  split_and!; [reflexivity..| |exact Hlive|].
  - intros a. unfold held. cbn. destruct (decide (a = p)) as [-> |]; [|by rewrite lookup_insert_ne]. by rewrite lookup_insert_eq.
  - intros l [Hnd Hl Hc Hm Hle]. split; [done| | |done|done]; cbn.
    + intros a Ha. by apply Hlive, Hl.
    + eapply chain_agree; [exact Hc| |]; intros; unfold less, more; cbn;
        (destruct (decide (b = p)) as [-> |]; [|by rewrite lookup_insert_ne]); by rewrite lookup_insert_eq, Ep.
Qed.

Lemma held_but s s' p o E l : p ∉ map snd E -> (forall a, held s' a = if decide (a = p) then o else held s a) ->
  Forall2 (fun e kr => held s e.2 = Some kr /\ e.1 = kr.1) E l -> Forall2 (fun e kr => held s' e.2 = Some kr /\ e.1 = kr.1) E l.
Proof.
  intros Hp Hs. induction 1 as [|e kr E l He _ IH]; [constructor|]. cbn in Hp. rewrite elem_of_cons in Hp.
  constructor; [|apply IH; tauto]. rewrite Hs, decide_False by (intros Hx; apply Hp; by left). done.
Qed.

Lemma set_air_ok s sp E k p r' : repr s sp E -> (k, p) ∈ E -> exists s',
  set_air p r' s = (Ret tt, s') /\ repr s' (Spec (answered k r' (lru sp)) (sp_cursor sp)) E.
Proof.
  intros Hr Hin. destruct (r_split _ _ _ _ _ Hr Hin) as (E1 & E2 & l1 & l2 & r & -> & Hl & Hh & H1 & H2 & HE1 & HE2).
  unfold held in Hh. destruct (gnodes s !! p) as [nd|] eqn:Ep; [|done]. injection Hh as Hk Hair.
  destruct (set_air_writes s p nd r' Ep) as (s' & E' & Hm & Hn & Hc & Hheld & Hlive & Hd). exists s'. split; [done|].
  rewrite Hl, answered_mid by done. rewrite Hk in Hheld.
  assert (NoDup (p :: map snd (E1 ++ E2))) as Hnp.
  { pose proof (dll_nodup _ _ (r_dll _ _ _ Hr)) as Hnd. rewrite map_app in Hnd |- *. cbn in Hnd. by rewrite Permutation_middle. }
  apply list.NoDup_cons in Hnp as [Hnp _]. rewrite map_app, elem_of_app in Hnp.
  split; cbn [lru sp_cursor]; rewrite ?Hm, ?Hn, ?Hc.
  - apply (r_map _ _ _ Hr).
  - apply Hd, (r_dll _ _ _ Hr).
  - apply Forall2_app; [eapply held_but; [|exact Hheld|exact HE1]; tauto|].
    constructor; [|eapply held_but; [|exact Hheld|exact HE2]; tauto]. rewrite Hheld. cbn. by rewrite decide_True.
  - apply (r_next _ _ _ Hr).
  - intros a Ha. apply (r_used _ _ _ Hr). by apply Hlive.
  - apply (r_cursor _ _ _ Hr).
Qed.

Lemma lookup_find_ok s sp E k : repr s sp E -> exists a sp' s' E',
  lookup_find k s = (Ret a, s') /\ spec_step (E_find k) sp = (A_found a, sp') /\ repr s' sp' E'.
Proof.
  intros Hr. unfold lookup_find. rewrite get_bind. cbn [spec_step].
  destruct (the_map s !! k) as [p|] eqn:Ek.
  - apply (r_lookup _ _ _ _ _ Hr) in Ek. destruct (touch_ok _ _ _ _ _ Hr Ek) as (r & s' & E' & He & Hh & Hm & Hs & Hr').
    rewrite (M_bind_Ret _ _ _ _ _ Hm), He. exists (Some r). eexists _, _, E'.
    unfold modify. cbv [mbind M_bind]. pose proof (sc_held _ _ Hs p) as Hp. rewrite Hh in Hp. unfold held in Hp.
    destruct (gnodes s' !! p) as [nd|] eqn:En; [|done]. unfold deref. cbn [gnodes counted]. rewrite En. injection Hp as Hk Ha. rewrite Ha.
    split_and!; [reflexivity..|]. by apply repr_counted.
  - exists None, sp, s, E. rewrite entry_notin; [done|]. rewrite <- (r_keys _ _ _ Hr).
    intros Hin. apply (list_elem_of_fmap_1 fst) in Hin as ([k' p] & -> & Hin). apply (r_lookup _ _ _ _ _ Hr) in Hin. cbn in Ek. congruence.
Qed.

(** A new node, not yet linked. *)
Lemma map_insert_new s sp E k r : repr s sp E -> the_map s !! k = None -> exists s1,
  map_insert k r s = (Ret (next_node s, true), s1) /\ (next_node s ∉ map snd E) /\ (k ∉ keys (lru sp))
  /\ map_to_list (the_map s1) ≡ₚ (k, next_node s) :: E /\ dll s1 (map snd E) /\ is_Some (gnodes s1 !! next_node s)
  /\ (forall a, held s1 a = if decide (a = next_node s) then Some (k, r) else held s a)
  /\ next_node s1 = next_node s + 1 /\ cursor s1 = cursor s /\ most_ru s1 = most_ru s /\ least_ru s1 = least_ru s.
Proof.
  intros Hr Hk. unfold map_insert. rewrite Hk. eexists. split; [reflexivity|].
  assert (gnodes s !! next_node s = None) as Hfresh.
  { destruct (gnodes s !! next_node s) eqn:En; [|done]. pose proof (r_used _ _ _ Hr (next_node s) ltac:(eauto)). lia. }
  assert (forall a, is_Some (gnodes s !! a) -> a <> next_node s) as Hne by (intros a [? Ha] ->; congruence).
  assert (next_node s ∉ map snd E) as Hin.
  { intros Hin. apply (Hne (next_node s)); [|done]. by apply (dll_live _ _ (r_dll _ _ _ Hr)). }
  split_and!; cbn; [done| | | | | |done..].
  - rewrite <- (r_keys _ _ _ Hr). intros Hx. apply (list_elem_of_fmap_1 fst) in Hx as ([k' p] & -> & Hx).
    apply (r_lookup _ _ _ _ _ Hr) in Hx. cbn in Hk. congruence.
  - rewrite map_to_list_insert by done. constructor. apply (r_map _ _ _ Hr).
  - destruct (r_dll _ _ _ Hr) as [? Hdl Hdc ? ?]. split; [done| | |done|done]; cbn.
    + intros a Ha. rewrite lookup_insert_ne; [by apply Hdl|]. apply not_eq_sym, Hne, Hdl, Ha.
    + eapply chain_agree; [exact Hdc| |]; intros; unfold less, more; cbn; (rewrite lookup_insert_ne; [done|]);
        apply not_eq_sym, Hne, Hdl; [rewrite H, elem_of_app; by left|rewrite H; by right].
  - rewrite lookup_insert_eq. eauto.
  - intros a. unfold held. cbn. destruct (decide (a = next_node s)) as [-> |]; [by rewrite lookup_insert_eq|by rewrite lookup_insert_ne].
Qed.

Lemma M_bind_assoc {S A B C} (m : M S A) (f : A -> M S B) (g : B -> M S C) s :
  ((m ≫= f) ≫= g) s = (m ≫= fun x => f x ≫= g) s.
Proof. unfold mbind, M_bind. by destruct (m s) as [[a|e|] s']. Qed.

(** It is linked in front. *)
Lemma link_new_ok s p l : dll s l -> p ∉ l -> is_Some (gnodes s !! p) -> size (the_map s) = S (length l) -> exists s',
  ((if Z.of_nat (size (the_map s)) =? 1 then modify (with_least p)
    else set_more_ru (most_ru s) p;; set_less_ru p (most_ru s));; modify (with_most p)) s = (Ret tt, s')
  /\ same_content s s' /\ dll s' (p :: l).
Proof.
  intros Hd Hp Hlive ->. destruct l as [|q l].
  - eexists. split; [reflexivity|]. split; [by split|]. split.
    + apply list.NoDup_singleton.
    + intros a ->%list_elem_of_singleton. exact Hlive.
    + done.
    + by intros a l' [= -> _].
    + intros a l' E. destruct l' as [|c []]; by injection E as -> .
  - rewrite (proj2 (Z.eqb_neq _ _)) by (cbn; lia). rewrite (dll_most _ _ Hd q l eq_refl), M_bind_assoc.
    destruct (front_ok _ _ _ _ Hd Hp Hlive) as (s' & _ & E & Hs & Hd'). exists s'. by rewrite <- E.
Qed.

Lemma insert_new_ok s sp E k r : repr s sp E -> the_map s !! k = None -> exists s' E',
  ('(p, inserted) ← map_insert k r;
   if negb inserted then set_air p r;; make_most_ru p;; nd ← deref p; mret (g_air nd)
   else
     s ← get;
     (if Z.of_nat (size (the_map s)) =? 1 then modify (with_least p)
      else set_more_ru (most_ru s) p;; set_less_ru p (most_ru s));;
     modify (with_most p);; mret r) s = (Ret r, s')
  /\ repr s' (Spec ((k, r) :: lru sp) (sp_cursor sp)) E'.
Proof.
  intros Hr Ek. destruct (map_insert_new _ _ _ _ r Hr Ek) as (s1 & Ei & Hin & Hk & Hmap & Hd & Hlive & Hheld & Hn & Hcur & _).
  rewrite (M_bind_Ret _ _ _ _ _ Ei). cbn [negb]. rewrite get_bind. set (p := next_node s) in *.
  destruct (link_new_ok s1 p (map snd E) Hd Hin Hlive) as (s' & E' & [Hsm Hsn Hsc Hsh] & Hd').
  { rewrite <- length_map_to_list, (Permutation_length Hmap). cbn. by rewrite length_map. }
  exists s', ((k, p) :: E). rewrite <- M_bind_assoc, (M_bind_Ret _ _ _ _ _ E'). split; [done|].
  assert (forall a, a ∈ map snd E -> held s' a = held s a) as Hold.
  { intros a Ha. rewrite Hsh, Hheld, decide_False; [done|]. by intros ->. }
  split; cbn [lru sp_cursor].
  - by rewrite Hsm.
  - exact Hd'.
  - constructor; [by rewrite Hsh, Hheld, decide_True|].
    assert (forall F l, (forall a, a ∈ map snd F -> held s' a = held s a) ->
      Forall2 (fun e kr => held s e.2 = Some kr /\ e.1 = kr.1) F l ->
      Forall2 (fun e kr => held s' e.2 = Some kr /\ e.1 = kr.1) F l) as Hf.
    { intros F l Ho. induction 1 as [|e kr F l He _ IH]; [constructor|]. constructor.
      - rewrite Ho; [done|by left].
      - apply IH. intros a Ha. apply Ho. by right. }
    by apply Hf, (r_held _ _ _ Hr).
  - rewrite Hsn, Hn. pose proof (r_next _ _ _ Hr). lia.
  - intros a. rewrite live_held, Hsh, Hheld, Hsn, Hn. pose proof (r_next _ _ _ Hr).
    case_decide as Ha; [subst a p; lia|]. rewrite <- live_held. intros Hs%(r_used _ _ _ Hr). lia.
  - rewrite Hsc, Hcur. pose proof (r_cursor _ _ _ Hr) as Hc. destruct (cursor s), (sp_cursor sp); try done. by right.
Qed.

Lemma lookup_insert_ok s sp E k r : repr s sp E -> exists s' E',
  lookup_insert k r s = (Ret r, s') /\ repr s' (spec_step (E_insert k r) sp).2 E'.
Proof.
  intros Hr. unfold lookup_insert. cbn [spec_step snd]. rewrite (M_bind_Ret (modify _) _ s tt (counted 0 0 1 0 0 s)) by done.
  apply (repr_counted _ _ _ 0 0 1 0 0) in Hr. revert Hr. generalize (counted 0 0 1 0 0 s). clear s. intros s Hr.
  destruct (ar_status r =? EAI_AGAIN).
  { eexists _, E. split; [reflexivity|]. by apply repr_counted. }
  destruct (the_map s !! k) as [p|] eqn:Ek.
  - assert (map_insert k r s = (Ret (p, false), s)) as Ei by (unfold map_insert; by rewrite Ek).
    rewrite (M_bind_Ret _ _ _ _ _ Ei). cbn [negb]. apply (r_lookup _ _ _ _ _ Hr) in Ek.
    destruct (set_air_ok _ _ _ _ _ r Hr Ek) as (s1 & E1 & Hr1). rewrite (M_bind_Ret _ _ _ _ _ E1).
    destruct (touch_ok _ _ _ _ _ Hr1 Ek) as (r2 & s2 & E' & He & Hh & Hm & Hs & Hr2). rewrite (M_bind_Ret _ _ _ _ _ Hm).
    destruct (r_split _ _ _ _ _ Hr Ek) as (F1 & F2 & l1 & l2 & r0 & _ & Hl & _ & H1 & H2 & _).
    cbn [lru sp_cursor] in *. rewrite Hl, answered_mid, forget_mid in Hr2 by done. rewrite Hl, answered_mid, entry_mid in He by done.
    injection He as <-. pose proof (sc_held _ _ Hs p) as Hp. rewrite Hh in Hp. unfold held in Hp.
    destruct (gnodes s2 !! p) as [nd|] eqn:En; [|done]. rewrite (deref_bind _ _ _ _ En). injection Hp as _ ->.
    exists s2, E'. split; [done|]. by rewrite Hl, forget_mid.
  - rewrite (forget_notin k (lru sp)).
    + by apply (insert_new_ok _ _ E).
    + rewrite <- (r_keys _ _ _ Hr). intros Hin. apply (list_elem_of_fmap_1 fst) in Hin as ([k' p] & -> & Hin).
      apply (r_lookup _ _ _ _ _ Hr) in Hin. cbn in Ek. congruence.
Qed.

(** One round of the eviction. *)
Lemma evict_one_ok s l x E : repr s (Spec (l ++ [x]) None) E -> exists nd s' E',
  gnodes s !! least_ru s = Some nd
  /\ (map_erase (least_ru s);; modify (counted 0 0 0 0 1);; modify (with_least (more_ru nd))) s = (Ret tt, s')
  /\ repr s' (Spec l None) E'.
Proof.
  intros Hr. pose proof (r_held _ _ _ Hr) as Hh. cbn [lru] in Hh.
  apply Forall2_app_inv_r in Hh as (E' & Ex & Hh & Hx & HE).
  apply Forall2_cons_inv_r in Hx as ([k p] & E0 & [Hp Hk] & Hn & ->). apply Forall2_nil_inv_r in Hn as ->. subst E.
  pose proof (r_dll _ _ _ Hr) as Hd. rewrite map_app in Hd. cbn [map snd fst] in *.
  rewrite (dll_least _ _ Hd p (map snd E') eq_refl). unfold held in Hp. destruct (gnodes s !! p) as [nd|] eqn:En; [|done].
  injection Hp as Hx. exists nd. unfold map_erase, deref, modify. cbv [mbind M_bind]. rewrite En. eexists _, E'.
  split; [done|]. split; [reflexivity|].
  pose proof (dll_nodup _ _ Hd) as Hnd. apply list.NoDup_app in Hnd as (_ & Hdis & _).
  assert (forall a, a ∈ map snd E' -> a <> p) as Hne by (intros a Ha ->; apply (Hdis p Ha); by left).
  assert (g_args nd = k) as -> by (by rewrite <- Hx in Hk).
  split; cbn [the_map gnodes next_node cursor counted with_least sp_cursor lru].
  - assert (the_map s !! k = Some p) as Hmk by (apply (r_lookup _ _ _ _ _ Hr), elem_of_app; right; by left).
    pose proof (map_to_list_delete _ _ _ Hmk) as Hm. rewrite (r_map _ _ _ Hr) in Hm.
    apply (Permutation_cons_inv (a := (k, p))). by rewrite Hm, <- Permutation_cons_append.
  - destruct E' as [|e E' _] using rev_ind; [apply dll_nil|]. destruct e as [k' x']. rewrite map_app in Hd, Hne |- *. cbn in Hd, Hne |- *.
    rewrite <- app_assoc in Hd. cbn in Hd. eapply dll_drop_last; [exact Hd| |done|].
    + intros b Hb. cbn. by rewrite lookup_delete_ne by (apply not_eq_sym, Hne, Hb).
    + pose proof (dll_chain _ _ Hd) as Hc. apply chain_app in Hc as (_ & _ & Hm & _). unfold more in Hm. rewrite En in Hm. by injection Hm.
  - clear Hr Hd Hdis Hk. induction Hh as [|e kr F l' [He1 He2] _ IH]; constructor.
    + split; [|done]. unfold held in *. cbn. rewrite lookup_delete_ne; [done|]. apply not_eq_sym, Hne. by left.
    + apply IH. intros a Ha. apply Hne. by right.
  - apply (r_next _ _ _ Hr).
  - intros a Ha. apply (r_used _ _ _ Hr). destruct (decide (a = p)) as [-> |].
    + rewrite lookup_delete_eq in Ha. by destruct Ha.
    + by rewrite lookup_delete_ne in Ha.
  - apply (r_cursor _ _ _ Hr).
Qed.

Lemma ztake_app_le {A} (l k : list A) n : n <= zlen l -> ztake n (l ++ k) = ztake n l.
Proof.
  intros H. unfold ztake. pose proof (zlen_nonneg k). rewrite zlen_app, !Z.min_l by lia. apply take_app_le. unfold zlen in H. lia.
Qed.

Lemma evict_loop_ok n s l E max : repr s (Spec l None) E -> 0 <= max -> (length l <= n)%nat -> exists s' E',
  evict_loop n max s = (Ret tt, s') /\ repr s' (Spec (ztake max l) None) E'.
Proof.
  revert s l E. induction n as [|n IH]; intros s l E Hr Hmax Hn; cbn [evict_loop]; rewrite get_bind, (r_size _ _ _ Hr); cbn [lru];
    destruct (Z.leb_spec (Z.of_nat (length l)) max) as [Hle|Hgt].
  - exists s, E. split; [done|]. rewrite ztake_all by (unfold zlen; lia). done.
  - lia.
  - exists s, E. split; [done|]. rewrite ztake_all by (unfold zlen; lia). done.
  - destruct l as [|x l _] using rev_ind; [cbn in Hgt; lia|].
    destruct (evict_one_ok _ _ _ _ Hr) as (nd & s1 & E1 & En & He & Hr1).
    rewrite (deref_bind _ _ _ _ En). destruct (IH _ _ _ Hr1 Hmax ltac:(rewrite length_app in Hn; cbn in Hn; lia)) as (s' & E' & Hs' & Hr').
    exists s', E'. rewrite <- Hs'. split.
    + revert He. unfold mbind, M_bind. destruct (map_erase (least_ru s) s) as [[[]|e|] s2]; [|discriminate..]. cbn. by intros [= ->].
    + rewrite length_app in Hgt. cbn in Hgt. by rewrite ztake_app_le by (unfold zlen; lia).
Qed.

Lemma keys_answered k r l : keys (answered k r l) = keys l.
Proof. unfold answered. rewrite List.map_map. apply map_ext. intros [k' r']. cbn. case_decide; [by subst|done]. Qed.

Definition event_ok (ev : event) : Prop := match ev with E_refresh max_size => 0 <= max_size | _ => True end.

Lemma refresh_round_ok s sp E p k r : repr s sp E -> cursor s = Some p -> sp_cursor sp = Some k -> exists s' E',
  refresh_round p r s = (Ret k, s') /\ repr s' (spec_step (E_refreshed r) sp).2 E'.
Proof.
  intros Hr Hp Hk. pose proof (r_cursor _ _ _ Hr) as Hin. rewrite Hp, Hk in Hin. unfold refresh_round.
  rewrite (M_bind_Ret (modify _) _ s tt (counted 0 0 0 1 0 s)) by done. apply (repr_counted _ _ _ 0 0 0 1 0) in Hr.
  revert Hr. generalize (counted 0 0 0 1 0 s). clear Hp s. intros s Hr. cbn [spec_step snd]. rewrite Hk. cbn [snd].
  destruct (r_split _ _ _ _ _ Hr Hin) as (_ & _ & _ & _ & r0 & _ & _ & Hh & _). unfold held in Hh.
  destruct (gnodes s !! p) as [nd|] eqn:En; [|done]. injection Hh as Hkn _. rewrite (deref_bind _ _ _ _ En), Hkn.
  assert (exists s1, (if negb (ar_status r =? EAI_AGAIN) then set_air p r else modify (counted 1 0 0 0 0)) s = (Ret tt, s1)
    /\ repr s1 (Spec (if ar_status r =? EAI_AGAIN then lru sp else answered k r (lru sp)) (Some k)) E) as (s1 & E1 & Hr1).
  { destruct (ar_status r =? EAI_AGAIN); cbn [negb].
    - eexists. split; [reflexivity|]. rewrite <- Hk. destruct sp. by apply repr_counted.
    - destruct (set_air_ok _ _ _ _ _ r Hr Hin) as (s1 & Es & Hr1). rewrite Hk in Hr1. by exists s1. }
  rewrite (M_bind_Ret _ _ _ _ _ E1). eexists _, E. split; [reflexivity|].
  refine (repr_cursor s1 (Spec _ (Some k)) E _ Hr1 _). cbn [sp_cursor lru]. f_equal.
  case_match; [done|]. by rewrite keys_answered.
Qed.

Lemma step_ok s sp E ev : repr s sp E -> event_ok ev -> exists s' E',
  step ev s = (Ret (spec_step ev sp).1, s') /\ repr s' (spec_step ev sp).2 E'.
Proof.
  intros Hr Hok. destruct ev as [k|k r|max|r]; cbn [step event_ok] in *.
  - destruct (lookup_find_ok _ _ _ k Hr) as (a & sp' & s' & E' & Es & Ep & Hr'). rewrite (M_bind_Ret _ _ _ _ _ Es), Ep. by exists s', E'.
  - destruct (lookup_insert_ok _ _ _ k r Hr) as (s' & E' & Es & Hr'). rewrite (M_bind_Ret _ _ _ _ _ Es). by exists s', E'.
  - rewrite get_bind. pose proof (r_cursor _ _ _ Hr) as Hc. cbn [spec_step].
    destruct (cursor s) as [p|] eqn:Ep, (sp_cursor sp) as [k|] eqn:Ek; [by exists s, E|done|done|].
    destruct (evict_loop_ok (size (the_map s)) s (lru sp) E max) as (s1 & E1 & Es & Hr1);
      [destruct sp as [l c]; cbn in Ek; subst c; exact Hr|done|by rewrite (r_size _ _ _ Hr)|].
    unfold refresh_start. rewrite M_bind_assoc, get_bind, M_bind_assoc, (M_bind_Ret _ _ _ _ _ Es). eexists _, E1.
    split; [reflexivity|]. by refine (repr_cursor _ (Spec _ None) _ _ Hr1 _).
  - rewrite get_bind. pose proof (r_cursor _ _ _ Hr) as Hc.
    destruct (cursor s) as [p|] eqn:Ep, (sp_cursor sp) as [k|] eqn:Ek; try done.
    + destruct (refresh_round_ok _ _ _ _ _ r Hr Ep Ek) as (s' & E' & Es & Hr'). rewrite (M_bind_Ret _ _ _ _ _ Es).
      exists s', E'. split; [|exact Hr']. cbn [spec_step]. by rewrite Ek.
    + exists s, E. cbn [spec_step]. by rewrite Ek.
Qed.

Lemma spec_run_cons ev evs sp : spec_run (ev :: evs) sp
  = ((spec_step ev sp).1 :: (spec_run evs (spec_step ev sp).2).1, (spec_run evs (spec_step ev sp).2).2).
Proof. cbn [spec_run]. destruct (spec_step ev sp) as [a sp1]. cbn [fst snd]. by destruct (spec_run evs sp1). Qed.

Lemma run_ok evs s sp E : repr s sp E -> Forall event_ok evs -> exists s' E',
  run evs s = (Ret (spec_run evs sp).1, s') /\ repr s' (spec_run evs sp).2 E'.
Proof.
  revert s sp E. induction evs as [|ev evs IH]; intros s sp E Hr Hok; [by exists s, E|]. rewrite spec_run_cons. cbn [run fst snd].
  apply Forall_cons_1 in Hok as [Hev Hok]. destruct (step_ok _ _ _ ev Hr Hev) as (s1 & E1 & Es & Hr1).
  destruct (IH _ _ _ Hr1 Hok) as (s' & E' & Es' & Hr').
  rewrite (M_bind_Ret _ _ _ _ _ Es), (M_bind_Ret _ _ _ _ _ Es'). by exists s', E'.
Qed.

Lemma init_repr : repr addrinfo_cache_init spec_init [].
Proof.
  split; cbn; [done|apply dll_nil|constructor|done| |done]. intros a []. by rewrite lookup_empty in H.
Qed.

(** A node of the list and the one after it. *)
Lemma node_at s sp E1 k p E2 : repr s sp (E1 ++ (k, p) :: E2) -> exists nd,
  gnodes s !! p = Some nd /\ g_args nd = k /\ the_map s !! k = Some p
  /\ match E2 with
     | [] => p = least_ru s
     | (_, p') :: _ => p <> least_ru s /\ less_ru nd = p' /\ exists nd', gnodes s !! p' = Some nd' /\ more_ru nd' = p
     end.
Proof.
  intros Hr. assert ((k, p) ∈ E1 ++ (k, p) :: E2) as Hin by (apply elem_of_app; right; by left).
  destruct (r_split _ _ _ k p Hr Hin) as (_ & _ & _ & _ & r & _ & _ & Hh & _). unfold held in Hh.
  destruct (gnodes s !! p) as [nd|] eqn:En; [|done]. injection Hh as Hk _. exists nd.
  pose proof (r_dll _ _ _ Hr) as Hd. rewrite map_app in Hd. cbn [map snd] in Hd.
  split_and!; [done|done|by apply (r_lookup _ _ _ _ _ Hr)|]. destruct E2 as [|[k' p'] E2].
  - symmetry. by apply (dll_least _ _ Hd p (map snd E1)).
  - cbn [map snd] in Hd. pose proof (dll_nodup _ _ Hd) as Hnd. apply list.NoDup_app in Hnd as (_ & _ & Hnd).
    apply list.NoDup_cons in Hnd as [Hnd _]. pose proof (dll_chain _ _ Hd) as Hc. apply chain_app in Hc as (_ & Hlp & Hmp & _).
    unfold less in Hlp. unfold more in Hmp. rewrite En in Hlp. injection Hlp as Hlp.
    destruct (gnodes s !! p') as [nd'|] eqn:En'; [|done]. injection Hmp as Hmp. split_and!; [|done|by exists nd'].
    destruct (exists_last (l := p' :: map snd E2)) as (l3 & y & E3); [done|]. rewrite E3 in Hnd, Hd.
    rewrite (dll_least _ _ Hd y (map snd E1 ++ p :: l3)) by (by rewrite <- app_assoc).
    intros ->. apply Hnd, elem_of_app. right; by left.
Qed.

(** The walk of the checker. *)
Lemma check_loop_ok n s sp E1 k p E2 m : repr s sp (E1 ++ (k, p) :: E2) -> (length E2 <= n)%nat ->
  check_loop n s p m = Ret (m + Z.of_nat (length E2)).
Proof.
  revert n E1 k p m. induction E2 as [|[k' p'] E2 IH]; intros n E1 k p m Hr Hn;
    destruct (node_at _ _ _ _ _ _ Hr) as (nd & En & Hk & Hm & Hnext).
  - destruct n; cbn [check_loop]; rewrite En, Hk, bool_decide_eq_true_2, <- Hnext, Z.eqb_refl by done; cbn; f_equal; lia.
  - destruct Hnext as (Hl & Hless & nd' & En' & Hmore). destruct n as [|n]; [cbn in Hn; lia|]. cbn [check_loop].
    rewrite En, Hk, bool_decide_eq_true_2, (proj2 (Z.eqb_neq _ _) Hl), Hless, En', Hmore, Z.eqb_refl by done. cbn [negb].
    rewrite (IH n (E1 ++ [(k, p)]) k' p'); [f_equal; cbn; lia|by rewrite <- app_assoc|cbn in Hn; lia].
Qed.

Lemma check_invariant_ok s sp E : repr s sp E -> check_invariant s = Ret tt.
Proof.
  intros Hr. unfold check_invariant. pose proof (r_size _ _ _ Hr) as Hs.
  rewrite <- (Forall2_length (r_held _ _ _ Hr)) in Hs. rewrite Hs. destruct E as [|[k p] E]; [done|].
  rewrite (proj2 (Z.eqb_neq _ _)) by (cbn; lia). rewrite (dll_most _ _ (r_dll _ _ _ Hr) p (map snd E) eq_refl).
  rewrite (check_loop_ok _ _ _ [] k p E 1 Hr) by (cbn; lia). cbn [mbind outcome_bind].
  rewrite (proj2 (Z.eqb_eq _ _)); [done|]. cbn. lia.
Qed.

(** What the links of a cache show. *)
Fixpoint walk (n : nat) (s : addrinfo_cache) (p : Z) : list (gai_args * addrinfo_result) :=
  match gnodes s !! p with
  | None => []
  | Some nd =>
      (g_args nd, g_air nd) ::
      (if p =? least_ru s then [] else match n with O => [] | S n => walk n s (less_ru nd) end)
  end.
Definition in_order (s : addrinfo_cache) : list (gai_args * addrinfo_result) :=
  if Z.of_nat (size (the_map s)) =? 0 then [] else walk (size (the_map s)) s (most_ru s).

Lemma walk_ok n s sp E1 k p E2 l1 kr l2 : repr s sp (E1 ++ (k, p) :: E2) -> lru sp = l1 ++ kr :: l2 ->
  length l1 = length E1 -> (length E2 <= n)%nat -> walk n s p = kr :: l2.
Proof.
  revert n E1 k p l1 kr l2. induction E2 as [|[k' p'] E2 IH]; intros n E1 k p l1 kr l2 Hr Hl Hlen Hn;
    destruct (node_at _ _ _ _ _ _ Hr) as (nd & En & Hk & Hm & Hnext);
    pose proof (r_held _ _ _ Hr) as Hh; rewrite Hl in Hh;
    apply Forall2_app_inv in Hh as [_ Hh]; [|done| |done];
    apply Forall2_cons_1 in Hh as [[Hh _] Hrest]; unfold held in Hh; cbn [snd] in Hh; rewrite En in Hh; injection Hh as Hkr.
  - apply Forall2_nil_inv_l in Hrest as ->. destruct n; cbn [walk]; by rewrite En, Hkr, <- Hnext, Z.eqb_refl.
  - destruct Hnext as (Hne & Hless & _). destruct n as [|n]; [cbn in Hn; lia|]. cbn [walk].
    rewrite En, Hkr, (proj2 (Z.eqb_neq _ _) Hne), Hless. f_equal.
    apply Forall2_cons_inv_l in Hrest as (kr' & l2' & _ & _ & ->).
    apply (IH n (E1 ++ [(k, p)]) k' p' (l1 ++ [kr])); [by rewrite <- app_assoc|by rewrite <- app_assoc| |cbn in Hn; lia].
    by rewrite !length_app, Hlen.
Qed.

Lemma in_order_ok s sp E : repr s sp E -> in_order s = lru sp.
Proof.
  intros Hr. unfold in_order. pose proof (r_size _ _ _ Hr) as Hs. pose proof (r_held _ _ _ Hr) as Hh.
  pose proof (Forall2_length Hh) as Hlen. rewrite Hs, <- Hlen. destruct E as [|[k p] E], (lru sp) as [|kr l] eqn:El; try done.
  rewrite (proj2 (Z.eqb_neq _ _)) by (cbn; lia). rewrite (dll_most _ _ (r_dll _ _ _ Hr) p (map snd E) eq_refl).
  by apply (walk_ok _ _ _ [] k p E [] kr l Hr); [|done|cbn; lia].
Qed.

(** C17.  In any sequence of sections of any threads, with any answers of
    getaddrinfo, the cache is the list of its entries in order of recent use:
    each section answers what it would on the list, the links show the list,
    no dangling iterator is followed, and the invariant checker passes. *)
Theorem addrinfo_cache_refines evs : Forall event_ok evs ->
  let '(answers, sp) := spec_run evs spec_init in
  exists s, run evs addrinfo_cache_init = (Ret answers, s) /\ in_order s = lru sp
    /\ Z.of_nat (size (the_map s)) = zlen (lru sp) /\ check_invariant s = Ret tt.
Proof.
  intros Hok. destruct (run_ok evs _ _ _ init_repr Hok) as (s & E & Es & Hr).
  destruct (spec_run evs spec_init) as [answers sp]. exists s. split_and!; [done| | |].
  - by apply (in_order_ok _ _ E).
  - unfold zlen. f_equal. apply (r_size _ _ _ Hr).
  - by apply (check_invariant_ok _ _ _ Hr).
Qed.

(** ** What a refresh asks for *)

Definition asked (l : list answer) : list gai_args :=
  omap (fun a => match a with A_asked o => o | _ => None end) l.
Definition inserted (evs : list event) : list gai_args :=
  omap (fun ev => match ev with E_insert k _ => Some k | _ => None end) evs.
Definition rounds (evs : list event) : nat :=
  length (List.filter (fun ev => match ev with E_refreshed _ => true | _ => false end) evs).
Definition no_refresh (ev : event) : Prop := match ev with E_refresh _ => False | _ => True end.

Lemma keys_touch k r l x : k ∈ keys l -> x ∈ keys ((k, r) :: forget k l) <-> x ∈ keys l.
Proof.
  intros Hk. cbn. rewrite elem_of_cons, !list_elem_of_In, !in_map_iff. unfold forget. setoid_rewrite filter_In.
  rewrite list_elem_of_In, in_map_iff in Hk. split.
  - intros [-> |(kr & <- & Hin & _)]; eauto.
  - intros (kr & <- & Hin). destruct (decide (kr.1 = k)) as [-> |]; [by left|right]. exists kr.
    by rewrite bool_decide_eq_false_2.
Qed.
Lemma keys_insert k r l x : x ∈ keys ((k, r) :: forget k l) <-> x = k \/ x ∈ keys l.
Proof.
  destruct (decide (k ∈ keys l)) as [Hk|Hk]; [rewrite (keys_touch _ _ _ _ Hk)|rewrite forget_notin by done; cbn; by rewrite elem_of_cons].
  split; [by right|]. by intros [-> |].
Qed.
Lemma entry_keys k l r : entry k l = Some r -> k ∈ keys l.
Proof. destruct (decide (k ∈ keys l)); [done|]. by rewrite entry_notin. Qed.

(** The keys grow by what is inserted while no refresh starts. *)
Lemma spec_step_keys ev sp x : no_refresh ev ->
  (x ∈ keys (lru sp) -> x ∈ keys (lru (spec_step ev sp).2))
  /\ (x ∈ keys (lru (spec_step ev sp).2) -> x ∈ keys (lru sp) \/ x ∈ inserted [ev]).
Proof.
  destruct ev as [k|k r|max|r]; cbn [spec_step no_refresh]; [intros _| intros _|done|intros _].
  - destruct (entry k (lru sp)) as [r|] eqn:Ee; cbn [snd lru]; [|tauto]. apply entry_keys in Ee.
    rewrite (keys_touch k r _ x Ee). tauto.
  - destruct (_ =? _); cbn [snd lru]; [tauto|]. rewrite keys_insert. cbn. rewrite list_elem_of_singleton. tauto.
  - destruct (sp_cursor sp); cbn [snd lru]; [|tauto]. destruct (_ =? _); [tauto|]. rewrite keys_answered. tauto.
Qed.

Lemma spec_step_cursor ev sp : no_refresh ev -> match sp_cursor sp, ev with
  | Some k, E_refreshed _ => (spec_step ev sp).1 = A_asked (Some k)
      /\ sp_cursor (spec_step ev sp).2 = least_above (Some k) (keys (lru sp))
  | _, _ => asked [(spec_step ev sp).1] = [] /\ sp_cursor (spec_step ev sp).2 = sp_cursor sp
  end.
Proof.
  destruct ev as [k|k r|max|r]; cbn [spec_step no_refresh]; [intros _| intros _|done|intros _].
  - destruct (sp_cursor sp) eqn:Ec; destruct (entry k (lru sp)); cbn; by rewrite ?Ec.
  - destruct (sp_cursor sp) eqn:Ec; destruct (_ =? _); cbn; by rewrite ?Ec.
  - by destruct (sp_cursor sp) eqn:Ec; cbn; rewrite ?Ec.
Qed.

(** [k] is not below the bound a refresh has come to. *)
Definition ahead (c : option gai_args) (k : gai_args) : Prop :=
  match c with Some c => gai_args_ltb k c = false | None => False end.

Lemma asked_cons a l : asked (a :: l) = asked [a] ++ asked l.
Proof. unfold asked. cbn. by destruct a as [| |[|]]. Qed.
Lemma inserted_cons ev evs : inserted (ev :: evs) = inserted [ev] ++ inserted evs.
Proof. unfold inserted. cbn. by destruct ev. Qed.

(** While no refresh starts: those asked for are in order, from the cursor
    on, and every key that was ahead is asked for or is still ahead. *)
Record visited (sp : spec) (evs : list event) (l : list answer) (sp' : spec) : Prop := {
  v_sorted : StronglySorted (fun x y => gai_args_ltb x y = true) (asked l);
  v_ahead x : x ∈ asked l -> ahead (sp_cursor sp) x;
  v_behind x k : x ∈ asked l -> sp_cursor sp' = Some k -> gai_args_ltb x k = true;
  v_known x : x ∈ asked l \/ sp_cursor sp' = Some x -> x ∈ keys (lru sp) \/ x ∈ inserted evs;
  v_all x : x ∈ keys (lru sp) -> ahead (sp_cursor sp) x -> x ∈ asked l \/ ahead (sp_cursor sp') x;
  v_mono k : sp_cursor sp' = Some k -> ahead (sp_cursor sp) k;
  v_done : sp_cursor sp = None -> asked l = [] /\ sp_cursor sp' = None;
  v_rounds : is_Some (sp_cursor sp') -> length (asked l) = rounds evs
}.

Lemma lt_ahead k m x : gai_args_ltb k m = true -> ahead (Some m) x -> gai_args_ltb k x = true.
Proof.
  cbn. intros Hkm Hx. destruct (gai_args_ltb m x) eqn:Em; [by eapply lt_trans|]. by rewrite <- (lt_tricho _ _ Em Hx).
Qed.
Lemma lt_asym k x : gai_args_ltb k x = true -> gai_args_ltb x k = false.
Proof. intros H. destruct (gai_args_ltb x k) eqn:E; [|done]. by rewrite <- (lt_irrefl k), (lt_trans _ _ _ H E). Qed.

(** A section that is not a round of the refresh. *)
Lemma visited_other ev sp evs l sp' : no_refresh ev -> asked [(spec_step ev sp).1] = [] ->
  sp_cursor (spec_step ev sp).2 = sp_cursor sp -> (is_Some (sp_cursor sp) -> match ev with E_refreshed _ => False | _ => True end) ->
  visited (spec_step ev sp).2 evs l sp' -> visited sp (ev :: evs) ((spec_step ev sp).1 :: l) sp'.
Proof.
  intros Hev Ha Hc Hr Hv. assert (asked ((spec_step ev sp).1 :: l) = asked l) as El by by rewrite asked_cons, Ha.
  split; rewrite ?El.
  - apply Hv.
  - intros x. rewrite <- Hc. apply Hv.
  - intros x k. apply Hv.
  - intros x Hx. rewrite inserted_cons, elem_of_app. destruct (v_known _ _ _ _ Hv x Hx) as [Hk|]; [|tauto].
    apply (spec_step_keys ev sp x Hev) in Hk. tauto.
  - intros x Hx Hah. rewrite <- Hc in Hah. apply (v_all _ _ _ _ Hv); [|done]. by apply (spec_step_keys ev sp x Hev).
  - intros k. rewrite <- Hc. apply Hv.
  - rewrite <- Hc. apply Hv.
  - intros Hs. rewrite (v_rounds _ _ _ _ Hv Hs). destruct ev; try done. exfalso. apply Hr.
    rewrite <- Hc. destruct (sp_cursor (spec_step (E_refreshed r) sp).2) eqn:E; [done|].
    destruct (v_done _ _ _ _ Hv E) as [_ E']. rewrite E' in Hs. by destruct Hs.
Qed.

(** A round. *)
Lemma visited_round r k sp evs l sp' : sp_cursor sp = Some k -> k ∈ keys (lru sp) ->
  (spec_step (E_refreshed r) sp).1 = A_asked (Some k) ->
  sp_cursor (spec_step (E_refreshed r) sp).2 = least_above (Some k) (keys (lru sp)) ->
  visited (spec_step (E_refreshed r) sp).2 evs l sp' ->
  visited sp (E_refreshed r :: evs) ((spec_step (E_refreshed r) sp).1 :: l) sp'.
Proof.
  intros Hk Hin Ha Hc Hv. rewrite Ha. pose proof (least_above_spec (Some k) (keys (lru sp))) as Hnext. rewrite <- Hc in Hnext.
  set (sp1 := (spec_step (E_refreshed r) sp).2) in *.
  assert (forall x, ahead (sp_cursor sp1) x -> gai_args_ltb k x = true) as Hlt.
  { intros x Hx. destruct (sp_cursor sp1) as [m|]; [|done]. destruct Hnext as (_ & Hkm & _). by eapply lt_ahead. }
  assert (asked (A_asked (Some k) :: l) = k :: asked l) as El by done.
  split; rewrite ?El, ?Hk.
  - constructor; [apply Hv|]. apply List.Forall_forall. intros x Hx%list_elem_of_In. apply Hlt, (v_ahead _ _ _ _ Hv _ Hx).
  - intros x [-> |Hx]%elem_of_cons; [apply lt_irrefl|]. apply lt_asym, Hlt, (v_ahead _ _ _ _ Hv _ Hx).
  - intros x k' [-> |Hx]%elem_of_cons Hk'; [apply Hlt, (v_mono _ _ _ _ Hv _ Hk')|by eapply (v_behind _ _ _ _ Hv)].
  - intros x Hx. rewrite inserted_cons, elem_of_app, elem_of_cons in *. destruct Hx as [[-> |Hx]|Hx]; [by left| |];
      (destruct (v_known _ _ _ _ Hv x) as [H|]; [tauto|apply (spec_step_keys (E_refreshed r) sp x I) in H|]; tauto).
  - intros x Hx Hah. rewrite elem_of_cons. destruct (gai_args_ltb k x) eqn:Ekx; [|left; left; by apply lt_tricho].
    destruct (sp_cursor sp1) as [m|] eqn:Em; [|pose proof (Hnext _ Hx) as Hf; cbn [above] in Hf; congruence].
    destruct Hnext as (_ & _ & Hmin). destruct (v_all _ _ _ _ Hv x) as [|]; [|rewrite Em|tauto..].
    + by apply (spec_step_keys (E_refreshed r) sp x I).
    + by apply Hmin.
  - intros k' Hk'. apply lt_asym, Hlt, (v_mono _ _ _ _ Hv _ Hk').
  - done.
  - intros Hs. cbn. f_equal. by apply (v_rounds _ _ _ _ Hv).
Qed.

Lemma spec_visited evs sp : Forall no_refresh evs -> (forall k, sp_cursor sp = Some k -> k ∈ keys (lru sp)) ->
  visited sp evs (spec_run evs sp).1 (spec_run evs sp).2.
Proof.
  revert sp. induction evs as [|ev evs IH]; intros sp Hok Hin; [|rewrite spec_run_cons; cbn [fst snd]].
  { split; cbn; try done.
    - constructor.
    - by intros x ?%elem_of_nil.
    - by intros x k ?%elem_of_nil.
    - intros x [?%elem_of_nil|Hx]; [done|]. left. by apply Hin.
    - by right.
    - intros k ->. apply lt_irrefl. }
  apply Forall_cons_1 in Hok as [Hev Hok]. pose proof (spec_step_cursor ev sp Hev) as Hc.
  assert (visited (spec_step ev sp).2 evs (spec_run evs (spec_step ev sp).2).1 (spec_run evs (spec_step ev sp).2).2) as Hv.
  { apply IH; [done|]. intros k Hk. apply (spec_step_keys ev sp k Hev).
    destruct (sp_cursor sp) as [c|] eqn:Ec; [|destruct Hc as [_ Hc]; rewrite Hc in Hk; discriminate].
    destruct ev; try (destruct Hc as [_ Hc]; rewrite Hc in Hk; by apply Hin).
    destruct Hc as [_ Hc]. rewrite Hc in Hk. pose proof (least_above_spec (Some c) (keys (lru sp))) as Hl.
    rewrite Hk in Hl. by destruct Hl. }
  destruct (sp_cursor sp) as [k|] eqn:Ec.
  - destruct ev as [k'|k' r|max|r]; [| |done|].
    1,2: destruct Hc as [Hc1 Hc2]; by apply visited_other; rewrite ?Ec.
    destruct Hc as [Hc1 Hc2]. apply (visited_round r k); auto.
  - assert (asked [(spec_step ev sp).1] = [] /\ sp_cursor (spec_step ev sp).2 = None) as [Hc1 Hc2] by (by destruct ev).
    apply visited_other; rewrite ?Ec; [done..|by intros []|done].
Qed.

Lemma sorted_nodup (l : list gai_args) : StronglySorted (fun x y => gai_args_ltb x y = true) l -> NoDup l.
Proof.
  induction 1 as [|x l _ IH Hx]; [constructor|]. constructor; [|done]. intros Hin%list_elem_of_In.
  rewrite List.Forall_forall in Hx. pose proof (lt_irrefl x). specialize (Hx x Hin). congruence.
Qed.

(** A refresh with a limit, and whatever other threads look up while it
    waits for getaddrinfo: it asks for keys in increasing order, so for none
    twice, and only for those it kept, the most recently used up to the limit,
    and those inserted since; when it is done it has asked for all it kept;
    and it is done after as many rounds as it kept and as were inserted. *)
Theorem refresh_asks_once before max_size evs s0 s1 l0 l :
  Forall event_ok before -> 0 <= max_size -> Forall no_refresh evs ->
  run before addrinfo_cache_init = (Ret l0, s0) -> cursor s0 = None ->
  run (E_refresh max_size :: evs) s0 = (Ret l, s1) ->
  let kept := keys (ztake max_size (in_order s0)) in
  StronglySorted (fun x y => gai_args_ltb x y = true) (asked l)
  /\ (forall k, k ∈ asked l -> k ∈ kept \/ k ∈ inserted evs)
  /\ (cursor s1 = None -> forall k, k ∈ kept -> k ∈ asked l)
  /\ ((length kept + length (inserted evs) <= rounds evs)%nat -> cursor s1 = None).
Proof.
  intros Hb Hmax Hevs Hrun Hc Hrun' kept.
  destruct (run_ok before _ _ _ init_repr Hb) as (s & E & Es & Hr). rewrite Hrun in Es. injection Es as _ <-.
  set (sp := (spec_run before spec_init).2) in *. pose proof (r_cursor _ _ _ Hr) as Hcur. rewrite Hc in Hcur.
  destruct (sp_cursor sp) eqn:Ec; [done|]. unfold kept. rewrite (in_order_ok _ _ _ Hr). clear kept.
  destruct (run_ok (E_refresh max_size :: evs) _ _ _ Hr) as (s & E' & Es & Hr').
  { constructor; [done|]. eapply List.Forall_impl; [|exact Hevs]. by intros []. }
  rewrite Hrun', spec_run_cons in Es. rewrite spec_run_cons in Hr'. cbn [spec_step fst snd] in Es, Hr'.
  rewrite Ec in Es, Hr'. cbn [fst snd] in Es, Hr'. injection Es as El <-. clear Hrun Hrun'.
  set (kl := ztake max_size (lru sp)) in *. set (sp1 := Spec kl (least_above None (keys kl))) in *.
  pose proof (least_above_spec None (keys kl)) as Hl.
  destruct (spec_visited evs sp1) as [Hsort _ Hbehind Hknown Hall _ _ Hrounds]; [done|cbn; intros k Hk; rewrite Hk in Hl; by destruct Hl|].
  assert (asked l = asked (spec_run evs sp1).1) as -> by by rewrite El. pose proof (r_cursor _ _ _ Hr') as Hcur'.
  split_and!; [done|by intros k Hk; apply Hknown; left| |].
  - intros Hdone k Hk. rewrite Hdone in Hcur'. destruct (Hall k Hk) as [|Ha]; [|done|].
    + cbn. destruct (least_above None (keys kl)) as [m|]; [apply Hl; [exact Hk|done]|]. by specialize (Hl k Hk).
    + by destruct (sp_cursor (spec_run evs sp1).2).
  - intros Hn. destruct (cursor s1) as [p|]; [exfalso|done]. destruct (sp_cursor (spec_run evs sp1).2) as [k|]; [|done].
    specialize (Hrounds ltac:(eauto)). rewrite <- Hrounds, <- length_app in Hn.
    assert (NoDup (k :: asked (spec_run evs sp1).1)) as Hnd.
    { constructor; [intros Hk; pose proof (lt_irrefl k); specialize (Hbehind k k Hk eq_refl); congruence|by apply sorted_nodup]. }
    apply NoDup_ListNoDup, NoDup_incl_length with (l' := keys kl ++ inserted evs) in Hnd; [cbn in Hnd; lia|].
    intros x Hx. apply list_elem_of_In, elem_of_app, Hknown. apply list_elem_of_In, elem_of_cons in Hx as [-> |Hx]; [by right|by left].
Qed.

(** ** Concrete lookups *)

Definition ax_host (n : string) : gai_args := gai_args_ctor (lit n) (lit "80") None.
Definition ax_ok (addr : Z) : addrinfo_result := addrinfo_result_ctor 0 addr 0.
Definition ax_again : addrinfo_result := addrinfo_result_ctor EAI_AGAIN 0 0.

(** Three lookups that miss, one that is not recorded, one that hits. *)
Definition ax_before : list event :=
  [E_find (ax_host "a"); E_insert (ax_host "a") (ax_ok 1); E_insert (ax_host "b") (ax_ok 2);
   E_insert (ax_host "z") ax_again; E_insert (ax_host "c") (ax_ok 3); E_find (ax_host "a")].
(** A refresh keeps the last two; b comes back meanwhile, and a is not answered. *)
Definition ax_meanwhile : list event :=
  [E_refreshed ax_again; E_insert (ax_host "b") (ax_ok 4); E_refresh 0; E_refreshed (ax_ok 5); E_refreshed (ax_ok 6)].

Example ax_seen : match run (ax_before ++ E_refresh 2 :: ax_meanwhile) addrinfo_cache_init with
  | (Ret l, s) => (asked l, in_order s, cursor s, (hit_count s, miss_count s, refresh_count s, erase_count s, eai_again_count s))
  | _ => ([], [], None, (0, 0, 0, 0, 0))
  end = ([ax_host "a"; ax_host "c"], [(ax_host "b", ax_ok 4); (ax_host "a", ax_ok 1); (ax_host "c", ax_ok 5)],
         None, (1, 5, 2, 1, 2)).
Proof. vm_compute. reflexivity. Qed.

Example ax_lookup : (l ← lookup_alone (fun _ => ax_ok 9) (ax_host "a"); r ← lookup_alone (fun _ => ax_again) (ax_host "a");
                     mret (l, r)) addrinfo_cache_init
  = (Ret (ax_ok 9, ax_ok 9), (run [E_insert (ax_host "a") (ax_ok 9); E_find (ax_host "a")] addrinfo_cache_init).2).
Proof. vm_compute. reflexivity. Qed.

Lemma addrinfo_cache_refines_witness :
  Forall event_ok (ax_before ++ [E_refresh 2; E_refreshed (ax_ok 7)])
  /\ let '(answers, sp) := spec_run (ax_before ++ [E_refresh 2; E_refreshed (ax_ok 7)]) spec_init in
     exists s, run (ax_before ++ [E_refresh 2; E_refreshed (ax_ok 7)]) addrinfo_cache_init = (Ret answers, s)
       /\ in_order s = lru sp /\ Z.of_nat (size (the_map s)) = zlen (lru sp) /\ check_invariant s = Ret tt.
Proof.
  assert (Forall event_ok (ax_before ++ [E_refresh 2; E_refreshed (ax_ok 7)])) as H by (repeat constructor; discriminate).
  split; [exact H|]. exact (addrinfo_cache_refines _ H).
Defined.

Lemma refresh_asks_once_witness :
  cursor (run (E_refresh 2 :: [E_refreshed ax_again; E_insert (ax_host "b") (ax_ok 4); E_refreshed (ax_ok 5); E_refreshed (ax_ok 6)])
            (run ax_before addrinfo_cache_init).2).2 = None.
Proof.
  set (evs := [E_refreshed ax_again; E_insert (ax_host "b") (ax_ok 4); E_refreshed (ax_ok 5); E_refreshed (ax_ok 6)]).
  assert (exists l0, run ax_before addrinfo_cache_init = (Ret l0, (run ax_before addrinfo_cache_init).2)) as [l0 H0]
    by (eexists; vm_compute; reflexivity).
  assert (exists l, run (E_refresh 2 :: evs) (run ax_before addrinfo_cache_init).2
    = (Ret l, (run (E_refresh 2 :: evs) (run ax_before addrinfo_cache_init).2).2)) as [l H] by (eexists; vm_compute; reflexivity).
  apply (refresh_asks_once ax_before 2 evs (run ax_before addrinfo_cache_init).2
           (run (E_refresh 2 :: evs) (run ax_before addrinfo_cache_init).2).2 l0 l); [repeat constructor|discriminate|repeat constructor|exact H0
    |vm_compute; reflexivity|exact H|vm_compute; repeat constructor].
Defined.
