(* ===== verification/WorkQueue.v ===== *)
(** * Queues of work and a pool of threads (core123/producerconsumerqueue.hpp, threadpool.hpp)

    A bounded queue with a mutex and two condition variables, and the pool of
    a fixed number of threads that run what is put on it, which the disk cache
    and the FUSE session use.  What a thread does with the mutex held, from locking it or being
    woken to waiting or unlocking it, is a section; a state holds where every
    thread is, and a run is any interleaving of sections, with any choice of
    the thread a notification wakes and with spurious wake-ups.  Tasks are
    numbers, and three histories record those accepted, taken and run.

    Theorems: tasks are run once each in the order they were accepted; no
    wake-up is lost, so that while there is work or room some thread can go
    on; and a shutdown ends, with every accepted task run. *)

From Stdlib Require Import ZArith Lia.
From stdpp Require Import base list numbers.
From S2P Require Import Prelude.

#[local] Open Scope Z_scope.

(** ** Sums over threads *)

Fixpoint wsum {A} (f : A -> Z) (l : list A) : Z :=
  match l with [] => 0 | x :: l => f x + wsum f l end.
Definition occurs (t : Z) (l : list Z) : Z := wsum (fun x => Z.b2z (x =? t)) l.

(** ** The queue *)

Record queue := Queue { q_items : list Z; is_closed : bool; capacity : Z }.
Definition queue_ctor (cap : Z) : queue := Queue [] false cap.

(** [enqueue]: [None] is to wait. *)
Definition enqueue (t : Z) (q : queue) : option (bool * queue) :=
  if (capacity q <=? zlen (q_items q)) && negb (is_closed q) then None else
  if is_closed q then Some (false, q)
  else Some (true, Queue (q_items q ++ [t]) (is_closed q) (capacity q)).
(** [dequeue] *)
Definition dequeue (q : queue) : option (option Z * queue) :=
  match q_items q with
  | [] => if negb (is_closed q) then None else Some (None, q)
  | t :: l => Some (Some t, Queue l (is_closed q) (capacity q))
  end.
Definition close (q : queue) : queue := Queue (q_items q) true (capacity q).

(** [notify_one]: if a thread waits, a chosen one is woken. *)
Definition notify_one {A} (waits : A -> bool) (wake : A -> A) (choice : nat) (l : list A) : option (list A) :=
  if existsb waits l then
    match l !! choice with
    | Some x => if waits x then Some (<[choice := wake x]> l) else None
    | None => None
    end
  else Some l.
Definition notify_all {A} (wake : A -> A) (l : list A) : list A := map wake l.

(** ** The pool *)

(** A worker is in [dequeue], waiting or about to lock the mutex, runs a task,
    or has ended. *)
Inductive worker := W_dequeue (waiting : bool) | W_running (t : Z) | W_ended.
(** A caller of [submit] is in [enqueue] or has returned or thrown. *)
Inductive submitter := S_enqueue (t : Z) (waiting : bool) | S_returned (ok : bool).

Definition w_waits (w : worker) : bool := match w with W_dequeue b => b | _ => false end.
Definition w_wake (w : worker) : worker := match w with W_dequeue _ => W_dequeue false | w => w end.
Definition s_waits (s : submitter) : bool := match s with S_enqueue _ b => b | _ => false end.
Definition s_wake (s : submitter) : submitter := match s with S_enqueue t _ => S_enqueue t false | s => s end.

Record threadpool := Threadpool {
  tq : queue;
  workers : list worker;
  submitters : list submitter;
  accepted : list Z;
  taken : list Z;
  ran : list Z
}.
Definition threadpool_ctor (N : nat) (backlog : Z) : threadpool :=
  Threadpool (queue_ctor backlog) (replicate N (W_dequeue false)) [] [] [] [].

Inductive label :=
| L_submit (t : Z)                         (* a call of submit *)
| L_enqueue (i : nat) (choice : nat)       (* a section of submitter i *)
| L_dequeue (j : nat) (choice : nat)       (* a section of worker j *)
| L_finish (j : nat)                       (* its task returns or throws *)
| L_close                                  (* shutdown *)
| L_wake_worker (j : nat)                  (* spuriously *)
| L_wake_submitter (i : nat).

(** [None] when the thread is not there. *)
Definition step (l : label) (p : threadpool) : option threadpool :=
  match l with
  | L_submit t =>
      Some (Threadpool (tq p) (workers p) (submitters p ++ [S_enqueue t false]) (accepted p) (taken p) (ran p))
  | L_enqueue i choice =>
      match submitters p !! i with
      | Some (S_enqueue t false) =>
          match enqueue t (tq p) with
          | None =>
              Some (Threadpool (tq p) (workers p) (<[i := S_enqueue t true]> (submitters p)) (accepted p) (taken p) (ran p))
          | Some (false, q) =>
              Some (Threadpool q (workers p) (<[i := S_returned false]> (submitters p)) (accepted p) (taken p) (ran p))
          | Some (true, q) =>
              ws ← notify_one w_waits w_wake choice (workers p);
              Some (Threadpool q ws (<[i := S_returned true]> (submitters p)) (accepted p ++ [t]) (taken p) (ran p))
          end
      | _ => None
      end
  | L_dequeue j choice =>
      match workers p !! j with
      | Some (W_dequeue false) =>
          match dequeue (tq p) with
          | None =>
              Some (Threadpool (tq p) (<[j := W_dequeue true]> (workers p)) (submitters p) (accepted p) (taken p) (ran p))
          | Some (None, q) =>
              Some (Threadpool q (<[j := W_ended]> (workers p)) (submitters p) (accepted p) (taken p) (ran p))
          | Some (Some t, q) =>
              ss ← notify_one s_waits s_wake choice (submitters p);
              Some (Threadpool q (<[j := W_running t]> (workers p)) ss (accepted p) (taken p ++ [t]) (ran p))
          end
      | _ => None
      end
  | L_finish j =>
      match workers p !! j with
      | Some (W_running t) =>
          Some (Threadpool (tq p) (<[j := W_dequeue false]> (workers p)) (submitters p) (accepted p) (taken p) (ran p ++ [t]))
      | _ => None
      end
  | L_close =>
      Some (Threadpool (close (tq p)) (notify_all w_wake (workers p)) (notify_all s_wake (submitters p))
              (accepted p) (taken p) (ran p))
  | L_wake_worker j =>
      match workers p !! j with
      | Some w => Some (Threadpool (tq p) (<[j := w_wake w]> (workers p)) (submitters p) (accepted p) (taken p) (ran p))
      | None => None
      end
  | L_wake_submitter i =>
      match submitters p !! i with
      | Some s => Some (Threadpool (tq p) (workers p) (<[i := s_wake s]> (submitters p)) (accepted p) (taken p) (ran p))
      | None => None
      end
  end.
Fixpoint run (ls : list label) (p : threadpool) : option threadpool :=
  match ls with [] => Some p | l :: ls => p ← step l p; run ls p end.

(** What threads that were not woken for nothing do by themselves. *)
Definition thread_step (l : label) : bool :=
  match l with L_enqueue _ _ | L_dequeue _ _ | L_finish _ => true | _ => false end.

#[global] Arguments occurs : simpl never.

(** ** Lemmas on sums *)

Lemma wsum_app {A} (f : A -> Z) l l' : wsum f (l ++ l') = wsum f l + wsum f l'.
Proof. induction l; cbn; lia. Qed.
Lemma wsum_insert {A} (f : A -> Z) l i x y : l !! i = Some x -> wsum f (<[i := y]> l) = wsum f l - f x + f y.
Proof. revert i. induction l as [|z l IH]; intros [|i]; cbn; try done; [intros [= ->]; lia|]. intros H.
  change (f z + wsum f (<[i := y]> l) = f z + wsum f l - f x + f y). rewrite (IH _ H). lia.
Qed.
Lemma wsum_nonneg {A} (f : A -> Z) l : (forall x, 0 <= f x) -> 0 <= wsum f l.
Proof. intros Hf. induction l as [|x l IH]; cbn; [lia|]. specialize (Hf x). lia. Qed.
Lemma wsum_lookup {A} (f : A -> Z) l i x : (forall x, 0 <= f x) -> l !! i = Some x -> f x <= wsum f l.
Proof.
  intros Hf. revert i. induction l as [|z l IH]; intros [|i]; cbn; try done.
  - intros [= ->]. pose proof (wsum_nonneg f l Hf). lia.
  - intros H. specialize (IH _ H). specialize (Hf z). lia.
Qed.
Lemma wsum_pos {A} (f : A -> Z) l : (forall x, 0 <= f x) -> 0 < wsum f l -> exists i x, l !! i = Some x /\ 0 < f x.
Proof.
  intros Hf. induction l as [|x l IH]; cbn; [lia|]. intros H. destruct (Z.lt_ge_cases 0 (f x)); [by exists 0%nat, x|].
  destruct IH as (i & y & Hi & Hy); [specialize (Hf x); lia|]. by exists (S i), y.
Qed.
Lemma wsum_map {A B} (f : B -> Z) (g : A -> B) l : wsum f (map g l) = wsum (fun x => f (g x)) l.
Proof. induction l; cbn; lia. Qed.
Lemma wsum_ext {A} (f g : A -> Z) l : (forall x, f x = g x) -> wsum f l = wsum g l.
Proof. intros H. induction l as [|x l IH]; cbn; [done|]. by rewrite H, IH. Qed.
Lemma wsum_zero {A} (f : A -> Z) l : (forall x, f x = 0) -> wsum f l = 0.
Proof. intros H. induction l as [|x l IH]; cbn; [done|]. rewrite H. lia. Qed.
Lemma wsum_replicate {A} (f : A -> Z) n x : wsum f (replicate n x) = Z.of_nat n * f x.
Proof. induction n as [|n IH]; cbn [replicate wsum]; lia. Qed.

Lemma b2z_nonneg b : 0 <= Z.b2z b.
Proof. by destruct b. Qed.

Lemma occurs_perm l l' : (forall t, occurs t l = occurs t l') -> l ≡ₚ l'.
Proof.
  unfold occurs. revert l'. induction l as [|x l IH]; intros l' H.
  - destruct l' as [|y l']; [done|]. specialize (H y). cbn in H. rewrite Z.eqb_refl in H. cbn in H.
    pose proof (wsum_nonneg (fun x => Z.b2z (x =? y)) l' ltac:(intros; apply b2z_nonneg)). lia.
  - assert (0 < wsum (fun y => Z.b2z (y =? x)) l') as Hx.
    { rewrite <- H. cbn. rewrite Z.eqb_refl. cbn.
      pose proof (wsum_nonneg (fun y => Z.b2z (y =? x)) l ltac:(intros; apply b2z_nonneg)). lia. }
    apply wsum_pos in Hx as (i & y & Hi & Hy); [|intros; apply b2z_nonneg].
    destruct (Z.eqb_spec y x) as [-> |]; [|cbn in Hy; lia].
    apply list_elem_of_lookup_2, list_elem_of_split in Hi as (l1 & l2 & ->).
    rewrite <- Permutation_middle. constructor. apply IH. intros t. specialize (H t). cbn in H.
    rewrite wsum_app in H |- *. cbn in H. lia.
Qed.

(** A notification wakes one of those that wait, if any. *)
Lemma notify_one_sum {A} (waits : A -> bool) wake choice l l' (f : A -> Z) d :
  notify_one waits wake choice l = Some l' -> (forall x, waits x = true -> f (wake x) = f x + d) ->
  wsum f l' = wsum f l + (if existsb waits l then d else 0).
Proof.
  unfold notify_one. intros H Hf. destruct (existsb waits l); [|injection H as <-; lia].
  destruct (l !! choice) as [x|] eqn:E; [|done]. destruct (waits x) eqn:Ew; [|done]. injection H as <-.
  rewrite (wsum_insert _ _ _ _ _ E), Hf by done. lia.
Qed.
Lemma existsb_wsum {A} (p : A -> bool) l : existsb p l = (0 <? wsum (fun x => Z.b2z (p x)) l).
Proof.
  assert (forall x : A, 0 <= Z.b2z (p x)) as Hf by (intros x; destruct (p x); cbn; lia).
  induction l as [|x l IH]; cbn; [done|]. rewrite IH. pose proof (wsum_nonneg _ l Hf). destruct (p x); cbn; [|done].
  symmetry. apply Z.ltb_lt. lia.
Qed.
Lemma notify_one_enabled {A} (waits : A -> bool) wake l : exists choice l', notify_one waits wake choice l = Some l'.
Proof.
  unfold notify_one. destruct (existsb waits l) eqn:E; [|by exists 0%nat, l].
  apply existsb_exists in E as (x & Hx & Hw). apply list_elem_of_In, list_elem_of_lookup_1 in Hx as [i Hi].
  exists i. rewrite Hi, Hw. eauto.
Qed.

(** In sums: what a notification does to those that wait and are ready. *)
Definition woken {A} (waiting ready : A -> Z) (l l' : list A) : Prop :=
  exists d, (d = 0 \/ d = 1) /\ (d = 0 -> wsum waiting l = 0)
    /\ wsum waiting l' = wsum waiting l - d /\ wsum ready l' = wsum ready l + d.
Lemma notify_one_woken {A} (waits : A -> bool) wake choice l l' (ready : A -> Z) :
  notify_one waits wake choice l = Some l' ->
  (forall x, waits x = true -> waits (wake x) = false /\ ready (wake x) = ready x + 1) ->
  woken (fun x => Z.b2z (waits x)) ready l l'.
Proof.
  intros H Hw. exists (if existsb waits l then 1 else 0).
  rewrite (notify_one_sum _ _ _ _ _ (fun x => Z.b2z (waits x)) (-1) H)
    by (intros x Hx; destruct (Hw x Hx) as [-> _]; by rewrite Hx).
  rewrite (notify_one_sum _ _ _ _ _ ready 1 H) by (intros x Hx; apply (Hw x Hx)).
  rewrite existsb_wsum. pose proof (wsum_nonneg (fun x => Z.b2z (waits x)) l ltac:(intros; apply b2z_nonneg)).
  destruct (Z.ltb_spec 0 (wsum (fun x => Z.b2z (waits x)) l)); lia.
Qed.
Lemma notify_one_same {A} (waits : A -> bool) wake choice l l' (f : A -> Z) :
  notify_one waits wake choice l = Some l' -> (forall x, waits x = true -> f (wake x) = f x) -> wsum f l' = wsum f l.
Proof.
  intros H Hf. rewrite (notify_one_sum _ _ _ _ _ f 0 H); [case_match; lia|]. intros x Hx. rewrite (Hf x Hx). lia.
Qed.

(** ** The invariant *)

Definition hand (t : Z) (w : worker) : Z := match w with W_running t' => Z.b2z (t' =? t) | _ => 0 end.
Definition w_waiting (w : worker) : Z := Z.b2z (w_waits w).
Definition w_ready (w : worker) : Z := match w with W_dequeue false => 1 | _ => 0 end.
Definition w_ended (w : worker) : Z := match w with W_ended => 1 | _ => 0 end.
Definition s_waiting (s : submitter) : Z := Z.b2z (s_waits s).
Definition s_ready (s : submitter) : Z := match s with S_enqueue _ false => 1 | _ => 0 end.
Definition s_refused (s : submitter) : Z := match s with S_returned false => 1 | _ => 0 end.

Record inv (p : threadpool) : Prop := {
  i_fifo : accepted p = taken p ++ q_items (tq p);
  i_tasks t : occurs t (taken p) = occurs t (ran p) + wsum (hand t) (workers p);
  i_room : zlen (q_items (tq p)) <= capacity (tq p);
  i_wake : wsum w_waiting (workers p) = 0
    \/ (is_closed (tq p) = false /\ zlen (q_items (tq p)) <= wsum w_ready (workers p));
  i_wake_s : wsum s_waiting (submitters p) = 0
    \/ (is_closed (tq p) = false /\ capacity (tq p) - zlen (q_items (tq p)) <= wsum s_ready (submitters p));
  i_ended : wsum w_ended (workers p) = 0 \/ (is_closed (tq p) = true /\ q_items (tq p) = []);
  i_refused : wsum s_refused (submitters p) = 0 \/ is_closed (tq p) = true
}.

Lemma w_waiting_nonneg w : 0 <= w_waiting w. Proof. by destruct w as [[]| |]. Qed.
Lemma w_ready_nonneg w : 0 <= w_ready w. Proof. by destruct w as [[]| |]. Qed.
Lemma w_ended_nonneg w : 0 <= w_ended w. Proof. by destruct w as [[]| |]. Qed.
Lemma s_waiting_nonneg s : 0 <= s_waiting s. Proof. by destruct s as [? []|[]]. Qed.
Lemma s_ready_nonneg s : 0 <= s_ready s. Proof. by destruct s as [? []|[]]. Qed.
Lemma s_refused_nonneg s : 0 <= s_refused s. Proof. by destruct s as [? []|[]]. Qed.
Lemma hand_nonneg t w : 0 <= hand t w.
Proof. destruct w; cbn; try lia. by destruct (_ =? _). Qed.
#[local] Hint Resolve w_waiting_nonneg w_ready_nonneg w_ended_nonneg s_waiting_nonneg s_ready_nonneg s_refused_nonneg
  hand_nonneg : core.

Lemma inv_ctor N backlog : 0 <= backlog -> inv (threadpool_ctor N backlog).
Proof.
  intros Hb. split; cbn; try done.
  - intros t. rewrite wsum_replicate. cbn. lia.
  - left. rewrite wsum_replicate. cbn. lia.
  - by left.
  - left. rewrite wsum_replicate. cbn. lia.
  - by left.
Qed.

(** Waking a worker or a submitter, in sums. *)
Lemma wake_workers choice ws ws' : notify_one w_waits w_wake choice ws = Some ws' ->
  (forall t, wsum (hand t) ws' = wsum (hand t) ws) /\ wsum w_ended ws' = wsum w_ended ws
  /\ woken w_waiting w_ready ws ws'.
Proof.
  intros H. split_and!.
  - intros t. eapply notify_one_same; [exact H|]. by intros [].
  - eapply notify_one_same; [exact H|]. by intros [].
  - eapply notify_one_woken; [exact H|]. by intros [[]| |].
Qed.
Lemma wake_submitters choice ss ss' : notify_one s_waits s_wake choice ss = Some ss' ->
  wsum s_refused ss' = wsum s_refused ss /\ woken s_waiting s_ready ss ss'.
Proof.
  intros H. split.
  - eapply notify_one_same; [exact H|]. by intros [].
  - eapply notify_one_woken; [exact H|]. by intros [? []|].
Qed.

Lemma occurs_snoc t x l : occurs t (l ++ [x]) = occurs t l + Z.b2z (x =? t).
Proof. unfold occurs. rewrite wsum_app. cbn. lia. Qed.

Lemma zlen_snoc {A} (l : list A) x : zlen (l ++ [x]) = zlen l + 1.
Proof. by rewrite zlen_app, zlen_cons, zlen_nil. Qed.

(** The section of a submitter. *)
Lemma inv_enqueue i choice p p' : inv p -> step (L_enqueue i choice) p = Some p' -> inv p'.
Proof.
  intros [Hf Ht Hr Hw Hs He Hre] H. cbn [step] in H. destruct (submitters p !! i) as [[t []|]|] eqn:Ei; try done.
  pose proof (wsum_lookup s_ready _ _ _ s_ready_nonneg Ei) as Hi. cbn in Hi.
  unfold enqueue in H. destruct (Z.leb_spec (capacity (tq p)) (zlen (q_items (tq p)))), (is_closed (tq p)) eqn:Ec; cbn [andb negb] in H;
    try (injection H as <-; split; cbn; rewrite ?(wsum_insert _ _ _ _ _ Ei); cbn; rewrite ?Ec; intuition lia).
  destruct (notify_one w_waits w_wake choice (workers p)) as [ws|] eqn:En; [|done]. injection H as <-.
  apply wake_workers in En as (Hh & Hen & d & Hd & Hd0 & Hwa & Hre').
  split; cbn; rewrite ?(wsum_insert _ _ _ _ _ Ei), ?zlen_snoc, ?Hen; cbn [s_waiting s_ready s_refused s_waits Z.b2z]; try done.
  - by rewrite Hf, app_assoc.
  - intros t'. rewrite Hh. apply Ht.
  - lia.
  - pose proof (wsum_nonneg w_waiting ws w_waiting_nonneg).
    destruct (Z.eq_dec d 0), Hw as [Hw|[_ Hw]]; [left; lia|left; lia|left; lia|right; split; [done|lia]].
  - destruct Hs as [Hs|[_ Hs]]; [left; lia|right; split; [done|lia]].
  - destruct He as [He|[]]; [by left|done].
  - destruct Hre; [left; lia|done].
Qed.

(** The section of a worker. *)
Lemma inv_dequeue j choice p p' : inv p -> step (L_dequeue j choice) p = Some p' -> inv p'.
Proof.
  intros [Hf Ht Hr Hw Hs He Hre] H. cbn [step] in H. destruct (workers p !! j) as [[[]| |]|] eqn:Ej; try done.
  pose proof (wsum_lookup w_ready _ _ _ w_ready_nonneg Ej) as Hj. cbn in Hj. unfold dequeue in H.
  destruct (q_items (tq p)) as [|t l] eqn:Eq.
  { change (zlen (@nil Z)) with 0 in *. destruct (is_closed (tq p)) eqn:Ec; cbn [negb] in H; injection H as <-; split; cbn;
      rewrite ?Eq, ?Ec, ?(wsum_insert _ _ _ _ _ Ej); change (zlen (@nil Z)) with 0; cbn; try intuition lia.
    all: intros t'; rewrite (wsum_insert _ _ _ _ _ Ej); cbn; rewrite Ht; lia. }
  destruct (notify_one s_waits s_wake choice (submitters p)) as [ss|] eqn:En; [|done]. injection H as <-.
  apply wake_submitters in En as (Hrf & d & Hd & Hd0 & Hwa & Hre').
  rewrite zlen_cons in Hr, Hw, Hs.
  split; cbn; rewrite ?(wsum_insert _ _ _ _ _ Ej), ?Hrf; cbn; try done.
  - by rewrite Hf, <- app_assoc.
  - intros t'. rewrite (wsum_insert _ _ _ _ _ Ej), occurs_snoc, Ht. cbn. lia.
  - lia.
  - destruct Hw as [Hw|[Hc Hw]]; [left; lia|right; split; [done|lia]].
  - pose proof (wsum_nonneg s_waiting ss s_waiting_nonneg). destruct Hs as [Hs|[Hc Hs]]; [left; lia|].
    destruct (Z.eq_dec d 0); [left; lia|right; split; [done|lia]].
  - destruct He as [|[_ He]]; [left; lia|discriminate].
Qed.

Lemma inv_step l p p' : inv p -> step l p = Some p' -> inv p'.
Proof.
  intros Hi H. destruct l as [t|i choice|j choice|j| |j|i].
  - destruct Hi as [Hf Ht Hr Hw Hs He Hre]. injection H as <-. split; cbn; rewrite ?wsum_app; cbn; try done; intuition lia.
  - by eapply inv_enqueue.
  - by eapply inv_dequeue.
  - destruct Hi as [Hf Ht Hr Hw Hs He Hre]. cbn [step] in H. destruct (workers p !! j) as [[|t|]|] eqn:Ej; try done.
    injection H as <-. split; cbn; rewrite ?(wsum_insert _ _ _ _ _ Ej); cbn; try done; try intuition lia.
    intros t'. rewrite (wsum_insert _ _ _ _ _ Ej), occurs_snoc, Ht. cbn. lia.
  - destruct Hi as [Hf Ht Hr Hw Hs He Hre]. injection H as <-. split; cbn; unfold notify_all; rewrite ?wsum_map; try done.
    + intros t. rewrite wsum_map, Ht. f_equal. apply wsum_ext. by intros [].
    + left. apply wsum_zero. by intros [].
    + left. apply wsum_zero. by intros [].
    + rewrite (wsum_ext _ w_ended) by (by intros []). destruct He as [He|[_ He]]; [by left|by right].
    + by right.
  - destruct Hi as [Hf Ht Hr Hw Hs He Hre]. cbn [step] in H. destruct (workers p !! j) as [w|] eqn:Ej; [|done]. injection H as <-.
    pose proof (wsum_lookup w_waiting _ _ _ w_waiting_nonneg Ej) as Hj. split; cbn; rewrite ?(wsum_insert _ _ _ _ _ Ej); try done; try (destruct w as [[]| |]; cbn in *; intuition lia).
    intros t. rewrite (wsum_insert _ _ _ _ _ Ej), Ht. destruct w as [[]| |]; cbn; lia.
  - destruct Hi as [Hf Ht Hr Hw Hs He Hre]. cbn [step] in H. destruct (submitters p !! i) as [s|] eqn:Ei; [|done]. injection H as <-.
    pose proof (wsum_lookup s_waiting _ _ _ s_waiting_nonneg Ei) as Hi. split; cbn; rewrite ?(wsum_insert _ _ _ _ _ Ei); try done; destruct s as [? []|[]]; cbn in *; intuition lia.
Qed.

Lemma inv_run ls p p' : inv p -> run ls p = Some p' -> inv p'.
Proof.
  revert p. induction ls as [|l ls IH]; intros p Hi H; [by injection H as <-|]. cbn [run] in H.
  destruct (step l p) as [p1|] eqn:E; [|discriminate]. apply (IH p1); [by eapply inv_step|done].
Qed.

Lemma length_notify_one {A} waits wake choice (l l' : list A) : notify_one waits wake choice l = Some l' -> length l' = length l.
Proof.
  unfold notify_one. destruct (existsb waits l); [|by intros [= ->]]. destruct (l !! choice) as [x|]; [|done].
  destruct (waits x); [|done]. intros [= <-]. apply length_insert.
Qed.

Lemma step_keeps l p p' : step l p = Some p' ->
  capacity (tq p') = capacity (tq p) /\ length (workers p') = length (workers p).
Proof.
  intros H. destruct l; cbn [step] in H; unfold enqueue, dequeue, mbind, option_bind in H; repeat case_match; simplify_eq;
    cbn; unfold notify_all; rewrite ?length_insert, ?length_map; (split; [done|]); first [done|by eapply length_notify_one].
Qed.
Lemma run_keeps ls p p' : run ls p = Some p' ->
  capacity (tq p') = capacity (tq p) /\ length (workers p') = length (workers p).
Proof.
  revert p. induction ls as [|l ls IH]; intros p H; [by injection H as <-|]. cbn [run] in H.
  destruct (step l p) as [p1|] eqn:E; [|discriminate]. apply IH in H as [-> ->]. by apply step_keeps in E.
Qed.

(** When nothing is in hand or queued, all that was accepted has run. *)
Lemma all_ran p : inv p -> q_items (tq p) = [] -> (forall w t, w ∈ workers p -> w <> W_running t) -> ran p ≡ₚ accepted p.
Proof.
  intros Hi Hq Hw. apply occurs_perm. intros t. rewrite (i_fifo _ Hi), Hq, app_nil_r, (i_tasks _ Hi t).
  assert (wsum (hand t) (workers p) = 0) as ->; [|lia].
  pose proof (wsum_nonneg (hand t) (workers p) (hand_nonneg t)). destruct (Z.eq_dec (wsum (hand t) (workers p)) 0); [done|].
  destruct (wsum_pos (hand t) (workers p)) as (j & w & Hj & Hp); [apply hand_nonneg|lia|].
  destruct w as [|t'|]; cbn in Hp; [lia| |lia]. by destruct (Hw (W_running t') t' (list_elem_of_lookup_2 _ _ _ Hj)).
Qed.

(** In every interleaving of any number of submissions, the workers and a
    shutdown: tasks are taken in the order in which they were accepted, each
    once, and each that was taken is run or has been, once; the backlog is
    bounded; only after a shutdown is a submission refused or does a worker
    end, and when one has ended every accepted task has been taken. *)
Theorem threadpool_runs_tasks N backlog ls p :
  0 <= backlog -> run ls (threadpool_ctor N backlog) = Some p ->
  accepted p = taken p ++ q_items (tq p)
  /\ (forall t, occurs t (taken p) = occurs t (ran p) + wsum (hand t) (workers p))
  /\ zlen (q_items (tq p)) <= backlog
  /\ (forall i, submitters p !! i = Some (S_returned false) -> is_closed (tq p) = true)
  /\ (forall j, workers p !! j = Some W_ended -> is_closed (tq p) = true /\ taken p = accepted p).
Proof.
  intros Hb H. pose proof (inv_run _ _ _ (inv_ctor N backlog Hb) H) as Hi. apply run_keeps in H as [Hc _]. cbn in Hc.
  destruct Hi as [Hf Ht Hr _ _ He Hre]. split_and!; [done|done|lia| |].
  - intros i E. pose proof (wsum_lookup s_refused _ _ _ s_refused_nonneg E) as Hp. cbn in Hp. destruct Hre; [lia|done].
  - intros j E. pose proof (wsum_lookup w_ended _ _ _ w_ended_nonneg E) as Hp. cbn in Hp. destruct He as [|[Hcl Hq]]; [lia|].
    split; [done|]. by rewrite Hf, Hq, app_nil_r.
Qed.

Definition stuck (p : threadpool) : Prop := forall l, thread_step l = true -> step l p = None.

(** Nothing enabled: where the threads are. *)
Lemma stuck_workers p j w : stuck p -> workers p !! j = Some w -> w = W_dequeue true \/ w = W_ended.
Proof.
  intros Hs Hj. destruct w as [[]|t|]; [by left| | |by right]; exfalso.
  - destruct (notify_one_enabled s_waits s_wake (submitters p)) as (choice & ss & En).
    specialize (Hs (L_dequeue j choice) eq_refl). cbn [step] in Hs. rewrite Hj in Hs. unfold dequeue in Hs.
    destruct (q_items (tq p)); [by destruct (negb _)|]. by rewrite En in Hs.
  - specialize (Hs (L_finish j) eq_refl). cbn [step] in Hs. by rewrite Hj in Hs.
Qed.
Lemma stuck_submitters p i s : stuck p -> submitters p !! i = Some s -> (exists t, s = S_enqueue t true) \/ exists ok, s = S_returned ok.
Proof.
  intros Hs Hi. destruct s as [t []|ok]; [left; eauto| |right; eauto]. exfalso.
  destruct (notify_one_enabled w_waits w_wake (workers p)) as (choice & ws & En).
  specialize (Hs (L_enqueue i choice) eq_refl). cbn [step] in Hs. rewrite Hi in Hs. unfold enqueue in Hs.
  destruct (_ && negb _); [discriminate|]. destruct (is_closed (tq p)); [discriminate|]. by rewrite En in Hs.
Qed.
Lemma wsum_all_zero {A} (f : A -> Z) l : (forall i x, l !! i = Some x -> f x = 0) -> wsum f l = 0.
Proof.
  induction l as [|x l IH]; cbn; [done|]. intros H. rewrite (H 0%nat x eq_refl), IH; [done|]. intros i. apply (H (S i)).
Qed.

(** What the invariant says of a pool with no step. *)
Lemma stuck_idle p : inv p -> stuck p -> (0 < length (workers p))%nat -> 0 < capacity (tq p) ->
  q_items (tq p) = [] /\ (forall i s, submitters p !! i = Some s -> exists ok, s = S_returned ok)
  /\ ran p ≡ₚ accepted p
  /\ (is_closed (tq p) = true -> forall j w, workers p !! j = Some w -> w = W_ended).
Proof.
  intros Hi Hs HN Hcap. assert (wsum w_ready (workers p) = 0) as Hready.
  { apply wsum_all_zero. intros j w Hj. by destruct (stuck_workers _ _ _ Hs Hj) as [-> | ->]. }
  assert (wsum s_ready (submitters p) = 0) as Hready_s.
  { apply wsum_all_zero. intros i s Hi'. by destruct (stuck_submitters _ _ _ Hs Hi') as [[? ->]|[? ->]]. }
  pose proof (zlen_nonneg (q_items (tq p))).
  assert (q_items (tq p) = []) as Hq.
  { destruct (workers p !! 0%nat) as [w|] eqn:E0; [|apply lookup_ge_None in E0; lia].
    destruct (stuck_workers _ _ _ Hs E0) as [-> | ->].
    - pose proof (wsum_lookup w_waiting _ _ _ w_waiting_nonneg E0) as Hp. cbn in Hp.
      destruct (i_wake _ Hi) as [|[_ Hz]]; [lia|].
      destruct (q_items (tq p)) as [|t l]; [done|]. rewrite zlen_cons in Hz. pose proof (zlen_nonneg l). lia.
    - pose proof (wsum_lookup w_ended _ _ _ w_ended_nonneg E0) as Hp. cbn in Hp. destruct (i_ended _ Hi) as [|[]]; [lia|done]. }
  split_and!; [done| | |].
  - intros i s Hi'. destruct (stuck_submitters _ _ _ Hs Hi') as [[t ->]|]; [|done].
    pose proof (wsum_lookup s_waiting _ _ _ s_waiting_nonneg Hi') as Hp. cbn in Hp.
    destruct (i_wake_s _ Hi) as [|[_ Hz]]; [lia|]. rewrite Hq in Hz. change (zlen []) with 0 in Hz. lia.
  - apply all_ran; [done..|]. intros w t [j Hj]%list_elem_of_lookup_1 ->. by destruct (stuck_workers _ _ _ Hs Hj).
  - intros Hc j w Hj. destruct (stuck_workers _ _ _ Hs Hj) as [-> |]; [|done].
    pose proof (wsum_lookup w_waiting _ _ _ w_waiting_nonneg Hj) as Hp. cbn in Hp. destruct (i_wake _ Hi) as [|[Hc' _]]; [lia|congruence].
Qed.

(** No wake-up is lost: in every state a pool with a worker and room for
    a task can reach, if no thread can go on by itself then there is nothing
    to do: no task is queued or running, every submission has returned, all
    accepted tasks have run, and after a shutdown every worker has ended. *)
Theorem threadpool_never_stuck N backlog ls p :
  (0 < N)%nat -> 0 < backlog -> run ls (threadpool_ctor N backlog) = Some p ->
  (forall l, thread_step l = true -> step l p = None) ->
  q_items (tq p) = [] /\ (forall i s, submitters p !! i = Some s -> exists ok, s = S_returned ok)
  /\ ran p ≡ₚ accepted p
  /\ (is_closed (tq p) = true -> forall j w, workers p !! j = Some w -> w = W_ended).
Proof.
  intros HN Hb H Hs. pose proof (inv_run _ _ _ (inv_ctor N backlog ltac:(lia)) H) as Hi. apply run_keeps in H as [Hc Hl].
  cbn in Hc, Hl. rewrite length_replicate in Hl. apply stuck_idle; [done|exact Hs|lia|lia].
Qed.

(** *** A shutdown ends *)

(** The sections left to each thread. *)
Definition w_effort (w : worker) : Z := match w with W_dequeue _ => 1 | W_running _ => 2 | W_ended => 0 end.
Definition s_effort (s : submitter) : Z := match s with S_enqueue _ _ => 1 | S_returned _ => 0 end.
Definition effort (p : threadpool) : Z :=
  2 * zlen (q_items (tq p)) + wsum w_effort (workers p) + wsum s_effort (submitters p).

Lemma effort_nonneg p : 0 <= effort p.
Proof.
  unfold effort. pose proof (zlen_nonneg (q_items (tq p))).
  pose proof (wsum_nonneg w_effort (workers p) ltac:(by intros [])).
  pose proof (wsum_nonneg s_effort (submitters p) ltac:(by intros [])). lia.
Qed.
Lemma thread_step_effort l p p' : is_closed (tq p) = true -> thread_step l = true -> step l p = Some p' ->
  is_closed (tq p') = true /\ effort p' + 1 <= effort p.
Proof.
  intros Hc Hl H. unfold effort. destruct l as [|i choice|j choice|j| | |]; try discriminate; cbn [step] in H.
  - destruct (submitters p !! i) as [[t []|]|] eqn:Ei; try done. unfold enqueue in H. rewrite Hc, andb_false_r in H.
    injection H as <-. cbn. rewrite (wsum_insert _ _ _ _ _ Ei). cbn. split; [done|lia].
  - destruct (workers p !! j) as [[[]| |]|] eqn:Ej; try done. unfold dequeue in H. destruct (q_items (tq p)) as [|t l] eqn:Eq.
    + rewrite Hc in H. injection H as <-. cbn. rewrite (wsum_insert _ _ _ _ _ Ej), Eq. cbn. split; [done|lia].
    + destruct (notify_one s_waits s_wake choice (submitters p)) as [ss|] eqn:En; [|done]. injection H as <-. cbn.
      rewrite (wsum_insert _ _ _ _ _ Ej), (notify_one_sum _ _ _ _ _ s_effort 0 En) by (by intros []).
      rewrite zlen_cons. cbn. split; [done|]. case_match; lia.
  - destruct (workers p !! j) as [[|t|]|] eqn:Ej; try done. injection H as <-. cbn. rewrite (wsum_insert _ _ _ _ _ Ej). cbn. split; [done|lia].
Qed.

(** C20.  After a shutdown the threads have at most [effort] sections left, in
    any order, and when they have come to an end all workers have ended, so
    that joining them returns, and every accepted task has run. *)
Theorem threadpool_shutdown_ends N backlog ls ls' p p' :
  (0 < N)%nat -> 0 < backlog -> run ls (threadpool_ctor N backlog) = Some p -> is_closed (tq p) = true ->
  run ls' p = Some p' -> forallb thread_step ls' = true ->
  zlen ls' <= effort p
  /\ ((forall l, thread_step l = true -> step l p' = None) ->
      (forall j w, workers p' !! j = Some w -> w = W_ended) /\ ran p' ≡ₚ accepted p').
Proof.
  intros HN Hb H Hc H' Hls. pose proof (inv_run _ _ _ (inv_ctor N backlog ltac:(lia)) H) as Hi.
  pose proof (inv_run _ _ _ Hi H') as Hi'. apply run_keeps in H as [Hcap Hlen]. cbn in Hcap, Hlen. rewrite length_replicate in Hlen.
  pose proof (run_keeps _ _ _ H') as [Hcap' Hlen'].
  assert (is_closed (tq p') = true /\ zlen ls' + effort p' <= effort p) as [Hc' He].
  { clear - Hc H' Hls. revert p Hc H'. induction ls' as [|l ls' IH]; intros p Hc H.
    - injection H as <-. split; [done|]. change (zlen []) with 0. lia.
    - cbn [run forallb] in *. apply andb_prop in Hls as [Hl Hls]. destruct (step l p) as [p1|] eqn:E; [|discriminate].
      destruct (thread_step_effort _ _ _ Hc Hl E) as [Hc1 He]. destruct (IH Hls _ Hc1 H) as [? ?]. split; [done|]. rewrite zlen_cons. lia. }
  pose proof (effort_nonneg p'). split; [lia|]. intros Hs.
  destruct (stuck_idle p' Hi' Hs) as (_ & _ & Hran & Hend); [lia|lia|]. split; [by apply Hend|done].
Qed.

(** ** A pool of two threads and a backlog of one *)

(** Worker 0 waits and is woken by task 7; task 8 finds the queue full, waits,
    and is woken when 7 is taken; 9 comes after the shutdown. *)
Definition wx_before : list label :=
  [L_submit 7; L_submit 8; L_dequeue 0 0; L_enqueue 0 0; L_enqueue 1 0; L_dequeue 0 1; L_enqueue 1 0; L_close; L_submit 9].
Definition wx_after : list label :=
  [L_enqueue 2 0; L_dequeue 1 0; L_finish 0; L_dequeue 0 0; L_finish 1; L_dequeue 1 0].
Definition wx_pool : threadpool := default (threadpool_ctor 0 0) (run wx_before (threadpool_ctor 2 1)).
Definition wx_end : threadpool := default (threadpool_ctor 0 0) (run wx_after wx_pool).

Example wx_seen : (workers wx_pool, submitters wx_pool, q_items (tq wx_pool), effort wx_pool)
  = ([W_running 7; W_dequeue false], [S_returned true; S_returned true; S_enqueue 9 false], [8], 6)
  /\ (workers wx_end, submitters wx_end, ran wx_end, effort wx_end)
  = ([W_ended; W_ended], [S_returned true; S_returned true; S_returned false], [7; 8], 0).
Proof. vm_compute. done. Qed.

Lemma wx_run : run wx_before (threadpool_ctor 2 1) = Some wx_pool.
Proof. vm_compute. reflexivity. Qed.
Lemma wx_run_end : run wx_after wx_pool = Some wx_end.
Proof. vm_compute. reflexivity. Qed.

Lemma threadpool_runs_tasks_witness : accepted wx_pool = [7; 8] /\ taken wx_pool = [7] /\ zlen (q_items (tq wx_pool)) <= 1.
Proof.
  destruct (threadpool_runs_tasks 2 1 wx_before wx_pool ltac:(discriminate) wx_run) as (H & _ & Hr & _).
  split; [rewrite H; reflexivity|]. split; [reflexivity|exact Hr].
Defined.

(** Both workers wait, and nobody has anything for them. *)
Definition wx_idle : threadpool := default (threadpool_ctor 0 0) (run [L_dequeue 0 0; L_dequeue 1 0] (threadpool_ctor 2 1)).
Lemma threadpool_never_stuck_witness : workers wx_idle = [W_dequeue true; W_dequeue true] /\ q_items (tq wx_idle) = [].
Proof.
  split; [reflexivity|].
  apply (threadpool_never_stuck 2 1 [L_dequeue 0 0; L_dequeue 1 0] wx_idle); [lia|lia|reflexivity|].
  intros [t|i c|j c|j| |j|i] Hl; try discriminate Hl.
  - destruct i; reflexivity.
  - destruct j as [|[|j]]; reflexivity.
  - destruct j as [|[|j]]; reflexivity.
Defined.

Lemma threadpool_shutdown_ends_witness : zlen wx_after <= effort wx_pool
  /\ workers wx_end !! 0%nat = Some W_ended /\ ran wx_end ≡ₚ accepted wx_end.
Proof.
  destruct (threadpool_shutdown_ends 2 1 wx_before wx_after wx_pool wx_end ltac:(lia) ltac:(lia) wx_run eq_refl wx_run_end eq_refl)
    as [Hl Hs].
  split; [exact Hl|]. destruct Hs as [Hw Hr].
  - intros [t|i c|j c|j| |j|i] H; try discriminate H.
    + destruct i as [|[|[|i]]]; reflexivity.
    + destruct j as [|[|j]]; reflexivity.
    + destruct j as [|[|j]]; reflexivity.
  - split; [reflexivity|exact Hr].
Defined.
