(* ===== verification/ElasticPool.v ===== *)
(** * The elastic pool of threads (core123/elastic_threadpool.hpp)

    The pool in which the server library runs its handlers.  It starts a
    thread when work is submitted, none is idle and there may be more, and
    lets a thread end when enough are idle.  Three counters are atomic
    variables that are read and written without a lock, so every load,
    increment and exchange is a step of its own, and a run is any interleaving
    of the steps of any number of submitters and workers and of the shutdown,
    with the starting of a thread succeeding or failing.  The queue and its
    sections are those of WorkQueue.

    [submit] must have returned wherever it was called when the shutdown
    begins, as the class asks of its callers; a later one is refused.

    Theorems: a shutdown returns only when every accepted task has run, once;
    no task is stranded, whatever the races on the counters (both unless a
    thread could not be started, see [undrained]); and with
    submissions that do not overlap there are never more workers than the
    limit, which two that do overlap can exceed. *)

From Stdlib Require Import ZArith Lia.
From stdpp Require Import base list numbers.
From S2P Require Import Prelude.
From S2P Require Import WorkQueue.

#[local] Open Scope Z_scope.


(** Where a thread of the pool is. *)
Inductive worker :=
| W_check                      (* enough_idle_threads: [nidl.load] *)
| W_exchange                   (* its loop on [nth] *)
| W_idle                       (* [nidl.fetch_add] *)
| W_dequeue (waiting : bool)
| W_busy (o : option Z)        (* [nidl.fetch_sub], with what was taken *)
| W_running (t : Z)
| W_leaving                    (* worker_loop, after its loop *)
| W_gone.

(** And a caller of [submit]. *)
Inductive submitter :=
| S_enqueue (t : Z) (waiting : bool)
| S_nidl                       (* no_more_threads: [nidl.load] *)
| S_nth                        (* and [nth.load] *)
| S_start                      (* the thread's constructor *)
| S_ndet                       (* [ndet.fetch_add] *)
| S_count                      (* [nth.fetch_add] *)
| S_max (n : Z)                (* [atomic_max] *)
| S_returned (ok : bool).

(** Whether the shutdown has begun, waits, or has returned. *)
Inductive shutting := D_running | D_wait (waiting : bool) | D_returned.

Definition w_waits (w : worker) : bool := match w with W_dequeue b => b | _ => false end.
Definition w_wake (w : worker) : worker := match w with W_dequeue _ => W_dequeue false | w => w end.
Definition s_waits (s : submitter) : bool := match s with S_enqueue _ b => b | _ => false end.
Definition s_wake (s : submitter) : submitter := match s with S_enqueue t _ => S_enqueue t false | s => s end.

(** [failed] is that a thread could not be started. *)
Record pool := Pool {
  nthreadmax : Z;
  nidlemax : Z;
  workq : queue;
  nth : Z;
  nidl : Z;
  ndet : Z;
  th_hwm : Z;
  workers : list worker;
  submitters : list submitter;
  shut : shutting;
  accepted : list Z;
  taken : list Z;
  ran : list Z;
  failed : bool
}.

(** The constructor. *)
Definition elastic_threadpool (nthreadmax nidlemax : Z) : outcome pool :=
  if (nidlemax <=? 0) || (nthreadmax <? nidlemax) then Throw EInvalidArg
  else Ret (Pool nthreadmax nidlemax (queue_ctor (2 ^ 64 - 1)) 0 0 0 0 [] [] D_running [] [] [] false).

Definition with_counts (n i d : Z) (p : pool) : pool :=
  Pool (nthreadmax p) (nidlemax p) (workq p) n i d (th_hwm p) (workers p) (submitters p) (shut p)
    (accepted p) (taken p) (ran p) (failed p).
Definition with_worker (j : nat) (w : worker) (p : pool) : pool :=
  Pool (nthreadmax p) (nidlemax p) (workq p) (nth p) (nidl p) (ndet p) (th_hwm p) (<[j := w]> (workers p)) (submitters p)
    (shut p) (accepted p) (taken p) (ran p) (failed p).
Definition with_submitter (i : nat) (s : submitter) (p : pool) : pool :=
  Pool (nthreadmax p) (nidlemax p) (workq p) (nth p) (nidl p) (ndet p) (th_hwm p) (workers p) (<[i := s]> (submitters p))
    (shut p) (accepted p) (taken p) (ran p) (failed p).
Definition with_shut (d : shutting) (p : pool) : pool :=
  Pool (nthreadmax p) (nidlemax p) (workq p) (nth p) (nidl p) (ndet p) (th_hwm p) (workers p) (submitters p)
    d (accepted p) (taken p) (ran p) (failed p).

(** ** Steps *)

(** A step of worker [j]; [choice] is whom a notification wakes. *)
Definition worker_step (j choice : nat) (p : pool) : option pool :=
  match workers p !! j with
  | Some W_check => Some (with_worker j (if nidl p <? nidlemax p then W_idle else W_exchange) p)
  | Some W_exchange =>
      let old := nth p in
      let p := with_counts (if old - 1 =? 0 then 1 else old - 1) (nidl p) (ndet p) p in
      Some (with_worker j (if 1 <? old then W_leaving else W_idle) p)
  | Some W_idle => Some (with_worker j (W_dequeue false) (with_counts (nth p) (nidl p + 1) (ndet p) p))
  | Some (W_dequeue false) =>
      match dequeue (workq p) with
      | None => Some (with_worker j (W_dequeue true) p)
      | Some (None, _) => Some (with_worker j (W_busy None) p)
      | Some (Some t, q) =>
          ss ← notify_one s_waits s_wake choice (submitters p);
          Some (Pool (nthreadmax p) (nidlemax p) q (nth p) (nidl p) (ndet p) (th_hwm p) (<[j := W_busy (Some t)]> (workers p)) ss
                  (shut p) (accepted p) (taken p ++ [t]) (ran p) (failed p))
      end
  | Some (W_busy o) =>
      Some (with_worker j (match o with Some t => W_running t | None => W_leaving end)
              (with_counts (nth p) (nidl p - 1) (ndet p) p))
  | Some (W_running t) =>
      Some (Pool (nthreadmax p) (nidlemax p) (workq p) (nth p) (nidl p) (ndet p) (th_hwm p) (<[j := W_check]> (workers p))
              (submitters p) (shut p) (accepted p) (taken p) (ran p ++ [t]) (failed p))
  | Some W_leaving =>
      (* with [all_done_mtx] held until the thread is gone, then all are notified *)
      let p := with_counts (nth p) (nidl p) (ndet p - 1) p in
      Some (with_worker j W_gone (match shut p with D_wait _ => with_shut (D_wait false) p | _ => p end))
  | Some (W_dequeue true) | Some W_gone | None => None
  end.

(** A step of submitter [i]; [started] is whether the thread can be started. *)
Definition submitter_step (i choice : nat) (started : bool) (p : pool) : option pool :=
  match submitters p !! i with
  | Some (S_enqueue t false) =>
      match enqueue t (workq p) with
      | None => Some (with_submitter i (S_enqueue t true) p)
      | Some (false, _) => Some (with_submitter i (S_returned false) p)
      | Some (true, q) =>
          ws ← notify_one w_waits w_wake choice (workers p);
          Some (Pool (nthreadmax p) (nidlemax p) q (nth p) (nidl p) (ndet p) (th_hwm p) ws (<[i := S_nidl]> (submitters p))
                  (shut p) (accepted p ++ [t]) (taken p) (ran p) (failed p))
      end
  | Some S_nidl => Some (with_submitter i (if 0 <? nidl p then S_returned true else S_nth) p)
  | Some S_nth => Some (with_submitter i (if nthreadmax p <=? nth p then S_returned true else S_start) p)
  | Some S_start =>
      if started then
        Some (Pool (nthreadmax p) (nidlemax p) (workq p) (nth p) (nidl p) (ndet p) (th_hwm p) (workers p ++ [W_check])
                (<[i := S_ndet]> (submitters p)) (shut p) (accepted p) (taken p) (ran p) (failed p))
      else
        Some (Pool (nthreadmax p) (nidlemax p) (workq p) (nth p) (nidl p) (ndet p) (th_hwm p) (workers p)
                (<[i := S_returned true]> (submitters p)) (shut p) (accepted p) (taken p) (ran p) true)
  | Some S_ndet => Some (with_submitter i S_count (with_counts (nth p) (nidl p) (ndet p + 1) p))
  | Some S_count => Some (with_submitter i (S_max (nth p + 1)) (with_counts (nth p + 1) (nidl p) (ndet p) p))
  | Some (S_max n) =>
      Some (with_submitter i (S_returned true)
              (Pool (nthreadmax p) (nidlemax p) (workq p) (nth p) (nidl p) (ndet p) (Z.max (th_hwm p) n) (workers p) (submitters p)
                 (shut p) (accepted p) (taken p) (ran p) (failed p)))
  | Some (S_enqueue _ true) | Some (S_returned _) | None => None
  end.

Definition returned (s : submitter) : bool := match s with S_returned _ => true | _ => false end.

Inductive label :=
| L_submit (t : Z)
| L_submitter (i choice : nat) (started : bool)
| L_worker (j choice : nat)
| L_shutdown                       (* its call of [close] *)
| L_wait                           (* the predicate of [cv.wait] *)
| L_wake_worker (j : nat)          (* spuriously *)
| L_wake_submitter (i : nat)
| L_wake_shutdown.

Definition step (l : label) (p : pool) : option pool :=
  match l with
  | L_submit t =>
      Some (Pool (nthreadmax p) (nidlemax p) (workq p) (nth p) (nidl p) (ndet p) (th_hwm p) (workers p)
              (submitters p ++ [S_enqueue t false]) (shut p) (accepted p) (taken p) (ran p) (failed p))
  | L_submitter i choice started => submitter_step i choice started p
  | L_worker j choice => worker_step j choice p
  | L_shutdown =>
      match shut p with
      | D_running =>
          if forallb returned (submitters p) then
            Some (Pool (nthreadmax p) (nidlemax p) (close (workq p)) (nth p) (nidl p) (ndet p) (th_hwm p)
                    (notify_all w_wake (workers p)) (notify_all s_wake (submitters p)) (D_wait false)
                    (accepted p) (taken p) (ran p) (failed p))
          else None
      | _ => None
      end
  | L_wait =>
      match shut p with
      | D_wait false => Some (with_shut (if ndet p =? 0 then D_returned else D_wait true) p)
      | _ => None
      end
  | L_wake_worker j =>
      match workers p !! j with Some w => Some (with_worker j (w_wake w) p) | None => None end
  | L_wake_submitter i =>
      match submitters p !! i with Some s => Some (with_submitter i (s_wake s) p) | None => None end
  | L_wake_shutdown => match shut p with D_wait _ => Some (with_shut (D_wait false) p) | _ => None end
  end.
Fixpoint run (ls : list label) (p : pool) : option pool :=
  match ls with [] => Some p | l :: ls => p ← step l p; run ls p end.

Definition thread_step (l : label) : bool :=
  match l with L_submitter _ _ _ | L_worker _ _ | L_wait => true | _ => false end.

(** Submissions that do not overlap. *)
Fixpoint run_serial (ls : list label) (p : pool) : option pool :=
  match ls with
  | [] => Some p
  | l :: ls =>
      match l with
      | L_submit _ => if forallb returned (submitters p) then p ← step l p; run_serial ls p else None
      | _ => p ← step l p; run_serial ls p
      end
  end.

(** ** The invariant *)

Definition hand (t : Z) (w : worker) : Z :=
  match w with W_busy (Some t') | W_running t' => Z.b2z (t' =? t) | _ => 0 end.
Definition w_waiting (w : worker) : Z := Z.b2z (w_waits w).
Definition w_ready (w : worker) : Z := match w with W_dequeue false => 1 | _ => 0 end.
Definition w_counted_idle (w : worker) : Z := match w with W_dequeue _ | W_busy _ => 1 | _ => 0 end.
Definition w_live (w : worker) : Z := match w with W_gone => 0 | _ => 1 end.
Definition w_active (w : worker) : Z := match w with W_gone | W_leaving | W_busy None => 0 | _ => 1 end.
Definition w_told (w : worker) : Z := match w with W_busy None => 1 | _ => 0 end.
Definition w_exchange (w : worker) : Z := match w with W_exchange => 1 | _ => 0 end.
Definition s_waiting (s : submitter) : Z := Z.b2z (s_waits s).
Definition s_ready (s : submitter) : Z := match s with S_enqueue _ false => 1 | _ => 0 end.
Definition s_starting (s : submitter) : Z := match s with S_nidl | S_nth | S_start => 1 | _ => 0 end.
Definition s_start (s : submitter) : Z := match s with S_start => 1 | _ => 0 end.
Definition s_ndet (s : submitter) : Z := match s with S_ndet => 1 | _ => 0 end.
Definition s_nth (s : submitter) : Z := match s with S_ndet | S_count => 1 | _ => 0 end.
Definition s_counting (s : submitter) : Z := match s with S_ndet | S_count | S_max _ => 1 | _ => 0 end.

Lemma w_nonneg w : 0 <= w_waiting w /\ 0 <= w_ready w /\ 0 <= w_counted_idle w /\ 0 <= w_live w /\ 0 <= w_active w
  /\ 0 <= w_told w /\ 0 <= w_exchange w.
Proof. destruct w as [| | |[]|[]| | |]; cbn; lia. Qed.
Lemma e_hand_nonneg t w : 0 <= hand t w.
Proof. destruct w as [| | | |[]| | |]; cbn; try lia; apply b2z_nonneg. Qed.
Lemma s_nonneg s : 0 <= s_waiting s /\ 0 <= s_ready s /\ 0 <= s_starting s /\ 0 <= s_start s /\ 0 <= s_ndet s /\ 0 <= s_nth s
  /\ 0 <= s_counting s.
Proof. destruct s as [? []| | | | | | |]; cbn; lia. Qed.

Record inv (p : pool) : Prop := {
  i_args : 0 < nidlemax p <= nthreadmax p;
  i_fifo : accepted p = taken p ++ q_items (workq p);
  i_tasks t : occurs t (taken p) = occurs t (ran p) + wsum (hand t) (workers p);
  i_room : zlen (q_items (workq p)) <= capacity (workq p) /\ capacity (workq p) = 2 ^ 64 - 1;
  i_wake : wsum w_waiting (workers p) = 0
    \/ (is_closed (workq p) = false /\ zlen (q_items (workq p)) <= wsum w_ready (workers p));
  i_wake_s : wsum s_waiting (submitters p) = 0
    \/ (is_closed (workq p) = false /\ capacity (workq p) - zlen (q_items (workq p)) <= wsum s_ready (submitters p));
  i_nidl : nidl p = wsum w_counted_idle (workers p);
  i_ndet : ndet p + wsum s_ndet (submitters p) = wsum w_live (workers p);
  i_told : wsum w_told (workers p) = 0 \/ (is_closed (workq p) = true /\ q_items (workq p) = []);
  i_nth : nth p + wsum s_nth (submitters p) <= wsum w_active (workers p)
    \/ (is_closed (workq p) = true /\ q_items (workq p) = []);
  i_alive : accepted p = [] \/ failed p = true \/ 0 < wsum w_active (workers p)
    \/ (is_closed (workq p) = true /\ q_items (workq p) = []) \/ 0 < wsum s_starting (submitters p);
  i_shut : match shut p with
    | D_running => is_closed (workq p) = false
    | D_wait waiting => is_closed (workq p) = true /\ (waiting = true -> ndet p <> 0)
    | D_returned => is_closed (workq p) = true /\ ndet p = 0
    end;
  i_closed : is_closed (workq p) = true -> wsum s_starting (submitters p) + wsum s_counting (submitters p) = 0
}.

Lemma wsum_le {A} (f g : A -> Z) l : (forall x, f x <= g x) -> wsum f l <= wsum g l.
Proof. intros H. induction l as [|x l IH]; cbn; [lia|]. specialize (H x). lia. Qed.

(** The weights of the threads together, and of one of them. *)
Lemma w_facts ws : 0 <= wsum w_waiting ws /\ 0 <= wsum w_ready ws /\ 0 <= wsum w_counted_idle ws /\ 0 <= wsum w_told ws
  /\ 0 <= wsum w_exchange ws /\ 0 <= wsum w_active ws
  /\ wsum w_active ws + wsum w_told ws <= wsum w_live ws
  /\ wsum w_counted_idle ws <= wsum w_active ws + wsum w_told ws
  /\ wsum w_waiting ws + wsum w_ready ws <= wsum w_counted_idle ws.
Proof.
  split_and!; try (apply wsum_nonneg; intros w; apply (w_nonneg w)).
  all: induction ws as [|w ws IH]; cbn; [lia|]; destruct w as [| | |[]|[]| | |]; cbn; lia.
Qed.
Lemma s_facts ss : 0 <= wsum s_waiting ss /\ 0 <= wsum s_ready ss /\ 0 <= wsum s_ndet ss /\ 0 <= wsum s_nth ss
  /\ wsum s_start ss <= wsum s_starting ss /\ wsum s_ndet ss <= wsum s_nth ss /\ wsum s_nth ss <= wsum s_counting ss
  /\ 0 <= wsum s_start ss.
Proof.
  split_and!; try (apply wsum_nonneg; intros s; apply (s_nonneg s)).
  all: apply wsum_le; intros s; destruct s as [? []| | | | | | |]; cbn; lia.
Qed.
Lemma w_at ws j w : ws !! j = Some w -> w_waiting w <= wsum w_waiting ws /\ w_ready w <= wsum w_ready ws
  /\ w_counted_idle w <= wsum w_counted_idle ws /\ w_live w <= wsum w_live ws /\ w_active w <= wsum w_active ws
  /\ w_told w <= wsum w_told ws /\ w_exchange w <= wsum w_exchange ws.
Proof. intros H. split_and!; apply (wsum_lookup _ _ j _); try done; intros x; apply (w_nonneg x). Qed.
Lemma s_at ss i s : ss !! i = Some s -> s_waiting s <= wsum s_waiting ss /\ s_ready s <= wsum s_ready ss
  /\ s_starting s <= wsum s_starting ss /\ s_ndet s <= wsum s_ndet ss /\ s_nth s <= wsum s_nth ss
  /\ s_counting s <= wsum s_counting ss.
Proof. intros H. split_and!; apply (wsum_lookup _ _ i _); try done; intros x; apply (s_nonneg x). Qed.

(** For the parts of the invariant a step leaves alone or changes by numbers. *)
Ltac keep H := destruct H as [H|H]; [left; lia|right; first [exact H|destruct H as [? H]; split; [assumption|lia]]].
Ltac alive H := destruct H as [H|[H|[H|[H|H]]]]; [by left|by right; left|right; right; left; lia|by right; right; right; left
                 |right; right; right; right; lia].

(** What is left of a field of the invariant when the weights are rewritten. *)
Ltac field := match goal with
  | H : _ \/ (is_closed _ = false /\ _ <= wsum w_ready _) |- _ \/ (_ /\ _ <= wsum w_ready _ - _ + _) => keep H
  | H : forall t, occurs t (taken _) = _, Ej : workers _ !! _ = Some _ |- forall t, occurs t _ = _ =>
      intros ?; rewrite (wsum_insert _ _ _ _ _ Ej), H; cbn; lia
  | H : wsum w_told _ = 0 \/ _ |- wsum w_told _ - _ + _ = 0 \/ _ => keep H
  | H : nth _ + _ <= _ \/ _ |- _ + _ <= _ \/ _ => keep H
  | H : _ = [] \/ failed _ = true \/ _ |- _ = [] \/ failed _ = true \/ _ => alive H
  end.

(** A worker goes on to where it has the same weights. *)
Lemma inv_worker p j w w' : inv p -> workers p !! j = Some w -> (forall t, hand t w' = hand t w) ->
  w_waiting w' = w_waiting w -> w_ready w' = w_ready w -> w_counted_idle w' = w_counted_idle w -> w_live w' = w_live w ->
  w_active w' = w_active w -> w_told w' = w_told w -> inv (with_worker j w' p).
Proof.
  intros [] Ej Hh H1 H2 H3 H4 H5 H6. split; cbn; rewrite ?(wsum_insert _ _ _ _ _ Ej), ?H1, ?H2, ?H3, ?H4, ?H5, ?H6; try done; try lia;
    try field.
  intros t. rewrite (wsum_insert _ _ _ _ _ Ej), Hh, i_tasks0. lia.
Qed.

Lemma inv_exchange p j choice p' : inv p -> workers p !! j = Some W_exchange -> worker_step j choice p = Some p' -> inv p'.
Proof.
  intros [] Ej H. unfold worker_step in H. rewrite Ej in H. injection H as <-. pose proof (w_facts (workers p)).
  pose proof (s_facts (submitters p)). pose proof (w_at _ _ _ Ej) as Hj. cbn in Hj.
  assert ((if nth p - 1 =? 0 then 1 else nth p - 1) <= nth p - (if 1 <? nth p then 1 else 0)) as Hn
    by (destruct (Z.eqb_spec (nth p - 1) 0), (Z.ltb_spec 1 (nth p)); lia).
  set (n' := if nth p - 1 =? 0 then 1 else nth p - 1) in *. clearbody n'. destruct (Z.ltb_spec 1 (nth p));
    (split; cbn; rewrite ?(wsum_insert _ _ _ _ _ Ej); cbn; try done; try lia).
  all: try field.
  destruct i_nth0 as [Hl|Hr]; [right; right; left; lia|by right; right; right; left].
Qed.

Lemma inv_idle p j w w' d : inv p -> workers p !! j = Some w -> (forall t, hand t w' = hand t w) ->
  w_waiting w = 0 -> w_waiting w' = 0 -> w_ready w <= w_ready w' -> w_counted_idle w' = w_counted_idle w + d ->
  w_live w' = w_live w -> w_active w' = w_active w -> w_told w' <= w_told w ->
  inv (with_worker j w' (with_counts (nth p) (nidl p + d) (ndet p) p)).
Proof.
  intros [] Ej Hh H0 H1 H2 H3 H4 H5 H6. pose proof (w_facts (workers p)). pose proof (w_nonneg w'). pose proof (w_at _ _ _ Ej).
  split; cbn; rewrite ?(wsum_insert _ _ _ _ _ Ej); try done; try lia; try field.
  intros t. rewrite (wsum_insert _ _ _ _ _ Ej), Hh, i_tasks0. lia.
Qed.

Lemma inv_waits p j : inv p -> workers p !! j = Some (W_dequeue false) -> q_items (workq p) = [] -> is_closed (workq p) = false ->
  inv (with_worker j (W_dequeue true) p).
Proof.
  intros [] Ej Hq Hc. pose proof (w_facts (workers p)). pose proof (w_at _ _ _ Ej) as Hj. cbn in Hj.
  split; cbn; rewrite ?(wsum_insert _ _ _ _ _ Ej); cbn; try done; try lia; try field.
  right. split; [done|]. rewrite Hq. change (zlen (@nil Z)) with 0. lia.
Qed.

Lemma inv_told p j : inv p -> workers p !! j = Some (W_dequeue false) -> q_items (workq p) = [] -> is_closed (workq p) = true ->
  inv (with_worker j (W_busy None) p).
Proof.
  intros [] Ej Hq Hc. pose proof (w_facts (workers p)). pose proof (w_at _ _ _ Ej) as Hj. cbn in Hj.
  assert (Hend : is_closed (workq p) = true /\ q_items (workq p) = []) by done.
  split; cbn; rewrite ?(wsum_insert _ _ _ _ _ Ej); cbn; try done; try lia; try field; try (by right).
  - destruct i_wake0 as [|[]]; [left; lia|congruence].
  - by right; right; right; left.
Qed.
Lemma e_wake_workers choice ws ws' : notify_one w_waits w_wake choice ws = Some ws' ->
  (forall t, wsum (hand t) ws' = wsum (hand t) ws) /\ woken w_waiting w_ready ws ws'
  /\ wsum w_counted_idle ws' = wsum w_counted_idle ws /\ wsum w_live ws' = wsum w_live ws
  /\ wsum w_active ws' = wsum w_active ws /\ wsum w_told ws' = wsum w_told ws /\ wsum w_exchange ws' = wsum w_exchange ws.
Proof.
  intros H. split_and!; try (eapply notify_one_same; [exact H|]; by intros []).
  - intros t. eapply notify_one_same; [exact H|]. by intros [].
  - eapply notify_one_woken; [exact H|]. by intros [| | |[]| | | |].
Qed.
Lemma e_wake_submitters choice ss ss' : notify_one s_waits s_wake choice ss = Some ss' ->
  woken s_waiting s_ready ss ss' /\ wsum s_starting ss' = wsum s_starting ss /\ wsum s_start ss' = wsum s_start ss
  /\ wsum s_ndet ss' = wsum s_ndet ss /\ wsum s_nth ss' = wsum s_nth ss /\ wsum s_counting ss' = wsum s_counting ss.
Proof.
  intros H. split_and!; try (eapply notify_one_same; [exact H|]; by intros []).
  eapply notify_one_woken; [exact H|]. by intros [? []| | | | | | |].
Qed.

Lemma inv_took p j t l ss choice : inv p -> workers p !! j = Some (W_dequeue false) -> q_items (workq p) = t :: l ->
  notify_one s_waits s_wake choice (submitters p) = Some ss ->
  inv (Pool (nthreadmax p) (nidlemax p) (Queue l (is_closed (workq p)) (capacity (workq p))) (nth p) (nidl p) (ndet p) (th_hwm p)
         (<[j := W_busy (Some t)]> (workers p)) ss (shut p) (accepted p) (taken p ++ [t]) (ran p) (failed p)).
Proof.
  intros [] Ej Hq En. pose proof (w_at _ _ _ Ej) as Hj. cbn in Hj. rewrite Hq, ?zlen_cons in *.
  apply e_wake_submitters in En as ((d & Hd & Hd0 & Hwa & Hre) & H1 & H2 & H3 & H4 & H5). pose proof (s_facts ss).
  pose proof (zlen_nonneg l). split; cbn; rewrite ?(wsum_insert _ _ _ _ _ Ej), ?H1, ?H3, ?H4, ?H5; cbn; try done; try lia; try field.
  - by rewrite i_fifo0, <- app_assoc.
  - intros t'. rewrite (wsum_insert _ _ _ _ _ Ej), occurs_snoc, i_tasks0. cbn. lia.
  - destruct (Z.eq_dec d 0), i_wake_s0 as [Hw|[Hc Hw]]; [left; lia|left; lia|left; lia|right; split; [done|lia]].
  - destruct i_told0 as [|[_ Hn]]; [left; lia|discriminate].
  - destruct i_nth0 as [|[_ Hn]]; [left; lia|discriminate].
Qed.

Lemma inv_ran p j t : inv p -> workers p !! j = Some (W_running t) ->
  inv (Pool (nthreadmax p) (nidlemax p) (workq p) (nth p) (nidl p) (ndet p) (th_hwm p) (<[j := W_check]> (workers p))
         (submitters p) (shut p) (accepted p) (taken p) (ran p ++ [t]) (failed p)).
Proof.
  intros [] Ej. split; cbn; rewrite ?(wsum_insert _ _ _ _ _ Ej); cbn; try done; try lia; try field.
  intros t'. rewrite (wsum_insert _ _ _ _ _ Ej), occurs_snoc, i_tasks0. cbn. lia.
Qed.

Lemma inv_leave p j choice p' : inv p -> workers p !! j = Some W_leaving -> worker_step j choice p = Some p' -> inv p'.
Proof.
  intros [] Ej H. unfold worker_step in H. rewrite Ej in H. injection H as <-.
  pose proof (w_facts (workers p)). pose proof (w_at _ _ _ Ej) as Hj. pose proof (s_facts (submitters p)). cbn in Hj.
  split; destruct (shut p) eqn:Es; cbn; rewrite ?Es, ?(wsum_insert _ _ _ _ _ Ej); cbn; try done; try lia; try field.
  - by destruct i_shut0.
  - destruct i_shut0 as [Hc Hn]. specialize (i_closed0 Hc). lia.
Qed.

Lemma inv_worker_step p j choice p' : inv p -> worker_step j choice p = Some p' -> inv p'.
Proof.
  intros Hi H. destruct (workers p !! j) as [w|] eqn:Ej; [|unfold worker_step in H; by rewrite Ej in H].
  destruct w as [| | |waiting|o|t| |].
  - unfold worker_step in H. rewrite Ej in H. injection H as <-. apply (inv_worker _ _ _ _ Hi Ej); by case_match.
  - by eapply inv_exchange.
  - unfold worker_step in H. rewrite Ej in H. injection H as <-. by eapply (inv_idle p j W_idle).
  - unfold worker_step in H. rewrite Ej in H. destruct waiting; [done|]. unfold dequeue in H.
    destruct (q_items (workq p)) as [|t l] eqn:Eq.
    + destruct (is_closed (workq p)) eqn:Ec; injection H as <-; [by apply inv_told|by apply inv_waits].
    + destruct (notify_one s_waits s_wake choice (submitters p)) as [ss|] eqn:En; [|done]. injection H as <-. by eapply inv_took.
  - unfold worker_step in H. rewrite Ej in H. injection H as <-. destruct o as [t|];
      [by eapply (inv_idle p j (W_busy (Some t)) (W_running t) (-1))|by eapply (inv_idle p j (W_busy None) W_leaving (-1))].
  - unfold worker_step in H. rewrite Ej in H. injection H as <-. by apply inv_ran.
  - by eapply inv_leave.
  - unfold worker_step in H. by rewrite Ej in H.
Qed.

(** *** Steps of a submitter *)

(** Where some thread will take what is queued. *)
Definition alive (p : pool) : Prop :=
  accepted p = [] \/ failed p = true \/ 0 < wsum w_active (workers p) \/ (is_closed (workq p) = true /\ q_items (workq p) = []).

Lemma inv_submitter p i s s' : inv p -> submitters p !! i = Some s -> s_waiting s' = s_waiting s -> s_ready s' = s_ready s ->
  s_ndet s' = s_ndet s -> s_nth s' = s_nth s -> s_counting s' = s_counting s -> s_starting s' <= s_starting s ->
  (s_starting s' = s_starting s \/ alive p) -> inv (with_submitter i s' p).
Proof.
  intros [] Ei H1 H2 H3 H4 H5 H6 Ha. pose proof (s_nonneg s'). pose proof (s_at _ _ _ Ei). pose proof (s_facts (submitters p)).
  split; cbn; rewrite ?(wsum_insert _ _ _ _ _ Ei), ?H1, ?H2, ?H3, ?H4, ?H5; try done; try lia.
  - destruct i_wake_s0 as [|[]]; [left; lia|right; split; [done|lia]].
  - destruct i_nth0; [left; lia|by right].
  - destruct Ha as [-> |[Ha|[Ha|[Ha|Ha]]]]; [|by left|by right; left|by right; right; left|by right; right; right; left].
    alive i_alive0.
  - intros Hc. specialize (i_closed0 Hc). lia.
Qed.

Lemma inv_refused p i t : inv p -> submitters p !! i = Some (S_enqueue t false) -> is_closed (workq p) = true ->
  inv (with_submitter i (S_returned false) p).
Proof.
  intros [] Ei Hc. split; cbn; rewrite ?(wsum_insert _ _ _ _ _ Ei); cbn; try done; try lia.
  - destruct i_wake_s0 as [|[]]; [left; lia|congruence].
  - destruct i_nth0; [left; lia|by right].
  - alive i_alive0.
  - intros _. specialize (i_closed0 Hc). lia.
Qed.
Lemma inv_full p i t : inv p -> submitters p !! i = Some (S_enqueue t false) -> is_closed (workq p) = false ->
  capacity (workq p) <= zlen (q_items (workq p)) -> inv (with_submitter i (S_enqueue t true) p).
Proof.
  intros [] Ei Hc Hf. pose proof (s_at _ _ _ Ei) as Hi. cbn in Hi.
  split; cbn; rewrite ?(wsum_insert _ _ _ _ _ Ei); cbn; try done; try lia; try (rewrite Hc; done).
  - right. split; [done|lia].
  - destruct i_nth0; [left; lia|by right].
  - alive i_alive0.
Qed.

Lemma inv_accepted p i t ws choice : inv p -> submitters p !! i = Some (S_enqueue t false) -> is_closed (workq p) = false ->
  zlen (q_items (workq p)) < capacity (workq p) -> notify_one w_waits w_wake choice (workers p) = Some ws ->
  inv (Pool (nthreadmax p) (nidlemax p) (Queue (q_items (workq p) ++ [t]) (is_closed (workq p)) (capacity (workq p)))
         (nth p) (nidl p) (ndet p) (th_hwm p) ws (<[i := S_nidl]> (submitters p))
         (shut p) (accepted p ++ [t]) (taken p) (ran p) (failed p)).
Proof.
  intros [] Ei Hc Hf En. pose proof (s_at _ _ _ Ei) as Hi. cbn in Hi. pose proof (s_nonneg S_nidl).
  apply e_wake_workers in En as (Hh & (d & Hd & Hd0 & Hwa & Hre) & H1 & H2 & H3 & H4 & H5). pose proof (w_facts ws).
  pose proof (wsum_nonneg s_starting (submitters p) ltac:(intros x; apply (s_nonneg x))).
  split; cbn; rewrite ?(wsum_insert _ _ _ _ _ Ei), ?H1, ?H2, ?H3, ?H4, ?zlen_snoc; cbn; try done; try lia.
  - by rewrite i_fifo0, app_assoc.
  - intros t'. by rewrite Hh.
  - destruct (Z.eq_dec d 0), i_wake0 as [Hw|[_ Hw]]; [left; lia|left; lia|left; lia|right; split; [done|lia]].
  - destruct i_wake_s0 as [|[]]; [left; lia|right; split; [done|lia]].
  - destruct i_told0 as [|[]]; [by left|congruence].
  - destruct i_nth0 as [|[]]; [left; lia|congruence].
  - rewrite Hc. discriminate.
Qed.

Lemma inv_started p i : inv p -> submitters p !! i = Some S_start ->
  inv (Pool (nthreadmax p) (nidlemax p) (workq p) (nth p) (nidl p) (ndet p) (th_hwm p) (workers p ++ [W_check])
         (<[i := S_ndet]> (submitters p)) (shut p) (accepted p) (taken p) (ran p) (failed p)).
Proof.
  intros [] Ei. pose proof (s_at _ _ _ Ei) as Hi. cbn in Hi. pose proof (w_facts (workers p)).
  split; cbn; rewrite ?(wsum_insert _ _ _ _ _ Ei), ?wsum_app; cbn; try done; try lia.
  - intros t. rewrite wsum_app, i_tasks0. cbn. lia.
  - destruct i_wake0 as [|[]]; [left; lia|right; split; [done|lia]].
  - destruct i_wake_s0 as [|[]]; [left; lia|right; split; [done|lia]].
  - destruct i_told0; [left; lia|by right].
  - destruct i_nth0; [left; lia|by right].
  - intros Hc. specialize (i_closed0 Hc). lia.
Qed.
Lemma inv_start_failed p i : inv p -> submitters p !! i = Some S_start ->
  inv (Pool (nthreadmax p) (nidlemax p) (workq p) (nth p) (nidl p) (ndet p) (th_hwm p) (workers p)
         (<[i := S_returned true]> (submitters p)) (shut p) (accepted p) (taken p) (ran p) true).
Proof.
  intros [] Ei. pose proof (s_at _ _ _ Ei) as Hi. cbn in Hi. split; cbn; rewrite ?(wsum_insert _ _ _ _ _ Ei); cbn; try done; try lia.
  - destruct i_wake_s0 as [|[]]; [left; lia|right; split; [done|lia]].
  - destruct i_nth0; [left; lia|by right].
  - intros Hc. specialize (i_closed0 Hc). lia.
Qed.

(** The three steps that count a thread that was started. *)
Lemma inv_counts p i s s' dn dd h : inv p -> submitters p !! i = Some s -> 0 < s_counting s ->
  s_waiting s' = s_waiting s -> s_ready s' = s_ready s -> s_starting s' = s_starting s -> s_counting s' <= s_counting s ->
  s_ndet s' = s_ndet s - dd -> s_nth s' = s_nth s - dn ->
  inv (Pool (nthreadmax p) (nidlemax p) (workq p) (nth p + dn) (nidl p) (ndet p + dd) h (workers p) (<[i := s']> (submitters p))
         (shut p) (accepted p) (taken p) (ran p) (failed p)).
Proof.
  intros [] Ei Hpos H1 H2 H3 H4 H5 H6. pose proof (s_at _ _ _ Ei) as Hi. pose proof (s_nonneg s').
  pose proof (wsum_nonneg s_starting (submitters p) ltac:(intros x; apply (s_nonneg x))).
  assert (is_closed (workq p) = false) as Hc by (destruct (is_closed (workq p)); [specialize (i_closed0 eq_refl); lia|done]).
  split; cbn; rewrite ?(wsum_insert _ _ _ _ _ Ei), ?H1, ?H2, ?H3, ?H5, ?H6, ?Hc; try done; try lia; rewrite Hc in *.
  - destruct i_told0 as [|[]]; [by left|done].
  - destruct i_nth0 as [|[]]; [left; lia|done].
  - destruct i_alive0 as [Ha|[Ha|[Ha|[[] |Ha]]]]; [by left|by right; left|right; right; left; lia|done|right; right; right; right; lia].
  - destruct (shut p); [done| |]; by destruct i_shut0.
Qed.

Lemma inv_submitter_step p i choice started p' : inv p -> submitter_step i choice started p = Some p' -> inv p'.
Proof.
  intros Hi H. pose proof (i_args _ Hi) as Hmax. unfold submitter_step in H. destruct (submitters p !! i) as [s|] eqn:Ei; [|done].
  pose proof (w_facts (workers p)). pose proof (s_facts (submitters p)). pose proof (i_told _ Hi) as Ht. pose proof (i_nth _ Hi) as Hn.
  pose proof (i_nidl _ Hi). destruct s as [t []| | | | | |n|]; try done.
  - unfold enqueue in H. destruct (is_closed (workq p)) eqn:Ec.
    + rewrite andb_false_r in H. injection H as <-. by eapply inv_refused.
    + rewrite andb_true_r in H. destruct (Z.leb_spec (capacity (workq p)) (zlen (q_items (workq p)))).
      * injection H as <-. by eapply inv_full.
      * destruct (notify_one w_waits w_wake choice (workers p)) as [ws|] eqn:En; [|done]. injection H as <-.
        rewrite <- Ec at 1. by eapply inv_accepted.
  - injection H as <-. destruct (Z.ltb_spec 0 (nidl p)); apply (inv_submitter _ _ _ _ Hi Ei); cbn; try done; [|by left].
    right. unfold alive. destruct Ht as [|He]; [|by right; right; right]. right; right; left. lia.
  - injection H as <-. destruct (Z.leb_spec (nthreadmax p) (nth p)); apply (inv_submitter _ _ _ _ Hi Ei); cbn; try done; [|by left].
    right. unfold alive. destruct Hn as [|He]; [|by right; right; right]. right; right; left. lia.
  - destruct started; injection H as <-; [by apply inv_started|by apply inv_start_failed].
  - injection H as <-. pose proof (inv_counts p i S_ndet S_count 0 1 (th_hwm p) Hi Ei) as G. rewrite Z.add_0_r in G. by apply G.
  - injection H as <-. pose proof (inv_counts p i S_count (S_max (nth p + 1)) 1 0 (th_hwm p) Hi Ei) as G. rewrite Z.add_0_r in G. by apply G.
  - injection H as <-. pose proof (inv_counts p i (S_max n) (S_returned true) 0 0 (Z.max (th_hwm p) n) Hi Ei) as G.
    rewrite !Z.add_0_r in G. by apply G.
Qed.

(** A shutdown begins when no submission is under way. *)
Lemma returned_weights ss : forallb returned ss = true ->
  wsum s_starting ss = 0 /\ wsum s_counting ss = 0 /\ wsum s_waiting ss = 0.
Proof.
  induction ss as [|s ss IH]; [done|]. cbn. intros [Hs Hr]%andb_prop. apply IH in Hr as (-> & -> & ->). by destruct s.
Qed.
Lemma inv_shutdown p p' : inv p -> step L_shutdown p = Some p' -> inv p'.
Proof.
  intros [] H. cbn [step] in H. destruct (shut p) eqn:Es; [|done..]. destruct (forallb returned (submitters p)) eqn:Er; [|done].
  injection H as <-. destruct (returned_weights _ Er) as (H1 & H2 & H3).
  assert (forall f : submitter -> Z, (forall s, f (s_wake s) = f s) -> wsum f (notify_all s_wake (submitters p)) = wsum f (submitters p)) as Hss.
  { intros f Hf. unfold notify_all. rewrite wsum_map. by apply wsum_ext. }
  assert (forall f : worker -> Z, (forall w, f (w_wake w) = f w) -> wsum f (notify_all w_wake (workers p)) = wsum f (workers p)) as Hws.
  { intros f Hf. unfold notify_all. rewrite wsum_map. by apply wsum_ext. }
  split; cbn; rewrite ?(Hss s_ndet), ?(Hss s_nth), ?(Hss s_starting), ?(Hss s_counting), ?(Hws w_counted_idle), ?(Hws w_live),
    ?(Hws w_told), ?(Hws w_active) by (by intros []); try done.
  - intros t. rewrite (Hws (hand t)) by (by intros []). apply i_tasks0.
  - left. unfold notify_all. rewrite wsum_map. apply wsum_zero. by intros [].
  - left. unfold notify_all. rewrite wsum_map. apply wsum_zero. by intros [].
  - destruct i_told0 as [|[]]; [by left|congruence].
  - destruct i_nth0 as [|[]]; [by left|congruence].
  - destruct i_alive0 as [|[|[|[[]|]]]]; [by left|by right; left|by right; right; left|congruence|lia].
  - lia.
Qed.

Lemma inv_wait p p' : inv p -> step L_wait p = Some p' -> inv p'.
Proof.
  intros Hi H. cbn [step] in H. destruct (shut p) as [|[]|] eqn:Es; try done. injection H as <-.
  pose proof (i_shut _ Hi) as Hd. rewrite Es in Hd. destruct Hi. split; cbn; try done.
  destruct (Z.eqb_spec (ndet p) 0); [by destruct Hd|]. split; [by destruct Hd|done].
Qed.

Lemma inv_wake_worker p j : inv p -> workers p !! j = Some (W_dequeue true) -> inv (with_worker j (W_dequeue false) p).
Proof.
  intros [] Ej. pose proof (w_at _ _ _ Ej) as Hj. cbn in Hj.
  split; cbn; rewrite ?(wsum_insert _ _ _ _ _ Ej); cbn; try done; try lia; try field.
Qed.
Lemma inv_wake_submitter p i t : inv p -> submitters p !! i = Some (S_enqueue t true) -> inv (with_submitter i (S_enqueue t false) p).
Proof.
  intros [] Ei. pose proof (s_at _ _ _ Ei) as Hi. cbn in Hi. split; cbn; rewrite ?(wsum_insert _ _ _ _ _ Ei); cbn; try done; try lia.
  - destruct i_wake_s0 as [|[]]; [left; lia|right; split; [done|lia]].
  - destruct i_nth0; [left; lia|by right].
  - alive i_alive0.
  - intros Hc. specialize (i_closed0 Hc). lia.
Qed.

Lemma e_inv_step l p p' : inv p -> step l p = Some p' -> inv p'.
Proof.
  intros Hi H. destruct l as [t|i choice started|j choice| | |j|i|].
  - cbn [step] in H. injection H as <-. destruct Hi. split; cbn; rewrite ?wsum_app; cbn; try done; try lia.
    + destruct i_wake_s0 as [|[]]; [left; lia|right; split; [done|lia]].
    + destruct i_nth0; [left; lia|by right].
    + alive i_alive0.
    + intros Hc. specialize (i_closed0 Hc). lia.
  - by eapply inv_submitter_step.
  - by eapply inv_worker_step.
  - by eapply inv_shutdown.
  - by eapply inv_wait.
  - cbn [step] in H. destruct (workers p !! j) as [w|] eqn:Ej; [|done]. injection H as <-.
    destruct w as [| | |[]|o|t| |]; cbn [w_wake]; try (by apply (inv_worker _ _ _ _ Hi Ej)).
    by apply inv_wake_worker.
  - cbn [step] in H. destruct (submitters p !! i) as [s|] eqn:Ei; [|done]. injection H as <-.
    destruct s as [t []| | | | | | |]; cbn [s_wake]; try (apply (inv_submitter _ _ _ _ Hi Ei); cbn; done || by left).
    by eapply inv_wake_submitter.
  - cbn [step] in H. destruct (shut p) as [|b|] eqn:Es; try done. injection H as <-.
    pose proof (i_shut _ Hi) as Hd. rewrite Es in Hd. destruct Hi, Hd. split; cbn; try done.
Qed.
Lemma e_inv_run ls p p' : inv p -> run ls p = Some p' -> inv p'.
Proof.
  revert p. induction ls as [|l ls IH]; intros p Hi H; [by injection H as <-|]. cbn [run] in H.
  destruct (step l p) as [p1|] eqn:E; [|discriminate]. apply (IH p1); [by eapply e_inv_step|done].
Qed.
Lemma e_inv_ctor nmax nidle p : elastic_threadpool nmax nidle = Ret p -> inv p.
Proof.
  unfold elastic_threadpool. destruct (Z.leb_spec nidle 0), (Z.ltb_spec nmax nidle); try done. intros [= <-].
  split; cbn; try done; try (by left).
Qed.
Lemma step_max l p p' : step l p = Some p' -> nthreadmax p' = nthreadmax p.
Proof.
  intros H. destruct l; cbn [step] in H; unfold submitter_step, worker_step, enqueue, dequeue, mbind, option_bind in H;
    repeat case_match; by simplify_eq.
Qed.

(** *** What the invariant gives at the end *)

Lemma e_all_ran p : inv p -> q_items (workq p) = [] -> (forall t, wsum (hand t) (workers p) = 0) -> ran p ≡ₚ accepted p.
Proof.
  intros Hi Hq Hw. apply occurs_perm. intros t. rewrite (i_fifo _ Hi), Hq, app_nil_r, (i_tasks _ Hi t), Hw. lia.
Qed.
Lemma none_live p t : inv p -> wsum w_live (workers p) = 0 -> wsum (hand t) (workers p) = 0.
Proof.
  intros Hi Hl. apply Z.le_antisymm; [|apply wsum_nonneg, e_hand_nonneg]. rewrite <- Hl. apply wsum_le.
  intros [| | | |[t'|]|t'| |]; cbn; try lia; by destruct (t' =? t).
Qed.

(** C19.  In every interleaving of submitters, workers and the shutdown: tasks
    are taken in the order in which they were accepted, each once, and each
    that was taken is run or has been, once; and when [shutdown] has returned,
    no thread of the pool is left and all that was taken has run, which is all
    that was accepted unless a thread could not be started. *)
Theorem elastic_shutdown_drains nmax nidle p0 ls p :
  elastic_threadpool nmax nidle = Ret p0 -> run ls p0 = Some p ->
  accepted p = taken p ++ q_items (workq p)
  /\ (forall t, occurs t (taken p) = occurs t (ran p) + wsum (hand t) (workers p))
  /\ (shut p = D_returned ->
      (forall j w, workers p !! j = Some w -> w = W_gone) /\ ran p ≡ₚ taken p
      /\ (failed p = false -> ran p ≡ₚ accepted p)).
Proof.
  intros H0 H. pose proof (e_inv_run _ _ _ (e_inv_ctor _ _ _ H0) H) as Hi. pose proof Hi as [].
  split_and!; [done|done|]. intros Es. rewrite Es in i_shut0. destruct i_shut0 as [Hc Hn].
  specialize (i_closed0 Hc). pose proof (s_facts (submitters p)). pose proof (w_facts (workers p)).
  pose proof (wsum_nonneg s_starting (submitters p) ltac:(intros x; apply (s_nonneg x))).
  assert (wsum w_live (workers p) = 0) as Hl by lia.
  split_and!.
  - intros j w Hj. pose proof (w_at _ _ _ Hj) as Hw. destruct w; cbn in Hw; try lia. done.
  - apply occurs_perm. intros t. rewrite (i_tasks0 t), (none_live _ _ Hi Hl). lia.
  - intros Hf. apply e_all_ran; [done| |intros t; by apply none_live].
    destruct i_alive0 as [Ha|[Ha|[Ha|[[_ Ha]|Ha]]]]; [|congruence|lia|done|lia].
    rewrite Ha in i_fifo0. symmetry in i_fifo0. by apply app_nil in i_fifo0 as [_ ?].
Qed.

(** *** Nothing enabled *)

Definition stuck (p : pool) : Prop := forall l, thread_step l = true -> step l p = None.

Lemma e_stuck_workers p j w : stuck p -> workers p !! j = Some w -> w = W_dequeue true \/ w = W_gone.
Proof.
  intros Hs Hj. destruct w as [| | |[]|o|t| |]; try (by left); try (by right); exfalso.
  all: destruct (notify_one_enabled s_waits s_wake (submitters p)) as (choice & ss & En).
  all: specialize (Hs (L_worker j choice) eq_refl); cbn [step] in Hs; unfold worker_step in Hs; rewrite Hj in Hs; try discriminate.
  unfold dequeue in Hs. destruct (q_items (workq p)); [by destruct (negb _)|]. by rewrite En in Hs.
Qed.
Lemma e_stuck_submitters p i s : stuck p -> submitters p !! i = Some s -> (exists t, s = S_enqueue t true) \/ exists ok, s = S_returned ok.
Proof.
  intros Hs Hi. destruct s as [t []| | | | | |n|ok]; try (left; by eauto); try (right; by eauto); exfalso.
  all: destruct (notify_one_enabled w_waits w_wake (workers p)) as (choice & ws & En).
  all: specialize (Hs (L_submitter i choice true) eq_refl); cbn [step] in Hs; unfold submitter_step in Hs; rewrite Hi in Hs;
    try discriminate.
  unfold enqueue in Hs. destruct (_ && negb _); [discriminate|]. destruct (is_closed (workq p)); [discriminate|]. by rewrite En in Hs.
Qed.

(** What a pool with no step weighs. *)
Lemma stuck_weights p : stuck p -> wsum w_ready (workers p) = 0 /\ (forall t, wsum (hand t) (workers p) = 0)
  /\ wsum w_active (workers p) = wsum w_waiting (workers p) /\ wsum w_live (workers p) = wsum w_waiting (workers p)
  /\ wsum s_ready (submitters p) = 0 /\ wsum s_starting (submitters p) = 0 /\ wsum s_counting (submitters p) = 0.
Proof.
  intros Hs. assert (forall f g : worker -> Z, f (W_dequeue true) = g (W_dequeue true) -> f W_gone = g W_gone ->
    wsum f (workers p) = wsum g (workers p)) as Hw.
  { intros f g H1 H2. pose proof (fun j w => e_stuck_workers p j w Hs) as Hws. clear Hs. induction (workers p) as [|w ws IH]; [done|]. cbn.
    rewrite IH by (intros j; apply (Hws (S j))). by destruct (Hws 0%nat w eq_refl) as [-> | ->]; rewrite ?H1, ?H2. }
  split_and!; try (by apply Hw); try (etransitivity; [apply (Hw _ (fun _ => 0)); done|by apply wsum_zero]).
  all: apply wsum_all_zero; intros i s Hi; by destruct (e_stuck_submitters _ _ _ Hs Hi) as [[? ->]|[? ->]].
Qed.

(** C18.  Whatever the races on the counters, in every state a pool can reach in
    which threads could be started: if no thread can go on by itself, no task
    is queued or running, every submission has returned, every accepted task
    has run, and a shutdown that has begun has returned. *)
Theorem elastic_never_stuck nmax nidle p0 ls p :
  elastic_threadpool nmax nidle = Ret p0 -> run ls p0 = Some p -> failed p = false ->
  (forall l, thread_step l = true -> step l p = None) ->
  q_items (workq p) = [] /\ (forall i s, submitters p !! i = Some s -> exists ok, s = S_returned ok)
  /\ ran p ≡ₚ accepted p /\ (shut p = D_running \/ shut p = D_returned).
Proof.
  intros H0 H Hf Hs. pose proof (e_inv_run _ _ _ (e_inv_ctor _ _ _ H0) H) as Hi. pose proof Hi as [].
  destruct (stuck_weights p Hs) as (W1 & W2 & W3 & W4 & W5 & W6 & W7). pose proof (s_facts (submitters p)).
  pose proof (w_facts (workers p)). pose proof (zlen_nonneg (q_items (workq p))).
  assert (q_items (workq p) = []) as Hq.
  { destruct i_alive0 as [Ha|[Ha|[Ha|[[_ Ha]|Ha]]]]; [|congruence| |done|lia].
    - rewrite Ha in i_fifo0. symmetry in i_fifo0. by apply app_nil in i_fifo0 as [_ ?].
    - destruct i_wake0 as [|[_ Hz]]; [lia|]. destruct (q_items (workq p)) as [|t l]; [done|]. rewrite zlen_cons in Hz.
      pose proof (zlen_nonneg l). lia. }
  split_and!; [done| |by apply e_all_ran|].
  - intros i s Hi'. destruct (e_stuck_submitters _ _ _ Hs Hi') as [[t ->]|]; [|done].
    pose proof (s_at _ _ _ Hi') as Hp. cbn in Hp. rewrite Hq in i_wake_s0. change (zlen (@nil Z)) with 0 in i_wake_s0.
    destruct i_wake_s0; lia.
  - specialize (Hs L_wait eq_refl). cbn [step] in Hs. destruct (shut p) as [|[]|]; [by left| |discriminate|by right].
    destruct i_shut0 as [Hc Hn]. destruct i_wake0 as [Hw|[]]; [|congruence]. destruct (Hn eq_refl). lia.
Qed.

(** *** One submission at a time *)

Definition s_unreturned (s : submitter) : Z := match s with S_returned _ => 0 | _ => 1 end.

Record serial (p : pool) : Prop := {
  e_one : wsum s_unreturned (submitters p) <= 1;
  e_counted : wsum w_active (workers p) + wsum w_told (workers p) <= nth p + wsum s_nth (submitters p);
  e_limit : nth p + wsum s_nth (submitters p) + wsum s_start (submitters p) <= nthreadmax p;
  e_exchange : wsum w_exchange (workers p) = 0 \/ 1 <= nth p
}.

Lemma unreturned_facts ss : wsum s_nth ss + wsum s_start ss <= wsum s_unreturned ss /\ 0 <= wsum s_unreturned ss.
Proof.
  split; [|apply wsum_nonneg; by intros []]. induction ss as [|s ss IH]; cbn; [lia|].
  destruct s as [? []| | | | | | |]; cbn; lia.
Qed.
Lemma unreturned_at ss i s : ss !! i = Some s -> s_unreturned s <= wsum s_unreturned ss.
Proof. intros H. apply (wsum_lookup _ _ i _); [by intros []|done]. Qed.

Lemma serial_worker_step p j choice p' : inv p -> serial p -> worker_step j choice p = Some p' -> serial p'.
Proof.
  intros Hi [] H. pose proof (w_facts (workers p)). pose proof (i_args _ Hi). pose proof (i_nidl _ Hi).
  pose proof (unreturned_facts (submitters p)). pose proof (s_facts (submitters p)).
  unfold worker_step in H. destruct (workers p !! j) as [w|] eqn:Ej; [|done]. pose proof (w_at _ _ _ Ej) as Hj.
  destruct w as [| | |[]|o|t| |]; cbn in Hj; try done.
  - (* the threads counted as idle are others *)
    pose proof (w_facts (<[j := W_gone]> (workers p))) as Hg. rewrite !(wsum_insert _ _ _ _ _ Ej) in Hg. cbn in Hg.
    injection H as <-. destruct (Z.ltb_spec (nidl p) (nidlemax p)); split; cbn; rewrite ?(wsum_insert _ _ _ _ _ Ej); cbn; try done; lia.
  - injection H as <-. destruct (Z.eqb_spec (nth p - 1) 0), (Z.ltb_spec 1 (nth p));
      split; cbn; rewrite ?(wsum_insert _ _ _ _ _ Ej); cbn; try done; lia.
  - injection H as <-. split; cbn; rewrite ?(wsum_insert _ _ _ _ _ Ej); cbn; try done; lia.
  - unfold dequeue in H. destruct (q_items (workq p)) as [|t l].
    + destruct (is_closed (workq p)); injection H as <-; split; cbn; rewrite ?(wsum_insert _ _ _ _ _ Ej); cbn; try done; lia.
    + destruct (notify_one s_waits s_wake choice (submitters p)) as [ss|] eqn:En; [|done]. injection H as <-.
      assert (wsum s_unreturned ss = wsum s_unreturned (submitters p)) as Hu by (eapply notify_one_same; [exact En|]; by intros []).
      apply e_wake_submitters in En as (_ & _ & Hst & _ & Hnt & _).
      split; cbn; rewrite ?(wsum_insert _ _ _ _ _ Ej), ?Hu, ?Hst, ?Hnt; cbn; try done; lia.
  - injection H as <-. destruct o; split; cbn; rewrite ?(wsum_insert _ _ _ _ _ Ej); cbn; try done; lia.
  - injection H as <-. split; cbn; rewrite ?(wsum_insert _ _ _ _ _ Ej); cbn; try done; lia.
  - injection H as <-. destruct (shut p); split; cbn; rewrite ?(wsum_insert _ _ _ _ _ Ej); cbn; try done; lia.
Qed.

Lemma serial_submitter_step p i choice started p' : serial p -> submitter_step i choice started p = Some p' -> serial p'.
Proof.
  intros [] H. pose proof (unreturned_facts (submitters p)). pose proof (s_facts (submitters p)).
  unfold submitter_step in H. destruct (submitters p !! i) as [s|] eqn:Ei; [|done].
  pose proof (s_at _ _ _ Ei) as Hi. pose proof (unreturned_at _ _ _ Ei) as Hu.
  destruct s as [t []| | | | | |n|]; cbn in Hi, Hu; try done.
  - unfold enqueue in H. destruct (_ && negb _).
    + injection H as <-. split; cbn; rewrite ?(wsum_insert _ _ _ _ _ Ei); cbn; try done; lia.
    + destruct (is_closed (workq p)).
      * injection H as <-. split; cbn; rewrite ?(wsum_insert _ _ _ _ _ Ei); cbn; try done; lia.
      * destruct (notify_one w_waits w_wake choice (workers p)) as [ws|] eqn:En; [|done]. injection H as <-.
        apply e_wake_workers in En as (_ & _ & _ & _ & Hac & Hto & Hex).
        split; cbn; rewrite ?(wsum_insert _ _ _ _ _ Ei), ?Hac, ?Hto, ?Hex; cbn; try done; lia.
  - injection H as <-. destruct (0 <? nidl p); split; cbn; rewrite ?(wsum_insert _ _ _ _ _ Ei); cbn; try done; lia.
  - (* no other is about to start or to count a thread *)
    pose proof (unreturned_facts (<[i := S_returned true]> (submitters p))) as Hg. rewrite !(wsum_insert _ _ _ _ _ Ei) in Hg. cbn in Hg.
    pose proof (wsum_nonneg s_nth (submitters p) ltac:(intros x; apply (s_nonneg x))).
    injection H as <-. destruct (Z.leb_spec (nthreadmax p) (nth p)); split; cbn; rewrite ?(wsum_insert _ _ _ _ _ Ei); cbn; try done; lia.
  - destruct started; injection H as <-; split; cbn; rewrite ?(wsum_insert _ _ _ _ _ Ei), ?wsum_app; cbn; try done; lia.
  - injection H as <-. split; cbn; rewrite ?(wsum_insert _ _ _ _ _ Ei); cbn; try done; lia.
  - injection H as <-. split; cbn; rewrite ?(wsum_insert _ _ _ _ _ Ei); cbn; try done; lia.
  - injection H as <-. split; cbn; rewrite ?(wsum_insert _ _ _ _ _ Ei); cbn; try done; lia.
Qed.

Lemma serial_step l p p' : inv p -> serial p -> (forall t, l = L_submit t -> forallb returned (submitters p) = true) ->
  step l p = Some p' -> serial p'.
Proof.
  intros Hi Hs Hl H. destruct l as [t|i choice started|j choice| | |j|i|]; cbn [step] in H.
  - injection H as <-. specialize (Hl t eq_refl). destruct (returned_weights _ Hl) as (H1 & H2 & H3).
    assert (wsum s_unreturned (submitters p) = 0) as Hu.
    { clear - Hl. induction (submitters p) as [|s ss IH]; [done|]. cbn in *. apply andb_prop in Hl as [Hs Hl]. rewrite (IH Hl). by destruct s. }
    destruct Hs. split; cbn; rewrite ?wsum_app; cbn; try done; lia.
  - by eapply serial_submitter_step.
  - by eapply serial_worker_step.
  - destruct (shut p); try done. destruct (forallb returned (submitters p)) eqn:Er; [|done]. injection H as <-.
    destruct Hs. split; cbn; unfold notify_all; rewrite ?wsum_map.
    + by rewrite (wsum_ext _ s_unreturned) by (by intros []).
    + by rewrite (wsum_ext (fun x => w_active _) w_active), (wsum_ext (fun x => w_told _) w_told), (wsum_ext (fun x => s_nth _) s_nth) by (by intros []).
    + by rewrite (wsum_ext (fun x => s_nth _) s_nth), (wsum_ext (fun x => s_start _) s_start) by (by intros []).
    + by rewrite (wsum_ext (fun x => w_exchange _) w_exchange) by (by intros []).
  - destruct (shut p) as [|[]|]; try done. injection H as <-. by destruct Hs.
  - destruct (workers p !! j) as [w|] eqn:Ej; [|done]. injection H as <-. destruct Hs.
    split; cbn; rewrite ?(wsum_insert _ _ _ _ _ Ej); destruct w; cbn; try done; lia.
  - destruct (submitters p !! i) as [s|] eqn:Ei; [|done]. injection H as <-. destruct Hs.
    split; cbn; rewrite ?(wsum_insert _ _ _ _ _ Ei); destruct s; cbn; try done; lia.
  - destruct (shut p); try done; injection H as <-; by destruct Hs.
Qed.

Lemma run_serial_serial ls p p' : inv p -> serial p -> run_serial ls p = Some p' -> serial p' /\ nthreadmax p' = nthreadmax p.
Proof.
  revert p. induction ls as [|l ls IH]; intros p Hi Hs H; [by injection H as <-|].
  assert (exists p1, step l p = Some p1 /\ run_serial ls p1 = Some p'
          /\ forall t, l = L_submit t -> forallb returned (submitters p) = true) as (p1 & E & Hr & Hl).
  { destruct l; cbn [run_serial] in H; try (destruct (step _ p) as [p1|] eqn:E; [|discriminate]; by exists p1).
    destruct (forallb returned (submitters p)); [|discriminate]. by eexists. }
  rewrite <- (step_max _ _ _ E). apply IH; [by eapply e_inv_step|by eapply serial_step|done].
Qed.

(** With submissions that do not overlap, whatever else is interleaved,
    the counter of threads and the number of workers that are not about to end
    stay within the limit the pool was made with. *)
Theorem elastic_within_limit nmax nidle p0 ls p :
  elastic_threadpool nmax nidle = Ret p0 -> run_serial ls p0 = Some p ->
  nth p <= nmax /\ wsum w_active (workers p) <= nmax.
Proof.
  intros H0 H. pose proof (e_inv_ctor _ _ _ H0) as Hi. unfold elastic_threadpool in H0.
  destruct (Z.leb_spec nidle 0), (Z.ltb_spec nmax nidle); try discriminate. injection H0 as <-.
  apply run_serial_serial in H as [[] Hm]; [|done|split; cbn; try done; lia || by left].
  cbn in Hm. pose proof (s_facts (submitters p)). pose proof (w_facts (workers p)). lia.
Qed.

(** ** Runs *)

Definition ex_pool (nmax nidle : Z) : pool :=
  match elastic_threadpool nmax nidle with Ret p => p | _ => Pool 0 0 (queue_ctor 0) 0 0 0 0 [] [] D_running [] [] [] false end.
Definition after (nmax nidle : Z) (ls : list label) : pool := default (ex_pool 0 0) (run ls (ex_pool nmax nidle)).
Definition steps_of (i n : nat) : list label := replicate n (L_submitter i 0 true).
Definition work_of (j n : nat) : list label := replicate n (L_worker j 0).

(** One submission, its worker until it waits again, a second submission that
    wakes it, and the shutdown. *)
Definition ex_run : list label :=
  [L_submit 7] ++ steps_of 0 7 ++ work_of 0 8 ++ [L_submit 8] ++ steps_of 1 2 ++ work_of 0 6 ++ [L_shutdown; L_wait]
  ++ work_of 0 3 ++ [L_wait].
Example ex_seen : (workers (after 1 1 ex_run), ran (after 1 1 ex_run), shut (after 1 1 ex_run)) = ([W_gone], [7; 8], D_returned).
Proof. vm_compute. done. Qed.

(** Two submissions that overlap start two threads where one is allowed. *)
Example two_over_the_limit :
  let p := after 1 1 ([L_submit 7; L_submit 8] ++ steps_of 0 3 ++ steps_of 1 3 ++ steps_of 0 4 ++ steps_of 1 4) in
  (nthreadmax p, nth p, th_hwm p, workers p) = (1, 2, 2, [W_check; W_check]).
Proof. vm_compute. done. Qed.
(** And a thread that looks at [nth] before it has been counted makes it
    negative. *)
Example below_zero :
  nth (after 2 1 ([L_submit 7; L_submit 8] ++ steps_of 0 4 ++ steps_of 1 4 ++ work_of 0 2 ++ work_of 1 2)) = -1.
Proof. vm_compute. done. Qed.
(** The thread that took 8 still counts as idle when 9 is submitted, so that
    no thread is started for 9, with one of nine running. *)
Example waits_behind :
  let p := after 9 1 ([L_submit 7] ++ steps_of 0 7 ++ work_of 0 8 ++ [L_submit 8] ++ steps_of 1 2 ++ [L_submit 9] ++ steps_of 2 2
                        ++ work_of 0 2) in
  (workers p, submitters p !! 2%nat, q_items (workq p)) = ([W_running 8], Some (S_returned true), [9]).
Proof. vm_compute. done. Qed.
(** If the only thread cannot be started, the shutdown returns with the task
    in the queue. *)
Definition ex_failed : pool := after 1 1 ([L_submit 7] ++ steps_of 0 3 ++ [L_submitter 0 0 false; L_shutdown; L_wait]).
Example undrained : (shut ex_failed, failed ex_failed, accepted ex_failed, ran ex_failed) = (D_returned, true, [7], []).
Proof. vm_compute. done. Qed.

Lemma ex_ctor : elastic_threadpool 1 1 = Ret (ex_pool 1 1).
Proof. reflexivity. Qed.
Lemma ex_ran : run ex_run (ex_pool 1 1) = Some (after 1 1 ex_run).
Proof. vm_compute. reflexivity. Qed.
Lemma ex_ran_serial : run_serial ex_run (ex_pool 1 1) = Some (after 1 1 ex_run).
Proof. vm_compute. reflexivity. Qed.

Lemma elastic_shutdown_drains_witness : ran (after 1 1 ex_run) ≡ₚ accepted (after 1 1 ex_run)
  /\ workers (after 1 1 ex_run) !! 0%nat = Some W_gone.
Proof.
  destruct (elastic_shutdown_drains 1 1 _ ex_run _ ex_ctor ex_ran) as (_ & _ & H).
  destruct H as (_ & _ & H); [vm_compute; reflexivity|]. split; [apply H; vm_compute; reflexivity|vm_compute; reflexivity].
Defined.

(** One worker waits, and nothing is left to do. *)
Definition ex_quiet : list label := [L_submit 7] ++ steps_of 0 7 ++ work_of 0 8.
Lemma ex_quiet_ran : run ex_quiet (ex_pool 1 1) = Some (after 1 1 ex_quiet).
Proof. vm_compute. reflexivity. Qed.
Lemma elastic_never_stuck_witness : q_items (workq (after 1 1 ex_quiet)) = [] /\ ran (after 1 1 ex_quiet) ≡ₚ accepted (after 1 1 ex_quiet).
Proof.
  destruct (elastic_never_stuck 1 1 _ ex_quiet _ ex_ctor ex_quiet_ran) as (H1 & _ & H2 & _); [vm_compute; reflexivity| |].
  - intros [t|i c b|j c| | |j|i|] Hl; try discriminate Hl; [destruct i as [|i]|destruct j as [|j]|]; vm_compute; reflexivity.
  - split; [exact H1|exact H2].
Defined.

Lemma elastic_within_limit_witness : nth (after 1 1 ex_run) <= 1 /\ wsum w_active (workers (after 1 1 ex_run)) <= 1.
Proof. exact (elastic_within_limit 1 1 _ ex_run _ ex_ctor ex_ran_serial). Defined.

