(* ===== verification/Stack.v ===== *)
(** * The disk cache between a mount and its upstream

    app_mount.cpp gives its callbacks a stack of backends; the interface is
    the class [Upstream] of Beget.  Here the disk cache of DiskCache, with the
    tasks of its pool, the evictor and the upstream below it, is an instance of
    that class, so that what MountRead proves of any backend that serves a file
    holds of a disk cache over an upstream that serves it.

    What the outside does is a sequence of occasions, one for each call of
    [refresh]: which tasks the pool has run by then, in any order, which files
    were evicted, and what the clocks, the system and the upstream answer.

    Theorems: whatever is cached, evicted, written late or not at all and
    however often the upstream fails, a reply of the cache is one its upstream
    gave for the same url, at most with other times; and a read through the
    cache is as correct as one without it. *)

From Stdlib Require Import Ascii String ZArith Lia.
From stdpp Require Import base gmap strings list numbers.
From S2P Require Import Prelude.
From S2P Require Import BackendHttp.
From S2P Require Import HttpRefresh.
From S2P Require Import StrUtils Threeroe SvTo Netstring PathUtils Expiring ContentCodec Backend DiskCache.
From S2P Require Import ServerParse ServerReply ClientReply StatSer EstaleCookie Inomap Beget OpenFileMap MountOps MountRead.

#[local] Open Scope Z_scope.

(** ** The cache with what runs beside it *)

Definition upstream_fn : Type := req123 -> reply123 -> outcome (bool * reply123).

(** The tasks the pool is given: [detached_upstream_refresh], and
    [serialize] in a lambda that catches everything. *)
Definition run_task (g : dc_config) (up : upstream_fn) (env : ser_env) (t : dc_task) : M dcache unit :=
  match t with
  | BgRefresh req path r => detached_upstream_refresh g up env req path r
  | BgSerialize r path url => try_M (serialize g env r path url) (fun _ => mret tt)
  end.

Inductive background :=
| B_task (k : nat) (env : ser_env) (up : upstream_fn)   (* the pool runs its task [k] *)
| B_evict (path : bytes)                                (* the evictor unlinks a file *)
| B_disconnected (b : bool).                            (* the option is changed *)

Definition take_task (k : nat) (s : dcache) : dcache :=
  DCache (dc_files s) (dc_recently s) (dc_disconnected s) (dc_rofs_defer_till s) (delete k (dc_tp s)) (dc_st s).
Definition set_disconnected (b : bool) (s : dcache) : dcache :=
  DCache (dc_files s) (dc_recently s) b (dc_rofs_defer_till s) (dc_tp s) (dc_st s).

Definition background_step (g : dc_config) (s : dcache) (b : background) : dcache :=
  match b with
  | B_task k env up =>
      match dc_tp s !! k with
      | Some t => (run_task g up env t (take_task k s)).2
      | None => s
      end
  | B_evict path => set_files (delete path (dc_files s)) s
  | B_disconnected b => set_disconnected b s
  end.

(** What the outside does around one call. *)
Record occasion := Occasion {
  o_before : list background;
  o_env : ser_env;
  o_ts : rf_clocks;
  o_up : upstream_fn;
  o_clock : Z
}.

Definition refresh_on (g : dc_config) (o : occasion) (req : req123) (s : dcache) : outcome reply123 * dcache :=
  refresh g (o_up o) (o_env o) (o_ts o) req (foldl (background_step g) s (o_before o)).

(** ** The cache as a backend of a mount *)

(** What app_mount.cpp calls as [be->refresh].  The state is the cache and the
    number of the occasion; no caller looks at the reply of a call that threw. *)
Definition cached (g : dc_config) (occ : nat -> occasion) : Upstream (nat * dcache) := {|
  be_refresh req reply w :=
    match refresh_on g (occ w.1) req w.2 with
    | (Ret r, s) => ((Ret tt, r), (S w.1, s))
    | (Throw e, s) => ((Throw e, reply), (S w.1, s))
    | (Undef, s) => ((Undef, reply), (S w.1, s))
    end;
  clk_now w := (o_clock (occ w.1), (S w.1, w.2));
  sleep_for _ w := w;
  fresh_blob _ w := ([], w);
  notify_inval_entry _ _ w := w;
  notify_inval_inode _ w := w
|}.

(** ** Steps that keep something and do not go wrong

    They may throw only if [X]. *)

Definition upholds {A} (X : Prop) (P : dcache -> Prop) (R : A -> Prop) (m : M dcache A) : Prop :=
  forall s, P s -> P (m s).2 /\ match (m s).1 with Ret a => R a | Throw _ => X | Undef => False end.

Section Keeps.
Context (X : Prop) (P : dcache -> Prop).

Lemma upholds_ret {A} (R : A -> Prop) a : R a -> upholds X P R (mret a).
Proof. by intros H s Hs. Qed.
Lemma upholds_raise {A} (R : A -> Prop) e : X -> upholds X P R (raise e).
Proof. by intros H s Hs. Qed.
Lemma upholds_modify f : (forall s, P s -> P (f s)) -> upholds X P (fun _ => True) (modify f).
Proof. intros H s Hs. split; [by apply H|done]. Qed.
Lemma upholds_lift {A} (R : A -> Prop) o : match o with Ret a => R a | Throw _ => X | Undef => False end -> upholds X P R (lift o).
Proof. intros H s Hs. by destruct o. Qed.
Lemma upholds_lift_eq {A} (a : A) : upholds X P (fun x => x = a) (lift (Ret a)).
Proof. by apply upholds_lift. Qed.
Lemma upholds_bind {A B} (R : A -> Prop) (R' : B -> Prop) m k :
  upholds X P R m -> (forall a, R a -> upholds X P R' (k a)) -> upholds X P R' (m ≫= k).
Proof.
  intros Hm Hk s Hs. destruct (Hm s Hs) as [H1 H2]. unfold mbind, M_bind. destruct (m s) as [[a|e|] s1]; cbn in *; [|done..].
  by apply Hk.
Qed.
Lemma upholds_then {A B} (R : B -> Prop) (m : M dcache A) k :
  upholds X P (fun _ => True) m -> upholds X P R k -> upholds X P R (m ≫= fun _ => k).
Proof. intros Hm Hk. eapply upholds_bind; [exact Hm|]. by intros. Qed.
Lemma upholds_get {A} (R : A -> Prop) (k : dcache -> M dcache A) : (forall s, P s -> upholds X P R (k s)) -> upholds X P R (get ≫= k).
Proof. intros H s Hs. by apply H. Qed.
Lemma upholds_try {A} Y (R : A -> Prop) m h : upholds Y P R m -> (Y -> forall e, upholds X P R (h e)) -> upholds X P R (try_M m h).
Proof.
  intros Hm Hh s Hs. destruct (Hm s Hs) as [H1 H2]. unfold try_M. destruct (m s) as [[a|e|] s1]; cbn in *; [done|by apply Hh|done].
Qed.
Lemma upholds_weaken {A} (R R' : A -> Prop) m : (forall a, R a -> R' a) -> upholds X P R m -> upholds X P R' m.
Proof. intros H Hm s Hs. destruct (Hm s Hs) as [H1 H2]. split; [done|]. destruct (m s).1; [by apply H|done|done]. Qed.
End Keeps.

(** ** Replies of the upstream *)

Section Transparent.
Context (g : dc_config) (U : bytes -> Prop) (Q : bytes -> reply123 -> Prop).

(** [Q url r] is that [r] is a reply to [url].  The names of the files of the
    urls in use do not collide, and replies can be stored. *)
Record storable : Prop := {
  st_digits : 0 <= hexdigits g < 32;
  st_hash u u' : U u -> U u' -> hash g u = hash g u' -> u = u';
  st_writable u r : Q u r -> writable r u;
  st_times u r : Q u r -> 0 <= expires r < 2 ^ 62 /\ 0 <= stale_while_revalidate r < 2 ^ 61
}.

Definition known (u : bytes) (r : reply123) : Prop := r = reply_default \/ Q u r.

(** An upstream that is given nothing or a reply to the same url, and answers
    with a reply to it; it throws, or misunderstands a request without caches,
    only if [X], and otherwise answers that with one that is [N]ew. *)
Definition gives (X : Prop) (N : bytes -> reply123 -> Prop) (up : upstream_fn) : Prop := forall req r, U (urlstem req) -> known (urlstem req) r ->
  match up req r with
  | Ret (b, r') => Q (urlstem req) r' /\ (no_cache req = true -> X \/ b = true /\ N (urlstem req) r')
  | Throw _ => X
  | Undef => False
  end.
(** One that may throw, and answers with a reply to the url if it does not. *)
Definition answers : upstream_fn -> Prop := gives True (fun _ _ => True).
Definition writes (env : ser_env) : Prop := forall n, write_res env n <> Undef.

Definition task_ok (t : dc_task) : Prop :=
  match t with
  | BgRefresh req path r => U (urlstem req) /\ path = hash g (urlstem req) /\ known (urlstem req) r
  | BgSerialize r path url => U url /\ path = hash g url /\ Q url r
  end.

(** Every file is one [serialize] wrote of a reply to its url. *)
Record coherent (s : dcache) : Prop := {
  co_files u f : U u -> dc_files s !! hash g u = Some f -> exists r, Q u r /\ f = file_bytes r u;
  co_tasks : Forall task_ok (dc_tp s)
}.

Definition background_ok (b : background) : Prop :=
  match b with B_task _ env up => writes env /\ answers up | _ => True end.

(** Numbers of requests in seconds, and of clocks, that the arithmetic of the
    cache can take: up to 31 years, and after 2001. *)
Record sane_req (req : req123) : Prop := {
  sr_past : 0 <= past_stale_while_revalidate req <= 10 ^ 9;
  sr_sie : 0 <= stale_if_error req <= 10 ^ 9;
  sr_max : match max_stale req with Some m => 0 <= m <= 10 ^ 9 | None => True end
}.
Definition sane_clock (t : Z) : Prop := 10 ^ 18 < t < 2 ^ 62.
Record sane_clocks (ts : rf_clocks) : Prop := {
  sc_ttl : sane_clock (t_ttl ts); sc_ttl2 : sane_clock (t_ttl2 ts); sc_recent : sane_clock (t_recent ts) }.

Context (Hst : storable).

Lemma zlen_hash u : zlen (hash g u) = 33.
Proof.
  destruct (st_digits Hst) as [H0 H1]. unfold hash. set (hd := hexdigest _).
  assert (zlen hd = 32) as Hl by (unfold zlen, hd; by rewrite length_hexdigest).
  rewrite !zlen_app, zlen_ztake, zlen_zdrop by lia. change (zlen (lit "/")) with 1. lia.
Qed.
Lemma hash_ne_new u u' : hash g u <> dot_new (hash g u').
Proof. intros E. apply (f_equal zlen) in E. unfold dot_new in E. rewrite zlen_app, !zlen_hash in E. by change (zlen (lit ".new")) with 4 in E. Qed.

Lemma serialize_still env r path url s :
  dc_tp (serialize g env r path url s).2 = dc_tp s
  /\ dc_disconnected (serialize g env r path url s).2 = dc_disconnected s.
Proof.
  unfold serialize. unfold mbind, M_bind, get. cbv beta iota. destruct (_ <? _); [done|]. destruct (_ <? _); [done|].
  destruct (open_err env) as [eno|]; [by destruct (eno =? EROFS)|]. destruct (dc_files s !! _); [done|].
  unfold modify, try_M, raise, lift. cbn [set_files dc_files]. destruct (bool_decide _); cbn [negb]; [|done].
  destruct (write_res env _) as [wrote|e|]; [|done..]. destruct (negb _); [done|]. by destruct (rename_res env).
Qed.

Lemma coherent_serialize d env r u : writes env -> U u -> Q u r ->
  upholds True (fun s => coherent s /\ dc_disconnected s = d) (fun _ => True) (serialize g env r (hash g u) u).
Proof.
  intros Hw Hu Hr s [[Hf Ht] Hd].
  destruct (serialize_cases g env r (hash g u) u s) as (Hother & _ & Hpath); [by apply hash_not_new, Hst|done|].
  destruct (serialize_still env r (hash g u) u s) as [Etp Ed].
  split; [|by destruct (serialize _ _ _ _ _ s).1].
  split; [|congruence]. split; [|by rewrite Etp].
  intros u' f Hu' E. destruct (decide (hash g u' = hash g u)) as [Eh|Hne].
  - apply (st_hash Hst) in Eh as ->; [|done..].
    destruct (serialize _ _ _ _ _ s).1; [|congruence|done]. destruct Hpath as [E'|[E' _]]; rewrite E' in E; [by eapply Hf|].
    injection E as <-. by exists r.
  - rewrite Hother in E; [by eapply Hf|done|apply hash_ne_new].
Qed.

Lemma deserialize_known s stamp u : coherent s -> U u ->
  exists r, deserialize stamp (hash g u) s = (Ret r, s) /\ known u r.
Proof.
  intros [Hf _] Hu. unfold deserialize. rewrite (M_bind_Ret get _ s s s eq_refl).
  destruct (dc_files s !! hash g u) as [f|] eqn:E.
  - destruct (Hf u f Hu E) as (r & Hr & ->). rewrite (deserialize_file_bytes r u false) by by apply (st_writable Hst).
    exists r. split; [done|by right].
  - by exists reply_default; split; [|left].
Qed.

(** With the cache connected to its upstream or not, as [d] says. *)
Let I (d : bool) (s : dcache) : Prop := coherent s /\ dc_disconnected s = d.

Lemma I_modify X d f : (forall s, dc_files (f s) = dc_files s) -> (forall s, dc_tp (f s) = dc_tp s) ->
  (forall s, dc_disconnected (f s) = dc_disconnected s) -> upholds X (I d) (fun _ => True) (modify f).
Proof. intros H1 H2 H3. apply upholds_modify. intros s [[Hf Ht] Hd]. split; [split; rewrite ?H1, ?H2; done|by rewrite H3]. Qed.
Lemma I_stats X d f : upholds X (I d) (fun _ => True) (modify (set_stats f)).
Proof. by apply I_modify. Qed.
Lemma I_submit X d t : task_ok t -> upholds X (I d) (fun _ => True) (modify (submit t)).
Proof. intros H. apply upholds_modify. intros s [[Hf Ht] Hd]. split; [split; [done|]|done]. cbn. apply Forall_app. by rewrite Forall_singleton. Qed.

Lemma do_serialize_keeps (X : Prop) d env r u b : writes env -> U u -> Q u r -> (b || foreground_serialize g = true -> X) ->
  upholds X (I d) (fun _ => True) (do_serialize g env r (hash g u) u b).
Proof.
  intros Hw Hu Hr HX. unfold do_serialize. destruct (b || _); [|by apply I_submit].
  intros s Hs. destruct (coherent_serialize d env r u Hw Hu Hr s Hs) as [H1 H2]. split; [done|]. specialize (HX eq_refl). by destruct (serialize _ _ _ _ _ s).1.
Qed.

(** The reply to [req], new if it has to be. *)
Definition good (X : Prop) (N : bytes -> reply123 -> Prop) (req : req123) (r : reply123) : Prop :=
  Q (urlstem req) r /\ (no_cache req = true -> X \/ N (urlstem req) r).

Lemma upstream_refresh_keeps (X : Prop) N d up env req r b c : writes env -> U (urlstem req) -> gives X N up -> known (urlstem req) r ->
  (c = true -> Q (urlstem req) r) -> (b || foreground_serialize g = true -> X) -> (d = true -> X) ->
  upholds X (I d) (good X N req) (upstream_refresh g up env req (hash g (urlstem req)) r b c).
Proof.
  intros Hw Hu Hup Hr Hc Hb Hd. unfold upstream_refresh. apply upholds_get. intros s [_ Es].
  destruct (dc_disconnected s && c) eqn:E.
  - apply andb_prop in E as [E ->]. apply upholds_then; [apply I_stats|]. apply upholds_then; [apply I_stats|].
    apply upholds_ret. split; [auto|]. intros _. left. apply Hd. congruence.
  - eapply (upholds_bind _ _ (fun a => Q (urlstem req) a.2 /\ (no_cache req = true -> X \/ a.1 = true /\ N (urlstem req) a.2))).
    { apply upholds_lift. specialize (Hup req r Hu Hr). by destruct (up req r) as [[]|e|]. }
    intros [b' r'] [Hr' Hn]. cbn in Hr', Hn. assert (forall f, upholds X (I d) (good X N req)
        (modify (set_stats f);; do_serialize g env r' (hash g (urlstem req)) (urlstem req) b;; mret r')) as Hend.
    { intros f. apply upholds_then; [apply I_stats|]. apply upholds_then; [by apply do_serialize_keeps|].
      apply upholds_ret. split; [done|]. intros H. destruct (Hn H) as [|[]]; [by left|by right]. }
    destruct b'; [apply Hend|]. destruct (no_cache req) eqn:En; [|apply Hend].
    apply upholds_raise. by destruct (Hn eq_refl) as [|[]].
Qed.

Lemma run_task_keeps d env up t : writes env -> answers up -> task_ok t -> upholds True (I d) (fun _ => True) (run_task g up env t).
Proof.
  intros Hw Hup Ht. destruct t as [req path r|r path url]; cbn in *; destruct Ht as (Hu & -> & Hr).
  - unfold detached_upstream_refresh. apply (upholds_try _ _ True); [|intros _ e; by apply upholds_ret].
    eapply upholds_bind; [|intros a _; by apply upholds_ret].
    apply (upstream_refresh_keeps True (fun _ _ => True) d up env
      (Req (urlstem req) (stale_if_error req) (past_stale_while_revalidate req) (no_cache req) (Some 0) (no_peer_cache req)));
      by try discriminate.
  - apply (upholds_try _ _ True); [by apply coherent_serialize|intros _ e; by apply upholds_ret].
Qed.

Lemma background_coherent s b : coherent s -> background_ok b -> coherent (background_step g s b).
Proof.
  intros Hs Hb. destruct b as [k env up|path|b]; cbn [background_step].
  - destruct (dc_tp s !! k) as [t|] eqn:E; [|done]. destruct Hb as [Hw Hup]. destruct Hs as [Hf Ht].
    pose proof (Forall_lookup_1 _ _ _ _ Ht E) as Htask.
    destruct (run_task_keeps (dc_disconnected s) env up t Hw Hup Htask (take_task k s)) as [[H _] _]; [|done].
    split; [|done]. split; [done|]. by apply Forall_delete.
  - destruct Hs as [Hf Ht]. split; [|done]. intros u f Hu E. cbn in E. apply lookup_delete_Some in E as [_ E]. by eapply Hf.
  - by destruct Hs.
Qed.
Lemma background_connected s b : coherent s -> background_ok b -> (forall d, b <> B_disconnected d) ->
  dc_disconnected (background_step g s b) = dc_disconnected s.
Proof.
  intros Hs Hb Hne. destruct b as [k env up|path|b]; cbn [background_step]; [|done|by destruct (Hne b)].
  destruct (dc_tp s !! k) as [t|] eqn:E; [|done]. destruct Hb as [Hw Hup]. destruct Hs as [Hf Ht].
  pose proof (Forall_lookup_1 _ _ _ _ Ht E) as Htask.
  destruct (run_task_keeps (dc_disconnected s) env up t Hw Hup Htask (take_task k s)) as [[_ H] _]; [|done].
  split; [|done]. split; [done|]. by apply Forall_delete.
Qed.

(** *** [refresh] *)

Lemma known_times u r : known u r -> 0 <= expires r < 2 ^ 62 /\ 0 <= stale_while_revalidate r < 2 ^ 61.
Proof. intros [-> |H]; [by cbn|by eapply st_times]. Qed.

Lemma i64_ok z : - 2 ^ 63 <= z < 2 ^ 63 -> i64 z = Ret z.
Proof. intros H. unfold i64, in_i64, tp_min, tp_max. rewrite !(proj2 (Z.leb_le _ _)) by lia. done. Qed.
Lemma secs_ok n : 0 <= n <= 10 ^ 9 -> secs n = Ret (n * 1000000000).
Proof. intros H. apply i64_ok. lia. Qed.

Lemma net_swr_ok req r u : sane_req req -> known u r ->
  exists swr, net_swr req r = Ret swr /\ swr <= stale_while_revalidate r + 10 ^ 18.
Proof.
  intros [H1 _ H3] Hr. destruct (known_times u r Hr) as [_ Hs]. unfold net_swr. rewrite secs_ok by done. cbn [mbind outcome_bind].
  rewrite i64_ok by lia. cbn [mbind outcome_bind]. destruct (max_stale req) as [m|]; [|eexists; split; [done|lia]].
  rewrite secs_ok by done. cbn [mbind outcome_bind]. eexists. split; [done|]. destruct (Z.ltb_spec (m * 1000000000) (stale_while_revalidate r + past_stale_while_revalidate req * 1000000000)); lia.
Qed.
Lemma reply_ttl_ok now r u : sane_clock now -> known u r -> reply_ttl now r = Ret (expires r - now).
Proof. intros Hn Hr. destruct (known_times u r Hr) as [Hs _]. apply i64_ok. unfold sane_clock in Hn. lia. Qed.
Lemma usable_ok req r ttl : sane_req req -> exists b, usable req r ttl = Ret b /\ (b = true -> valid r = true).
Proof.
  intros [_ H2 _]. unfold usable. destruct (valid r); [|by exists false]. rewrite secs_ok by done. by eexists.
Qed.
Lemma known_valid u r : known u r -> valid r = true -> Q u r.
Proof. by intros [-> |]. Qed.

Lemma deserialize_keeps X d stamp u : U u -> upholds X (I d) (known u) (deserialize stamp (hash g u)).
Proof. intros Hu s [Hs Hd]. destruct (deserialize_known s stamp u Hs Hu) as (r & -> & Hr). done. Qed.

(** What the mount gets before its window for stale replies is over. *)
Lemma default_too_old now swr : sane_clock now -> swr <= stale_while_revalidate reply_default + 10 ^ 18 ->
  (0 <? expires reply_default - now) = false /\ (- swr <? expires reply_default - now) = false.
Proof. unfold sane_clock. cbn. intros. split; apply Z.ltb_ge; lia. Qed.

Lemma recently_keeps X d now u : sane_clock now -> upholds X (I d) (fun _ => True) (recently_refreshed now u).
Proof.
  intros Hn. unfold recently_refreshed. unfold sane_clock in Hn. rewrite i64_ok by lia.
  eapply upholds_bind; [apply upholds_lift_eq|]. intros _ ->. apply upholds_then; [by apply I_modify|]. apply upholds_get. intros s _.
  destruct (existsb _ _); [by apply upholds_ret|]. apply upholds_then; [by apply I_modify|]. by apply upholds_ret.
Qed.
Lemma maybe_bg_keeps X d now req r : sane_clock now -> U (urlstem req) -> known (urlstem req) r ->
  upholds X (I d) (fun _ => True) (maybe_bg_upstream_refresh now req (hash g (urlstem req)) r).
Proof.
  intros Hn Hu Hr. unfold maybe_bg_upstream_refresh. eapply upholds_bind; [by apply recently_keeps|].
  intros b _. destruct b; [apply I_stats|]. apply upholds_get. intros s _.
  destruct (dc_disconnected s); [apply I_stats|]. apply upholds_then; [apply I_stats|]. by apply I_submit.
Qed.

Lemma refresh_keeps (X : Prop) N d up env ts req : writes env -> gives X N up -> U (urlstem req) -> sane_req req -> sane_clocks ts ->
  (foreground_serialize g = true -> X) -> (d = true -> X) ->
  upholds X (I d) (good X N req) (refresh g up env ts req).
Proof.
  intros Hw Hup Hu Hreq [Ht1 Ht2 Hrec] Hfg Hd. unfold refresh. apply (upholds_try _ _ X); [|intros; by apply upholds_raise]. cbv zeta.
  eapply upholds_bind; [by apply deserialize_keeps|]. intros r Hr.
  destruct (net_swr_ok req r _ Hreq Hr) as (swr & -> & Hswr). eapply upholds_bind; [apply upholds_lift_eq|]. intros _ ->.
  rewrite (reply_ttl_ok (t_ttl ts) r _ Ht1 Hr). eapply upholds_bind; [apply upholds_lift_eq|]. intros _ ->.
  assert ((0 <? expires r - t_ttl ts) = true \/ (- swr <? expires r - t_ttl ts) = true -> Q (urlstem req) r) as HQ.
  { destruct Hr as [-> |]; [|done]. destruct (default_too_old (t_ttl ts) swr Ht1 Hswr) as [-> ->]. by intros []. }
  assert (forall x, negb (no_cache req) && x = true -> good X N req r <-> Q (urlstem req) r) as Hgood.
  { intros x Hx. apply andb_prop in Hx as [Hx%negb_true_iff _]. unfold good. rewrite Hx. by split; [intros []|]. }
  destruct (_ && (0 <? _)) eqn:E1.
  { apply upholds_then; [apply I_stats|]. apply upholds_ret, (Hgood _ E1). apply andb_prop in E1 as [_ E1].
    apply HQ. by left. }
  destruct (_ && (- swr <? _)) eqn:E2.
  { apply upholds_then; [apply I_stats|]. apply upholds_then; [by apply maybe_bg_keeps|].
    apply upholds_ret, (Hgood _ E2). apply andb_prop in E2 as [_ E2]. apply HQ. by right. }
  apply upholds_then; [apply I_stats|].
  destruct (usable_ok req r (expires r - t_ttl ts) Hreq) as (c & -> & Hc). eapply upholds_bind; [apply upholds_lift_eq|]. intros _ ->.
  apply (upholds_try _ _ X); [apply upstream_refresh_keeps; try done; intros ->; by eapply known_valid, Hc|].
  intros HX e. destruct c; [|by apply upholds_raise]. eapply upholds_bind; [by apply deserialize_keeps|]. intros r2 Hr2.
  rewrite (reply_ttl_ok (t_ttl2 ts) r2 _ Ht2 Hr2). eapply upholds_bind; [apply upholds_lift_eq|]. intros _ ->.
  destruct (usable_ok req r2 (expires r2 - t_ttl2 ts) Hreq) as (c2 & -> & Hc2). eapply upholds_bind; [apply upholds_lift_eq|]. intros _ ->.
  destruct c2; cbn [negb]; [|by apply upholds_raise]. apply upholds_then; [apply I_stats|]. apply upholds_ret.
  split; [by eapply known_valid, Hc2|by left].
Qed.

Lemma before_coherent l s : coherent s -> Forall background_ok l -> coherent (foldl (background_step g) s l).
Proof.
  intros Hs Hl. revert s Hs. induction Hl as [|b l Hb _ IH]; intros s Hs; [done|]. by apply IH, background_coherent.
Qed.
Lemma before_connected l s : coherent s -> Forall background_ok l -> Forall (fun b => forall d, b <> B_disconnected d) l ->
  dc_disconnected (foldl (background_step g) s l) = dc_disconnected s.
Proof.
  intros Hs Hl Hn. revert s Hs. induction Hl as [|b l Hb _ IH]; intros s Hs; [done|]. inversion_clear Hn. cbn.
  rewrite IH; [by apply background_connected|done|by apply background_coherent].
Qed.

(** An occasion on which nothing is wrong with the arithmetic. *)
Record sane_occasion (X : Prop) (N : bytes -> reply123 -> Prop) (o : occasion) : Prop := {
  so_before : Forall background_ok (o_before o);
  so_env : writes (o_env o);
  so_ts : sane_clocks (o_ts o);
  so_up : gives X N (o_up o)
}.

Lemma refresh_on_keeps o req s : sane_occasion True (fun _ _ => True) o -> U (urlstem req) -> sane_req req -> coherent s ->
  coherent (refresh_on g o req s).2
  /\ match (refresh_on g o req s).1 with Ret r => Q (urlstem req) r | Throw _ => True | Undef => False end.
Proof.
  intros [Hb He Ht Hup] Hu Hreq Hs. unfold refresh_on. set (s1 := foldl _ _ _).
  destruct (refresh_keeps True (fun _ _ => True) (dc_disconnected s1) (o_up o) (o_env o) (o_ts o) req) with (s := s1) as [[H1 _] H2];
    try done; [split; [by apply before_coherent|done]|].
  split; [done|]. destruct (refresh _ _ _ _ _ _).1; [by destruct H2|done..].
Qed.

(** On an occasion when the upstream does not fail. *)
Lemma refresh_on_serves N o req s : sane_occasion False N o -> Forall (fun b => forall d, b <> B_disconnected d) (o_before o) ->
  foreground_serialize g = false -> U (urlstem req) -> sane_req req -> coherent s -> dc_disconnected s = false ->
  exists r s', refresh_on g o req s = (Ret r, s') /\ coherent s' /\ dc_disconnected s' = false
    /\ Q (urlstem req) r /\ (no_cache req = true -> N (urlstem req) r).
Proof.
  intros [Hb He Ht Hup] Hn Hfg Hu Hreq Hs Hd. unfold refresh_on. set (s1 := foldl _ _ _).
  destruct (refresh_keeps False N false (o_up o) (o_env o) (o_ts o) req) with (s := s1) as [[H1 H2] H3]; try done; [congruence| |].
  { split; [by apply before_coherent|]. unfold s1. by rewrite before_connected. }
  destruct (refresh _ _ _ _ _ _) as [[r|e|] s']; [|done..]. destruct H3 as [HQ HN]. exists r, s'. split_and!; try done.
  intros H. by destruct (HN H).
Qed.
End Transparent.

(** ** Everything is from upstream *)

(** What a reply is but for its times. *)
Definition body (r : reply123) : Z * Z * Z * Z * Z * Z * bytes :=
  (eno72 r, etag64 r, estale_cookie72 r, chunk_next_offset72 r, chunk_next_meta72 r, content_encoding r, content r).

Definition stored (u : bytes) (r : reply123) : Prop :=
  writable r u /\ 0 <= expires r < 2 ^ 62 /\ 0 <= stale_while_revalidate r < 2 ^ 61.

(** Upstreams whose replies can be stored and which, when they say that a reply
    is still good, have changed at most its times. *)
Definition honest (U : bytes -> Prop) (ups : upstream_fn -> Prop) : Prop := forall up req r, ups up -> U (urlstem req) ->
  r = reply_default \/ stored (urlstem req) r ->
  match up req r with
  | Ret (b, r') => stored (urlstem req) r' /\ (b = false -> valid r = true /\ body r' = body r)
  | Throw _ => True
  | Undef => False
  end.

(** [r] has the contents of a new answer to a request for [u]. *)
Definition from_upstreams (ups : upstream_fn -> Prop) (u : bytes) (r : reply123) : Prop :=
  exists up req r0 r1, ups up /\ urlstem req = u /\ up req r0 = Ret (true, r1) /\ body r = body r1.

Fixpoint cache_run (g : dc_config) (l : list (occasion * req123)) (s : dcache) : list (outcome reply123) :=
  match l with
  | [] => []
  | (o, req) :: l => let '(r, s') := refresh_on g o req s in r :: cache_run g l s'
  end.

Definition ups_of (o : occasion) (up : upstream_fn) : Prop := up = o_up o \/ exists k env, B_task k env up ∈ o_before o.

Lemma honest_answers U ups up : honest U ups -> ups up ->
  answers U (fun u r => stored u r /\ from_upstreams ups u r) up.
Proof.
  intros Hh Hup req r Hu Hr. assert (r = reply_default \/ stored (urlstem req) r) as Hs by (destruct Hr as [|[]]; [by left|by right]).
  specialize (Hh up req r Hup Hu Hs). destruct (up req r) as [[b r']|e|] eqn:E; [|done..]. destruct Hh as [H1 H2].
  split; [split; [done|]|by left]. destruct b; [by exists up, req, r, r'|].
  destruct (H2 eq_refl) as [Hv Hb]. destruct Hr as [-> |[_ (up' & req' & r0 & r1 & ? & ? & ? & ?)]]; [done|].
  exists up', req', r0, r1. by rewrite Hb.
Qed.

(** C12.  Whatever the upstream answers, and fails to, between the calls of a
    cache that starts empty, and whatever its pool has run, late, in another
    order or not at all, whatever was evicted or could not be written, and
    whenever the cache is disconnected: each call throws or returns a reply
    that has the contents of an answer an upstream gave, as new, to a request
    for the same url.  (The urls in use have no two names that collide.) *)
Theorem cache_transparent g U ups l s :
  0 <= hexdigits g < 32 -> (forall u u', U u -> U u' -> hash g u = hash g u' -> u = u') ->
  honest U ups -> (forall o req up, (o, req) ∈ l -> ups_of o up -> ups up) ->
  (forall o req, (o, req) ∈ l -> U (urlstem req) /\ sane_req req /\ sane_clocks (o_ts o) /\ writes (o_env o)
     /\ forall k env up, B_task k env up ∈ o_before o -> writes env) ->
  dc_files s = ∅ -> dc_tp s = [] ->
  Forall2 (fun a out => match out with
     | Ret r => from_upstreams ups (urlstem a.2) r
     | Throw _ => True
     | Undef => False
     end) l (cache_run g l s).
Proof.
  intros Hd Hh Hhon Hups Hsane Hf Ht.
  assert (storable g U (fun u r => stored u r /\ from_upstreams ups u r)) as Hst.
  { split; [done|done|by intros u r [[? ?] _]|by intros u r [[? ?] _]]. }
  assert (coherent g U (fun u r => stored u r /\ from_upstreams ups u r) s) as Hs.
  { split; [intros u f _; by rewrite Hf, lookup_empty|by rewrite Ht]. }
  clear Hf Ht. revert s Hs. induction l as [|[o req] l IH]; intros s Hs; [constructor|].
  destruct (Hsane o req) as (Hu & Hreq & Hts & Hw & Hwb); [by left|].
  assert (sane_occasion U (fun u r => stored u r /\ from_upstreams ups u r) True (fun _ _ => True) o) as Ho.
  { split; [|done|done|apply (honest_answers U ups); [done|]; apply (Hups o req); [by left|by left]].
    apply list.Forall_forall. intros [k env up|path|b] Hb; cbn; [|done..]. split; [exact (Hwb k env up Hb)|].
    apply (honest_answers U ups); [done|]. apply (Hups o req); [by left|]. right. eauto. }
  destruct (refresh_on_keeps g U _ Hst o req s Ho Hu Hreq Hs) as [Hs' Hr].
  cbn [cache_run]. destruct (refresh_on g o req s) as [out s'] eqn:E. constructor.
  - cbn in *. destruct out; [by destruct Hr|done..].
  - apply IH; [intros o' req' up H; apply (Hups o' req'); by right|intros o' req' H; apply Hsane; by right|done].
Qed.

(** *** Over HTTP *)

(** backend123_http as the upstream, with the reply the caller points to. *)
Definition http_up `{LC : BackendHttp.Libcurl} aicache_lookup cfg ck (s : BackendHttp.hst) : upstream_fn := fun req r =>
  match BackendHttp.refresh aicache_lookup cfg ck req (BackendHttp.set_reply r s) with
  | (Ret b, s') => Ret (b, BackendHttp.h_reply s')
  | (Throw e, _) => Throw e
  | (Undef, _) => Undef
  end.

(** It never changes more than the times of a reply it says is still good: its
    answers have only to be storable, and a server must not say 304 to a
    request without a tag. *)
Lemma http_honest `{LC : BackendHttp.Libcurl} aicache_lookup cfg ck s U :
  (forall req r, U (urlstem req) -> r = reply_default \/ stored (urlstem req) r ->
    match http_up aicache_lookup cfg ck s req r with
    | Ret (b, r') => stored (urlstem req) r' /\ (b = false -> valid r = true)
    | Throw _ => True
    | Undef => False
    end) -> honest U (eq (http_up aicache_lookup cfg ck s)).
Proof.
  intros H up req r <- Hu Hr. specialize (H req r Hu Hr). unfold http_up in *.
  pose proof (HttpRefresh.refresh_after aicache_lookup cfg ck req (BackendHttp.set_reply r s)) as Ha. cbv zeta in Ha.
  destruct (BackendHttp.refresh _ _ _ _ _) as [[b|e|] s']; [|done..]. cbn in *. destruct H as [Hs Hv]. split; [done|].
  intros ->. split; [by apply Hv|]. destruct Ha as [(_ & _ & _ & ->)|(h & cont & age & ma & swr & _ & _ & E)]; [done|].
  unfold BackendHttp.revalidated in E. repeat (apply bind_Ret in E as (? & _ & E)). by injection E as <-.
Qed.

(** ** A mount over the cache *)

Section Mounted.
Context (g : dc_config) (occ : nat -> occasion) {T L : Type} {HW : Host (nat * dcache)}.
Context {HU : UMap Z begetattr_t T} {HL : UMap Z (expiring bytes) L} `{SB : Secretbox}.
Context (cfg : mount_config) (fuel : nat).
Context (chunks : Z -> Prop) (version : Z -> bytes) (esc ino : Z) (fname : bytes) (iv : Z) (i0 : inomap).
#[local] Instance upstream_of_mount : Upstream (nat * dcache) := cached g occ.

(** The urls of the chunks of the file, and the replies to them. *)
Definition stem (k : Z) : bytes := urlstem (filereq (m_req cfg) fname (Fs123Chunk cfg) k).
Definition a_chunk (k : Z) : Prop := chunks k /\ 0 <= k < 2 ^ 62.
Definition file_urls (u : bytes) : Prop := exists k, a_chunk k /\ u = stem k.
Definition file_replies (u : bytes) (r : reply123) : Prop :=
  exists k v, a_chunk k /\ u = stem k /\ chunk_reply cfg version esc v k r /\ stored u r.
Definition new_enough (u : bytes) (r : reply123) : Prop :=
  exists k v, a_chunk k /\ u = stem k /\ chunk_reply cfg version esc v k r /\ iv <= v.

(** A cache with a pool, and an upstream that serves the file: its answers are
    chunks of some version of it, and those to requests without caches of one
    not older than [iv].  The upstream of the tasks of the pool may fail. *)
Record cached_file : Prop := {
  cf_digits : 0 <= hexdigits g < 32;
  cf_hash k k' : a_chunk k -> a_chunk k' -> hash g (stem k) = hash g (stem k') -> k = k';
  cf_pool : foreground_serialize g = false;
  cf_req : sane_req (req_ctor (m_req cfg) []);
  cf_occ n : sane_occasion file_urls file_replies False new_enough (occ n);
  cf_connected n : Forall (fun b => forall d, b <> B_disconnected d) (o_before (occ n))
}.
Context (Hcf : cached_file).

Lemma file_storable : storable g file_urls file_replies.
Proof.
  split; [apply Hcf| | |].
  - intros u u' (k & Hk & ->) (k' & Hk' & ->) E. f_equal. by apply (cf_hash Hcf).
  - by intros u r (k & v & _ & _ & _ & [? ?]).
  - by intros u r (k & v & _ & _ & _ & [? ?]).
Qed.

Definition ready_cache (w : nat * dcache) : Prop :=
  coherent g file_urls file_replies w.2 /\ dc_disconnected w.2 = false.

Lemma cached_serves : serves_file cfg ready_cache chunks version esc fname iv.
Proof.
  split; [by intros w|]. intros k nc [n s] [Hs Hd] Hck Hk. cbn in Hs, Hd.
  set (req := set_no_cache nc (filereq (m_req cfg) fname (Fs123Chunk cfg) k)).
  destruct (refresh_on_serves g file_urls file_replies file_storable new_enough (occ n) req s)
    as (r & s' & E & Hs' & Hd' & HQ & HN); try done; try apply Hcf.
  { by exists k. }
  { destruct (cf_req Hcf) as [H1 H2 _]. by split. }
  assert (forall k', a_chunk k' -> urlstem req = stem k' -> k = k') as Hinj.
  { intros k' Hk' Eu. apply (cf_hash Hcf); [done|done|]. by rewrite <- Eu. }
  cbn [be_refresh upstream_of_mount cached fst snd]. rewrite E. destruct nc.
  - destruct (HN eq_refl) as (k' & v & Hk' & Eu & Hr & Hv). apply Hinj in Eu as <-; [|done]. by exists v, r, (S n, s').
  - destruct HQ as (k' & v & Hk' & Eu & Hr & _). apply Hinj in Eu as <-; [|done]. by exists v, r, (S n, s').
Qed.

(** C4.  Reading through the disk cache is as correct as reading without it.
    Over an upstream that serves a file, and with whatever was in the cache of
    it, whatever the pool has stored by then and whatever the evictor has
    removed, a read of the mount inside the kernel's limits always succeeds
    with exactly the bytes asked for, of versions no older than the table's:
    a chunk that the cache has in an older version is asked for again. *)
Theorem cached_read_correct size off fi (s : mst (W := nat * dcache) (T := T) (L := L)) :
  plain_mount cfg fuel -> known_inode esc ino fname iv i0 ->
  MountRead.ready ready_cache i0 (begets s) -> handle_ok ino (fi_fh fi) (openfiles s) ->
  0 <= off < 2 ^ 62 -> 0 <= size <= chunkbytes cfg ->
  chunks (off / chunkbytes cfg * Fs123Chunk cfg) -> chunks ((off / chunkbytes cfg + 1) * Fs123Chunk cfg) ->
  exists s' v0 v1 k, fs123_read cfg fuel ino size off fi s = (Ret tt, s')
    /\ MountRead.ready ready_cache i0 (begets s') /\ sent s' = sent s ++ [k] /\ iv <= v0 /\ iv <= v1
    /\ reply_bytes k = Some (two_chunks (version v0) (version v1) (chunkbytes cfg) off size).
Proof.
  intros Hmount Hfile Hr Hh Hoff Hsize H0 H1.
  destruct (read_try_correct cfg fuel ready_cache chunks version esc ino fname iv i0 cached_serves Hmount Hfile size off fi s)
    as (s' & v0 & v1 & k & E & H); [done..|].
  exists s', v0, v1, k. split; [|exact H]. unfold fs123_read, caught, try_M. by rewrite E.
Qed.
End Mounted.

(** ** A cache with an old chunk of a file of two versions *)

Definition sx_now : Z := 1700000000 * 10 ^ 9.
Definition sx_reply (expires : Z) (c : bytes) : reply123 :=
  Reply MAGIC 0 expires 7 sx_now (60 * 10 ^ 9) 0 (-1) CNO_MISSING CE_IDENT (content_hexdigest c) c.
Definition sx_chunk (expires v k : Z) : reply123 :=
  sx_reply expires (body73 (f_pairs (lit "/fs123/7/3/f/d/f") 42 v) (slice (wx_version v) (k * 1024) 1024)).
Definition sx_stem : Z -> bytes := stem wx_read_cfg (lit "/d/f").
Definition sx_chunks (k : Z) : Prop := k = 0 \/ k = 1.

(** The upstream has the new version; the cache the first chunk of the old
    one, which is still fresh. *)
Definition sx_up : upstream_fn := fun req _ =>
  match svto T_i64 (zdrop 9 (urlstem req)) 0 with
  | Ret k => Ret (true, sx_chunk (sx_now + 100 * 10 ^ 9) 9 k)
  | _ => Throw (EHttp 404)
  end.
Definition sx_clocks : rf_clocks := RfClocks (sx_now + 1) (sx_now + 2) (sx_now + 3) (lit "1.0") (lit "1.1").
Definition sx_g : dc_config := DcConfig 1 2 false 16777216.
(** By the third call the pool has stored the reply of the second. *)
Definition sx_occ (n : nat) : occasion :=
  Occasion (match n with S (S _) => [B_task 0 env_ex sx_up] | _ => [] end) env_ex sx_clocks sx_up sx_now.
Definition sx_cache : dcache :=
  DCache {[hash sx_g (sx_stem 0) := file_bytes (sx_chunk (sx_now + 50 * 10 ^ 9) 6 0) (sx_stem 0)]} [] false 0 [] stats0.

Lemma sx_stored e v k : sx_chunks k -> v = 6 \/ v = 9 -> sx_now <= e <= sx_now + 100 * 10 ^ 9 -> stored (sx_stem k) (sx_chunk e v k).
Proof.
  intros Hk Hv He. unfold sx_now in He.
  assert (digest_ok (sx_chunk e v k)) as Hdig by reflexivity.
  assert (zlen (content_hexdigest (content (sx_chunk e v k))) = 32) as H32 by (unfold zlen, content_hexdigest; by rewrite length_hexdigest).
  assert (zlen (content (sx_chunk e v k)) < 2 ^ 40 /\ zlen (sx_stem k) < 2 ^ 31) as [Hc Hs]
    by (destruct Hk as [-> | ->], Hv as [-> | ->]; split; vm_compute; reflexivity).
  split; [|cbn; lia]. split; [|done..]. split; try exact H32; cbn; unfold MAGIC, CNO_MISSING, CE_IDENT, sx_now; try lia; split; done.
Qed.

Lemma sx_chunk_reply e v k : v = 6 \/ v = 9 -> sx_now <= e <= sx_now + 100 * 10 ^ 9 ->
  chunk_reply wx_read_cfg wx_version 42 v k (sx_chunk e v k).
Proof.
  intros Hv He. split; [done|]. split.
  { exists (e - sx_now). unfold reply_max_age, i64, in_i64, tp_min, tp_max. cbn [expires last_refresh sx_chunk sx_reply]. unfold sx_now in *.
    by rewrite !(proj2 (Z.leb_le _ _)) by lia. }
  split; [done|]. split; [destruct Hv as [-> | ->]; lia|]. exists (lit "/fs123/7/3/f/d/f"). split; [vm_compute; discriminate|done].
Qed.
Lemma sx_up_answers req k : 0 <= k < 2 ^ 62 -> urlstem req = sx_stem k ->
  forall r, sx_up req r = Ret (true, sx_chunk (sx_now + 100 * 10 ^ 9) 9 k).
Proof.
  intros Hk Hu r. unfold sx_up. rewrite Hu. change (sx_stem k) with (lit "/f/d/f?1;" ++ to_string k).
  rewrite zdrop_app, svto_to_string by (done || (unfold in_type; cbn; lia)). done.
Qed.

Lemma sx_occ_sane X n : sane_occasion (file_urls wx_read_cfg sx_chunks (lit "/d/f"))
  (file_replies wx_read_cfg sx_chunks wx_version 42 (lit "/d/f")) X
  (new_enough wx_read_cfg sx_chunks wx_version 42 (lit "/d/f") 7) (sx_occ n).
Proof.
  assert (forall Y N, (forall u k, a_chunk sx_chunks k -> u = sx_stem k -> N u (sx_chunk (sx_now + 100 * 10 ^ 9) 9 k)) ->
    gives (file_urls wx_read_cfg sx_chunks (lit "/d/f")) (file_replies wx_read_cfg sx_chunks wx_version 42 (lit "/d/f")) Y N sx_up) as Hup.
  { intros Y N HN req r (k & Hk & Hu) _. rewrite (sx_up_answers req k (proj2 Hk) Hu).
    split; [|intros _; right; split; [done|by apply HN]]. exists k, 9. split_and!; [done|done|apply sx_chunk_reply; [by right|lia]|].
    rewrite Hu. apply sx_stored; [apply Hk|by right|lia]. }
  split; [|done|split; cbn; split; vm_compute; reflexivity|].
  - assert (background_ok (file_urls wx_read_cfg sx_chunks (lit "/d/f")) (file_replies wx_read_cfg sx_chunks wx_version 42 (lit "/d/f"))
      (B_task 0 env_ex sx_up)) as Hb by (split; [done|by apply Hup]).
    destruct n as [|[|n]]; cbn; [done|done|]. by constructor.
  - apply Hup. intros u k Hk ->. exists k, 9. split_and!; [done|done|apply sx_chunk_reply; [by right|lia]|lia].
Qed.

Lemma sx_hash_ne : hash sx_g (sx_stem 0) <> hash sx_g (sx_stem 1).
Proof. apply (bool_decide_eq_false_1 (hash sx_g (sx_stem 0) = hash sx_g (sx_stem 1))). vm_compute. reflexivity. Qed.
Lemma sx_cached : cached_file sx_g sx_occ wx_read_cfg sx_chunks wx_version 42 (lit "/d/f") 7.
Proof.
  split; [done| |done|split; cbn; lia|apply sx_occ_sane|].
  - intros k k' [[-> | ->] _] [[-> | ->] _] E; [reflexivity|destruct (sx_hash_ne E)|destruct (sx_hash_ne (eq_sym E))|reflexivity].
  - intros n. destruct n as [|[|n]]; cbn; [done|done|]. by repeat constructor.
Qed.

Definition sx_state (s : dcache) : mst (W := nat * dcache) (T := gmap Z begetattr_t) (L := gmap Z (expiring bytes)) :=
  Mst (Cst wx_read_inos (cache_ctor (K := Z) (V := attrcache_value_t) 100) None (0%nat, s)) ofm_init
    (cache_ctor (K := Z) (V := bytes) 100) ∅ ∅ 1 0 [].

Lemma sx_ready : ready_cache sx_g wx_read_cfg sx_chunks wx_version 42 (lit "/d/f") (0%nat, sx_cache).
Proof.
  split; [|done]. split; [|done]. intros u f (k & [Hk _] & ->) E.
  change (({[hash sx_g (sx_stem 0) := file_bytes (sx_chunk (sx_now + 50 * 10 ^ 9) 6 0) (sx_stem 0)]} : gmap bytes bytes)
    !! hash sx_g (sx_stem k) = Some f) in E.
  apply lookup_singleton_Some in E as [Eh <-]. exists (sx_chunk (sx_now + 50 * 10 ^ 9) 6 0).
  assert (k = 0) as ->.
  { destruct Hk as [-> | ->]; [reflexivity|destruct (sx_hash_ne Eh)]. }
  split; [|done]. exists 0, 6. split; [split; [by left|lia]|]. split; [done|]. split; [apply sx_chunk_reply; [by left|unfold sx_now; lia]|].
  apply (sx_stored _ _ 0); [by left|by left|unfold sx_now; lia].
Qed.

#[local] Instance sx_host : Host (nat * dcache) := {
  geteuid w := 0; getegid w := 0; special_report n w := ([], w); direntry_size n := 0;
  complaint_throws _ _ := false }.

(** The 600 bytes from 1000 on: the first chunk comes from the file of the
    cache, is too old and is asked for again, the second one is a miss. *)
Lemma cached_read_correct_witness :
  exists s' v0 v1 k,
    fs123_read (SB := toy_box) (UW := cached sx_g sx_occ) wx_read_cfg 13 wx_file 600 1000 (FI 0 0 false false) (sx_state sx_cache) = (Ret tt, s')
    /\ 7 <= v0 /\ 7 <= v1 /\ sent s' = [k]
    /\ reply_bytes k = Some (two_chunks (wx_version v0) (wx_version v1) 1024 1000 600).
Proof.
  destruct (cached_read_correct (SB := toy_box) sx_g sx_occ wx_read_cfg 13 sx_chunks wx_version 42 wx_file (lit "/d/f") 7
      wx_read_inos sx_cached 600 1000 (FI 0 0 false false) (sx_state sx_cache) wx_plain wx_known)
    as (s' & v0 & v1 & k & E & _ & Hs & H0 & H1 & Hb);
    [split; [exact sx_ready|reflexivity]|left; reflexivity|lia|split; vm_compute; congruence
    |left; reflexivity|right; reflexivity|].
  exists s', v0, v1, k. split; [exact E|]. split; [exact H0|]. split; [exact H1|]. split; [exact Hs|exact Hb].
Defined.

Example cached_read_across :
  sent (fs123_read (SB := toy_box) (UW := cached sx_g sx_occ) wx_read_cfg 13 wx_file 600 1000 (FI 0 0 false false) (sx_state sx_cache)).2
  = [K_iov [replicate 24 "n"%char; replicate 476 "n"%char]].
Proof. vm_compute. reflexivity. Qed.

(** ** A cache that misses, stores, and answers on its own *)

Definition tx_url : bytes := lit "/a/b".
Definition tx_up : upstream_fn := fun _ r =>
  if valid r then Ret (false, Reply (magic r) (eno72 r) (sx_now + 90 * 10 ^ 9) (etag64 r) (last_refresh r) (stale_while_revalidate r)
                        (estale_cookie72 r) (chunk_next_offset72 r) (chunk_next_meta72 r) (content_encoding r)
                        (content_threeroe r) (content r))
  else Ret (true, sx_reply (sx_now + 10) (lit "data")).
Definition tx_req : req123 := Req tx_url 10 0 false None false.
(** A miss; a hit, from what the pool has stored; and 304, with the upstream
    asked again when the reply has expired. *)
Definition tx_later : rf_clocks := RfClocks (sx_now + 61 * 10 ^ 9) (sx_now + 61 * 10 ^ 9) (sx_now + 61 * 10 ^ 9) (lit "2.0") (lit "2.1").
Definition tx_run : list (occasion * req123) :=
  [(Occasion [] env_ex sx_clocks tx_up sx_now, tx_req);
   (Occasion [B_task 0 env_ex tx_up] env_ex sx_clocks tx_up sx_now, tx_req);
   (Occasion [B_disconnected false] env_ex tx_later tx_up sx_now, tx_req)].
Definition tx_first : reply123 := sx_reply (sx_now + 10) (lit "data").
Definition tx_again : reply123 := sx_reply (sx_now + 90 * 10 ^ 9) (lit "data").
Example tx_seen : cache_run sx_g tx_run cache0 = [Ret tx_first; Ret tx_first; Ret tx_again].
Proof. vm_compute. reflexivity. Qed.

Lemma tx_stored : stored tx_url tx_first.
Proof.
  split; [|vm_compute; intuition (discriminate || reflexivity)].
  split; [split|..]; vm_compute; intuition (discriminate || reflexivity).
Qed.
Lemma tx_honest : honest (eq tx_url) (eq tx_up).
Proof.
  intros up req r <- <- Hr. unfold tx_up. destruct (valid r) eqn:Ev.
  - destruct Hr as [-> |([[] Hm Hd Hc Hu] & He & Hs)]; [discriminate|]. split; [|done].
    split; [|split; [cbn; unfold sx_now; lia|done]]. split; [|done..]. split; cbn; first [done|unfold sx_now; lia].
  - split; [exact tx_stored|done].
Qed.

Lemma cache_transparent_witness : from_upstreams (eq tx_up) tx_url tx_again.
Proof.
  assert (Forall2 (fun a out => match out with Ret r => from_upstreams (eq tx_up) (urlstem a.2) r | Throw _ => True | Undef => False end)
    tx_run (cache_run sx_g tx_run cache0)) as H.
  { apply (cache_transparent sx_g (eq tx_url) (eq tx_up) tx_run cache0).
    - split; [discriminate|reflexivity].
    - intros u u' <- <- _. reflexivity.
    - exact tx_honest.
    - intros o req up Ho Hup. unfold tx_run in Ho. rewrite !elem_of_cons, elem_of_nil in Ho.
      destruct Ho as [[= -> ->]|[[= -> ->]|[[= -> ->]|[]]]]; (destruct Hup as [-> |(k & env & Hb)]; [reflexivity|]); cbn in Hb;
        rewrite ?elem_of_cons, ?elem_of_nil in Hb; destruct Hb as [Hb|[]] || destruct Hb; try discriminate Hb.
      injection Hb as _ _ ->. reflexivity.
    - intros o req Ho. unfold tx_run in Ho. rewrite !elem_of_cons, elem_of_nil in Ho.
      destruct Ho as [[= -> ->]|[[= -> ->]|[[= -> ->]|[]]]];
        (split; [reflexivity|split; [split; cbn; lia|split; [split; split; vm_compute; reflexivity|split; [discriminate|]]]]);
        intros k env up Hb; cbn in Hb; rewrite ?elem_of_cons, ?elem_of_nil in Hb; destruct Hb as [Hb|[]] || destruct Hb; try discriminate Hb.
      injection Hb as _ -> _. discriminate.
    - reflexivity.
    - reflexivity. }
  rewrite tx_seen in H. apply Forall2_cons_1 in H as [_ H]. apply Forall2_cons_1 in H as [_ H]. apply Forall2_cons_1 in H as [H _]. exact H.
Defined.
